(* ===== verification/_CoqProject ===== *)
-Q . S2P
Prelude.v
RunStatus.v
Failure.v
Risk.v
Dsl.v
Plan.v
Concur.v
Batch.v
Rollback.v
Lock.v
Verify.v
LockService.v
LockInstance.v
Closure.v
Rely.v
Approval.v
Table.v
Sha256.v
Canonical.v
TraceChain.v
AuditLog.v
Cluster.v
Dispatch.v
DispatchSweep.v
Takeover.v
Limiter.v
Lifecycle.v
Governance.v
ApplyGate.v
Condition.v
Access.v
RoleFile.v
Authz.v
AuthzGate.v
Evidence.v
Remedy.v
Sql.v
Store.v
Quota.v
Tenant.v
Isolation.v
Confine.v
PgStore.v
GoStd.v
Cron.v
Calendar.v
Conflict.v
ChangeWindow.v
Json.v
PlanHash.v
Validator.v
TypeCheck.v
Inputs.v
Gates.v
