(* ===== verification/Prelude.v ===== *)
(** * LEVEE: a verification development

    LEVEE governs dangerous changes to production hosts: a workflow document is
    turned into a plan (batches of targets, each with the same steps), the plan is
    scored and approved, and the approved plan is executed batch by batch under
    target locks and verification gates, with automatic rollback. This library
    models that chain in Rocq, from the Go sources under src/, and proves what
    each part promises and what the whole run guarantees.

    ** The program's parts and their files

    - Prelude (this file): Go errors and [errors.Is]/[errors.As], 64-bit
      wrap-around, list and option lemmas, the development's tactics and hints.
    - RunStatus: the status vocabulary, src/internal/runstatus/runstatus.go.
    - Failure: error classification, the action for a failure, retry back-off in
      machine arithmetic, src/internal/engine/failure.go.
    - Risk: the five-factor score, the approval floor, tier comparison,
      src/internal/risk/risk.go.
    - Dsl: the workflow's data (src/internal/dsl/ast.go), dependency ordering
      (depends.go), gate positions, the run-level rollback rules, the
      irreversible-action vocabulary and plugin policy.
    - Plan: plan generation, batch splitting, target caps
      (src/internal/plan/generator.go, targetcaps.go) and the irreversible checker
      (src/internal/executor/irreversible.go).
    - Concur: programs that call the outside ([prog]: a call and a continuation),
      their runs against an environment that answers to the history, and a bounded
      worker pool.
    - Batch: the batch controller, src/internal/batch/controller.go. [Execute] and
      [executeBatch] are a scheduler over one thread per target; a thread's states
      are the points of the goroutine (waiting for a slot, admission, between
      steps, in the callback, unwinding a panic, done).
    - Rollback: the execution ledger and the rollback manager,
      src/internal/rollback/ledger.go and manager.go.
    - Lock: target locks over the lock table, src/internal/lock/lock.go and the
      lock statements of src/internal/state/sqlite.go; operations are programs of
      SQL statements, so other actors can be interleaved between any two.
    - Verify: gates and phases (src/internal/verify/gate.go) and their
      materialisation from a plan (src/internal/engine/step_gates.go).
    - LockService, LockInstance: what the closure needs of locking, as a class with
      laws, and the instance for the lock manager.
    - Closure: [ClosureRunner.Run], src/internal/engine/closure.go and
      snapshot_hook.go, composed from Batch, Verify, Rollback and LockService.
    - Rely: rely-guarantee reasoning for programs interleaved over shared state.
    - Approval: approval records, votes, expiry and tiers, src/internal/approval,
      over the approvals table and through the store adapter.
    - Table: tables as ordered lists of rows, for the files below.
    - Sha256: the digest and its keyed form (crypto/sha256, crypto/hmac).
    - Canonical: the canonical encodings and digests of trace records,
      src/internal/audit/canonical.go.
    - TraceChain: the per-run hash chain (builder, sealer, verifier, recorder) and
      the WORM store, src/internal/audit/hashchain.go, trace.go and worm.go, over the
      traces table.
    - AuditLog: the audit log with its paged walk, seal and verifier, denials, and
      the retry budget counted on it (src/internal/audit, src/internal/retrybudget).
    - Cluster: execution leases, the distributed lock manager and the node registry
      with its election, src/internal/cluster.
    - Dispatch, DispatchSweep: the leader's sweep, reclaim, the worker poll and the
      completion of an assignment, src/internal/dispatch/dispatch.go.
    - Takeover: the settlement of runs whose executor died,
      src/internal/takeover/takeover.go.
    - Limiter: the three-tier channel limiter and the batch concurrency manager,
      src/internal/channel/limiter.go, src/internal/batch/concurrency.go.
    - Lifecycle: the change service's handlers (src/internal/grpc/change_service.go),
      the engine closures they call (src/internal/wiring/run.go) and the pause
      manager (src/internal/pause/pause.go), as programs over the run, approval,
      trace and audit tables; it calls Approval, TraceChain and AuditLog.
    - Governance: Lifecycle under every interleaving and store failure.
    - ApplyGate: one request at a time; at the end, observed behaviours.
    - Condition: label conditions, their parser, printer and evaluation,
      src/internal/permission/label_condition.go.
    - Access, RoleFile: the permission matrix, the role tree with inheritance, the
      cache and the file form of roles, src/internal/permission.
    - Authz, AuthzGate: policies, the two policy evaluators and the authoriser
      (src/internal/permission, src/internal/authz), and the apply handler under it.
    - Evidence, Remedy: the step evidence of a run, the ledger rebuilt from it, the
      manual rollback and its preview, the resumed retry (src/internal/wiring/run.go,
      persist.go).
    - Sql: the relational engine the store relies on, over the schema of
      src/internal/state/schema.sql (constraints, triggers, cascades).
    - Store: every method of the SQLite store (src/internal/state/sqlite.go,
      inventory_sqlite.go, trend.go, trend_sqlite.go, tenant_purge.go) as its SQL
      statement, and the store interface as a type of calls.
    - Quota: quotas, the tenant registry and its file form (src/internal/tenant/quota.go,
      tenant.go, manager.go, src/cmd/levee/cmd_tenant.go).
    - Tenant: the tenant-enforcing store, src/internal/tenant/store.go and context.go.
    - Isolation, Confine: what a tenant can read and what its writes can reach.
    - PgStore: every method of the PostgreSQL store (src/internal/state/pgstore.go,
      inventory_pg.go, trend_pg.go) with its numbered placeholders, NULL order and
      transactions.
    - GoStd, Json: Go's integers in text, fields, binary search and civil time; what
      encoding/json writes.
    - Cron: the cron parser, the next occurrence and the expansion of recurring
      windows, src/internal/calendar/recur.go.
    - Calendar, Conflict: the calendar store in both dialects, the freeze check and
      conflict detection (src/internal/calendar/calendar.go, conflict.go), and the
      gate the engine asks (src/internal/wiring/calendar_gate.go).
    - ChangeWindow: the window a workflow declares, src/internal/dsl/window.go.
    - PlanHash: the blast radius and the plan hash, src/internal/plan/impact.go and
      hash.go.
    - Validator, TypeCheck: the structural validator and the type checker the
      compiler runs (src/internal/dsl/validator.go, run_snapshot.go, types.go,
      typechecker.go).
    - Inputs: the resolution of input references, src/internal/dsl/inputs.go and the
      reference scan of compile_warnings.go.
    - Gates: the command, metric, human and plugin gates (src/internal/verify), as
      programs over an arbitrary environment, composed with the constructor calls of
      src/internal/engine/step_gates.go.

    Data keep the source's shape: records for structs, association lists or [gmap]
    for maps, [option] for pointers that may be nil, [Z] for integers with their
    wrap-around where the code can reach it, strings for the string vocabularies.
    Definitions bear the source's names. An [error] is a value of [goerr]; its
    text is kept where code reads it and abbreviated where only people do.

    ** What the theorems show

    - Closure: nothing is dispatched to a target before host guard, gates, locks
      and snapshots are in place; completed means every step ran everywhere and
      every gate passed; an automatic rollback touches only what this run
      dispatched; rolled back means every compensating call was made and
      succeeded; no lock outlives a run; a run that sees the fencing sentinel or
      has the manual policy does not roll back; the reported phase is a terminal
      status that agrees with the rollback.
    - Batch: the controller refines an abstract run (one record per target, in
      plan order, each the record of the callbacks made), under every schedule,
      context and panic; the concurrency cap holds at every instant; it
      terminates without deadlock.
    - Rollback: the ledger is exact, the calls of a rollback are exactly those the
      ledger and the whitelist allow, success means restored, a preview calls
      nothing.
    - Lock: an unexpired lock excludes every other owner under any interleaving of
      polite actors; acquire and release do what they say on every branch; forced
      acquisition terminates; the manager satisfies the laws of LockService.
    - Verify: a phase fails closed on cancellation and errors, and does not depend
      on the order of arrival; what a plan declares is what is registered.
    - Approval: every interleaving of votes, creations and expiry passes refines
      the record's state machine; approval takes a quorum of distinct, authorised,
      independent approvers; settled records are final; successful votes are never
      lost; a vote gives up only under contention.
    - Governance, ApplyGate: run rows stay well formed whatever requests run at once;
      a change is not executed more often than it was approved; an apply executes
      exactly the changes its gates clear, and leaves exactly the row, traces and
      slot it should; settlement is a decision table that agrees with the apply gate;
      the approval chain a plan opens enforces its tier and can be completed.
    - Dispatch, Takeover, Cluster: an assignment epoch is executed at most once;
      a sweep assigns every approved run there is room for and nothing else; a worker
      drains its queue; a takeover settles the runs of dead executors and only
      those; a fenced lease never owns again; live leases exclude; elections converge.
    - TraceChain, AuditLog, Canonical: altering, removing or reordering sealed
      records is detected or exhibits a digest collision; seals running at once are safe;
      the walk in pages is the walk over the whole log; sealing does not launder
      altered rows; what is written once is read back.
    - Limiter: no tier exceeds its cap, permits are neither lost nor duplicated,
      and callers do not deadlock.
    - Plan, Dsl, Risk, Failure, RunStatus: batches partition the targets in order,
      generation accepts exactly the workflows the rules allow, irreversible
      actions are authorised and stamped, dependencies are respected and the order
      is stable, scores are the sum of their factors and monotone, irreversible
      work never falls below the high tier, back-off stays in bounds.

    - Condition, Access, RoleFile, Authz, AuthzGate: printing and parsing a condition
      agree and parsing terminates; the matrix implements its rules, roles inherit and
      survive their file form, a revocation is final, the decision is the composition
      of its layers, and an apply obeys it.
    - Evidence, Remedy: a manual rollback undoes exactly what the evidence shows and is
      not repeated, its preview is faithful, a resumed run skips only proven batches.
    - Store: no sequence of calls breaks a declared constraint; evidence outlives
      every sequence of calls and purges.
    - Quota, Isolation, Confine: reservations stay within limits, the registry keeps its
      lifecycle and survives its file form; without a tenant nothing is reachable, a
      tenant's reads depend on its own rows only, and what other tenants do does not
      reach it, where the code checks what it should.
    - PgStore: the two stores answer alike and stay alike, call by call, outside the
      listings on which the databases differ.
    - Cron, Calendar, Conflict, ChangeWindow: a schedule fires as its text says and the
      next occurrence is the first one; a recorded freeze refuses the changes it
      covers at planning and execution, under both dialects; the conflict report is
      that of the definition; a declared window is open exactly in its daily intervals.
    - PlanHash: plans with one hash agree in what was approved, and what is not part of
      the approval does not change the hash.
    - Validator, TypeCheck, Inputs: the validator accepts exactly the well-formed
      documents, and the generator plans every document it accepts; where the type
      checker crashes; resolution leaves no reference on its surface and keeps the
      verdict of the validator.
    - Gates: a gate passes only on evidence in the history of that very check, and runs
      no command its policy forbids.

    Theorems named in the text of a file as observed behaviours are closed
    evaluations that document where the code departs from its comments.

    ** Bounds and fuel

    [Batch.drive] has fuel [batchFuel], the number of moves all threads of a batch
    can make together ([drive_done] shows that it is enough). The worker pool of
    Concur has the sum of its programs' depths as fuel. [Lock.Acquire] and
    [store_ForceAcquire] loop while the table changes under them; their fuel is a
    parameter, a run that uses it up is the distinct outcome [Spinning], and
    [force_acquire_terminates] bounds it by the interference. [Approval.decideLoop]
    has the code's own four attempts. [AuditLog.walkChain] has as fuel the number of
    pages, [TraceChain.batchLoop] the number of records, [Dispatch.acquire] the
    number of lost races it may see and [Dispatch.pollOnce] the number of waiting
    rows plus one; the theorems state the fuel that is enough. [Condition] parses with
    three units per character plus three, the role walks are bounded by the number of
    parent entries plus one and the passes of a role file by its entries plus one; a
    cascading delete in [Sql] has the depth of the foreign keys, three
    ([deep_enough]). The loop of a cron range has the granted iterations as fuel, of
    which sixty decide every accepted expression ([sixty_iterations]); the search for
    the next occurrence has one unit per minute of its own five-year deadline. The
    scan for input references has one unit per byte ([cut_pieces]). All other recursion is structural.

    ** What is outside the model

    What only the outside knows is an environment: the caller's context, what a
    step callback does, gate outcomes, clock readings, id draws, snapshot
    captures, scheduling. It answers to the history and is arbitrary in the
    theorems. Durations, latencies, log lines and metrics are not modelled. In
    Lifecycle the policy decision, the plan generator, the closure and the rollback
    manager are answers of the environment (the last three are modelled in their
    own files), the JSON decoding of a stored plan and its hash check are
    parameters.

    Not modelled: the document parser and the emitter (dsl), whose YAML decoder is a
    third party's, and the compiler's advisories; the dry run; the probe gate,
    channels and modules, which are input and output; schema migrations;
    read-only handlers, streams, the REST gateway and the command line;
    notifications and the other platform services. *)

From Stdlib Require Import ZArith Lia.
From stdpp Require Import base gmap strings list sorting option.

Declare Scope levee_scope.
Delimit Scope levee_scope with levee.

(** ** Go errors

    An [error] value as the code builds them: a package-level sentinel
    ([errors.New] in a [var] block, compared by identity), a one-off text
    ([fmt.Errorf] without [%w]), a wrapper ([fmt.Errorf] with one or two [%w])
    and a [*errors.LEVEEError] with or without a cause. *)
Inductive goerr : Type :=
| ESentinel (name : string)
| EText (msg : string)
| EWrap (msg : string) (inner : goerr)
| EWrap2 (msg : string) (first second : goerr)
| ELevee (code message : string) (severity : Z)
| ELeveeCause (code message : string) (severity : Z) (cause : goerr).

(** [errors.Is(err, sentinel)]: depth-first search of the wrap chain. *)
Fixpoint errors_Is (e : goerr) (name : string) : bool :=
  match e with
  | ESentinel n => bool_decide (n = name)
  | EText _ => false
  | EWrap _ i => errors_Is i name
  | EWrap2 _ a b => errors_Is a name || errors_Is b name
  | ELevee _ _ _ => false
  | ELeveeCause _ _ _ c => errors_Is c name
  end.

(** [errors.As(err, &le)] for [le : *LEVEEError]: the first LEVEE error of the
    wrap chain, as its code and severity. *)
Fixpoint errors_AsLevee (e : goerr) : option (string * Z) :=
  match e with
  | ESentinel _ | EText _ => None
  | EWrap _ i => errors_AsLevee i
  | EWrap2 _ a b =>
      match errors_AsLevee a with Some x => Some x | None => errors_AsLevee b end
  | ELevee c _ s => Some (c, s)
  | ELeveeCause c _ s _ => Some (c, s)
  end.

(** [strings.Contains]. *)
Fixpoint Contains (s sub : string) : bool :=
  String.prefix sub s || match s with EmptyString => false | String _ s' => Contains s' sub end.

(** [err.Error()], for the wrappers written [fmt.Errorf("text: %w", err)]. *)
Fixpoint err_text (e : goerr) : string :=
  match e with
  | ESentinel n => n
  | EText m => m
  | EWrap m i => (m +:+ ": " +:+ err_text i)%string
  | EWrap2 m a b => (m +:+ ": " +:+ err_text a +:+ ": " +:+ err_text b)%string
  | ELevee c m _ => (c +:+ ": " +:+ m)%string
  | ELeveeCause c m _ i => (c +:+ ": " +:+ m +:+ ": " +:+ err_text i)%string
  end.

(** ** Machine integers: Go's [int] and [time.Duration] are 64-bit signed. *)
Definition wrap64 (z : Z) : Z := ((z + 2 ^ 63) mod 2 ^ 64 - 2 ^ 63)%Z.

Lemma wrap64_id (z : Z) : (- 2 ^ 63 <= z < 2 ^ 63)%Z -> wrap64 z = z.
Proof. intros H. unfold wrap64. rewrite Z.mod_small; lia. Qed.

Lemma wrap64_range (z : Z) : (- 2 ^ 63 <= wrap64 z < 2 ^ 63)%Z.
Proof.
  unfold wrap64. pose proof (Z.mod_pos_bound (z + 2 ^ 63) (2 ^ 64) ltac:(lia)). lia.
Qed.

(** ** Interaction with the environment

    Code that calls out (a step callback, a context poll, a clock) is written
    over the history of its interactions: every answer is a function of the
    history so far and is appended to it, so a property quantified over the
    environment covers every sequence of answers. *)
Definition IO (E A : Type) : Type := list E -> A * list E.

Definition io_ret {E A} (a : A) : IO E A := fun h => (a, h).
Definition io_bind {E A B} (m : IO E A) (k : A -> IO E B) : IO E B :=
  fun h => let '(a, h') := m h in k a h'.
Definition io_ask {E A} (answer : list E -> A) (ev : A -> E) : IO E A :=
  fun h => let a := answer h in (a, h ++ [ev a]).

Notation "'do!' p <- m ; k" := (io_bind m (fun x => match x with p => k end))
  (at level 10, p pattern, m at level 100, k at level 200)
  : levee_scope.

(** The history only grows: a run of [m] from [h] ends in an extension of [h]. *)
Definition io_extends {E A} (m : IO E A) : Prop :=
  forall h, exists t, (m h).2 = h ++ t.

Lemma io_extends_ret {E A} (a : A) : io_extends (@io_ret E A a).
Proof. intros h. exists []. by rewrite app_nil_r. Qed.

Lemma io_extends_ask {E A} (f : list E -> A) (g : A -> E) : io_extends (io_ask f g).
Proof. intros h. by exists [g (f h)]. Qed.

Lemma io_extends_bind {E A B} (m : IO E A) (k : A -> IO E B) :
  io_extends m -> (forall a, io_extends (k a)) -> io_extends (io_bind m k).
Proof.
  intros Hm Hk h. unfold io_bind. destruct (m h) as [a h1] eqn:E1.
  destruct (Hm h) as [t1 H1]. rewrite E1 in H1. simpl in H1. subst.
  destruct (Hk a (h ++ t1)) as [t2 H2]. exists (t1 ++ t2). by rewrite H2, app_assoc.
Qed.

Create HintDb levee.
#[export] Hint Resolve io_extends_ret io_extends_ask io_extends_bind : levee.

(** ** Tactics of the development *)

(** Case analysis on the innermost [match] or [if] of the goal. *)
Ltac split_match :=
  match goal with
  | |- context [match ?x with _ => _ end] =>
      lazymatch x with
      | context [match _ with _ => _ end] => fail
      | _ => destruct x eqn:?
      end
  end.

Ltac split_match_in H :=
  match type of H with
  | context [match ?x with _ => _ end] =>
      lazymatch x with
      | context [match _ with _ => _ end] => fail
      | _ => destruct x eqn:?
      end
  end.

(** Boolean hypotheses to propositions. *)
Ltac boolp :=
  repeat match goal with
  | H : (_ && _) = true |- _ => apply andb_true_iff in H; destruct H
  | H : (_ || _) = false |- _ => apply orb_false_iff in H; destruct H
  | H : negb _ = true |- _ => apply negb_true_iff in H
  | H : negb _ = false |- _ => apply negb_false_iff in H
  | H : bool_decide _ = true |- _ => apply bool_decide_eq_true in H
  | H : bool_decide _ = false |- _ => apply bool_decide_eq_false in H
  | H : String.eqb _ _ = true |- _ => apply String.eqb_eq in H
  | H : String.eqb _ _ = false |- _ => apply String.eqb_neq in H
  | H : Z.eqb _ _ = true |- _ => apply Z.eqb_eq in H
  | H : Z.eqb _ _ = false |- _ => apply Z.eqb_neq in H
  | H : Z.ltb _ _ = true |- _ => apply Z.ltb_lt in H
  | H : Z.ltb _ _ = false |- _ => apply Z.ltb_ge in H
  | H : Z.leb _ _ = true |- _ => apply Z.leb_le in H
  | H : Z.leb _ _ = false |- _ => apply Z.leb_gt in H
  end.

(** ** Lists *)

(** [for ... { if x == known { return true } }], the membership loop the code
    writes in several places. *)
Definition inSet (set : list string) (s : string) : bool :=
  existsb (fun known => String.eqb s known) set.

Lemma inSet_spec (set : list string) (s : string) :
  inSet set s = true <-> s ∈ set.
Proof.
  unfold inSet. rewrite existsb_exists, list_elem_of_In. split.
  - intros (k & Hin & Heq). boolp. by subst.
  - intros Hin. exists s. split; [done|]. apply String.eqb_refl.
Qed.

Lemma inSet_false (set : list string) (s : string) :
  inSet set s = false <-> s ∉ set.
Proof. rewrite <- inSet_spec. destruct (inSet set s); naive_solver. Qed.

Lemma forallb_elem {A} (f : A -> bool) (l : list A) :
  forallb f l = true <-> (forall x, x ∈ l -> f x = true).
Proof. rewrite forallb_forall. by setoid_rewrite list_elem_of_In. Qed.

Lemma existsb_elem {A} (f : A -> bool) (l : list A) :
  existsb f l = true <-> exists x, x ∈ l /\ f x = true.
Proof. rewrite existsb_exists. by setoid_rewrite list_elem_of_In. Qed.

(** Where [x] can lie in a concatenation. *)
Lemma app_cons_after {A} (k1 l1 l2 k2 : list A) x :
  k1 ++ x :: k2 = l1 ++ l2 -> (x ∉ l1) -> exists k, k1 = l1 ++ k /\ l2 = k ++ x :: k2.
Proof.
  intros H Hx. destruct (app_eq_inv _ _ _ _ H) as [(k & -> & ->)|(k & -> & Hk)]; [eauto|].
  destruct k as [|y k]; simplify_eq/=; [exists []; by rewrite !app_nil_r|]. set_solver.
Qed.

Lemma app_cons_before {A} (k1 l1 l2 k2 : list A) x :
  k1 ++ x :: k2 = l1 ++ l2 -> (x ∉ l2) -> exists k, k1 ++ x :: k = l1.
Proof.
  intros H Hx. destruct (app_eq_inv _ _ _ _ H) as [(k & -> & ->)|(k & -> & Hk)]; [set_solver|].
  destruct k as [|y k]; simplify_eq/=; [set_solver|eauto].
Qed.

Lemma prefix_app_cases {A} (l l1 l2 : list A) :
  l `prefix_of` l1 ++ l2 -> l `prefix_of` l1 \/ exists l', l = l1 ++ l' /\ l' `prefix_of` l2.
Proof.
  revert l. induction l1 as [|x l1 IH]; intros l H; [right; by exists l|].
  destruct l as [|y l]; [left; apply prefix_nil|].
  simpl in H. pose proof (prefix_cons_inv_1 _ _ _ _ H) as ->. apply prefix_cons_inv_2 in H.
  destruct (IH l H) as [?|(l' & -> & ?)]; [left; by apply prefix_cons|right; by exists l'].
Qed.

Lemma existsb_insert {A} (f : A -> bool) (l : list A) i x y :
  l !! i = Some x -> f x = false -> existsb f (<[i := y]> l) = existsb f l || f y.
Proof.
  revert i. induction l as [|z l IH]; intros i H Hf; [done|].
  destruct i as [|i]; simplify_eq/=; [rewrite Hf; by destruct (f y), (existsb f l)|].
  by rewrite (IH _ H Hf), orb_assoc.
Qed.

(** ** Sorting *)

(** Sorting sees only what the order compares. *)
Section sort_map.
Context {A B : Type} (f : A -> B) (R : relation A) (R' : relation B).
Context `{!forall x y, Decision (R x y)} `{!forall x y, Decision (R' x y)}.
Context (HR : forall x y, R' (f x) (f y) <-> R x y).

Lemma list_merge_map l1 l2 : list_merge R' (map f l1) (map f l2) = map f (list_merge R l1 l2).
Proof using HR.
  revert l2. induction l1 as [|x l1 IH1]; [by intros []|].
  induction l2 as [|y l2 IH2]; [done|]. simpl.
  destruct (decide (R x y)), (decide (R' (f x) (f y))); try (by exfalso; firstorder); simpl; f_equal; [apply (IH1 (y :: l2))|done].
Qed.

Lemma merge_list_to_stack_map st l :
  merge_list_to_stack R' (map (fmap (map f)) st) (map f l) = map (fmap (map f)) (merge_list_to_stack R st l).
Proof using HR.
  revert l. induction st as [|[l'|] st IH]; intros l; simpl; [done| |done].
  f_equal. by rewrite <- IH, list_merge_map.
Qed.

Lemma merge_sort_map l : merge_sort R' (map f l) = map f (merge_sort R l).
Proof using HR.
  unfold merge_sort. change (@nil (option (list B))) with (map (fmap (map f)) (@nil (option (list A)))).
  generalize (@nil (option (list A))) as st. induction l as [|x l IH]; intros st; simpl.
  - induction st as [|[l|] st IH]; simpl; [done| |done]. by rewrite IH, list_merge_map.
  - by rewrite <- IH, <- merge_list_to_stack_map.
Qed.
End sort_map.
