(* ===== verification/RunStatus.v ===== *)
(** * RunStatus: the run status vocabulary (src/internal/runstatus/runstatus.go)

    The fifteen status strings, the admission sets built from them, the
    membership predicates and the operator-facing rendering of a set. *)

From stdpp Require Import base gmap strings list.
From S2P Require Import Prelude.
Open Scope string_scope.

Module RunStatus.

Definition StatusDraft := "draft".
Definition StatusPending := "pending".
Definition StatusPlanned := "planned".
Definition StatusApproved := "approved".
Definition StatusRunning := "running".
Definition StatusPaused := "paused".
Definition StatusCompleted := "completed".
Definition StatusFailed := "failed".
Definition StatusCancelled := "cancelled".
Definition StatusRolledBack := "rolled_back".
Definition StatusRolledBackPartial := "rolled_back_partial".
Definition StatusRollbackIncomplete := "rollback_incomplete".
Definition StatusRejected := "rejected".
Definition StatusArchived := "archived".
Definition StatusInterrupted := "interrupted".
Definition StatusRollingBackLegacy := "rolling_back".

Definition All : list string :=
  [StatusDraft; StatusPending; StatusPlanned; StatusApproved; StatusRunning;
   StatusPaused; StatusCompleted; StatusFailed; StatusCancelled; StatusRolledBack;
   StatusRolledBackPartial; StatusRollbackIncomplete; StatusRejected;
   StatusArchived; StatusInterrupted].

Definition Terminal : list string :=
  [StatusCompleted; StatusFailed; StatusCancelled; StatusRolledBack;
   StatusRolledBackPartial; StatusRollbackIncomplete; StatusRejected;
   StatusArchived; StatusInterrupted].

Definition RetryAdmitted : list string :=
  [StatusFailed; StatusRolledBack; StatusRolledBackPartial;
   StatusRollbackIncomplete; StatusInterrupted].

Definition RollbackAdmitted : list string :=
  [StatusCompleted; StatusFailed; StatusRolledBackPartial; StatusRollbackIncomplete].

Definition RollbackVerdicts : list string :=
  [StatusRolledBack; StatusRolledBackPartial; StatusRollbackIncomplete].

(** [strings.Join]. *)
Fixpoint join (sep : string) (l : list string) : string :=
  match l with
  | [] => ""
  | [x] => x
  | x :: l' => x ++ sep ++ join sep l'
  end.

(** [humanList]: "a, b, c or d"; [set[:len-1]] and [set[len-1]] are the list
    without its last element and that element. *)
Definition humanList (set : list string) : string :=
  match set with
  | [] => ""
  | [x] => x
  | _ => join ", " (removelast set) ++ " or " ++ List.last set ""
  end.

Definition JoinRetryAdmitted : string := humanList RetryAdmitted.
Definition JoinRollbackAdmitted : string := humanList RollbackAdmitted.

Definition IsValid (s : string) : bool := inSet All s.
Definition IsTerminal (s : string) : bool := inSet Terminal s.
Definition IsLegacyRollingBack (s : string) : bool := String.eqb s StatusRollingBackLegacy.
Definition InRetryAdmitted (s : string) : bool := inSet RetryAdmitted s.
Definition InRollbackAdmitted (s : string) : bool := inSet RollbackAdmitted s.
Definition IsRollbackVerdict (s : string) : bool := inSet RollbackVerdicts s.

(** Subset of vocabulary sets, decided by evaluation. *)
Lemma inSet_subset (small big : list string) (s : string) :
  forallb (inSet big) small = true -> inSet small s = true -> inSet big s = true.
Proof. rewrite forallb_elem, !inSet_spec. intros H Hs. apply inSet_spec. by apply H. Qed.

(** The sets of the vocabulary are coherent: every terminal status is valid, an
    operator may only retry or roll back a run that has reached an outcome, a
    retry is admitted from every outcome of the failure family and never from a
    success or from an operator's decision, a cleanly rolled back run can be
    retried but not rolled back again, and the stranded legacy status is outside
    every set. *)
Theorem vocabulary_coherent (s : string) :
  (IsTerminal s = true -> IsValid s = true) /\
  (InRetryAdmitted s = true -> IsTerminal s = true /\ s <> StatusCompleted) /\
  (InRollbackAdmitted s = true -> IsTerminal s = true /\ s <> StatusRolledBack) /\
  (IsRollbackVerdict s = true -> IsTerminal s = true /\ InRetryAdmitted s = true) /\
  (IsLegacyRollingBack s = true ->
     IsValid s = false /\ InRetryAdmitted s = false /\ InRollbackAdmitted s = false).
Proof.
  split_and!; intros Hs.
  - by revert Hs; apply inSet_subset.
  - split; [by revert Hs; apply inSet_subset | by intros ->; vm_compute in Hs].
  - split; [by revert Hs; apply inSet_subset | by intros ->; vm_compute in Hs].
  - split; by revert Hs; apply inSet_subset.
  - unfold IsLegacyRollingBack in Hs. boolp. by subst.
Qed.

End RunStatus.
