(* ===== verification/Failure.v ===== *)
(** * Failure: the five-tier failure semantics (src/internal/engine/failure.go)

    Classification of an error into a category (override table, then the
    severity a LEVEE error carries, then the fallback) and translation of a
    classified failure into the action the engine takes, with the retry policy
    and its exponential back-off in 64-bit arithmetic. *)

From Stdlib Require Import ZArith Lia.
From stdpp Require Import base gmap strings list.
From S2P Require Import Prelude.
Open Scope string_scope.

Module Failure.

(** [errors.Severity] and [FailureCategory] are Go [int]s with five named
    values; other values are representable and both switches have a default. *)
Definition Retryable : Z := 0.
Definition ManualRetry : Z := 1.
Definition Rollback : Z := 2.
Definition Escalate : Z := 3.
Definition Fatal : Z := 4.

Definition CategoryRetryable : Z := 0.
Definition CategoryManualRetry : Z := 1.
Definition CategoryRollback : Z := 2.
Definition CategoryEscalate : Z := 3.
Definition CategoryFatal : Z := 4.

Definition severityToCategory (s : Z) : Z :=
  if Z.eqb s Retryable then CategoryRetryable
  else if Z.eqb s ManualRetry then CategoryManualRetry
  else if Z.eqb s Rollback then CategoryRollback
  else if Z.eqb s Escalate then CategoryEscalate
  else if Z.eqb s Fatal then CategoryFatal
  else CategoryFatal.

Record FailureT := MkFailure {
  f_Err : option goerr;
  f_Category : Z;
  f_Code : string;
  f_Attempts : Z }.

Record FailureClassifier := MkClassifier {
  rules : gmap string Z;
  fallback : Z }.

Definition fatalCodes : list string :=
  ["LE001"; "LE002"; "LE003"; "LE020"; "LE021"; "LE031"; "LE032"; "LE033"; "LE034";
   "LE051"; "LE052"; "LE102"; "LE092"; "LE093"; "LE094"; "LE095"; "LE096"].
Definition manualRetryCodes : list string := ["LE044"].
Definition escalateCodes : list string := ["LE082"].

(** [for _, code := range codes { c.rules[code] = cat }]. *)
Definition registerAll (codes : list string) (cat : Z) (m : gmap string Z) : gmap string Z :=
  foldl (fun acc code => <[code := cat]> acc) m codes.

Definition registerDefaults (c : FailureClassifier) : FailureClassifier :=
  MkClassifier
    (registerAll escalateCodes CategoryEscalate
       (registerAll manualRetryCodes CategoryManualRetry
          (registerAll fatalCodes CategoryFatal (rules c))))
    (fallback c).

Definition NewFailureClassifier : FailureClassifier :=
  registerDefaults (MkClassifier ∅ CategoryFatal).

Definition Register (c : FailureClassifier) (code : string) (cat : Z) : FailureClassifier :=
  MkClassifier (<[code := cat]> (rules c)) (fallback c).

Definition SetFallback (c : FailureClassifier) (cat : Z) : FailureClassifier :=
  MkClassifier (rules c) cat.

Definition Classify (c : FailureClassifier) (err : option goerr) : Z :=
  match err with
  | None => CategoryRetryable
  | Some e =>
      match errors_AsLevee e with
      | Some (code, sev) =>
          match rules c !! code with
          | Some cat => cat
          | None => severityToCategory sev
          end
      | None => fallback c
      end
  end.

Definition CodeOf (e : goerr) : string :=
  match errors_AsLevee e with Some (code, _) => code | None => "" end.

Definition ClassifyFailure (c : FailureClassifier) (err : option goerr) (attempts : Z) : FailureT :=
  match err with
  | None => MkFailure None CategoryRetryable "" attempts
  | Some e => MkFailure (Some e) (Classify c (Some e)) (CodeOf e) attempts
  end.

Record FailureAction := MkAction {
  a_Category : Z;
  a_ShouldRetry : bool;
  a_ShouldRollback : bool;
  a_ShouldNotify : bool;
  a_ShouldEscalate : bool;
  a_ShouldPause : bool;
  a_ShouldAbort : bool;
  a_MaxRetries : Z;
  a_RetryDelay : Z }.

Record FailureHandler := MkHandler {
  MaxRetries : Z;
  BaseDelay : Z;
  MaxDelay : Z }.

Definition Millisecond : Z := 1000000.
Definition Second : Z := 1000 * Millisecond.

Definition NewFailureHandler : FailureHandler :=
  MkHandler 3 (100 * Millisecond) (10 * Second).

(** Multiplication of durations wraps at 64 bits. *)
Definition backoff (h : FailureHandler) (attempt : Z) : Z :=
  let attempt := if Z.ltb attempt 0 then 0%Z else attempt in
  if Z.ltb 30 attempt then MaxDelay h
  else
    let d := wrap64 (BaseDelay h * Z.shiftl 1 attempt) in
    if Z.ltb (MaxDelay h) d || Z.ltb d 0 then MaxDelay h else d.

Definition handleRetryable (h : FailureHandler) (f : FailureT) : FailureAction :=
  if Z.ltb (f_Attempts f) (MaxRetries h) then
    MkAction CategoryRetryable true false false false false false (MaxRetries h)
      (backoff h (f_Attempts f))
  else MkAction CategoryRetryable false false true false false false (MaxRetries h) 0.

Definition handleManualRetry (h : FailureHandler) (f : FailureT) : FailureAction :=
  MkAction CategoryManualRetry false false true false true false 0 0.

Definition handleRollback (h : FailureHandler) (f : FailureT) : FailureAction :=
  MkAction CategoryRollback false true true false false false 0 0.

Definition handleEscalate (h : FailureHandler) (f : FailureT) : FailureAction :=
  MkAction CategoryEscalate false false true true true false 0 0.

Definition handleFatal (h : FailureHandler) (f : FailureT) : FailureAction :=
  MkAction CategoryFatal false false true true false true 0 0.

Definition Handle (h : FailureHandler) (f : FailureT) : FailureAction :=
  if Z.eqb (f_Category f) CategoryRetryable then handleRetryable h f
  else if Z.eqb (f_Category f) CategoryManualRetry then handleManualRetry h f
  else if Z.eqb (f_Category f) CategoryRollback then handleRollback h f
  else if Z.eqb (f_Category f) CategoryEscalate then handleEscalate h f
  else if Z.eqb (f_Category f) CategoryFatal then handleFatal h f
  else handleFatal h f.

(** ** Lemmas *)

Lemma registerAll_lookup codes cat m code :
  registerAll codes cat m !! code =
  if bool_decide (code ∈ codes) then Some cat else m !! code.
Proof.
  unfold registerAll. revert m. induction codes as [|c codes IH]; intros m; simpl.
  - done.
  - rewrite IH. destruct (decide (code ∈ codes)) as [Hin|Hin].
    + rewrite !bool_decide_true; set_solver.
    + rewrite (bool_decide_false (code ∈ codes)) by done.
      destruct (decide (code = c)) as [->|Hne].
      * rewrite lookup_insert_eq, bool_decide_true; set_solver.
      * rewrite lookup_insert_ne, bool_decide_false by set_solver. done.
Qed.

Lemma shiftl1_pow (a : Z) : (0 <= a)%Z -> Z.shiftl 1 a = (2 ^ a)%Z.
Proof. intros. rewrite Z.shiftl_mul_pow2 by done. lia. Qed.

Lemma default_rules_fatal (code : string) :
  code ∈ fatalCodes -> rules NewFailureClassifier !! code = Some CategoryFatal.
Proof.
  intros Hin.
  change (rules NewFailureClassifier) with
    (registerAll escalateCodes CategoryEscalate
       (registerAll manualRetryCodes CategoryManualRetry
          (registerAll fatalCodes CategoryFatal ∅))).
  rewrite !registerAll_lookup, (bool_decide_true (code ∈ fatalCodes)) by done.
  rewrite (bool_decide_false (code ∈ escalateCodes)), (bool_decide_false (code ∈ manualRetryCodes));
    [done | by intros ->%list_elem_of_singleton; apply (bool_decide_eq_true_2 _) in Hin ..].
Qed.

(** What the back-off is meant to be: the doubled base, capped. *)
Definition backoff_ideal (h : FailureHandler) (attempt : Z) : Z :=
  Z.min (BaseDelay h * 2 ^ Z.max 0 attempt) (MaxDelay h).

Lemma backoff_small (h : FailureHandler) (a : Z) :
  (0 <= BaseDelay h)%Z -> (BaseDelay h * 2 ^ 30 < 2 ^ 63)%Z -> (a <= 30)%Z ->
  backoff h a = backoff_ideal h a.
Proof.
  intros Hb Hs Ha. unfold backoff, backoff_ideal.
  replace (if Z.ltb a 0 then 0%Z else a) with (Z.max 0 a)
    by (destruct (Z.ltb_spec a 0); lia).
  set (n := Z.max 0 a). assert (Hn : (0 <= n <= 30)%Z) by lia.
  destruct (Z.ltb_spec 30 n); [lia|].
  rewrite shiftl1_pow by lia.
  assert (Hpow : (0 < 2 ^ n <= 2 ^ 30)%Z)
    by (split; [apply Z.pow_pos_nonneg; lia | apply Z.pow_le_mono_r; lia]).
  rewrite wrap64_id by nia.
  destruct (Z.ltb_spec (MaxDelay h) (BaseDelay h * 2 ^ n)); simpl; [lia|].
  destruct (Z.ltb_spec (BaseDelay h * 2 ^ n) 0); [nia|lia].
Qed.

(** A retry delay never exceeds the configured maximum and is never
    negative, for every attempt number and every base delay, including the
    products that overflow 64 bits. *)
Theorem backoff_bounds (h : FailureHandler) (a : Z) (Hmax : (0 <= MaxDelay h)%Z) :
  (0 <= backoff h a <= MaxDelay h)%Z.
Proof.
  unfold backoff. destruct (Z.ltb 30 _); [lia|].
  destruct (Z.ltb_spec (MaxDelay h) (wrap64 (BaseDelay h * Z.shiftl 1 (if Z.ltb a 0 then 0 else a))));
    simpl; [lia|].
  destruct (Z.ltb_spec (wrap64 (BaseDelay h * Z.shiftl 1 (if Z.ltb a 0 then 0 else a))) 0); lia.
Qed.

Lemma backoff_bounds_witness :
  (0 <= MaxDelay NewFailureHandler)%Z /\
  (0 <= backoff NewFailureHandler 5 <= MaxDelay NewFailureHandler)%Z.
Proof. split; [vm_compute; discriminate | apply (backoff_bounds NewFailureHandler 5); vm_compute; discriminate]. Defined.

(** For a base delay whose thirtieth doubling fits 64 bits and reaches the
    cap, the code's back-off is the capped exponential for every attempt number
    (negative ones count as zero), and it never decreases as attempts grow. *)
Theorem backoff_exponential (h : FailureHandler) (a b : Z)
    (Hbase : (0 <= BaseDelay h)%Z) (Hfit : (BaseDelay h * 2 ^ 30 < 2 ^ 63)%Z)
    (Hcap : (MaxDelay h <= BaseDelay h * 2 ^ 31)%Z) :
  backoff h a = backoff_ideal h a /\ ((a <= b)%Z -> (backoff h a <= backoff h b)%Z).
Proof.
  assert (Hall : forall x, backoff h x = backoff_ideal h x).
  { intros x. destruct (Z.le_gt_cases x 30) as [Hx|Hx]; [by apply backoff_small|].
    unfold backoff, backoff_ideal. destruct (Z.ltb_spec x 0); [lia|].
    destruct (Z.ltb_spec 30 x); [|lia].
    rewrite Z.max_r by lia.
    assert (2 ^ 31 <= 2 ^ x)%Z by (apply Z.pow_le_mono_r; lia). nia. }
  split; [done|]. intros Hab. rewrite !Hall. unfold backoff_ideal.
  assert (2 ^ Z.max 0 a <= 2 ^ Z.max 0 b)%Z by (apply Z.pow_le_mono_r; lia). nia.
Qed.

Lemma backoff_exponential_witness :
  backoff NewFailureHandler 2 = backoff_ideal NewFailureHandler 2 /\
  ((2 <= 7)%Z -> (backoff NewFailureHandler 2 <= backoff NewFailureHandler 7)%Z).
Proof.
  apply (backoff_exponential NewFailureHandler 2 7); vm_compute; congruence.
Defined.

(** The overflow guard checks only the sign of the wrapped product, so it
    misses a product that wraps to a small non-negative value: with a base delay
    of 2^34 ns (about 17 s) and a positive cap, the thirtieth attempt is retried
    with no delay at all. *)
Theorem backoff_overflow_zero :
  exists h, (0 < BaseDelay h)%Z /\ (0 < MaxDelay h)%Z /\ backoff h 30 = 0%Z /\
            backoff_ideal h 30 = MaxDelay h.
Proof. exists (MkHandler 40 (2 ^ 34) (60 * Second)). by vm_compute. Qed.

(** The action taken is determined by the category, for every integer
    category and not only the five named ones: a retry is ordered exactly for a
    retryable failure below the cap and carries the back-off delay; rollback is
    ordered exactly for the rollback tier; an unknown category aborts and
    escalates; and every failure that is not silently retried is notified. *)
Theorem handle_decision (h : FailureHandler) (f : FailureT) :
  let a := Handle h f in
  (a_ShouldRetry a = true <->
     f_Category f = CategoryRetryable /\ (f_Attempts f < MaxRetries h)%Z) /\
  (a_ShouldRetry a = true -> a_RetryDelay a = backoff h (f_Attempts f)) /\
  (a_ShouldRetry a = false -> a_RetryDelay a = 0%Z) /\
  a_ShouldNotify a = negb (a_ShouldRetry a) /\
  (a_ShouldRollback a = true <-> f_Category f = CategoryRollback) /\
  (a_ShouldPause a = true <->
     f_Category f = CategoryManualRetry \/ f_Category f = CategoryEscalate) /\
  (a_ShouldAbort a = true <-> ~ (0 <= f_Category f <= 3)%Z) /\
  (a_ShouldEscalate a = true <-> ~ (0 <= f_Category f <= 2)%Z).
Proof.
  unfold Handle, handleRetryable, handleManualRetry, handleRollback, handleEscalate,
    handleFatal, CategoryRetryable, CategoryManualRetry, CategoryRollback,
    CategoryEscalate, CategoryFatal.
  destruct f as [err cat code att]; cbn [f_Category f_Attempts].
  cbv zeta.
  destruct (Z.eqb_spec cat 0) as [->|?]; [|destruct (Z.eqb_spec cat 1) as [->|?];
    [|destruct (Z.eqb_spec cat 2) as [->|?]; [|destruct (Z.eqb_spec cat 3) as [->|?];
    [|destruct (Z.eqb_spec cat 4) as [->|?]]]]];
    try destruct (Z.ltb_spec att (MaxRetries h)); simpl;
    split_and!; try split; intros; try done; lia.
Qed.

(** Classification follows the documented order and is fail-closed: an
    override of a code wins over the severity the error carries and touches no
    other code; a LEVEE error without an override takes its severity's category;
    an error outside the LEVEE family takes the fallback, which is fatal on a new
    classifier; and wrapping an error never changes its category. *)
Theorem classify_order (c : FailureClassifier) (code code' msg : string) (sev cat : Z) (e : goerr) :
  Classify (Register c code cat) (Some (ELevee code msg sev)) = cat /\
  (rules c !! code' = None -> code <> code' ->
     Classify (Register c code cat) (Some (ELevee code' msg sev)) = severityToCategory sev) /\
  (errors_AsLevee e = None -> Classify NewFailureClassifier (Some e) = CategoryFatal) /\
  Classify c (Some (EWrap msg e)) = Classify c (Some e) /\
  (code ∈ fatalCodes -> Classify NewFailureClassifier (Some (ELevee code msg sev)) = CategoryFatal).
Proof.
  unfold Classify. cbn [errors_AsLevee Register rules fallback]. split_and!.
  - by rewrite lookup_insert_eq.
  - intros Hn Hne. by rewrite lookup_insert_ne, Hn by done.
  - by intros ->.
  - reflexivity.
  - intros Hin. by rewrite default_rules_fatal.
Qed.

End Failure.
