(* ===== verification/Risk.v ===== *)
(** * Risk: danger scoring and the approval floor (src/internal/risk/risk.go)

    The five scoring factors with their caps, the score clamp, the derivation
    of the approval floor from bands and red lines, the tier join [MaxLevel] and
    the auto-approval predicate. *)

From Stdlib Require Import ZArith Lia Ascii.
From stdpp Require Import base gmap strings list sorting pretty.
From S2P Require Import Prelude.
Open Scope string_scope.
Open Scope list_scope.
Open Scope Z_scope.

Module Risk.

Definition LevelStandard := "standard".
Definition LevelHigh := "high".
Definition LevelEmergency := "emergency".

Definition pointsIrreversibleStep := 20.
Definition maxIrreversiblePoints := 40.
Definition pointsDestructiveAction := 8.
Definition maxDestructivePoints := 24.
Definition pointsPerBlastBand := 10.
Definition pointsNoRollbackStep := 5.
Definition maxNoRollbackPoints := 15.
Definition pointsPerBatch := 2.
Definition maxBatchPoints := 6.
Definition bandHighMax := 39.
Definition bandEmergencyAt := 70.

Record Step := MkStep {
  s_Name : string;
  s_Action : string;
  s_Irreversible : bool;
  s_HasRollback : bool }.

Record Input := MkInput {
  in_Steps : list Step;
  in_BatchCount : Z;
  in_DirectTargets : Z;
  in_IndirectTargets : Z;
  in_BlastHigh : bool }.

Record Factor := MkFactor {
  f_Rule : string;
  f_Points : Z;
  f_Detail : string }.

Record Assessment := MkAssessment {
  as_Score : Z;
  as_Factors : list Factor;
  as_ApprovalFloor : string;
  as_IrreversibleSteps : Z }.

(** [strings.ToLower], on the ASCII letters. *)
Definition lower_ascii (c : ascii) : ascii :=
  let n := nat_of_ascii c in
  if (65 <=? n)%nat && (n <=? 90)%nat then ascii_of_nat (n + 32) else c.

Fixpoint ToLower (s : string) : string :=
  match s with
  | EmptyString => EmptyString
  | String c s' => String (lower_ascii c) (ToLower s')
  end.

(** [strings.Contains(s, sub)]. *)
Fixpoint Contains (s sub : string) : bool :=
  String.prefix sub s ||
  match s with EmptyString => false | String _ s' => Contains s' sub end.

(** [if idx := strings.IndexByte(seg, '.'); idx >= 0 { seg = seg[idx+1:] }]. *)
Fixpoint afterDot (s : string) : option string :=
  match s with
  | EmptyString => None
  | String c s' => if Ascii.eqb c "."%char then Some s' else afterDot s'
  end.

Definition destructiveLexicon : list string :=
  ["remove"; "delete"; "drop"; "truncate"; "destroy"; "purge"; "wipe"].

Definition isDestructiveAction (action : string) : bool :=
  if String.eqb action "" then false
  else
    let seg := ToLower action in
    let seg := match afterDot seg with Some s => s | None => seg end in
    existsb (Contains seg) destructiveLexicon.

Definition min2 (a b : Z) : Z := if a <? b then a else b.

(** [n := 0; for _, s := range steps { if p(s) { n++ } }]. *)
Definition countSteps (p : Step -> bool) (l : list Step) : Z :=
  foldl (fun n s => if p s then n + 1 else n) 0 l.

(** One scoring factor: nothing when the trigger count is zero, else one entry
    with the capped points. *)
Definition factorIrreversible (n : Z) : list Factor :=
  if 0 <? n then
    [MkFactor "irreversible_steps" (min2 (n * pointsIrreversibleStep) maxIrreversiblePoints)
       (pretty n +:+ " irreversible step(s) stamped by the plan generator")]
  else [].

Definition factorDestructive (n : Z) : list Factor :=
  if 0 <? n then
    [MkFactor "destructive_actions" (min2 (n * pointsDestructiveAction) maxDestructivePoints)
       (pretty n +:+ " step(s) with destructive action names (remove/delete/drop/...)")]
  else [].

Definition blastBand (total : Z) : string :=
  if 50 <? total then "high" else if 9 <? total then "medium" else "low".

Definition factorBlast (total : Z) : list Factor :=
  let band := blastBand total in
  if String.eqb band "medium" || String.eqb band "high" then
    let bands := if String.eqb band "high" then 2 else 1 in
    [MkFactor "blast_radius" (bands * pointsPerBlastBand)
       (pretty total +:+ " affected target(s) (" +:+ band +:+ " band)")]
  else [].

Definition factorNoRollback (n : Z) : list Factor :=
  if 0 <? n then
    [MkFactor "rollback_coverage" (min2 (n * pointsNoRollbackStep) maxNoRollbackPoints)
       (pretty n +:+ " step(s) declare no rollback")]
  else [].

Definition factorFanout (n : Z) : list Factor :=
  if 1 <? n then
    [MkFactor "batch_fanout" (min2 ((n - 1) * pointsPerBatch) maxBatchPoints)
       (pretty n +:+ " sequential batches")]
  else [].

Definition sumPoints (l : list Factor) : Z := foldr (fun f n => f_Points f + n) 0 l.

Definition rule_le (f g : Factor) : Prop := String.le (f_Rule f) (f_Rule g).
#[export] Instance rule_le_dec (f g : Factor) : Decision (rule_le f g).
Proof. unfold rule_le. apply _. Defined.

(** The floor: bands first, then the red lines. *)
Definition approvalFloor (score irreversible : Z) (blastHigh : bool) : string :=
  let floor :=
    if bandEmergencyAt <=? score then LevelEmergency
    else if bandHighMax <? score then LevelHigh
    else LevelStandard in
  if 0 <? irreversible then
    let floor := if String.eqb floor LevelStandard then LevelHigh else floor in
    if blastHigh then LevelEmergency else floor
  else floor.

Definition factorsOf (inp : Input) : list Factor :=
  factorIrreversible (countSteps s_Irreversible (in_Steps inp)) ++
  factorDestructive (countSteps (fun s => isDestructiveAction (s_Action s)) (in_Steps inp)) ++
  factorBlast (in_DirectTargets inp + in_IndirectTargets inp) ++
  factorNoRollback (countSteps (fun s => negb (s_HasRollback s)) (in_Steps inp)) ++
  factorFanout (in_BatchCount inp).

Definition Assess (inp : Input) : Assessment :=
  let irreversible := countSteps s_Irreversible (in_Steps inp) in
  let factors := factorsOf inp in
  let score := sumPoints factors in
  let score := if 100 <? score then 100 else score in
  MkAssessment score (merge_sort rule_le factors)
    (approvalFloor score irreversible (in_BlastHigh inp)) irreversible.

Definition levelOrder (l : string) : option Z :=
  if String.eqb l LevelStandard then Some 0
  else if String.eqb l LevelHigh then Some 1
  else if String.eqb l LevelEmergency then Some 2
  else None.

Definition MaxLevel (a b : string) : string :=
  let a := match levelOrder a with None => LevelStandard | Some _ => a end in
  let b := match levelOrder b with None => LevelStandard | Some _ => b end in
  if default 0 (levelOrder b) <=? default 0 (levelOrder a) then a else b.

Definition AutoApproveForbidden (level : string) : bool :=
  if String.eqb level "" then false
  else if String.eqb level LevelStandard then false
  else if String.eqb level LevelHigh || String.eqb level LevelEmergency then true
  else if String.eqb level "low" || String.eqb level "normal" || String.eqb level "urgent" then false
  else true.

(** ** Lemmas *)

(** Tier rank of a level; unknown levels rank as standard, as [MaxLevel] reads them. *)
Definition rank (l : string) : Z := default 0 (levelOrder l).

Lemma countSteps_foldl (p : Step -> bool) (l : list Step) (n : Z) :
  foldl (fun n s => if p s then n + 1 else n) n l = n + countSteps p l.
Proof.
  unfold countSteps. revert n. induction l as [|s l IH]; intros n; simpl; [lia|].
  rewrite (IH (if p s then n + 1 else n)), (IH (if p s then 0 + 1 else 0)).
  destruct (p s); lia.
Qed.

Lemma countSteps_app (p : Step -> bool) (l1 l2 : list Step) : countSteps p (l1 ++ l2) = countSteps p l1 + countSteps p l2.
Proof. unfold countSteps at 1. by rewrite foldl_app, countSteps_foldl. Qed.

Lemma countSteps_nonneg p l : 0 <= countSteps p l.
Proof.
  induction l as [|s l IH] using rev_ind; [done|].
  rewrite countSteps_app. unfold countSteps at 2. simpl. destruct (p s); lia.
Qed.

Lemma countSteps_pos p l : (exists s, s ∈ l /\ p s = true) -> 0 < countSteps p l.
Proof.
  intros (s & Hin & Hp). apply list_elem_of_split in Hin as (l1 & l2 & ->).
  rewrite countSteps_app. change (s :: l2) with ([s] ++ l2). rewrite countSteps_app.
  unfold countSteps at 2. simpl. rewrite Hp.
  pose proof (countSteps_nonneg p l1). pose proof (countSteps_nonneg p l2). lia.
Qed.

Lemma sumPoints_app l1 l2 : sumPoints (l1 ++ l2) = sumPoints l1 + sumPoints l2.
Proof. unfold sumPoints. induction l1; simpl; lia. Qed.

Lemma sumPoints_perm l1 l2 : l1 ≡ₚ l2 -> sumPoints l1 = sumPoints l2.
Proof. unfold sumPoints. induction 1; simpl; lia. Qed.

Lemma pts_irreversible n : 0 <= n ->
  sumPoints (factorIrreversible n) = Z.min (n * 20) 40.
Proof.
  intros Hn. unfold factorIrreversible, min2, maxIrreversiblePoints, pointsIrreversibleStep.
  destruct (Z.ltb_spec 0 n); simpl; [destruct (Z.ltb_spec (n * 20) 40)|]; lia.
Qed.

Lemma pts_destructive n : 0 <= n -> sumPoints (factorDestructive n) = Z.min (n * 8) 24.
Proof.
  intros Hn. unfold factorDestructive, min2, maxDestructivePoints, pointsDestructiveAction.
  destruct (Z.ltb_spec 0 n); simpl; [destruct (Z.ltb_spec (n * 8) 24)|]; lia.
Qed.

Lemma pts_blast n :
  sumPoints (factorBlast n) = if 50 <? n then 20 else if 9 <? n then 10 else 0.
Proof. unfold factorBlast, blastBand. by destruct (50 <? n), (9 <? n). Qed.

Lemma pts_norollback n : 0 <= n -> sumPoints (factorNoRollback n) = Z.min (n * 5) 15.
Proof.
  intros Hn. unfold factorNoRollback, min2, maxNoRollbackPoints, pointsNoRollbackStep.
  destruct (Z.ltb_spec 0 n); simpl; [destruct (Z.ltb_spec (n * 5) 15)|]; lia.
Qed.

Lemma pts_fanout n :
  sumPoints (factorFanout n) = Z.max 0 (Z.min ((n - 1) * 2) 6).
Proof.
  unfold factorFanout, min2, maxBatchPoints, pointsPerBatch.
  destruct (Z.ltb_spec 1 n); simpl; [destruct (Z.ltb_spec ((n - 1) * 2) 6)|]; lia.
Qed.

(** The unclamped score as arithmetic on the trigger counts. *)
Lemma score_closed_form inp :
  sumPoints (factorsOf inp) =
    Z.min (countSteps s_Irreversible (in_Steps inp) * 20) 40 +
    Z.min (countSteps (fun s => isDestructiveAction (s_Action s)) (in_Steps inp) * 8) 24 +
    (if 50 <? in_DirectTargets inp + in_IndirectTargets inp then 20
     else if 9 <? in_DirectTargets inp + in_IndirectTargets inp then 10 else 0) +
    Z.min (countSteps (fun s => negb (s_HasRollback s)) (in_Steps inp) * 5) 15 +
    Z.max 0 (Z.min ((in_BatchCount inp - 1) * 2) 6).
Proof.
  unfold factorsOf. rewrite !sumPoints_app.
  rewrite pts_irreversible, pts_destructive, pts_blast, pts_norollback, pts_fanout
    by apply countSteps_nonneg. lia.
Qed.

Lemma score_unclamped_range inp : 0 <= sumPoints (factorsOf inp) <= 105.
Proof.
  rewrite score_closed_form.
  pose proof (countSteps_nonneg s_Irreversible (in_Steps inp)).
  pose proof (countSteps_nonneg (fun s => isDestructiveAction (s_Action s)) (in_Steps inp)).
  pose proof (countSteps_nonneg (fun s => negb (s_HasRollback s)) (in_Steps inp)).
  repeat split_match; lia.
Qed.

Lemma as_Score_clamped inp : as_Score (Assess inp) = Z.min 100 (sumPoints (factorsOf inp)).
Proof. simpl. destruct (Z.ltb_spec 100 (sumPoints (factorsOf inp))); lia. Qed.

Lemma rank_floor score irr bh :
  rank (approvalFloor score irr bh) =
  Z.max (if 70 <=? score then 2 else if 39 <? score then 1 else 0)
        (if 0 <? irr then if bh then 2 else 1 else 0).
Proof.
  unfold approvalFloor, bandEmergencyAt, bandHighMax.
  by destruct (70 <=? score), (39 <? score), (0 <? irr), bh.
Qed.

(** The score is explainable and bounded: it lies in 0..100 and is exactly
    the sum of the points of the reported factors, cut at 100; the reported
    factors are sorted by rule name. *)
Theorem score_explained (inp : Input) :
  0 <= as_Score (Assess inp) <= 100 /\
  as_Score (Assess inp) = Z.min 100 (sumPoints (as_Factors (Assess inp))) /\
  Sorted rule_le (as_Factors (Assess inp)).
Proof.
  rewrite as_Score_clamped. cbn [as_Factors Assess].
  rewrite (sumPoints_perm _ _ (merge_sort_Permutation rule_le (factorsOf inp))).
  pose proof (score_unclamped_range inp). split_and!; [lia..|].
  apply Sorted_merge_sort. intros f g. unfold rule_le. apply String.le_total.
Qed.

(** Case analysis on a level string: one of the three tiers or unknown. *)
Lemma levelOrder_cases (l : string) :
  (l = LevelStandard /\ levelOrder l = Some 0) \/ (l = LevelHigh /\ levelOrder l = Some 1) \/
  (l = LevelEmergency /\ levelOrder l = Some 2) \/ levelOrder l = None.
Proof.
  unfold levelOrder.
  destruct (String.eqb l LevelStandard) eqn:E1; [boolp; auto|].
  destruct (String.eqb l LevelHigh) eqn:E2; [boolp; auto|].
  destruct (String.eqb l LevelEmergency) eqn:E3; [boolp; auto|auto].
Qed.

Lemma rank_MaxLevel (a b : string) : rank (MaxLevel a b) = Z.max (rank a) (rank b).
Proof.
  unfold rank, MaxLevel.
  destruct (levelOrder_cases a) as [[-> ->]|[[-> ->]|[[-> ->]| ->]]];
    destruct (levelOrder_cases b) as [[-> ->]|[[-> ->]|[[-> ->]| ->]]]; reflexivity.
Qed.

Lemma forbidden_of_rank (l : string) : 1 <= rank l -> AutoApproveForbidden l = true.
Proof.
  unfold rank. destruct (levelOrder_cases l) as [[-> ->]|[[-> ->]|[[-> ->]| ->]]]; simpl; intros; try lia; done.
Qed.

(** The red line R4: a plan with an irreversible step never gets a floor
    below high, so whatever tier the workflow declared the routed tier forbids
    auto-approval. *)
Theorem irreversible_red_line (inp : Input) (declared : string)
    (Hirr : exists s, s ∈ in_Steps inp /\ s_Irreversible s = true) :
  1 <= rank (as_ApprovalFloor (Assess inp)) /\
  AutoApproveForbidden (MaxLevel declared (as_ApprovalFloor (Assess inp))) = true.
Proof.
  apply countSteps_pos in Hirr.
  assert (Hrank : 1 <= rank (as_ApprovalFloor (Assess inp))).
  { cbn [as_ApprovalFloor Assess]. rewrite rank_floor.
    apply Z.ltb_lt in Hirr. rewrite Hirr. destruct (in_BlastHigh inp); lia. }
  split; [done|]. apply forbidden_of_rank. rewrite rank_MaxLevel. lia.
Qed.

Definition sampleInput : Input :=
  MkInput [MkStep "drop" "mysql.pt_osc" true false; MkStep "check" "shell.exec" false true] 2 3 0 false.

Lemma irreversible_red_line_witness :
  1 <= rank (as_ApprovalFloor (Assess sampleInput)) /\
  AutoApproveForbidden (MaxLevel "standard" (as_ApprovalFloor (Assess sampleInput))) = true.
Proof.
  apply (irreversible_red_line sampleInput "standard").
  exists (MkStep "drop" "mysql.pt_osc" true false). split; [by left|done].
Defined.

(** Routing never lowers a tier: the routed tier ranks at least as high as
    the declared one and as the floor, and is one of the two (an unknown level
    counting as standard). *)
Theorem routing_only_raises (declared floor : string) :
  rank declared <= rank (MaxLevel declared floor) /\
  rank floor <= rank (MaxLevel declared floor) /\
  is_Some (levelOrder (MaxLevel declared floor)).
Proof.
  rewrite rank_MaxLevel. split_and!; [lia..|]. unfold MaxLevel.
  destruct (levelOrder_cases declared) as [[-> ->]|[[-> ->]|[[-> ->]| ->]]];
    destruct (levelOrder_cases floor) as [[-> ->]|[[-> ->]|[[-> ->]| ->]]]; by eexists.
Qed.

(** More danger never lowers the verdict: adding steps, batches or targets
    (and raising the blast band) keeps the score and the rank of the floor at
    least as high. *)
Theorem assess_monotone (inp : Input) (extra : list Step) (nb dt it : Z) (bh : bool)
    (Hnb : in_BatchCount inp <= nb) (Hdt : in_DirectTargets inp <= dt)
    (Hit : in_IndirectTargets inp <= it) (Hbh : in_BlastHigh inp = true -> bh = true) :
  let bigger := MkInput (in_Steps inp ++ extra) nb dt it bh in
  as_Score (Assess inp) <= as_Score (Assess bigger) /\
  rank (as_ApprovalFloor (Assess inp)) <= rank (as_ApprovalFloor (Assess bigger)).
Proof.
  intros bigger.
  assert (Hirr : countSteps s_Irreversible (in_Steps inp) <= countSteps s_Irreversible (in_Steps bigger)).
  { simpl. rewrite countSteps_app. pose proof (countSteps_nonneg s_Irreversible extra). lia. }
  assert (Hsum : sumPoints (factorsOf inp) <= sumPoints (factorsOf bigger)).
  { rewrite !score_closed_form. simpl. rewrite !countSteps_app.
    pose proof (countSteps_nonneg s_Irreversible extra).
    pose proof (countSteps_nonneg (fun s => isDestructiveAction (s_Action s)) extra).
    pose proof (countSteps_nonneg (fun s => negb (s_HasRollback s)) extra).
    repeat match goal with |- context [?a <? ?b] => destruct (Z.ltb_spec a b) end; lia. }
  assert (Hsc : as_Score (Assess inp) <= as_Score (Assess bigger))
    by (rewrite !as_Score_clamped; lia).
  split; [done|].
  change (as_ApprovalFloor (Assess inp)) with
    (approvalFloor (as_Score (Assess inp)) (countSteps s_Irreversible (in_Steps inp)) (in_BlastHigh inp)).
  change (as_ApprovalFloor (Assess bigger)) with
    (approvalFloor (as_Score (Assess bigger)) (countSteps s_Irreversible (in_Steps bigger)) bh).
  rewrite !rank_floor.
  repeat match goal with |- context [?a <? ?b] => destruct (Z.ltb_spec a b) end;
  repeat match goal with |- context [?a <=? ?b] => destruct (Z.leb_spec a b) end;
  destruct (in_BlastHigh inp), bh; try lia; by discriminate Hbh.
Qed.

Lemma assess_monotone_witness :
  as_Score (Assess sampleInput) <=
    as_Score (Assess (MkInput (in_Steps sampleInput ++ [MkStep "rm" "pkg.remove" true false]) 3 60 0 true)) /\
  rank (as_ApprovalFloor (Assess sampleInput)) <=
    rank (as_ApprovalFloor (Assess (MkInput (in_Steps sampleInput ++ [MkStep "rm" "pkg.remove" true false]) 3 60 0 true))).
Proof.
  apply (assess_monotone sampleInput [MkStep "rm" "pkg.remove" true false] 3 60 0 true);
    vm_compute; congruence.
Defined.

(** When the emergency floor is derived: it needs an irreversible step, but,
    contrary to the comment above the red-line override, it does not need a
    high-band blast radius: the score alone reaches it on one host. *)
Theorem emergency_floor_conditions :
  (forall inp, as_ApprovalFloor (Assess inp) = LevelEmergency ->
     0 < as_IrreversibleSteps (Assess inp)) /\
  (exists inp, in_BlastHigh inp = false /\ in_DirectTargets inp = 1 /\
     in_IndirectTargets inp = 0 /\ as_ApprovalFloor (Assess inp) = LevelEmergency).
Proof.
  split.
  - intros inp H. apply (f_equal rank) in H. cbn [as_ApprovalFloor Assess as_IrreversibleSteps] in *.
    rewrite rank_floor in H. change (rank LevelEmergency) with 2 in H.
    destruct (Z.ltb_spec 0 (countSteps s_Irreversible (in_Steps inp))) as [|Hz]; [done|].
    pose proof (countSteps_nonneg s_Irreversible (in_Steps inp)).
    pose proof (countSteps_nonneg (fun s => isDestructiveAction (s_Action s)) (in_Steps inp)).
    pose proof (countSteps_nonneg (fun s => negb (s_HasRollback s)) (in_Steps inp)).
    assert (Hle : sumPoints (factorsOf inp) <= 65).
    { rewrite score_closed_form. repeat match goal with |- context [?a <? ?b] => destruct (Z.ltb_spec a b) end; lia. }
    revert H. repeat match goal with |- context [?a <? ?b] => destruct (Z.ltb_spec a b) end;
      match goal with |- context [?a <=? ?b] => destruct (Z.leb_spec a b) end; lia.
  - exists (MkInput (replicate 3 (MkStep "rm" "pkg.remove" true false)) 2 1 0 false).
    by vm_compute.
Qed.

End Risk.
