(* ===== verification/Dsl.v ===== *)
(** * Dsl: the LEVEELang syntax tree and its static rules

    The AST nodes the executable parts of the system consume
    (src/internal/dsl/ast.go), the run-level rollback scope rule
    (rollback_scope.go), gate positions (gate_position.go), the inherent
    irreversibility vocabulary (inherent_irreversible.go), the plugin action
    policy (plugin_policy.go) and the dependency order of steps (depends.go). *)

From Stdlib Require Import ZArith Lia Ascii.
From stdpp Require Import base gmap strings list sorting pretty.
From S2P Require Import Prelude.
Open Scope string_scope.
Open Scope list_scope.

Module Dsl.

(** ** The syntax tree *)

(** Go's [any] as YAML decoding produces it; a float is the rational it denotes. *)
Inductive any : Type :=
| ANil
| ABool (b : bool)
| AInt (z : Z)
| AFloat (num : Z) (den : positive)
| AStr (s : string)
| AList (l : list any)
| AMap (l : list (string * any)).

Record ApprovalSpec := MkApprovalSpec {
  ap_Level : string;
  ap_Approvers : list string;
  ap_Timeout : string;
  ap_MinApprovers : Z;
  ap_ExcludeInitiator : bool }.

Record GateCheck := MkGateCheck {
  gc_Type : string;
  gc_Command : string;
  gc_ExpectExit : Z;
  gc_ExpectStdout : string;
  gc_Source : string;
  gc_Timeout : string;
  gc_Plugin : string;
  gc_Params : list (string * any) }.

Record GateSpec := MkGateSpec {
  gs_Pre : list GateCheck;
  gs_Post : list GateCheck;
  gs_Batch : list GateCheck }.

(** [Step] and [RollbackSpec] are mutually recursive: a rollback declaration
    holds undo steps. A nil pointer is [None]. *)
Inductive Step := MkStep {
  st_Name : string;
  st_Module : string;
  st_Action : string;
  st_Args : list (string * any);
  st_Rollback : option RollbackSpec;
  st_Approval : option ApprovalSpec;
  st_Gate : option GateSpec;
  st_Idempotent : bool;
  st_Irreversible : bool;
  st_RequiresReboot : bool;
  st_DependsOn : list string }
with RollbackSpec := MkRollbackSpec {
  rb_Steps : list Step;
  rb_Strategy : string;
  rb_OnFailure : string;
  rb_VerifyAfter : bool;
  rb_SnapshotPaths : list string }.

Record RunSnapshotSpec := MkRunSnapshotSpec {
  rs_Scope : string;
  rs_Paths : list string;
  rs_Type : string }.

Record TargetGroup := MkTargetGroup {
  tg_Name : string;
  tg_Hosts : list string;
  tg_Query : string;
  tg_Type : string;
  tg_MinCount : Z;
  tg_MaxCount : Z }.

(** [Gate] is a pointer whose identity matters downstream (the generator hands
    every batch the same one), so it carries an address. *)
Record BatchConfig := MkBatchConfig {
  bc_Strategy : string;
  bc_MaxConcurrency : Z;
  bc_Serial : bool;
  bc_Steps : list Z;
  bc_Gate : option (nat * GateSpec) }.

(** The fields of [Workflow] the plan generator reads. *)
Record Workflow := MkWorkflow {
  wf_Name : string;
  wf_Targets : list TargetGroup;
  wf_Batches : BatchConfig;
  wf_Steps : list Step;
  wf_Rollback : option RollbackSpec;
  wf_Approval : option ApprovalSpec;
  wf_Gate : option GateSpec;
  wf_Snapshot : option RunSnapshotSpec;
  wf_AllowIrreversible : list string }.

Definition ApprovalLevelStandard := "standard".
Definition ApprovalLevelHigh := "high".
Definition ApprovalLevelEmergency := "emergency".
Definition ApprovalLevels : list string := [ApprovalLevelStandard; ApprovalLevelHigh; ApprovalLevelEmergency].
Definition IsApprovalLevel (s : string) : bool := inSet ApprovalLevels s.

Definition BatchStrategyPercent := "percent".
Definition BatchStrategyFixed := "fixed".
Definition BatchStrategySerial := "serial".
Definition BatchStrategyOnePerTarget := "one-per-target".

(** ** Run-level rollback scope (LE097) *)

Record ValidationError := MkVErr { ve_Code : string; ve_Field : string; ve_Message : string }.

Definition RollbackOnFailureAuto := "auto".
Definition RollbackOnFailureManual := "manual".
Definition CodeWorkflowRollbackScope := "LE097".
Definition codeEnumIllegal := "LE003".
Definition RollbackOnFailurePolicies : list string :=
  [RollbackOnFailureAuto; RollbackOnFailureManual].

Definition IsRollbackOnFailurePolicy (s : string) : bool := inSet RollbackOnFailurePolicies s.

Definition ResolveRollbackOnFailure (spec : option RollbackSpec) : string :=
  match spec with
  | Some r => if String.eqb (rb_OnFailure r) RollbackOnFailureManual
              then RollbackOnFailureManual else RollbackOnFailureAuto
  | None => RollbackOnFailureAuto
  end.

Definition ValidateRunLevelRollback (spec : option RollbackSpec) (field : string) : list ValidationError :=
  match spec with
  | None => []
  | Some r =>
      (if String.eqb (rb_Strategy r) "" then []
       else [MkVErr CodeWorkflowRollbackScope (field +:+ ".strategy")
               ("workflow-level rollback strategy " +:+ rb_Strategy r +:+ " has no execution path")]) ++
      (match rb_Steps r with
       | [] => []
       | l => [MkVErr CodeWorkflowRollbackScope (field +:+ ".steps")
                ("workflow-level rollback declares " +:+ pretty (length l) +:+
                 " undo step(s) that cannot be attributed to a forward step")]
       end) ++
      (match rb_SnapshotPaths r with
       | [] => []
       | l => [MkVErr CodeWorkflowRollbackScope (field +:+ ".snapshot_paths")
                ("workflow-level rollback declares " +:+ pretty (length l) +:+
                 " snapshot path(s) with no compensating step to restore them for")]
       end) ++
      (if negb (String.eqb (rb_OnFailure r) "") && negb (IsRollbackOnFailurePolicy (rb_OnFailure r))
       then [MkVErr codeEnumIllegal (field +:+ ".on_failure")
               ("invalid rollback on_failure " +:+ rb_OnFailure r)]
       else [])
  end.

(** ** Gate positions *)

Inductive GateSlot := GateSlotPre | GateSlotBatch | GateSlotPost.

Definition gateSlotsByPosition (position : string) : option GateSlot :=
  if String.eqb position "pre_apply" then Some GateSlotPre
  else if String.eqb position "post_batch" then Some GateSlotBatch
  else if String.eqb position "post_apply" then Some GateSlotPost
  else None.

Definition IsGatePosition (position : string) : bool :=
  match gateSlotsByPosition position with Some _ => true | None => false end.

Definition appendSlot (spec : GateSpec) (slot : GateSlot) (gc : GateCheck) : GateSpec :=
  match slot with
  | GateSlotPre => MkGateSpec (gs_Pre spec ++ [gc]) (gs_Post spec) (gs_Batch spec)
  | GateSlotBatch => MkGateSpec (gs_Pre spec) (gs_Post spec) (gs_Batch spec ++ [gc])
  | GateSlotPost => MkGateSpec (gs_Pre spec) (gs_Post spec ++ [gc]) (gs_Batch spec)
  end.

Definition AppendGateCheck (spec : GateSpec) (position : string) (gc : GateCheck)
    (defaultSlot : GateSlot) : goerr + GateSpec :=
  if String.eqb position "" then inr (appendSlot spec defaultSlot gc)
  else match gateSlotsByPosition position with
       | None => inl (ELevee "LE051" ("unknown gate position " +:+ position) 0)
       | Some slot => inr (appendSlot spec slot gc)
       end.

Definition HasBatchCheck (specs : list (option GateSpec)) : bool :=
  existsb (fun s => match s with
                    | Some g => match gs_Batch g with [] => false | _ => true end
                    | None => false
                    end) specs.

(** ** Irreversibility vocabulary and the plugin action policy *)

Definition inherentIrreversibleActions : list string :=
  ["pkg.remove"; "file.delete"; "user.remove"; "mysql.replica_switch"; "mysql.pt_osc"].

Definition DefaultIrreversibleActions : list string :=
  merge_sort String.le inherentIrreversibleActions.

Definition IsInherentIrreversible (module action : string) : bool :=
  inSet inherentIrreversibleActions (module +:+ "." +:+ action).

Record PluginActionPolicy := MkPolicy {
  pp_destructive : gset string;
  pp_reversible : gset string;
  pp_modules : gset string }.

Definition JudgesIrreversible (p : PluginActionPolicy) (module action : string) : bool :=
  let key := module +:+ "." +:+ action in
  if bool_decide (key ∈ pp_destructive p) then true
  else if negb (bool_decide (module ∈ pp_modules p)) then false
  else negb (bool_decide (key ∈ pp_reversible p)).

(** ** Dependency order of steps (depends.go) *)

Definition codeDependencyCycle := "LE071".
Definition codeDependencyUnknown := "LE104".

(** [index[s.Name] = i], first occurrence wins, unnamed steps skipped. *)
Fixpoint stepIndex (steps : list Step) (i : nat) (m : gmap string nat) : gmap string nat :=
  match steps with
  | [] => m
  | s :: l =>
      stepIndex l (S i)
        (if String.eqb (st_Name s) "" then m
         else match m !! st_Name s with Some _ => m | None => <[st_Name s := i]> m end)
  end.

(** The inner loop over [s.DependsOn]: problems found and the de-duplicated
    edges, with [seen] the edges so far. *)
Fixpoint scanDeps (index : gmap string nat) (i : nat) (name : string) (deps : list string)
    (seen : list nat) : list ValidationError * list nat :=
  match deps with
  | [] => ([], seen)
  | dep :: rest =>
      match index !! dep with
      | None =>
          let '(ps, e) := scanDeps index i name rest seen in
          (MkVErr codeDependencyUnknown ("steps[" +:+ pretty i +:+ "].depends_on")
             ("step " +:+ name +:+ " depends_on " +:+ dep +:+ ", which is not a step in this workflow") :: ps, e)
      | Some j =>
          if Nat.eqb j i then
            let '(ps, e) := scanDeps index i name rest seen in
            (MkVErr codeDependencyCycle ("steps[" +:+ pretty i +:+ "].depends_on")
               ("step " +:+ name +:+ " depends on itself") :: ps, e)
          else if bool_decide (j ∈ seen) then scanDeps index i name rest seen
          else scanDeps index i name rest (seen ++ [j])
      end
  end.

Definition depScans (steps : list Step) : list (list ValidationError * list nat) :=
  imap (fun i s => scanDeps (stepIndex steps 0 ∅) i (st_Name s) (st_DependsOn s) []) steps.

(** [dependents[j]]: the steps that wait on [j], in declaration order. *)
Definition dependents (deps : list (list nat)) (j : nat) : list nat :=
  filter (fun i => j ∈ (deps !!! i)) (seq 0 (length deps)).

(** One placement of the stable Kahn loop: the state is [placed], [unmet] and
    the indices placed so far. *)
Record kahn := MkKahn { k_placed : list bool; k_unmet : list nat; k_out : list nat }.

Definition ready (k : kahn) (i : nat) : bool :=
  negb (k_placed k !!! i) && Nat.eqb (k_unmet k !!! i) 0.

Definition pick (k : kahn) : option nat :=
  List.find (ready k) (seq 0 (length (k_placed k))).

Definition decrement (unmet : list nat) (ds : list nat) : list nat :=
  foldl (fun u d => <[d := pred (u !!! d)]> u) unmet ds.

Fixpoint kahnLoop (fuel : nat) (deps : list (list nat)) (k : kahn) : kahn :=
  match fuel with
  | O => k
  | S fuel' =>
      match pick k with
      | None => k
      | Some i =>
          kahnLoop fuel' deps
            (MkKahn (<[i := true]> (k_placed k))
                    (decrement (k_unmet k) (dependents deps i))
                    (k_out k ++ [i]))
      end
  end.

Definition kahnStart (deps : list (list nat)) : kahn :=
  MkKahn (replicate (length deps) false) (map length deps) [].

(** The [for len(out) < len(steps)] loop places one step per turn or breaks, so
    [length steps] turns suffice. *)
Definition OrderStepsByDependsOn (steps : list Step) : list Step * list ValidationError :=
  match steps with
  | [] => ([], [])
  | _ =>
      let scans := depScans steps in
      let deps := map snd scans in
      let problems := concat (map fst scans) in
      let k := kahnLoop (length steps) deps (kahnStart deps) in
      let at_ := omap (fun i => steps !! i) in
      if Nat.ltb (length (k_out k)) (length steps) then
        let stuck := filter (fun i => k_placed k !!! i = false) (seq 0 (length steps)) in
        (at_ (k_out k ++ stuck),
         problems ++ [MkVErr codeDependencyCycle "steps" "step dependencies form a cycle"])
      else (at_ (k_out k), problems)
  end.

(** ** Lemmas on the dependency order *)

Section Order.
Context (deps : list (list nat)).

(** The edges [scanDeps] builds: duplicate-free, in range, no self loop. *)
Definition edges_ok : Prop :=
  forall i, i < length deps ->
    NoDup (deps !!! i) /\ (forall j, j ∈ deps !!! i -> j < length deps /\ j <> i).

Record kahn_inv (k : kahn) : Prop := {
  ki_placed_len : length (k_placed k) = length deps;
  ki_unmet_len : length (k_unmet k) = length deps;
  ki_nodup : NoDup (k_out k);
  ki_range : forall i, i ∈ k_out k -> i < length deps;
  ki_placed : forall i, i < length deps -> (k_placed k !!! i = true <-> i ∈ k_out k);
  ki_unmet : forall i, i < length deps ->
    k_unmet k !!! i = length (filter (fun j => j ∉ k_out k) (deps !!! i));
  ki_before : forall l1 i l2, k_out k = l1 ++ i :: l2 ->
    forall j, j ∈ deps !!! i -> j ∈ l1 }.

Lemma dependents_spec j i :
  i ∈ dependents deps j <-> i < length deps /\ j ∈ deps !!! i.
Proof. unfold dependents. rewrite list_elem_of_filter, elem_of_seq. naive_solver lia. Qed.

Lemma dependents_NoDup j : NoDup (dependents deps j).
Proof. apply NoDup_filter, NoDup_seq. Qed.

Lemma decrement_length u ds : length (decrement u ds) = length u.
Proof.
  unfold decrement. revert u. induction ds as [|d ds IH]; intros u; simpl; [done|].
  by rewrite IH, length_insert.
Qed.

Lemma decrement_lookup u ds i :
  NoDup ds -> (forall d, d ∈ ds -> d < length u) -> i < length u ->
  decrement u ds !!! i = if bool_decide (i ∈ ds) then pred (u !!! i) else u !!! i.
Proof.
  unfold decrement. revert u. induction ds as [|d ds IH]; intros u Hnd Hr Hi; simpl; [done|].
  apply NoDup_cons in Hnd as [Hd Hnd].
  rewrite IH; [|done| |by rewrite length_insert].
  - destruct (decide (i = d)) as [->|Hne].
    + rewrite bool_decide_false, bool_decide_true by set_solver.
      by rewrite list_lookup_total_insert_eq.
    + rewrite list_lookup_total_insert_ne by done.
      by rewrite (bool_decide_ext (i ∈ d :: ds) (i ∈ ds)) by set_solver.
  - intros d' Hd'. rewrite length_insert. apply Hr. set_solver.
Qed.

Lemma filter_snoc_length (l out : list nat) (i : nat) :
  NoDup l -> i ∉ out ->
  length (filter (fun j => j ∉ out ++ [i]) l) =
  if bool_decide (i ∈ l) then pred (length (filter (fun j => j ∉ out) l))
  else length (filter (fun j => j ∉ out) l).
Proof.
  intros Hnd Hi. induction l as [|x l IH]; [done|].
  apply NoDup_cons in Hnd as [Hx Hnd]. rewrite !filter_cons. specialize (IH Hnd).
  destruct (decide (x = i)) as [->|Hne].
  - rewrite decide_False, decide_True, bool_decide_true by set_solver.
    rewrite bool_decide_false in IH by done. simpl. by rewrite IH.
  - rewrite (bool_decide_ext (i ∈ x :: l) (i ∈ l)) by set_solver.
    destruct (decide (x ∉ out)) as [Hxo|Hxo].
    + rewrite decide_True by set_solver. simpl. rewrite IH.
      case_bool_decide; [|done].
      assert (i ∈ filter (fun j => j ∉ out) l) by (apply list_elem_of_filter; done).
      destruct (filter (fun j => j ∉ out) l); [set_solver|done].
    + rewrite decide_False by set_solver. by rewrite IH.
Qed.

Lemma pick_spec k i :
  pick k = Some i -> i < length (k_placed k) /\ k_placed k !!! i = false /\ k_unmet k !!! i = 0.
Proof.
  unfold pick. intros H. apply List.find_some in H as [Hin Hr].
  apply list_elem_of_In, elem_of_seq in Hin. unfold ready in Hr. boolp.
  apply Nat.eqb_eq in H0. split_and!; [lia|done|done].
Qed.

Lemma pick_none k i :
  pick k = None -> i < length (k_placed k) -> k_placed k !!! i = false -> k_unmet k !!! i <> 0.
Proof.
  unfold pick. intros H Hi Hp Hu.
  assert (Hr : ready k i = false).
  { apply (List.find_none _ _ H). apply list_elem_of_In, elem_of_seq. lia. }
  unfold ready in Hr. rewrite Hp, Hu in Hr. done.
Qed.

Lemma kahn_step_inv k i :
  edges_ok -> kahn_inv k -> pick k = Some i ->
  kahn_inv (MkKahn (<[i := true]> (k_placed k))
                   (decrement (k_unmet k) (dependents deps i)) (k_out k ++ [i])).
Proof.
  intros Hok [Hpl Hul Hnd Hrg Hp Hu Hb] Hpick.
  apply pick_spec in Hpick as (Hi & Hf & Hz). rewrite Hpl in Hi.
  assert (Hnot : i ∉ k_out k) by (rewrite <- (Hp i Hi); congruence).
  split; simpl.
  - by rewrite length_insert.
  - by rewrite decrement_length.
  - apply NoDup_app. split_and!; [done|set_solver|apply NoDup_singleton].
  - set_solver.
  - intros x Hx. rewrite elem_of_app, list_elem_of_singleton.
    destruct (decide (x = i)) as [->|Hne].
    + rewrite list_lookup_total_insert_eq by lia. naive_solver.
    + rewrite list_lookup_total_insert_ne by done. rewrite (Hp x Hx). naive_solver.
  - intros x Hx. rewrite decrement_lookup; [|apply dependents_NoDup| |lia].
    + rewrite filter_snoc_length; [|by apply Hok|done]. rewrite (Hu x Hx).
      by rewrite (bool_decide_ext (x ∈ dependents deps i) (i ∈ deps !!! x))
        by (rewrite dependents_spec; naive_solver).
    + intros d Hd%dependents_spec. lia.
  - intros l1 x l2 Heq j Hj.
    destruct l2 as [|y l2] using rev_ind.
    + apply app_inj_tail in Heq as [<- <-].
      rewrite Hu in Hz by done. apply length_zero_iff_nil in Hz.
      destruct (decide (j ∈ k_out k)) as [|Hn]; [done|].
      assert (j ∈ filter (fun j => j ∉ k_out k) (deps !!! i)) as Hin by (by apply list_elem_of_filter).
      rewrite Hz in Hin. set_solver.
    + rewrite app_comm_cons, app_assoc in Heq. apply app_inj_tail in Heq as [Heq ->].
      by eapply Hb.
Qed.

Lemma kahn_start_inv : edges_ok -> kahn_inv (kahnStart deps).
Proof.
  intros Hok. split; simpl.
  - by rewrite length_replicate.
  - by rewrite length_map.
  - constructor.
  - set_solver.
  - intros i Hi. rewrite lookup_total_replicate_2 by done. set_solver.
  - intros i Hi. destruct (lookup_lt_is_Some_2 deps i Hi) as [l Hl].
    rewrite (list_lookup_total_correct (map length deps) i (length l)).
    + rewrite (list_lookup_total_correct _ _ _ Hl). f_equal. symmetry.
      clear. induction l as [|x l IH]; [done|]. rewrite filter_cons, decide_True by set_solver.
      by rewrite IH.
    + change (map length deps) with (length <$> deps). by rewrite list_lookup_fmap, Hl.
  - intros [|? ?]; done.
Qed.

(** The loop keeps the invariant and stops either with every step placed or
    with nothing ready. *)
Lemma kahn_loop_inv fuel k :
  edges_ok -> kahn_inv k -> length deps <= fuel + length (k_out k) ->
  let r := kahnLoop fuel deps k in
  kahn_inv r /\ (length (k_out r) = length deps \/ pick r = None).
Proof.
  intros Hok. revert k. induction fuel as [|fuel IH]; intros k Hk Hf; simpl.
  - split; [done|]. left.
    assert (length (k_out k) <= length (seq 0 (length deps))) as Hle.
    { apply NoDup_incl_length; [apply NoDup_ListNoDup, Hk|].
      intros x Hx. apply List.in_seq. apply list_elem_of_In, Hk in Hx. lia. }
    rewrite length_seq in Hle. lia.
  - destruct (pick k) as [i|] eqn:Hp; [|by split; [|right]].
    apply IH; [by apply kahn_step_inv|]. simpl. rewrite length_app. simpl. lia.
Qed.
End Order.

Lemma stepIndex_spec l i m d j :
  stepIndex l i m !! d = Some j ->
  m !! d = Some j \/ (i <= j /\ exists s, l !! (j - i) = Some s /\ st_Name s = d).
Proof.
  revert i m. induction l as [|s l IH]; intros i m H; simpl in H; [by left|].
  destruct (IH _ _ H) as [Hm|(Hle & s' & Hs' & Hn)].
  - destruct (String.eqb (st_Name s) ""); [by left|].
    destruct (m !! st_Name s) eqn:E; [by left|].
    apply lookup_insert_Some in Hm as [[<- <-]|[_ Hm]]; [|by left].
    right. split; [lia|]. exists s. by rewrite Nat.sub_diag.
  - right. split; [lia|]. exists s'. split; [|done].
    replace (j - i) with (S (j - S i)) by lia. done.
Qed.

Lemma stepIndex_name steps d j :
  stepIndex steps 0 ∅ !! d = Some j -> exists s, steps !! j = Some s /\ st_Name s = d.
Proof.
  intros H. apply stepIndex_spec in H as [H|(_ & s & Hs & Hn)]; [done|].
  exists s. by rewrite Nat.sub_0_r in Hs.
Qed.

Lemma scanDeps_edges index i name ds seen :
  NoDup seen ->
  let r := scanDeps index i name ds seen in
  NoDup r.2 /\ (forall j, j ∈ seen -> j ∈ r.2) /\
  (forall j, j ∈ r.2 -> j ∈ seen \/ (j <> i /\ exists d, d ∈ ds /\ index !! d = Some j)) /\
  (r.1 = [] -> forall d, d ∈ ds -> exists j, index !! d = Some j /\ j ∈ r.2).
Proof.
  revert seen. induction ds as [|d ds IH]; intros seen Hnd; simpl; [set_solver|].
  destruct (index !! d) as [j|] eqn:Hj.
  - destruct (Nat.eqb_spec j i) as [->|Hne].
    + specialize (IH seen Hnd). destruct (scanDeps _ _ _ _ _) as [ps e]. simpl in *.
      destruct IH as (? & ? & Hin & ?). split_and!; [done|done| |done].
      intros x Hx. destruct (Hin x Hx) as [|(? & d' & ? & ?)]; [by left|].
      right. split; [done|]. exists d'. set_solver.
    + case_bool_decide as Hseen.
      * specialize (IH seen Hnd). destruct (scanDeps _ _ _ _ _) as [ps e]. simpl in *.
        destruct IH as (? & Hsub & Hin & Hall). split_and!; [done|done| |].
        -- intros x Hx. destruct (Hin x Hx) as [|(? & d' & ? & ?)]; [by left|].
           right. split; [done|]. exists d'. set_solver.
        -- intros Hps d' [->|Hd']%elem_of_cons; [by exists j; auto|by apply Hall].
      * assert (Hnd' : NoDup (seen ++ [j])).
        { apply NoDup_app. split_and!; [done|set_solver|apply NoDup_singleton]. }
        specialize (IH _ Hnd'). destruct (scanDeps _ _ _ _ _) as [ps e]. simpl in *.
        destruct IH as (? & Hsub & Hin & Hall). split_and!; [done|set_solver| |].
        -- intros x Hx. destruct (Hin x Hx) as [Hx'|(? & d' & ? & ?)].
           ++ apply elem_of_app in Hx' as [?| ->%list_elem_of_singleton]; [by left|].
              right. split; [done|]. exists d. set_solver.
           ++ right. split; [done|]. exists d'. set_solver.
        -- intros Hps d' [->|Hd']%elem_of_cons; [exists j; set_solver|by apply Hall].
  - specialize (IH seen Hnd). destruct (scanDeps _ _ _ _ _) as [ps e]. simpl in *.
    destruct IH as (? & ? & Hin & ?). split_and!; [done|done| |done].
    intros x Hx. destruct (Hin x Hx) as [|(? & d' & ? & ?)]; [by left|].
    right. split; [done|]. exists d'. set_solver.
Qed.

Lemma depScans_length steps : length (depScans steps) = length steps.
Proof. apply length_imap. Qed.

Lemma depScans_lookup steps i s :
  steps !! i = Some s ->
  depScans steps !! i =
    Some (scanDeps (stepIndex steps 0 ∅) i (st_Name s) (st_DependsOn s) []).
Proof. intros H. unfold depScans. by rewrite list_lookup_imap, H. Qed.

Lemma deps_lookup steps i s :
  steps !! i = Some s ->
  map snd (depScans steps) !!! i =
    (scanDeps (stepIndex steps 0 ∅) i (st_Name s) (st_DependsOn s) []).2.
Proof.
  intros H. apply list_lookup_total_correct.
  change (map snd (depScans steps)) with (snd <$> depScans steps).
  by rewrite list_lookup_fmap, (depScans_lookup _ _ _ H).
Qed.

Lemma deps_length steps : length (map snd (depScans steps)) = length steps.
Proof. by rewrite length_map, depScans_length. Qed.

Lemma deps_edges_ok steps : edges_ok (map snd (depScans steps)).
Proof.
  intros i Hi. rewrite deps_length in *. destruct (lookup_lt_is_Some_2 steps i Hi) as [s Hs].
  rewrite (deps_lookup _ _ _ Hs).
  destruct (scanDeps_edges (stepIndex steps 0 ∅) i (st_Name s) (st_DependsOn s) [] (NoDup_nil_2))
    as (Hnd & _ & Hin & _).
  split; [done|]. intros j Hj. destruct (Hin j Hj) as [|(Hne & d & _ & Hd)]; [set_solver|].
  apply stepIndex_name in Hd as (s' & Hs' & _). split; [by eapply lookup_lt_Some|done].
Qed.

Lemma omap_lookup_seq {A} (l : list A) : omap (fun i => l !! i) (seq 0 (length l)) = l.
Proof.
  induction l as [|x l IH] using rev_ind; [done|].
  rewrite length_app, seq_app, omap_app. simpl. rewrite lookup_app_r, Nat.sub_diag by lia. simpl.
  f_equal. rewrite <- IH at 2.
  assert (forall k, k <= length l ->
    omap (fun i => (l ++ [x]) !! i) (seq 0 k) = omap (fun i => l !! i) (seq 0 k)) as Hk; [|by apply Hk].
  induction k as [|k IHk]; [done|]. intros Hle. rewrite seq_S, !omap_app, IHk by lia. simpl.
  by rewrite lookup_app_l by lia.
Qed.

Lemma omap_split {A} (l : list A) (o : list nat) l1 s l2 :
  (forall i, i ∈ o -> i < length l) ->
  omap (fun i => l !! i) o = l1 ++ s :: l2 ->
  exists o1 i o2, o = o1 ++ i :: o2 /\ omap (fun i => l !! i) o1 = l1 /\ l !! i = Some s.
Proof.
  revert l1. induction o as [|i o IH]; intros l1 Hr H; simpl in H; [by destruct l1|].
  destruct (lookup_lt_is_Some_2 l i) as [x Hx]; [apply Hr; by left|]. rewrite Hx in H.
  destruct l1 as [|y l1]; simpl in H; injection H as <- H.
  - exists [], i, o. done.
  - destruct (IH l1) as (o1 & i' & o2 & -> & Ho1 & Hi'); [set_solver|done|].
    exists (i :: o1), i', o2. split_and!; [done| |done]. cbn. rewrite Hx. by f_equal.
Qed.

Definition orderKahn (steps : list Step) : kahn :=
  let deps := map snd (depScans steps) in kahnLoop (length steps) deps (kahnStart deps).

Lemma orderKahn_inv steps :
  kahn_inv (map snd (depScans steps)) (orderKahn steps) /\
  (length (k_out (orderKahn steps)) = length steps \/ pick (orderKahn steps) = None).
Proof.
  pose proof (kahn_loop_inv (map snd (depScans steps)) (length steps) _
    (deps_edges_ok steps) (kahn_start_inv _ (deps_edges_ok steps))) as H.
  rewrite deps_length in H. apply H. simpl. lia.
Qed.

Lemma full_perm steps :
  length (k_out (orderKahn steps)) = length steps ->
  k_out (orderKahn steps) ≡ₚ seq 0 (length steps).
Proof.
  intros Hlen. destruct (orderKahn_inv steps) as [[Hp Hu Hnd Hr Hpl _ _] _].
  apply NoDup_Permutation; [done|apply NoDup_seq|].
  intros i. rewrite elem_of_seq. split.
  - intros Hi%Hr. rewrite deps_length in Hi. lia.
  - intros [_ Hi].
    assert (Hincl : List.incl (seq 0 (length steps)) (k_out (orderKahn steps))).
    { apply List.NoDup_length_incl.
      - by apply NoDup_ListNoDup.
      - rewrite length_seq. lia.
      - intros x Hx. apply List.in_seq. apply list_elem_of_In, Hr in Hx.
        rewrite deps_length in Hx. lia. }
    apply list_elem_of_In, Hincl, List.in_seq. lia.
Qed.

Lemma stuck_perm steps :
  k_out (orderKahn steps) ++
    filter (fun i => k_placed (orderKahn steps) !!! i = false) (seq 0 (length steps))
  ≡ₚ seq 0 (length steps).
Proof.
  destruct (orderKahn_inv steps) as [[Hp Hu Hnd Hr Hpl _ _] _]. rewrite deps_length in *.
  apply NoDup_Permutation; [|apply NoDup_seq|].
  - apply NoDup_app. split_and!; [done| |apply NoDup_filter, NoDup_seq].
    intros i Hi [Hf _]%list_elem_of_filter. apply Hpl in Hi; [congruence|by apply Hr].
  - intros i. rewrite elem_of_app, list_elem_of_filter, !elem_of_seq. split.
    + intros [Hi%Hr|]; lia.
    + intros [_ Hi]. destruct (k_placed (orderKahn steps) !!! i) eqn:E.
      * left. by apply Hpl.
      * right. split; [done|lia].
Qed.

Lemma order_unfold steps :
  steps <> [] ->
  OrderStepsByDependsOn steps =
    let at_ := omap (fun i => steps !! i) in
    let problems := concat (map fst (depScans steps)) in
    if Nat.ltb (length (k_out (orderKahn steps))) (length steps) then
      (at_ (k_out (orderKahn steps) ++
         filter (fun i => k_placed (orderKahn steps) !!! i = false) (seq 0 (length steps))),
       problems ++ [MkVErr codeDependencyCycle "steps" "step dependencies form a cycle"])
    else (at_ (k_out (orderKahn steps)), problems).
Proof. by destruct steps. Qed.

(** The order's specification, for the generator that relies on it. *)
Lemma order_spec (steps out : list Step) (problems : list ValidationError)
    (H : OrderStepsByDependsOn steps = (out, problems)) :
  out ≡ₚ steps /\
  (problems = [] -> forall l1 s l2, out = l1 ++ s :: l2 ->
     forall d, d ∈ st_DependsOn s -> exists s', s' ∈ l1 /\ st_Name s' = d).
Proof.
  destruct (decide (steps = [])) as [->|Hne];
    [by injection H as <- <-; split; [|intros _ l1 s l2 Hn; by destruct l1]|].
  rewrite (order_unfold steps Hne) in H. cbv zeta in H.
  destruct (orderKahn_inv steps) as [Hinv _].
  destruct (Nat.ltb_spec (length (k_out (orderKahn steps))) (length steps)) as [Hlt|Hge].
  - apply pair_equal_spec in H as [<- <-]. split.
    + rewrite stuck_perm. by rewrite omap_lookup_seq.
    + intros Hc. by destruct (concat _).
  - apply pair_equal_spec in H as [<- <-].
    assert (Hlen : length (k_out (orderKahn steps)) = length steps).
    { pose proof (ki_nodup _ _ Hinv) as Hnd.
      assert (length (k_out (orderKahn steps)) <= length (seq 0 (length steps))) as Hle.
      { apply NoDup_incl_length; [by apply NoDup_ListNoDup|]. intros x Hx. apply List.in_seq.
        apply list_elem_of_In, (ki_range _ _ Hinv) in Hx. rewrite deps_length in Hx. lia. }
      rewrite length_seq in Hle. lia. }
    split; [rewrite full_perm by done; by rewrite omap_lookup_seq|].
    intros Hnil l1 s l2 Hout d Hd.
    apply omap_split in Hout as (o1 & i & o2 & Ho & <- & Hs).
    2: { intros x Hx%(ki_range _ _ Hinv). by rewrite deps_length in Hx. }
    assert (Hscan : (scanDeps (stepIndex steps 0 ∅) i (st_Name s) (st_DependsOn s) []).1 = []).
    { apply concat_nil_Forall in Hnil. rewrite Forall_forall in Hnil. apply Hnil.
      apply list_elem_of_In, List.in_map_iff. eexists. split; [done|].
      apply list_elem_of_In, list_elem_of_lookup. exists i. by apply depScans_lookup. }
    destruct (scanDeps_edges (stepIndex steps 0 ∅) i (st_Name s) (st_DependsOn s) [] NoDup_nil_2)
      as (_ & _ & _ & Hall).
    destruct (Hall Hscan d Hd) as (j & Hj & Hje).
    rewrite <- (deps_lookup _ _ _ Hs) in Hje.
    pose proof (ki_before _ _ Hinv _ _ _ Ho _ Hje) as Hbefore.
    destruct (stepIndex_name _ _ _ Hj) as (s' & Hs' & Hn'). exists s'. split; [|done].
    apply list_elem_of_omap. eauto.
Qed.

(** Ordering steps by [depends_on] loses and invents nothing: the result is
    always a permutation of the declared steps; and when no problem is reported,
    every step comes after each of the steps it names, none of which is itself. *)
Theorem order_respects_dependencies (steps out : list Step) (problems : list ValidationError)
    (H : OrderStepsByDependsOn steps = (out, problems)) :
  out ≡ₚ steps /\
  (problems = [] -> forall l1 s l2, out = l1 ++ s :: l2 ->
     forall d, d ∈ st_DependsOn s -> exists s', s' ∈ l1 /\ st_Name s' = d).
Proof. by apply order_spec. Qed.

Definition plainStep (name : string) (deps : list string) : Step :=
  MkStep name "shell" "exec" [] None None None false false false deps.

Definition sampleSteps : list Step := [plainStep "b" ["a"]; plainStep "a" []; plainStep "c" ["b"; "a"]].

Lemma order_respects_dependencies_witness :
  [plainStep "a" []; plainStep "b" ["a"]; plainStep "c" ["b"; "a"]] ≡ₚ sampleSteps /\
  (@nil ValidationError = [] -> forall l1 s l2,
     [plainStep "a" []; plainStep "b" ["a"]; plainStep "c" ["b"; "a"]] = l1 ++ s :: l2 ->
     forall d, d ∈ st_DependsOn s -> exists s', s' ∈ l1 /\ st_Name s' = d).
Proof.
  exact (order_respects_dependencies sampleSteps
    [plainStep "a" []; plainStep "b" ["a"]; plainStep "c" ["b"; "a"]] [] eq_refl).
Defined.

Lemma stepIndex_keeps l i m d j0 :
  m !! d = Some j0 -> stepIndex l i m !! d = Some j0.
Proof.
  revert i m. induction l as [|s l IH]; intros i m H; simpl; [done|].
  apply IH. destruct (String.eqb _ _); [done|]. destruct (m !! st_Name s) eqn:E; [done|].
  rewrite lookup_insert_ne; [done|congruence].
Qed.

Lemma stepIndex_first l i m d s j :
  l !! j = Some s -> st_Name s = d -> d <> "" -> m !! d = None ->
  exists j0, stepIndex l i m !! d = Some j0 /\ j0 <= i + j.
Proof.
  revert i m j. induction l as [|x l IH]; intros i m j Hj Hn Hd Hm; [done|]. simpl.
  destruct (decide (st_Name x = d)) as [He|Hne].
  - rewrite He. destruct (String.eqb_spec d ""); [done|]. rewrite Hm.
    exists i. split; [|lia]. apply stepIndex_keeps. by rewrite lookup_insert_eq.
  - destruct j as [|j]; simpl in Hj; [congruence|].
    destruct (IH (S i) (if String.eqb (st_Name x) "" then m
      else match m !! st_Name x with Some _ => m | None => <[st_Name x := i]> m end) j)
      as (j0 & Hj0 & Hle); [done|done|done| |].
    + destruct (String.eqb _ _); [done|]. destruct (m !! st_Name x); [done|].
      by rewrite lookup_insert_ne.
    + exists j0. split; [done|lia].
Qed.

(** Steps written in dependency order: every name a step depends on is the name
    of an earlier step. *)
Definition dependency_ordered (steps : list Step) : Prop :=
  forall i s d, steps !! i = Some s -> d ∈ st_DependsOn s ->
    d <> "" /\ exists j s', j < i /\ steps !! j = Some s' /\ st_Name s' = d.

Lemma ordered_index steps i s d :
  dependency_ordered steps -> steps !! i = Some s -> d ∈ st_DependsOn s ->
  exists j, stepIndex steps 0 ∅ !! d = Some j /\ j < i.
Proof.
  intros Ho Hs Hd. destruct (Ho i s d Hs Hd) as (Hne & j & s' & Hlt & Hs' & Hn).
  destruct (stepIndex_first steps 0 ∅ d s' j Hs' Hn Hne) as (j0 & Hj0 & Hle);
    [by rewrite lookup_empty|].
  exists j0. split; [done|lia].
Qed.

Lemma scanDeps_clean index i name ds seen :
  (forall d, d ∈ ds -> exists j, index !! d = Some j /\ j < i) ->
  (scanDeps index i name ds seen).1 = [].
Proof.
  revert seen. induction ds as [|d ds IH]; intros seen H; simpl; [done|].
  destruct (H d) as (j & -> & Hlt); [by left|].
  destruct (Nat.eqb_spec j i); [lia|].
  case_bool_decide; apply IH; set_solver.
Qed.

Lemma pick_next (deps : list (list nat)) k m :
  kahn_inv deps k -> k_out k = seq 0 m -> m < length deps ->
  (forall j, j ∈ deps !!! m -> j < m) -> pick k = Some m.
Proof.
  intros [Hpl Hul Hnd Hr Hp Hu Hb] Hout Hm Hdeps.
  assert (Hreadym : ready k m = true).
  { unfold ready. rewrite (Hu m Hm), Hout.
    destruct (filter (fun j => j ∉ seq 0 m) (deps !!! m)) as [|x l] eqn:E.
    - rewrite andb_true_r. apply negb_true_iff. apply not_true_is_false.
      rewrite (Hp m Hm), Hout, elem_of_seq. lia.
    - assert (x ∈ filter (fun j => j ∉ seq 0 m) (deps !!! m)) as [Hn Hx]%list_elem_of_filter
        by (rewrite E; by left).
      rewrite elem_of_seq in Hn. specialize (Hdeps x Hx). lia. }
  unfold pick. rewrite Hpl.
  replace (length deps) with (m + S (length deps - S m)) by lia.
  rewrite seq_app. simpl.
  assert (forall l, (forall i, i ∈ l -> ready k i = false) ->
    forall l', List.find (ready k) (l ++ l') = List.find (ready k) l') as Hskip.
  { induction l as [|x l IH]; intros Hl l'; simpl; [done|].
    rewrite (Hl x) by (by left). apply IH. intros i Hi. apply Hl. by right. }
  rewrite Hskip.
  - simpl. by rewrite Hreadym.
  - intros i Hi. unfold ready. apply andb_false_iff. left. apply negb_false_iff.
    apply Hp; [apply elem_of_seq in Hi; lia|]. by rewrite Hout.
Qed.

Lemma kahn_loop_ordered (deps : list (list nat)) k m fuel :
  edges_ok deps -> (forall i j, i < length deps -> j ∈ deps !!! i -> j < i) ->
  kahn_inv deps k -> k_out k = seq 0 m -> m + fuel = length deps ->
  k_out (kahnLoop fuel deps k) = seq 0 (length deps).
Proof.
  intros Hok Hlt. revert k m. induction fuel as [|fuel IH]; intros k m Hk Hout Hm; simpl.
  - rewrite Hout. f_equal. lia.
  - rewrite (pick_next deps k m) by (done || lia || (intros; apply Hlt; done || lia)).
    apply (IH _ (S m)); [|cbn [k_out]; by rewrite Hout, seq_S|lia].
    apply kahn_step_inv; [done|done|].
    apply (pick_next deps); [done|done|lia|]. intros j. apply Hlt. lia.
Qed.

(** The order is stable: a workflow already written in dependency order is
    returned unchanged and without problems. *)
Theorem order_stable (steps : list Step) (Hord : dependency_ordered steps) :
  OrderStepsByDependsOn steps = (steps, []).
Proof.
  destruct (decide (steps = [])) as [->|Hne]; [done|].
  rewrite order_unfold by done. cbv zeta.
  assert (Hout : k_out (orderKahn steps) = seq 0 (length steps)).
  { unfold orderKahn. rewrite <- (deps_length steps) at 2.
    apply (kahn_loop_ordered _ _ 0); [apply deps_edges_ok| |apply kahn_start_inv, deps_edges_ok|done|by rewrite deps_length].
    intros i j Hi Hj. rewrite deps_length in Hi.
    destruct (lookup_lt_is_Some_2 steps i Hi) as [s Hs]. rewrite (deps_lookup _ _ _ Hs) in Hj.
    destruct (scanDeps_edges (stepIndex steps 0 ∅) i (st_Name s) (st_DependsOn s) [] NoDup_nil_2)
      as (_ & _ & Hin & _).
    destruct (Hin j Hj) as [|(_ & d & Hd & Hj')]; [set_solver|].
    destruct (ordered_index steps i s d Hord Hs Hd) as (j' & Hj'' & Hlt). congruence. }
  rewrite Hout, length_seq, Nat.ltb_irrefl, omap_lookup_seq. f_equal.
  apply concat_nil_Forall, Forall_forall. intros ps Hps.
  apply list_elem_of_In, List.in_map_iff in Hps as (r & <- & Hr).
  apply list_elem_of_In, list_elem_of_lookup in Hr as (i & Hr).
  assert (Hi : i < length steps) by (apply lookup_lt_Some in Hr; by rewrite depScans_length in Hr).
  destruct (lookup_lt_is_Some_2 steps i Hi) as [s Hs].
  rewrite (depScans_lookup _ _ _ Hs) in Hr. injection Hr as <-.
  apply scanDeps_clean. intros d Hd. by eapply ordered_index.
Qed.

Lemma order_stable_witness :
  OrderStepsByDependsOn [plainStep "a" []; plainStep "b" ["a"]] = ([plainStep "a" []; plainStep "b" ["a"]], []).
Proof.
  apply order_stable. intros i s d Hs Hd.
  destruct i as [|[|i]]; simpl in Hs; [injection Hs as <-; set_solver| |done].
  injection Hs as <-. apply list_elem_of_singleton in Hd as ->. split; [done|].
  exists 0, (plainStep "a" []). split_and!; [lia|done|done].
Defined.

End Dsl.
