(* ===== verification/Plan.v ===== *)
(** * Plan: the executable plan and its generator

    The plan artifact (src/internal/plan/generator.go types), batch splitting,
    the irreversibility checker (src/internal/executor/irreversible.go), the
    target-group bounds (src/internal/plan/targetcaps.go) and
    [Generator.Generate] with all its refusals. *)

From Stdlib Require Import ZArith Lia Ascii.
From stdpp Require Import base gmap strings list sorting pretty.
From S2P Require Import Prelude Dsl.
Import Dsl.
Open Scope string_scope.
Open Scope list_scope.

Module Plan.

Record PlanStep := MkPlanStep {
  ps_Name : string;
  ps_Module : string;
  ps_Action : string;
  ps_Args : list (string * any);
  ps_Rollback : option RollbackSpec;
  ps_Approval : option ApprovalSpec;
  ps_Gate : option GateSpec;
  ps_Irreversible : bool;
  ps_IrreversibleReason : string }.

Record Batch := MkBatch {
  b_Index : Z;
  b_Targets : list string;
  b_Steps : list PlanStep;
  b_MaxConcurrency : Z;
  b_Gate : option (nat * GateSpec) }.

Record RiskFactor := MkRiskFactor { rf_Rule : string; rf_Points : Z; rf_Detail : string }.

Record Plan := MkPlan {
  p_ID : string;
  p_WorkflowName : string;
  p_Batches : list Batch;
  p_TotalTargets : Z;
  p_CreatedAt : Z;
  p_RiskScore : Z;
  p_RiskFactors : list RiskFactor;
  p_ApprovalFloor : string;
  p_Approval : option ApprovalSpec;
  p_Rollback : option RollbackSpec;
  p_Gate : option GateSpec;
  p_RunSnapshot : option RunSnapshotSpec }.

(** ** Slices: [l[lo:hi]] panics outside [0 <= lo <= hi <= len]. *)
Definition slice {A} (l : list A) (lo hi : Z) : option (list A) :=
  if (0 <=? lo)%Z && (lo <=? hi)%Z && (hi <=? Z.of_nat (length l))%Z
  then Some (take (Z.to_nat (hi - lo)) (drop (Z.to_nat lo) l)) else None.

(** ** Batch splitting. [None] is a run-time panic. *)

Definition splitOnePerTarget (targets : list string) : list (list string) :=
  match targets with [] => [targets] | _ => map (fun t => [t]) targets end.

(** The loop of [splitPercent] over the remaining milestones, from [prev]; the
    last milestone takes everything left. *)
Fixpoint percentLoop (targets : list string) (steps : list Z) (prev : Z)
    (batches : list (list string)) : option (list (list string)) :=
  let total := Z.of_nat (length targets) in
  match steps with
  | [] => Some batches
  | step :: rest =>
      let end_ := match rest with [] => total | _ => Z.quot (wrap64 (total * step)) 100 end in
      let end_ := if (total <? end_)%Z then total else end_ in
      let end_ := if (end_ <? prev)%Z then prev else end_ in
      if (prev <? end_)%Z then
        match slice targets prev end_ with
        | Some b => percentLoop targets rest end_ (batches ++ [b])
        | None => None
        end
      else percentLoop targets rest end_ batches
  end.

Definition splitPercent (targets : list string) (steps : list Z) : option (list (list string)) :=
  match targets, steps with
  | [], _ | _, [] => Some [targets]
  | _, _ =>
      match percentLoop targets steps 0 [] with
      | None => None
      | Some [] => Some [targets]
      | Some bs => Some bs
      end
  end.

(** The loop of [splitFixed]: returns the batches and the position reached. *)
Fixpoint fixedLoop (targets : list string) (steps : list Z) (pos : Z)
    (batches : list (list string)) : option (list (list string) * Z) :=
  let total := Z.of_nat (length targets) in
  match steps with
  | [] => Some (batches, pos)
  | step :: rest =>
      if (step <=? 0)%Z then fixedLoop targets rest pos batches
      else
        let end_ := wrap64 (pos + step) in
        let end_ := if (total <? end_)%Z then total else end_ in
        let appended :=
          if (pos <? end_)%Z then
            match slice targets pos end_ with
            | Some b => Some (batches ++ [b])
            | None => None
            end
          else Some batches in
        match appended with
        | None => None
        | Some bs => if (total <=? end_)%Z then Some (bs, end_) else fixedLoop targets rest end_ bs
        end
  end.

Definition splitFixed (targets : list string) (steps : list Z) : option (list (list string)) :=
  let total := Z.of_nat (length targets) in
  match targets, steps with
  | [], _ => Some []
  | _, [] => Some [targets]
  | _, _ =>
      match fixedLoop targets steps 0 [] with
      | None => None
      | Some (bs, pos) =>
          let bs' := if (pos <? total)%Z then
                       match slice targets pos total with
                       | Some b => Some (bs ++ [b])
                       | None => None
                       end
                     else Some bs in
          match bs' with
          | None => None
          | Some [] => Some [targets]
          | Some bs => Some bs
          end
      end
  end.

Definition splitBatches (targets : list string) (cfg : BatchConfig) :
    option (goerr + list (list string)) :=
  let strategy := if String.eqb (bc_Strategy cfg) "" then BatchStrategySerial else bc_Strategy cfg in
  if String.eqb strategy BatchStrategyPercent then inr <$> splitPercent targets (bc_Steps cfg)
  else if String.eqb strategy BatchStrategyFixed then inr <$> splitFixed targets (bc_Steps cfg)
  else if String.eqb strategy BatchStrategySerial then Some (inr [targets])
  else if String.eqb strategy BatchStrategyOnePerTarget then Some (inr (splitOnePerTarget targets))
  else Some (inl (ELevee "LE034" ("unknown batch strategy " +:+ strategy) 4)).

(** ** The irreversibility checker *)

Record IrreversibleChecker := MkChecker {
  ck_whitelist : gset string;
  ck_pluginModules : gset string;
  ck_pluginReversible : gset string }.

Record IrreversibleResult := MkIrrResult {
  ir_Irreversible : bool;
  ir_Reason : string;
  ir_SuggestLevel : string }.

Definition NewIrreversibleChecker : IrreversibleChecker := MkChecker ∅ ∅ ∅.

Definition RegisterWhitelist (c : IrreversibleChecker) (module action : string) : IrreversibleChecker :=
  MkChecker ({[module +:+ "." +:+ action]} ∪ ck_whitelist c) (ck_pluginModules c) (ck_pluginReversible c).

Definition UnregisterWhitelist (c : IrreversibleChecker) (module action : string) : IrreversibleChecker :=
  MkChecker (ck_whitelist c ∖ {[module +:+ "." +:+ action]}) (ck_pluginModules c) (ck_pluginReversible c).

Definition RegisterPluginModule (c : IrreversibleChecker) (module : string) : IrreversibleChecker :=
  if String.eqb module "" then c
  else MkChecker (ck_whitelist c) ({[module]} ∪ ck_pluginModules c) (ck_pluginReversible c).

Definition RegisterReversibleAction (c : IrreversibleChecker) (module action : string) : IrreversibleChecker :=
  if String.eqb module "" || String.eqb action "" then c
  else MkChecker (ck_whitelist c) (ck_pluginModules c)
         ({[module +:+ "." +:+ action]} ∪ ck_pluginReversible c).

(** The three loops add every key of the policy's sets. *)
Definition RegisterPolicy (c : IrreversibleChecker) (p : PluginActionPolicy) : IrreversibleChecker :=
  MkChecker (pp_destructive p ∪ ck_whitelist c) (pp_modules p ∪ ck_pluginModules c)
            (pp_reversible p ∪ ck_pluginReversible c).

Definition Check (c : IrreversibleChecker) (module action : string) (irreversible : bool) : IrreversibleResult :=
  let key := module +:+ "." +:+ action in
  if irreversible then
    MkIrrResult true ("step " +:+ key +:+ " explicitly marked as irreversible") "high"
  else if bool_decide (key ∈ ck_whitelist c) then
    MkIrrResult true (key +:+ " is in the irreversible whitelist") "high"
  else if bool_decide (module ∈ ck_pluginModules c) && negb (bool_decide (key ∈ ck_pluginReversible c)) then
    MkIrrResult true ("plugin action " +:+ key +:+ " is not declared reversible in its manifest") "high"
  else MkIrrResult false ("step " +:+ key +:+ " is reversible (not marked, not in whitelist)") "".

(** [strings.Cut(key, ".")]. *)
Fixpoint Cut (s : string) : string * string :=
  match s with
  | EmptyString => (EmptyString, EmptyString)
  | String c s' => if Ascii.eqb c "."%char then (EmptyString, s')
                   else let '(a, b) := Cut s' in (String c a, b)
  end.

Record Generator := MkGenerator { g_irreversible : IrreversibleChecker; g_pluginPolicy : PluginActionPolicy }.

Definition NewGeneratorWithPluginPolicy (policy : PluginActionPolicy) : Generator :=
  let c := foldl (fun c key => let '(m, a) := Cut key in RegisterWhitelist c m a)
             NewIrreversibleChecker DefaultIrreversibleActions in
  MkGenerator (RegisterPolicy c policy) policy.

Definition convertStep (g : Generator) (s : Step) : PlanStep :=
  let verdict := Check (g_irreversible g) (st_Module s) (st_Action s) (st_Irreversible s) in
  MkPlanStep (st_Name s) (st_Module s) (st_Action s) (st_Args s) (st_Rollback s) (st_Approval s)
    (st_Gate s) (ir_Irreversible verdict) (ir_Reason verdict).

Definition convertSteps (g : Generator) (steps : list Step) : list PlanStep := map (convertStep g) steps.

(** ** Target-group bounds *)

(** [seen]/[resolved] loop: declared hosts, without duplicates, that resolved. *)
Fixpoint countResolved (hosts : list string) (resolved : list string) (seen : list string) : Z :=
  match hosts with
  | [] => 0
  | h :: rest =>
      if inSet seen h then countResolved rest resolved seen
      else ((if inSet resolved h then 1 else 0) + countResolved rest resolved (h :: seen))%Z
  end.

Definition groupCount (single : bool) (g : TargetGroup) (resolved : list string) : option Z :=
  match tg_Hosts g with
  | _ :: _ => Some (countResolved (tg_Hosts g) resolved [])
  | [] => if single then Some (Z.of_nat (length resolved)) else None
  end.

Definition bounded (g : TargetGroup) : bool := (0 <? tg_MinCount g)%Z || (0 <? tg_MaxCount g)%Z.

Definition checkGroup (single : bool) (g : TargetGroup) (resolved : list string) : option goerr :=
  if negb (bounded g) then None
  else match groupCount single g resolved with
       | None => Some (ELevee "LE105" "resolved size cannot be attributed" 4)
       | Some count =>
           if (0 <? tg_MinCount g)%Z && (count <? tg_MinCount g)%Z then
             Some (ELevee "LE105" "fewer than min_count" 4)
           else if (0 <? tg_MaxCount g)%Z && (tg_MaxCount g <? count)%Z then
             Some (ELevee "LE106" "more than max_count" 4)
           else None
       end.

Fixpoint firstError {A} (f : A -> option goerr) (l : list A) : option goerr :=
  match l with
  | [] => None
  | x :: rest => match f x with Some e => Some e | None => firstError f rest end
  end.

Definition checkTargetCaps (wf : Workflow) (resolved : list string) : option goerr :=
  if negb (existsb bounded (wf_Targets wf)) then None
  else firstError (fun g => checkGroup (Nat.eqb (length (wf_Targets wf)) 1) g resolved) (wf_Targets wf).

(** ** Generate *)

(** V14/LE082: the first irreversible step outside the whitelist. *)
Definition judged (g : Generator) (s : Step) : bool :=
  st_Irreversible s || IsInherentIrreversible (st_Module s) (st_Action s)
  || JudgesIrreversible (g_pluginPolicy g) (st_Module s) (st_Action s).

Definition unauthorised (g : Generator) (allow : list string) (s : Step) : option goerr :=
  if negb (judged g s) then None
  else if inSet allow (st_Module s +:+ "." +:+ st_Action s) then None
  else Some (ELevee "LE082" ("step " +:+ st_Name s +:+ " runs irreversible action which is not listed in allow_irreversible") 4).

Definition buildBatches (cfg : BatchConfig) (planSteps : list PlanStep)
    (batchTargets : list (list string)) : list Batch :=
  imap (fun i ts => MkBatch (Z.of_nat i) ts planSteps (bc_MaxConcurrency cfg) (bc_Gate cfg)) batchTargets.

(** [planID] is the outcome of [newPlanID] and [now] of [time.Now().UTC()];
    the outer [None] is a run-time panic. *)
Definition Generate (g : Generator) (wf : option Workflow) (resolvedTargets : list string)
    (planID : goerr + string) (now : Z) : option (goerr + Plan) :=
  match wf with
  | None => Some (inl (ELevee "LE002" "workflow is nil" 4))
  | Some wf =>
      match resolvedTargets with
      | [] => Some (inl (ELevee "LE092" "resolved targets is empty" 4))
      | _ =>
          match ValidateRunLevelRollback (wf_Rollback wf) "rollback" with
          | v :: _ => Some (inl (ELevee (ve_Code v) (ve_Message v) 4))
          | [] =>
              match firstError (unauthorised g (wf_AllowIrreversible wf)) (wf_Steps wf) with
              | Some e => Some (inl e)
              | None =>
                  match splitBatches resolvedTargets (wf_Batches wf) with
                  | None => None
                  | Some (inl e) => Some (inl e)
                  | Some (inr batchTargets) =>
                      let '(orderedSteps, depErrs) := OrderStepsByDependsOn (wf_Steps wf) in
                      match depErrs with
                      | v :: _ => Some (inl (ELevee (ve_Code v) (ve_Message v) 4))
                      | [] =>
                          match checkTargetCaps wf resolvedTargets with
                          | Some e => Some (inl e)
                          | None =>
                              let planSteps := convertSteps g orderedSteps in
                              let batches := buildBatches (wf_Batches wf) planSteps batchTargets in
                              match planID with
                              | inl e => Some (inl e)
                              | inr id =>
                                  Some (inr (MkPlan id (wf_Name wf) batches
                                    (Z.of_nat (length resolvedTargets)) now 0 [] ""
                                    (wf_Approval wf) (wf_Rollback wf) (wf_Gate wf) (wf_Snapshot wf)))
                              end
                          end
                      end
                  end
              end
          end
      end
  end.

(** ** Lemmas: splitting *)

Lemma slice_some {A} (l : list A) (lo hi : Z) :
  (0 <= lo <= hi)%Z -> (hi <= Z.of_nat (length l))%Z ->
  slice l lo hi = Some (take (Z.to_nat (hi - lo)) (drop (Z.to_nat lo) l)).
Proof. intros H1 H2. unfold slice. rewrite !(proj2 (Z.leb_le _ _)) by lia. done. Qed.

Lemma take_slice {A} (l : list A) (lo hi : Z) :
  (0 <= lo <= hi)%Z ->
  take (Z.to_nat lo) l ++ take (Z.to_nat (hi - lo)) (drop (Z.to_nat lo) l) = take (Z.to_nat hi) l.
Proof.
  intros H. replace (Z.to_nat hi) with (Z.to_nat lo + Z.to_nat (hi - lo)) by lia.
  by rewrite take_take_drop.
Qed.

Lemma slice_nonempty {A} (l : list A) (lo hi : Z) :
  (0 <= lo < hi)%Z -> (hi <= Z.of_nat (length l))%Z ->
  take (Z.to_nat (hi - lo)) (drop (Z.to_nat lo) l) <> [].
Proof.
  intros H1 H2 Hc. apply (f_equal length) in Hc.
  rewrite length_take, length_drop in Hc. simpl in Hc. lia.
Qed.

(** What both loops maintain: the batches cut so far are non-empty and
    concatenate to the prefix of the targets consumed. *)
Definition cut_upto (targets : list string) (pos : Z) (batches : list (list string)) : Prop :=
  (0 <= pos <= Z.of_nat (length targets))%Z /\
  concat batches = take (Z.to_nat pos) targets /\ Forall (fun b => b <> []) batches.

Lemma cut_upto_extend targets pos hi batches :
  cut_upto targets pos batches -> (pos < hi <= Z.of_nat (length targets))%Z ->
  exists b, slice targets pos hi = Some b /\ cut_upto targets hi (batches ++ [b]).
Proof.
  intros (Hp & Hc & Hne) Hhi. eexists. split; [apply slice_some; lia|].
  split; [lia|]. split.
  - rewrite concat_app. simpl. rewrite app_nil_r, Hc. apply take_slice. lia.
  - apply Forall_app. split; [done|]. constructor; [apply slice_nonempty; lia|constructor].
Qed.

Lemma percentLoop_spec targets steps prev batches :
  steps <> [] -> cut_upto targets prev batches ->
  exists bs, percentLoop targets steps prev batches = Some bs /\
             concat bs = targets /\ Forall (fun b => b <> []) bs.
Proof.
  revert prev batches. induction steps as [|step rest IH]; intros prev batches Hne Hcut; [done|].
  set (total := Z.of_nat (length targets)).
  set (e0 := match rest with [] => total | _ => Z.quot (wrap64 (total * step)) 100 end).
  set (e1 := if (total <? e0)%Z then total else e0).
  set (e2 := if (e1 <? prev)%Z then prev else e1).
  assert (Hr : (prev <= e2 <= total)%Z).
  { destruct Hcut as (Hp & _). fold total in Hp. unfold e2, e1.
    destruct (Z.ltb_spec total e0), (Z.ltb_spec total prev), (Z.ltb_spec e0 prev); lia. }
  assert (Hlast : rest = [] -> e2 = total).
  { intros ->. unfold e2, e1, e0. rewrite Z.ltb_irrefl.
    destruct (Z.ltb_spec total prev); lia. }
  assert (Hdone : forall b, cut_upto targets e2 b ->
    exists bs, percentLoop targets rest e2 b = Some bs /\
               concat bs = targets /\ Forall (fun b => b <> []) bs).
  { intros b Hb. destruct rest as [|r rest']; [|by apply IH].
    exists b. destruct Hb as (_ & Hc & Hn). split_and!; [done| |done].
    rewrite Hc, Hlast by done. unfold total. rewrite Nat2Z.id. by apply take_ge. }
  change (percentLoop targets (step :: rest) prev batches) with
    (if (prev <? e2)%Z then
       match slice targets prev e2 with
       | Some b => percentLoop targets rest e2 (batches ++ [b]) | None => None end
     else percentLoop targets rest e2 batches).
  destruct (Z.ltb_spec prev e2).
  - destruct (cut_upto_extend targets prev e2 batches Hcut) as (b & -> & Hb); [fold total; lia|].
    by apply Hdone.
  - apply Hdone. by replace e2 with prev by lia.
Qed.

Lemma splitPercent_partition targets steps :
  exists bs, splitPercent targets steps = Some bs /\ concat bs = targets /\
             (targets <> [] -> Forall (fun b => b <> []) bs).
Proof.
  unfold splitPercent. destruct targets as [|t ts]; [by exists [[]]|].
  destruct steps as [|s ss].
  { exists [t :: ts]. split_and!; [done|simpl; by rewrite app_nil_r|by repeat constructor]. }
  destruct (percentLoop_spec (t :: ts) (s :: ss) 0 []) as (bs & -> & Hc & Hn); [done|split_and!; simpl; (lia || done || constructor)|].
  exists bs. destruct bs; [done|]. by split_and!.
Qed.

(** Step sizes for which no addition of [splitFixed] can overflow. *)
Definition small_steps (steps : list Z) : Prop := Forall (fun s => (s < 2 ^ 62)%Z) steps.

Lemma fixedLoop_negative targets steps pos batches :
  (- 2 ^ 63 <= pos < 0)%Z -> Forall (fun s => (s < 2 ^ 63)%Z) steps ->
  match fixedLoop targets steps pos batches with
  | None => True
  | Some (_, pos') => pos' = pos
  end.
Proof.
  intros Hpos Hs. revert batches. induction Hs as [|step rest Hstep Hs IH]; intros batches; simpl; [done|].
  destruct (Z.leb_spec step 0); [apply IH|].
  rewrite wrap64_id by lia.
  assert (Hlt : (pos <? (if Z.of_nat (length targets) <? pos + step then Z.of_nat (length targets)
                 else pos + step))%Z = true) by (apply Z.ltb_lt; split_match; boolp; lia).
  rewrite Hlt. unfold slice. rewrite (proj2 (Z.leb_gt _ _)) by lia. done.
Qed.

Lemma fixedLoop_small targets steps pos batches bs pos' :
  (Z.of_nat (length targets) < 2 ^ 62)%Z -> small_steps steps -> (0 <= pos <= Z.of_nat (length targets))%Z ->
  fixedLoop targets steps pos batches = Some (bs, pos') -> (0 <= pos')%Z.
Proof.
  intros Hlen Hs. revert pos batches. induction Hs as [|step rest Hstep Hs IH]; intros pos batches Hp H; simpl in H.
  { injection H as _ <-. lia. }
  destruct (Z.leb_spec step 0); [by eapply IH|]. rewrite wrap64_id in H by lia.
  set (e := if (Z.of_nat (length targets) <? pos + step)%Z then Z.of_nat (length targets) else (pos + step)%Z) in H.
  assert (He : (pos <= e <= Z.of_nat (length targets))%Z)
    by (unfold e; destruct (Z.ltb_spec (Z.of_nat (length targets)) (pos + step)); lia).
  clearbody e. repeat split_match_in H; simplify_eq; boolp; try lia; (eapply IH; [|eassumption]; lia).
Qed.

(** Whatever the step sizes, a loop that returns has cut the targets into
    consecutive non-empty pieces, or has left the position below zero, where
    the final slice panics. *)
Lemma fixedLoop_spec targets steps pos batches :
  (Z.of_nat (length targets) < 2 ^ 63)%Z -> Forall (fun s => (s < 2 ^ 63)%Z) steps ->
  cut_upto targets pos batches ->
  match fixedLoop targets steps pos batches with
  | None => ~ ((Z.of_nat (length targets) < 2 ^ 62)%Z /\ small_steps steps)
  | Some (bs, pos') => cut_upto targets pos' bs \/ (pos' < 0)%Z
  end.
Proof.
  intros Hlen Hs. revert pos batches. induction Hs as [|step rest Hstep Hs IH]; intros pos batches Hcut; [by left|].
  simpl. assert (Hsm : small_steps (step :: rest) -> small_steps rest) by (by intros [_ ?]%Forall_cons).
  assert (Hrec : forall p b, cut_upto targets p b ->
    match fixedLoop targets rest p b with
    | None => ~ ((Z.of_nat (length targets) < 2 ^ 62)%Z /\ small_steps (step :: rest))
    | Some (bs, pos') => cut_upto targets pos' bs \/ (pos' < 0)%Z
    end).
  { intros p b Hb. specialize (IH p b Hb). split_match; [split_match; done|naive_solver]. }
  destruct (Z.leb_spec step 0); [by apply Hrec|].
  assert (Hp := proj1 Hcut).
  destruct (decide (pos + step < 2 ^ 63)%Z) as [Hno|Hover].
  - rewrite wrap64_id by lia.
    set (e := if (Z.of_nat (length targets) <? pos + step)%Z then Z.of_nat (length targets) else (pos + step)%Z).
    assert (He : (pos <= e <= Z.of_nat (length targets))%Z)
      by (unfold e; destruct (Z.ltb_spec (Z.of_nat (length targets)) (pos + step)); lia).
    destruct (Z.ltb_spec pos e).
    + destruct (cut_upto_extend targets pos e batches Hcut) as (b & -> & Hb); [lia|].
      destruct (Z.leb_spec (Z.of_nat (length targets)) e); [by left|by apply Hrec].
    + assert (e = pos) as -> by lia.
      destruct (Z.leb_spec (Z.of_nat (length targets)) pos); [by left|by apply Hrec].
  - assert (Hw : wrap64 (pos + step) = (pos + step - 2 ^ 64)%Z).
    { unfold wrap64. rewrite (Z.mod_eq _ (2 ^ 64)) by lia.
      replace ((pos + step + 2 ^ 63) / 2 ^ 64)%Z with 1%Z; [lia|].
      apply Z.div_unique with (pos + step + 2 ^ 63 - 2 ^ 64)%Z; lia. }
    rewrite Hw, (proj2 (Z.ltb_ge (Z.of_nat (length targets)) _)) by lia.
    rewrite (proj2 (Z.ltb_ge pos _)), (proj2 (Z.leb_gt (Z.of_nat (length targets)) _)) by lia.
    pose proof (fixedLoop_negative targets rest (pos + step - 2 ^ 64) batches ltac:(lia) Hs) as Hneg.
    destruct (fixedLoop _ _ _ _) as [[bs p']|]; [right; lia|].
    intros [Hl Hsm']. apply Forall_cons in Hsm' as [? _]. lia.
Qed.

Lemma splitFixed_partition targets steps :
  targets <> [] -> (Z.of_nat (length targets) < 2 ^ 63)%Z -> Forall (fun s => (s < 2 ^ 63)%Z) steps ->
  match splitFixed targets steps with
  | None => ~ ((Z.of_nat (length targets) < 2 ^ 62)%Z /\ small_steps steps)
  | Some bs => concat bs = targets /\ Forall (fun b => b <> []) bs
  end.
Proof.
  intros Hne Hlen Hs. unfold splitFixed. destruct targets as [|t ts]; [done|].
  destruct steps as [|s ss]; [split; [simpl; by rewrite app_nil_r|by repeat constructor]|].
  pose proof (fixedLoop_spec (t :: ts) (s :: ss) 0 [] Hlen Hs ltac:(split_and!; simpl; (lia || done || constructor))) as Hl.
  destruct (fixedLoop _ _ _ _) as [[bs pos]|] eqn:Hloop; [|done].
  assert (Hfin : forall b, cut_upto (t :: ts) (Z.of_nat (length (t :: ts))) b ->
    match (match b with [] => Some [t :: ts] | _ => Some b end) with
    | None => ~ ((Z.of_nat (length (t :: ts)) < 2 ^ 62)%Z /\ small_steps (s :: ss))
    | Some bs => concat bs = t :: ts /\ Forall (fun b => b <> []) bs end).
  { intros b (_ & Hc & Hn). rewrite Nat2Z.id, take_ge in Hc by done. by destruct b. }
  destruct (Z.ltb_spec pos (Z.of_nat (length (t :: ts)))) as [Hlt|Hge].
  - destruct Hl as [Hcut|Hneg].
    + destruct (cut_upto_extend (t :: ts) pos (Z.of_nat (length (t :: ts))) bs Hcut) as (b & -> & Hb); [lia|].
      by apply Hfin.
    + unfold slice. rewrite (proj2 (Z.leb_gt _ _)) by lia. simpl. intros [Hl62 Hsm].
      revert Hneg. apply Z.le_ngt.
      by apply (fixedLoop_small (t :: ts) (s :: ss) 0 [] bs pos Hl62 Hsm ltac:(simpl; lia)).
  - apply Hfin. destruct Hl as [(Hp & ?)|]; [|lia]. by replace (Z.of_nat (length (t :: ts))) with pos by lia.
Qed.

Lemma splitOnePerTarget_partition targets :
  concat (splitOnePerTarget targets) = targets /\
  (targets <> [] -> Forall (fun b => b <> []) (splitOnePerTarget targets)).
Proof.
  destruct targets as [|t ts]; [done|]. split.
  - unfold splitOnePerTarget. generalize (t :: ts). clear. induction l as [|x l IH]; [done|]. simpl in *. by rewrite IH.
  - intros _. apply Forall_forall. intros b Hb. unfold splitOnePerTarget in Hb.
    apply list_elem_of_In, List.in_map_iff in Hb as (x & <- & _). done.
Qed.

Definition splittable (targets : list string) (cfg : BatchConfig) : Prop :=
  (Z.of_nat (length targets) < 2 ^ 63)%Z /\ Forall (fun s => (s < 2 ^ 63)%Z) (bc_Steps cfg).

(** Every strategy cuts the targets into consecutive, non-empty pieces; only
    [fixed] with a step near 2^63 can panic. *)
Lemma splitBatches_partition targets cfg :
  targets <> [] -> splittable targets cfg ->
  match splitBatches targets cfg with
  | None => ~ ((Z.of_nat (length targets) < 2 ^ 62)%Z /\ small_steps (bc_Steps cfg))
  | Some (inl e) => exists m, e = ELevee "LE034" m 4
  | Some (inr bs) => concat bs = targets /\ Forall (fun b => b <> []) bs
  end.
Proof.
  intros Hne [Hlen Hs]. unfold splitBatches.
  set (strategy := if String.eqb (bc_Strategy cfg) "" then BatchStrategySerial else bc_Strategy cfg).
  destruct (String.eqb strategy BatchStrategyPercent).
  { destruct (splitPercent_partition targets (bc_Steps cfg)) as (bs & -> & Hc & Hn). simpl. auto. }
  destruct (String.eqb strategy BatchStrategyFixed).
  { pose proof (splitFixed_partition targets (bc_Steps cfg) Hne Hlen Hs). by destruct (splitFixed _ _). }
  destruct (String.eqb strategy BatchStrategySerial).
  { split; [simpl; by rewrite app_nil_r|by repeat constructor]. }
  destruct (String.eqb strategy BatchStrategyOnePerTarget); [|eauto].
  destruct (splitOnePerTarget_partition targets); auto.
Qed.

(** ** Lemmas: Generate *)

(** What a successful [Generate] went through. *)
Lemma Generate_inv g wf targets planID now p :
  Generate g (Some wf) targets planID now = Some (inr p) ->
  targets <> [] /\ ValidateRunLevelRollback (wf_Rollback wf) "rollback" = [] /\
  firstError (unauthorised g (wf_AllowIrreversible wf)) (wf_Steps wf) = None /\
  checkTargetCaps wf targets = None /\
  exists bts ordered id, splitBatches targets (wf_Batches wf) = Some (inr bts) /\
    OrderStepsByDependsOn (wf_Steps wf) = (ordered, []) /\ planID = inr id /\
    p = MkPlan id (wf_Name wf) (buildBatches (wf_Batches wf) (convertSteps g ordered) bts)
          (Z.of_nat (length targets)) now 0 [] "" (wf_Approval wf) (wf_Rollback wf) (wf_Gate wf) (wf_Snapshot wf).
Proof.
  unfold Generate. intros H. destruct targets as [|t ts] eqn:Ht; [done|]. rewrite <- Ht in H |- *.
  destruct (ValidateRunLevelRollback _ _); [|done].
  destruct (firstError _ _); [done|].
  destruct (splitBatches _ _) as [[?|bts]|]; [done| |done].
  destruct (OrderStepsByDependsOn _) as [ordered [|? ?]]; [|done].
  destruct (checkTargetCaps _ _); [done|].
  destruct planID as [?|id]; [done|]. apply (inj Some), (inj inr) in H as <-.
  split_and!; [by subst|done|done|done|]. by exists bts, ordered, id.
Qed.

Lemma buildBatches_proj cfg steps bts :
  map b_Targets (buildBatches cfg steps bts) = bts /\
  map b_Index (buildBatches cfg steps bts) = map Z.of_nat (seq 0 (length bts)) /\
  Forall (fun b => b_Steps b = steps /\ b_MaxConcurrency b = bc_MaxConcurrency cfg /\ b_Gate b = bc_Gate cfg)
    (buildBatches cfg steps bts).
Proof.
  unfold buildBatches.
  assert (Hgen : forall k,
    map b_Targets (imap (fun i ts => MkBatch (Z.of_nat (k + i)) ts steps (bc_MaxConcurrency cfg) (bc_Gate cfg)) bts) = bts /\
    map b_Index (imap (fun i ts => MkBatch (Z.of_nat (k + i)) ts steps (bc_MaxConcurrency cfg) (bc_Gate cfg)) bts)
      = map Z.of_nat (seq k (length bts)) /\
    Forall (fun b => b_Steps b = steps /\ b_MaxConcurrency b = bc_MaxConcurrency cfg /\ b_Gate b = bc_Gate cfg)
      (imap (fun i ts => MkBatch (Z.of_nat (k + i)) ts steps (bc_MaxConcurrency cfg) (bc_Gate cfg)) bts)).
  { induction bts as [|x bts IH]; intros k; simpl; [done|].
    rewrite (imap_ext _ (fun i ts => MkBatch (Z.of_nat (S k + i)) ts steps (bc_MaxConcurrency cfg) (bc_Gate cfg)))
      by (intros; simpl; do 2 f_equal; lia).
    destruct (IH (S k)) as (-> & -> & Hf). rewrite Nat.add_0_r. split_and!; [done|done|]. by constructor. }
  apply (Hgen 0).
Qed.

Lemma firstError_none {A} (f : A -> option goerr) l :
  firstError f l = None <-> (forall x, x ∈ l -> f x = None).
Proof.
  induction l as [|x l IH]; simpl; [set_solver|]. destruct (f x) eqn:E.
  - split; [done|]. intros H. rewrite H in E; [done|set_solver].
  - rewrite IH. set_solver.
Qed.

(** The checker the generator builds agrees with the language's vocabulary and
    the deployment's policy. *)
Lemma generator_whitelist policy key :
  key ∈ ck_whitelist (g_irreversible (NewGeneratorWithPluginPolicy policy)) <->
  key ∈ pp_destructive policy \/ key ∈ inherentIrreversibleActions.
Proof.
  unfold NewGeneratorWithPluginPolicy.
  assert (HD : DefaultIrreversibleActions = ["file.delete"; "mysql.pt_osc"; "mysql.replica_switch"; "pkg.remove"; "user.remove"])
    by (vm_compute; reflexivity).
  rewrite HD. cbn [foldl Cut Ascii.eqb Bool.eqb g_irreversible RegisterPolicy ck_whitelist RegisterWhitelist NewIrreversibleChecker].
  unfold inherentIrreversibleActions. set_solver.
Qed.

Lemma generator_judges policy s :
  ir_Irreversible (Check (g_irreversible (NewGeneratorWithPluginPolicy policy))
                     (st_Module s) (st_Action s) (st_Irreversible s))
  = judged (NewGeneratorWithPluginPolicy policy) s.
Proof.
  unfold judged, Check, JudgesIrreversible, IsInherentIrreversible.
  set (key := st_Module s +:+ "." +:+ st_Action s).
  change (g_pluginPolicy (NewGeneratorWithPluginPolicy policy)) with policy.
  destruct (st_Irreversible s); [done|]. cbn [orb].
  rewrite (bool_decide_ext _ _ (generator_whitelist policy key)).
  assert (Hm : ck_pluginModules (g_irreversible (NewGeneratorWithPluginPolicy policy)) = pp_modules policy).
  { unfold NewGeneratorWithPluginPolicy. set_solver. }
  assert (Hr : ck_pluginReversible (g_irreversible (NewGeneratorWithPluginPolicy policy)) = pp_reversible policy).
  { unfold NewGeneratorWithPluginPolicy. set_solver. }
  rewrite Hm, Hr.
  destruct (inSet inherentIrreversibleActions key) eqn:Hin.
  - apply inSet_spec in Hin. rewrite bool_decide_true by auto. done.
  - apply inSet_false in Hin.
    destruct (decide (key ∈ pp_destructive policy)).
    + rewrite !bool_decide_true by auto. done.
    + rewrite !(bool_decide_false (_ \/ _)) by tauto. rewrite (bool_decide_false (key ∈ pp_destructive policy)) by done.
      destruct (bool_decide (_ ∈ pp_modules policy)), (bool_decide (key ∈ pp_reversible policy)); done.
Qed.

(** A group's declared size bounds hold of the hosts resolved for it. *)
Definition group_within (single : bool) (resolved : list string) (g : TargetGroup) : Prop :=
  bounded g = true -> exists count, groupCount single g resolved = Some count /\
    ((0 < tg_MinCount g)%Z -> (tg_MinCount g <= count)%Z) /\
    ((0 < tg_MaxCount g)%Z -> (count <= tg_MaxCount g)%Z).

Lemma checkGroup_none single g resolved :
  checkGroup single g resolved = None <-> group_within single resolved g.
Proof.
  unfold checkGroup, group_within. destruct (bounded g); simpl; [|naive_solver].
  destruct (groupCount single g resolved) as [count|]; [|naive_solver].
  destruct (Z.ltb_spec 0 (tg_MinCount g)), (Z.ltb_spec count (tg_MinCount g)),
    (Z.ltb_spec 0 (tg_MaxCount g)), (Z.ltb_spec (tg_MaxCount g) count); simpl;
    (split; [intros Hn _; try discriminate Hn; exists count; split_and!; (done || lia)
            |intros Hw; try done; destruct (Hw eq_refl) as (c & [= <-] & ? & ?); lia]).
Qed.

Lemma checkTargetCaps_none wf resolved :
  checkTargetCaps wf resolved = None <->
  Forall (group_within (Nat.eqb (length (wf_Targets wf)) 1) resolved) (wf_Targets wf).
Proof.
  unfold checkTargetCaps. rewrite Forall_forall.
  destruct (existsb bounded (wf_Targets wf)) eqn:Hb; simpl.
  - rewrite firstError_none. by setoid_rewrite checkGroup_none.
  - split; [|done]. intros _ g Hg Hbg.
    assert (existsb bounded (wf_Targets wf) = true) by (apply existsb_elem; eauto). congruence.
Qed.

Lemma unauthorised_none g allow s :
  unauthorised g allow s = None <-> (judged g s = true -> st_Module s +:+ "." +:+ st_Action s ∈ allow).
Proof.
  unfold unauthorised. destruct (judged g s); simpl; [|naive_solver].
  rewrite <- inSet_spec. destruct (inSet _ _); naive_solver.
Qed.

Definition strategy_known (cfg : BatchConfig) : Prop :=
  bc_Strategy cfg ∈ ["" ; BatchStrategyPercent; BatchStrategyFixed; BatchStrategySerial; BatchStrategyOnePerTarget].

Lemma splitBatches_refuses targets cfg :
  (exists e, splitBatches targets cfg = Some (inl e)) <-> ~ strategy_known cfg.
Proof.
  unfold splitBatches, strategy_known.
  destruct (String.eqb_spec (bc_Strategy cfg) "") as [->|H0]; [split; [by intros [? ?]|set_solver]|].
  destruct (String.eqb_spec (bc_Strategy cfg) BatchStrategyPercent) as [->|H1].
  { destruct (splitPercent_partition targets (bc_Steps cfg)) as (bs & -> & _).
    split; [by intros [? ?]|set_solver]. }
  destruct (String.eqb_spec (bc_Strategy cfg) BatchStrategyFixed) as [->|H2].
  { destruct (splitFixed _ _); (split; [by intros [? ?]|set_solver]). }
  destruct (String.eqb_spec (bc_Strategy cfg) BatchStrategySerial) as [->|H3]; [split; [by intros [? ?]|set_solver]|].
  destruct (String.eqb_spec (bc_Strategy cfg) BatchStrategyOnePerTarget) as [->|H4]; [split; [by intros [? ?]|set_solver]|].
  split; [set_solver|eauto].
Qed.

(** ** Theorems *)

(** A plan that is generated divides the resolved targets totally: the
    batches, read in order, are exactly the target list, none is empty, they
    are numbered consecutively from 0; every batch carries the same steps, an
    ordering of the workflow's steps in which every step follows the steps it
    depends on. *)
Theorem generate_partition (g : Generator) (wf : Workflow) (targets : list string)
    (planID : goerr + string) (now : Z) (p : Plan)
    (Hfit : splittable targets (wf_Batches wf))
    (H : Generate g (Some wf) targets planID now = Some (inr p)) :
  concat (map b_Targets (p_Batches p)) = targets /\
  Forall (fun b => b_Targets b <> []) (p_Batches p) /\
  map b_Index (p_Batches p) = map Z.of_nat (seq 0 (length (p_Batches p))) /\
  p_TotalTargets p = Z.of_nat (length targets) /\
  exists ordered, ordered ≡ₚ wf_Steps wf /\
    Forall (fun b => b_Steps b = convertSteps g ordered) (p_Batches p) /\
    (forall l1 s l2 d, ordered = l1 ++ s :: l2 -> d ∈ st_DependsOn s ->
       exists s', s' ∈ l1 /\ st_Name s' = d).
Proof.
  apply Generate_inv in H as (Hne & _ & _ & _ & bts & ordered & id & Hsplit & Hord & _ & ->). simpl.
  pose proof (splitBatches_partition targets (wf_Batches wf) Hne Hfit) as Hpart.
  rewrite Hsplit in Hpart. destruct Hpart as [Hc Hn].
  destruct (buildBatches_proj (wf_Batches wf) (convertSteps g ordered) bts) as (Ht & Hi & Hf).
  destruct (order_spec _ _ _ Hord) as [Hperm Hdeps].
  split_and!; [by rewrite Ht| |by rewrite Hi, <- (length_map b_Targets (buildBatches _ _ _)), Ht|done|].
  - rewrite <- Ht in Hn. exact (proj1 (Forall_map b_Targets (fun x => x <> []) _) Hn).
  - exists ordered. split_and!; [done| |by eauto]. eapply Forall_impl; [exact Hf|]. naive_solver.
Qed.

Definition sampleWorkflow (strategy : string) (sizes : list Z) (allow : list string) (steps : list Step) : Workflow :=
  MkWorkflow "sample" [] (MkBatchConfig strategy 2 false sizes None) steps None None None None allow.

Definition noPlugins : PluginActionPolicy := MkPolicy ∅ ∅ ∅.

Lemma generate_partition_witness :
  exists p, Generate (NewGeneratorWithPluginPolicy noPlugins)
     (Some (sampleWorkflow "percent" [10; 50]%Z [] sampleSteps)) ["h1"; "h2"; "h3"] (inr "id") 7 = Some (inr p) /\
   concat (map b_Targets (p_Batches p)) = ["h1"; "h2"; "h3"].
Proof.
  eexists. split; [vm_compute; reflexivity|].
  refine (proj1 (generate_partition (NewGeneratorWithPluginPolicy noPlugins)
     (sampleWorkflow "percent" [10; 50]%Z [] sampleSteps) ["h1"; "h2"; "h3"] (inr "id") 7 _ _ _)).
  - split; [simpl; lia|]. repeat constructor; lia.
  - vm_compute. reflexivity.
Defined.

(** Exactly which workflows are planned. Over resolved targets and step sizes
    below 2^62 the generator never panics, and it produces a plan if and only if
    there is a target, the run-level rollback block declares policy only
    (LE097), every step judged irreversible is listed in [allow_irreversible]
    (LE082), the batch strategy is known (LE034), the dependencies order
    (LE071/LE104) and every bounded target group resolved within its bounds
    (LE105/LE106). *)
Theorem generate_accepts_iff (g : Generator) (wf : Workflow) (targets : list string) (id : string) (now : Z)
    (Hlen : (Z.of_nat (length targets) < 2 ^ 62)%Z) (Hs : small_steps (bc_Steps (wf_Batches wf))) :
  Generate g (Some wf) targets (inr id) now <> None /\
  ((exists p, Generate g (Some wf) targets (inr id) now = Some (inr p)) <->
   targets <> [] /\ ValidateRunLevelRollback (wf_Rollback wf) "rollback" = [] /\
   (forall s, s ∈ wf_Steps wf -> judged g s = true ->
      st_Module s +:+ "." +:+ st_Action s ∈ wf_AllowIrreversible wf) /\
   strategy_known (wf_Batches wf) /\ (OrderStepsByDependsOn (wf_Steps wf)).2 = [] /\
   Forall (group_within (Nat.eqb (length (wf_Targets wf)) 1) targets) (wf_Targets wf)).
Proof.
  rewrite <- checkTargetCaps_none.
  assert (Hauth : (forall s, s ∈ wf_Steps wf -> judged g s = true ->
      st_Module s +:+ "." +:+ st_Action s ∈ wf_AllowIrreversible wf) <->
      firstError (unauthorised g (wf_AllowIrreversible wf)) (wf_Steps wf) = None).
  { rewrite firstError_none. by setoid_rewrite unauthorised_none. }
  rewrite Hauth. clear Hauth.
  destruct (decide (targets = [])) as [->|Hne]; [split; [done|naive_solver]|].
  assert (Hfit : splittable targets (wf_Batches wf)).
  { split; [lia|]. eapply Forall_impl; [exact Hs|]. simpl. lia. }
  pose proof (splitBatches_partition targets _ Hne Hfit) as Hpart.
  pose proof (splitBatches_refuses targets (wf_Batches wf)) as Href.
  assert (Hk : strategy_known (wf_Batches wf) <-> exists bts, splitBatches targets (wf_Batches wf) = Some (inr bts)).
  { assert (Decision (strategy_known (wf_Batches wf))) as Hd by (unfold strategy_known; apply _).
    destruct (splitBatches targets (wf_Batches wf)) as [[e|bts]|]; simpl in Href, Hpart.
    - split; [|by intros [? ?]]. intros Hkn. exfalso. apply Href; eauto.
    - split; [eauto|]. intros _. destruct Hd as [?|Hd]; [done|].
      apply Href in Hd as [? ?]. done.
    - by destruct Hpart. }
  split.
  - destruct (splitBatches targets (wf_Batches wf)) eqn:Hsp; [|by destruct Hpart].
    unfold Generate. rewrite Hsp. destruct targets; [done|]. by repeat split_match.
  - split.
    + intros [p Hp]. apply Generate_inv in Hp as (_ & Hv & Hu & Hcap & bts & o & i & Hsp & Ho & _ & _).
      rewrite Ho. split_and!; try done. apply Hk. eauto.
    + intros (_ & Hv & Hu & (bts & Hsp)%Hk & Ho & Hcap). unfold Generate. destruct targets; [done|].
      rewrite Hv, Hu, Hsp. destruct (OrderStepsByDependsOn _) as [o ds]. simpl in Ho. subst ds.
      rewrite Hcap. eauto.
Qed.

Lemma generate_accepts_iff_witness :
  Generate (NewGeneratorWithPluginPolicy noPlugins)
     (Some (sampleWorkflow "fixed" [1; 2]%Z [] sampleSteps)) ["h1"; "h2"; "h3"] (inr "id") 7 <> None.
Proof.
  apply (proj1 (generate_accepts_iff (NewGeneratorWithPluginPolicy noPlugins)
     (sampleWorkflow "fixed" [1; 2]%Z [] sampleSteps) ["h1"; "h2"; "h3"] "id" 7
     ltac:(simpl; lia) ltac:(repeat constructor; lia))).
Defined.

(** The verdict stamped into the plan, the plan-time authorisation gate and
    the language's vocabulary cannot disagree: a step of a generated plan is
    marked irreversible exactly when the gate judged the workflow step so, and
    then its action is on the workflow's whitelist. *)
Theorem plan_irreversible_authorised (policy : PluginActionPolicy) (wf : Workflow) (targets : list string)
    (planID : goerr + string) (now : Z) (p : Plan) (b : Batch) (ps : PlanStep)
    (H : Generate (NewGeneratorWithPluginPolicy policy) (Some wf) targets planID now = Some (inr p))
    (Hb : b ∈ p_Batches p) (Hps : ps ∈ b_Steps b) :
  exists s, s ∈ wf_Steps wf /\ ps = convertStep (NewGeneratorWithPluginPolicy policy) s /\
    ps_Irreversible ps = judged (NewGeneratorWithPluginPolicy policy) s /\
    (ps_Irreversible ps = true -> ps_Module ps +:+ "." +:+ ps_Action ps ∈ wf_AllowIrreversible wf).
Proof.
  apply Generate_inv in H as (_ & _ & Hu & _ & bts & ordered & id & _ & Hord & _ & ->).
  destruct (buildBatches_proj (wf_Batches wf) (convertSteps (NewGeneratorWithPluginPolicy policy) ordered) bts)
    as (_ & _ & Hf).
  rewrite Forall_forall in Hf. destruct (Hf b Hb) as (Hst & _). rewrite Hst in Hps.
  apply list_elem_of_In, List.in_map_iff in Hps as (s & <- & Hs%list_elem_of_In).
  destruct (order_spec _ _ _ Hord) as [Hperm _]. rewrite Hperm in Hs. exists s.
  split_and!; [done|done|apply generator_judges|].
  intros Hi. rewrite firstError_none in Hu. apply (proj1 (unauthorised_none _ _ _) (Hu s Hs)).
  by rewrite <- generator_judges.
Qed.

Definition removeStep : Step := MkStep "rm" "pkg" "remove" [] None None None false false false [].

Lemma plan_irreversible_authorised_witness :
  exists p b ps, Generate (NewGeneratorWithPluginPolicy noPlugins)
     (Some (sampleWorkflow "" [] ["pkg.remove"] [removeStep])) ["h1"] (inr "id") 7 = Some (inr p) /\
   b ∈ p_Batches p /\ ps ∈ b_Steps b /\ ps_Irreversible ps = true /\
   exists s, s ∈ [removeStep] /\ ps = convertStep (NewGeneratorWithPluginPolicy noPlugins) s /\
     ps_Irreversible ps = judged (NewGeneratorWithPluginPolicy noPlugins) s /\
     (ps_Irreversible ps = true -> ps_Module ps +:+ "." +:+ ps_Action ps ∈ ["pkg.remove"]).
Proof.
  set (g := NewGeneratorWithPluginPolicy noPlugins).
  set (b := MkBatch 0 ["h1"] (convertSteps g [removeStep]) 2 None).
  exists (MkPlan "id" "sample" [b] 1 7 0 [] "" None None None None), b, (convertStep g removeStep).
  split; [vm_compute; reflexivity|]. split; [by left|]. split; [by left|]. split; [vm_compute; reflexivity|].
  apply (plan_irreversible_authorised noPlugins (sampleWorkflow "" [] ["pkg.remove"] [removeStep]) ["h1"] (inr "id") 7
    (MkPlan "id" "sample" [b] 1 7 0 [] "" None None None None) b); [vm_compute; reflexivity|by left|by left].
Defined.

(** A [fixed] step size near the top of the 64-bit range wraps the position
    below zero and the next slice expression panics. *)
Lemma splitFixed_overflow_panics : splitFixed ["h1"; "h2"; "h3"] [1; 2 ^ 63 - 1]%Z = None.
Proof. vm_compute. reflexivity. Qed.

End Plan.
