(* ===== verification/Concur.v ===== *)
(** * Concur: programs that call out, run alone or fanned out

    Several components run one routine per item on a bounded pool of goroutines
    ([sem := make(chan struct{}, n)], one goroutine per item, results stored by
    index). A routine is a [prog]: a finite tree of calls and of what it does
    with each answer. [run] executes one; [fanout] interleaves many under a cap,
    the scheduler and the answers being functions of the history. *)

From Stdlib Require Import ZArith Lia.
From stdpp Require Import base sets list.
From S2P Require Import Prelude.
Open Scope list_scope.

Module Concur.

Section prog.
Context {C R : Type}.

Inductive prog (A : Type) : Type :=
| Ret (a : A)
| Ask (call : C) (k : R -> prog A).
Arguments Ret {A} a.
Arguments Ask {A} call k.

Fixpoint pbind {A B} (p : prog A) (f : A -> prog B) : prog B :=
  match p with
  | Ret a => f a
  | Ask c k => Ask c (fun r => pbind (k r) f)
  end.

(** [runs p t a]: the calls [t], with their answers, take [p] to [a]. *)
Inductive runs {A} : prog A -> list (C * R) -> A -> Prop :=
| runs_ret a : runs (Ret a) [] a
| runs_ask c k r t a : runs (k r) t a -> runs (Ask c k) ((c, r) :: t) a.

Lemma runs_bind {A B} (p : prog A) (f : A -> prog B) t b :
  runs (pbind p f) t b <-> exists t1 t2 a, t = t1 ++ t2 /\ runs p t1 a /\ runs (f a) t2 b.
Proof.
  split.
  - revert t. induction p as [a|c k IH]; intros t H; simpl in H.
    + exists [], t, a. split_and!; [done|constructor|done].
    + inversion H as [|? ? r t' ? H' ]; subst. destruct (IH _ _ H') as (t1 & t2 & a & -> & H1 & H2).
      exists ((c, r) :: t1), t2, a. split_and!; [done|by constructor|done].
  - intros (t1 & t2 & a & -> & H1 & H2). induction H1; simpl; [done|]. constructor. auto.
Qed.

Lemma runs_ret_inv {A} (a a' : A) t : runs (Ret a) t a' -> t = [] /\ a' = a.
Proof. by inversion 1. Qed.

(** At most [n] calls, whatever the answers. *)
Fixpoint depth_le {A} (p : prog A) (n : nat) : Prop :=
  match p with
  | Ret _ => True
  | Ask _ k => match n with O => False | S n => forall r, depth_le (k r) n end
  end.

Lemma depth_le_mono {A} (p : prog A) n m : depth_le p n -> n <= m -> depth_le p m.
Proof.
  revert n m. induction p as [|c k IH]; intros n m H Hle; [done|].
  destruct n as [|n]; [done|]. destruct m as [|m]; [lia|]. simpl in *. intros r. eapply IH; [apply H|lia].
Qed.

Lemma depth_le_bind {A B} (p : prog A) (f : A -> prog B) n m :
  depth_le p n -> (forall a, depth_le (f a) m) -> depth_le (pbind p f) (n + m).
Proof.
  intros H Hf. revert n H. induction p as [a|c k IH]; intros n H; simpl.
  - eapply depth_le_mono; [apply Hf|lia].
  - destruct n as [|n]; [done|]. simpl in *. auto.
Qed.

(** ** One routine *)

Definition entry : Type := nat * C * R.

Fixpoint run {A} (answer : list entry -> C -> R) (i : nat) (p : prog A) (h : list entry) : A * list entry :=
  match p with
  | Ret a => (a, h)
  | Ask c k => let r := answer h c in run answer i (k r) (h ++ [(i, c, r)])
  end.

Definition calls (i : nat) (log : list entry) : list (C * R) :=
  omap (fun e => if Nat.eqb e.1.1 i then Some (e.1.2, e.2) else None) log.

Lemma calls_app i l1 l2 : calls i (l1 ++ l2) = calls i l1 ++ calls i l2.
Proof. apply omap_app. Qed.

Definition owned (i : nat) (log : list entry) : Prop := Forall (fun e => e.1.1 = i) log.

Lemma calls_owned i j log : owned i log -> j <> i -> calls j log = [].
Proof.
  intros H Hne. induction H as [|e log He _ IH]; [done|]. simpl.
  rewrite He, (proj2 (Nat.eqb_neq _ _)) by done. exact IH.
Qed.

Lemma run_runs {A} answer i (p : prog A) h :
  exists t, (run answer i p h).2 = h ++ t /\ owned i t /\ runs p (calls i t) (run answer i p h).1.
Proof.
  revert h. induction p as [a|c k IH]; intros h; simpl.
  - exists []. rewrite app_nil_r. split_and!; [done|constructor|constructor].
  - destruct (IH (answer h c) (h ++ [(i, c, answer h c)])) as (t & -> & Ho & Hr).
    exists ((i, c, answer h c) :: t). split_and!; [by rewrite <- app_assoc|by constructor|].
    simpl. rewrite Nat.eqb_refl. by constructor.
Qed.

(** All of them in order, one at a time. *)
Fixpoint runAll {A} (answer : list entry -> C -> R) (i : nat) (ps : list (prog A)) (h : list entry) :
    list A * list entry :=
  match ps with
  | [] => ([], h)
  | p :: rest =>
      let '(a, h1) := run answer i p h in
      let '(as_, h2) := runAll answer (S i) rest h1 in (a :: as_, h2)
  end.

(** Every routine's own calls take it to its result. *)
Definition results_of {A} (ps : list (prog A)) (as_ : list A) (t : list entry) : Prop :=
  length as_ = length ps /\
  (forall i p a, ps !! i = Some p -> as_ !! i = Some a -> runs p (calls i t) a) /\
  (forall e, e ∈ t -> e.1.1 < length ps).

Lemma runAll_spec {A} answer i (ps : list (prog A)) h :
  exists t, (runAll answer i ps h).2 = h ++ t /\ length (runAll answer i ps h).1 = length ps /\
    (forall j p a, ps !! j = Some p -> (runAll answer i ps h).1 !! j = Some a -> runs p (calls (i + j) t) a) /\
    (forall e, e ∈ t -> i <= e.1.1 < i + length ps).
Proof.
  revert i h. induction ps as [|p ps IH]; intros i h; simpl.
  { exists []. rewrite app_nil_r. split_and!; [done|done|done|set_solver]. }
  destruct (run_runs answer i p h) as (t1 & E1 & Ho1 & Hr1).
  destruct (run answer i p h) as [a h1]. simpl in E1, Hr1. subst h1.
  destruct (IH (S i) (h ++ t1)) as (t2 & E2 & Hl2 & Hr2 & Hb2).
  destruct (runAll answer (S i) ps (h ++ t1)) as [as_ h2]. simpl in *. subst h2.
  exists (t1 ++ t2). split_and!; [by rewrite app_assoc|lia| |].
  - intros j q b Hq Hb. rewrite calls_app. destruct j as [|j]; simplify_eq/=.
    + rewrite Nat.add_0_r. assert (calls i t2 = []) as ->; [|by rewrite app_nil_r].
      assert (Hni : forall e, e ∈ t2 -> e.1.1 <> i) by (intros e He; specialize (Hb2 e He); lia).
      clear -Hni. induction t2 as [|e t2 IH]; [done|]. simpl.
      rewrite (proj2 (Nat.eqb_neq _ _)) by (apply Hni; set_solver). apply IH. set_solver.
    + rewrite (calls_owned i _ t1 Ho1) by lia. simpl. replace (i + S j) with (S i + j) by lia. eauto.
  - intros e [He|He]%elem_of_app.
    + unfold owned in Ho1. rewrite Forall_forall in Ho1. rewrite (Ho1 e He). lia.
    + specialize (Hb2 e He). lia.
Qed.

Lemma runAll_results {A} answer (ps : list (prog A)) h :
  exists t, (runAll answer 0 ps h).2 = h ++ t /\ results_of ps (runAll answer 0 ps h).1 t.
Proof.
  destruct (runAll_spec answer 0 ps h) as (t & E & Hl & Hr & Hb). exists t. split; [done|].
  split_and!; [done|exact Hr|]. intros e He. specialize (Hb e He). lia.
Qed.

(** ** A bounded pool *)

Inductive worker (A : Type) : Type :=
| FWait (p : prog A)
| FRun (p : prog A)
| FDone (a : A).
Arguments FWait {A} p.
Arguments FRun {A} p.
Arguments FDone {A} a.

Definition active {A} (ws : list (worker A)) : nat :=
  sum_list_with (fun w => match w with FRun _ => 1 | _ => 0 end) ws.

Definition canMove {A} (cap : nat) (ws : list (worker A)) (i : nat) : bool :=
  match ws !! i with
  | Some (FRun _) => true
  | Some (FWait _) => Nat.ltb (active ws) cap
  | _ => false
  end.

(** One move of worker [i]: take a slot, make one call, or store the result and
    give the slot back. *)
Definition moveWorker {A} (answer : list entry -> C -> R) (ws : list (worker A)) (i : nat) (h : list entry) :
    list (worker A) * list entry :=
  match ws !! i with
  | Some (FWait p) => (<[i := FRun p]> ws, h)
  | Some (FRun (Ret a)) => (<[i := FDone a]> ws, h)
  | Some (FRun (Ask c k)) => let r := answer h c in (<[i := FRun (k r)]> ws, h ++ [(i, c, r)])
  | _ => (ws, h)
  end.

(** The scheduler picks among the workers that can move; [tick] counts moves. *)
Fixpoint pool {A} (fuel : nat) (cap : nat) (answer : list entry -> C -> R) (pick : nat -> list entry -> nat)
    (ws : list (worker A)) (h : list entry) : list (worker A) * list entry :=
  match fuel with
  | O => (ws, h)
  | S fuel =>
      let movable := filter (fun i => canMove cap ws i = true) (seq 0 (length ws)) in
      match movable !! Nat.modulo (pick fuel h) (length movable) with
      | None => (ws, h)
      | Some i => let '(ws', h') := moveWorker answer ws i h in pool fuel cap answer pick ws' h'
      end
  end.

Fixpoint harvest {A} (ws : list (worker A)) : option (list A) :=
  match ws with
  | [] => Some []
  | FDone a :: rest => match harvest rest with Some l => Some (a :: l) | None => None end
  | _ :: _ => None
  end.

(** [depth] bounds the calls of each routine. *)
Definition fanout {A} (depth cap : nat) (answer : list entry -> C -> R) (pick : nat -> list entry -> nat)
    (ps : list (prog A)) (h : list entry) : option (list A) * list entry :=
  let '(ws, h') := pool (length ps * (depth + 2)) cap answer pick (map FWait ps) h in (harvest ws, h').

(** ** The pool's invariant *)

Section pool.
Context {A : Type} (depth cap : nat) (answer : list entry -> C -> R) (pick : nat -> list entry -> nat).
Context (ps : list (prog A)).

(** [residual p t q]: the calls [t] take [p] to the rest [q]. *)
Inductive residual : prog A -> list (C * R) -> prog A -> Prop :=
| residual_nil p : residual p [] p
| residual_cons c k r t q : residual (k r) t q -> residual (Ask c k) ((c, r) :: t) q.

Lemma residual_snoc p t c k r : residual p t (Ask c k) -> residual p (t ++ [(c, r)]) (k r).
Proof.
  intros H. remember (Ask c k) as q eqn:E. induction H; subst; simpl; constructor; [constructor|auto].
Qed.

Lemma residual_runs p t a : residual p t (Ret a) -> runs p t a.
Proof. intros H. remember (Ret a) as q eqn:E. induction H; subst; constructor; auto. Qed.

Definition left_ (n : nat) (w : worker A) : Prop :=
  match w with
  | FWait p => exists d, depth_le p d /\ d + 2 <= n
  | FRun p => exists d, depth_le p d /\ d + 1 <= n
  | FDone _ => True
  end.

Definition winv (t : list entry) (i : nat) (w : worker A) : Prop :=
  exists p, ps !! i = Some p /\
    match w with
    | FWait q => q = p /\ calls i t = []
    | FRun q => residual p (calls i t) q
    | FDone a => runs p (calls i t) a
    end.

(** [budget] bounds the moves left, worker by worker. *)
Record PInv (ws : list (worker A)) (t : list entry) (budget : list nat) : Prop := {
  pi_len : length ws = length ps;
  pi_blen : length budget = length ps;
  pi_w : forall i w, ws !! i = Some w -> winv t i w;
  pi_left : forall i w n, ws !! i = Some w -> budget !! i = Some n -> left_ n w;
  pi_owner : forall e, e ∈ t -> e.1.1 < length ps }.

Lemma sum_insert (l : list nat) i n m :
  l !! i = Some n -> sum_list (<[i := m]> l) + n = sum_list l + m.
Proof.
  revert i. induction l as [|x l IH]; intros i H; [done|]. destruct i as [|i]; simplify_eq/=; [lia|].
  specialize (IH _ H). lia.
Qed.

(** Replacing worker [i] by one that has a move less to make. *)
Lemma pinv_update ws t budget i w' evs n :
  PInv ws t budget -> budget !! i = Some (S n) -> owned i evs ->
  winv (t ++ evs) i w' -> left_ n w' ->
  PInv (<[i := w']> ws) (t ++ evs) (<[i := n]> budget) /\ sum_list (<[i := n]> budget) < sum_list budget.
Proof.
  intros [Hl Hb Hw Hleft Ho] Hn Hev Hw' Hl'.
  assert (Hi : i < length ps) by (rewrite <- Hb; by eapply lookup_lt_Some).
  split; [|pose proof (sum_insert _ _ _ n Hn); lia]. constructor.
  - by rewrite length_insert.
  - by rewrite length_insert.
  - intros j w Hj. destruct (decide (j = i)) as [->|Hne].
    + rewrite list_lookup_insert_eq in Hj by lia. by injection Hj as <-.
    + rewrite list_lookup_insert_ne in Hj by done. unfold winv.
      rewrite calls_app, (calls_owned i j evs), app_nil_r by done. by apply Hw.
  - intros j w m Hj Hm. destruct (decide (j = i)) as [->|Hne].
    + rewrite list_lookup_insert_eq in Hj by lia. rewrite list_lookup_insert_eq in Hm by lia. by injection Hj as <-; injection Hm as <-.
    + rewrite list_lookup_insert_ne in Hj by done. rewrite list_lookup_insert_ne in Hm by done. eauto.
  - intros e [He|He]%elem_of_app; [auto|]. unfold owned in Hev. rewrite Forall_forall in Hev. by rewrite (Hev e He).
Qed.

Lemma moveWorker_inv ws t budget i h0 :
  PInv ws t budget -> canMove cap ws i = true ->
  exists ws' t' budget', moveWorker answer ws i (h0 ++ t) = (ws', h0 ++ t') /\
    PInv ws' t' budget' /\ sum_list budget' < sum_list budget.
Proof.
  intros Hinv Hm. unfold canMove in Hm. destruct (ws !! i) as [w|] eqn:Hi; [|done].
  assert (Hb : exists n, budget !! i = Some n).
  { apply lookup_lt_is_Some_2. rewrite (pi_blen _ _ _ Hinv), <- (pi_len _ _ _ Hinv). by eapply lookup_lt_Some. }
  destruct Hb as [n Hn]. pose proof (pi_left _ _ _ Hinv _ _ _ Hi Hn) as Hleft.
  destruct (pi_w _ _ _ Hinv _ _ Hi) as (p & Hp & Hw). unfold moveWorker. rewrite Hi.
  destruct w as [q|q|a]; [| |done].
  - destruct Hw as [-> Hc], Hleft as (d & Hd & Hle). destruct n as [|n]; [lia|].
    destruct (pinv_update ws t budget i (FRun p) [] n Hinv Hn) as [H1 H2].
    + constructor.
    + exists p. split; [done|]. rewrite app_nil_r, Hc. constructor.
    + exists d. split; [done|lia].
    + rewrite app_nil_r in H1. eauto 10.
  - destruct Hleft as (d & Hd & Hle). destruct n as [|n]; [lia|]. destruct q as [a|c k].
    + destruct (pinv_update ws t budget i (FDone a) [] n Hinv Hn) as [H1 H2]; [constructor| |done|].
      * exists p. split; [done|]. rewrite app_nil_r. by apply residual_runs.
      * rewrite app_nil_r in H1. eauto 10.
    + destruct d as [|d]; [done|].
      destruct (pinv_update ws t budget i (FRun (k (answer (h0 ++ t) c))) [(i, c, answer (h0 ++ t) c)] n Hinv Hn)
        as [H1 H2]; [by repeat constructor| | |].
      * exists p. split; [done|]. rewrite calls_app. simpl. rewrite Nat.eqb_refl. by apply residual_snoc.
      * exists d. split; [apply Hd|lia].
      * rewrite <- app_assoc. eauto 10.
Qed.

Lemma pool_done fuel ws t budget h0 :
  PInv ws t budget -> 0 < cap -> sum_list budget <= fuel ->
  exists ws' t', pool fuel cap answer pick ws (h0 ++ t) = (ws', h0 ++ t') /\
    (exists b, PInv ws' t' b) /\ (forall i w, ws' !! i = Some w -> exists a, w = FDone a).
Proof.
  intros Hinv Hcap. revert ws t budget Hinv. induction fuel as [|fuel IH]; intros ws t budget Hinv Hle; simpl.
  - exists ws, t. split_and!; [done|by exists budget|]. intros i w Hi.
    assert (Hb : exists n, budget !! i = Some n).
    { apply lookup_lt_is_Some_2. rewrite (pi_blen _ _ _ Hinv), <- (pi_len _ _ _ Hinv). by eapply lookup_lt_Some. }
    destruct Hb as [n Hn]. pose proof (pi_left _ _ _ Hinv _ _ _ Hi Hn) as Hleft.
    pose proof (sum_insert _ _ _ 0 Hn). destruct w as [q|q|a]; [| |by exists a];
      destruct Hleft as (d & _ & ?); lia.
  - set (mv := filter (fun i => canMove cap ws i = true) (seq 0 (length ws))).
    destruct (mv !! _) as [i|] eqn:Hmv.
    + apply list_elem_of_lookup_2, list_elem_of_filter in Hmv as [Hc _].
      destruct (moveWorker_inv ws t budget i h0 Hinv Hc) as (ws' & t' & b' & -> & Hinv' & Hlt).
      eapply IH; [exact Hinv'|lia].
    + assert (Hnil : mv = []).
      { destruct mv as [|x mv']; [done|]. apply lookup_ge_None in Hmv. exfalso.
        pose proof (Nat.mod_upper_bound (pick fuel (h0 ++ t)) (length (x :: mv')) ltac:(done)). lia. }
      assert (Hno : forall i w, ws !! i = Some w -> canMove cap ws i = false).
      { intros i w Hi. destruct (canMove cap ws i) eqn:E; [|done].
        assert (Hin : i ∈ mv); [|rewrite Hnil in Hin; inversion Hin]. apply list_elem_of_filter. split; [done|].
        apply list_elem_of_In, List.in_seq. apply lookup_lt_Some in Hi. lia. }
      assert (Hact : active ws = 0).
      { assert (Hall : forall i w, ws !! i = Some w -> (match w with FRun _ => 1 | _ => 0 end) = 0).
        { intros i w Hi. pose proof (Hno i w Hi) as Hx. unfold canMove in Hx. rewrite Hi in Hx. by destruct w. }
        revert Hall. clear. unfold active. induction ws as [|x ws IH]; intros Hall; simpl; [done|].
        rewrite (Hall 0 x eq_refl), IH; [done|]. intros i w Hi. by apply (Hall (S i)). }
      exists ws, t. split_and!; [done|by exists budget|]. intros i w Hi. pose proof (Hno i w Hi) as Hx.
      unfold canMove in Hx. rewrite Hi in Hx. destruct w as [q|q|a]; [|done|by exists a].
      rewrite Hact, (proj2 (Nat.ltb_lt 0 cap)) in Hx by done. done.
Qed.

Lemma harvest_done (ws : list (worker A)) :
  (forall i w, ws !! i = Some w -> exists a, w = FDone a) ->
  exists as_, harvest ws = Some as_ /\ ws = map FDone as_.
Proof.
  induction ws as [|w ws IH]; intros H; [by exists []|].
  destruct (H 0 w eq_refl) as [a ->]. destruct IH as (as_ & E & ->); [intros i w' Hi; by apply (H (S i))|].
  exists (a :: as_). simpl. by rewrite E.
Qed.

(** The pool always finishes, every routine has run to its end on its own calls
    and answers, and the results are stored by index. *)
Lemma fanout_results h :
  0 < cap -> Forall (fun p => depth_le p depth) ps ->
  exists as_ t, fanout depth cap answer pick ps h = (Some as_, h ++ t) /\ results_of ps as_ t.
Proof.
  intros Hcap Hd. unfold fanout.
  assert (Hinit : PInv (map FWait ps) [] (replicate (length ps) (depth + 2))).
  { constructor.
    - by rewrite length_map.
    - by rewrite length_replicate.
    - intros i w Hi. rewrite list_lookup_fmap in Hi. destruct (ps !! i) as [p|] eqn:E; [|done].
      injection Hi as <-. by exists p.
    - intros i w n Hi [-> Hn]%lookup_replicate. rewrite list_lookup_fmap in Hi.
      destruct (ps !! i) as [p|] eqn:E; [|done]. injection Hi as <-. exists depth.
      rewrite Forall_lookup in Hd. split; [eauto|lia].
    - set_solver. }
  destruct (pool_done (length ps * (depth + 2)) (map FWait ps) [] _ h Hinit Hcap) as (ws & t & E & [b Hinv] & Hdone).
  { clear. induction (length ps); simpl; lia. }
  rewrite app_nil_r in E. rewrite E. destruct (harvest_done ws Hdone) as (as_ & -> & ->).
  exists as_, t. split; [done|]. destruct Hinv as [Hl _ Hw _ Ho]. rewrite length_map in Hl.
  split_and!; [done| |done]. intros i p a Hp Ha.
  destruct (Hw i (FDone a)) as (p' & Hp' & Hr); [by rewrite list_lookup_fmap, Ha|]. congruence.
Qed.

End pool.
End prog.

Arguments prog : clear implicits.
Arguments entry : clear implicits.
Arguments worker : clear implicits.
Arguments Ret {C R A} a.
Arguments Ask {C R A} call k.

Notation "'let!' x := p 'in' k" := (pbind p (fun x => k))
  (at level 10, x binder, p at level 100, k at level 200) : levee_scope.

End Concur.
