(* ===== verification/Batch.v ===== *)
(** * Batch: the batch execution controller

    [Controller.Execute], [executeBatch] and [executeTarget] of
    src/internal/batch/controller.go. The goroutines of a batch are explicit
    threads; every interaction (a scheduling choice, a context that ends, a
    step callback that returns, an admission that is granted or refused) is an
    answer of an environment to the history of events so far, so a theorem over
    all environments covers every interleaving. Durations are not modelled. *)

From Stdlib Require Import ZArith Lia.
From stdpp Require Import base gmap strings list pretty.
From S2P Require Import Prelude Dsl Plan.
Import Plan.
Open Scope string_scope.
Open Scope list_scope.

Module Batch.

(** ** Policies and results *)

(** [ErrorPolicy] is an [int]: the two named values and the rest. *)
Inductive ErrorPolicy := PolicyContinue | PolicyAbort | PolicyOther (n : Z).

Definition isAbort (p : ErrorPolicy) : bool := match p with PolicyAbort => true | _ => false end.

Definition ErrorPolicy_String (p : ErrorPolicy) : string :=
  match p with
  | PolicyContinue => "continue"
  | PolicyAbort => "abort"
  | PolicyOther n => "unknown(" +:+ pretty n +:+ ")"
  end.

Record StepResult := MkStepResult { sr_StepName : string; sr_Error : option goerr }.

Record TargetResult := MkTargetResult {
  tr_Target : string;
  tr_StepResults : list StepResult;
  tr_Error : option goerr }.

Record BatchResult := MkBatchResult {
  br_BatchIndex : Z;
  br_TargetResults : list TargetResult;
  br_Error : option goerr }.

(** The optional admission tier: when both are configured the manager wins. *)
Record Controller := MkController {
  c_interBatchDelay : Z;
  c_batchErrorPolicy : ErrorPolicy;
  c_targetErrorPolicy : ErrorPolicy;
  c_limiter : bool;
  c_manager : bool }.

Definition WithInterBatchDelay (d : Z) (c : Controller) : Controller :=
  MkController d (c_batchErrorPolicy c) (c_targetErrorPolicy c) (c_limiter c) (c_manager c).
Definition WithBatchErrorPolicy (p : ErrorPolicy) (c : Controller) : Controller :=
  MkController (c_interBatchDelay c) p (c_targetErrorPolicy c) (c_limiter c) (c_manager c).
Definition WithTargetErrorPolicy (p : ErrorPolicy) (c : Controller) : Controller :=
  MkController (c_interBatchDelay c) (c_batchErrorPolicy c) p (c_limiter c) (c_manager c).
Definition WithConcurrencyLimiter (l : bool) (c : Controller) : Controller :=
  MkController (c_interBatchDelay c) (c_batchErrorPolicy c) (c_targetErrorPolicy c) l (c_manager c).
Definition WithConcurrencyManager (m : bool) (c : Controller) : Controller :=
  MkController (c_interBatchDelay c) (c_batchErrorPolicy c) (c_targetErrorPolicy c) (c_limiter c) m.

Definition NewController (opts : list (Controller -> Controller)) : Controller :=
  foldl (fun c opt => opt c) (MkController 0 PolicyAbort PolicyAbort false false) opts.

Definition admissionTier (c : Controller) : bool := c_manager c || c_limiter c.

(** ** Environment *)

(** What a call of the step callback does. *)
Inductive outcome := XOk | XErr (e : goerr) | XPanic (msg : string).

Inductive event :=
| EvEnter (i : nat)                            (** took a slot of the batch's semaphore *)
| EvSkip (i : nat)                             (** gave up waiting for a slot *)
| EvAdmit (i : nat) (err : option goerr)       (** answer of the admission tier *)
| EvRelease (i : nat)                          (** the admission is given back *)
| EvDispatch (i : nat) (s : PlanStep)          (** the step callback is called *)
| EvReturn (i : nat) (s : PlanStep) (o : outcome)
| EvStop (i : nat)                             (** context gone before a step *)
| EvRecover (i : nat)                          (** the deferred recover records a panic *)
| EvFinish (i : nat)                           (** all steps of the target done *)
| EvBatch (index : Z)                          (** a batch begins *)
| EvDelay.                                     (** inter-batch delay *)

(** Answers to the history so far: the parent context's state, the outcome of
    a callback in flight, the admission tier's verdict, which runnable
    goroutine moves next, and which ready case a [select] takes. *)
Record Env := MkEnv {
  env_ctx : list event -> option goerr;
  env_exec : list event -> Batch -> string -> PlanStep -> outcome;
  env_admit : list event -> string -> option goerr;
  env_pick : list event -> nat;
  env_prefer_done : list event -> bool }.

Definition Canceled : goerr := ESentinel "context canceled".

(** ** Threads of a batch *)

Inductive thread :=
| TWait
| TAdmit
| TRun (rest : list PlanStep) (acc : list StepResult) (err : option goerr)
| TExec (s : PlanStep) (rest : list PlanStep) (acc : list StepResult) (err : option goerr)
| TPanic (msg : string)
| TDone (tr : TargetResult).

(** [bs_pctx] is the parent context's error, [bs_bctx] the batch context's, both
    sticky; [bs_sem] the tokens in the semaphore channel; [bs_log] the events of
    this batch. *)
Record bstate := MkBState {
  bs_threads : list thread;
  bs_pctx : option goerr;
  bs_bctx : option goerr;
  bs_sem : nat;
  bs_failed : bool;
  bs_log : list event }.

Section exec.
Context (env : Env) (c : Controller) (b : Batch) (base : list event).

Definition maxConc : nat :=
  let n := length (b_Targets b) in
  if (b_MaxConcurrency b <=? 0)%Z || (Z.of_nat n <? b_MaxConcurrency b)%Z then n
  else Z.to_nat (b_MaxConcurrency b).

(** The parent's cancellation reaches the batch context at once. *)
Definition observe (st : bstate) : bstate :=
  match bs_pctx st with
  | Some _ => st
  | None =>
      match env_ctx env (base ++ bs_log st) with
      | None => st
      | Some e => MkBState (bs_threads st) (Some e)
                    (match bs_bctx st with Some e' => Some e' | None => Some e end)
                    (bs_sem st) (bs_failed st) (bs_log st)
      end
  end.

Definition runnable (st : bstate) (i : nat) : bool :=
  match bs_threads st !! i with
  | None | Some (TDone _) => false
  | Some TWait => Nat.ltb (bs_sem st) maxConc || bool_decide (bs_bctx st <> None)
  | Some _ => true
  end.

(** The goroutine ends holding a slot: it records its result, marks the batch
    failed and cancels it if its policy says so, and returns what it holds. *)
Definition finish (st : bstate) (i : nat) (tr : TargetResult) (admitted : bool) (evs : list event) : bstate :=
  let bad := bool_decide (tr_Error tr <> None) in
  MkBState (<[i := TDone tr]> (bs_threads st)) (bs_pctx st)
    (if bad && isAbort (c_targetErrorPolicy c)
     then match bs_bctx st with Some e => Some e | None => Some Canceled end else bs_bctx st)
    (bs_sem st - 1) (bs_failed st || bad)
    (bs_log st ++ evs ++ (if admitted && admissionTier c then [EvRelease i] else [])).

Definition move (st : bstate) (i : nat) (t : thread) (sem : nat) (evs : list event) : bstate :=
  MkBState (<[i := t]> (bs_threads st)) (bs_pctx st) (bs_bctx st) sem (bs_failed st) (bs_log st ++ evs).

(** A panic unwinds: the admission and the slot are returned by their deferred
    calls first; the recover registered before them runs last. *)
Definition unwind (st : bstate) (i : nat) (m : string) (evs : list event) : bstate :=
  MkBState (<[i := TPanic m]> (bs_threads st)) (bs_pctx st) (bs_bctx st) (bs_sem st - 1) (bs_failed st)
    (bs_log st ++ evs ++ (if admissionTier c then [EvRelease i] else [])).

Definition recovered (st : bstate) (i : nat) (tgt m : string) : bstate :=
  MkBState (<[i := TDone (MkTargetResult tgt [] (Some (EText ("target " +:+ tgt +:+ " panicked: " +:+ m))))]> (bs_threads st))
    (bs_pctx st)
    (if isAbort (c_targetErrorPolicy c)
     then match bs_bctx st with Some e => Some e | None => Some Canceled end else bs_bctx st)
    (bs_sem st) true (bs_log st ++ [EvRecover i]).

(** [executeTarget], one step at a time: the context check and the dispatch of the
    next step, the return of the step in flight, the end of the steps. *)
Definition executeTarget (st : bstate) (i : nat) (tgt : string) (t : thread) : bstate :=
  let h := base ++ bs_log st in
  match t with
  | TRun [] acc err => finish st i (MkTargetResult tgt acc err) true [EvFinish i]
  | TRun (s :: rest) acc err =>
      match bs_bctx st with
      | Some e =>
          finish st i (MkTargetResult tgt acc
            (Some (EWrap ("target " +:+ tgt +:+ " step " +:+ ps_Name s +:+ " skipped") e))) true [EvStop i]
      | None => move st i (TExec s rest acc err) (bs_sem st) [EvDispatch i s]
      end
  | TExec s rest acc err =>
      let o := env_exec env h b tgt s in
      match o with
      | XPanic m => unwind st i m [EvReturn i s o]
      | XOk => move st i (TRun rest (acc ++ [MkStepResult (ps_Name s) None]) err) (bs_sem st) [EvReturn i s o]
      | XErr e =>
          let acc' := acc ++ [MkStepResult (ps_Name s) (Some e)] in
          let err' := match err with
                      | Some x => Some x
                      | None => Some (EWrap ("target " +:+ tgt +:+ " step " +:+ ps_Name s +:+ " failed") e)
                      end in
          if isAbort (c_targetErrorPolicy c)
          then finish st i (MkTargetResult tgt acc' err') true [EvReturn i s o]
          else move st i (TRun rest acc' err') (bs_sem st) [EvReturn i s o]
      end
  | _ => st
  end.

(** One move of goroutine [i], that serves target [tgt]. *)
Definition advance (st : bstate) (i : nat) (tgt : string) : bstate :=
  let h := base ++ bs_log st in
  match bs_threads st !! i with
  | None | Some (TDone _) => st
  | Some TWait =>
      (* select { case sem <- struct{}{}: | case <-batchCtx.Done(): } *)
      let skip e :=
        MkBState (<[i := TDone (MkTargetResult tgt [] (Some (EWrap ("target " +:+ tgt +:+ " skipped") e)))]> (bs_threads st))
          (bs_pctx st) (bs_bctx st) (bs_sem st) true (bs_log st ++ [EvSkip i]) in
      let enter := move st i TAdmit (S (bs_sem st)) [EvEnter i] in
      match bs_bctx st with
      | None => if Nat.ltb (bs_sem st) maxConc then enter else st
      | Some e => if Nat.ltb (bs_sem st) maxConc && negb (env_prefer_done env h) then enter else skip e
      end
  | Some TAdmit =>
      if admissionTier c then
        match env_admit env h tgt with
        | Some e =>
            finish st i (MkTargetResult tgt [] (Some (EWrap
              ((if c_manager c then "concurrency" else "limiter") +:+ " acquire for target " +:+ tgt) e)))
              false [EvAdmit i (Some e)]
        | None => move st i (TRun (b_Steps b) [] None) (bs_sem st) [EvAdmit i None]
        end
      else move st i (TRun (b_Steps b) [] None) (bs_sem st) [EvAdmit i None]
  | Some (TPanic m) => recovered st i tgt m
  | Some t => executeTarget st i tgt t
  end.

(** The scheduler's choice among the runnable goroutines. *)
Definition choose (st : bstate) : option nat :=
  let r := filter (fun i => runnable st i = true) (seq 0 (length (bs_threads st))) in
  r !! Nat.modulo (env_pick env (base ++ bs_log st)) (length r).

Definition step (st : bstate) : option bstate :=
  let st := observe st in
  match choose st with
  | None => None
  | Some i => Some (advance st i (default "" (b_Targets b !! i)))
  end.

Fixpoint drive (fuel : nat) (st : bstate) : bstate :=
  match fuel with
  | O => st
  | S f => match step st with None => st | Some st' => drive f st' end
  end.

Definition batchFuel : nat := length (b_Targets b) * (2 * length (b_Steps b) + 3).

Definition initial (pctx : option goerr) : bstate :=
  MkBState (replicate (length (b_Targets b)) TWait) pctx pctx 0 false [].

Definition resultOf (t : thread) : TargetResult :=
  match t with TDone tr => tr | _ => MkTargetResult "" [] None end.

Fixpoint firstTargetError (l : list TargetResult) : option goerr :=
  match l with
  | [] => None
  | tr :: rest => match tr_Error tr with Some e => Some e | None => firstTargetError rest end
  end.

(** [executeBatch]: result, parent context state and the batch's events. *)
Definition executeBatch (pctx : option goerr) : BatchResult * option goerr * list event :=
  match b_Targets b with
  | [] => (MkBatchResult (b_Index b) [] None, pctx, [])
  | _ =>
      let st := drive batchFuel (initial pctx) in
      let trs := map resultOf (bs_threads st) in
      (MkBatchResult (b_Index b) trs (if bs_failed st then firstTargetError trs else None),
       bs_pctx st, bs_log st)
  end.

End exec.

(** ** Execute *)

Definition pollCtx (env : Env) (pctx : option goerr) (h : list event) : option goerr :=
  match pctx with Some e => Some e | None => env_ctx env h end.

(** The loop over the remaining batches, from parent context state [pctx] and
    history [h]. *)
Fixpoint executeLoop (env : Env) (c : Controller) (batches : list Batch) (pctx : option goerr)
    (h : list event) : list BatchResult * option goerr * list event :=
  match batches with
  | [] => ([], pctx, h)
  | b :: rest =>
      let pctx := pollCtx env pctx h in
      match pctx with
      | Some e =>
          ([MkBatchResult (b_Index b) [] (Some (EWrap ("batch " +:+ pretty (b_Index b) +:+ " skipped before start") e))],
           pctx, h)
      | None =>
          let h1 := h ++ [EvBatch (b_Index b)] in
          let '(br, pctx, log) := executeBatch env c b h1 pctx in
          let h2 := h1 ++ log in
          if bool_decide (br_Error br <> None) && isAbort (c_batchErrorPolicy c) then ([br], pctx, h2)
          else
            match rest with
            | [] => ([br], pctx, h2)
            | _ =>
                let '(stop, pctx, h3) :=
                  if (0 <? c_interBatchDelay c)%Z then
                    let pctx := pollCtx env pctx (h2 ++ [EvDelay]) in
                    (bool_decide (pctx <> None) && env_prefer_done env (h2 ++ [EvDelay]), pctx, h2 ++ [EvDelay])
                  else (false, pctx, h2) in
                if stop then ([br], pctx, h3)
                else let '(brs, pctx, h4) := executeLoop env c rest pctx h3 in (br :: brs, pctx, h4)
            end
      end
  end.

(** [hasExec] is [execFn != nil]. *)
Definition Execute (env : Env) (c : Controller) (p : option Plan) (hasExec : bool) (h : list event) :
    list BatchResult * list event :=
  match p with
  | None => ([MkBatchResult (-1) [] (Some (ELevee "LE002" "plan is nil" 4))], h)
  | Some p =>
      if negb hasExec then ([MkBatchResult (-1) [] (Some (ELevee "LE002" "execFn is nil" 4))], h)
      else let '(brs, _, h') := executeLoop env c (p_Batches p) None h in (brs, h')
  end.

(** ** Reading the log *)

Definition ev_owner (e : event) : option nat :=
  match e with
  | EvEnter i | EvSkip i | EvAdmit i _ | EvRelease i | EvDispatch i _ | EvReturn i _ _ | EvStop i | EvFinish i | EvRecover i => Some i
  | EvBatch _ | EvDelay => None
  end.

(** The callbacks made for the [i]-th target of the batch, and those that returned. *)
Definition dispatched (i : nat) (log : list event) : list PlanStep :=
  omap (fun e => match e with EvDispatch j s => if Nat.eqb j i then Some s else None | _ => None end) log.
Definition returned (i : nat) (log : list event) : list (PlanStep * outcome) :=
  omap (fun e => match e with EvReturn j s o => if Nat.eqb j i then Some (s, o) else None | _ => None end) log.

(** Callbacks in flight after the events of a log. *)
Definition ev_flight (e : event) : Z :=
  match e with EvDispatch _ _ => 1 | EvReturn _ _ _ => -1 | _ => 0 end.
Definition inflight (log : list event) : Z := foldr (fun e n => (ev_flight e + n)%Z) 0%Z log.

Lemma inflight_app l1 l2 : inflight (l1 ++ l2) = (inflight l1 + inflight l2)%Z.
Proof. induction l1 as [|e l1 IH]; simpl; [lia|]. rewrite IH. lia. Qed.

Lemma owned_dispatched i j evs :
  Forall (fun e => ev_owner e = Some i) evs -> j <> i -> dispatched j evs = [] /\ returned j evs = [].
Proof.
  intros H Hne. induction H as [|e evs He _ [IH1 IH2]]; [done|].
  destruct e; simplify_eq/=; (done || (rewrite (proj2 (Nat.eqb_neq _ _)) by done; done)).
Qed.

Lemma dispatched_app i l1 l2 : dispatched i (l1 ++ l2) = dispatched i l1 ++ dispatched i l2.
Proof. apply omap_app. Qed.
Lemma returned_app i l1 l2 : returned i (l1 ++ l2) = returned i l1 ++ returned i l2.
Proof. apply omap_app. Qed.

(** ** What a thread has done *)

Definition toSR (r : PlanStep * outcome) : StepResult :=
  MkStepResult (ps_Name r.1) (match r.2 with XErr e => Some e | _ => None end).
Definition ran_ok (r : PlanStep * outcome) : Prop := r.2 = XOk.
Definition no_panic (r : PlanStep * outcome) : Prop := forall m, r.2 <> XPanic m.

Fixpoint firstErr (tgt : string) (rs : list (PlanStep * outcome)) : option goerr :=
  match rs with
  | [] => None
  | (s, XErr e) :: _ => Some (EWrap ("target " +:+ tgt +:+ " step " +:+ ps_Name s +:+ " failed") e)
  | _ :: rest => firstErr tgt rest
  end.

Lemma firstErr_app tgt l1 l2 :
  firstErr tgt (l1 ++ l2) = match firstErr tgt l1 with Some e => Some e | None => firstErr tgt l2 end.
Proof. induction l1 as [|[s []] l1 IH]; simpl; auto. Qed.

Lemma firstErr_none tgt rs : Forall no_panic rs -> firstErr tgt rs = None <-> Forall ran_ok rs.
Proof.
  induction 1 as [|[s o] rs Hnp _ IH]; simpl; [by split|]. rewrite Forall_cons. unfold ran_ok at 1. simpl.
  destruct o as [| |m]; [naive_solver|naive_solver|]. by destruct (Hnp m).
Qed.

(** A finished target: the callbacks that returned are a prefix of the batch's
    steps; the step results are their record, unless one panicked, in which case
    there are none; no error means that every step ran and succeeded. *)
Definition done_shape (abort : bool) (tr : TargetResult) (rs : list (PlanStep * outcome)) (rest : list PlanStep) : Prop :=
  (abort = true -> Forall ran_ok (removelast rs)) /\
  ((exists rs' s m, rs = rs' ++ [(s, XPanic m)] /\ tr_StepResults tr = [] /\ tr_Error tr <> None) \/
   (Forall no_panic rs /\ tr_StepResults tr = map toSR rs /\
    (tr_Error tr = None -> rest = [] /\ Forall ran_ok rs))).

Section invariant.
Context (env : Env) (c : Controller) (b : Batch) (base : list event).

Definition tinv (i : nat) (tgt : string) (log : list event) (t : thread) : Prop :=
  let rs := returned i log in
  let abort := isAbort (c_targetErrorPolicy c) in
  match t with
  | TWait | TAdmit => dispatched i log = [] /\ rs = []
  | TRun rest acc err =>
      dispatched i log = map fst rs /\ b_Steps b = map fst rs ++ rest /\ acc = map toSR rs /\
      err = firstErr tgt rs /\ Forall no_panic rs /\ (abort = true -> Forall ran_ok rs)
  | TExec s rest acc err =>
      dispatched i log = map fst rs ++ [s] /\ b_Steps b = map fst rs ++ s :: rest /\ acc = map toSR rs /\
      err = firstErr tgt rs /\ Forall no_panic rs /\ (abort = true -> Forall ran_ok rs)
  | TPanic m =>
      dispatched i log = map fst rs /\ exists rest rs' s, b_Steps b = map fst rs ++ rest /\
        rs = rs' ++ [(s, XPanic m)] /\ (abort = true -> Forall ran_ok rs')
  | TDone tr =>
      tr_Target tr = tgt /\ dispatched i log = map fst rs /\
      exists rest, b_Steps b = map fst rs ++ rest /\ done_shape abort tr rs rest
  end.

Definition hold (t : thread) : nat := match t with TWait | TPanic _ | TDone _ => 0 | _ => 1 end.
Definition exec1 (t : thread) : nat := match t with TExec _ _ _ _ => 1 | _ => 0 end.
Definition bad (t : thread) : bool :=
  match t with TDone tr => bool_decide (tr_Error tr <> None) | _ => false end.
Definition todo (t : thread) : nat :=
  match t with
  | TWait => 2 * length (b_Steps b) + 3
  | TAdmit => 2 * length (b_Steps b) + 2
  | TRun rest _ _ => 2 * length rest + 1
  | TExec _ rest _ _ => 2 * length rest + 2
  | TPanic _ => 1
  | TDone _ => 0
  end.

Definition total (f : thread -> nat) (l : list thread) : nat := sum_list_with f l.

Lemma total_insert f l i t t' :
  l !! i = Some t -> total f (<[i := t']> l) + f t = total f l + f t'.
Proof.
  revert i. induction l as [|x l IH]; intros i H; [done|]. unfold total in *.
  destruct i as [|i]; simplify_eq/=; [lia|]. specialize (IH _ H). lia.
Qed.

Lemma total_le f g l : (forall t, f t <= g t) -> total f l <= total g l.
Proof. intros H. induction l as [|x l IH]; unfold total in *; simpl; [lia|]. specialize (H x). lia. Qed.

(** What one move of thread [i] from [t] to [t'] guarantees, [evs] being its events. *)
Record moved (st st' : bstate) (i : nat) (tgt : string) (t t' : thread) (evs : list event) : Prop := {
  mv_threads : bs_threads st' = <[i := t']> (bs_threads st);
  mv_log : bs_log st' = bs_log st ++ evs;
  mv_owned : Forall (fun e => ev_owner e = Some i) evs;
  mv_tinv : tinv i tgt (bs_log st ++ evs) t';
  mv_sem : bs_sem st' + hold t = bs_sem st + hold t';
  mv_slot : hold t < hold t' -> bs_sem st < maxConc b;
  mv_failed : bs_failed st' = bs_failed st || bad t';
  mv_live : bad t = false;
  mv_flight : inflight evs = (Z.of_nat (exec1 t') - Z.of_nat (exec1 t))%Z;
  mv_prefix : forall l, l `prefix_of` evs -> (inflight l <= Z.max 0 (inflight evs))%Z;
  mv_todo : todo t' < todo t }.

Lemma flight_prefix e i x l :
  l `prefix_of` (e :: if x : bool then [EvRelease i] else []) ->
  (inflight l <= Z.max 0 (inflight (e :: if x then [EvRelease i] else [])))%Z.
Proof.
  intros [k Hk]. destruct l as [|e1 l]; simpl in *; [lia|]. injection Hk as <- Hk.
  destruct x; simpl in Hk; destruct l as [|e2 l]; simplify_eq/=; try lia.
  destruct l; simplify_eq/=. lia.
Qed.

Lemma flight_prefix1 e l : l `prefix_of` [e] -> (inflight l <= Z.max 0 (inflight [e]))%Z.
Proof. apply (flight_prefix e 0 false). Qed.

Lemma finish_moved st i t tgt tr adm e :
  bs_threads st !! i = Some t -> hold t = 1 -> 0 < bs_sem st -> ev_owner e = Some i ->
  tinv i tgt (bs_log st ++ [e]) (TDone tr) -> ev_flight e = (- Z.of_nat (exec1 t))%Z ->
  exists t' evs, moved st (finish c st i tr adm [e]) i tgt t t' evs.
Proof.
  intros Ht Hh Hs He Hinv Hf.
  exists (TDone tr), ([e] ++ (if adm && admissionTier c then [EvRelease i] else [])).
  assert (Hr : forall l, returned i (l ++ (if adm && admissionTier c then [EvRelease i] else [])) = returned i l /\
                         dispatched i (l ++ (if adm && admissionTier c then [EvRelease i] else [])) = dispatched i l).
  { intros l. rewrite returned_app, dispatched_app. destruct (adm && admissionTier c); simpl; by rewrite !app_nil_r. }
  unfold finish. constructor; cbn [bs_threads bs_log bs_sem bs_failed]; try done.
  - destruct (adm && admissionTier c); by repeat constructor.
  - rewrite app_assoc. unfold tinv in *. destruct (Hr (bs_log st ++ [e])) as [-> ->]. exact Hinv.
  - rewrite Hh. simpl. lia.
  - simpl. lia.
  - destruct t; done.
  - simpl. destruct (adm && admissionTier c); simpl; lia.
  - apply flight_prefix.
  - destruct t; simpl in *; lia.
Qed.

Lemma move_moved st i t t' tgt sem e :
  bs_threads st !! i = Some t -> ev_owner e = Some i ->
  tinv i tgt (bs_log st ++ [e]) t' -> sem + hold t = bs_sem st + hold t' ->
  (hold t < hold t' -> bs_sem st < maxConc b) -> bad t = false -> bad t' = false ->
  ev_flight e = (Z.of_nat (exec1 t') - Z.of_nat (exec1 t))%Z -> todo t' < todo t ->
  exists t2 evs, moved st (move st i t' sem [e]) i tgt t t2 evs.
Proof.
  intros Ht He Hinv Hs Hm Hb Hb' Hf Htd. exists t', [e].
  unfold move. constructor; cbn [bs_threads bs_log bs_sem bs_failed]; try done.
  - by repeat constructor.
  - by rewrite Hb', orb_false_r.
  - simpl. lia.
  - apply flight_prefix1.
Qed.

Ltac log_simpl := unfold tinv; rewrite !dispatched_app, !returned_app; simpl; rewrite ?Nat.eqb_refl; simpl; rewrite ?app_nil_r.

Lemma unwind_moved st i t tgt m e :
  bs_threads st !! i = Some t -> exec1 t = 1 -> 0 < bs_sem st -> ev_owner e = Some i ->
  tinv i tgt (bs_log st ++ [e]) (TPanic m) -> ev_flight e = (- Z.of_nat (exec1 t))%Z ->
  exists t' evs, moved st (unwind c st i m [e]) i tgt t t' evs.
Proof.
  intros Ht Hh Hs He Hinv Hf. exists (TPanic m), ([e] ++ (if admissionTier c then [EvRelease i] else [])).
  assert (Hr : forall l, returned i (l ++ (if admissionTier c then [EvRelease i] else [])) = returned i l /\
                         dispatched i (l ++ (if admissionTier c then [EvRelease i] else [])) = dispatched i l).
  { intros l. rewrite returned_app, dispatched_app. destruct (admissionTier c); simpl; by rewrite !app_nil_r. }
  unfold unwind. constructor; cbn [bs_threads bs_log bs_sem bs_failed]; try done.
  - destruct (admissionTier c); by repeat constructor.
  - rewrite app_assoc. unfold tinv in *. destruct (Hr (bs_log st ++ [e])) as [-> ->]. exact Hinv.
  - destruct t; simpl in *; lia.
  - simpl. lia.
  - by rewrite orb_false_r.
  - by destruct t.
  - simpl. destruct (admissionTier c); simpl; lia.
  - apply flight_prefix.
  - destruct t; simpl in *; lia.
Qed.

Lemma exec_moved st i tgt s rest acc err :
  bs_threads st !! i = Some (TExec s rest acc err) -> tinv i tgt (bs_log st) (TExec s rest acc err) ->
  0 < bs_sem st ->
  exists t' evs, moved st (advance env c b base st i tgt) i tgt (TExec s rest acc err) t' evs.
Proof.
  intros Ht Hinv Hs. unfold advance, executeTarget. rewrite Ht. simpl in Hinv. destruct Hinv as (Hd & Hb & -> & -> & Hnp & Hab).
  assert (Hb' : forall o, b_Steps b = map fst (returned i (bs_log st) ++ [(s, o)]) ++ rest).
  { intros o. by rewrite map_app, <- app_assoc. }
  assert (Hd' : forall o, dispatched i (bs_log st) = map fst (returned i (bs_log st) ++ [(s, o)])).
  { intros o. by rewrite map_app. }
  assert (Hab' : forall o, isAbort (c_targetErrorPolicy c) = true ->
            Forall ran_ok (removelast (returned i (bs_log st) ++ [(s, o)]))).
  { intros o Ha. rewrite removelast_last. auto. }
  assert (Hsr : forall o, map toSR (returned i (bs_log st) ++ [(s, o)]) =
            map toSR (returned i (bs_log st)) ++ [toSR (s, o)]).
  { intros o. by rewrite map_app. }
  assert (Hnp' : forall o, (forall m, o <> XPanic m) -> Forall no_panic (returned i (bs_log st) ++ [(s, o)])).
  { intros o Ho. apply Forall_app. split; [done|]. by repeat constructor. }
  destruct (env_exec _ _ _ _ _) as [|e|m] eqn:Ho.
  - eapply move_moved; [done|done| |simpl; lia|simpl; lia|done|done|done|simpl; lia].
    log_simpl. split_and!; [apply Hd'|apply Hb'|by rewrite Hsr| |by apply Hnp'|].
    + rewrite firstErr_app. simpl. by destruct (firstErr _ _).
    + intros Ha. apply Forall_app. split; [auto|by repeat constructor].
  - destruct (isAbort (c_targetErrorPolicy c)) eqn:Ha.
    + apply finish_moved; [done|done|done|done| |done].
      log_simpl. split_and!; [done|apply Hd'|]. exists rest. split; [apply Hb'|].
      split; [rewrite Ha; apply Hab'; done|right]. split_and!; [by apply Hnp'|by rewrite Hsr|].
      simpl. by destruct (firstErr _ _).
    + eapply move_moved; [done|done| |simpl; lia|simpl; lia|done|done|done|simpl; lia].
      log_simpl. split_and!; [apply Hd'|apply Hb'|by rewrite Hsr| |by apply Hnp'|by rewrite Ha].
      rewrite firstErr_app. simpl. by destruct (firstErr _ _).
  - apply unwind_moved; [done|done|done|done| |done].
    log_simpl. split_and!; [apply Hd'|]. eexists rest, _, s. split_and!; [apply Hb'|done|done].
Qed.

Lemma recovered_moved st i tgt m :
  bs_threads st !! i = Some (TPanic m) -> tinv i tgt (bs_log st) (TPanic m) ->
  exists t' evs, moved st (recovered c st i tgt m) i tgt (TPanic m) t' evs.
Proof.
  intros Ht (Hd & rest & rs' & s & Hb & Hrs & Hab).
  exists (TDone (MkTargetResult tgt [] (Some (EText ("target " +:+ tgt +:+ " panicked: " +:+ m))))), [EvRecover i].
  constructor; cbn [recovered bs_threads bs_log bs_sem bs_failed]; try done; try (simpl; lia).
  - by repeat constructor.
  - log_simpl. split_and!; [done|done|]. exists rest. split; [done|]. rewrite Hrs. split; [intros; rewrite removelast_last; auto|].
    left. by eexists _, _, _.
  - apply flight_prefix1.
Qed.

Lemma skip_moved st i tgt err ctx :
  bs_threads st !! i = Some TWait -> tinv i tgt (bs_log st) TWait -> err <> None ->
  exists t' evs, moved st
    (MkBState (<[i := TDone (MkTargetResult tgt [] err)]> (bs_threads st)) (bs_pctx st) ctx
       (bs_sem st) true (bs_log st ++ [EvSkip i])) i tgt TWait t' evs.
Proof.
  intros Ht [H1 H2] He. exists (TDone (MkTargetResult tgt [] err)), [EvSkip i].
  constructor; cbn [bs_threads bs_log bs_sem bs_failed]; try done; try (simpl; lia).
  - by repeat constructor.
  - log_simpl. rewrite H1, H2. split_and!; try done. exists (b_Steps b). split; [done|].
    split; [done|right]. by split_and!.
  - simpl. rewrite bool_decide_true by done. by rewrite orb_true_r.
  - apply flight_prefix1.
Qed.

Lemma advance_spec st i t tgt :
  bs_threads st !! i = Some t -> runnable b st i = true -> tinv i tgt (bs_log st) t ->
  (hold t = 1 -> 0 < bs_sem st) ->
  exists t' evs, moved st (advance env c b base st i tgt) i tgt t t' evs.
Proof.
  intros Ht Hr Hinv Hs. unfold runnable in Hr. rewrite Ht in Hr.
  destruct t as [| |[|s rest] acc err|s rest acc err|m|tr]; [| | | | | |done].
  - assert (Henter : bs_sem st < maxConc b ->
      exists t' evs, moved st (move st i TAdmit (S (bs_sem st)) [EvEnter i]) i tgt TWait t' evs).
    { intros Hlt. eapply move_moved; [done|done| |simpl; lia|simpl; lia|done|done|done|simpl; lia].
      destruct Hinv as [H1 H2]. log_simpl. by rewrite H1, H2. }
    unfold advance, executeTarget. rewrite Ht. destruct (bs_bctx st) as [e|].
    + destruct (Nat.ltb_spec (bs_sem st) (maxConc b)); simpl; [destruct (env_prefer_done _ _); simpl; [|auto]|].
      all: by apply skip_moved.
    + destruct (Nat.ltb_spec (bs_sem st) (maxConc b)); simpl in *; [auto|done].
  - destruct Hinv as [H1 H2]. unfold advance, executeTarget. rewrite Ht.
    assert (Hgo : exists t' evs, moved st (move st i (TRun (b_Steps b) [] None) (bs_sem st) [EvAdmit i None]) i tgt TAdmit t' evs).
    { eapply move_moved; [done|done| |simpl; lia|simpl; lia|done|done|done|simpl; lia]. log_simpl. rewrite H1, H2. split_and!; done || constructor. }
    destruct (admissionTier c); [|done]. destruct (env_admit _ _ _) as [e|]; [|done].
    apply finish_moved; [done|done|auto|done| |done].
    log_simpl. rewrite H1, H2. split_and!; try done. exists (b_Steps b). split; [done|].
    split; [done|right]. by split_and!.
  - unfold advance, executeTarget. rewrite Ht. apply finish_moved; [done|done|auto|done| |done].
    destruct Hinv as (Hd & Hb & -> & -> & Hnp & Hab). log_simpl.
    split_and!; [done|done|]. exists []. split; [done|]. split.
    + intros Ha. specialize (Hab Ha). rewrite Forall_forall in *. intros x Hx. apply Hab.
      destruct (returned i (bs_log st)) eqn:E using rev_ind; [done|]. rewrite removelast_last in Hx. set_solver.
    + right. split_and!; [done|done|]. simpl. rewrite firstErr_none by done. done.
  - unfold advance, executeTarget. rewrite Ht. destruct Hinv as (Hd & Hb & -> & -> & Hnp & Hab).
    destruct (bs_bctx st) as [e|].
    + apply finish_moved; [done|done|auto|done| |done]. log_simpl.
      split_and!; [done|done|]. exists (s :: rest). split; [done|]. split.
      * intros Ha. specialize (Hab Ha). rewrite Forall_forall in *. intros x Hx. apply Hab.
        destruct (returned i (bs_log st)) eqn:E using rev_ind; [done|]. rewrite removelast_last in Hx. set_solver.
      * right. by split_and!.
    + eapply move_moved; [done|done| |simpl; lia|simpl; lia|done|done|done|simpl; lia]. log_simpl. by rewrite Hd.
  - apply exec_moved; auto.
  - unfold advance. rewrite Ht. by apply recovered_moved.
Qed.

(** ** The batch invariant *)

Record Inv (st : bstate) : Prop := {
  inv_len : length (bs_threads st) = length (b_Targets b);
  inv_thread : forall i t, bs_threads st !! i = Some t ->
    exists tgt, b_Targets b !! i = Some tgt /\ tinv i tgt (bs_log st) t;
  inv_sem : bs_sem st = total hold (bs_threads st);
  inv_cap : bs_sem st <= maxConc b;
  inv_failed : bs_failed st = existsb bad (bs_threads st);
  inv_flight : inflight (bs_log st) = Z.of_nat (total exec1 (bs_threads st));
  inv_prefix : forall l, l `prefix_of` bs_log st -> (inflight l <= Z.of_nat (maxConc b))%Z }.

Lemma observe_same st :
  bs_threads (observe env base st) = bs_threads st /\ bs_log (observe env base st) = bs_log st /\
  bs_sem (observe env base st) = bs_sem st /\ bs_failed (observe env base st) = bs_failed st.
Proof. unfold observe. destruct (bs_pctx st); [done|]. by destruct (env_ctx _ _). Qed.

Lemma observe_inv st : Inv st -> Inv (observe env base st).
Proof.
  intros H. destruct (observe_same st) as (Ht & Hl & Hs & Hf).
  destruct H. constructor; rewrite ?Ht, ?Hl, ?Hs, ?Hf; auto.
Qed.

Lemma total_lookup f l i t : l !! i = Some t -> f t <= total f l.
Proof.
  intros H. unfold total. revert i H. induction l as [|x l IH]; intros i H; [done|].
  destruct i; simplify_eq/=; [lia|]. specialize (IH _ H). lia.
Qed.

Lemma choose_runnable st i : choose env b base st = Some i -> runnable b st i = true.
Proof.
  intros H. apply list_elem_of_lookup_2, list_elem_of_filter in H as [H _]. done.
Qed.

Lemma moved_inv st st' i tgt t t' evs :
  Inv st -> bs_threads st !! i = Some t -> b_Targets b !! i = Some tgt ->
  moved st st' i tgt t t' evs -> Inv st'.
Proof.
  intros Hinv Ht Htgt Hm.
  assert (Hsem : bs_sem st' = total hold (bs_threads st')).
  { pose proof (mv_sem _ _ _ _ _ _ _ Hm). rewrite (mv_threads _ _ _ _ _ _ _ Hm).
    pose proof (total_insert hold _ _ _ t' Ht). rewrite (inv_sem _ Hinv) in *. lia. }
  assert (Hcap : bs_sem st' <= maxConc b).
  { pose proof (mv_sem _ _ _ _ _ _ _ Hm). pose proof (mv_slot _ _ _ _ _ _ _ Hm).
    pose proof (inv_cap _ Hinv). assert (hold t' <= 1) by (destruct t'; simpl; lia).
    destruct (decide (hold t < hold t')); lia. }
  assert (Hfl : inflight (bs_log st') = Z.of_nat (total exec1 (bs_threads st'))).
  { rewrite (mv_log _ _ _ _ _ _ _ Hm), inflight_app, (mv_flight _ _ _ _ _ _ _ Hm), (inv_flight _ Hinv).
    rewrite (mv_threads _ _ _ _ _ _ _ Hm). pose proof (total_insert exec1 _ _ _ t' Ht). lia. }
  constructor; try done.
  - rewrite (mv_threads _ _ _ _ _ _ _ Hm), length_insert. apply Hinv.
  - intros j tj Hj. rewrite (mv_log _ _ _ _ _ _ _ Hm). rewrite (mv_threads _ _ _ _ _ _ _ Hm) in Hj.
    destruct (decide (j = i)) as [->|Hne].
    + rewrite list_lookup_insert_eq in Hj by (by eapply lookup_lt_Some). injection Hj as <-.
      exists tgt. split; [done|]. apply Hm.
    + rewrite list_lookup_insert_ne in Hj by done.
      destruct (inv_thread _ Hinv _ _ Hj) as (tgtj & Hj' & Hinvj). exists tgtj. split; [done|].
      unfold tinv in *. rewrite dispatched_app, returned_app.
      destruct (owned_dispatched i j evs (mv_owned _ _ _ _ _ _ _ Hm) Hne) as [-> ->].
      by rewrite !app_nil_r.
  - rewrite (mv_failed _ _ _ _ _ _ _ Hm), (mv_threads _ _ _ _ _ _ _ Hm), (inv_failed _ Hinv).
    by rewrite (existsb_insert bad _ _ _ _ Ht (mv_live _ _ _ _ _ _ _ Hm)).
  - intros l Hl. rewrite (mv_log _ _ _ _ _ _ _ Hm) in Hl.
    apply prefix_app_cases in Hl as [Hl|(l' & -> & Hl')]; [by apply Hinv|].
    rewrite inflight_app. pose proof (mv_prefix _ _ _ _ _ _ _ Hm l' Hl').
    assert (forall ts, total exec1 ts <= total hold ts) as Hle.
    { intros ts. apply total_le. intros x. destruct x; simpl; lia. }
    pose proof (Hle (bs_threads st)). pose proof (Hle (bs_threads st')).
    rewrite (mv_log _ _ _ _ _ _ _ Hm), inflight_app in Hfl.
    pose proof (inv_flight _ Hinv). pose proof (inv_sem _ Hinv). pose proof (inv_cap _ Hinv). lia.
Qed.

Lemma step_inv st st' :
  Inv st -> step env c b base st = Some st' ->
  Inv st' /\ total todo (bs_threads st') < total todo (bs_threads st).
Proof.
  intros Hinv H. unfold step in H.
  pose proof (observe_inv st Hinv) as Hinv'. destruct (observe_same st) as (Hts & _).
  rewrite <- Hts. set (o := observe env base st) in *. clearbody o. clear Hinv Hts st.
  destruct (choose env b base o) as [i|] eqn:Hc; [|done]. apply (inj Some) in H as <-.
  pose proof (choose_runnable _ _ Hc) as Hr.
  destruct (bs_threads o !! i) as [t|] eqn:Ht; [|unfold runnable in Hr; by rewrite Ht in Hr].
  destruct (inv_thread _ Hinv' _ _ Ht) as (tgt & Htgt & Hti). rewrite Htgt. simpl.
  destruct (advance_spec o i t tgt Ht Hr Hti) as (t' & evs & Hm).
  { intros Hh. pose proof (total_lookup hold _ _ _ Ht). rewrite (inv_sem _ Hinv'). lia. }
  split; [by eapply moved_inv|].
  rewrite (mv_threads _ _ _ _ _ _ _ Hm). pose proof (total_insert todo _ _ _ t' Ht).
  pose proof (mv_todo _ _ _ _ _ _ _ Hm). lia.
Qed.

Definition is_done (t : thread) : Prop := exists tr, t = TDone tr.

(** No deadlock: while a thread is not done, some thread can move. *)
Lemma step_none st :
  Inv st -> b_Targets b <> [] -> step env c b base st = None -> Forall is_done (bs_threads st).
Proof.
  intros Hinv Hne H. unfold step in H.
  pose proof (observe_inv st Hinv) as Hinv'. destruct (observe_same st) as (Hts & _).
  rewrite <- Hts. set (o := observe env base st) in *. clearbody o. clear Hinv Hts st.
  destruct (choose env b base o) as [i|] eqn:Hc; [done|]. clear H. unfold choose in Hc.
  set (r := filter _ _) in Hc. assert (Hr : r = []).
  { destruct r as [|x r']; [done|]. apply lookup_ge_None in Hc. exfalso.
    pose proof (Nat.mod_upper_bound (env_pick env (base ++ bs_log o)) (length (x :: r')) ltac:(done)). lia. }
  assert (Hno : forall i t, bs_threads o !! i = Some t -> runnable b o i = false).
  { intros i t Ht. destruct (runnable b o i) eqn:E; [|done].
    assert (Hin : i ∈ r); [|rewrite Hr in Hin; inversion Hin]. apply list_elem_of_filter. split; [done|].
    apply list_elem_of_In, List.in_seq. apply lookup_lt_Some in Ht. lia. }
  assert (Hh : total hold (bs_threads o) = 0).
  { assert (Hall : forall i t, bs_threads o !! i = Some t -> hold t = 0).
    { intros i t Ht. pose proof (Hno i t Ht) as Hx. unfold runnable in Hx. rewrite Ht in Hx. by destruct t. }
    revert Hall. generalize (bs_threads o). clear. intros l. unfold total.
    induction l as [|x l IH]; intros Hall; simpl; [done|].
    rewrite (Hall 0 x), IH; [done| |done]. intros i t Ht. by apply (Hall (S i)). }
  assert (Hmc : 0 < maxConc b).
  { unfold maxConc. destruct (b_Targets b) as [|x l]; [done|].
    destruct (Z.leb_spec (b_MaxConcurrency b) 0), (Z.ltb_spec (Z.of_nat (length (x :: l))) (b_MaxConcurrency b));
      simpl; lia. }
  apply Forall_lookup. intros i t Ht. pose proof (Hno i t Ht) as Hx.
  unfold runnable in Hx. rewrite Ht in Hx. destruct t; try done; [|by eexists].
  rewrite (inv_sem _ Hinv'), Hh, (proj2 (Nat.ltb_lt 0 _)) in Hx by done. done.
Qed.

Lemma drive_inv fuel st : Inv st -> Inv (drive env c b base fuel st).
Proof.
  revert st. induction fuel as [|fuel IH]; intros st H; simpl; [done|].
  destruct (step env c b base st) eqn:E; [|done]. apply IH. by eapply step_inv.
Qed.

Lemma drive_done fuel st :
  Inv st -> b_Targets b <> [] -> total todo (bs_threads st) <= fuel ->
  Forall is_done (bs_threads (drive env c b base fuel st)).
Proof.
  intros Hinv Hne. revert st Hinv. induction fuel as [|fuel IH]; intros st Hinv Hle; simpl.
  - apply Forall_lookup. intros i t Ht. pose proof (total_lookup todo _ _ _ Ht).
    assert (todo t = 0) by lia. destruct t; simpl in *; try lia. by eexists.
  - destruct (step env c b base st) as [st'|] eqn:E; [|by apply step_none].
    destruct (step_inv _ _ Hinv E). apply IH; [done|lia].
Qed.

Lemma initial_inv pctx : Inv (initial b pctx) /\ total todo (bs_threads (initial b pctx)) = batchFuel b.
Proof.
  unfold initial, batchFuel.
  assert (Ht : forall f, total f (replicate (length (b_Targets b)) TWait) = length (b_Targets b) * f TWait).
  { intros f. unfold total. induction (length (b_Targets b)); simpl in *; lia. }
  split; [constructor; simpl|simpl; rewrite Ht; done].
  - by rewrite length_replicate.
  - intros i t [-> Hi]%lookup_replicate. destruct (lookup_lt_is_Some_2 _ _ Hi) as [tgt Htgt]. by exists tgt.
  - by rewrite Ht, Nat.mul_0_r.
  - lia.
  - clear. generalize (length (b_Targets b)). intros n. induction n as [|n IH]; simpl; [done|exact IH].
  - by rewrite Ht, Nat.mul_0_r.
  - intros l [? Hl]. destruct l; [simpl; lia|done].
Qed.

End invariant.

(** ** What the controller promises: the abstract run *)

(** A batch's outcome and its log: one result per target in plan order, each the
    record of the callbacks made for it; every callback made has returned; never
    more callbacks in flight than the cap; the batch's error is the first target
    error in plan order. *)
Record batch_record (c : Controller) (b : Batch) (br : BatchResult) (log : list event) : Prop := {
  rec_index : br_BatchIndex br = b_Index b;
  rec_targets : map tr_Target (br_TargetResults br) = b_Targets b;
  rec_target : forall i tr, br_TargetResults br !! i = Some tr ->
    dispatched i log = map fst (returned i log) /\
    exists rest, b_Steps b = map fst (returned i log) ++ rest /\
      done_shape (isAbort (c_targetErrorPolicy c)) tr (returned i log) rest;
  rec_cap : forall l, l `prefix_of` log -> (inflight l <= Z.of_nat (maxConc b))%Z;
  rec_error : br_Error br = firstTargetError (br_TargetResults br) }.

Lemma firstTargetError_none trs :
  firstTargetError trs = None <-> forall tr, tr ∈ trs -> tr_Error tr = None.
Proof.
  induction trs as [|tr trs IH]; simpl; [set_solver|]. destruct (tr_Error tr) eqn:E.
  - split; [done|]. intros H. rewrite H in E; [done|set_solver].
  - rewrite IH. set_solver.
Qed.

Lemma executeBatch_record env c b base pctx :
  let '(br, _, log) := executeBatch env c b base pctx in batch_record c b br log.
Proof.
  unfold executeBatch. destruct (b_Targets b) as [|t0 ts] eqn:Hb.
  { constructor; simpl; [done|by rewrite Hb| done | |done]. intros l [? Hl]. destruct l; [simpl; lia|done]. }
  destruct (initial_inv c b pctx) as [Hi Hfuel].
  pose proof (drive_inv env c b base (batchFuel b) _ Hi) as Hinv.
  pose proof (drive_done env c b base (batchFuel b) _ Hi ltac:(by rewrite Hb) ltac:(lia)) as Hdone.
  set (st := drive env c b base (batchFuel b) (initial b pctx)) in *. clearbody st.
  rewrite Forall_lookup in Hdone.
  constructor; simpl; [done| | |apply Hinv|].
  - apply list_eq. intros i. rewrite !list_lookup_fmap.
    destruct (bs_threads st !! i) as [t|] eqn:Ht; simpl.
    + destruct (inv_thread _ _ _ Hinv _ _ Ht) as (tgt & Htgt & Hti).
      destruct (Hdone _ _ Ht) as [tr ->]. destruct Hti as (Htr & _). simpl. by rewrite Htr, Htgt.
    + symmetry. apply lookup_ge_None. rewrite <- (inv_len _ _ _ Hinv). by apply lookup_ge_None.
  - intros i tr Htr. rewrite list_lookup_fmap in Htr.
    destruct (bs_threads st !! i) as [t|] eqn:Ht; [|done]. apply (inj Some) in Htr. subst tr.
    destruct (inv_thread _ _ _ Hinv _ _ Ht) as (tgt & Htgt & Hti).
    destruct (Hdone _ _ Ht) as [tr ->]. apply Hti.
  - destruct (bs_failed st) eqn:Hf; [done|]. symmetry. apply firstTargetError_none.
    intros tr Hin. apply list_elem_of_In, List.in_map_iff in Hin as (t & <- & Hin%list_elem_of_In).
    rewrite (inv_failed _ _ _ Hinv) in Hf. apply list_elem_of_lookup in Hin as [i Ht].
    destruct (Hdone _ _ Ht) as [tr ->]. simpl. destruct (tr_Error tr) eqn:E; [|done].
    assert (existsb bad (bs_threads st) = true); [|congruence].
    apply existsb_elem. exists (TDone tr). split; [by apply list_elem_of_lookup; eauto|]. simpl.
    by rewrite E.
Qed.

(** The runs of [Execute] over the remaining batches: batches in plan order, one
    after the other, a failed batch being the last one under [PolicyAbort]; a run
    may also stop where the context is gone. *)
Inductive run_of (c : Controller) : list Batch -> list BatchResult -> list event -> Prop :=
| run_end bs : run_of c bs [] []
| run_skip b bs e :
    run_of c (b :: bs)
      [MkBatchResult (b_Index b) [] (Some (EWrap ("batch " +:+ pretty (b_Index b) +:+ " skipped before start") e))] []
| run_batch b bs br log delay brs t :
    batch_record c b br log ->
    (delay = [] \/ delay = [EvDelay]) ->
    (br_Error br <> None -> c_batchErrorPolicy c = PolicyAbort -> brs = [] /\ t = []) ->
    run_of c bs brs t ->
    run_of c (b :: bs) (br :: brs) (EvBatch (b_Index b) :: log ++ delay ++ t).

Lemma executeLoop_run env c bs pctx h :
  let '(brs, _, h') := executeLoop env c bs pctx h in exists t, h' = h ++ t /\ run_of c bs brs t.
Proof.
  revert pctx h. induction bs as [|b bs IH]; intros pctx h; simpl.
  { exists []. rewrite app_nil_r. split; [done|constructor]. }
  destruct (pollCtx env pctx h) as [e|].
  { exists []. rewrite app_nil_r. split; [done|constructor]. }
  pose proof (executeBatch_record env c b (h ++ [EvBatch (b_Index b)]) None) as Hrec.
  destruct (executeBatch env c b _ None) as [[br pctx1] log].
  assert (Hlast : forall d, (d = [] \/ d = [EvDelay]) -> exists t,
    ((h ++ [EvBatch (b_Index b)]) ++ log) ++ d = h ++ t /\ run_of c (b :: bs) [br] t).
  { intros d Hd. exists (EvBatch (b_Index b) :: log ++ d ++ []). split.
    - rewrite app_nil_r. by rewrite <- !app_assoc.
    - by apply run_batch; [| |done|constructor]. }
  assert (Hlast0 : exists t, (h ++ [EvBatch (b_Index b)]) ++ log = h ++ t /\ run_of c (b :: bs) [br] t).
  { destruct (Hlast []) as (t & Ht & Hr); [by left|]. rewrite app_nil_r in Ht. eauto. }
  destruct (bool_decide (br_Error br <> None) && isAbort (c_batchErrorPolicy c)) eqn:Habort; [done|].
  assert (Hcont : br_Error br <> None -> c_batchErrorPolicy c = PolicyAbort -> False).
  { intros H1 H2. rewrite bool_decide_true, H2 in Habort by done. done. }
  destruct bs as [|b2 bs2] eqn:Hbs; [done|]. rewrite <- Hbs in *.
  set (nxt := if (0 <? c_interBatchDelay c)%Z then _ else _).
  assert (Hn : exists stop p d, nxt = (stop, p, ((h ++ [EvBatch (b_Index b)]) ++ log) ++ d) /\ (d = [] \/ d = [EvDelay])).
  { unfold nxt. destruct (0 <? c_interBatchDelay c)%Z; [eexists _, _, [EvDelay]; eauto|].
    eexists _, _, []. rewrite app_nil_r. eauto. }
  destruct Hn as (stop & p & d & -> & Hd). destruct stop; [by apply Hlast|].
  specialize (IH p (((h ++ [EvBatch (b_Index b)]) ++ log) ++ d)).
  destruct (executeLoop env c bs p _) as [[brs p'] h']. destruct IH as (t & -> & Hr).
  exists (EvBatch (b_Index b) :: log ++ d ++ t). split; [by rewrite <- !app_assoc|].
  apply run_batch; [done|done|by intros; exfalso; eauto|done].
Qed.

(** ** Undisturbed runs *)

(** An environment in which the context lives, every callback succeeds and every
    admission is granted. *)
Definition calm (env : Env) : Prop :=
  (forall h, env_ctx env h = None) /\ (forall h b t s, env_exec env h b t s = XOk) /\
  (forall h t, env_admit env h t = None).

Definition clean_thread (t : thread) : Prop :=
  match t with
  | TWait | TAdmit => True
  | TRun _ _ e | TExec _ _ _ e => e = None
  | TPanic _ => False
  | TDone tr => tr_Error tr = None
  end.

Definition clean (st : bstate) : Prop :=
  bs_pctx st = None /\ bs_bctx st = None /\ bs_failed st = false /\ Forall clean_thread (bs_threads st).

Lemma advance_clean env c b base st i tgt :
  calm env -> clean st -> clean (advance env c b base st i tgt).
Proof.
  intros (Hc & Hx & Ha) (Hp & Hb & Hf & Ht). unfold advance, executeTarget.
  destruct (bs_threads st !! i) as [t|] eqn:Hi; [|done].
  assert (Hct : clean_thread t) by (rewrite Forall_lookup in Ht; eauto).
  assert (Hmove : forall t' sem evs, clean_thread t' -> clean (move st i t' sem evs)).
  { intros t' sem evs Ht'. split_and!; try done. by apply Forall_insert. }
  assert (Hfin : forall tr a evs, tr_Error tr = None -> clean (finish c st i tr a evs)).
  { intros tr a evs Htr. unfold finish. rewrite Htr, Hp, Hb, Hf.
    split_and!; try done. by apply Forall_insert. }
  destruct t as [| |[|s rest] acc err|s rest acc err|m|tr]; simpl in Hct.
  - rewrite Hb. by destruct (Nat.ltb _ _); [apply Hmove|].
  - rewrite Ha. destruct (admissionTier c); by apply Hmove.
  - by apply Hfin.
  - rewrite Hb. by apply Hmove.
  - rewrite Hx. by apply Hmove.
  - done.
  - done.
Qed.

Lemma step_clean env c b base st st' :
  calm env -> clean st -> step env c b base st = Some st' -> clean st'.
Proof.
  intros Hcalm Hcl. unfold step.
  assert (Ho : observe env base st = st).
  { unfold observe. destruct (bs_pctx st); [done|]. by rewrite (proj1 Hcalm). }
  rewrite Ho. destruct (choose _ _ _ _); [|done]. intros [= <-]. by apply advance_clean.
Qed.

Lemma drive_clean env c b base fuel st :
  calm env -> clean st -> clean (drive env c b base fuel st).
Proof.
  intros Hcalm. revert st. induction fuel as [|fuel IH]; intros st Hcl; simpl; [done|].
  destruct (step _ _ _ _ st) eqn:E; [|done]. apply IH. by eapply step_clean.
Qed.

Lemma executeBatch_calm env c b base :
  calm env -> let '(br, pctx, _) := executeBatch env c b base None in br_Error br = None /\ pctx = None.
Proof.
  intros Hcalm. unfold executeBatch. destruct (b_Targets b) eqn:Hb; [done|].
  destruct (drive_clean env c b base (batchFuel b) (initial b None) Hcalm) as (Hp & _ & Hf & _).
  { split_and!; try done. simpl. apply Forall_replicate. done. }
  simpl. by rewrite Hf.
Qed.

Lemma executeLoop_calm env c bs h :
  calm env -> let '(brs, _, _) := executeLoop env c bs None h in
  length brs = length bs /\ Forall (fun br => br_Error br = None) brs.
Proof.
  intros Hcalm. revert h. induction bs as [|b bs IH]; intros h; simpl; [done|].
  rewrite (proj1 Hcalm). pose proof (executeBatch_calm env c b (h ++ [EvBatch (b_Index b)]) Hcalm) as Hbr.
  destruct (executeBatch _ _ _ _ None) as [[br p] log]. destruct Hbr as [Hbr ->].
  rewrite bool_decide_false by (rewrite Hbr; intros Hc; by apply Hc). simpl.
  destruct bs as [|b2 bs2] eqn:Hbs; [by split; [|repeat constructor]|]. rewrite <- Hbs in *.
  assert (Hgo : forall h', let '(brs, _, _) := executeLoop env c bs None h' in
    length (br :: brs) = S (length bs) /\ Forall (fun br => br_Error br = None) (br :: brs)).
  { intros h'. specialize (IH h'). destruct (executeLoop env c bs None h') as [[brs p'] h'']. simpl.
    destruct IH. split; [congruence|by constructor]. }
  destruct (0 <? c_interBatchDelay c)%Z; simpl; rewrite ?(proj1 Hcalm); simpl;
    match goal with |- context [executeLoop env c bs None ?h'] =>
      specialize (Hgo h'); destruct (executeLoop env c bs None h') as [[brs p'] h''] end; exact Hgo.
Qed.

(** ** Theorems *)

(** C35: [Execute] refines the abstract run: batches run in plan order and one
    after the other, every callback of a batch has returned before the next batch
    begins, each batch's results are, in plan target order, the record of the
    callbacks made for each target, and under [PolicyAbort] a failed batch is the
    last one started. *)
Theorem execute_refines_run (env : Env) (c : Controller) (p : Plan) (h : list event) :
  exists t, (Execute env c (Some p) true h).2 = h ++ t /\
            run_of c (p_Batches p) (Execute env c (Some p) true h).1 t.
Proof.
  unfold Execute. simpl. pose proof (executeLoop_run env c (p_Batches p) None h) as H.
  by destruct (executeLoop _ _ _ _ _) as [[brs ?] h'].
Qed.

(** At every moment of a batch, no more step callbacks are in flight than
    its [MaxConcurrency], nor than it has targets. *)
Theorem batch_concurrency_bound (env : Env) (c : Controller) (b : Batch) (base : list event)
    (pctx : option goerr) (br : BatchResult) (pctx' : option goerr) (log l : list event)
    (H : executeBatch env c b base pctx = (br, pctx', log)) (Hl : l `prefix_of` log) :
  (inflight l <= Z.of_nat (length (b_Targets b)))%Z /\
  ((0 < b_MaxConcurrency b)%Z -> (inflight l <= b_MaxConcurrency b)%Z).
Proof.
  pose proof (executeBatch_record env c b base pctx) as Hr. rewrite H in Hr.
  pose proof (rec_cap _ _ _ _ Hr l Hl) as Hcap. unfold maxConc in Hcap.
  destruct (Z.leb_spec (b_MaxConcurrency b) 0), (Z.ltb_spec (Z.of_nat (length (b_Targets b))) (b_MaxConcurrency b));
    simpl in Hcap; lia.
Qed.

Definition sampleBatch : Batch :=
  MkBatch 0 ["h1"; "h2"; "h3"]
    [MkPlanStep "a" "shell" "exec" [] None None None false ""; MkPlanStep "b" "shell" "exec" [] None None None false ""]
    2 None.

(** Callbacks succeed; the scheduler turns round the goroutines. *)
Definition calmEnv : Env :=
  MkEnv (fun _ => None) (fun _ _ _ _ => XOk) (fun _ _ => None) (fun h => length h) (fun _ => true).

Lemma batch_concurrency_bound_witness :
  exists br p log, executeBatch calmEnv (NewController []) sampleBatch [] None = (br, p, log) /\
    inflight (take 6 log) = 2%Z /\
    (inflight (take 6 log) <= Z.of_nat (length (b_Targets sampleBatch)))%Z /\
    ((0 < b_MaxConcurrency sampleBatch)%Z -> (inflight (take 6 log) <= b_MaxConcurrency sampleBatch)%Z).
Proof.
  eexists _, _, _. split; [vm_compute; reflexivity|]. split; [vm_compute; reflexivity|].
  eapply (batch_concurrency_bound calmEnv (NewController []) sampleBatch [] None);
    [vm_compute; reflexivity|]. eexists. symmetry. apply take_drop.
Defined.

(** What a batch's results say is what happened. For every target: the
    callbacks made form a prefix of the batch's steps, in order, each returned;
    unless one panicked, the step results are their record; under [PolicyAbort]
    nothing is called after a failure; and a target without error ran every step
    with success. *)
Theorem batch_results_are_the_record (env : Env) (c : Controller) (b : Batch) (base : list event)
    (pctx : option goerr) (br : BatchResult) (pctx' : option goerr) (log : list event) (i : nat) (tr : TargetResult)
    (H : executeBatch env c b base pctx = (br, pctx', log))
    (Hi : br_TargetResults br !! i = Some tr) :
  let ran := returned i log in
  b_Targets b !! i = Some (tr_Target tr) /\
  dispatched i log = map fst ran /\ dispatched i log `prefix_of` b_Steps b /\
  (Forall no_panic ran -> tr_StepResults tr = map toSR ran) /\
  (c_targetErrorPolicy c = PolicyAbort -> Forall ran_ok (removelast ran)) /\
  (tr_Error tr = None -> dispatched i log = b_Steps b /\ Forall ran_ok ran).
Proof.
  pose proof (executeBatch_record env c b base pctx) as Hr. rewrite H in Hr. intros ran.
  destruct (rec_target _ _ _ _ Hr i tr Hi) as (Hd & rest & Hb & Hab & Hshape). fold ran in Hd, Hb, Hab, Hshape.
  assert (Hlast : forall rs' s m, ran = rs' ++ [(s, XPanic m)] -> ~ Forall no_panic ran).
  { intros rs' s m Hran Hn. rewrite Hran in Hn. apply Forall_app in Hn as [_ Hn].
    apply Forall_cons in Hn as [Hn _]. by apply (Hn m). }
  split_and!.
  - by rewrite <- (rec_targets _ _ _ _ Hr), list_lookup_fmap, Hi.
  - done.
  - exists rest. by rewrite Hd.
  - intros Hn. destruct Hshape as [(rs' & s & m & Hran & _)|(_ & ? & _)]; [|done]. by destruct (Hlast _ _ _ Hran).
  - intros Ha. apply Hab. by rewrite Ha.
  - intros He. destruct Hshape as [(rs' & s & m & _ & _ & ?)|(_ & _ & Hok)]; [done|].
    destruct (Hok He) as [-> ?]. by rewrite Hd, Hb, app_nil_r.
Qed.

(** The second step fails on the second host. *)
Definition failingEnv : Env :=
  MkEnv (fun _ => None)
    (fun _ _ t s => if String.eqb t "h2" && String.eqb (ps_Name s) "b" then XErr (EText "boom") else XOk)
    (fun _ _ => None) (fun h => length h) (fun _ => true).

Lemma batch_results_are_the_record_witness :
  exists br p log tr, executeBatch failingEnv (NewController []) sampleBatch [] None = (br, p, log) /\
    br_TargetResults br !! 1 = Some tr /\ b_Targets sampleBatch !! 1 = Some (tr_Target tr) /\
    length (dispatched 1 log) = 2 /\ tr_Error tr <> None.
Proof.
  eexists _, _, _, _. split; [vm_compute; reflexivity|]. split; [reflexivity|].
  split; [|split; [reflexivity|discriminate]].
  eapply (fun br p log tr H Hi =>
    proj1 (batch_results_are_the_record failingEnv (NewController []) sampleBatch [] None br p log 1 tr H Hi));
    [vm_compute; reflexivity|reflexivity].
Defined.

(** A batch reports success only if every target ran every step, in order
    and with success; and the error it reports is the first target's in plan order. *)
Theorem batch_success_is_total (env : Env) (c : Controller) (b : Batch) (base : list event)
    (pctx : option goerr) (br : BatchResult) (pctx' : option goerr) (log : list event)
    (H : executeBatch env c b base pctx = (br, pctx', log)) :
  map tr_Target (br_TargetResults br) = b_Targets b /\
  br_Error br = firstTargetError (br_TargetResults br) /\
  (br_Error br = None -> forall i, i < length (b_Targets b) ->
     dispatched i log = b_Steps b /\ Forall ran_ok (returned i log)).
Proof.
  pose proof (executeBatch_record env c b base pctx) as Hr. rewrite H in Hr.
  split_and!; [apply Hr|apply Hr|]. intros He i Hi.
  rewrite <- (rec_targets _ _ _ _ Hr), length_map in Hi.
  destruct (lookup_lt_is_Some_2 _ _ Hi) as [tr Htr].
  destruct (rec_target _ _ _ _ Hr i tr Htr) as (Hd & rest & Hb & _ & Hshape).
  rewrite (rec_error _ _ _ _ Hr), firstTargetError_none in He.
  specialize (He tr ltac:(by apply list_elem_of_lookup; eauto)).
  destruct Hshape as [(rs' & s & m & _ & _ & ?)|(_ & _ & Hok)]; [done|].
  destruct (Hok He) as [-> ?]. by rewrite Hd, Hb, app_nil_r.
Qed.

Lemma batch_success_is_total_witness :
  exists br p log, executeBatch calmEnv (NewController []) sampleBatch [] None = (br, p, log) /\
    br_Error br = None /\ map tr_Target (br_TargetResults br) = ["h1"; "h2"; "h3"].
Proof.
  eexists _, _, _. split; [vm_compute; reflexivity|]. split; [reflexivity|].
  eapply (batch_success_is_total calmEnv (NewController []) sampleBatch [] None). vm_compute. reflexivity.
Defined.

(** Progress: when the context lives, every callback succeeds and admission is
    granted, every batch of the plan is executed, whatever the scheduling, the cap
    and the policies, and none reports an error. *)
Theorem execute_completes (env : Env) (c : Controller) (p : Plan) (h : list event) (Hcalm : calm env) :
  length (Execute env c (Some p) true h).1 = length (p_Batches p) /\
  Forall (fun br => br_Error br = None) (Execute env c (Some p) true h).1.
Proof.
  unfold Execute. simpl. pose proof (executeLoop_calm env c (p_Batches p) h Hcalm) as H.
  by destruct (executeLoop _ _ _ _ _) as [[brs ?] h'].
Qed.

Definition samplePlan : Plan :=
  MkPlan "id" "wf" [sampleBatch; MkBatch 1 ["h4"] (b_Steps sampleBatch) 0 None] 4 0 0 [] "" None None None None.

Lemma execute_completes_witness :
  length (Execute calmEnv (NewController [WithInterBatchDelay 5]) (Some samplePlan) true []).1 = 2 /\
  Forall (fun br => br_Error br = None) (Execute calmEnv (NewController [WithInterBatchDelay 5]) (Some samplePlan) true []).1.
Proof.
  apply (execute_completes calmEnv (NewController [WithInterBatchDelay 5]) samplePlan []).
  by repeat split.
Defined.

(** A recovered panic keeps the target's error but discards the results of the
    steps that had already run: two callbacks were made and returned, none is
    recorded. *)
Definition panickingEnv : Env :=
  MkEnv (fun _ => None)
    (fun _ _ _ s => if String.eqb (ps_Name s) "b" then XPanic "nil deref" else XOk)
    (fun _ _ => None) (fun h => length h) (fun _ => true).

Lemma batch_panic_discards_results :
  let '(br, _, log) := executeBatch panickingEnv (NewController []) sampleBatch [] None in
  map ps_Name (dispatched 0 log) = ["a"; "b"] /\
  tr_StepResults <$> (br_TargetResults br !! 0) = Some [].
Proof. vm_compute. split; reflexivity. Qed.

End Batch.
