(* ===== verification/Rollback.v ===== *)
(** * Rollback: the execution ledger and the rollback manager

    src/internal/rollback/ledger.go (which step ran on which target, failed
    there, was already compensated) and manager.go (reverse-order compensation
    under a whitelist, dry run, the verdict). The callbacks the manager makes
    (an undo step, a snapshot restore) are the calls of a [Concur.prog], so the
    serial path and the bounded concurrent path run the same [rollbackTarget].
    Durations are not modelled. *)

From Stdlib Require Import ZArith Lia.
From stdpp Require Import base gmap strings list sorting.
From S2P Require Import Prelude Dsl Plan Concur Batch.
Import Plan Concur.
Open Scope string_scope.
Open Scope list_scope.

Module Rollback.

(** ** Execution ledger *)

(** [map[string]map[string]bool] whose values are only ever [true]. *)
Abbreviation marks := (gmap string (gset string)).

Definition marked (m : marks) (target step : string) : bool :=
  match m !! target with Some s => bool_decide (step ∈ s) | None => false end.
Definition mark (m : marks) (target step : string) : marks :=
  <[target := {[step]} ∪ default ∅ (m !! target)]> m.

Record ExecutionLedger := MkLedger {
  l_ran : marks;
  l_unknown : marks;
  l_compensated : marks;
  l_uncertain : marks }.

Definition NewExecutionLedger : ExecutionLedger := MkLedger ∅ ∅ ∅ ∅.

Definition MarkRan (l : ExecutionLedger) (target step : string) : ExecutionLedger :=
  if String.eqb target "" || String.eqb step "" then l
  else MkLedger (mark (l_ran l) target step) (l_unknown l)
         (match l_compensated l !! target with
          | Some s => <[target := s ∖ {[step]}]> (l_compensated l)
          | None => l_compensated l
          end) (l_uncertain l).

Definition MarkCompensated (l : ExecutionLedger) (target step : string) : ExecutionLedger :=
  if String.eqb target "" || String.eqb step "" then l
  else MkLedger (l_ran l) (l_unknown l) (mark (l_compensated l) target step) (l_uncertain l).

Definition MarkCompensationUncertain (l : ExecutionLedger) (target step : string) : ExecutionLedger :=
  if String.eqb target "" || String.eqb step "" then l
  else MkLedger (l_ran l) (l_unknown l) (l_compensated l) (mark (l_uncertain l) target step).

Definition MarkUnknown (l : ExecutionLedger) (target step : string) : ExecutionLedger :=
  if String.eqb target "" || String.eqb step "" then l
  else let l := MarkRan l target step in
       MkLedger (l_ran l) (mark (l_unknown l) target step) (l_compensated l) (l_uncertain l).

(** The readers accept a nil ledger. *)
Definition AlreadyCompensated (l : option ExecutionLedger) (target step : string) : bool :=
  match l with Some l => marked (l_compensated l) target step | None => false end.
Definition CompensationUncertain (l : option ExecutionLedger) (target step : string) : bool :=
  match l with Some l => marked (l_uncertain l) target step | None => false end.
Definition Ran (l : option ExecutionLedger) (target step : string) : bool :=
  match l with Some l => marked (l_ran l) target step | None => false end.
Definition SideEffectsUnknown (l : option ExecutionLedger) (target step : string) : bool :=
  match l with Some l => marked (l_unknown l) target step | None => false end.

Definition countMarks (m : marks) : nat := map_fold (fun _ s n => size s + n) 0 m.
Definition RanCount (l : option ExecutionLedger) : nat :=
  match l with Some l => countMarks (l_ran l) | None => 0 end.
Definition CompensatedCount (l : option ExecutionLedger) : nat :=
  match l with Some l => countMarks (l_compensated l) | None => 0 end.

Definition ledgerStep (target : string) (l : ExecutionLedger) (sr : Batch.StepResult) : ExecutionLedger :=
  match Batch.sr_Error sr with
  | Some _ => MarkUnknown l target (Batch.sr_StepName sr)
  | None => MarkRan l target (Batch.sr_StepName sr)
  end.
Definition ledgerTarget (l : ExecutionLedger) (tr : Batch.TargetResult) : ExecutionLedger :=
  foldl (ledgerStep (Batch.tr_Target tr)) l (Batch.tr_StepResults tr).
Definition ledgerBatch (l : ExecutionLedger) (br : option Batch.BatchResult) : ExecutionLedger :=
  match br with
  | None => l
  | Some br => foldl ledgerTarget l (Batch.br_TargetResults br)
  end.
Definition LedgerFromBatchResults (brs : list (option Batch.BatchResult)) : ExecutionLedger :=
  foldl ledgerBatch NewExecutionLedger brs.

(** ** Results *)

Record StepRollbackResult := MkStepRB {
  OrigStepName : string;
  RollbackStepName : string;
  sr_Module : string;
  sr_Action : string;
  Skipped : bool;
  NotExecuted : bool;
  sr_AlreadyCompensated : bool;
  sr_SideEffectsUnknown : bool;
  DryRun : bool;
  SkipReason : string;
  sr_Error : option goerr }.

Record TargetRollbackResult := MkTargetRB { rt_Target : string; rt_StepResults : list StepRollbackResult }.
Record BatchRollbackResult := MkBatchRB { rb_BatchIndex : Z; rb_TargetResults : list TargetRollbackResult }.

Record RollbackResult := MkRollbackResult {
  RunID : string;
  BatchResults : list BatchRollbackResult;
  Success : bool;
  RequiredCompensations : nat;
  CompletedCompensations : nat;
  UnknownSideEffects : nat;
  PartialRollback : bool;
  rr_Error : option goerr }.

(** ** Manager *)

Record Manager := MkManager {
  m_whitelist : gset string;
  m_whitelistAll : bool;
  m_concurrency : Z;
  m_stopOnError : bool;
  m_snapshotRestore : bool;  (** a restore callback is wired *)
  m_runID : string;
  m_dryRun : bool }.

Definition WithWhitelist (actions : list string) (m : Manager) : Manager :=
  MkManager (list_to_set actions ∪ m_whitelist m) (m_whitelistAll m) (m_concurrency m) (m_stopOnError m)
    (m_snapshotRestore m) (m_runID m) (m_dryRun m).
Definition WithWhitelistAll (m : Manager) : Manager :=
  MkManager (m_whitelist m) true (m_concurrency m) (m_stopOnError m) (m_snapshotRestore m) (m_runID m) (m_dryRun m).
Definition WithConcurrency (n : Z) (m : Manager) : Manager :=
  MkManager (m_whitelist m) (m_whitelistAll m) (if (0 <? n)%Z then n else m_concurrency m) (m_stopOnError m)
    (m_snapshotRestore m) (m_runID m) (m_dryRun m).
Definition WithStopOnError (b : bool) (m : Manager) : Manager :=
  MkManager (m_whitelist m) (m_whitelistAll m) (m_concurrency m) b (m_snapshotRestore m) (m_runID m) (m_dryRun m).
Definition WithDryRun (on : bool) (m : Manager) : Manager :=
  MkManager (m_whitelist m) (m_whitelistAll m) (m_concurrency m) (m_stopOnError m) (m_snapshotRestore m) (m_runID m) on.
Definition WithSnapshotRestore (fn : bool) (m : Manager) : Manager :=
  MkManager (m_whitelist m) (m_whitelistAll m) (m_concurrency m) (m_stopOnError m) fn (m_runID m) (m_dryRun m).
Definition SetRunID (runID : string) (m : Manager) : Manager :=
  MkManager (m_whitelist m) (m_whitelistAll m) (m_concurrency m) (m_stopOnError m) (m_snapshotRestore m) runID (m_dryRun m).
Definition WithRunID : string -> Manager -> Manager := SetRunID.

Definition NewManager (opts : list (Manager -> Manager)) : Manager :=
  foldl (fun m opt => opt m) (MkManager ∅ false 1 true false "" false) opts.

Definition allows (m : Manager) (moduleAction : string) : bool :=
  if m_whitelistAll m then true else bool_decide (moduleAction ∈ m_whitelist m).

Definition Whitelist (m : Manager) : list string := merge_sort String.le (elements (m_whitelist m)).

(** The calls a rollback makes: an undo step through [execFn], a snapshot
    restore through the wired callback. The answer is the error returned. *)
Inductive call :=
| CUndo (target : string) (step : Dsl.Step)
| CRestore (runID target : string) (ps : PlanStep).

Definition rprog := prog call (option goerr).

Definition ErrStepNotWhitelisted := "rollback step not whitelisted".

Definition skipped (orig name modul action reason : string) (notExecuted already unknown dry : bool) : StepRollbackResult :=
  MkStepRB orig name modul action true notExecuted already unknown dry reason None.

(** [hasExec] is [execFn != nil]. *)
Definition executeRollbackStep (m : Manager) (target origStepName : string) (rbStep : Dsl.Step) (hasExec : bool)
    : rprog StepRollbackResult :=
  let key := Dsl.st_Module rbStep +:+ "." +:+ Dsl.st_Action rbStep in
  let base := skipped origStepName (Dsl.st_Name rbStep) (Dsl.st_Module rbStep) (Dsl.st_Action rbStep) in
  if negb (allows m key) then
    Ret (base (key +:+ " not in rollback whitelist: " +:+ ErrStepNotWhitelisted) false false false false)
  else if negb hasExec then Ret (base "no execute function" false false false true)
  else Ask (CUndo target rbStep) (fun err =>
    Ret (MkStepRB origStepName (Dsl.st_Name rbStep) (Dsl.st_Module rbStep) (Dsl.st_Action rbStep)
           false false false false false ""
           (match err with
            | None => None
            | Some e => Some (EWrap ("rollback " +:+ key +:+ " on " +:+ target) e)
            end))).

Definition restoreSnapshotStep (m : Manager) (target : string) (ps : PlanStep) : rprog StepRollbackResult :=
  let name := "snapshot:" +:+ ps_Name ps in
  let base := skipped (ps_Name ps) name (ps_Module ps) (ps_Action ps) in
  if negb (m_snapshotRestore m) then Ret (base "snapshot restore not wired" false false false false)
  else if m_dryRun m then Ret (base "dry-run: snapshot restore not applied" false false false true)
  else if String.eqb (m_runID m) "" then Ret (base "snapshot restore without run id" false false false false)
  else Ask (CRestore (m_runID m) target ps) (fun err =>
    Ret (MkStepRB (ps_Name ps) name (ps_Module ps) (ps_Action ps) false false false false false ""
           (match err with
            | None => None
            | Some e => Some (EWrap ("rollback snapshot of " +:+ ps_Module ps +:+ "." +:+ ps_Action ps
                                     +:+ " on " +:+ target) e)
            end))).

Definition compensationRepeatable (ps : PlanStep) : bool :=
  match ps_Rollback ps with
  | None => true
  | Some rb => if String.eqb (Dsl.rb_Strategy rb) "snapshot" then true
               else forallb Dsl.st_Idempotent (Dsl.rb_Steps rb)
  end.

Definition withUnknown (unknown : bool) (sr : StepRollbackResult) : StepRollbackResult :=
  MkStepRB (OrigStepName sr) (RollbackStepName sr) (sr_Module sr) (sr_Action sr) (Skipped sr) (NotExecuted sr)
    (sr_AlreadyCompensated sr) unknown (DryRun sr) (SkipReason sr) (sr_Error sr).

(** The undo steps of one plan step, in declared order. *)
Fixpoint undoSteps (m : Manager) (target orig : string) (unknown hasExec : bool) (steps : list Dsl.Step)
    : rprog (list StepRollbackResult) :=
  match steps with
  | [] => Ret []
  | s :: rest =>
      pbind (executeRollbackStep m target orig s hasExec) (fun sr =>
      pbind (undoSteps m target orig unknown hasExec rest) (fun srs => Ret (withUnknown unknown sr :: srs)))
  end.

(** The body of [rollbackTarget]'s loop for one plan step. *)
Definition rollbackPlanStep (m : Manager) (target : string) (ps : PlanStep) (hasExec : bool)
    (ledger : option ExecutionLedger) : rprog (list StepRollbackResult) :=
  let skip reason ne ac := Ret [skipped (ps_Name ps) "" "" "" reason ne ac false false] in
  let hasLedger := match ledger with Some _ => true | None => false end in
  if hasLedger && AlreadyCompensated ledger target (ps_Name ps) then
    skip "already compensated by an earlier rollback" false true
  else if hasLedger && negb (Ran ledger target (ps_Name ps)) then
    skip "forward step not executed on this target" true false
  else if hasLedger && CompensationUncertain ledger target (ps_Name ps) && negb (compensationRepeatable ps) then
    skip "refusing to re-run: a prior compensation is on record but cannot be ordered against this execution, and the rollback step does not declare idempotent: true" false false
  else
    let unknown := hasLedger && SideEffectsUnknown ledger target (ps_Name ps) in
    match ps_Rollback ps with
    | None => Ret [skipped (ps_Name ps) "" "" "" "no rollback spec" false false unknown false]
    | Some rb =>
        if String.eqb (Dsl.rb_Strategy rb) "snapshot"
        then pbind (restoreSnapshotStep m target ps) (fun sr => Ret [withUnknown unknown sr])
        else undoSteps m target (ps_Name ps) unknown hasExec (Dsl.rb_Steps rb)
    end.

(** Over the steps in the order given. *)
Fixpoint rollbackSteps (m : Manager) (target : string) (steps : list PlanStep) (hasExec : bool)
    (ledger : option ExecutionLedger) : rprog (list StepRollbackResult) :=
  match steps with
  | [] => Ret []
  | ps :: rest =>
      pbind (rollbackPlanStep m target ps hasExec ledger) (fun srs =>
      pbind (rollbackSteps m target rest hasExec ledger) (fun srs' => Ret (srs ++ srs')))
  end.

Definition rollbackTarget (m : Manager) (target : string) (steps : list PlanStep) (hasExec : bool)
    (ledger : option ExecutionLedger) : rprog TargetRollbackResult :=
  pbind (rollbackSteps m target (reverse steps) hasExec ledger) (fun srs => Ret (MkTargetRB target srs)).

(** The environment: what each call returns and how the pool is scheduled. *)
Record REnv := MkREnv {
  re_answer : list (entry call (option goerr)) -> call -> option goerr;
  re_pick : nat -> list (entry call (option goerr)) -> nat }.

Definition undoCount (ps : PlanStep) : nat :=
  match ps_Rollback ps with Some rb => S (length (Dsl.rb_Steps rb)) | None => 0 end.
Definition rollbackDepth (steps : list PlanStep) : nat := sum_list_with undoCount steps.

Definition rollbackBatch (env : REnv) (m : Manager) (b : Batch) (hasExec : bool) (ledger : option ExecutionLedger)
    (h : list (entry call (option goerr))) : BatchRollbackResult * list (entry call (option goerr)) :=
  match b_Targets b with
  | [] => (MkBatchRB (b_Index b) [], h)
  | _ =>
      let ps := map (fun target => rollbackTarget m target (b_Steps b) hasExec ledger) (b_Targets b) in
      if (m_concurrency m <=? 1)%Z then
        let '(trs, h') := runAll (re_answer env) 0 ps h in (MkBatchRB (b_Index b) trs, h')
      else
        let '(trs, h') := fanout (rollbackDepth (b_Steps b)) (Z.to_nat (m_concurrency m))
                            (re_answer env) (re_pick env) ps h in
        (MkBatchRB (b_Index b) (default [] trs), h')
  end.

(** ** The verdict *)

Record tally := MkTally { t_required : nat; t_completed : nat; t_unknown : nat; t_firstErr : option goerr }.

Definition tallyStep (hasLedger : bool) (t : tally) (sr : StepRollbackResult) : tally :=
  let u := if sr_SideEffectsUnknown sr then S (t_unknown t) else t_unknown t in
  if NotExecuted sr || sr_AlreadyCompensated sr || (negb hasLedger && Skipped sr)
  then MkTally (t_required t) (t_completed t) u (t_firstErr t)
  else if Skipped sr then MkTally (S (t_required t)) (t_completed t) u (t_firstErr t)
  else match sr_Error sr with
       | Some e => MkTally (S (t_required t)) (t_completed t) u
                     (match t_firstErr t with None => Some e | Some x => Some x end)
       | None => MkTally (S (t_required t)) (S (t_completed t)) u (t_firstErr t)
       end.

Definition stepResultsOf (br : BatchRollbackResult) : list StepRollbackResult :=
  concat (map rt_StepResults (rb_TargetResults br)).

Definition tallyBatch (hasLedger : bool) (t : tally) (br : BatchRollbackResult) : tally :=
  foldl (tallyStep hasLedger) t (stepResultsOf br).

(** The walk over the batches in the order given, until [stopRequested]. *)
Fixpoint rollbackLoop (env : REnv) (m : Manager) (batches : list Batch) (hasExec : bool)
    (ledger : option ExecutionLedger) (t : tally) (h : list (entry call (option goerr)))
    : list BatchRollbackResult * tally * list (entry call (option goerr)) :=
  match batches with
  | [] => ([], t, h)
  | b :: rest =>
      let '(br, h1) := rollbackBatch env m b hasExec ledger h in
      let t1 := tallyBatch (match ledger with Some _ => true | None => false end) t br in
      if bool_decide (t_firstErr t1 <> None) && m_stopOnError m then ([br], t1, h1)
      else let '(brs, t2, h2) := rollbackLoop env m rest hasExec ledger t1 h1 in (br :: brs, t2, h2)
  end.

Definition verdict (runID : string) (brs : list BatchRollbackResult) (t : tally) : RollbackResult :=
  let success := bool_decide (t_firstErr t = None) && Nat.eqb (t_required t) (t_completed t) in
  MkRollbackResult runID brs success (t_required t) (t_completed t) (t_unknown t)
    (negb success && Nat.ltb 0 (t_completed t)) (t_firstErr t).

Definition RollbackWithLedger (env : REnv) (m : Manager) (p : option Plan) (hasExec : bool)
    (ledger : option ExecutionLedger) (h : list (entry call (option goerr)))
    : RollbackResult * list (entry call (option goerr)) :=
  match p with
  | None => (MkRollbackResult (m_runID m) [] false 0 0 0 false (Some (EText "rollback: plan is nil")), h)
  | Some p =>
      let '(brs, t, h') := rollbackLoop env m (reverse (p_Batches p)) hasExec ledger (MkTally 0 0 0 None) h in
      (verdict (m_runID m) brs t, h')
  end.

Definition Rollback (env : REnv) (m : Manager) (p : option Plan) (hasExec : bool)
    (h : list (entry call (option goerr))) : RollbackResult * list (entry call (option goerr)) :=
  RollbackWithLedger env m p hasExec None h.

(** ** Helpers of the result tree *)

Definition IsSkipped (sr : StepRollbackResult) : bool := Skipped sr.
Definition HasError (sr : StepRollbackResult) : bool :=
  negb (Skipped sr) && bool_decide (sr_Error sr <> None).

Definition NotWhitelisted (sr : StepRollbackResult) : bool :=
  Skipped sr && Contains (SkipReason sr) ErrStepNotWhitelisted.

(** ** What a rollback owes, step by step *)

(** The ledger asks for the compensation of [ps] on [target]. *)
Definition due (ledger : option ExecutionLedger) (target : string) (ps : PlanStep) : bool :=
  match ledger with
  | None => true
  | Some _ =>
      negb (AlreadyCompensated ledger target (ps_Name ps)) && Ran ledger target (ps_Name ps) &&
      negb (CompensationUncertain ledger target (ps_Name ps) && negb (compensationRepeatable ps))
  end.

Definition undoAllowed (m : Manager) (hasExec : bool) (s : Dsl.Step) : bool :=
  allows m (Dsl.st_Module s +:+ "." +:+ Dsl.st_Action s) && hasExec.

(** The calls owed for [ps] on [target]: nothing unless due; the snapshot restore
    if that is the strategy and it is wired, not a preview and attributable; the
    whitelisted undo steps in declared order otherwise. *)
Definition callsOf (m : Manager) (hasExec : bool) (ledger : option ExecutionLedger) (target : string)
    (ps : PlanStep) : list call :=
  if negb (due ledger target ps) then []
  else match ps_Rollback ps with
       | None => []
       | Some rb =>
           if String.eqb (Dsl.rb_Strategy rb) "snapshot" then
             if m_snapshotRestore m && negb (m_dryRun m) && negb (String.eqb (m_runID m) "")
             then [CRestore (m_runID m) target ps] else []
           else map (CUndo target) (filter (fun s => undoAllowed m hasExec s = true) (Dsl.rb_Steps rb))
       end.

(** A step result that does not count against the verdict when evidence is at hand. *)
Definition settled (sr : StepRollbackResult) : Prop :=
  NotExecuted sr = true \/ sr_AlreadyCompensated sr = true \/ (Skipped sr = false /\ sr_Error sr = None).

Lemma settled_withUnknown u sr : settled (withUnknown u sr) <-> settled sr.
Proof. done. Qed.

Lemma runs_undoStep m target orig s hasExec t sr :
  runs (executeRollbackStep m target orig s hasExec) t sr ->
  map fst t = (if undoAllowed m hasExec s then [CUndo target s] else []) /\
  (settled sr -> t = [(CUndo target s, None)]).
Proof.
  unfold executeRollbackStep, undoAllowed. destruct (allows m _); simpl.
  - destruct hasExec; simpl.
    + inversion 1 as [|c k r t' a Hk]; subst. apply runs_ret_inv in Hk as [-> ->].
      split; [done|]. intros [?|[?|[_ Herr]]]; [done|done|]. by destruct r.
    + intros [-> ->]%runs_ret_inv. split; [done|]. intros [?|[?|[? _]]]; done.
  - intros [-> ->]%runs_ret_inv. split; [done|]. intros [?|[?|[? _]]]; done.
Qed.

Lemma runs_undoSteps m target orig unknown hasExec steps t srs :
  runs (undoSteps m target orig unknown hasExec steps) t srs ->
  map fst t = map (CUndo target) (filter (fun s => undoAllowed m hasExec s = true) steps) /\
  (Forall settled srs -> t = map (fun s => (CUndo target s, None)) steps).
Proof.
  revert t srs. induction steps as [|s steps IH]; intros t srs H; simpl in H.
  { by apply runs_ret_inv in H as [-> ->]. }
  apply runs_bind in H as (t1 & t2 & sr & -> & H1 & H).
  apply runs_bind in H as (t3 & t4 & srs' & -> & H2 & H).
  apply runs_ret_inv in H as [-> ->]. rewrite app_nil_r.
  destruct (runs_undoStep _ _ _ _ _ _ _ H1) as [Hc1 Hs1]. destruct (IH _ _ H2) as [Hc2 Hs2]. split.
  - rewrite map_app, Hc1, Hc2, filter_cons. destruct (undoAllowed m hasExec s); simpl; [|done]. done.
  - intros [Ha Hb]%Forall_cons. simpl. rewrite settled_withUnknown in Ha. by rewrite (Hs1 Ha), (Hs2 Hb).
Qed.

Lemma runs_restore m target ps t sr :
  runs (restoreSnapshotStep m target ps) t sr ->
  map fst t = (if m_snapshotRestore m && negb (m_dryRun m) && negb (String.eqb (m_runID m) "")
               then [CRestore (m_runID m) target ps] else []) /\
  (settled sr -> t = [(CRestore (m_runID m) target ps, None)]).
Proof.
  unfold restoreSnapshotStep. destruct (m_snapshotRestore m), (m_dryRun m), (String.eqb (m_runID m) ""); simpl;
    try (intros [-> ->]%runs_ret_inv; split; [done|]; by intros [?|[?|[? _]]]).
  inversion 1 as [|c k r t' a Hk]; subst. apply runs_ret_inv in Hk as [-> ->].
  split; [done|]. intros [?|[?|[_ Herr]]]; [done|done|]. by destruct r.
Qed.

(** Compensated: a rollback is declared and every call it stands for returned
    without error. *)
Definition compensated_by (m : Manager) (target : string) (ps : PlanStep) (t : list (call * option goerr)) : Prop :=
  exists rb, ps_Rollback ps = Some rb /\
    (if String.eqb (Dsl.rb_Strategy rb) "snapshot" then t = [(CRestore (m_runID m) target ps, None)]
     else t = map (fun s => (CUndo target s, None)) (Dsl.rb_Steps rb)).

Lemma runs_planStep m target ps hasExec ledger t srs :
  runs (rollbackPlanStep m target ps hasExec ledger) t srs ->
  map fst t = callsOf m hasExec ledger target ps /\
  (Forall settled srs -> due ledger target ps = true -> compensated_by m target ps t) /\
  (Forall settled srs -> forall l, ledger = Some l -> Ran ledger target (ps_Name ps) = true ->
     AlreadyCompensated ledger target (ps_Name ps) = false -> due ledger target ps = true).
Proof.
  intros H. unfold rollbackPlanStep in H.
  assert (Hbody : forall unknown,
    runs (match ps_Rollback ps with
          | None => Ret [skipped (ps_Name ps) "" "" "" "no rollback spec" false false unknown false]
          | Some rb => if String.eqb (Dsl.rb_Strategy rb) "snapshot"
              then pbind (restoreSnapshotStep m target ps) (fun sr => Ret [withUnknown unknown sr])
              else undoSteps m target (ps_Name ps) unknown hasExec (Dsl.rb_Steps rb) end) t srs ->
    due ledger target ps = true ->
    map fst t = callsOf m hasExec ledger target ps /\ (Forall settled srs -> compensated_by m target ps t)).
  { intros unknown Hr Hdue. unfold callsOf, compensated_by. rewrite Hdue. simpl. destruct (ps_Rollback ps) as [rb|].
    - destruct (String.eqb (Dsl.rb_Strategy rb) "snapshot") eqn:Hs.
      + apply runs_bind in Hr as (t1 & t2 & sr & -> & H1 & [-> ->]%runs_ret_inv).
        rewrite app_nil_r. destruct (runs_restore _ _ _ _ _ H1) as [-> Hset]. split; [done|].
        intros [Ha _]%Forall_cons. rewrite settled_withUnknown in Ha. exists rb. rewrite Hs. auto.
      + destruct (runs_undoSteps _ _ _ _ _ _ _ _ Hr) as [-> Hset]. split; [done|].
        intros Ha. exists rb. rewrite Hs. auto.
    - apply runs_ret_inv in Hr as [-> ->]. split; [done|]. intros [[?|[?|[? _]]] _]%Forall_cons; done. }
  destruct ledger as [l|]; simpl in H.
  2: { destruct (Hbody _ H eq_refl) as [Hc Hs]. split_and!; [done|by auto|done]. }
  destruct (AlreadyCompensated (Some l) target (ps_Name ps)) eqn:E1; unfold AlreadyCompensated in E1; rewrite E1 in H.
  { apply runs_ret_inv in H as [-> ->]. unfold callsOf, due. cbn [AlreadyCompensated]. rewrite E1. simpl.
    split_and!; [done|done|congruence]. }
  destruct (Ran (Some l) target (ps_Name ps)) eqn:E2; unfold Ran in E2; rewrite E2 in H; simpl in H.
  2: { apply runs_ret_inv in H as [-> ->]. unfold callsOf, due. cbn [AlreadyCompensated Ran]. rewrite E1, E2. simpl.
    split_and!; [done|done|congruence]. }
  destruct (CompensationUncertain (Some l) target (ps_Name ps) && negb (compensationRepeatable ps)) eqn:E3;
    unfold CompensationUncertain in E3; rewrite E3 in H.
  { apply runs_ret_inv in H as [-> ->]. unfold callsOf, due. cbn [AlreadyCompensated Ran CompensationUncertain].
    rewrite E1, E2, E3. simpl. split_and!; [done|done|]. intros [[?|[?|[? _]]] _]%Forall_cons; done. }
  assert (Hdue : due (Some l) target ps = true).
  { unfold due. cbn [AlreadyCompensated Ran CompensationUncertain]. by rewrite E1, E2, E3. }
  destruct (Hbody _ H Hdue) as [Hc Hs]. split_and!; [done|by auto|done].
Qed.

Lemma runs_rollbackSteps m target steps hasExec ledger t srs :
  runs (rollbackSteps m target steps hasExec ledger) t srs ->
  map fst t = concat (map (callsOf m hasExec ledger target) steps) /\
  (Forall settled srs -> forall ps, ps ∈ steps -> (forall l, ledger = Some l ->
      Ran ledger target (ps_Name ps) = true -> AlreadyCompensated ledger target (ps_Name ps) = false ->
      exists t', compensated_by m target ps t' /\ t' ⊆ t)).
Proof.
  revert t srs. induction steps as [|ps steps IH]; intros t srs H; simpl in H.
  { apply runs_ret_inv in H as [-> ->]. split; [done|set_solver]. }
  apply runs_bind in H as (t1 & t2 & srs1 & -> & H1 & H).
  apply runs_bind in H as (t3 & t4 & srs2 & -> & H2 & H). apply runs_ret_inv in H as [-> ->].
  rewrite app_nil_r. destruct (runs_planStep _ _ _ _ _ _ _ H1) as (Hc1 & Hs1 & Hd1).
  destruct (IH _ _ H2) as [Hc2 Hs2]. split; [by rewrite map_app, Hc1, Hc2|].
  intros [Ha Hb]%Forall_app ps' [->|Hin]%elem_of_cons l Hl Hran Hal.
  - exists t1. split; [eauto|set_solver].
  - destruct (Hs2 Hb ps' Hin l Hl Hran Hal) as (t' & Ht' & Hsub). exists t'. split; [done|set_solver].
Qed.

Lemma runs_rollbackTarget m target steps hasExec ledger t tr :
  runs (rollbackTarget m target steps hasExec ledger) t tr ->
  runs (rollbackSteps m target (reverse steps) hasExec ledger) t (rt_StepResults tr) /\ rt_Target tr = target.
Proof.
  intros H. apply runs_bind in H as (t1 & t2 & srs & -> & H1 & [-> ->]%runs_ret_inv). by rewrite app_nil_r.
Qed.

(** ** Batches *)

Lemma depth_undoSteps m target orig unknown hasExec steps :
  depth_le (undoSteps m target orig unknown hasExec steps) (length steps).
Proof.
  induction steps as [|s steps IH]; simpl; [done|].
  apply (depth_le_bind _ _ 1 (length steps)).
  - unfold executeRollbackStep. repeat split_match; simpl; done.
  - intros sr. rewrite <- (Nat.add_0_r (length steps)). apply depth_le_bind; [done|]. done.
Qed.

Lemma depth_planStep m target ps hasExec ledger :
  depth_le (rollbackPlanStep m target ps hasExec ledger) (undoCount ps).
Proof.
  assert (Hr : forall sr : list StepRollbackResult, depth_le (@Ret call (option goerr) _ sr) (undoCount ps)) by done.
  unfold rollbackPlanStep. repeat (destruct (_ && _); [apply Hr|]). unfold undoCount.
  destruct (ps_Rollback ps) as [rb|]; [|done].
  destruct (String.eqb (Dsl.rb_Strategy rb) "snapshot").
  - apply (depth_le_mono _ (1 + 0)); [|lia]. apply depth_le_bind; [|done].
    unfold restoreSnapshotStep. repeat split_match; simpl; done.
  - eapply depth_le_mono; [apply depth_undoSteps|lia].
Qed.

Lemma depth_rollbackTarget m target steps hasExec ledger :
  depth_le (rollbackTarget m target steps hasExec ledger) (rollbackDepth steps).
Proof.
  assert (Hs : forall l, depth_le (rollbackSteps m target l hasExec ledger) (rollbackDepth l)).
  { induction l as [|ps l IH]; simpl; [done|]. apply depth_le_bind; [apply depth_planStep|].
    intros srs. eapply depth_le_mono; [by apply (depth_le_bind _ _ (rollbackDepth l) 0); [exact IH|]|unfold rollbackDepth; lia]. }
  assert (Hrev : rollbackDepth (reverse steps) = rollbackDepth steps).
  { unfold rollbackDepth. rewrite !sum_list_with_reverse. done. }
  unfold rollbackTarget. rewrite <- (Nat.add_0_r (rollbackDepth steps)), <- Hrev. by apply depth_le_bind.
Qed.

Definition targetProgs (m : Manager) (b : Batch) (hasExec : bool) (ledger : option ExecutionLedger) :=
  map (fun target => rollbackTarget m target (b_Steps b) hasExec ledger) (b_Targets b).

Lemma rollbackBatch_spec env m b hasExec ledger h :
  exists seg, (rollbackBatch env m b hasExec ledger h).2 = h ++ seg /\
    rb_BatchIndex (rollbackBatch env m b hasExec ledger h).1 = b_Index b /\
    results_of (targetProgs m b hasExec ledger) (rb_TargetResults (rollbackBatch env m b hasExec ledger h).1) seg.
Proof.
  unfold rollbackBatch, targetProgs. destruct (b_Targets b) as [|x l] eqn:Hb.
  { exists []. rewrite app_nil_r. split; [done|]. split; [done|]. split; [done|].
    split; [intros i p a Hp; by destruct i|intros e He; inversion He]. }
  set (progs := map _ _). destruct (Z.leb_spec (m_concurrency m) 1).
  - destruct (runAll_results (re_answer env) progs h) as (t & E & Hr).
    destruct (runAll (re_answer env) 0 progs h) as [trs h']. simpl in *. subst h'. by exists t.
  - destruct (fanout_results (rollbackDepth (b_Steps b)) (Z.to_nat (m_concurrency m)) (re_answer env)
      (re_pick env) progs h) as (trs & t & E & Hr); [lia| |].
    + apply Forall_forall. intros q Hq. apply list_elem_of_In, List.in_map_iff in Hq as (tg & <- & _).
      apply depth_rollbackTarget.
    + rewrite E. simpl. by exists t.
Qed.

(** A rolled-back batch with its calls: each target's calls are exactly those
    owed, last step first. *)
Lemma batch_calls m b hasExec ledger trs seg i tgt :
  results_of (targetProgs m b hasExec ledger) trs seg -> b_Targets b !! i = Some tgt ->
  exists tr, trs !! i = Some tr /\ rt_Target tr = tgt /\
    runs (rollbackSteps m tgt (reverse (b_Steps b)) hasExec ledger) (calls i seg) (rt_StepResults tr).
Proof.
  intros (Hl & Hr & _) Hi. unfold targetProgs in *. rewrite length_map in Hl.
  destruct (lookup_lt_is_Some_2 trs i) as [tr Htr]; [rewrite Hl; by eapply lookup_lt_Some|].
  exists tr. specialize (Hr i _ tr ltac:(by rewrite list_lookup_fmap, Hi) Htr).
  apply runs_rollbackTarget in Hr as [? ?]. done.
Qed.

(** ** The tally *)

Lemma tallyStep_ok t sr :
  t_completed t <= t_required t ->
  t_completed (tallyStep true t sr) <= t_required (tallyStep true t sr) /\
  ((t_firstErr (tallyStep true t sr) = None /\ t_required (tallyStep true t sr) = t_completed (tallyStep true t sr)) <->
   (t_firstErr t = None /\ t_required t = t_completed t /\ settled sr)).
Proof.
  intros Hle. unfold tallyStep, settled.
  destruct (NotExecuted sr), (sr_AlreadyCompensated sr), (Skipped sr), (sr_Error sr), (t_firstErr t); simpl;
    (split; [lia|]); (split; [intros [? ?]; split_and!; (done || lia || auto)|
      intros (? & ? & [?|[?|[? ?]]]); split; (done || lia || auto)]).
Qed.

Lemma tally_ok srs t :
  t_completed t <= t_required t ->
  t_completed (foldl (tallyStep true) t srs) <= t_required (foldl (tallyStep true) t srs) /\
  ((t_firstErr (foldl (tallyStep true) t srs) = None /\
    t_required (foldl (tallyStep true) t srs) = t_completed (foldl (tallyStep true) t srs)) <->
   (t_firstErr t = None /\ t_required t = t_completed t /\ Forall settled srs)).
Proof.
  revert t. induction srs as [|sr srs IH]; intros t Hle; simpl.
  { split; [done|]. rewrite Forall_nil. tauto. }
  destruct (tallyStep_ok t sr Hle) as [Hle' Hiff]. destruct (IH _ Hle') as [? ->].
  split; [done|]. rewrite Forall_cons. tauto.
Qed.

Lemma rollbackLoop_tally env m bs hasExec l t h :
  t_completed t <= t_required t ->
  let '(brs, t', h') := rollbackLoop env m bs hasExec (Some l) t h in
  t_firstErr t' = None -> t_required t' = t_completed t' ->
  length brs = length bs /\ Forall (fun br => Forall settled (stepResultsOf br)) brs /\
  t_firstErr t = None /\ t_required t = t_completed t.
Proof.
  revert t h. induction bs as [|b bs IH]; intros t h Hle; simpl; [auto|].
  destruct (rollbackBatch env m b hasExec (Some l) h) as [br h1].
  destruct (tally_ok (stepResultsOf br) t Hle) as [Hle1 Hiff].
  fold (tallyBatch true t br) in Hle1, Hiff.
  destruct (bool_decide (t_firstErr (tallyBatch true t br) <> None) && m_stopOnError m) eqn:E.
  { boolp. intros Hn. congruence. }
  specialize (IH (tallyBatch true t br) h1 Hle1).
  destruct (rollbackLoop env m bs hasExec (Some l) (tallyBatch true t br) h1) as [[brs t2] h2].
  intros Hn Hr. destruct (IH Hn Hr) as (Hlen & Hset & H1 & H2).
  destruct (proj1 Hiff (conj H1 H2)) as (? & ? & ?). split_and!; [simpl; lia|by constructor|done|done].
Qed.

(** The calls of a rollback, batch by batch. *)
Lemma rollbackLoop_calls env m bs hasExec ledger t h :
  let '(brs, t', h') := rollbackLoop env m bs hasExec ledger t h in
  exists segs, h' = h ++ concat segs /\ length segs = length brs /\ length brs <= length bs /\
    (m_stopOnError m = false -> length brs = length bs) /\
    (forall k br seg b, brs !! k = Some br -> segs !! k = Some seg -> bs !! k = Some b ->
       rb_BatchIndex br = b_Index b /\
       results_of (targetProgs m b hasExec ledger) (rb_TargetResults br) seg).
Proof.
  revert t h. induction bs as [|b bs IH]; intros t h; simpl.
  { exists []. rewrite app_nil_r. done. }
  destruct (rollbackBatch_spec env m b hasExec ledger h) as (seg & E1 & Hix & Hres).
  destruct (rollbackBatch env m b hasExec ledger h) as [br h1]. simpl in E1, Hix, Hres. subst h1.
  set (t1 := tallyBatch _ t br).
  destruct (bool_decide (t_firstErr t1 <> None) && m_stopOnError m) eqn:E.
  - exists [seg]. simpl. rewrite app_nil_r. split_and!; [done|done|lia|boolp; congruence|].
    intros k br' seg' b' Hbr Hseg Hb. destruct k; simplify_eq/=. done.
  - specialize (IH t1 (h ++ seg)). destruct (rollbackLoop env m bs hasExec ledger t1 (h ++ seg)) as [[brs t2] h2].
    destruct IH as (segs & -> & Hl & Hle & Hall & Hk). exists (seg :: segs). simpl. rewrite app_assoc.
    split_and!; [done|lia|lia|intros; f_equal; auto|].
    intros k br' seg' b' Hbr Hseg Hb. destruct k; simplify_eq/=; [done|]. by eapply Hk.
Qed.

(** Every call of a rollback is owed for a step of the plan. *)
Lemma rollbackLoop_event env m p hasExec ledger t h brs t' h' i c err :
  rollbackLoop env m (reverse (p_Batches p)) hasExec ledger t h = (brs, t', h') ->
  forall suffix, h' = h ++ suffix -> (i, c, err) ∈ suffix ->
  exists b tgt ps, b ∈ p_Batches p /\ b_Targets b !! i = Some tgt /\ ps ∈ b_Steps b /\
    c ∈ callsOf m hasExec ledger tgt ps.
Proof.
  intros H suffix Hs Hin.
  pose proof (rollbackLoop_calls env m (reverse (p_Batches p)) hasExec ledger t h) as Hc. rewrite H in Hc.
  destruct Hc as (segs & -> & Hl & Hle & _ & Hk). apply app_inv_head in Hs. subst suffix.
  apply list_elem_of_In, in_concat in Hin as (seg & Hseg%list_elem_of_In & Hin%list_elem_of_In).
  apply list_elem_of_lookup in Hseg as [k Hseg]. assert (Hkl := lookup_lt_Some _ _ _ Hseg).
  destruct (lookup_lt_is_Some_2 brs k) as [br Hbr]; [lia|].
  destruct (lookup_lt_is_Some_2 (reverse (p_Batches p)) k) as [b Hb]; [lia|].
  destruct (Hk _ _ _ _ Hbr Hseg Hb) as [_ Hres].
  assert (Hi : i < length (b_Targets b)).
  { destruct Hres as (_ & _ & Ho). specialize (Ho _ Hin). unfold targetProgs in Ho. by rewrite length_map in Ho. }
  destruct (lookup_lt_is_Some_2 _ _ Hi) as [tgt Htgt].
  destruct (batch_calls _ _ _ _ _ _ _ _ Hres Htgt) as (tr & _ & _ & Hruns).
  destruct (runs_rollbackSteps _ _ _ _ _ _ _ Hruns) as [Hcalls _].
  assert (Hc : c ∈ map fst (calls i seg)).
  { apply list_elem_of_fmap. exists (c, err). split; [done|]. apply list_elem_of_omap.
    exists (i, c, err). split; [done|]. simpl. by rewrite Nat.eqb_refl. }
  rewrite Hcalls in Hc. apply list_elem_of_In, in_concat in Hc as (cs & Hcs & Hc).
  apply List.in_map_iff in Hcs as (ps & <- & Hps%list_elem_of_In). apply list_elem_of_In in Hc.
  rewrite elem_of_reverse in Hps. exists b, tgt, ps. split_and!; [|done|done|done].
  rewrite <- elem_of_reverse. by eapply list_elem_of_lookup_2.
Qed.

Lemma rollbackLoop_extends env m bs hasExec ledger t h brs t' h' :
  rollbackLoop env m bs hasExec ledger t h = (brs, t', h') -> exists suffix, h' = h ++ suffix.
Proof.
  intros H. pose proof (rollbackLoop_calls env m bs hasExec ledger t h) as Hc. rewrite H in Hc.
  destruct Hc as (segs & -> & _). eauto.
Qed.

(** ** The ledger records what the results show *)

Lemma marked_empty t s : marked ∅ t s = false.
Proof. unfold marked. by rewrite lookup_empty. Qed.

Lemma marked_mark m t s t' s' :
  marked (mark m t s) t' s' = true <-> (t' = t /\ s' = s) \/ marked m t' s' = true.
Proof.
  unfold marked, mark. destruct (decide (t' = t)) as [->|Hne].
  - rewrite lookup_insert_eq, bool_decide_eq_true.
    destruct (m !! t) as [x|]; simpl; [rewrite bool_decide_eq_true|]; set_solver.
  - rewrite lookup_insert_ne by done. naive_solver.
Qed.

Lemma ledgerStep_ran target l sr t s :
  marked (l_ran (ledgerStep target l sr)) t s = true <->
  (t = target /\ s = Batch.sr_StepName sr /\ t <> "" /\ s <> "") \/ marked (l_ran l) t s = true.
Proof.
  unfold ledgerStep, MarkUnknown, MarkRan.
  destruct (Batch.sr_Error sr), (String.eqb_spec target ""), (String.eqb_spec (Batch.sr_StepName sr) ""); simpl;
    rewrite ?marked_mark; naive_solver.
Qed.

Lemma ledgerStep_unknown target l sr t s :
  marked (l_unknown (ledgerStep target l sr)) t s = true <->
  (t = target /\ s = Batch.sr_StepName sr /\ Batch.sr_Error sr <> None /\ t <> "" /\ s <> "") \/
  marked (l_unknown l) t s = true.
Proof.
  unfold ledgerStep, MarkUnknown, MarkRan.
  destruct (Batch.sr_Error sr), (String.eqb_spec target ""), (String.eqb_spec (Batch.sr_StepName sr) ""); simpl;
    rewrite ?marked_mark; naive_solver.
Qed.

(** A fold of marking steps marks what one of them marks. *)
Lemma foldl_marks {A} (f : ExecutionLedger -> A -> ExecutionLedger) (proj : ExecutionLedger -> marks)
    (P : A -> string -> string -> Prop) l0 xs t s :
  (forall l x, marked (proj (f l x)) t s = true <-> P x t s \/ marked (proj l) t s = true) ->
  marked (proj (foldl f l0 xs)) t s = true <-> (exists x, x ∈ xs /\ P x t s) \/ marked (proj l0) t s = true.
Proof.
  intros Hf. revert l0. induction xs as [|x xs IH]; intros l0; simpl; [set_solver|].
  rewrite IH, Hf. set_solver.
Qed.

(** A step result of the apply phase for [s] on [t]. *)
Definition result_for (brs : list (option Batch.BatchResult)) (t s : string) (sr : Batch.StepResult) : Prop :=
  exists br tr, Some br ∈ brs /\ tr ∈ Batch.br_TargetResults br /\ Batch.tr_Target tr = t /\
    sr ∈ Batch.tr_StepResults tr /\ Batch.sr_StepName sr = s.

Lemma ledger_fold (proj : ExecutionLedger -> marks) (P : Batch.StepResult -> Prop) brs t s :
  (forall target l sr, marked (proj (ledgerStep target l sr)) t s = true <->
     (t = target /\ s = Batch.sr_StepName sr /\ P sr /\ t <> "" /\ s <> "") \/ marked (proj l) t s = true) ->
  marked (proj NewExecutionLedger) t s = false ->
  marked (proj (LedgerFromBatchResults brs)) t s = true <->
  t <> "" /\ s <> "" /\ exists sr, result_for brs t s sr /\ P sr.
Proof.
  intros Hstep H0. unfold LedgerFromBatchResults.
  rewrite (foldl_marks ledgerBatch proj (fun ob t s => exists br, ob = Some br /\ exists tr,
    tr ∈ Batch.br_TargetResults br /\ exists sr, sr ∈ Batch.tr_StepResults tr /\
      t = Batch.tr_Target tr /\ s = Batch.sr_StepName sr /\ P sr /\ t <> "" /\ s <> "")).
  - rewrite H0. unfold result_for. naive_solver.
  - intros l [br|]; simpl; [|naive_solver].
    rewrite (foldl_marks ledgerTarget proj (fun tr t s => exists sr, sr ∈ Batch.tr_StepResults tr /\
      t = Batch.tr_Target tr /\ s = Batch.sr_StepName sr /\ P sr /\ t <> "" /\ s <> "")); [naive_solver|].
    intros l' tr. unfold ledgerTarget.
    rewrite (foldl_marks (ledgerStep (Batch.tr_Target tr)) proj (fun sr t s => t = Batch.tr_Target tr /\
      s = Batch.sr_StepName sr /\ P sr /\ t <> "" /\ s <> "")); [naive_solver|]. intros l2 sr. apply Hstep.
Qed.

Lemma ledger_compensated brs : l_compensated (LedgerFromBatchResults brs) = ∅.
Proof.
  unfold LedgerFromBatchResults.
  assert (Hs : forall target l sr, l_compensated l = ∅ -> l_compensated (ledgerStep target l sr) = ∅).
  { intros target l sr Hl. unfold ledgerStep, MarkUnknown, MarkRan.
    destruct (Batch.sr_Error sr), (String.eqb target "" || String.eqb (Batch.sr_StepName sr) "");
      cbn [l_compensated]; rewrite ?Hl, ?lookup_empty; done. }
  assert (Hf : forall A (f : ExecutionLedger -> A -> ExecutionLedger),
    (forall l x, l_compensated l = ∅ -> l_compensated (f l x) = ∅) ->
    forall xs l, l_compensated l = ∅ -> l_compensated (foldl f l xs) = ∅).
  { intros A f Hfx xs. induction xs as [|x xs IH]; intros l Hl; simpl; auto. }
  apply Hf; [|done]. intros l [br|] Hl; simpl; [|done]. apply Hf; [|done].
  intros l' tr Hl'. unfold ledgerTarget. apply Hf; [|done]. auto.
Qed.

(** A call is justified by the plan and the ledger. *)
Definition justified (m : Manager) (p : Plan) (l : ExecutionLedger) (c : call) : Prop :=
  exists b ps rb target, b ∈ p_Batches p /\ target ∈ b_Targets b /\ ps ∈ b_Steps b /\ ps_Rollback ps = Some rb /\
    Ran (Some l) target (ps_Name ps) = true /\ AlreadyCompensated (Some l) target (ps_Name ps) = false /\
    match c with
    | CUndo tgt s => tgt = target /\ s ∈ Dsl.rb_Steps rb /\
                     allows m (Dsl.st_Module s +:+ "." +:+ Dsl.st_Action s) = true
    | CRestore _ tgt ps' => tgt = target /\ ps' = ps /\ Dsl.rb_Strategy rb = "snapshot" /\ m_dryRun m = false
    end.

Lemma call_justified env m p hasExec l h r t i c err :
  RollbackWithLedger env m (Some p) hasExec (Some l) h = (r, h ++ t) -> (i, c, err) ∈ t -> justified m p l c.
Proof.
  intros H Hin.
  unfold RollbackWithLedger in H. destruct (rollbackLoop _ _ _ _ _ _ _) as [[brs ta] h'] eqn:Hloop.
  apply pair_equal_spec in H as [_ H].
  destruct (rollbackLoop_event _ _ _ _ _ _ _ _ _ _ i c err Hloop t H Hin) as (b & tgt & ps & Hb & Htgt & Hps & Hc).
  assert (Htin : tgt ∈ b_Targets b) by (by eapply list_elem_of_lookup_2).
  unfold callsOf in Hc. destruct (due (Some l) tgt ps) eqn:Hdue; simpl in Hc; [|set_solver].
  assert (Hran : Ran (Some l) tgt (ps_Name ps) = true /\ AlreadyCompensated (Some l) tgt (ps_Name ps) = false).
  { unfold due in Hdue. boolp. done. }
  destruct (ps_Rollback ps) as [rb|] eqn:Hrb; [|set_solver].
  exists b, ps, rb, tgt. split_and!; try done; try apply Hran.
  destruct (String.eqb_spec (Dsl.rb_Strategy rb) "snapshot") as [Hs|Hs].
  - destruct (m_snapshotRestore m), (m_dryRun m), (String.eqb (m_runID m) ""); simpl in Hc; try set_solver.
  - apply list_elem_of_In, List.in_map_iff in Hc as (s & <- & Hs'%list_elem_of_In).
    apply list_elem_of_filter in Hs' as [Hal Hin']. unfold undoAllowed in Hal. boolp. done.
Qed.

(** Every call owed for [ps] on the [i]-th target was made and returned no error. *)
Definition restored (m : Manager) (i : nat) (target : string) (ps : PlanStep) (t : list (entry call (option goerr))) : Prop :=
  exists rb, ps_Rollback ps = Some rb /\
    if String.eqb (Dsl.rb_Strategy rb) "snapshot" then (i, CRestore (m_runID m) target ps, None) ∈ t
    else forall s, s ∈ Dsl.rb_Steps rb -> (i, CUndo target s, None) ∈ t.

Lemma success_restored env m p hasExec l h r t b i target ps :
  RollbackWithLedger env m (Some p) hasExec (Some l) h = (r, h ++ t) -> Success r = true ->
  b ∈ p_Batches p -> b_Targets b !! i = Some target -> ps ∈ b_Steps b ->
  Ran (Some l) target (ps_Name ps) = true -> AlreadyCompensated (Some l) target (ps_Name ps) = false ->
  rr_Error r = None /\ length (BatchResults r) = length (p_Batches p) /\ restored m i target ps t.
Proof.
  intros H Hok Hb Hi Hps Hran Hnew.
  unfold RollbackWithLedger in H.
  pose proof (rollbackLoop_calls env m (reverse (p_Batches p)) hasExec (Some l) (MkTally 0 0 0 None) h) as Hc.
  pose proof (rollbackLoop_tally env m (reverse (p_Batches p)) hasExec l (MkTally 0 0 0 None) h (Nat.le_refl _)) as Ht.
  destruct (rollbackLoop _ _ _ _ _ _ _) as [[brs ta] h']. destruct Hc as (segs & -> & Hl & Hle & _ & Hk).
  apply pair_equal_spec in H as [<- H]. apply app_inv_head in H. subst t.
  unfold verdict in Hok |- *. simpl in Hok |- *. apply andb_true_iff in Hok as [He Hr]. apply bool_decide_eq_true in He.
  apply Nat.eqb_eq in Hr. destruct (Ht He Hr) as (Hlen & Hset & _). rewrite length_reverse in Hlen.
  split_and!; [done|done|]. rewrite <- elem_of_reverse in Hb. apply list_elem_of_lookup in Hb as [k Hb].
  assert (Hkl := lookup_lt_Some _ _ _ Hb). rewrite length_reverse in Hkl.
  destruct (lookup_lt_is_Some_2 brs k) as [br Hbr]; [lia|]. destruct (lookup_lt_is_Some_2 segs k) as [seg Hseg]; [lia|].
  destruct (Hk _ _ _ _ Hbr Hseg Hb) as [_ Hres].
  destruct (batch_calls _ _ _ _ _ _ _ _ Hres Hi) as (tr & Htr & _ & Hruns).
  assert (Hsettled : Forall settled (rt_StepResults tr)).
  { rewrite Forall_lookup in Hset. specialize (Hset _ _ Hbr). rewrite Forall_forall in Hset |- *.
    intros sr Hsr. apply Hset. apply list_elem_of_In, in_concat. exists (rt_StepResults tr).
    split; [|by apply list_elem_of_In]. apply List.in_map, list_elem_of_In. by eapply list_elem_of_lookup_2. }
  destruct (runs_rollbackSteps _ _ _ _ _ _ _ Hruns) as [_ Hcomp].
  destruct (Hcomp Hsettled ps ltac:(by rewrite elem_of_reverse) l eq_refl Hran Hnew) as (t' & (rb & Hrb & Ht') & Hsub).
  assert (Hin : forall c err, (c, err) ∈ calls i seg -> (i, c, err) ∈ concat segs).
  { intros c err Hcc. apply list_elem_of_omap in Hcc as ([[j c'] r'] & Hin & Hx). simpl in Hx.
    destruct (Nat.eqb_spec j i) as [->|]; [|done]. injection Hx as -> ->.
    apply list_elem_of_In, in_concat. exists seg. split; [|by apply list_elem_of_In].
    apply list_elem_of_In. by eapply list_elem_of_lookup_2. }
  exists rb. split; [done|]. destruct (String.eqb (Dsl.rb_Strategy rb) "snapshot"); subst t'.
  - apply Hin, Hsub. by left.
  - intros s Hs. apply Hin, Hsub. apply list_elem_of_fmap. eauto.
Qed.

Lemma ledger_ran brs t s :
  Ran (Some (LedgerFromBatchResults brs)) t s = true <-> t <> "" /\ s <> "" /\ exists sr, result_for brs t s sr.
Proof.
  unfold Ran. rewrite (ledger_fold l_ran (fun _ => True)); [naive_solver| |].
  - intros target l sr. rewrite ledgerStep_ran. naive_solver.
  - apply marked_empty.
Qed.

Lemma ledger_not_compensated brs t s : AlreadyCompensated (Some (LedgerFromBatchResults brs)) t s = false.
Proof. simpl. rewrite ledger_compensated. apply marked_empty. Qed.

(** ** Theorems *)

(** The ledger derived from the apply results is exact: a (target, step) pair
    is marked as run if and only if some result recorded that step on that
    target, and as having unknown side effects if and only if one of those
    results is a failure; nothing starts out compensated. *)
Theorem ledger_exact (brs : list (option Batch.BatchResult)) (t s : string) :
  let l := Some (LedgerFromBatchResults brs) in
  (Ran l t s = true <-> t <> "" /\ s <> "" /\ exists sr, result_for brs t s sr) /\
  (SideEffectsUnknown l t s = true <->
     t <> "" /\ s <> "" /\ exists sr, result_for brs t s sr /\ Batch.sr_Error sr <> None) /\
  AlreadyCompensated l t s = false.
Proof.
  split_and!.
  - apply ledger_ran.
  - unfold SideEffectsUnknown. rewrite (ledger_fold l_unknown (fun sr => Batch.sr_Error sr <> None)); [done| |].
    + intros target l sr. by rewrite ledgerStep_unknown.
    + apply marked_empty.
  - simpl. rewrite ledger_compensated. apply marked_empty.
Qed.

(** The calls of a rollback, in full. The batches are undone one after the
    other from the last to the first (all of them unless a failure stops the
    walk), and within a batch each target receives, whatever the concurrency and
    the scheduling, exactly the calls owed for its steps from the last step to
    the first. *)
Theorem rollback_calls_exact (env : REnv) (m : Manager) (p : Plan) (hasExec : bool)
    (ledger : option ExecutionLedger) (h : list (entry call (option goerr))) :
  let '(r, h') := RollbackWithLedger env m (Some p) hasExec ledger h in
  exists segs, h' = h ++ concat segs /\ length segs = length (BatchResults r) /\
    length segs <= length (p_Batches p) /\
    (m_stopOnError m = false -> length segs = length (p_Batches p)) /\
    (forall k seg b i tgt, segs !! k = Some seg -> reverse (p_Batches p) !! k = Some b ->
       b_Targets b !! i = Some tgt ->
       map fst (calls i seg) = concat (map (callsOf m hasExec ledger tgt) (reverse (b_Steps b)))).
Proof.
  unfold RollbackWithLedger.
  pose proof (rollbackLoop_calls env m (reverse (p_Batches p)) hasExec ledger (MkTally 0 0 0 None) h) as H.
  destruct (rollbackLoop _ _ _ _ _ _ _) as [[brs t] h']. simpl. destruct H as (segs & -> & Hl & Hle & Hall & Hk).
  rewrite length_reverse in Hle, Hall. exists segs. split_and!; [done|done|lia|intros; rewrite Hl; auto|].
  intros k seg b i tgt Hseg Hb Hi.
  destruct (lookup_lt_is_Some_2 brs k) as [br Hbr]; [rewrite <- Hl; by eapply lookup_lt_Some|].
  destruct (Hk _ _ _ _ Hbr Hseg Hb) as [_ Hres].
  destruct (batch_calls _ _ _ _ _ _ _ _ Hres Hi) as (tr & _ & _ & Hruns).
  by apply (runs_rollbackSteps _ _ _ _ _ _ _ Hruns).
Qed.

(** Nothing is compensated that should not be. With a ledger, every call of a
    rollback is for a step the ledger records as run on that target and not as
    already compensated; an undo step is one declared for that step and allowed
    by the whitelist (deny by default); a snapshot is restored only for a step
    whose strategy is snapshot, and never in a dry run. *)
Theorem rollback_only_what_ran (env : REnv) (m : Manager) (p : Plan) (hasExec : bool) (l : ExecutionLedger)
    (h : list (entry call (option goerr))) (r : RollbackResult) (t : list (entry call (option goerr)))
    (i : nat) (c : call) (err : option goerr)
    (H : RollbackWithLedger env m (Some p) hasExec (Some l) h = (r, h ++ t)) (Hin : (i, c, err) ∈ t) :
  exists b ps rb target, b ∈ p_Batches p /\ target ∈ b_Targets b /\ ps ∈ b_Steps b /\ ps_Rollback ps = Some rb /\
    Ran (Some l) target (ps_Name ps) = true /\ AlreadyCompensated (Some l) target (ps_Name ps) = false /\
    match c with
    | CUndo tgt s => tgt = target /\ s ∈ Dsl.rb_Steps rb /\
                     allows m (Dsl.st_Module s +:+ "." +:+ Dsl.st_Action s) = true
    | CRestore _ tgt ps' => tgt = target /\ ps' = ps /\ Dsl.rb_Strategy rb = "snapshot" /\ m_dryRun m = false
    end.
Proof. exact (call_justified _ _ _ _ _ _ _ _ _ _ _ H Hin). Qed.

(** A successful rollback restored everything that ran. If the verdict is
    success under a ledger, then every batch was undone and, for every step that
    ran on a target and was not already compensated, a rollback is declared and
    each of its undo steps (or its snapshot restore) was called on that target
    and returned no error. *)
Theorem rollback_success_restores (env : REnv) (m : Manager) (p : Plan) (hasExec : bool) (l : ExecutionLedger)
    (h : list (entry call (option goerr))) (r : RollbackResult) (t : list (entry call (option goerr)))
    (b : Batch) (i : nat) (target : string) (ps : PlanStep)
    (H : RollbackWithLedger env m (Some p) hasExec (Some l) h = (r, h ++ t)) (Hok : Success r = true)
    (Hb : b ∈ p_Batches p) (Hi : b_Targets b !! i = Some target) (Hps : ps ∈ b_Steps b)
    (Hran : Ran (Some l) target (ps_Name ps) = true)
    (Hnew : AlreadyCompensated (Some l) target (ps_Name ps) = false) :
  rr_Error r = None /\ length (BatchResults r) = length (p_Batches p) /\
  exists rb, ps_Rollback ps = Some rb /\
    if String.eqb (Dsl.rb_Strategy rb) "snapshot" then (i, CRestore (m_runID m) target ps, None) ∈ t
    else forall s, s ∈ Dsl.rb_Steps rb -> (i, CUndo target s, None) ∈ t.
Proof. exact (success_restored _ _ _ _ _ _ _ _ _ _ _ _ H Hok Hb Hi Hps Hran Hnew). Qed.

(** A preview touches nothing: with [WithDryRun] and no execute function, a
    rollback makes no call, whatever the plan and the ledger. *)
Theorem rollback_preview_readonly (env : REnv) (m : Manager) (p : option Plan) (ledger : option ExecutionLedger)
    (h : list (entry call (option goerr))) (Hdry : m_dryRun m = true) :
  (RollbackWithLedger env m p false ledger h).2 = h.
Proof.
  unfold RollbackWithLedger. destruct p as [p|]; [|done].
  destruct (rollbackLoop _ _ _ _ _ _ _) as [[brs ta] h'] eqn:Hloop. simpl.
  assert (Hno : forall target ps, callsOf m false ledger target ps = []).
  { intros target ps. unfold callsOf. rewrite Hdry. destruct (due _ _ _); [|done]. simpl.
    destruct (ps_Rollback ps) as [rb|]; [|done]. destruct (String.eqb _ _).
    - by destruct (m_snapshotRestore m).
    - assert (forall l, filter (fun s => undoAllowed m false s = true) l = []) as ->; [|done].
      induction l as [|s l IH]; [done|]. rewrite filter_cons.
      destruct (decide _) as [Hal|_]; [|done]. unfold undoAllowed in Hal. by rewrite andb_false_r in Hal. }
  destruct (rollbackLoop_extends _ _ _ _ _ _ _ _ _ _ Hloop) as [suffix Hs].
  destruct suffix as [|[[i c] err] suffix]; [by rewrite Hs, app_nil_r|]. exfalso.
  destruct (rollbackLoop_event _ _ _ _ _ _ _ _ _ _ i c err Hloop _ Hs ltac:(by left)) as (b & tgt & ps & _ & _ & _ & Hc).
  rewrite Hno in Hc. inversion Hc.
Qed.

(** ** Witnesses *)

Definition undo (name modul action : string) (idem : bool) : Dsl.Step :=
  Dsl.MkStep name modul action [] None None None idem false false [].
Definition undoSpec (steps : list Dsl.Step) : option Dsl.RollbackSpec :=
  Some (Dsl.MkRollbackSpec steps "" "" false []).
Definition planStep (name : string) (rb : option Dsl.RollbackSpec) : PlanStep :=
  MkPlanStep name "pkg" "install" [] rb None None false "".

Definition undoA := undo "undo-a" "pkg" "remove" false.
Definition stepA := planStep "a" (undoSpec [undoA]).
Definition stepB := planStep "b" (undoSpec [undo "undo-b" "file" "copy" true]).
Definition oneHostPlan (steps : list PlanStep) : Plan :=
  MkPlan "id" "wf" [MkBatch 0 ["h1"] steps 0 None] 1 0 0 [] "" None None None None.

(** Only [a] ran. *)
Definition ledgerA : ExecutionLedger := MarkRan NewExecutionLedger "h1" "a".
Definition quietEnv : REnv := MkREnv (fun _ _ => None) (fun _ _ => 0).
Definition sampleManager : Manager := NewManager [WithWhitelist ["pkg.remove"; "file.copy"]].

Lemma rollback_only_what_ran_witness :
  exists r, RollbackWithLedger quietEnv sampleManager (Some (oneHostPlan [stepA; stepB])) true (Some ledgerA) []
              = (r, [] ++ [(0, CUndo "h1" undoA, None)]) /\
  exists b ps rb target, b ∈ p_Batches (oneHostPlan [stepA; stepB]) /\ target ∈ b_Targets b /\ ps ∈ b_Steps b /\
    ps_Rollback ps = Some rb /\ Ran (Some ledgerA) target (ps_Name ps) = true /\
    AlreadyCompensated (Some ledgerA) target (ps_Name ps) = false /\
    "h1" = target /\ undoA ∈ Dsl.rb_Steps rb /\ allows sampleManager "pkg.remove" = true.
Proof.
  eexists. split; [vm_compute; reflexivity|].
  eapply (rollback_only_what_ran quietEnv sampleManager (oneHostPlan [stepA; stepB]) true ledgerA [] _
           [(0, CUndo "h1" undoA, None)] 0 (CUndo "h1" undoA) None); [vm_compute; reflexivity|by left].
Defined.

Lemma rollback_success_restores_witness :
  exists r, RollbackWithLedger quietEnv sampleManager (Some (oneHostPlan [stepA; stepB])) true (Some ledgerA) []
              = (r, [] ++ [(0, CUndo "h1" undoA, None)]) /\ Success r = true /\ rr_Error r = None.
Proof.
  eexists. split; [vm_compute; reflexivity|]. split; [reflexivity|].
  eapply (fun r H Hok => proj1 (rollback_success_restores quietEnv sampleManager (oneHostPlan [stepA; stepB]) true
     ledgerA [] r [(0, CUndo "h1" undoA, None)] (MkBatch 0 ["h1"] [stepA; stepB] 0 None) 0 "h1" stepA H Hok
     ltac:(by left) eq_refl ltac:(by left) ltac:(vm_compute; reflexivity) ltac:(vm_compute; reflexivity)));
    vm_compute; reflexivity.
Defined.

Lemma rollback_preview_readonly_witness :
  (RollbackWithLedger quietEnv (WithDryRun true sampleManager) (Some (oneHostPlan [stepA; stepB])) false (Some ledgerA) []).2 = [].
Proof.
  apply (rollback_preview_readonly quietEnv (WithDryRun true sampleManager) (Some (oneHostPlan [stepA; stepB])) (Some ledgerA) []).
  reflexivity.
Defined.

(** ** Observed behaviours *)

(** The preview is read-only by the caller's convention: with [WithDryRun] on and
    an execute function supplied, the undo step runs. *)
Lemma dry_run_with_exec_runs :
  map (fun e => e.1.2) (RollbackWithLedger quietEnv (WithDryRun true sampleManager)
     (Some (oneHostPlan [stepA])) true (Some ledgerA) []).2 = [CUndo "h1" undoA].
Proof. vm_compute. reflexivity. Qed.

(** A rollback block without undo steps yields no step result at all: the step
    ran, nothing is undone, and the verdict is success with nothing required. *)
Lemma empty_rollback_counts_nothing :
  let r := (RollbackWithLedger quietEnv sampleManager (Some (oneHostPlan [planStep "a" (undoSpec [])])) true (Some ledgerA) []).1 in
  Success r = true /\ RequiredCompensations r = 0 /\ Ran (Some ledgerA) "h1" "a" = true.
Proof. vm_compute. done. Qed.

(** A declared rollback with two undo steps requires two compensations. *)
Lemma required_counts_undo_steps :
  RequiredCompensations (RollbackWithLedger quietEnv sampleManager
    (Some (oneHostPlan [planStep "a" (undoSpec [undoA; undoA])])) true (Some ledgerA) []).1 = 2.
Proof. vm_compute. reflexivity. Qed.

(** After a panic, the apply results hold no trace of the steps dispatched to the
    target, the ledger marks nothing, and the rollback reports success. *)
Lemma panic_hides_steps_from_rollback :
  let plan := oneHostPlan [stepA; stepB] in
  let '(brs, _) := Batch.Execute
    (Batch.MkEnv (fun _ => None) (fun _ _ _ s => if String.eqb (ps_Name s) "b" then Batch.XPanic "x" else Batch.XOk)
       (fun _ _ => None) (fun _ => 0) (fun _ => true))
    (Batch.NewController []) (Some plan) true [] in
  let r := (RollbackWithLedger quietEnv sampleManager (Some plan) true
              (Some (LedgerFromBatchResults (map Some brs))) []).1 in
  existsb (fun br => bool_decide (Batch.br_Error br <> None)) brs = true /\
  Success r = true /\ RequiredCompensations r = 0.
Proof. vm_compute. done. Qed.

End Rollback.
