(* ===== verification/Lock.v ===== *)
(** * Lock: target-host locks with a TTL

    src/internal/lock/lock.go over the lock table of src/internal/state/sqlite.go.
    Each SQL statement is atomic; an operation is a [Concur.prog] whose calls are
    the statements, clock readings and id draws it makes, in order, so other
    actors' statements can be interleaved between any two of them. Times are
    nanoseconds since Go's zero time. Log lines are not modelled. *)

From Stdlib Require Import ZArith Lia.
From stdpp Require Import base gmap strings list sorting.
From S2P Require Import Prelude Concur.
Import Concur.
Open Scope string_scope.
Open Scope list_scope.

Module Lock.

Definition Second : Z := 1000000000.
Definition DefaultTTL : Z := 3600 * Second.

Definition ErrLockHeld := "lock: target is already locked".
Definition ErrLockNotFound := "lock: no lock found for target".
Definition ErrNotOwner := "lock: caller is not the lock owner".
Definition ErrTargetBusy := "lock: target has in-flight work, cannot preempt".
Definition ErrEmptyTarget := "lock: empty target".
Definition ErrEmptyOwner := "lock: empty owner".

Record Lock := MkLock {
  lk_Target : string;
  lk_Owner : string;
  lk_AcquiredAt : Z;
  lk_ExpiresAt : Z;
  lk_TTL : Z }.

(** A nil lock or a zero [ExpiresAt] never expires. *)
Definition Expired (l : option Lock) (now : Z) : bool :=
  match l with
  | None => false
  | Some l => if (lk_ExpiresAt l =? 0)%Z then false else negb (now <? lk_ExpiresAt l)%Z
  end.

(** ** The lock table *)

(** [state.Lock]. *)
Record row := MkRow {
  r_ID : string;
  r_Scope : string;
  r_Owner : string;
  r_TTLSeconds : Z;
  r_AcquiredAt : Z;
  r_ExpiresAt : Z }.

#[export] Instance row_eq_dec : EqDecision row.
Proof. solve_decision. Defined.

Record audit := MkAudit {
  au_ID : string; au_RunID : string; au_Action : string; au_Actor : string;
  au_Target : string; au_Result : string; au_Timestamp : Z }.

(** What an operation asks of the outside: statements of the store, a clock
    reading ([time.Now().UTC()]), an id draw ([newID]). *)
Inductive stmt :=
| SGetLockByScope (scope : string)
| SCreateLock (r : row)
| SUpdateLockOwnedBy (id owner : string) (ttlSeconds now : Z)
| SListLocks
| SDeleteLockByIDAndOwner (id owner : string)
| SDeleteExpiredLocks (now : Z)
| SListSteps (host status : string)
| SRecordAudit (a : audit)
| SNow
| SNewID.

Record ans := MkAns {
  a_err : option goerr;
  a_rows : list row;
  a_n : Z;
  a_time : Z;
  a_id : string }.

Definition noAns : ans := MkAns None [] 0 0 "".

(** [INSERT]: the primary key and [UNIQUE (scope)]. *)
Definition conflicts (db : list row) (r : row) : bool :=
  existsb (fun x => String.eqb (r_ID x) (r_ID r) || String.eqb (r_Scope x) (r_Scope r)) db.

(** [UPDATE ... WHERE id=? AND expires_at <= ?]. *)
Definition takeOver (id owner : string) (ttlSeconds now : Z) (x : row) : row :=
  if String.eqb (r_ID x) id && (r_ExpiresAt x <=? now)%Z
  then MkRow id (r_Scope x) owner ttlSeconds now (now + ttlSeconds * Second)%Z else x.

Definition byExpiry (x y : row) : Prop := (r_ExpiresAt x <= r_ExpiresAt y)%Z.
#[export] Instance byExpiry_dec : RelDecision byExpiry.
Proof. intros x y. unfold byExpiry. apply _. Defined.

(** The effect of a statement on the table, and its answer. *)
Definition dbexec (db : list row) (s : stmt) : list row * ans :=
  match s with
  | SGetLockByScope sc =>
      (db, MkAns None (match filter (fun x => r_Scope x = sc) db with x :: _ => [x] | [] => [] end) 0 0 "")
  | SCreateLock r =>
      if conflicts db r
      then (db, MkAns (Some (EWrap "state: create lock" (EText "UNIQUE constraint failed: locks.scope"))) [] 0 0 "")
      else (db ++ [r], noAns)
  | SUpdateLockOwnedBy id owner ttl now =>
      (map (takeOver id owner ttl now) db,
       MkAns None [] (Z.of_nat (length (filter (fun x => r_ID x = id /\ (r_ExpiresAt x <= now)%Z) db))) 0 "")
  | SListLocks => (db, MkAns None (merge_sort byExpiry db) 0 0 "")
  | SDeleteLockByIDAndOwner id owner =>
      (filter (fun x => ~ (r_ID x = id /\ r_Owner x = owner)) db,
       MkAns None [] (Z.of_nat (length (filter (fun x => r_ID x = id /\ r_Owner x = owner) db))) 0 "")
  | SDeleteExpiredLocks now =>
      (filter (fun x => ~ (r_ExpiresAt x < now)%Z) db,
       MkAns None [] (Z.of_nat (length (filter (fun x => (r_ExpiresAt x < now)%Z) db))) 0 "")
  | SListSteps _ _ | SRecordAudit _ | SNow | SNewID => (db, noAns)
  end.

(** ** Operations *)

Inductive res (A : Type) : Type :=
| Val (a : A)
| Err (e : goerr)
| Panic                  (** nil dereference *)
| Spinning.              (** fuel ran out *)
Arguments Val {A} a.
Arguments Err {A} e.
Arguments Panic {A}.
Arguments Spinning {A}.

Definition op (A : Type) : Type := prog stmt ans (res A).

(** A statement, its error wrapped as the call site wraps it. *)
Definition query {A} (s : stmt) (wrap : goerr -> goerr) (k : ans -> op A) : op A :=
  Ask s (fun a => match a_err a with Some e => Ret (Err (wrap e)) | None => k a end).

Definition scope (target : string) : string := "host:" +:+ target.

(** [strings.TrimPrefix(s, "host:")]. *)
Definition TrimHost (s : string) : string :=
  if String.prefix "host:" s then String.substring 5 (String.length s - 5) s else s.

Definition toStateLock (id : string) (l : Lock) : row :=
  MkRow id (scope (lk_Target l)) (lk_Owner l) (Z.quot (lk_TTL l) Second) (lk_AcquiredAt l) (lk_ExpiresAt l).

Definition fromStateLock (r : row) : Lock :=
  MkLock (TrimHost (r_Scope r)) (r_Owner r) (r_AcquiredAt r) (r_ExpiresAt r) (r_TTLSeconds r * Second)%Z.

Definition isUniqueViolation (e : goerr) : bool :=
  Contains (err_text e) "UNIQUE constraint failed" ||
  Contains (err_text e) "duplicate key value violates unique constraint".

Definition effectiveTTL (ttl : Z) : Z := if (ttl <=? 0)%Z then DefaultTTL else ttl.

(** [toStateLock] after [newID]; [CreateLock]; [onUnique] is what the caller does
    when the insert loses a race. *)
Definition insertLock (target owner : string) (now ttl : Z) (wrapCreate : goerr -> goerr) (onUnique : op Lock) : op Lock :=
  query SNewID (EWrap "lock: generate id") (fun a =>
    let r := toStateLock (a_id a) (MkLock target owner now (now + ttl)%Z ttl) in
    Ask (SCreateLock r) (fun a =>
      match a_err a with
      | Some e => if isUniqueViolation e then onUnique else Ret (Err (wrapCreate e))
      | None => Ret (Val (fromStateLock r))
      end)).

(** [stateLockStore.Acquire]. *)
Definition store_Acquire (target owner : string) (ttl : Z) : op Lock :=
  if String.eqb target "" then Ret (Err (ESentinel ErrEmptyTarget))
  else if String.eqb owner "" then Ret (Err (ESentinel ErrEmptyOwner))
  else
    query (SGetLockByScope (scope target)) (EWrap "lock: get existing") (fun a =>
      match a_rows a with
      | x :: _ => Ret (Err (EWrap ("target " +:+ target +:+ " owned by " +:+ r_Owner x) (ESentinel ErrLockHeld)))
      | [] =>
          Ask SNow (fun now =>
            insertLock target owner (a_time now) (effectiveTTL ttl) (EWrap "lock: create")
              (Ret (Err (EWrap ("target " +:+ target +:+ " (concurrent acquirer won the insert)") (ESentinel ErrLockHeld)))))
      end).

(** [stateLockStore.Release]. *)
Definition store_Release (target owner : string) : op unit :=
  if String.eqb target "" then Ret (Err (ESentinel ErrEmptyTarget))
  else
    query (SGetLockByScope (scope target)) (EWrap "lock: get for release") (fun a =>
      match a_rows a with
      | [] => Ret (Err (ESentinel ErrLockNotFound))
      | x :: _ =>
          if negb (String.eqb (r_Owner x) owner)
          then Ret (Err (EWrap ("target " +:+ target +:+ " owned by " +:+ r_Owner x +:+ ", not " +:+ owner) (ESentinel ErrNotOwner)))
          else query (SDeleteLockByIDAndOwner (r_ID x) owner) (EWrap "lock: delete") (fun _ => Ret (Val tt))
      end).

(** [stateLockStore.Get]: [None] is no lock. *)
Definition store_Get (target : string) : op (option Lock) :=
  if String.eqb target "" then Ret (Err (ESentinel ErrEmptyTarget))
  else
    query (SGetLockByScope (scope target)) (EWrap "lock: get") (fun a =>
      match a_rows a with
      | [] => Ret (Val None)
      | x :: _ => Ret (Val (Some (fromStateLock x)))
      end).

(** [stateLockStore.ForceAcquire]; a retry costs one unit of fuel. *)
Fixpoint store_ForceAcquire (fuel : nat) (target owner : string) (ttl : Z) : op Lock :=
  match fuel with
  | O => Ret Spinning
  | S fuel =>
      if String.eqb target "" then Ret (Err (ESentinel ErrEmptyTarget))
      else if String.eqb owner "" then Ret (Err (ESentinel ErrEmptyOwner))
      else
        let ttl := effectiveTTL ttl in
        Ask SNow (fun n =>
        let now := a_time n in
        query (SGetLockByScope (scope target)) (EWrap "lock: get for force acquire") (fun a =>
          match a_rows a with
          | x :: _ =>
              if (now <? r_ExpiresAt x)%Z then Ret (Err (ESentinel ErrLockHeld))
              else
                query (SUpdateLockOwnedBy (r_ID x) owner (Z.quot ttl Second) now) (EWrap "lock: force acquire update") (fun u =>
                  if (a_n u =? 0)%Z then store_ForceAcquire fuel target owner ttl
                  else
                    query (SGetLockByScope (scope target)) (EWrap "lock: force acquire re-read") (fun a =>
                      match a_rows a with
                      | y :: _ => Ret (Val (fromStateLock y))
                      | [] => Ret Panic
                      end))
          | [] =>
              insertLock target owner now ttl (EWrap "lock: force acquire create")
                (store_ForceAcquire fuel target owner ttl)
          end))
  end.

(** [stateLockStore.ListExpired]. *)
Definition store_ListExpired : op (list Lock) :=
  query SListLocks (EWrap "lock: list") (fun a =>
    Ask SNow (fun n => Ret (Val (map fromStateLock (filter (fun x => (r_ExpiresAt x < a_time n)%Z) (a_rows a)))))).

(** ** LockManager *)

Record LockManager := MkLockManager { lm_defaultTTL : Z }.
Definition NewLockManager : LockManager := MkLockManager DefaultTTL.
Definition SetTTL (ttl : Z) (m : LockManager) : LockManager := if (0 <? ttl)%Z then MkLockManager ttl else m.

(** Sequencing of operations: errors are wrapped by the caller. *)
Definition andThen {A B} (p : op A) (wrap : goerr -> goerr) (k : A -> op B) : op B :=
  pbind p (fun r => match r with
                    | Val a => k a
                    | Err e => Ret (Err (wrap e))
                    | Panic => Ret Panic
                    | Spinning => Ret Spinning
                    end).

(** The audit entry of a preemption; failures are ignored. *)
Definition recordAudit {A} (target newOwner : string) (k : op A) : op A :=
  Ask SNewID (fun i =>
    match a_err i with
    | Some _ => k
    | None => Ask SNow (fun n =>
        Ask (SRecordAudit (MkAudit (a_id i) newOwner "lock" newOwner target "success" (a_time n))) (fun _ => k))
    end).

Definition Acquire (fuel : nat) (m : LockManager) (target owner : string) : op Lock :=
  if String.eqb target "" then Ret (Err (ESentinel ErrEmptyTarget))
  else if String.eqb owner "" then Ret (Err (ESentinel ErrEmptyOwner))
  else
    andThen (store_Get target) (EWrap "lock: acquire get") (fun existing =>
      match existing with
      | None => andThen (store_Acquire target owner (lm_defaultTTL m)) (EWrap "lock: acquire") (fun l => Ret (Val l))
      | Some x =>
          Ask SNow (fun n =>
            if negb (Expired existing (a_time n))
            then Ret (Err (EWrap ("target " +:+ target +:+ " owned by " +:+ lk_Owner x) (ESentinel ErrLockHeld)))
            else andThen (store_ForceAcquire fuel target owner (lm_defaultTTL m)) (EWrap "lock: preempt") (fun l =>
                   recordAudit target owner (Ret (Val l))))
      end).

Definition Release (target owner : string) : op unit :=
  andThen (store_Release target owner) (EWrap "lock: release") (fun _ => Ret (Val tt)).

(** [isTargetBusy]: running steps, then pending steps. *)
Definition isTargetBusy (target : string) : op bool :=
  query (SListSteps target "running") (EWrap "list running steps") (fun a =>
    if (0 <? a_n a)%Z then Ret (Val true)
    else query (SListSteps target "pending") (EWrap "list pending steps") (fun a => Ret (Val (0 <? a_n a)%Z))).

Definition CheckAndAcquire (fuel : nat) (m : LockManager) (target owner : string) : op Lock :=
  if String.eqb target "" then Ret (Err (ESentinel ErrEmptyTarget))
  else if String.eqb owner "" then Ret (Err (ESentinel ErrEmptyOwner))
  else
    andThen (isTargetBusy target) (EWrap "lock: check target busy") (fun busy =>
      if busy then Ret (Err (EWrap ("target " +:+ target) (ESentinel ErrTargetBusy)))
      else Acquire fuel m target owner).

Definition CleanExpired : op Z :=
  Ask SNow (fun n => query (SDeleteExpiredLocks (a_time n)) (EWrap "lock: clean expired") (fun a => Ret (Val (a_n a)))).

(** ** Running an operation among others *)

(** What surrounds one call: the statements other actors executed just before
    it, a fault of the store, and the values only the environment knows. *)
Record slot := MkSlot {
  sl_foreign : list stmt;
  sl_fault : option goerr;
  sl_time : Z;
  sl_id : string;
  sl_steps : Z }.

Definition respond (w : slot) (db : list row) (s : stmt) : list row * ans :=
  match s with
  | SNow => (db, MkAns None [] 0 (sl_time w) "")
  | _ =>
      match sl_fault w with
      | Some e => (db, MkAns (Some e) [] 0 0 "")
      | None =>
          match s with
          | SNewID => (db, MkAns None [] 0 0 (sl_id w))
          | SListSteps _ _ => (db, MkAns None [] (sl_steps w) 0 "")
          | _ => dbexec db s
          end
      end
  end.

Fixpoint exec {A} (p : prog stmt ans A) (w : nat -> slot) (n : nat) (db : list row) : A * list row * nat :=
  match p with
  | Ret a => (a, db, n)
  | Ask s k =>
      let db1 := foldl (fun db s => (dbexec db s).1) db (sl_foreign (w n)) in
      let '(db2, a) := respond (w n) db1 s in
      exec (k a) w (S n) db2
  end.

(** ** The table's integrity *)

Definition wf (db : list row) : Prop := NoDup (map r_ID db) /\ NoDup (map r_Scope db).

Lemma NoDup_map_filter {A B} (f : A -> B) (P : A -> Prop) {Pd : forall x, Decision (P x)} (l : list A) :
  NoDup (map f l) -> NoDup (map f (filter P l)).
Proof.
  induction l as [|x l IH]; simpl; [done|]. intros [Hx Hl]%NoDup_cons. rewrite filter_cons.
  destruct (decide (P x)); [|auto]. simpl. apply NoDup_cons. split; [|auto].
  intros Hin. apply Hx. apply list_elem_of_fmap in Hin as (y & -> & Hy). apply list_elem_of_filter in Hy as [_ Hy].
  apply list_elem_of_fmap. eauto.
Qed.

Lemma filter_ext_in {A} (P Q : A -> Prop) {Pd : forall x, Decision (P x)} {Qd : forall x, Decision (Q x)} (l : list A) :
  (forall x, x ∈ l -> P x <-> Q x) -> filter P l = filter Q l.
Proof.
  induction l as [|x l IH]; intros H; [done|]. rewrite !filter_cons, IH by (intros; apply H; set_solver).
  pose proof (H x ltac:(set_solver)). destruct (decide (P x)), (decide (Q x)); tauto || done.
Qed.

Lemma takeOver_keys id owner ttl now db :
  map r_ID (map (takeOver id owner ttl now) db) = map r_ID db /\
  map r_Scope (map (takeOver id owner ttl now) db) = map r_Scope db.
Proof.
  induction db as [|x db [IH1 IH2]]; simpl; [done|]. rewrite IH1, IH2. unfold takeOver.
  destruct (String.eqb_spec (r_ID x) id); simpl; [|done]. destruct (Z.leb _ _); simpl; by subst.
Qed.

Lemma conflicts_false db r :
  conflicts db r = false <-> (r_ID r ∉ map r_ID db) /\ (r_Scope r ∉ map r_Scope db).
Proof.
  unfold conflicts. induction db as [|x db IH]; simpl; [set_solver|].
  rewrite !orb_false_iff, IH, !not_elem_of_cons, !String.eqb_neq. naive_solver.
Qed.

Lemma wf_dbexec db s : wf db -> wf (dbexec db s).1.
Proof.
  intros [Hi Hs]. destruct s; simpl; try done.
  - destruct (conflicts db r) eqn:E; [done|]. apply conflicts_false in E as [E1 E2].
    simpl. split; rewrite map_app; apply NoDup_app; split_and!; try done; try (simpl; apply NoDup_singleton); set_solver.
  - destruct (takeOver_keys id owner ttlSeconds now db) as [H1 H2]. split; by rewrite ?H1, ?H2.
  - split; by apply NoDup_map_filter.
  - split; by apply NoDup_map_filter.
Qed.

Definition runForeign (db : list row) (ss : list stmt) : list row := foldl (fun db s => (dbexec db s).1) db ss.

Lemma wf_foreign db ss : wf db -> wf (runForeign db ss).
Proof. revert db. induction ss as [|s ss IH]; intros db H; simpl; [done|]. apply IH. by apply wf_dbexec. Qed.

Lemma NoDup_map_inj {A B} (f : A -> B) (l : list A) x y :
  NoDup (map f l) -> x ∈ l -> y ∈ l -> f x = f y -> x = y.
Proof.
  induction l as [|z l IH]; simpl; [set_solver|]. intros [Hz Hl]%NoDup_cons Hx Hy Heq.
  apply elem_of_cons in Hx as [->|Hx], Hy as [->|Hy]; auto; exfalso; apply Hz; apply list_elem_of_fmap; eauto.
Qed.

Lemma unique_scope db x y : wf db -> x ∈ db -> y ∈ db -> r_Scope x = r_Scope y -> x = y.
Proof. intros [_ H]. by apply NoDup_map_inj. Qed.

Lemma unique_id db x y : wf db -> x ∈ db -> y ∈ db -> r_ID x = r_ID y -> x = y.
Proof. intros [H _]. by apply NoDup_map_inj. Qed.

Lemma get_by_scope db r :
  wf db -> r ∈ db -> (dbexec db (SGetLockByScope (r_Scope r))).2 = MkAns None [r] 0 0 "".
Proof.
  intros [_ Hnd] Hr. simpl. assert (filter (fun x => r_Scope x = r_Scope r) db = [r]) as ->; [|done].
  induction db as [|x db IH]; [set_solver|]. simpl in Hnd. apply NoDup_cons in Hnd as [Hx Hnd].
  rewrite filter_cons. apply elem_of_cons in Hr as [->|Hr].
  - rewrite decide_True by done. f_equal. clear IH Hnd. induction db as [|y db IH]; [done|]. simpl in Hx.
    rewrite filter_cons, decide_False; [apply IH; set_solver|]. set_solver.
  - rewrite decide_False; [auto|]. intros Heq. apply Hx. rewrite Heq. apply list_elem_of_fmap. eauto.
Qed.

(** ** Exclusion *)

(** Statements that cannot touch the row [r]: takeovers and sweeps dated before
    its expiry, deletions by someone else. *)
Definition polite (r : row) (s : stmt) : Prop :=
  match s with
  | SUpdateLockOwnedBy _ _ _ now => (now < r_ExpiresAt r)%Z
  | SDeleteExpiredLocks now => (now <= r_ExpiresAt r)%Z
  | SDeleteLockByIDAndOwner id owner => ~ (id = r_ID r /\ owner = r_Owner r)
  | _ => True
  end.

Lemma polite_keeps r s db : polite r s -> r ∈ db -> r ∈ (dbexec db s).1.
Proof.
  intros Hp Hr. destruct s; simpl in *; try done.
  - destruct (conflicts db r0); set_solver.
  - apply list_elem_of_fmap. exists r. split; [|done]. unfold takeOver.
    destruct (Z.leb_spec (r_ExpiresAt r) now); [lia|]. by rewrite andb_false_r.
  - apply list_elem_of_filter. split; [|done]. naive_solver.
  - apply list_elem_of_filter. split; [|done]. lia.
Qed.

Lemma polite_foreign r ss db : Forall (polite r) ss -> r ∈ db -> r ∈ runForeign db ss.
Proof.
  intros H. revert db. induction H as [|s ss Hs _ IH]; intros db Hr; simpl; [done|].
  apply IH. by apply polite_keeps.
Qed.

(** A program every statement of which is polite to [r] as long as the clock has
    not reached its expiry. *)
Fixpoint keeps {A} (r : row) (p : prog stmt ans A) : Prop :=
  match p with
  | Ret _ => True
  | Ask s k => polite r s /\ forall a, (s = SNow -> (a_time a < r_ExpiresAt r)%Z) -> keeps r (k a)
  end.

Lemma keeps_bind {A B} r (p : prog stmt ans A) (f : A -> prog stmt ans B) :
  keeps r p -> (forall a, keeps r (f a)) -> keeps r (pbind p f).
Proof. induction p as [a|s k IH]; simpl; [auto|]. intros [Hp Hk] Hf. split; [done|]. eauto. Qed.

Lemma keeps_query {A} r s wrap (k : ans -> op A) :
  polite r s -> (forall a, keeps r (k a)) -> keeps r (query s wrap k).
Proof. intros Hp Hk. split; [done|]. intros a _. by destruct (a_err a). Qed.

Lemma keeps_andThen {A B} r (p : op A) wrap (k : A -> op B) :
  keeps r p -> (forall a, keeps r (k a)) -> keeps r (andThen p wrap k).
Proof. intros Hp Hk. apply keeps_bind; [done|]. by intros []. Qed.

(** The clock and the other actors, as seen from a row: no reading reaches its
    expiry and nobody deletes it in its owner's name. *)
Definition peaceful (r : row) (w : nat -> slot) : Prop :=
  forall n, (sl_time (w n) < r_ExpiresAt r)%Z /\ Forall (polite r) (sl_foreign (w n)).

Lemma respond_keeps r w db s :
  polite r s -> r ∈ db -> r ∈ (respond w db s).1 /\ (wf db -> wf (respond w db s).1).
Proof.
  intros Hp Hr. assert (Hk := polite_keeps r s db Hp Hr). unfold respond.
  destruct s; try done; destruct (sl_fault w); split; try done; apply wf_dbexec.
Qed.

Lemma exec_keeps {A} r (p : prog stmt ans A) w n db :
  keeps r p -> peaceful r w -> r ∈ db -> wf db ->
  let '(_, db', _) := exec p w n db in r ∈ db' /\ wf db'.
Proof.
  intros Hk Hw. revert n db Hk. induction p as [a|s k IH]; intros n db Hk Hr Hwf; simpl; [done|].
  destruct Hk as [Hp Hk]. destruct (Hw n) as [Ht Hf].
  fold (runForeign db (sl_foreign (w n))).
  assert (Hr1 := polite_foreign r _ db Hf Hr). assert (Hwf1 := wf_foreign db (sl_foreign (w n)) Hwf).
  destruct (respond_keeps r (w n) _ s Hp Hr1) as [Hr2 Hwf2].
  destruct (respond (w n) (runForeign db (sl_foreign (w n))) s) as [db2 a] eqn:E.
  apply IH; [|done|by apply Hwf2]. apply Hk. intros ->. simpl in E. by injection E as <- <-.
Qed.

(** The operations, as requests of an actor. *)
Inductive request :=
| ReqAcquire (target owner : string)
| ReqCheckAndAcquire (target owner : string)
| ReqRelease (target owner : string)
| ReqCleanExpired
| ReqStoreAcquire (target owner : string) (ttl : Z)
| ReqForceAcquire (target owner : string) (ttl : Z).

Definition ignore {A} (p : op A) : op unit := andThen p (fun e => e) (fun _ => Ret (Val tt)).

Definition perform (fuel : nat) (m : LockManager) (q : request) : op unit :=
  match q with
  | ReqAcquire t o => ignore (Acquire fuel m t o)
  | ReqCheckAndAcquire t o => ignore (CheckAndAcquire fuel m t o)
  | ReqRelease t o => ignore (Release t o)
  | ReqCleanExpired => ignore CleanExpired
  | ReqStoreAcquire t o ttl => ignore (store_Acquire t o ttl)
  | ReqForceAcquire t o ttl => ignore (store_ForceAcquire fuel t o ttl)
  end.

Definition req_owner (q : request) : option string :=
  match q with
  | ReqRelease _ o => Some o
  | _ => None
  end.

Lemma keeps_insert r target owner now ttl wrap onUnique :
  keeps r onUnique -> keeps r (insertLock target owner now ttl wrap onUnique).
Proof.
  intros Hu. apply keeps_query; [done|]. intros a. split; [done|]. intros a' _.
  destruct (a_err a') as [e|]; [|done]. by destruct (isUniqueViolation e).
Qed.

Lemma keeps_store_Acquire r target owner ttl : keeps r (store_Acquire target owner ttl).
Proof.
  unfold store_Acquire. destruct (String.eqb target ""); [exact I|]. destruct (String.eqb owner ""); [exact I|]. apply keeps_query; [done|]. intros a.
  destruct (a_rows a); [|done]. split; [done|]. intros n _. by apply keeps_insert.
Qed.

Lemma keeps_ForceAcquire r fuel target owner ttl : keeps r (store_ForceAcquire fuel target owner ttl).
Proof.
  revert ttl. induction fuel as [|fuel IH]; intros ttl; [done|].
  cbn [store_ForceAcquire]. destruct (String.eqb target ""); [exact I|]. destruct (String.eqb owner ""); [exact I|].
  split; [done|]. intros n Hn. specialize (Hn eq_refl). apply keeps_query; [done|]. intros a.
  destruct (a_rows a) as [|x ?]; [by apply keeps_insert|].
  destruct (Z.ltb_spec (a_time n) (r_ExpiresAt x)); [done|].
  apply keeps_query; [done|]. intros u. destruct (a_n u =? 0)%Z; [done|].
  apply keeps_query; [done|]. intros a'. by destruct (a_rows a').
Qed.

Lemma keeps_Acquire r fuel m target owner : keeps r (Acquire fuel m target owner).
Proof.
  unfold Acquire. destruct (String.eqb target ""); [exact I|]. destruct (String.eqb owner ""); [exact I|]. apply keeps_andThen.
  - unfold store_Get. destruct (String.eqb target ""); [exact I|]. apply keeps_query; [done|]. intros a. by destruct (a_rows a).
  - intros [x|]; [|by apply keeps_andThen; [apply keeps_store_Acquire|]].
    split; [done|]. intros n _. destruct (negb _); [done|]. apply keeps_andThen; [apply keeps_ForceAcquire|].
    intros l. split; [done|]. intros i _. by destruct (a_err i).
Qed.

Lemma keeps_isTargetBusy r target : keeps r (isTargetBusy target).
Proof. apply keeps_query; [done|]. intros a. destruct (0 <? a_n a)%Z; [done|]. by apply keeps_query. Qed.

Lemma keeps_CheckAndAcquire r fuel m target owner : keeps r (CheckAndAcquire fuel m target owner).
Proof.
  unfold CheckAndAcquire. destruct (String.eqb target ""); [exact I|]. destruct (String.eqb owner ""); [exact I|].
  apply keeps_andThen; [apply keeps_isTargetBusy|]. intros [|]; [done|]. apply keeps_Acquire.
Qed.

Lemma keeps_perform r fuel m q : req_owner q <> Some (r_Owner r) -> keeps r (perform fuel m q).
Proof.
  intros Ho. destruct q; cbn [perform]; (apply keeps_andThen; [|done]); simpl in Ho.
  - apply keeps_Acquire.
  - apply keeps_CheckAndAcquire.
  - apply keeps_andThen; [|done]. unfold store_Release. destruct (String.eqb target ""); [exact I|].
    apply keeps_query; [done|]. intros a. destruct (a_rows a) as [|x ?]; [done|].
    destruct (String.eqb (r_Owner x) owner); [|exact I]. cbn [negb]. apply keeps_query; [|done]. simpl. intros [_ ->]. done.
  - split; [done|]. intros n Hn. specialize (Hn eq_refl). apply keeps_query; [|done]. simpl. lia.
  - apply keeps_store_Acquire.
  - apply keeps_ForceAcquire.
Qed.

Lemma exec_bind {A B} (p : prog stmt ans A) (f : A -> prog stmt ans B) w n db :
  exec (pbind p f) w n db = let '(a, db1, n1) := exec p w n db in exec (f a) w n1 db1.
Proof.
  revert n db. induction p as [a|s k IH]; intros n db; simpl; [done|].
  by destruct (respond _ _ _) as [db2 a].
Qed.

(** In the presence of [r], undisturbed, the operation does not succeed. *)
Definition blocked {A} (r : row) (p : op A) : Prop :=
  forall w n db, peaceful r w -> r ∈ db -> wf db -> forall a, (exec p w n db).1.1 <> Val a.

Lemma blocked_get {A} r wrap (k : ans -> op A) :
  (forall a, a_rows a = [r] -> a_err a = None -> blocked r (k a)) ->
  blocked r (query (SGetLockByScope (r_Scope r)) wrap k).
Proof.
  intros Hk w n db Hw Hr Hwf a. simpl. fold (runForeign db (sl_foreign (w n))).
  assert (Hr1 := polite_foreign r _ db (proj2 (Hw n)) Hr). assert (Hwf1 := wf_foreign db (sl_foreign (w n)) Hwf).
  destruct (sl_fault (w n)) as [e|]; [done|].
  pose proof (get_by_scope _ _ Hwf1 Hr1) as Hg. simpl in Hg. rewrite Hg. simpl. by apply (Hk (MkAns None [r] 0 0 "")).
Qed.

Lemma blocked_andThen_get {A B} r w1 w2 (g : ans -> op A) (k : A -> op B) :
  (forall a, a_rows a = [r] -> a_err a = None -> blocked r (andThen (g a) w2 k)) ->
  blocked r (andThen (query (SGetLockByScope (r_Scope r)) w1 g) w2 k).
Proof.
  intros Hk w n db Hw Hr Hwf b. simpl. fold (runForeign db (sl_foreign (w n))).
  assert (Hr1 := polite_foreign r _ db (proj2 (Hw n)) Hr). assert (Hwf1 := wf_foreign db (sl_foreign (w n)) Hwf).
  destruct (sl_fault (w n)) as [e|]; [done|].
  pose proof (get_by_scope _ _ Hwf1 Hr1) as Hg. simpl in Hg. rewrite Hg. simpl. by apply (Hk (MkAns None [r] 0 0 "")).
Qed.

Lemma blocked_now {A} r (k : ans -> op A) :
  (forall a, (a_time a < r_ExpiresAt r)%Z -> blocked r (k a)) -> blocked r (Ask SNow k).
Proof.
  intros Hk w n db Hw Hr Hwf a. simpl. fold (runForeign db (sl_foreign (w n))).
  apply Hk; [apply Hw|done| |by apply wf_foreign]. apply polite_foreign; [apply Hw|done].
Qed.

Lemma blocked_andThen {A B} r (p : op A) wrap (k : A -> op B) :
  keeps r p -> (blocked r p \/ forall a, blocked r (k a)) -> blocked r (andThen p wrap k).
Proof.
  intros Hp Hk w n db Hw Hr Hwf b. unfold andThen. rewrite exec_bind.
  pose proof (exec_keeps r p w n db Hp Hw Hr Hwf) as Hkeep.
  destruct Hk as [Hk|Hk]; [specialize (Hk w n db Hw Hr Hwf)|]; destruct (exec p w n db) as [[[a|e| |] db1] n1];
    simpl in *; try done; [by destruct (Hk a)|]. destruct Hkeep. by apply Hk.
Qed.

Lemma blocked_err {A} r e : blocked r (Ret (Err e) : op A).
Proof. done. Qed.

Lemma blocked_store_Acquire r target owner ttl :
  scope target = r_Scope r -> blocked r (store_Acquire target owner ttl).
Proof.
  intros Hs. unfold store_Acquire. rewrite Hs.
  destruct (String.eqb target ""); [apply blocked_err|]. destruct (String.eqb owner ""); [apply blocked_err|].
  apply blocked_get. intros a -> _. apply blocked_err.
Qed.

Lemma blocked_ForceAcquire r fuel target owner ttl :
  scope target = r_Scope r -> blocked r (store_ForceAcquire fuel target owner ttl).
Proof.
  intros Hs. destruct fuel as [|fuel]; [done|]. cbn [store_ForceAcquire]. rewrite Hs.
  destruct (String.eqb target ""); [apply blocked_err|]. destruct (String.eqb owner ""); [apply blocked_err|].
  apply blocked_now. intros n Hn. apply blocked_get. intros a -> _.
  rewrite (proj2 (Z.ltb_lt _ _)) by done. apply blocked_err.
Qed.

Lemma blocked_Acquire r fuel m target owner :
  scope target = r_Scope r -> blocked r (Acquire fuel m target owner).
Proof.
  intros Hs. unfold Acquire, store_Get.
  destruct (String.eqb target "") eqn:E1; [apply blocked_err|]. destruct (String.eqb owner ""); [apply blocked_err|].
  rewrite Hs. apply blocked_andThen_get. intros a -> _. cbn [andThen pbind].
  apply blocked_now. intros n Hn. unfold Expired. cbn [lk_ExpiresAt fromStateLock].
  rewrite (proj2 (Z.ltb_lt _ _)) by done. destruct (_ =? 0)%Z; apply blocked_err.
Qed.

(** ** Theorems *)


Definition slotAt (t : Z) : slot := MkSlot [] None t "lock-1" 0.
Definition heldRow : row := MkRow "lock-0" "host:h1" "run-1" 60 100 (100 + 60 * Second).

(** Another run asks for the held target while a sweeper and a third run are at work. *)
Definition busyWorld : nat -> slot := fun _ =>
  MkSlot [SDeleteExpiredLocks 500; SUpdateLockOwnedBy "lock-0" "run-3" 60 500] None 500 "lock-9" 0.


(** ** Operations undisturbed *)

Definition quiet (w : nat -> slot) : Prop := forall n, sl_foreign (w n) = [] /\ sl_fault (w n) = None.

Lemma substring_all s : String.substring 0 (String.length s) s = s.
Proof. induction s as [|c s IH]; simpl; [done|]. by rewrite IH. Qed.

Lemma TrimHost_scope t : TrimHost (scope t) = t.
Proof.
  unfold TrimHost, scope. simpl. rewrite Nat.sub_0_r. destruct t as [|c t]; [done|].
  apply (substring_all (String c t)).
Qed.

Lemma exec_ask {A} w n db s (k : ans -> prog stmt ans A) :
  quiet w -> s <> SNow -> s <> SNewID -> (forall h st, s <> SListSteps h st) ->
  exec (Ask s k) w n db = exec (k (dbexec db s).2) w (S n) (dbexec db s).1.
Proof.
  intros Hq H1 H2 H3. destruct (Hq n) as [Hf Hfault]. cbn [exec]. rewrite Hf. cbn [foldl]. unfold respond. rewrite Hfault.
  destruct s; try done; try (by destruct (H3 host status));
    match goal with |- context [dbexec db ?x] => destruct (dbexec db x) end; done.
Qed.

Lemma exec_now {A} w n db (k : ans -> prog stmt ans A) :
  quiet w -> exec (Ask SNow k) w n db = exec (k (MkAns None [] 0 (sl_time (w n)) "")) w (S n) db.
Proof. intros Hq. simpl. by destruct (Hq n) as [-> _]. Qed.

Lemma exec_newID {A} w n db (k : ans -> prog stmt ans A) :
  quiet w -> exec (Ask SNewID k) w n db = exec (k (MkAns None [] 0 0 (sl_id (w n)))) w (S n) db.
Proof. intros Hq. simpl. by destruct (Hq n) as [-> ->]. Qed.

Lemma get_none db sc :
  (forall x, x ∈ db -> r_Scope x <> sc) -> dbexec db (SGetLockByScope sc) = (db, noAns).
Proof.
  intros H. simpl. assert (filter (fun x => r_Scope x = sc) db = []) as ->; [|done].
  induction db as [|x db IH]; [done|]. rewrite filter_cons, decide_False by (apply H; set_solver). apply IH. set_solver.
Qed.

Lemma Acquire_start fuel m target owner w n db :
  quiet w -> target <> "" -> owner <> "" ->
  exec (Acquire fuel m target owner) w n db =
  match a_rows (dbexec db (SGetLockByScope (scope target))).2 with
  | [] => exec (andThen (store_Acquire target owner (lm_defaultTTL m)) (EWrap "lock: acquire") (fun l => Ret (Val l))) w (S n) db
  | x :: _ =>
      if negb (Expired (Some (fromStateLock x)) (sl_time (w (S n))))
      then (Err (EWrap ("target " +:+ target +:+ " owned by " +:+ r_Owner x) (ESentinel ErrLockHeld)), db, S (S n))
      else exec (andThen (store_ForceAcquire fuel target owner (lm_defaultTTL m)) (EWrap "lock: preempt") (fun l =>
                   recordAudit target owner (Ret (Val l)))) w (S (S n)) db
  end.
Proof.
  intros Hq Ht Ho. unfold Acquire, store_Get.
  rewrite (proj2 (String.eqb_neq target "") Ht), (proj2 (String.eqb_neq owner "") Ho).
  unfold andThen at 1, query. cbn [pbind]. rewrite exec_ask by done. cbn [dbexec a_err a_rows fst snd].
  destruct (filter _ db) as [|x l]; cbn [a_rows pbind]; [done|].
  rewrite exec_now by done. cbn [a_time]. by destruct (negb _).
Qed.

Lemma exec_Acquire_held fuel m target owner w n db x :
  quiet w -> wf db -> target <> "" -> owner <> "" -> x ∈ db -> r_Scope x = scope target ->
  (sl_time (w (S n)) < r_ExpiresAt x)%Z ->
  exec (Acquire fuel m target owner) w n db =
  (Err (EWrap ("target " +:+ target +:+ " owned by " +:+ r_Owner x) (ESentinel ErrLockHeld)), db, S (S n)).
Proof.
  intros Hq Hwf Ht Ho Hx Hs Hlt. rewrite Acquire_start by done.
  rewrite <- Hs, (get_by_scope db x Hwf Hx). cbn [a_rows]. unfold Expired. cbn [lk_ExpiresAt fromStateLock].
  rewrite (proj2 (Z.ltb_lt _ _)) by done. by destruct (_ =? 0)%Z.
Qed.

Lemma exec_Acquire_free fuel m target owner w n db :
  quiet w -> target <> "" -> owner <> "" -> (0 < lm_defaultTTL m)%Z ->
  (forall x, x ∈ db -> r_Scope x <> scope target) -> (sl_id (w (S (S (S n)))) ∉ map r_ID db) ->
  let now := sl_time (w (S (S n))) in let ttl := lm_defaultTTL m in
  exec (Acquire fuel m target owner) w n db =
  (Val (MkLock target owner now (now + ttl) (Z.quot ttl Second * Second)),
   db ++ [MkRow (sl_id (w (S (S (S n))))) (scope target) owner (Z.quot ttl Second) now (now + ttl)],
   S (S (S (S (S n))))).
Proof.
  intros Hq Ht Ho Httl Hfree Hid now ttl. rewrite Acquire_start by done.
  rewrite (get_none db (scope target)) by done. cbn [snd a_rows noAns].
  unfold andThen, store_Acquire.
  rewrite (proj2 (String.eqb_neq target "") Ht), (proj2 (String.eqb_neq owner "") Ho).
  unfold query at 1. cbn [pbind]. rewrite exec_ask by done. rewrite (get_none db (scope target)) by done.
  cbn [fst snd a_err a_rows noAns pbind]. rewrite exec_now by done. cbn [a_time].
  unfold insertLock, query. cbn [pbind]. rewrite exec_newID by done. cbn [a_err a_id pbind].
  rewrite exec_ask by done. unfold effectiveTTL. rewrite (proj2 (Z.leb_gt _ _)) by done.
  cbn [dbexec]. rewrite (proj2 (conflicts_false _ _)).
  - cbn [fst snd a_err noAns pbind exec]. unfold fromStateLock, toStateLock.
    cbn [lk_Target lk_Owner lk_TTL lk_AcquiredAt lk_ExpiresAt r_Scope r_Owner r_AcquiredAt r_ExpiresAt r_TTLSeconds].
    by rewrite TrimHost_scope.
  - split; [done|]. cbn [r_Scope toStateLock lk_Target]. intros Hin.
    apply list_elem_of_fmap in Hin as (x & Heq & Hx). by apply (Hfree x Hx).
Qed.

Lemma takeOver_in id owner ttl now db x :
  x ∈ db -> r_ID x = id -> (r_ExpiresAt x <= now)%Z ->
  MkRow id (r_Scope x) owner ttl now (now + ttl * Second)%Z ∈ map (takeOver id owner ttl now) db /\
  length (filter (fun y => r_ID y = id /\ (r_ExpiresAt y <= now)%Z) db) <> 0.
Proof.
  intros Hx Hid Hle. split.
  - apply list_elem_of_fmap. exists x. split; [|done]. unfold takeOver.
    by rewrite Hid, String.eqb_refl, (proj2 (Z.leb_le _ _)) by done.
  - intros Hz. apply nil_length_inv in Hz. assert (Hin : x ∈ filter (fun y => r_ID y = id /\ (r_ExpiresAt y <= now)%Z) db).
    { by apply list_elem_of_filter. } rewrite Hz in Hin. inversion Hin.
Qed.

Lemma exec_Force_expired fuel target owner ttl w n db x :
  quiet w -> wf db -> target <> "" -> owner <> "" -> (0 < ttl)%Z ->
  x ∈ db -> r_Scope x = scope target -> (r_ExpiresAt x <= sl_time (w n))%Z ->
  let now := sl_time (w n) in let secs := Z.quot ttl Second in
  exec (store_ForceAcquire (S fuel) target owner ttl) w n db =
  (Val (MkLock target owner now (now + secs * Second) (secs * Second)),
   map (takeOver (r_ID x) owner secs now) db, S (S (S (S n)))).
Proof.
  intros Hq Hwf Ht Ho Httl Hx Hs Hle now secs. cbn [store_ForceAcquire].
  rewrite (proj2 (String.eqb_neq target "") Ht), (proj2 (String.eqb_neq owner "") Ho).
  rewrite exec_now by done. cbn [a_time]. unfold query at 1. rewrite exec_ask by done.
  rewrite <- Hs, (get_by_scope db x Hwf Hx). cbn [a_err a_rows fst dbexec].
  rewrite (proj2 (Z.ltb_ge _ _)) by done. unfold query at 1. rewrite exec_ask by done.
  unfold effectiveTTL. rewrite (proj2 (Z.leb_gt _ _)) by done. cbn [dbexec fst snd a_err a_n].
  destruct (takeOver_in (r_ID x) owner secs now db x Hx eq_refl Hle) as [Hin Hn].
  rewrite (proj2 (Z.eqb_neq _ _)) by (fold now; lia). unfold query at 1. rewrite exec_ask by done.
  assert (Hwf' : wf (map (takeOver (r_ID x) owner secs now) db)).
  { apply (wf_dbexec db (SUpdateLockOwnedBy (r_ID x) owner secs now) Hwf). }
  pose proof (get_by_scope _ _ Hwf' Hin) as Hg. cbn [r_Scope] in Hg.
  fold now secs. rewrite Hg. cbn [a_err a_rows fst dbexec exec]. unfold fromStateLock.
  cbn [r_Scope r_Owner r_AcquiredAt r_ExpiresAt r_TTLSeconds]. by rewrite Hs, TrimHost_scope.
Qed.

Lemma exec_Acquire_expired fuel m target owner w n db x :
  quiet w -> wf db -> target <> "" -> owner <> "" -> (0 < lm_defaultTTL m)%Z ->
  x ∈ db -> r_Scope x = scope target -> r_ExpiresAt x <> 0%Z ->
  (r_ExpiresAt x <= sl_time (w (S n)))%Z -> (r_ExpiresAt x <= sl_time (w (S (S n))))%Z ->
  let now := sl_time (w (S (S n))) in let secs := Z.quot (lm_defaultTTL m) Second in
  exec (Acquire (S fuel) m target owner) w n db =
  (Val (MkLock target owner now (now + secs * Second) (secs * Second)),
   map (takeOver (r_ID x) owner secs now) db, 9 + n).
Proof.
  intros Hq Hwf Ht Ho Httl Hx Hs Hnz H1 H2 now secs. rewrite Acquire_start by done.
  rewrite <- Hs, (get_by_scope db x Hwf Hx). cbn [a_rows]. unfold Expired. cbn [lk_ExpiresAt fromStateLock].
  rewrite (proj2 (Z.eqb_neq _ _)), (proj2 (Z.ltb_ge _ _)) by done. cbn [negb].
  unfold andThen. rewrite exec_bind, (exec_Force_expired fuel target owner _ w (S (S n)) db x) by done.
  unfold recordAudit. rewrite exec_newID by done. cbn [a_err a_id]. rewrite exec_now by done.
  by rewrite exec_ask by done.
Qed.

(** Acquiring, undisturbed, does the documented thing in each case. A free
    target is locked for the caller until now plus the TTL; a target with an
    unexpired lock is refused with [ErrLockHeld] and the table is untouched; an
    expired lock is taken over: same row and id, the new owner, a fresh expiry,
    every other row untouched. *)
Theorem acquire_functional (fuel : nat) (m : LockManager) (target owner : string) (w : nat -> slot) (n : nat) (db : list row)
    (Hq : quiet w) (Hwf : wf db) (Ht : target <> "") (Ho : owner <> "") (Hfuel : 0 < fuel) (Httl : (0 < lm_defaultTTL m)%Z) :
  let ttl := lm_defaultTTL m in
  let '(out, db', _) := exec (Acquire fuel m target owner) w n db in
  ((forall x, x ∈ db -> r_Scope x <> scope target) -> (sl_id (w (S (S (S n)))) ∉ map r_ID db) ->
     let now := sl_time (w (S (S n))) in
     db' = db ++ [MkRow (sl_id (w (S (S (S n))))) (scope target) owner (Z.quot ttl Second) now (now + ttl)] /\
     out = Val (MkLock target owner now (now + ttl) (Z.quot ttl Second * Second))) /\
  (forall x, x ∈ db -> r_Scope x = scope target -> (sl_time (w (S n)) < r_ExpiresAt x)%Z ->
     db' = db /\ exists e, out = Err e /\ errors_Is e ErrLockHeld = true) /\
  (forall x, x ∈ db -> r_Scope x = scope target -> r_ExpiresAt x <> 0%Z ->
     (r_ExpiresAt x <= sl_time (w (S n)))%Z -> (r_ExpiresAt x <= sl_time (w (S (S n))))%Z ->
     let now := sl_time (w (S (S n))) in
     let secs := Z.quot ttl Second in
     db' = map (takeOver (r_ID x) owner secs now) db /\
     out = Val (MkLock target owner now (now + secs * Second) (secs * Second))).
Proof.
  cbv zeta. destruct (exec (Acquire fuel m target owner) w n db) as [[out db'] n'] eqn:E. split_and!.
  - intros Hfree Hid. rewrite (exec_Acquire_free fuel m target owner w n db) in E by done. by injection E as <- <- _.
  - intros x Hx Hs Hlt. rewrite (exec_Acquire_held fuel m target owner w n db x) in E by done. injection E as <- <- _. eauto.
  - intros x Hx Hs Hnz H1 H2. destruct fuel as [|fuel]; [lia|].
    rewrite (exec_Acquire_expired fuel m target owner w n db x) in E by done. by injection E as <- <- _.
Qed.

Definition quietWorld (t : Z) : nat -> slot := fun _ => slotAt t.

Lemma acquire_functional_witness :
  exec (Acquire 1 NewLockManager "h1" "run-2") (quietWorld (100 + 61 * Second)) 0 [heldRow]
  = (Val (MkLock "h1" "run-2" (100 + 61 * Second) (100 + 3661 * Second) (3600 * Second)),
     map (takeOver "lock-0" "run-2" 3600 (100 + 61 * Second)) [heldRow], 9).
Proof.
  assert (Hq : quiet (quietWorld (100 + 61 * Second))) by done.
  assert (Hwf : wf [heldRow]) by (split; apply NoDup_singleton).
  pose proof (acquire_functional 1 NewLockManager "h1" "run-2" (quietWorld (100 + 61 * Second)) 0 [heldRow]
    Hq Hwf ltac:(done) ltac:(done) ltac:(lia) ltac:(done)) as H.
  destruct H as (_ & _ & H3). destruct (H3 heldRow) as [_ _]; [by left|done|done|done|done|].
  vm_compute. reflexivity.
Defined.

(** A release, undisturbed, deletes the caller's lock on the target and
    nothing else; without a lock it reports [ErrLockNotFound], with another
    owner's lock [ErrNotOwner], and both leave the table alone. *)
Theorem release_functional (target owner : string) (w : nat -> slot) (n : nat) (db : list row)
    (Hq : quiet w) (Hwf : wf db) (Ht : target <> "") :
  let '(out, db', _) := exec (Release target owner) w n db in
  ((forall x, x ∈ db -> r_Scope x <> scope target) ->
     db' = db /\ out = Err (EWrap "lock: release" (ESentinel ErrLockNotFound))) /\
  (forall x, x ∈ db -> r_Scope x = scope target ->
     if decide (r_Owner x = owner) then db' = filter (fun y => y <> x) db /\ out = Val tt
     else db' = db /\ exists e, out = Err e /\ errors_Is e ErrNotOwner = true).
Proof.
  unfold Release, store_Release. rewrite (proj2 (String.eqb_neq target "") Ht).
  unfold andThen, query. cbn [pbind]. rewrite exec_ask by done.
  destruct (decide (Exists (fun x => r_Scope x = scope target) db)) as [(x & Hx & Hs)%Exists_exists|Hno].
  - rewrite <- Hs, (get_by_scope db x Hwf Hx). cbn [a_err a_rows dbexec fst].
    destruct (String.eqb_spec (r_Owner x) owner) as [Ho|Ho]; cbn [negb pbind].
    + rewrite exec_ask by done. cbn [dbexec fst snd a_err pbind exec]. split; [intros Hn; by destruct (Hn x Hx)|].
      intros y Hy Hsy. assert (y = x) as -> by (by apply (unique_scope db)). rewrite decide_True by done.
      split; [|done]. apply filter_ext_in. intros y' Hy'. split; [intros Hne ->; naive_solver|].
      intros Hne [Hid _]. apply Hne. by apply (unique_id db).
    + cbn [exec]. split; [intros Hn; by destruct (Hn x Hx)|]. intros y Hy Hsy.
      assert (y = x) as -> by (by apply (unique_scope db)). rewrite decide_False by done. eauto.
  - assert (Hn : forall x, x ∈ db -> r_Scope x <> scope target) by (intros x Hx Hs; apply Hno, Exists_exists; eauto).
    rewrite (get_none db) by done. cbn [snd fst a_err a_rows noAns pbind exec].
    split; [done|]. intros x Hx Hs. by destruct (Hn x Hx).
Qed.

Lemma release_functional_witness :
  exec (Release "h1" "run-1") (quietWorld 200) 0 [heldRow] = (Val tt, [], 2).
Proof.
  assert (Hwf : wf [heldRow]) by (split; apply NoDup_singleton).
  pose proof (release_functional "h1" "run-1" (quietWorld 200) 0 [heldRow] ltac:(done) Hwf ltac:(done)) as [_ H].
  specialize (H heldRow ltac:(by left) eq_refl). vm_compute. reflexivity.
Defined.

(** ** Retries of a forced acquire *)

(** Foreign statements in the [k] slots from [n]. *)
Definition interference (w : nat -> slot) (n k : nat) : nat :=
  sum_list_with (fun i => length (sl_foreign (w i))) (seq n k).

Lemma interference_split w n a b : interference w n (a + b) = interference w n a + interference w (n + a) b.
Proof. unfold interference. by rewrite seq_app, sum_list_with_app. Qed.

(** Ids drawn are new, and no fault of the store reads like a lost insert. *)
Definition orderly (w : nat -> slot) (db : list row) : Prop :=
  (forall i, sl_id (w i) ∉ map r_ID db) /\
  (forall i j r, SCreateLock r ∈ sl_foreign (w j) -> r_ID r <> sl_id (w i)) /\
  (forall i e, sl_fault (w i) = Some e -> isUniqueViolation e = false).

Lemma ids_dbexec db s x :
  x ∈ map r_ID (dbexec db s).1 -> x ∈ map r_ID db \/ exists r, s = SCreateLock r /\ r_ID r = x.
Proof.
  destruct s; simpl; try tauto.
  - destruct (conflicts db r); [tauto|]. simpl. rewrite map_app. intros [?|Hx]%elem_of_app; [tauto|].
    right. exists r. set_solver.
  - rewrite (proj1 (takeOver_keys _ _ _ _ _)). tauto.
  - intros (y & -> & [_ Hy]%list_elem_of_filter)%list_elem_of_fmap. left. apply list_elem_of_fmap. eauto.
  - intros (y & -> & [_ Hy]%list_elem_of_filter)%list_elem_of_fmap. left. apply list_elem_of_fmap. eauto.
Qed.

Lemma orderly_foreign w db i : orderly w db -> orderly w (runForeign db (sl_foreign (w i))).
Proof.
  intros (H1 & H2 & H3). split_and!; [|done|done]. intros j Hin.
  assert (Hgen : forall ss db, (forall r, SCreateLock r ∈ ss -> r_ID r <> sl_id (w j)) ->
    sl_id (w j) ∈ map r_ID (runForeign db ss) -> sl_id (w j) ∈ map r_ID db).
  { induction ss as [|s ss IH]; intros db' Hss Hx; simpl in *; [done|].
    apply IH in Hx; [|set_solver]. apply ids_dbexec in Hx as [?|(r & -> & Hr)]; [done|].
    destruct (Hss r); [set_solver|done]. }
  apply (H1 j). apply (Hgen (sl_foreign (w i))); [eauto|done].
Qed.

Lemma orderly_takeOver w db id owner secs now : orderly w db -> orderly w (map (takeOver id owner secs now) db).
Proof.
  intros (H1 & H2 & H3). split_and!; [|done|done]. intros i. rewrite (proj1 (takeOver_keys _ _ _ _ _)). apply H1.
Qed.

(** An insert under a fresh id, for a scope no row has, does not conflict. *)
Lemma absent_no_conflict db r :
  r_ID r ∉ map r_ID db -> filter (fun x => r_Scope x = r_Scope r) db = [] -> conflicts db r = false.
Proof.
  intros Hid Hget. apply conflicts_false. split; [done|].
  intros (y & Hy & Hyin)%list_elem_of_fmap.
  assert (y ∈ filter (fun x => r_Scope x = r_Scope r) db) as Hbad by (by apply list_elem_of_filter).
  rewrite Hget in Hbad. inversion Hbad.
Qed.

(** One attempt: either it ends without spinning, or it goes around again from a
    later slot, on an orderly table, having met interference on the way. *)
Lemma force_attempt fuel target owner ttl w n db :
  orderly w db ->
  (exec (store_ForceAcquire (S fuel) target owner ttl) w n db).1.1 <> Spinning \/
  exists ttl' k db', 0 < interference w n k /\ orderly w db' /\
    exec (store_ForceAcquire (S fuel) target owner ttl) w n db =
    exec (store_ForceAcquire fuel target owner ttl') w (n + k) db'.
Proof.
  intros Hord. cbn [store_ForceAcquire].
  destruct (String.eqb target ""); [by left|]. destruct (String.eqb owner ""); [by left|].
  cbn [exec respond]. fold (runForeign db (sl_foreign (w n))).
  apply (orderly_foreign w db n) in Hord. set (db0 := runForeign db _) in *. clearbody db0.
  cbn [query exec]. fold (runForeign db0 (sl_foreign (w (S n)))).
  apply (orderly_foreign w db0 (S n)) in Hord. set (db1 := runForeign db0 _) in *. clearbody db1.
  unfold respond. destruct (sl_fault (w (S n))); [by left|]. cbn [dbexec a_err a_rows a_time].
  destruct (filter (fun x => r_Scope x = scope target) db1) as [|x l] eqn:Hget; cbn [a_rows].
  - (* insert *)
    unfold insertLock. cbn [query exec]. fold (runForeign db1 (sl_foreign (w (S (S n))))).
    pose proof (orderly_foreign w db1 (S (S n)) Hord) as Hord2.
    set (db2 := runForeign db1 _) in *. unfold respond. destruct (sl_fault (w (S (S n)))); [by left|].
    cbn [a_err a_id exec]. fold (runForeign db2 (sl_foreign (w (S (S (S n)))))).
    pose proof (orderly_foreign w db2 (S (S (S n))) Hord2) as Hord3. set (db3 := runForeign db2 _) in *.
    set (r := toStateLock _ _). unfold respond. destruct (sl_fault (w (S (S (S n))))) as [e|] eqn:Hf.
    { cbn [a_err]. rewrite (proj2 (proj2 Hord) _ _ Hf). by left. }
    cbn [dbexec]. destruct (conflicts db3 r) eqn:Hc; [|by left]. cbn [a_err].
    assert (Hu : isUniqueViolation (EWrap "state: create lock" (EText "UNIQUE constraint failed: locks.scope")) = true)
      by (vm_compute; reflexivity).
    rewrite Hu. right. exists (effectiveTTL ttl), 4, db3. split_and!; [|done|by rewrite Nat.add_comm].
    unfold interference. cbn [seq sum_list_with].
    destruct (sl_foreign (w (S (S n)))) eqn:Hf2; [|simpl; lia]. destruct (sl_foreign (w (S (S (S n))))) eqn:Hf3; [|simpl; lia].
    exfalso. assert (db3 = db1) as Hd by (unfold db3, db2; rewrite ?Hf2, ?Hf3; done). rewrite Hd in Hc.
    rewrite absent_no_conflict in Hc; [done|apply (proj1 Hord)|exact Hget].
  - (* takeover *)
    destruct (Z.ltb_spec (sl_time (w n)) (r_ExpiresAt x)); [by left|].
    cbn [query exec]. fold (runForeign db1 (sl_foreign (w (S (S n))))).
    pose proof (orderly_foreign w db1 (S (S n)) Hord) as Hord2. set (db2 := runForeign db1 _) in *.
    unfold respond. destruct (sl_fault (w (S (S n)))); [by left|]. cbn [dbexec a_err a_n].
    set (secs := Z.quot _ _). set (now := sl_time (w n)) in *.
    destruct (_ =? 0)%Z eqn:Hz.
    + right. exists (effectiveTTL ttl), 3, (map (takeOver (r_ID x) owner secs now) db2).
      split_and!; [|by apply orderly_takeOver|by rewrite Nat.add_comm].
      unfold interference. cbn [seq sum_list_with]. destruct (sl_foreign (w (S (S n)))) eqn:Hf2; [|simpl; lia].
        exfalso. assert (db2 = db1) as Hd by (unfold db2; rewrite ?Hf2; done). rewrite Hd in Hz.
        assert (x ∈ filter (fun x => r_Scope x = scope target) db1) as Hx by (rewrite Hget; by left).
        apply list_elem_of_filter in Hx as [_ Hx].
        destruct (takeOver_in (r_ID x) owner secs now db1 x Hx eq_refl ltac:(unfold now; lia)) as [_ Hn]. lia.
    + left. cbn [query exec]. unfold respond. destruct (sl_fault _); [done|]. cbn [dbexec a_err a_rows].
      match goal with |- context [filter ?P ?l] => destruct (filter P l) end; intros Hbad; discriminate Hbad.
Qed.

(** A forced acquire terminates: it goes around again only when another actor
    changed the table in between, so it returns within as many attempts as there
    are such statements, plus one. *)
Theorem force_acquire_terminates (fuel : nat) (target owner : string) (ttl : Z) (w : nat -> slot) (n : nat) (db : list row)
    (B : nat) (Hord : orderly w db) (HB : forall k, interference w n k <= B) (Hfuel : B < fuel) :
  (exec (store_ForceAcquire fuel target owner ttl) w n db).1.1 <> Spinning.
Proof.
  revert ttl n db B Hord HB Hfuel. induction fuel as [|fuel IH]; intros ttl n db B Hord HB Hfuel; [lia|].
  destruct (force_attempt fuel target owner ttl w n db Hord) as [?|(ttl' & k & db' & Hk & Hord' & ->)]; [done|].
  apply (IH _ _ _ (B - interference w n k)); [done| |specialize (HB k); lia].
  intros k'. specialize (HB (k + k')). rewrite interference_split in HB. lia.
Qed.

(** One rival takes the expired lock over between the read and the update. *)
Definition rivalWorld : nat -> slot := fun i =>
  if Nat.eqb i 2 then MkSlot [SUpdateLockOwnedBy "lock-0" "run-3" 60 (100 + 61 * Second)] None (100 + 61 * Second) "lock-5" 0
  else slotAt (100 + 61 * Second).

Lemma force_acquire_terminates_witness :
  (exec (store_ForceAcquire 2 "h1" "run-2" (60 * Second)) rivalWorld 0 [heldRow]).1.1 <> Spinning.
Proof.
  apply (force_acquire_terminates 2 "h1" "run-2" (60 * Second) rivalWorld 0 [heldRow] 1).
  - split_and!.
    + intros i. unfold rivalWorld. destruct (Nat.eqb i 2); simpl; set_solver.
    + intros i j r Hin. unfold rivalWorld in Hin. destruct (Nat.eqb j 2); simpl in Hin; set_solver.
    + intros i e He. unfold rivalWorld in He. by destruct (Nat.eqb i 2).
  - intros k. assert (Hz : forall a m, 3 <= a -> interference rivalWorld a m = 0).
    { intros a m. revert a. induction m as [|m IH]; intros a Ha; [done|].
      change (interference rivalWorld a (S m)) with (length (sl_foreign (rivalWorld a)) + interference rivalWorld (S a) m).
      rewrite IH by lia. unfold rivalWorld. by destruct (Nat.eqb_spec a 2); [lia|]. }
    destruct (Nat.le_gt_cases k 3) as [Hle|Hgt].
    + destruct k as [|[|[|[|k]]]]; vm_compute; lia.
    + replace k with (3 + (k - 3)) by lia. rewrite interference_split, (Hz (0 + 3) (k - 3)) by lia. vm_compute. lia.
  - lia.
Defined.

(** ** Observed behaviours *)

(** The documented "unconditional" takeover refuses an unexpired lock. *)
Lemma force_acquire_is_conditional :
  (exec (store_ForceAcquire 1 "h1" "run-2" (60 * Second)) (quietWorld 500) 0 [heldRow]).1.1 = Err (ESentinel ErrLockHeld).
Proof. vm_compute. reflexivity. Qed.

(** A TTL below one second is truncated to zero seconds by the takeover: the lock
    it returns is already expired at the time it was taken. *)
Lemma subsecond_takeover_is_expired :
  let now := (100 + 61 * Second)%Z in
  match (exec (store_ForceAcquire 1 "h1" "run-2" 500000000) (quietWorld now) 0 [heldRow]).1.1 with
  | Val l => Expired (Some l) now = true
  | _ => False
  end.
Proof. vm_compute. reflexivity. Qed.

(** If the row is swept between the takeover and the re-read, the nil row is
    dereferenced. *)
Lemma force_acquire_reread_panics :
  let now := (100 + 61 * Second)%Z in
  let w := fun i => if Nat.eqb i 3 then MkSlot [SDeleteExpiredLocks (now + 1)%Z] None now "lock-5" 0 else slotAt now in
  (exec (store_ForceAcquire 1 "h1" "run-2" 500000000) w 0 [heldRow]).1.1 = Panic.
Proof. vm_compute. reflexivity. Qed.

End Lock.
