(* ===== verification/Verify.v ===== *)
(** * Verify: gates, the gate manager and gate materialisation

    The gate registry and the concurrent phase runner of
    src/internal/verify/gate.go, and the compilation of a plan's inline gate
    declarations into registered gates (src/internal/engine/step_gates.go). What
    a gate's [Check] answers is the environment's; the order in which the
    goroutines report, and the moment the context ends, are an arrival list. *)

From Stdlib Require Import ZArith Lia Ascii.
From stdpp Require Import base gmap strings list sorting pretty.
From S2P Require Import Prelude Dsl Plan.
Import Dsl Plan.
Open Scope string_scope.
Open Scope list_scope.

Module Verify.

Definition GatePhase := string.
Definition PhasePreApply : GatePhase := "pre_apply".
Definition PhasePostBatch : GatePhase := "post_batch".
Definition PhasePostApply : GatePhase := "post_apply".
Definition PhaseGracePeriod : GatePhase := "grace_period".
Definition AllPhases : list GatePhase := [PhasePreApply; PhasePostBatch; PhasePostApply; PhaseGracePeriod].

Record GateResult := MkGateResult {
  gr_Passed : bool;
  gr_Message : string;
  gr_Details : list (string * any) }.

(** ** Gates *)

(** The gates the engine builds, with what their constructors are given, and the
    built-in no-op gate. *)
Inductive Gate :=
| CommandGate (name : string) (phase : GatePhase) (cmd : string) (expectExit : Z)
    (expectStdout : option string) (timeout : option Z)
| ProbeGate (name : string) (phase : GatePhase) (params : list (string * any))
| SLOGate (name query : string) (threshold : Z * positive) (comparison source : string) (timeout : Z)
| HumanGate (name : string) (phase : GatePhase) (params : list (string * any))
| PluginGate (name : string) (phase : GatePhase) (plugin : string) (params : list (string * any)) (timeout : string)
| NoopGate (name : string) (phase : GatePhase) (pass : bool).

Definition gate_Name (g : Gate) : string :=
  match g with
  | CommandGate n _ _ _ _ _ | ProbeGate n _ _ | SLOGate n _ _ _ _ _ | HumanGate n _ _ | PluginGate n _ _ _ _
  | NoopGate n _ _ => n
  end.

Definition gate_Phase (g : Gate) : GatePhase :=
  match g with
  | CommandGate _ p _ _ _ _ | ProbeGate _ p _ | HumanGate _ p _ | PluginGate _ p _ _ _ | NoopGate _ p _ => p
  | SLOGate _ _ _ _ _ _ => PhasePostBatch
  end.

(** [NoopGate.Check]. *)
Definition noopCheck (name : string) (pass : bool) (ctxErr : option goerr) : GateResult * option goerr :=
  match ctxErr with
  | Some e => (MkGateResult false ("noop gate " +:+ name +:+ " cancelled: " +:+ err_text e) [], None)
  | None => (MkGateResult pass (if pass then "noop gate passed" else "noop gate failed")
               [("gate", AStr "noop"); ("configured_pass", ABool pass)], None)
  end.

(** ** GateManager *)

Abbreviation GateManager := (gmap string Gate).

Definition NewGateManager : GateManager := ∅.
Definition Register (gm : GateManager) (g : Gate) : GateManager := <[gate_Name g := g]> gm.
Definition Unregister (gm : GateManager) (name : string) : GateManager := delete name gm.
Definition getGate (gm : GateManager) (name : string) : option Gate := gm !! name.
Definition Names (gm : GateManager) : list string := merge_sort String.le (elements (dom gm)).

(** The gates of a phase, sorted by name. *)
Definition Gates (gm : GateManager) (phase : GatePhase) : list Gate :=
  filter (fun g => gate_Phase g = phase) (omap (fun n => gm !! n) (Names gm)).

(** ** RunPhase *)

Definition reasonString (reason : option goerr) : string :=
  match reason with Some e => err_text e | None => "" end.

Definition skippedResult (reason : option goerr) : GateResult :=
  MkGateResult false
    (match reason with Some e => "skipped: " +:+ err_text e | None => "skipped" end)
    [("reason", AStr "skipped"); ("cause", AStr (reasonString reason))].

(** What a goroutine's report becomes: an error from [Check] fails the gate. *)
Definition settle (g : Gate) (r : GateResult) (err : option goerr) : GateResult :=
  match err with
  | None => r
  | Some e =>
      MkGateResult false
        (if String.eqb (gr_Message r) "" then "gate " +:+ gate_Name g +:+ " failed: " +:+ err_text e
         else gr_Message r +:+ ": " +:+ err_text e)
        (gr_Details r)
  end.

(** The slots still open become skipped results. *)
Definition closeSlots (reason : goerr) (slots : list (option GateResult)) : list GateResult :=
  map (fun s => match s with Some r => r | None => skippedResult (Some reason) end) slots.

Inductive arrival := Reported (i : nat) | CtxDone (e : goerr).

(** The receive loop. [check i] is what gate [i]'s goroutine reports; [slots] is
    [results] where completed; arrivals beyond the last are the remaining
    goroutines in index order, since each reports once. *)
Definition allDone (slots : list (option GateResult)) : bool :=
  forallb (fun s => match s with Some _ => true | None => false end) slots.

Fixpoint receive (gates : list Gate) (check : nat -> GateResult * option goerr)
    (arrivals : list arrival) (slots : list (option GateResult)) : list GateResult :=
  match arrivals with
  | [] => closeSlots (EText "unreachable") slots
  | CtxDone e :: _ => closeSlots e slots
  | Reported i :: rest =>
      match gates !! i, slots !! i with
      | Some g, Some None =>
          let '(r, err) := check i in
          let r' := settle g r err in
          let slots' := <[i := Some r']> slots in
          if gr_Passed r' then
            if allDone slots' then closeSlots (EText "unreachable") slots'
            else receive gates check rest slots'
          else closeSlots (EText ("gate " +:+ gate_Name g +:+ " failed")) slots'
      | _, _ => receive gates check rest slots
      end
  end.

Definition RunPhase (gm : GateManager) (phase : GatePhase) (check : nat -> GateResult * option goerr)
    (arrivals : list arrival) : list GateResult :=
  let gates := Gates gm phase in
  match gates with
  | [] => []
  | _ => receive gates check (arrivals ++ map Reported (seq 0 (length gates)))
           (replicate (length gates) None)
  end.

(** ** [time.ParseDuration] *)

Definition isDigit (c : ascii) : bool :=
  let n := N_of_ascii c in (N.leb 48 n && N.leb n 57).
Definition digitVal (c : ascii) : Z := Z.of_N (N_of_ascii c) - 48.

Fixpoint spanDigits (s : string) (acc : Z) : Z * nat * string :=
  match s with
  | EmptyString => (acc, 0, EmptyString)
  | String c rest =>
      if isDigit c then let '(v, n, r) := spanDigits rest (acc * 10 + digitVal c)%Z in (v, S n, r)
      else (acc, 0, s)
  end.

Fixpoint spanUnit (s : string) : string * string :=
  match s with
  | EmptyString => (EmptyString, EmptyString)
  | String c rest =>
      if isDigit c || Ascii.eqb c "."%char then (EmptyString, s)
      else let '(u, r) := spanUnit rest in (String c u, r)
  end.

Definition unitNanos (u : string) : option Z :=
  if String.eqb u "ns" then Some 1%Z
  else if String.eqb u "us" || String.eqb u "µs" || String.eqb u "μs" then Some 1000%Z
  else if String.eqb u "ms" then Some 1000000%Z
  else if String.eqb u "s" then Some 1000000000%Z
  else if String.eqb u "m" then Some 60000000000%Z
  else if String.eqb u "h" then Some 3600000000000%Z
  else None.

Fixpoint parseTerms (fuel : nat) (s : string) (acc : Z) : option Z :=
  match fuel with
  | O => None
  | S fuel =>
      match s with
      | EmptyString => Some acc
      | _ =>
          let '(v, n, s1) := spanDigits s 0 in
          let '(f, k, s2) := match s1 with
                             | String "."%char r => spanDigits r 0
                             | _ => (0%Z, 0, s1)
                             end in
          if Nat.eqb n 0 && Nat.eqb k 0 then None
          else
            let '(u, s3) := spanUnit s2 in
            match unitNanos u with
            | None => None
            | Some unit_ =>
                let total := (acc + v * unit_ + f * unit_ / 10 ^ Z.of_nat k)%Z in
                if (2 ^ 63 - 1 <? total)%Z then None else parseTerms fuel s3 total
            end
      end
  end.

(** Nanoseconds, or [None] for an invalid string. *)
Definition ParseDuration (s : string) : option Z :=
  let '(neg, body) := match s with
                      | String "-"%char r => (true, r)
                      | String "+"%char r => (false, r)
                      | _ => (false, s)
                      end in
  if String.eqb body "0" then Some 0%Z
  else if String.eqb body "" then None
  else match parseTerms (S (String.length body)) body 0 with
       | None => None
       | Some d => Some (if neg then (- d)%Z else d)
       end.

(** ** Gate declarations of a plan *)

(** The process-level dependencies: the Prometheus endpoint and whether an
    approver and a plugin resolver are wired. *)
Record GateRuntime := MkGateRuntime {
  PrometheusURL : string;
  hasApprover : bool;
  hasPlugins : bool;
  hasChannels : bool }.

Definition WithChannels (rt : GateRuntime) (p : bool) : GateRuntime :=
  MkGateRuntime (PrometheusURL rt) (hasApprover rt) (hasPlugins rt) p.

(** A declaration as the walk hands it out. *)
Definition declaration : Type := string * GatePhase * GateCheck.

Definition walkGateSpec (prefix : string) (spec : option GateSpec) : list declaration :=
  match spec with
  | None => []
  | Some spec =>
      let slot kind phase items := imap (fun i c => (prefix +:+ ":" +:+ kind +:+ ":" +:+ pretty i, phase, c)) items in
      slot "pre" PhasePreApply (gs_Pre spec) ++ slot "batch" PhasePostBatch (gs_Batch spec)
        ++ slot "post" PhasePostApply (gs_Post spec)
  end.

(** Batch gate blocks, one per distinct pointer. *)
Fixpoint distinctGates (batches : list Batch) (seen : list nat) : list GateSpec :=
  match batches with
  | [] => []
  | b :: rest =>
      match b_Gate b with
      | None => distinctGates rest seen
      | Some (addr, spec) =>
          if existsb (Nat.eqb addr) seen then distinctGates rest seen
          else spec :: distinctGates rest (addr :: seen)
      end
  end.

(** [walkPlanGates]: the declarations in the order the callback sees them. *)
Definition walkPlanGates (p : option Plan) : list declaration :=
  match p with
  | None => []
  | Some p =>
      walkGateSpec "workflow" (p_Gate p)
      ++ concat (map (fun spec => walkGateSpec "batches" (Some spec)) (distinctGates (p_Batches p) []))
      ++ concat (map (fun b => concat (map (fun s => walkGateSpec ("step:" +:+ ps_Name s) (ps_Gate s)) (b_Steps b)))
                   (p_Batches p))
  end.

(** ** Executability *)

Definition executabilityProblem (rt : GateRuntime) (d : declaration) : option goerr :=
  let '(name, phase, c) := d in
  if String.eqb (gc_Type c) "slo" then
    if String.eqb (PrometheusURL rt) "" then Some (EText ("slo gate " +:+ name +:+ " requires verify.prometheus_url configuration"))
    else if negb (String.eqb phase PhasePostBatch) then
      Some (EText ("gate " +:+ name +:+ ": slo checks execute in the post_batch phase only, got phase " +:+ phase))
    else None
  else if String.eqb (gc_Type c) "human" then
    if hasApprover rt then None else Some (EText ("human gate " +:+ name +:+ " requires an approver"))
  else if String.eqb (gc_Type c) "plugin" then
    if hasPlugins rt then None else Some (EText ("plugin gate " +:+ name +:+ " requires a plugin resolver"))
  else None.

Definition PlanGateBlockers (p : option Plan) (rt : GateRuntime) : list string :=
  omap (fun d => err_text <$> executabilityProblem rt d) (walkPlanGates p).

(** ** Params *)

Inductive pval := PStr (s : string) | PInt (z : Z) | PFloat (n : Z) (d : positive) | PBool (b : bool).

Definition looseInt (v : any) : goerr + Z :=
  match v with
  | AInt n => inr n
  | AFloat n d => if (n mod Z.pos d =? 0)%Z then inr (n / Z.pos d)%Z else inl (EText "must be an integer")
  | _ => inl (EText "must be an integer")
  end.

Definition looseFloat (v : any) : goerr + (Z * positive) :=
  match v with
  | AInt n => inr (n, 1%positive)
  | AFloat n d => inr (n, d)
  | _ => inl (EText "must be a number")
  end.

Definition assoc {A} (k : string) (l : list (string * A)) : option A :=
  match filter (fun kv => kv.1 = k) l with [] => None | kv :: _ => Some kv.2 end.

Definition parseParam (allowed : list (string * string)) (k : string) (v : any) : goerr + pval :=
  match assoc k allowed with
  | None => inl (EText ("param " +:+ k +:+ " is not supported"))
  | Some typ =>
      if String.eqb typ "string" then
        match v with AStr s => inr (PStr s) | _ => inl (EText ("param " +:+ k +:+ " must be a string")) end
      else if String.eqb typ "int" then
        match looseInt v with inr n => inr (PInt n) | inl e => inl (EWrap ("param " +:+ k) e) end
      else if String.eqb typ "float" then
        match looseFloat v with inr (n, d) => inr (PFloat n d) | inl e => inl (EWrap ("param " +:+ k) e) end
      else if String.eqb typ "bool" then
        match v with ABool b => inr (PBool b) | _ => inl (EText ("param " +:+ k +:+ " must be a boolean")) end
      else inl (EText ("internal error: param " +:+ k +:+ " declares unknown type"))
  end.

Fixpoint parseStrictParams (params : list (string * any)) (allowed : list (string * string)) :
    goerr + list (string * pval) :=
  match params with
  | [] => inr []
  | (k, v) :: rest =>
      match parseParam allowed k v with
      | inl e => inl e
      | inr pv => match parseStrictParams rest allowed with inl e => inl e | inr out => inr ((k, pv) :: out) end
      end
  end.

(** ** Compilation of one check *)

Definition sloComparison (cmp : string) : option string :=
  if String.eqb cmp "lt" then Some "lt"
  else if String.eqb cmp "gt" then Some "gt"
  else if String.eqb cmp "lte" || String.eqb cmp "le" then Some "le"
  else if String.eqb cmp "gte" || String.eqb cmp "ge" then Some "ge"
  else if String.eqb cmp "eq" then Some "eq"
  else None.

Definition sloGateFromCheck (rt : GateRuntime) (name : string) (c : GateCheck) : goerr + Gate :=
  match parseStrictParams (gc_Params c)
          [("query", "string"); ("threshold", "float"); ("comparison", "string"); ("timeout_seconds", "int")] with
  | inl e => inl (EWrap ("gate " +:+ name) e)
  | inr pp =>
      let query := match assoc "query" pp with
                   | Some (PStr q) => if String.eqb q "" then gc_Command c else q
                   | _ => gc_Command c
                   end in
      if String.eqb query "" then inl (EText ("slo gate " +:+ name +:+ " requires a PromQL query"))
      else match assoc "threshold" pp with
           | Some (PFloat n d) =>
               let comparison := match assoc "comparison" pp with
                                 | Some (PStr cmp) => if String.eqb cmp "" then Some "le" else sloComparison cmp
                                 | _ => Some "le"
                                 end in
               match comparison with
               | None => inl (EText ("slo gate " +:+ name +:+ ": unknown comparison"))
               | Some comparison =>
                   let timeout := match assoc "timeout_seconds" pp with
                                  | Some (PInt t) => if (0 <? t)%Z then wrap64 (t * 1000000000) else 5000000000%Z
                                  | _ => 5000000000%Z
                                  end in
                   inr (SLOGate name query (n, d) comparison (PrometheusURL rt) timeout)
               end
           | _ => inl (EText ("slo gate " +:+ name +:+ " requires a numeric threshold param"))
           end
  end.

Definition positiveDuration (s : string) : option Z :=
  if String.eqb s "" then None
  else match ParseDuration s with Some d => if (0 <? d)%Z then Some d else None | None => None end.

(** For a probe the source writes the derived [timeout_seconds] into the check's
    own params map; writing it again is a no-op, so the value is the same. *)
Definition gateFromCheck (rt : GateRuntime) (d : declaration) : goerr + Gate :=
  let '(name, phase, c) := d in
  match executabilityProblem rt d with
  | Some e => inl e
  | None =>
      if String.eqb (gc_Type c) "cmd" then
        inr (CommandGate name phase (gc_Command c) (gc_ExpectExit c)
               (if String.eqb (gc_ExpectStdout c) "" then None else Some (gc_ExpectStdout c))
               (positiveDuration (gc_Timeout c)))
      else if String.eqb (gc_Type c) "probe" then
        let params := match assoc "timeout_seconds" (gc_Params c), positiveDuration (gc_Timeout c) with
                      | None, Some d => ("timeout_seconds", AInt (Z.quot d 1000000000)) :: gc_Params c
                      | _, _ => gc_Params c
                      end in
        inr (ProbeGate name phase params)
      else if String.eqb (gc_Type c) "slo" then sloGateFromCheck rt name c
      else if String.eqb (gc_Type c) "human" then inr (HumanGate name phase (gc_Params c))
      else if String.eqb (gc_Type c) "plugin" then inr (PluginGate name phase (gc_Plugin c) (gc_Params c) (gc_Timeout c))
      else inl (EText ("gate " +:+ name +:+ ": check type is not executable by the engine"))
  end.

(** The registration loop: the registry as far as it got, and the error that
    stopped it. *)
Fixpoint registerAll (rt : GateRuntime) (gm : GateManager) (ds : list declaration) : GateManager * option goerr :=
  match ds with
  | [] => (gm, None)
  | d :: rest =>
      match gateFromCheck rt d with
      | inl e => (gm, Some e)
      | inr g => registerAll rt (Register gm g) rest
      end
  end.

Definition materializeStepGates (gm : GateManager) (p : option Plan) (rt : GateRuntime) : GateManager * option goerr :=
  registerAll rt gm (walkPlanGates p).

(** ** Lemmas: the receive loop *)

Lemma closeSlots_length e slots : length (closeSlots e slots) = length slots.
Proof. apply length_map. Qed.

Lemma receive_length gates check arrivals slots :
  length (receive gates check arrivals slots) = length slots.
Proof.
  revert slots. induction arrivals as [|[i|e] rest IH]; intros slots; simpl; try apply closeSlots_length.
  destruct (gates !! i) as [g|]; [|apply IH]. destruct (slots !! i) as [[r|]|]; [apply IH| |apply IH].
  destruct (check i) as [r err]. destruct (gr_Passed _).
  - destruct (allDone _); [|rewrite IH]; by rewrite ?closeSlots_length, length_insert.
  - by rewrite closeSlots_length, length_insert.
Qed.

(** No slot is left open when everything passed. *)
Lemma closeSlots_passed e slots :
  forallb gr_Passed (closeSlots e slots) = true ->
  forall i s, slots !! i = Some s -> exists r, s = Some r /\ gr_Passed r = true.
Proof.
  intros H i s Hi. rewrite forallb_elem in H.
  specialize (H (match s with Some r => r | None => skippedResult (Some e) end)).
  assert (Hin : (match s with Some r => r | None => skippedResult (Some e) end) ∈ closeSlots e slots).
  { unfold closeSlots. apply list_elem_of_fmap. exists s. split; [done|]. by eapply list_elem_of_lookup_2. }
  specialize (H Hin). destruct s as [r|]; [by exists r|done].
Qed.

Definition passes (check : nat -> GateResult * option goerr) (i : nat) : Prop :=
  gr_Passed (check i).1 = true /\ (check i).2 = None.

Lemma settle_passed g r err : gr_Passed (settle g r err) = true <-> gr_Passed r = true /\ err = None.
Proof. destruct err; simpl; naive_solver. Qed.

Lemma receive_passed gates check arrivals slots :
  length slots = length gates ->
  forallb gr_Passed (receive gates check arrivals slots) = true ->
  forall i, i < length gates -> slots !! i = Some None -> passes check i.
Proof.
  revert slots. induction arrivals as [|[j|e] rest IH]; intros slots Hlen H i Hi Hs; simpl in H.
  - destruct (closeSlots_passed _ _ H i None Hs) as (r & ? & _). done.
  - destruct (gates !! j) as [g|] eqn:Hg; [|by eapply IH].
    destruct (slots !! j) as [[r|]|] eqn:Hj; [by eapply IH| |by eapply IH].
    destruct (check j) as [r err] eqn:Hc.
    set (slots' := <[j := Some (settle g r err)]> slots) in *.
    assert (Hlen' : length slots' = length gates) by (unfold slots'; by rewrite length_insert).
    assert (Hjs : slots' !! j = Some (Some (settle g r err))).
    { unfold slots'. apply list_lookup_insert_eq. by eapply lookup_lt_Some. }
    assert (Hcase : i <> j -> slots' !! i = Some None) by (intros Hne; unfold slots'; by rewrite list_lookup_insert_ne).
    destruct (gr_Passed (settle g r err)) eqn:Hp.
    + apply settle_passed in Hp as [Hp Herr]. destruct (decide (i = j)) as [->|Hne]; [unfold passes; by rewrite Hc|].
      destruct (allDone slots'); [|by eapply (IH slots'); eauto].
      destruct (closeSlots_passed _ _ H i None (Hcase Hne)) as (? & ? & _). done.
    + destruct (closeSlots_passed _ _ H j _ Hjs) as (r' & Hr' & Hpr). injection Hr' as <-. congruence.
  - destruct (closeSlots_passed _ _ H i None Hs) as (r & ? & _). done.
Qed.

(** When every check passes and the context lives, the results are the checks'
    own, in registry order, whatever the order of arrival. *)
Lemma receive_complete gates check arrivals slots :
  length slots = length gates ->
  (forall i, i < length gates -> passes check i) ->
  (forall e, CtxDone e ∉ arrivals) ->
  (forall i, slots !! i = Some None -> Reported i ∈ arrivals) ->
  (forall i r, slots !! i = Some (Some r) -> r = (check i).1) ->
  (exists i, slots !! i = Some None) ->
  receive gates check arrivals slots = map (fun i => (check i).1) (seq 0 (length gates)).
Proof.
  intros Hlen Hpass. revert slots Hlen. induction arrivals as [|[j|e] rest IH]; intros slots Hlen Hctx Hopen Hdone Hex.
  - destruct Hex as [i Hi]. specialize (Hopen i Hi). inversion Hopen.
  - simpl. destruct (slots !! j) as [[r|]|] eqn:Hj.
    + assert (Hrec : receive gates check rest slots = map (fun i => (check i).1) (seq 0 (length gates))).
      { apply IH; [done|set_solver| |done|done]. intros i Hi. specialize (Hopen i Hi).
        apply elem_of_cons in Hopen as [[= ->]|?]; [congruence|done]. }
      by destruct (gates !! j).
    + assert (Hjl : j < length gates) by (rewrite <- Hlen; by eapply lookup_lt_Some).
      destruct (lookup_lt_is_Some_2 gates j Hjl) as [g Hg]. rewrite Hg.
      destruct (Hpass j Hjl) as [Hp He]. destruct (check j) as [r err] eqn:Hc. simpl in Hp, He. subst err.
      cbn [settle]. rewrite Hp. set (slots' := <[j := Some r]> slots).
      assert (Hlen' : length slots' = length gates) by (unfold slots'; by rewrite length_insert).
      assert (Hd' : forall i r0, slots' !! i = Some (Some r0) -> r0 = (check i).1).
      { intros i r0 Hi. unfold slots' in Hi. destruct (decide (i = j)) as [->|Hne].
        - rewrite list_lookup_insert_eq in Hi by (by eapply lookup_lt_Some). injection Hi as <-. by rewrite Hc.
        - rewrite list_lookup_insert_ne in Hi by done. auto. }
      destruct (allDone slots') eqn:Ha.
      * unfold allDone in Ha. rewrite forallb_elem in Ha. apply list_eq. intros i. unfold closeSlots.
        rewrite !list_lookup_fmap. destruct (slots' !! i) as [s|] eqn:Hs.
        -- specialize (Ha s ltac:(by eapply list_elem_of_lookup_2)). destruct s as [r0|]; [|done].
           rewrite lookup_seq_lt by (rewrite <- Hlen'; by eapply lookup_lt_Some). simpl. by rewrite (Hd' i r0 Hs).
        -- rewrite (lookup_seq_ge 0 _ i) by (rewrite <- Hlen'; by apply lookup_ge_None). done.
      * apply IH; [done|set_solver| |done|].
        -- intros i Hi. unfold slots' in Hi. destruct (decide (i = j)) as [->|Hne].
           { rewrite list_lookup_insert_eq in Hi by (by eapply lookup_lt_Some). done. }
           rewrite list_lookup_insert_ne in Hi by done. specialize (Hopen i Hi).
           apply elem_of_cons in Hopen as [[= ->]|?]; done.
        -- apply not_true_iff_false in Ha. destruct (decide (Exists (fun s => s = None) slots')) as [He|He].
           { apply Exists_exists in He as (s & Hs & ->). apply list_elem_of_lookup in Hs as [i Hi]. eauto. }
           exfalso. apply Ha. apply forallb_elem. intros s Hs. destruct s; [done|]. exfalso. apply He, Exists_exists. eauto.
    + destruct (gates !! j) eqn:Hg; [|apply IH].
      * exfalso. apply lookup_ge_None in Hj. apply lookup_lt_Some in Hg. lia.
      * done.
      * set_solver.
      * intros i Hi. specialize (Hopen i Hi). apply elem_of_cons in Hopen as [[= ->]|?]; [congruence|done].
      * done.
      * done.
  - destruct (Hctx e). set_solver.
Qed.

(** ** Lemmas: the registry *)

Definition keyed (gm : GateManager) : Prop := forall n g, gm !! n = Some g -> gate_Name g = n.

Lemma keyed_new : keyed NewGateManager.
Proof. intros n g Hn. unfold NewGateManager in Hn. by rewrite lookup_empty in Hn. Qed.

Lemma keyed_Register gm g : keyed gm -> keyed (Register gm g).
Proof.
  intros H n g' Hn. unfold Register in Hn. destruct (decide (gate_Name g = n)) as [<-|Hne].
  - rewrite lookup_insert_eq in Hn. by injection Hn as <-.
  - rewrite lookup_insert_ne in Hn by done. auto.
Qed.

Lemma elem_of_Gates gm phase g :
  keyed gm -> g ∈ Gates gm phase <-> gm !! gate_Name g = Some g /\ gate_Phase g = phase.
Proof.
  intros Hk. unfold Gates, Names. rewrite list_elem_of_filter, list_elem_of_omap. split.
  - intros [Hp (n & _ & Hn)]. split; [|done]. by rewrite (Hk _ _ Hn).
  - intros [Hg Hp]. split; [done|]. exists (gate_Name g). split; [|done].
    rewrite merge_sort_Permutation, elem_of_elements, elem_of_dom. by exists g.
Qed.

Lemma gateFromCheck_name rt name phase c g :
  gateFromCheck rt (name, phase, c) = inr g ->
  gate_Name g = name /\ gate_Phase g = phase /\ executabilityProblem rt (name, phase, c) = None.
Proof.
  unfold gateFromCheck. destruct (executabilityProblem rt (name, phase, c)) eqn:E; [done|].
  destruct (String.eqb_spec (gc_Type c) "cmd"); [by intros [= <-]|].
  destruct (String.eqb_spec (gc_Type c) "probe"); [by intros [= <-]|].
  destruct (String.eqb_spec (gc_Type c) "slo") as [Hslo|].
  - intros H. assert (phase = PhasePostBatch) as ->.
    { unfold executabilityProblem in E. rewrite Hslo in E. simpl in E.
      destruct (String.eqb (PrometheusURL rt) ""); [done|].
      destruct (String.eqb_spec phase PhasePostBatch); [done|done]. }
    unfold sloGateFromCheck in H. repeat split_match_in H; simplify_eq; done.
  - destruct (String.eqb_spec (gc_Type c) "human"); [by intros [= <-]|].
    destruct (String.eqb_spec (gc_Type c) "plugin"); [by intros [= <-]|]. done.
Qed.

Lemma registerAll_spec rt gm ds gm' :
  keyed gm -> registerAll rt gm ds = (gm', None) ->
  keyed gm' /\ (forall d, d ∈ ds -> executabilityProblem rt d = None) /\
  (forall n, (n ∉ map (fun d => d.1.1) ds) -> gm' !! n = gm !! n) /\
  (forall ds1 d ds2, ds = ds1 ++ d :: ds2 -> (d.1.1 ∉ map (fun d => d.1.1) ds2) ->
     exists g, gateFromCheck rt d = inr g /\ g ∈ Gates gm' d.1.2).
Proof.
  revert gm. induction ds as [|d ds IH]; intros gm Hk H; simpl in H.
  { injection H as <-. split_and!; [done|set_solver|done|]. intros ds1 d ds2 Hd. by destruct ds1. }
  destruct (gateFromCheck rt d) as [e|g] eqn:Hg; [done|].
  destruct d as [[name phase] c]. destruct (gateFromCheck_name _ _ _ _ _ Hg) as (Hn & Hp & He).
  destruct (IH _ (keyed_Register gm g Hk) H) as (Hk' & Hex & Hother & Hlast).
  split_and!; [done| | |].
  - intros d' [->|Hd']%elem_of_cons; auto.
  - intros n Hnot. simpl in Hnot. rewrite Hother by set_solver. unfold Register. rewrite lookup_insert_ne; [done|set_solver].
  - intros ds1 d ds2 Hds Hnot. destruct ds1 as [|d1 ds1]; simplify_eq/=.
    + exists g. split; [done|]. rewrite elem_of_Gates by done. split; [|done].
      rewrite Hother by done. unfold Register. by rewrite lookup_insert_eq.
    + by eapply Hlast.
Qed.

Lemma blockers_nil p rt :
  PlanGateBlockers p rt = [] <-> (forall d, d ∈ walkPlanGates p -> executabilityProblem rt d = None).
Proof.
  unfold PlanGateBlockers. induction (walkPlanGates p) as [|d ds IH]; simpl; [set_solver|].
  destruct (executabilityProblem rt d) eqn:E; simpl.
  - split; [done|]. intros H. rewrite H in E; [done|set_solver].
  - rewrite IH. set_solver.
Qed.

(** ** Theorems *)

(** A verification phase fails closed: it yields one result per registered
    gate, and all of them pass only if every gate of the phase ran its check to
    an answer that passed and carried no error, whatever the order of arrival and
    whenever the context ended. *)
Theorem run_phase_fails_closed (gm : GateManager) (phase : GatePhase) (check : nat -> GateResult * option goerr)
    (arrivals : list arrival) :
  length (RunPhase gm phase check arrivals) = length (Gates gm phase) /\
  (forallb gr_Passed (RunPhase gm phase check arrivals) = true ->
   forall i, i < length (Gates gm phase) -> gr_Passed (check i).1 = true /\ (check i).2 = None).
Proof.
  unfold RunPhase. destruct (Gates gm phase) as [|g0 gs] eqn:Hg; [by split; [|intros _ i Hi; simpl in Hi; lia]|].
  rewrite <- Hg. split; [by rewrite receive_length, length_replicate|].
  intros H i Hi. eapply (receive_passed (Gates gm phase)); [by rewrite length_replicate|done|done|].
  by apply lookup_replicate.
Qed.

Definition twoGates : GateManager :=
  Register (Register NewGateManager (NoopGate "b" PhasePreApply false)) (NoopGate "a" PhasePreApply true).

Lemma run_phase_fails_closed_witness :
  length (RunPhase twoGates PhasePreApply (fun _ => noopCheck "a" true None) [Reported 1]) = 2 /\
  gr_Passed (noopCheck "a" true None).1 = true.
Proof.
  split.
  - rewrite (proj1 (run_phase_fails_closed twoGates PhasePreApply (fun _ => noopCheck "a" true None) [Reported 1])).
    vm_compute. reflexivity.
  - apply (proj2 (run_phase_fails_closed twoGates PhasePreApply (fun _ => noopCheck "a" true None) [Reported 1])
      ltac:(vm_compute; reflexivity) 0 ltac:(vm_compute; lia)).
Defined.

(** And it does not fail open or flake: if every gate passes and the context
    lives, the phase returns exactly the gates' own results in registry order,
    for every order in which the goroutines report. *)
Theorem run_phase_order_independent (gm : GateManager) (phase : GatePhase) (check : nat -> GateResult * option goerr)
    (arrivals : list arrival) (Hctx : forall e, CtxDone e ∉ arrivals)
    (Hpass : forall i, i < length (Gates gm phase) -> gr_Passed (check i).1 = true /\ (check i).2 = None) :
  RunPhase gm phase check arrivals = map (fun i => (check i).1) (seq 0 (length (Gates gm phase))).
Proof.
  unfold RunPhase. destruct (Gates gm phase) as [|g0 gs] eqn:Hg; [done|]. rewrite <- Hg in *.
  apply receive_complete; [by rewrite length_replicate|done| | | |].
  - intros e [He|He]%elem_of_app; [by apply (Hctx e)|]. apply list_elem_of_fmap in He as (? & ? & _). done.
  - intros i [_ Hi]%lookup_replicate. apply elem_of_app. right. apply list_elem_of_fmap. exists i. split; [done|].
    apply list_elem_of_In, List.in_seq. lia.
  - intros i r [? _]%lookup_replicate. done.
  - exists 0. apply lookup_replicate. rewrite Hg. simpl. split; [done|lia].
Qed.

Lemma run_phase_order_independent_witness :
  RunPhase twoGates PhasePreApply (fun _ => noopCheck "a" true None) [Reported 1; Reported 0]
  = [(noopCheck "a" true None).1; (noopCheck "a" true None).1].
Proof.
  rewrite (run_phase_order_independent twoGates PhasePreApply (fun _ => noopCheck "a" true None) [Reported 1; Reported 0]).
  - vm_compute. reflexivity.
  - intros e. set_solver.
  - intros i _. vm_compute. done.
Defined.

(** What a plan declares is what runs. If materialisation succeeds then no
    declaration was refused by the plan-time judge, and every declared check
    (workflow, between batches, per step), unless a later one bears the same
    name, is registered and will be visited by the phase it was declared for. *)
Theorem materialize_registers_declared (gm gm' : GateManager) (p : option Plan) (rt : GateRuntime)
    (Hk : keyed gm) (H : materializeStepGates gm p rt = (gm', None)) :
  PlanGateBlockers p rt = [] /\
  (forall ds1 name phase c ds2, walkPlanGates p = ds1 ++ (name, phase, c) :: ds2 ->
     (name ∉ map (fun d => d.1.1) ds2) ->
     exists g, gateFromCheck rt (name, phase, c) = inr g /\ g ∈ Gates gm' phase).
Proof.
  destruct (registerAll_spec rt gm (walkPlanGates p) gm' Hk H) as (_ & Hex & _ & Hlast).
  split; [by apply blockers_nil|]. intros ds1 name phase c ds2 Hw Hnot. by apply (Hlast ds1 (name, phase, c) ds2).
Qed.

Definition cmdCheck (cmd : string) : GateCheck := MkGateCheck "cmd" cmd 0 "" "" "10s" "" [].
Definition gatedStep (name cmd : string) : PlanStep :=
  MkPlanStep name "shell" "exec" [] None None (Some (MkGateSpec [cmdCheck cmd] [] [])) false "".
Definition gatedPlan (steps : list PlanStep) : Plan :=
  MkPlan "id" "wf" [MkBatch 0 ["h1"] steps 0 None] 1 0 0 [] "" None None None None.
Definition bareRuntime : GateRuntime := MkGateRuntime "" false false false.

Lemma materialize_registers_declared_witness :
  exists g, gateFromCheck bareRuntime ("step:a:pre:0", PhasePreApply, cmdCheck "true") = inr g /\
    g ∈ Gates (materializeStepGates NewGateManager (Some (gatedPlan [gatedStep "a" "true"])) bareRuntime).1 PhasePreApply.
Proof.
  apply (proj2 (materialize_registers_declared NewGateManager
     (materializeStepGates NewGateManager (Some (gatedPlan [gatedStep "a" "true"])) bareRuntime).1
     (Some (gatedPlan [gatedStep "a" "true"])) bareRuntime keyed_new
     ltac:(vm_compute; reflexivity)) [] "step:a:pre:0" PhasePreApply (cmdCheck "true") []).
  - vm_compute. reflexivity.
  - set_solver.
Defined.

(** Gate names are built from the step's name: of two steps with the same name
    only the last one's check is registered, and the phase runs a single gate. *)
Lemma duplicate_step_names_drop_gate :
  let p := gatedPlan [gatedStep "a" "check-one"; gatedStep "a" "check-two"] in
  let '(gm, err) := materializeStepGates NewGateManager (Some p) bareRuntime in
  err = None /\ length (walkPlanGates (Some p)) = 2 /\
  Gates gm PhasePreApply = [CommandGate "step:a:pre:0" PhasePreApply "check-two" 0 None (Some 10000000000%Z)].
Proof. vm_compute. done. Qed.

End Verify.
