(* ===== verification/LockService.v ===== *)
(** * LockService: what the closure runner relies on from target locking

    The interface between the change closure and the lock subsystem: taking the
    lock of a target for an owner, giving it back, and who holds a target. The
    closure's theorems are proved against [LockLaws]; LockInstance discharges
    them for the lock manager of src/internal/lock. *)

From stdpp Require Import base strings.
From S2P Require Import Prelude.

Module LockService.

Class LockOps (S : Type) : Type := {
  ls_acquire : S -> string -> string -> option goerr * S;   (** [LockManager.Acquire(target, owner)] *)
  ls_release : S -> string -> string -> S;                  (** [LockManager.Release(target, owner)], error ignored *)
  ls_held : S -> string -> option string;                   (** the owner recorded for a target *)
  ls_ok : S -> Prop }.                                       (** well-formed lock state *)

Class LockLaws (S : Type) `{LockOps S} : Prop := {
  acquire_ok s t o : ls_ok s -> ls_ok (ls_acquire s t o).2;
  acquire_granted s t o : ls_ok s -> (ls_acquire s t o).1 = None -> ls_held (ls_acquire s t o).2 t = Some o;
  acquire_refused s t o e t' : ls_ok s -> (ls_acquire s t o).1 = Some e -> ls_held (ls_acquire s t o).2 t' = ls_held s t';
  acquire_other s t o t' : ls_ok s -> t' <> t -> ls_held (ls_acquire s t o).2 t' = ls_held s t';
  release_ok s t o : ls_ok s -> ls_ok (ls_release s t o);
  release_frees s t o : ls_ok s -> ls_held s t = Some o -> ls_held (ls_release s t o) t = None;
  release_foreign s t o : ls_ok s -> ls_held s t <> Some o -> ls_held (ls_release s t o) t = ls_held s t;
  release_other s t o t' : ls_ok s -> t' <> t -> ls_held (ls_release s t o) t' = ls_held s t' }.

End LockService.
