(* ===== verification/LockInstance.v ===== *)
(** * LockInstance: the lock manager implements the lock service

    The operations of src/internal/lock run one after the other over the lock
    table, with a clock that does not go back and ids that are not drawn twice,
    satisfy the laws the closure runner relies on. *)

From Stdlib Require Import ZArith Lia.
From stdpp Require Import base gmap strings list pretty.
From S2P Require Import Prelude Concur Lock LockService.
Import Concur Lock LockService.
Open Scope string_scope.
Open Scope list_scope.

Module LockInstance.

(** A clock, a manager with a positive TTL. *)
Record setting := MkSetting {
  clock : nat -> Z;
  clock_mono : forall i j, i <= j -> (clock i <= clock j)%Z;
  manager : LockManager;
  manager_ttl : (0 < lm_defaultTTL manager)%Z }.

Record lockState := MkLockState { db : list row; tick : nat }.

Definition idOf (n : nat) : string := "lock-" +:+ pretty n.

Lemma idOf_inj n m : idOf n = idOf m -> n = m.
Proof. unfold idOf. intros H. apply (inj (String.append "lock-")) in H. by apply (inj pretty) in H. Qed.

Section instance.
Context (st : setting).

Definition slots (n : nat) : slot := MkSlot [] None (clock st n) (idOf n) 0.

Lemma slots_quiet : quiet slots.
Proof. done. Qed.

Definition holder (rows : list row) (t : string) : option string :=
  match filter (fun x => r_Scope x = scope t) rows with x :: _ => Some (r_Owner x) | [] => None end.

Definition acquire (s : lockState) (t o : string) : option goerr * lockState :=
  let '(out, rows, n) := exec (Acquire 1 (manager st) t o) slots (tick s) (db s) in
  (match out with
   | Val _ => None
   | Err e => Some e
   | Panic | Spinning => Some (EText "lock: unreachable")
   end, MkLockState rows n).

Definition release (s : lockState) (t o : string) : lockState :=
  let '(_, rows, n) := exec (Release t o) slots (tick s) (db s) in MkLockState rows n.

Definition okState (s : lockState) : Prop :=
  wf (db s) /\ (forall n, tick s <= n -> idOf n ∉ map r_ID (db s)) /\
  (forall x, x ∈ db s -> r_Scope x <> scope "").

#[export] Instance lockOps : LockOps lockState :=
  {| ls_acquire := acquire; ls_release := release; ls_held s t := holder (db s) t; ls_ok := okState |}.

Lemma holder_spec rows t o :
  wf rows -> holder rows t = Some o <-> exists x, x ∈ rows /\ r_Scope x = scope t /\ r_Owner x = o.
Proof.
  intros Hwf. unfold holder. destruct (filter (fun x => r_Scope x = scope t) rows) as [|y l] eqn:E.
  - split; [done|]. intros (x & Hx & Hs & _).
    assert (Hin : x ∈ filter (fun x => r_Scope x = scope t) rows) by (by apply list_elem_of_filter).
    rewrite E in Hin. inversion Hin.
  - assert (Hy : y ∈ filter (fun x => r_Scope x = scope t) rows) by (rewrite E; by left).
    apply list_elem_of_filter in Hy as [Hsy Hy]. split.
    + intros [= <-]. eauto.
    + intros (x & Hx & Hs & <-). do 2 f_equal. apply (unique_scope rows); [done|done|done|congruence].
Qed.

Lemma holder_none rows t : holder rows t = None -> forall x, x ∈ rows -> r_Scope x <> scope t.
Proof.
  intros H x Hx Hs. unfold holder in H.
  assert (Hin : x ∈ filter (fun x => r_Scope x = scope t) rows) by (by apply list_elem_of_filter).
  destruct (filter _ _); [inversion Hin|done].
Qed.

Lemma option_ext (a b : option string) : (forall o, a = Some o <-> b = Some o) -> a = b.
Proof.
  intros H. destruct a as [x|], b as [y|]; [by apply H|symmetry; by apply (proj1 (H x))|by apply (proj2 (H y))|done].
Qed.

Lemma scope_inj t t' : scope t = scope t' -> t = t'.
Proof. intros H. apply (f_equal TrimHost) in H. by rewrite !TrimHost_scope in H. Qed.

(** The three things an acquire can do, undisturbed. *)
Inductive acquired_case (s : lockState) (t o : string) : option goerr * lockState -> Prop :=
| case_refused e n : tick s <= n -> acquired_case s t o (Some e, MkLockState (db s) n)
| case_new r n :
    t <> "" -> (forall x, x ∈ db s -> r_Scope x <> scope t) -> r_Scope r = scope t -> r_Owner r = o ->
    (exists k, r_ID r = idOf k /\ tick s <= k < n) -> acquired_case s t o (None, MkLockState (db s ++ [r]) n)
| case_taken x secs now n :
    x ∈ db s -> r_Scope x = scope t -> (r_ExpiresAt x <= now)%Z -> tick s <= n ->
    acquired_case s t o (None, MkLockState (map (takeOver (r_ID x) o secs now) (db s)) n).

Lemma acquire_cases s t o : okState s -> acquired_case s t o (acquire s t o).
Proof.
  intros (Hwf & Hid & _). unfold acquire.
  destruct (decide (t = "")) as [->|Ht]; [simpl; by apply case_refused|].
  destruct (decide (o = "")) as [->|Ho].
  { unfold Acquire. rewrite (proj2 (String.eqb_neq t "") Ht). simpl. by apply case_refused. }
  destruct (holder (db s) t) as [o'|] eqn:Hh.
  - apply holder_spec in Hh as (x & Hx & Hs & _); [|done].
    destruct (decide (clock st (S (tick s)) < r_ExpiresAt x)%Z) as [Hlt|Hge].
    { rewrite (exec_Acquire_held 1 (manager st) t o slots (tick s) (db s) x) by done. apply case_refused. lia. }
    destruct (decide (r_ExpiresAt x = 0%Z)) as [Hz|Hnz].
    { rewrite Acquire_start by done. rewrite <- Hs, (get_by_scope (db s) x Hwf Hx). cbn [a_rows]. unfold Expired.
      cbn [lk_ExpiresAt fromStateLock]. rewrite Hz. simpl. apply case_refused. lia. }
    pose proof (clock_mono st (S (tick s)) (S (S (tick s))) ltac:(lia)).
    rewrite (exec_Acquire_expired 0 (manager st) t o slots (tick s) (db s) x);
      [|done|done|done|done|apply manager_ttl|done|done|done|cbn; lia|cbn; lia].
    apply case_taken; [done|done|cbn; lia|lia].
  - pose proof (holder_none _ _ Hh) as Hfree.
    rewrite (exec_Acquire_free 1 (manager st) t o slots (tick s) (db s));
      [|done|done|done|apply manager_ttl|done|apply Hid; lia].
    apply case_new; [done|done|done|done|]. exists (S (S (S (tick s)))). split; [done|lia].
Qed.

Lemma release_cases s t o :
  okState s -> exists n, tick s <= n /\
    (release s t o = MkLockState (db s) n /\ (t = "" \/ holder (db s) t <> Some o) \/
     exists x, t <> "" /\ x ∈ db s /\ r_Scope x = scope t /\ r_Owner x = o /\
       release s t o = MkLockState (filter (fun y => ~ (r_ID y = r_ID x /\ r_Owner y = o)) (db s)) n).
Proof.
  intros (Hwf & _). unfold release, Release, store_Release.
  destruct (String.eqb_spec t "") as [->|Ht]; [exists (tick s); split; [lia|left; by split; [|left]]|].
  unfold andThen, query. cbn [pbind]. rewrite exec_ask by done.
  destruct (holder (db s) t) as [o'|] eqn:Hh.
  - pose proof Hh as Hh'. apply holder_spec in Hh' as (x & Hx & Hs & Hxo); [|done].
    rewrite <- Hs, (get_by_scope (db s) x Hwf Hx). cbn [a_err a_rows].
    destruct (String.eqb_spec (r_Owner x) o) as [Ho|Ho]; cbn [negb pbind].
    + rewrite exec_ask by done. cbn [dbexec fst snd a_err pbind exec]. exists (S (S (tick s))). split; [lia|right].
      exists x. rewrite Hs. done.
    + cbn [exec dbexec fst]. exists (S (tick s)). split; [lia|left; split; [done|right; congruence]].
  - rewrite (get_none (db s)) by (by apply holder_none). cbn [fst snd a_err a_rows noAns pbind exec].
    exists (S (tick s)). split; [lia|left; by split; [|right]].
Qed.

Lemma wf_snoc rows r :
  wf rows -> (forall x, x ∈ rows -> r_Scope x <> r_Scope r) -> (r_ID r ∉ map r_ID rows) -> wf (rows ++ [r]).
Proof.
  intros [H1 H2] Hs Hi. split; rewrite map_app; apply NoDup_app; split_and!; try done; try (simpl; apply NoDup_singleton).
  - set_solver.
  - intros sc Hin. apply list_elem_of_fmap in Hin as (x & -> & Hx). simpl. rewrite list_elem_of_singleton. by apply Hs.
Qed.

Lemma takeOver_holder rows x o secs now t :
  wf rows -> x ∈ rows -> (r_ExpiresAt x <= now)%Z ->
  holder (map (takeOver (r_ID x) o secs now) rows) t =
  if decide (r_Scope x = scope t) then Some o else holder rows t.
Proof.
  intros Hwf Hx Hle. assert (Hwf' : wf (map (takeOver (r_ID x) o secs now) rows)).
  { apply (wf_dbexec rows (SUpdateLockOwnedBy (r_ID x) o secs now) Hwf). }
  destruct (takeOver_in (r_ID x) o secs now rows x Hx eq_refl Hle) as [Hin _].
  destruct (decide (r_Scope x = scope t)) as [Hs|Hs].
  - apply holder_spec; [done|]. eexists. split; [exact Hin|]. done.
  - apply option_ext. intros o'. rewrite !holder_spec by done. split.
    + intros (y & Hy & Hsy & Hoy). apply list_elem_of_fmap in Hy as (z & -> & Hz). unfold takeOver in *.
      destruct (String.eqb_spec (r_ID z) (r_ID x)) as [Heq|Hne]; simpl in *; [|eauto].
      assert (z = x) as -> by (by apply (unique_id rows)). by destruct (Z.leb _ _).
    + intros (y & Hy & Hsy & Hoy). exists (takeOver (r_ID x) o secs now y).
      assert (takeOver (r_ID x) o secs now y = y) as ->.
      { unfold takeOver. destruct (String.eqb_spec (r_ID y) (r_ID x)) as [Heq|Hne]; [|done].
        assert (y = x) as -> by (by apply (unique_id rows)). done. }
      split; [|done]. apply list_elem_of_fmap. exists y. split; [|done]. unfold takeOver.
      destruct (String.eqb_spec (r_ID y) (r_ID x)) as [Heq|Hne]; [|done].
      assert (y = x) as -> by (by apply (unique_id rows)). done.
Qed.

Lemma snoc_holder rows r t :
  wf rows -> wf (rows ++ [r]) -> holder (rows ++ [r]) t = if decide (r_Scope r = scope t) then Some (r_Owner r) else holder rows t.
Proof.
  intros Hwf Hwf'. destruct (decide (r_Scope r = scope t)) as [Hs|Hs].
  - apply holder_spec; [done|]. exists r. split; [apply elem_of_app; right; by left|done].
  - apply option_ext. intros o'. rewrite !holder_spec by done. split.
    + intros (y & [Hy| ->%list_elem_of_singleton]%elem_of_app & Hsy & Hoy); [eauto|done].
    + intros (y & Hy & Hsy & Hoy). exists y. split; [apply elem_of_app; by left|done].
Qed.

(** The acquire, summarised on holders. *)
Lemma acquire_holders s t o :
  okState s -> okState (acquire s t o).2 /\
  forall t', holder (db (acquire s t o).2) t' =
    match (acquire s t o).1 with
    | None => if decide (t' = t) then Some o else holder (db s) t'
    | Some _ => holder (db s) t'
    end.
Proof.
  intros Hok. destruct (acquire_cases s t o Hok) as [e n Hn|r n Ht Hfree Hs Ho (k & Hk & Hkn)|x secs now n Hx Hs Hle Hn];
    destruct Hok as (Hwf & Hid & Hne0); cbn [fst snd db tick].
  - split; [|done]. split_and!; [done| |done]. intros m Hm. apply Hid. cbn in Hm. lia.
  - assert (Hwf' : wf (db s ++ [r])).
    { apply wf_snoc; [done|by rewrite Hs|]. rewrite Hk. apply Hid; lia. }
    split; [split_and!; [done| |]|].
    + cbn [tick db]. intros m Hm. rewrite map_app. intros [Hin|Hin]%elem_of_app; [by apply (Hid m); [lia|]|].
      simpl in Hin. apply list_elem_of_singleton in Hin. rewrite Hk in Hin. apply idOf_inj in Hin. lia.
    + cbn [db]. intros y [Hy| ->%list_elem_of_singleton]%elem_of_app; [auto|]. rewrite Hs. intros Heq. by apply scope_inj in Heq.
    + intros t'. rewrite snoc_holder by done. rewrite Hs, Ho.
      destruct (decide (scope t = scope t')) as [Heq|Hne], (decide (t' = t)) as [->|Hne']; try done.
      by apply scope_inj in Heq as ->.
  - split; [split_and!|].
    + apply (wf_dbexec (db s) (SUpdateLockOwnedBy (r_ID x) o secs now) Hwf).
    + cbn [tick db]. intros m Hm. rewrite (proj1 (takeOver_keys _ _ _ _ _)). apply Hid. lia.
    + cbn [db]. intros y Hy. apply list_elem_of_fmap in Hy as (z & -> & Hz). unfold takeOver.
      destruct (_ && _); cbn [r_Scope]; auto.
    + intros t'. rewrite takeOver_holder by done. rewrite Hs.
      destruct (decide (scope t = scope t')) as [Heq|Hne], (decide (t' = t)) as [->|Hne']; try done.
      by apply scope_inj in Heq as ->.
Qed.

(** The release, summarised on holders. *)
Lemma release_holders s t o :
  okState s -> okState (release s t o) /\
  forall t', holder (db (release s t o)) t' =
    if decide (t <> "" /\ t' = t /\ holder (db s) t = Some o) then None else holder (db s) t'.
Proof.
  intros Hok. destruct (release_cases s t o Hok) as (n & Hn & [[-> Hno]|(x & Ht & Hx & Hs & Ho & ->)]); destruct Hok as (Hwf & Hid & Hne0).
  - split; [split_and!; [done|intros m Hm; apply Hid; cbn in Hm; lia|done]|]. intros t'. cbn [db].
    rewrite decide_False by naive_solver. done.
  - set (rows := filter _ _). assert (Hwf' : wf rows) by (apply (wf_dbexec (db s) (SDeleteLockByIDAndOwner (r_ID x) o) Hwf)).
    split; [split_and!; [done| |]|].
    + cbn [tick db]. intros m Hm Hin. apply list_elem_of_fmap in Hin as (y & Hy & [_ Hyin]%list_elem_of_filter).
      apply (Hid m); [lia|]. apply list_elem_of_fmap. eauto.
    + cbn [db]. intros y [_ Hy]%list_elem_of_filter. auto.
    + intros t'. cbn [db]. apply option_ext. intros o'. rewrite holder_spec by done. destruct (decide _) as [(_ & -> & Hh)|Hne].
      * split; [|done]. intros (y & [Hny Hy]%list_elem_of_filter & Hsy & _). exfalso. apply Hny.
        assert (y = x) as -> by (apply (unique_scope (db s)); [done|done|done|congruence]). done.
      * rewrite holder_spec by done. split.
        -- intros (y & [_ Hy]%list_elem_of_filter & Hsy & Hoy). eauto.
        -- intros (y & Hy & Hsy & Hoy). exists y. split; [|done]. apply list_elem_of_filter. split; [|done].
           intros [Hid' _]. assert (y = x) as -> by (by apply (unique_id (db s))).
           assert (t' = t) as -> by (apply scope_inj; congruence).
           apply Hne. split_and!; [done|done|]. apply holder_spec; [done|]. eauto.
Qed.

#[export] Instance lockLaws : LockLaws lockState.
Proof.
  constructor.
  - intros s t o Hok. by apply acquire_holders.
  - intros s t o Hok Hn. cbn in *. rewrite (proj2 (acquire_holders s t o Hok)), Hn. by rewrite decide_True.
  - intros s t o e t' Hok He. cbn in *. by rewrite (proj2 (acquire_holders s t o Hok)), He.
  - intros s t o t' Hok Hne. cbn in *. rewrite (proj2 (acquire_holders s t o Hok)).
    destruct (acquire s t o).1; [done|]. by rewrite decide_False.
  - intros s t o Hok. by apply release_holders.
  - intros s t o Hok Hh. cbn in *. rewrite (proj2 (release_holders s t o Hok)).
    destruct (decide (t = "")) as [->|Ht]; [|by rewrite decide_True].
    exfalso. apply holder_spec in Hh as (x & Hx & Hs & _); [|apply Hok]. by apply (proj2 (proj2 Hok) x).
  - intros s t o Hok Hh. cbn in *. rewrite (proj2 (release_holders s t o Hok)). rewrite decide_False; [done|naive_solver].
  - intros s t o t' Hok Hne. cbn in *. rewrite (proj2 (release_holders s t o Hok)). rewrite decide_False; [done|naive_solver].
Qed.

End instance.

(** The lock manager implements the lock service the closure relies on. For any
    clock that does not go back and any positive TTL: a granted acquire makes the
    caller the holder, a refused one changes nobody's lock, releasing frees
    exactly the caller's own lock, no operation touches another target, and every
    operation keeps the table well formed. *)
Theorem manager_implements_service (st : setting) : @LockLaws lockState (lockOps st).
Proof. exact (lockLaws st). Qed.

End LockInstance.
