(* ===== verification/Closure.v ===== *)
(** * Closure: the change closure

    [ClosureRunner.Run] of src/internal/engine/closure.go with its helpers and the
    snapshot hooks of snapshot_hook.go: host guard, gate materialisation, pre-apply
    gates, target locks, snapshots, the batches with their post-batch gates,
    post-apply gates, and the rollback path. The batch controller, the gate
    manager, the execution ledger and the rollback manager are the definitions of
    Batch, Verify and Rollback; locks are reached through [LockService]; what only
    the outside knows is an environment that answers to the history. *)

From Stdlib Require Import ZArith Lia.
From stdpp Require Import base gmap strings list pretty.
From S2P Require Import Prelude RunStatus Dsl Plan Concur Batch Rollback Verify Lock LockService LockInstance.
Import Plan LockService.
Open Scope string_scope.
Open Scope list_scope.

Module Closure.

(** ** Phases and results *)

Definition ClosurePhase := string.
Definition PhaseCompleted : ClosurePhase := "completed".
Definition PhaseRolledBack : ClosurePhase := "rolled_back".
Definition PhasePartialRollback : ClosurePhase := "rolled_back_partial".
Definition PhaseRollbackIncomplete : ClosurePhase := "rollback_incomplete".
Definition PhaseFailed : ClosurePhase := "failed".

Definition ErrFencedOut := "engine: execution fenced out".

Record ClosureResult := MkClosureResult {
  res_RunID : string;
  res_PlanID : string;
  res_Phase : ClosurePhase;
  res_BatchResults : list Batch.BatchResult;
  res_VerifyResults : list Verify.GateResult;
  res_RollbackResult : option Rollback.RollbackResult;
  res_ManualRollbackRequired : bool;
  res_PostVerifyResult : option (list Verify.GateResult);
  res_Error : option goerr;
  res_RunSnapshotRestoreError : option goerr }.

Record GateVerdict := MkVerdict {
  gv_ExecRunID : string; gv_GateName : string; gv_Phase : string; gv_Stage : string;
  gv_BatchID : string; gv_Passed : bool; gv_Message : string }.

(** Optional collaborators are booleans: installed or not. *)
Record ClosureRunner := MkRunner {
  cr_verifier : Verify.GateManager;
  cr_rollback : Rollback.Manager;
  cr_batchCtrl : Batch.Controller;
  cr_postVerifier : option Verify.GateManager;
  cr_gateRuntime : Verify.GateRuntime;
  cr_hostGuard : bool;
  cr_snapshotter : bool;
  cr_runSnapshotter : bool }.

(** ** Events and environment *)

Definition rentry := Concur.entry Rollback.call (option goerr).

Inductive cev :=
| KGuard (targets : list string) (err : option goerr)
| KCtx (err : option goerr)
| KPhase (phase : Verify.GatePhase) (results : list Verify.GateResult)
| KVerdicts (vs : list GateVerdict)
| KAcquire (target : string) (err : option goerr)
| KRelease (target : string)
| KCapture (target : string) (step : PlanStep) (err : option goerr)
| KCaptureRun (targets : list string) (err : option goerr)
| KBatch (b : Batch) (brs : list Batch.BatchResult) (log : list Batch.event)
| KRollback (p : Plan) (r : Rollback.RollbackResult) (calls : list rentry)
| KRestoreRun (targets : list string) (err : option goerr)
| KPostVerify (results : list Verify.GateResult).

(** Answers to the history: the host guard, the caller's context, what gate [i] of
    a phase reports and in which order reports arrive, snapshot captures and
    restores, the scheduling of a batch and of a rollback, what the step callback
    does in each, and the post-rollback verifier. *)
Record CEnv := MkCEnv {
  ce_guard : list cev -> list string -> option goerr;
  ce_ctx : list cev -> option goerr;
  ce_check : list cev -> Verify.GatePhase -> nat -> Verify.GateResult * option goerr;
  ce_arrivals : list cev -> list Verify.arrival;
  ce_capture : list cev -> string -> PlanStep -> option goerr;
  ce_captureRun : list cev -> option goerr;
  ce_restoreRun : list cev -> option goerr;
  ce_batchCtx : list cev -> list Batch.event -> option goerr;
  ce_exec : list cev -> list Batch.event -> string -> Dsl.Step -> Batch.outcome;
  ce_admit : list cev -> list Batch.event -> string -> option goerr;
  ce_pick : list cev -> list Batch.event -> nat;
  ce_prefer : list cev -> list Batch.event -> bool;
  ce_undo : list cev -> Rollback.REnv;
  ce_postVerify : list cev -> list Verify.GateResult }.

(** ** Helpers *)

(** [collectTargets]: targets in first-seen order, without duplicates. *)
Definition addTarget (out : list string) (t : string) : list string := if inSet out t then out else out ++ [t].
Definition collectTargets (p : Plan) : list string :=
  foldl (fun out b => foldl addTarget out (b_Targets b)) [] (p_Batches p).

Definition countTargets (batches : list Batch) : Z :=
  foldl (fun n b => (n + Z.of_nat (length (b_Targets b)))%Z) 0%Z batches.

Definition gatesPassed (results : list Verify.GateResult) : bool := forallb Verify.gr_Passed results.

Definition rollbackPolicyOf (p : option Plan) : string :=
  match p with
  | None => Dsl.RollbackOnFailureAuto
  | Some p => Dsl.ResolveRollbackOnFailure (p_Rollback p)
  end.

Definition postRollbackVerifyRequested (p : option Plan) : bool :=
  match p with
  | Some p => match p_Rollback p with Some rb => Dsl.rb_VerifyAfter rb | None => false end
  | None => false
  end.

Definition isSnapshotStep (s : PlanStep) : bool :=
  match ps_Rollback s with Some rb => String.eqb (Dsl.rb_Strategy rb) "snapshot" | None => false end.

(** The plan step as the callback sees it. *)
Definition toDslStep (s : PlanStep) : Dsl.Step :=
  Dsl.MkStep (ps_Name s) (ps_Module s) (ps_Action s) (ps_Args s) (ps_Rollback s) (ps_Approval s) (ps_Gate s)
    false false false [].

(** [adaptExecFunc]: a nil callback does nothing and succeeds. *)
Definition adaptExecFunc (hasExec : bool) (f : list Batch.event -> string -> Dsl.Step -> Batch.outcome) :
    list Batch.event -> Batch -> string -> PlanStep -> Batch.outcome :=
  fun h _ target step => if hasExec then f h target (toDslStep step) else Batch.XOk.

Definition gateVerdicts (runID : string) (gm : Verify.GateManager) (phase : Verify.GatePhase) (stage batchID : string)
    (results : list Verify.GateResult) : list GateVerdict :=
  let gates := Verify.Gates gm phase in
  imap (fun i gr =>
    MkVerdict runID (match gates !! i with Some g => Verify.gate_Name g | None => "gate-" +:+ pretty i end)
      phase stage batchID (Verify.gr_Passed gr) (Verify.gr_Message gr)) results.

(** The plan restricted to some batches, as built for the controller and for the
    rollback. *)
Definition subPlan (p : Plan) (batches : list Batch) (total : Z) : Plan :=
  MkPlan (p_ID p) (p_WorkflowName p) batches total (p_CreatedAt p) (p_RiskScore p) (p_RiskFactors p)
    (p_ApprovalFloor p) (p_Approval p) (p_Rollback p) (p_Gate p) None.

(** ** The run *)

Section run.
Context {LS : Type} `{LockOps LS} (env : CEnv) (hasExec : bool).

(** The history and the lock state. *)
Record world := MkWorld { w_log : list cev; w_locks : LS }.

Definition CM (A : Type) : Type := world -> A * world.
Definition cret {A} (a : A) : CM A := fun w => (a, w).
Definition cbind {A B} (m : CM A) (k : A -> CM B) : CM B := fun w => let '(a, w') := m w in k a w'.
Definition emit (e : cev) : CM unit := fun w => (tt, MkWorld (w_log w ++ [e]) (w_locks w)).
Definition asks {A} (f : list cev -> A) (ev : A -> cev) : CM A :=
  fun w => let a := f (w_log w) in (a, MkWorld (w_log w ++ [ev a]) (w_locks w)).

Notation "'run!' x <- m ; k" := (cbind m (fun x => k)) (at level 10, x binder, m at level 100, k at level 200).

Definition pollCtx : CM (option goerr) := asks (ce_ctx env) KCtx.

Definition acquireLock (target owner : string) : CM (option goerr) := fun w =>
  let '(err, s) := ls_acquire (w_locks w) target owner in (err, MkWorld (w_log w ++ [KAcquire target err]) s).

Definition releaseLock (target owner : string) : CM unit := fun w =>
  (tt, MkWorld (w_log w ++ [KRelease target]) (ls_release (w_locks w) target owner)).

Fixpoint releaseLocks (owner : string) (acquired : list string) : CM unit :=
  match acquired with
  | [] => cret tt
  | t :: rest => run! _ <- releaseLock t owner; releaseLocks owner rest
  end.

(** A verification phase: run it, record its verdicts. *)
Definition runPhase (gm : Verify.GateManager) (runID : string) (phase : Verify.GatePhase) (batchID : string) :
    CM (list Verify.GateResult) :=
  run! rs <- asks (fun h => Verify.RunPhase gm phase (ce_check env h phase) (ce_arrivals env h)) (KPhase phase);
  run! _ <- emit (KVerdicts (gateVerdicts runID gm phase "forward" batchID rs));
  cret rs.

(** The lock loop: the targets locked so far, and the error that stopped it. *)
Fixpoint acquireLocks (runID : string) (targets acquired : list string) : CM (list string * option goerr) :=
  match targets with
  | [] => cret (acquired, None)
  | t :: rest =>
      run! c <- pollCtx;
      match c with
      | Some e => cret (acquired, Some (EWrap "closure: cancelled during lock acquire" e))
      | None =>
          run! err <- acquireLock t runID;
          match err with
          | Some e => cret (acquired, Some (EWrap ("closure: acquire lock for " +:+ t) e))
          | None => acquireLocks runID rest (acquired ++ [t])
          end
      end
  end.

(** [captureSnapshots] over the (target, step) pairs in order. *)
Definition snapshotPairs (p : Plan) : list (string * PlanStep) :=
  concat (map (fun b => concat (map (fun t => map (pair t) (filter (fun s => isSnapshotStep s = true) (b_Steps b)))
                                  (b_Targets b))) (p_Batches p)).

Fixpoint capturePairs (pairs : list (string * PlanStep)) : CM (option goerr) :=
  match pairs with
  | [] => cret None
  | (t, s) :: rest =>
      run! err <- asks (fun h => ce_capture env h t s) (KCapture t s);
      match err with
      | Some e => cret (Some (EWrap ("target " +:+ t +:+ " step " +:+ ps_Name s) e))
      | None => capturePairs rest
      end
  end.

Definition captureSnapshots (cr : ClosureRunner) (p : Plan) : CM (option goerr) :=
  if cr_snapshotter cr then capturePairs (snapshotPairs p) else cret None.

Definition captureRunSnapshot (cr : ClosureRunner) (p : Plan) (targets : list string) : CM (option goerr) :=
  match p_RunSnapshot p with
  | None => cret None
  | Some _ =>
      if negb (cr_runSnapshotter cr) then
        cret (Some (EText "plan declares a run-level snapshot baseline but no run snapshotter is installed"))
      else
        run! err <- asks (ce_captureRun env) (KCaptureRun targets);
        cret (match err with Some e => Some (EWrap "run-level snapshot capture" e) | None => None end)
  end.

Definition captureSnapshotsAndBaseline (cr : ClosureRunner) (p : Plan) (targets : list string) : CM (option goerr) :=
  run! e1 <- captureSnapshots cr p;
  match e1 with
  | Some e => cret (Some (EWrap "closure: pre-apply snapshot" e))
  | None =>
      run! e2 <- captureRunSnapshot cr p targets;
      cret (match e2 with Some e => Some (EWrap "closure: run-level snapshot" e) | None => None end)
  end.

(** One batch through the controller. *)
Definition batchEnv (h : list cev) : Batch.Env :=
  Batch.MkEnv (ce_batchCtx env h) (adaptExecFunc hasExec (ce_exec env h)) (ce_admit env h) (ce_pick env h) (ce_prefer env h).

Definition execBatch (cr : ClosureRunner) (p : Plan) (b : Batch) : CM (list Batch.BatchResult) := fun w =>
  let sp := subPlan p [b] (Z.of_nat (length (b_Targets b))) in
  let '(brs, log) := Batch.Execute (batchEnv (w_log w)) (cr_batchCtrl cr) (Some sp) true [] in
  (brs, MkWorld (w_log w ++ [KBatch b brs log]) (w_locks w)).

(** How the batch loop ended. *)
Inductive applyEnd :=
| AllApplied
| Trigger (reason : string)
| Fenced (reason : string).

Record applied := MkApplied {
  ap_results : list Batch.BatchResult;
  ap_verify : list Verify.GateResult;
  ap_executed : list Batch;
  ap_end : applyEnd }.

Definition lastError (brs : list Batch.BatchResult) : option goerr :=
  match last brs with Some br => Batch.br_Error br | None => None end.

Fixpoint applyBatches (cr : ClosureRunner) (gm : Verify.GateManager) (p : Plan) (runID : string) (i : nat)
    (batches : list Batch) : CM applied :=
  match batches with
  | [] => cret (MkApplied [] [] [] AllApplied)
  | b :: rest =>
      run! c <- pollCtx;
      match c with
      | Some e => cret (MkApplied [] [] [] (Trigger ("cancelled before batch " +:+ pretty i +:+ ": " +:+ err_text e)))
      | None =>
          run! brs <- execBatch cr p b;
          match lastError brs with
          | Some e =>
              cret (MkApplied brs [] [b]
                (if errors_Is e ErrFencedOut
                 then Fenced ("execution fenced out during batch " +:+ pretty (b_Index b))
                 else Trigger ("batch " +:+ pretty (b_Index b) +:+ " execution failed: " +:+ err_text e)))
          | None =>
              run! rs <- runPhase gm runID Verify.PhasePostBatch ("batch-" +:+ pretty (b_Index b));
              if negb (gatesPassed rs) then
                cret (MkApplied brs rs [b] (Trigger ("post-batch gate failed after batch " +:+ pretty (b_Index b))))
              else
                run! a <- applyBatches cr gm p runID (S i) rest;
                cret (MkApplied (brs ++ ap_results a) (rs ++ ap_verify a) (b :: ap_executed a) (ap_end a))
          end
      end
  end.

(** Post-apply verification: runs unless a rollback was triggered, so also after
    a fenced-out batch, where it can only replace the reason. *)
Definition postApply (gm : Verify.GateManager) (runID : string) (e : applyEnd) : CM (list Verify.GateResult * applyEnd) :=
  match e with
  | Trigger _ => cret ([], e)
  | _ =>
      run! c <- pollCtx;
      match c with
      | Some err =>
          let reason := "cancelled before post-apply verify: " +:+ err_text err in
          cret ([], match e with Fenced _ => Fenced reason | _ => Trigger reason end)
      | None =>
          run! rs <- runPhase gm runID Verify.PhasePostApply "";
          cret (rs, if gatesPassed rs then e
                    else match e with
                         | Fenced _ => Fenced "post-apply gate failed"
                         | _ => Trigger "post-apply gate failed"
                         end)
      end
  end.

(** [rollback.Manager.RollbackWithLedger] for the executed batches. *)
Definition doRollback (cr : ClosureRunner) (p : Plan) (runID : string) (a : applied) : CM Rollback.RollbackResult := fun w =>
  let ep := subPlan p (ap_executed a) (countTargets (ap_executed a)) in
  let ledger := Rollback.LedgerFromBatchResults (map Some (ap_results a)) in
  let '(r, calls) := Rollback.RollbackWithLedger (ce_undo env (w_log w)) (Rollback.SetRunID runID (cr_rollback cr))
                       (Some ep) hasExec (Some ledger) [] in
  (r, MkWorld (w_log w ++ [KRollback ep r calls]) (w_locks w)).

Definition restoreRunSnapshot (cr : ClosureRunner) (p : Plan) (targets : list string) : CM (option goerr) :=
  match p_RunSnapshot p with
  | Some _ => if cr_runSnapshotter cr then asks (ce_restoreRun env) (KRestoreRun targets) else cret None
  | None => cret None
  end.

Definition postVerify (cr : ClosureRunner) (p : Plan) (runID : string) : CM (option (list Verify.GateResult)) :=
  match cr_postVerifier cr with
  | Some gm =>
      if postRollbackVerifyRequested (Some p) then
        run! rs <- asks (ce_postVerify env) KPostVerify;
        run! _ <- emit (KVerdicts (gateVerdicts runID gm Verify.PhasePostApply "rollback" "" rs));
        cret (Some rs)
      else cret None
  | None => cret None
  end.

Definition rollbackPhase (r : Rollback.RollbackResult) : ClosurePhase :=
  if Rollback.Success r then PhaseRolledBack
  else if Rollback.PartialRollback r then PhasePartialRollback else PhaseRollbackIncomplete.

(** The rollback path, entered with [reason]. *)
Definition rollbackPath (cr : ClosureRunner) (p : Plan) (runID : string) (targets : list string) (a : applied)
    (vrs : list Verify.GateResult) (reason : string) : CM (ClosureResult * option goerr) :=
  let base phase rb manual pv err rse :=
    MkClosureResult runID (p_ID p) phase (ap_results a) vrs rb manual pv err rse in
  if String.eqb (rollbackPolicyOf (Some p)) Dsl.RollbackOnFailureManual then
    let e := EText ("closure: " +:+ reason +:+ "; on_failure=manual: automatic rollback suppressed, operator-triggered rollback required (applied batches kept)") in
    cret (base PhaseFailed None true None (Some e) None, Some e)
  else
    run! r <- doRollback cr p runID a;
    run! rse <- restoreRunSnapshot cr p targets;
    run! pv <- postVerify cr p runID;
    let verdict := " (compensations " +:+ pretty (Rollback.CompletedCompensations r) +:+ "/" +:+
      pretty (Rollback.RequiredCompensations r) +:+ " completed, " +:+ pretty (Rollback.UnknownSideEffects r) +:+
      " forward steps with undetermined side effects)" in
    cret (base (rollbackPhase r) (Some r) false pv
            (Some (if Rollback.Success r then EText ("closure: " +:+ reason)
                   else match Rollback.rr_Error r with
                        | Some e => EWrap ("closure: " +:+ reason +:+ "; rollback incomplete" +:+ verdict) e
                        | None => EText ("closure: " +:+ reason +:+ "; rollback incomplete" +:+ verdict)
                        end)) rse, None).

(** From the held locks to the outcome. *)
Definition execute (cr : ClosureRunner) (gm : Verify.GateManager) (p : Plan) (runID : string) (targets : list string)
    (pre : list Verify.GateResult) : CM (ClosureResult * option goerr) :=
  run! snapErr <- captureSnapshotsAndBaseline cr p targets;
  match snapErr with
  | Some e => cret (MkClosureResult runID (p_ID p) PhaseFailed [] pre None false None (Some e) None, Some e)
  | None =>
      run! a <- applyBatches cr gm p runID 0 (p_Batches p);
      run! post <- postApply gm runID (ap_end a);
      let '(postResults, fin) := post in
      let vrs := pre ++ ap_verify a ++ postResults in
      match fin with
      | Fenced reason =>
          let e := EWrap ("closure: " +:+ reason +:+ "; not rolling back") (ESentinel ErrFencedOut) in
          cret (MkClosureResult runID (p_ID p) PhaseFailed (ap_results a) vrs None false None (Some e) None, Some e)
      | Trigger reason => rollbackPath cr p runID targets a vrs reason
      | AllApplied =>
          cret (MkClosureResult runID (p_ID p) PhaseCompleted (ap_results a) vrs None false None None None, None)
      end
  end.

Definition failed (runID planID : string) (pre : list Verify.GateResult) (e : goerr) : ClosureResult * option goerr :=
  (MkClosureResult runID planID PhaseFailed [] pre None false None (Some e) None, Some e).

Definition withVerifier (cr : ClosureRunner) (gm : Verify.GateManager) : ClosureRunner :=
  MkRunner gm (cr_rollback cr) (cr_batchCtrl cr) (cr_postVerifier cr) (cr_gateRuntime cr) (cr_hostGuard cr)
    (cr_snapshotter cr) (cr_runSnapshotter cr).

(** After the guard and the gates: locks, the run under them, their release. *)
Definition lockedRun (cr : ClosureRunner) (gm : Verify.GateManager) (p : Plan) (runID : string) (targets : list string)
    (pre : list Verify.GateResult) : CM (ClosureResult * option goerr) :=
  run! got <- acquireLocks runID targets [];
  let '(acquired, lockErr) := got in
  match lockErr with
  | Some e =>
      run! _ <- releaseLocks runID acquired;
      cret (failed runID (p_ID p) pre e)
  | None =>
      run! out <- execute cr gm p runID targets pre;
      run! _ <- releaseLocks runID acquired;
      cret out
  end.

Definition guarded (cr : ClosureRunner) (targets : list string) : CM (option goerr) :=
  if cr_hostGuard cr then asks (fun h => ce_guard env h targets) (KGuard targets) else cret None.

(** [ClosureRunner.Run] with the run id drawn. *)
Definition RunWith (cr : ClosureRunner) (p : option Plan) (runID : string) : CM (ClosureResult * option goerr) :=
  match p with
  | None => cret (failed runID "" [] (EText "closure: plan is nil"))
  | Some p =>
      let targets := collectTargets p in
      run! g <- guarded cr targets;
      match g with
      | Some e => cret (failed runID (p_ID p) [] (EWrap "closure: host guard" e))
      | None =>
          let '(gm, merr) := Verify.materializeStepGates (cr_verifier cr) (Some p) (cr_gateRuntime cr) in
          match merr with
          | Some e => cret (failed runID (p_ID p) [] (EWrap "closure: materialise gates" e))
          | None =>
              run! pre <- runPhase gm runID Verify.PhasePreApply "";
              if negb (gatesPassed pre) then cret (failed runID (p_ID p) pre (EText "closure: pre-apply gate failed"))
              else
                run! c <- pollCtx;
                match c with
                | Some e => cret (failed runID (p_ID p) pre (EWrap "closure: cancelled before lock acquire" e))
                | None => lockedRun cr gm p runID targets pre
                end
          end
      end
  end.

(** [Run]: [runID] is the outcome of [newRunID]. *)
Definition Run (cr : ClosureRunner) (p : option Plan) (runID : goerr + string) : CM (option ClosureResult * option goerr) :=
  match runID with
  | inl e => cret (None, Some e)
  | inr id => run! out <- RunWith cr p id; cret (Some out.1, out.2)
  end.

(** ** Stages and the history *)

(** A stage that appends events satisfying [P] and leaves the locks alone. *)
Definition emits {A} (P : cev -> Prop) (m : CM A) : Prop :=
  forall w, exists L, w_log (m w).2 = w_log w ++ L /\ Forall P L /\ w_locks (m w).2 = w_locks w.

Lemma emits_ret {A} P (a : A) : emits P (cret a).
Proof. intros w. exists []. by rewrite app_nil_r. Qed.

Lemma emits_asks {A} (P : cev -> Prop) (f : list cev -> A) ev : (forall a, P (ev a)) -> emits P (asks f ev).
Proof. intros HP w. exists [ev (f (w_log w))]. split_and!; [done|by repeat constructor|done]. Qed.

Lemma emits_emit (P : cev -> Prop) e : P e -> emits P (emit e).
Proof. intros HP w. exists [e]. split_and!; [done|by repeat constructor|done]. Qed.

Lemma emits_bind {A B} P (m : CM A) (k : A -> CM B) :
  emits P m -> (forall a, emits P (k a)) -> emits P (cbind m k).
Proof.
  intros Hm Hk w. unfold cbind. destruct (Hm w) as (L1 & E1 & F1 & K1). destruct (m w) as [a w1]. simpl in *.
  destruct (Hk a w1) as (L2 & E2 & F2 & K2). exists (L1 ++ L2). rewrite E2, E1, app_assoc, K2, K1.
  split_and!; [done|by apply Forall_app|done].
Qed.

Lemma emits_mono {A} (P Q : cev -> Prop) (m : CM A) : (forall e, P e -> Q e) -> emits P m -> emits Q m.
Proof. intros HPQ Hm w. destruct (Hm w) as (L & E & F & K). exists L. split_and!; [done|by eapply Forall_impl|done]. Qed.

Hint Resolve emits_ret emits_asks emits_emit emits_bind : levee.

Lemma emits_runPhase P gm runID phase bid :
  (forall rs, P (KPhase phase rs)) -> (forall vs, P (KVerdicts vs)) -> emits P (runPhase gm runID phase bid).
Proof. intros H1 H2. unfold runPhase. eauto 10 with levee. Qed.

(** Events of preparation: nothing that changes a target. *)
Definition is_batch (e : cev) : Prop := match e with KBatch _ _ _ => True | _ => False end.
Definition is_rollback (e : cev) : Prop := match e with KRollback _ _ _ => True | _ => False end.
Definition is_release (e : cev) : Prop := match e with KRelease _ => True | _ => False end.
Definition preparatory (e : cev) : Prop := ~ is_batch e /\ ~ is_rollback e /\ ~ is_release e.

Ltac events := repeat (apply Forall_cons_2; [split_and!; by intros []|]); by apply Forall_nil_2.

(** Batches executed, as the history shows them. *)
Definition batchEvents (L : list cev) : list (Batch * list Batch.BatchResult * list Batch.event) :=
  omap (fun e => match e with KBatch b brs log => Some (b, brs, log) | _ => None end) L.

Lemma batchEvents_app L1 L2 : batchEvents (L1 ++ L2) = batchEvents L1 ++ batchEvents L2.
Proof. apply omap_app. Qed.

Lemma batchEvents_none L : Forall (fun e => ~ is_batch e) L -> batchEvents L = [].
Proof. induction 1 as [|e L He _ IH]; [done|]. destruct e; simpl in *; tauto || exact IH. Qed.

(** ** The apply stage *)

(** One batch through the controller: one result, which is either a refusal to
    start or the record of the batch. *)
Definition batch_outcome (c : Batch.Controller) (x : Batch * list Batch.BatchResult * list Batch.event) : Prop :=
  exists br, x.1.2 = [br] /\
    ((x.2 = [] /\ Batch.br_TargetResults br = [] /\ Batch.br_Error br <> None) \/
     exists log, x.2 = Batch.EvBatch (b_Index x.1.1) :: log /\ Batch.batch_record c x.1.1 br log).

Lemma execBatch_spec cr p b (w : world) :
  exists brs log, execBatch cr p b w = (brs, MkWorld (w_log w ++ [KBatch b brs log]) (w_locks w)) /\
    batch_outcome (cr_batchCtrl cr) (b, brs, log).
Proof.
  unfold execBatch, Batch.Execute. cbn [negb p_Batches subPlan Batch.executeLoop app].
  destruct (Batch.pollCtx (batchEnv (w_log w)) None []) as [e|].
  { eexists _, _. split; [done|]. eexists. split; [done|]. by left. }
  pose proof (Batch.executeBatch_record (batchEnv (w_log w)) (cr_batchCtrl cr) b [Batch.EvBatch (b_Index b)] None) as Hr.
  destruct (Batch.executeBatch _ _ _ _ _) as [[br pctx] log].
  destruct (_ && _); (eexists _, _; split; [done|]; exists br; split; [done|right; by exists log]).
Qed.

Definition fenced_batch (x : Batch * list Batch.BatchResult * list Batch.event) : Prop :=
  exists e, lastError x.1.2 = Some e /\ errors_Is e ErrFencedOut = true.

Definition apply_event (e : cev) : Prop := ~ is_rollback e /\ ~ is_release e.

Record apply_spec (cr : ClosureRunner) (batches : list Batch) (a : applied) (L : list cev) : Prop := {
  as_events : Forall apply_event L;
  as_outcomes : Forall (batch_outcome (cr_batchCtrl cr)) (batchEvents L);
  as_executed : map (fun x => x.1.1) (batchEvents L) = ap_executed a;
  as_prefix : ap_executed a `prefix_of` batches;
  as_results : concat (map (fun x => x.1.2) (batchEvents L)) = ap_results a;
  as_complete : ap_end a = AllApplied -> ap_executed a = batches /\ gatesPassed (ap_verify a) = true /\
    Forall (fun x => lastError x.1.2 = None) (batchEvents L);
  as_fenced : (exists r, ap_end a = Fenced r) <-> Exists fenced_batch (batchEvents L) }.

Lemma cbind_inv {A B} (m : CM A) (k : A -> CM B) w b w' :
  cbind m k w = (b, w') -> exists a w1, m w = (a, w1) /\ k a w1 = (b, w').
Proof. unfold cbind. destruct (m w) as [a w1]. eauto. Qed.

Lemma emits_inv {A} P (m : CM A) w a w' :
  emits P m -> m w = (a, w') -> exists L, w_log w' = w_log w ++ L /\ Forall P L /\ w_locks w' = w_locks w.
Proof. intros Hm E. specialize (Hm w). by rewrite E in Hm. Qed.

Lemma pollCtx_inv w c w' : pollCtx w = (c, w') -> c = ce_ctx env (w_log w) /\ w' = MkWorld (w_log w ++ [KCtx c]) (w_locks w).
Proof. unfold pollCtx, asks. by intros [= <- <-]. Qed.

(** No batch was executed. *)
Lemma apply_none cr batches e L :
  Forall apply_event L -> batchEvents L = [] -> (forall r, e <> Fenced r) -> (e = AllApplied -> batches = []) ->
  apply_spec cr batches (MkApplied [] [] [] e) L.
Proof.
  intros HL Hev Hnf Hall. constructor; rewrite ?Hev; cbn [ap_executed ap_results ap_end ap_verify map concat]; try done.
  - apply prefix_nil.
  - intros He. by rewrite (Hall He).
  - rewrite Exists_nil. split; [intros [r Hr]; by apply (Hnf r)|done].
Qed.

(** The run stopped after batch [b]. *)
Lemma apply_one cr b rest brs rs e log L :
  Forall apply_event L -> batchEvents L = [(b, brs, log)] -> batch_outcome (cr_batchCtrl cr) (b, brs, log) ->
  e <> AllApplied -> ((exists r, e = Fenced r) <-> fenced_batch (b, brs, log)) ->
  apply_spec cr (b :: rest) (MkApplied brs rs [b] e) L.
Proof.
  intros HL Hev Hout Hne Hf. constructor; rewrite ?Hev; cbn [ap_executed ap_results ap_end ap_verify map concat fst snd]; try done.
  - by repeat constructor.
  - apply prefix_cons, prefix_nil.
  - by rewrite app_nil_r.
  - rewrite Exists_cons, Exists_nil. tauto.
Qed.

(** Batch [b] and its gates passed and the run went on. *)
Lemma apply_more cr b rest brs rs a log L1 L2 :
  Forall apply_event L1 -> batchEvents L1 = [(b, brs, log)] -> batch_outcome (cr_batchCtrl cr) (b, brs, log) ->
  lastError brs = None -> gatesPassed rs = true -> apply_spec cr rest a L2 ->
  apply_spec cr (b :: rest) (MkApplied (brs ++ ap_results a) (rs ++ ap_verify a) (b :: ap_executed a) (ap_end a)) (L1 ++ L2).
Proof.
  intros HL Hev Hout Hlast Hg [S1 S2 S3 S4 S5 S6 S7]. constructor; rewrite ?batchEvents_app, ?Hev;
    cbn [app ap_executed ap_results ap_verify ap_end map concat fst snd].
  - by apply Forall_app.
  - by constructor.
  - by rewrite S3.
  - by apply prefix_cons.
  - by rewrite S5.
  - intros He. destruct (S6 He) as (-> & Hg2 & Hall). split_and!; [done| |by constructor].
    unfold gatesPassed in *. by rewrite forallb_app, Hg, Hg2.
  - rewrite S7, Exists_cons. split; [tauto|]. intros [(e & He & _)|H1]; [simpl in He; congruence|done].
Qed.

Lemma runPhase_quiet gm runID phase bid w rs w' :
  runPhase gm runID phase bid w = (rs, w') ->
  exists L, w_log w' = w_log w ++ L /\ w_locks w' = w_locks w /\ Forall apply_event L /\ batchEvents L = [].
Proof.
  intros Ep. apply (emits_inv (fun e => apply_event e /\ ~ is_batch e)) in Ep as (L & E & F & K).
  2: { unfold apply_event. apply emits_runPhase; intros; split_and!; by intros []. }
  exists L. split_and!; [done|done| |apply batchEvents_none]; (eapply Forall_impl; [exact F|]; naive_solver).
Qed.

Lemma applyBatches_spec cr gm p runID i batches (w : world) a w' :
  applyBatches cr gm p runID i batches w = (a, w') ->
  exists L, w_log w' = w_log w ++ L /\ w_locks w' = w_locks w /\ apply_spec cr batches a L.
Proof.
  revert i w a w'. induction batches as [|b rest IH]; intros i w a w' E; cbn [applyBatches] in E.
  { injection E as <- <-. exists []. rewrite app_nil_r. split_and!; [done|done|]. by apply apply_none. }
  apply cbind_inv in E as (c & w1 & [-> ->]%pollCtx_inv & E). destruct (ce_ctx env (w_log w)) as [e|].
  { injection E as <- <-. exists [KCtx (Some e)]. split_and!; [done|done|]. apply apply_none; [events|done..]. }
  apply cbind_inv in E as (brs & w2 & Ex & E).
  destruct (execBatch_spec cr p b (MkWorld (w_log w ++ [KCtx None]) (w_locks w))) as (brs' & log & Ex' & Hout).
  rewrite Ex' in Ex. apply pair_equal_spec in Ex as [<- <-]. cbn [w_log w_locks] in E.
  destruct (lastError brs') as [e|] eqn:Hlast.
  { injection E as <- <-. exists [KCtx None; KBatch b brs' log]. cbn [w_log w_locks]. rewrite <- app_assoc.
    split_and!; [done|done|]. apply (apply_one _ _ _ _ _ _ log); [events|done|done|by destruct (errors_Is e ErrFencedOut)|].
    unfold fenced_batch. cbn [fst snd]. rewrite Hlast. destruct (errors_Is e ErrFencedOut) eqn:Hf; [naive_solver|].
    split; [by intros [? ?]|]. intros (e' & [= <-] & Hf'). congruence. }
  apply cbind_inv in E as (rs & w3 & Ep & E). destruct (runPhase_quiet _ _ _ _ _ _ _ Ep) as (L2 & E2 & K2 & F2 & B2).
  cbn [w_log w_locks] in E2, K2.
  assert (F1 : Forall apply_event ([KCtx None; KBatch b brs' log] ++ L2)) by (apply Forall_app; split; [events|done]).
  assert (B1 : batchEvents ([KCtx None; KBatch b brs' log] ++ L2) = [(b, brs', log)]) by (rewrite batchEvents_app, B2; done).
  destruct (gatesPassed rs) eqn:Hg; cbn [negb] in E.
  - apply cbind_inv in E as (a3 & w4 & Ea & E). injection E as <- <-. destruct (IH _ _ _ _ Ea) as (L3 & E3 & K3 & Hs).
    exists (([KCtx None; KBatch b brs' log] ++ L2) ++ L3). rewrite E3, E2.
    split_and!; [by rewrite <- !app_assoc|congruence|by eapply apply_more].
  - injection E as <- <-. exists ([KCtx None; KBatch b brs' log] ++ L2). rewrite E2, K2.
    split_and!; [by rewrite <- !app_assoc|done|]. apply (apply_one _ _ _ _ _ _ log); [done|done|done|done|].
    split; [by intros [? ?]|]. intros (e & He & _). simpl in He. congruence.
Qed.

(** ** Snapshots *)

(** Everything the plan wants captured has been, without error. *)
Definition captured (cr : ClosureRunner) (p : Plan) (targets : list string) (L : list cev) : Prop :=
  (cr_snapshotter cr = true -> forall t s, (t, s) ∈ snapshotPairs p -> KCapture t s None ∈ L) /\
  (p_RunSnapshot p <> None -> KCaptureRun targets None ∈ L).

Lemma capturePairs_spec pairs w e w' :
  capturePairs pairs w = (e, w') ->
  exists L, w_log w' = w_log w ++ L /\ w_locks w' = w_locks w /\ Forall preparatory L /\
    (e = None -> forall t s, (t, s) ∈ pairs -> KCapture t s None ∈ L).
Proof.
  revert w. induction pairs as [|[t s] pairs IH]; intros w E; cbn [capturePairs] in E.
  { injection E as <- <-. exists []. rewrite app_nil_r. split_and!; [done|done|constructor|set_solver]. }
  apply cbind_inv in E as (err & w1 & Ea & E). unfold asks in Ea. injection Ea as <- <-.
  destruct (ce_capture env (w_log w) t s) as [e0|].
  - injection E as <- <-. exists [KCapture t s (Some e0)]. split_and!; [done|done|events|done].
  - destruct (IH _ E) as (L & E1 & K1 & F1 & Hall). cbn [w_log w_locks] in *.
    exists (KCapture t s None :: L). rewrite E1, <- app_assoc. split_and!; [done|done|apply Forall_cons_2; [split_and!; by intros []|done]|].
    intros He t' s' [[= -> ->]|Hin]%elem_of_cons; [by left|right; auto].
Qed.

Lemma capture_spec cr p targets w e w' :
  captureSnapshotsAndBaseline cr p targets w = (e, w') ->
  exists L, w_log w' = w_log w ++ L /\ w_locks w' = w_locks w /\ Forall preparatory L /\
    (e = None -> captured cr p targets L).
Proof.
  unfold captureSnapshotsAndBaseline. intros E. apply cbind_inv in E as (e1 & w1 & E1 & E).
  assert (H1 : exists L, w_log w1 = w_log w ++ L /\ w_locks w1 = w_locks w /\ Forall preparatory L /\
    (e1 = None -> cr_snapshotter cr = true -> forall t s, (t, s) ∈ snapshotPairs p -> KCapture t s None ∈ L)).
  { unfold captureSnapshots in E1. destruct (cr_snapshotter cr).
    - destruct (capturePairs_spec _ _ _ _ E1) as (L & ? & ? & ? & ?). exists L. auto.
    - injection E1 as <- <-. exists []. rewrite app_nil_r. split_and!; [done|done|constructor|done]. }
  destruct H1 as (L1 & HL1 & HK1 & HF1 & Hc1).
  destruct e1 as [e1|]; [injection E as <- <-; exists L1; done|].
  apply cbind_inv in E as (e2 & w2 & E2 & E). injection E as <- <-. unfold captureRunSnapshot in E2.
  destruct (p_RunSnapshot p) as [spec|] eqn:Hs.
  - destruct (cr_runSnapshotter cr); cbn [negb] in E2.
    + apply cbind_inv in E2 as (err & w3 & Ea & E2). unfold asks in Ea. injection Ea as <- <-. injection E2 as <- <-.
      set (ans := ce_captureRun env (w_log w1)). exists (L1 ++ [KCaptureRun targets ans]). cbn [w_log w_locks].
      rewrite HL1, app_assoc. split_and!; [done|done|apply Forall_app; split; [done|events]|].
      intros He. destruct ans; [done|]. split; [intros Hsn t s Hin; apply elem_of_app; left; auto|]. intros _. set_solver.
    + injection E2 as <- <-. exists L1. done.
  - injection E2 as <- <-. exists L1. split_and!; [done|done|done|]. intros _. split; [auto|done].
Qed.

(** ** The run under the locks *)

(** How an applied run ends, with the events of its last stage. *)
Inductive ending (cr : ClosureRunner) (p : Plan) (runID : string) (a : applied) :
    ClosureResult -> option goerr -> list cev -> Prop :=
| end_completed r :
    ap_end a = AllApplied -> res_Phase r = PhaseCompleted -> res_Error r = None -> res_RollbackResult r = None ->
    gatesPassed (res_VerifyResults r) = true -> ending cr p runID a r None []
| end_fenced r e :
    (exists x, ap_end a = Fenced x) -> res_Phase r = PhaseFailed -> res_RollbackResult r = None ->
    errors_Is e ErrFencedOut = true -> ending cr p runID a r (Some e) []
| end_manual r e :
    (forall x, ap_end a <> Fenced x) -> rollbackPolicyOf (Some p) = Dsl.RollbackOnFailureManual ->
    res_Phase r = PhaseFailed -> res_ManualRollbackRequired r = true -> res_RollbackResult r = None ->
    ending cr p runID a r (Some e) []
| end_rolled r w rr calls rest :
    (forall x, ap_end a <> Fenced x) -> rollbackPolicyOf (Some p) <> Dsl.RollbackOnFailureManual ->
    Rollback.RollbackWithLedger (ce_undo env w) (Rollback.SetRunID runID (cr_rollback cr))
      (Some (subPlan p (ap_executed a) (countTargets (ap_executed a)))) hasExec
      (Some (Rollback.LedgerFromBatchResults (map Some (ap_results a)))) [] = (rr, calls) ->
    res_Phase r = rollbackPhase rr -> res_RollbackResult r = Some rr -> Forall preparatory rest ->
    ending cr p runID a r None
      (KRollback (subPlan p (ap_executed a) (countTargets (ap_executed a))) rr calls :: rest).

Lemma rollbackPath_spec cr p runID targets a vrs reason w r err w' :
  (forall x, ap_end a <> Fenced x) ->
  rollbackPath cr p runID targets a vrs reason w = ((r, err), w') ->
  exists L, w_log w' = w_log w ++ L /\ w_locks w' = w_locks w /\ ending cr p runID a r err L /\
    res_BatchResults r = ap_results a.
Proof.
  intros Hnf. unfold rollbackPath. destruct (String.eqb_spec (rollbackPolicyOf (Some p)) Dsl.RollbackOnFailureManual) as [Hm|Hm].
  { intros [= <- <- <-]. exists []. rewrite app_nil_r. split_and!; [done|done| |done]. by apply end_manual. }
  intros E. apply cbind_inv in E as (rr & w1 & E1 & E). unfold doRollback in E1.
  destruct (Rollback.RollbackWithLedger _ _ _ _ _ _) as [rr' calls] eqn:Hrb. injection E1 as <- <-.
  apply cbind_inv in E as (rse & w2 & E2 & E). apply cbind_inv in E as (pv & w3 & E3 & E). injection E as <- <- <-.
  apply (emits_inv preparatory) in E2 as (L2 & HL2 & F2 & K2).
  2: { unfold restoreRunSnapshot. destruct (p_RunSnapshot p); [|apply emits_ret].
       destruct (cr_runSnapshotter cr); [|apply emits_ret]. apply emits_asks. intros; split_and!; by intros []. }
  apply (emits_inv preparatory) in E3 as (L3 & HL3 & F3 & K3).
  2: { unfold postVerify. destruct (cr_postVerifier cr); [|apply emits_ret].
       destruct (postRollbackVerifyRequested (Some p)); [|apply emits_ret].
       apply emits_bind; [apply emits_asks; intros; split_and!; by intros []|]. intros rs.
       apply emits_bind; [apply emits_emit; split_and!; by intros []|]. intros _. apply emits_ret. }
  cbn [w_log w_locks] in *. eexists (_ :: L2 ++ L3).
  split_and!; [rewrite HL3, HL2, <- !app_assoc; reflexivity|congruence| |done].
  eapply end_rolled; [done|done|exact Hrb|done|done|by apply Forall_app].
Qed.

Lemma postApply_spec gm runID e w rs fin w' :
  postApply gm runID e w = ((rs, fin), w') ->
  exists L, w_log w' = w_log w ++ L /\ w_locks w' = w_locks w /\ Forall preparatory L /\
    ((exists x, e = Fenced x) <-> (exists x, fin = Fenced x)) /\
    (fin = AllApplied -> e = AllApplied /\ gatesPassed rs = true).
Proof.
  unfold postApply. intros E. destruct e as [|reason|reason].
  2: { injection E as <- <- <-. exists []. rewrite app_nil_r. split_and!; [done|done|constructor|naive_solver|done]. }
  all: apply cbind_inv in E as (c & w1 & [-> ->]%pollCtx_inv & E); destruct (ce_ctx env (w_log w)) as [err|];
    [injection E as <- <- <-; exists [KCtx (Some err)]; split_and!; [done|done|events|naive_solver|done]|].
  all: apply cbind_inv in E as (rs' & w2 & Ep & E); injection E as <- <- <-;
    apply (emits_inv preparatory) in Ep as (L & HL & F & K);
    [|apply emits_runPhase; intros; split_and!; by intros []];
    exists (KCtx None :: L); cbn [w_log w_locks] in *; rewrite HL, <- app_assoc;
    (split_and!; [done|done|apply Forall_cons_2; [split_and!; by intros []|done]| |]);
    destruct (gatesPassed rs'); naive_solver.
Qed.

Lemma execute_spec cr gm p runID targets pre w r err w' :
  gatesPassed pre = true ->
  execute cr gm p runID targets pre w = ((r, err), w') ->
  exists Lsnap, Forall preparatory Lsnap /\ w_locks w' = w_locks w /\
   ((w_log w' = w_log w ++ Lsnap /\ res_Phase r = PhaseFailed /\ res_RollbackResult r = None /\ res_BatchResults r = []) \/
    (captured cr p targets Lsnap /\ exists a La Lpost Lend, w_log w' = w_log w ++ Lsnap ++ La ++ Lpost ++ Lend /\
       apply_spec cr (p_Batches p) a La /\ Forall preparatory Lpost /\ ending cr p runID a r err Lend /\
       res_BatchResults r = ap_results a)).
Proof.
  intros Hpre E. unfold execute in E. apply cbind_inv in E as (se & w1 & E1 & E).
  destruct (capture_spec _ _ _ _ _ _ E1) as (Ls & HL1 & HK1 & HF1 & Hc1). exists Ls. split; [done|].
  destruct se as [e|]; [injection E as <- <- <-; split; [done|by left]|].
  apply cbind_inv in E as (a & w2 & E2 & E). destruct (applyBatches_spec _ _ _ _ _ _ _ _ _ E2) as (La & HL2 & HK2 & Hspec).
  apply cbind_inv in E as ([prs fin] & w3 & E3 & E). destruct (postApply_spec _ _ _ _ _ _ _ E3) as (Lp & HL3 & HK3 & HF3 & Hf & Hall).
  assert (Hend : exists Lend, w_log w' = w_log w3 ++ Lend /\ w_locks w' = w_locks w3 /\ ending cr p runID a r err Lend /\
    res_BatchResults r = ap_results a).
  { destruct fin as [|reason|reason].
    - injection E as <- <- <-. exists []. rewrite app_nil_r. split_and!; [done|done| |done].
      destruct (Hall eq_refl) as [Ha Hg]. apply end_completed; [done|done|done|done|].
      destruct (as_complete _ _ _ _ Hspec Ha) as (_ & Hg2 & _). cbn [res_VerifyResults]. unfold gatesPassed in *.
      by rewrite !forallb_app, Hpre, Hg2, Hg.
    - eapply rollbackPath_spec; [|exact E]. intros x Hx. destruct (proj1 Hf (ex_intro _ x Hx)) as [? ?]. done.
    - injection E as <- <- <-. exists []. rewrite app_nil_r. split_and!; [done|done| |done].
      apply end_fenced; [by apply Hf; eauto|done|done|vm_compute; reflexivity]. }
  destruct Hend as (Lend & HL4 & HK4 & He & Hb). split; [congruence|]. right. split; [by apply Hc1|].
  exists a, La, Lp, Lend. rewrite HL4, HL3, HL2, HL1, <- !app_assoc. split_and!; done.
Qed.

(** ** Locks *)

Section locks.
Context {HL : LockLaws LS}.

Lemma acquireLocks_spec runID targets acquired (w : world) :
  ls_ok (w_locks w) -> NoDup (acquired ++ targets) ->
  (forall t, t ∈ acquired -> ls_held (w_locks w) t = Some runID) ->
  let '((got, err), w') := acquireLocks runID targets acquired w in
  ls_ok (w_locks w') /\ NoDup got /\ (forall t, t ∈ acquired -> t ∈ got) /\
  (forall t, t ∈ got -> t ∈ acquired ++ targets /\ ls_held (w_locks w') t = Some runID) /\
  (forall t, (t ∉ got) -> ls_held (w_locks w') t = ls_held (w_locks w) t) /\
  exists L, w_log w' = w_log w ++ L /\ Forall preparatory L /\
    (err = None -> got = acquired ++ targets /\ forall t, t ∈ targets -> KAcquire t None ∈ L).
Proof.
  revert acquired w. induction targets as [|t targets IH]; intros acquired w Hok Hnd Hheld.
  { simpl. rewrite app_nil_r in *. split_and!; try done; [by auto|]. exists []. rewrite !app_nil_r.
    split_and!; [done|constructor|]. set_solver. }
  assert (Hnd1 : NoDup acquired) by (by apply NoDup_app in Hnd as (? & _ & _)).
  simpl. unfold cbind at 1, pollCtx, asks. destruct (ce_ctx env (w_log w)) as [e|].
  { simpl. split_and!; try done; [set_solver|]. exists [KCtx (Some e)]. split_and!; [done|events|done]. }
  unfold cbind, acquireLock. cbn [w_locks w_log].
  destruct (ls_acquire (w_locks w) t runID) as [err s] eqn:Hacq.
  assert (Hok' : ls_ok s) by (change s with ((err, s).2); rewrite <- Hacq; by apply acquire_ok).
  assert (Hoth : forall t', t' <> t -> ls_held s t' = ls_held (w_locks w) t').
  { intros t' Hne. change s with ((err, s).2). rewrite <- Hacq. by apply acquire_other. }
  destruct err as [e|].
  { simpl. assert (Hsame : forall t', ls_held s t' = ls_held (w_locks w) t').
    { intros t'. change s with ((Some e, s).2). rewrite <- Hacq. apply (acquire_refused _ _ _ e); [done|by rewrite Hacq]. }
    split_and!; [done|done|done| |done|].
    - intros t' Ht'. rewrite Hsame. split; [set_solver|auto].
    - exists [KCtx None; KAcquire t (Some e)]. rewrite <- app_assoc. split_and!; [done|events|done]. }
  assert (Hgot : ls_held s t = Some runID).
  { change s with ((@None goerr, s).2). rewrite <- Hacq. apply acquire_granted; [done|by rewrite Hacq]. }
  assert (Hta : t ∉ acquired) by (apply NoDup_app in Hnd as (_ & Hx & _); intros Hin; by apply (Hx t Hin); left).
  specialize (IH (acquired ++ [t]) (MkWorld ((w_log w ++ [KCtx None]) ++ [KAcquire t None]) s) Hok').
  rewrite <- !app_assoc in IH. simpl in IH. specialize (IH Hnd).
  assert (Hheld' : forall t', t' ∈ acquired ++ [t] -> ls_held s t' = Some runID).
  { intros t' [Hin| ->%list_elem_of_singleton]%elem_of_app; [|done]. rewrite Hoth by (intros ->; done). auto. }
  specialize (IH Hheld'). rewrite <- app_assoc. simpl.
  destruct (acquireLocks runID targets (acquired ++ [t]) _) as [[got err] w'].
  destruct IH as (Hok2 & Hnd2 & Hsup & Hh & Hother & L & HL1 & HL2 & HL3).
  split_and!; [done|done|set_solver|done| |].
  - intros t' Hnot. rewrite Hother by done. apply Hoth. intros ->. set_solver.
  - exists ([KCtx None; KAcquire t None] ++ L). rewrite HL1, <- app_assoc. split_and!; [done| |].
    + apply Forall_app. split; [events|done].
    + intros He. destruct (HL3 He) as [-> Hin]. split; [done|]. intros t' [->|Ht']%elem_of_cons; set_solver.
Qed.

Lemma releaseLocks_spec runID acquired (w : world) :
  ls_ok (w_locks w) -> NoDup acquired -> (forall t, t ∈ acquired -> ls_held (w_locks w) t = Some runID) ->
  let w' := (releaseLocks runID acquired w).2 in
  (forall t, t ∈ acquired -> ls_held (w_locks w') t = None) /\
  (forall t, (t ∉ acquired) -> ls_held (w_locks w') t = ls_held (w_locks w) t) /\
  w_log w' = w_log w ++ map KRelease acquired.
Proof.
  revert w. induction acquired as [|t acquired IH]; intros w Hok Hnd Hheld; simpl.
  { rewrite app_nil_r. split_and!; [set_solver|done|done]. }
  apply NoDup_cons in Hnd as [Ht Hnd]. unfold cbind, releaseLock.
  specialize (IH (MkWorld (w_log w ++ [KRelease t]) (ls_release (w_locks w) t runID))). cbn [w_locks w_log] in IH.
  destruct IH as (H1 & H2 & H3); [by apply release_ok|done| |].
  { intros t' Ht'. rewrite release_other by (done || (intros ->; done)). apply Hheld. set_solver. }
  split_and!.
  - intros t' [->|Ht']%elem_of_cons; [|auto]. rewrite H2 by done. apply release_frees; [done|]. apply Hheld. set_solver.
  - intros t' Hnot. rewrite H2 by set_solver. apply release_other; [done|set_solver].
  - rewrite H3, <- app_assoc. done.
Qed.

(** What must hold before anything is dispatched to a target. *)
Definition ready (cr : ClosureRunner) (p : Plan) (L : list cev) : Prop :=
  (cr_hostGuard cr = true -> KGuard (collectTargets p) None ∈ L) /\
  (Verify.materializeStepGates (cr_verifier cr) (Some p) (cr_gateRuntime cr)).2 = None /\
  (exists rs, KPhase Verify.PhasePreApply rs ∈ L /\ gatesPassed rs = true) /\
  (forall t, t ∈ collectTargets p -> KAcquire t None ∈ L).

Lemma ready_mono cr p L L' : L ⊆ L' -> ready cr p L -> ready cr p L'.
Proof. intros Hs (H1 & H2 & (rs & H3 & Hg) & H4). split_and!; [auto|done|exists rs; auto|auto]. Qed.

Lemma captured_mono cr p ts L L' : L ⊆ L' -> captured cr p ts L -> captured cr p ts L'.
Proof. intros Hs [H1 H2]. split; auto. Qed.

(** The shape of a whole run: preparation, the run proper, the releases. *)
Record run_shape (cr : ClosureRunner) (p : Plan) (runID : string) (w w' : world) (r : ClosureResult) (err : option goerr)
    (Lpre Lrun Lrel : list cev) : Prop := {
  rs_log : w_log w' = w_log w ++ Lpre ++ Lrun ++ Lrel;
  rs_pre : Forall preparatory Lpre;
  rs_rel : Forall is_release Lrel;
  rs_held : forall t, ls_held (w_locks w') t = ls_held (w_locks w) t \/
                      (t ∈ collectTargets p /\ ls_held (w_locks w') t = None);
  rs_body :
    (Lrun = [] /\ res_Phase r = PhaseFailed /\ res_RollbackResult r = None /\ res_BatchResults r = []) \/
    (ready cr p Lpre /\ captured cr p (collectTargets p) Lpre /\
     exists a La Lpost Lend, Lrun = La ++ Lpost ++ Lend /\ apply_spec cr (p_Batches p) a La /\
       Forall preparatory Lpost /\ ending cr p runID a r err Lend /\ res_BatchResults r = ap_results a) }.

Lemma addTarget_spec out ts : NoDup out -> NoDup (foldl addTarget out ts).
Proof.
  revert out. induction ts as [|t ts IH]; intros out Hnd; simpl; [done|]. apply IH. unfold addTarget.
  destruct (inSet out t) eqn:E; [done|]. apply inSet_false in E. apply NoDup_app. split_and!; [done| |apply NoDup_singleton].
  set_solver.
Qed.

Lemma collectTargets_NoDup p : NoDup (collectTargets p).
Proof.
  unfold collectTargets. assert (H0 : NoDup (@nil string)) by constructor. revert H0. generalize (@nil string).
  induction (p_Batches p) as [|b bs IH]; intros out Hnd; simpl; [done|]. apply IH. by apply addTarget_spec.
Qed.

Lemma is_release_map l : Forall is_release (map KRelease l).
Proof. induction l; simpl; by constructor. Qed.

Lemma lockedRun_spec cr gm p runID pre w r err w' :
  ls_ok (w_locks w) -> gatesPassed pre = true ->
  lockedRun cr gm p runID (collectTargets p) pre w = ((r, err), w') ->
  exists Lacq Lsnap Lrun Lrel, w_log w' = w_log w ++ Lacq ++ Lsnap ++ Lrun ++ Lrel /\
    Forall preparatory Lacq /\ Forall preparatory Lsnap /\ Forall is_release Lrel /\
    (forall t, ls_held (w_locks w') t = ls_held (w_locks w) t \/
               (t ∈ collectTargets p /\ ls_held (w_locks w') t = None)) /\
    ((Lrun = [] /\ res_Phase r = PhaseFailed /\ res_RollbackResult r = None /\ res_BatchResults r = []) \/
     ((forall t, t ∈ collectTargets p -> KAcquire t None ∈ Lacq) /\ captured cr p (collectTargets p) Lsnap /\
      exists a La Lpost Lend, Lrun = La ++ Lpost ++ Lend /\ apply_spec cr (p_Batches p) a La /\
       Forall preparatory Lpost /\ ending cr p runID a r err Lend /\ res_BatchResults r = ap_results a)).
Proof.
  intros Hok Hpre E. unfold lockedRun in E. apply cbind_inv in E as ([got lerr] & w1 & E1 & E).
  pose proof (acquireLocks_spec runID (collectTargets p) [] w Hok (collectTargets_NoDup p) ltac:(set_solver)) as Ha.
  rewrite E1 in Ha. simpl in Ha. destruct Ha as (Hok1 & Hnd & _ & Hgot & Hoth & Lacq & HLacq & HFacq & Hnone).
  assert (Hrel : forall w2, w_locks w2 = w_locks w1 -> forall w3, (releaseLocks runID got w2) = (tt, w3) ->
    w_log w3 = w_log w2 ++ map KRelease got /\
    (forall t, ls_held (w_locks w3) t = ls_held (w_locks w) t \/ (t ∈ collectTargets p /\ ls_held (w_locks w3) t = None))).
  { intros w2 Hw2 w3 E3. pose proof (releaseLocks_spec runID got w2) as Hr. rewrite E3, Hw2 in Hr. simpl in Hr.
    destruct Hr as (H1 & H2 & H3); [done|done|by intros t Ht; apply Hgot|]. split; [done|]. intros t.
    destruct (decide (t ∈ got)) as [Hin|Hnin]; [right; split; [by apply Hgot|auto]|left].
    by rewrite H2, Hoth. }
  destruct lerr as [e|].
  - apply cbind_inv in E as ([] & w3 & E3 & E). injection E as <- <- <-.
    destruct (Hrel w1 eq_refl w3 E3) as [HL3 Hh]. exists Lacq, [], [], (map KRelease got).
    rewrite HL3, HLacq, <- app_assoc. split_and!; [done|done|constructor|apply is_release_map|done|by left].
  - apply cbind_inv in E as ([r0 err0] & w2 & E2 & E). apply cbind_inv in E as ([] & w3 & E3 & E). injection E as <- <- <-.
    destruct (execute_spec _ _ _ _ _ _ _ _ _ _ Hpre E2) as (Ls & HFs & HK & Hcase).
    destruct (Hrel w2 HK w3 E3) as [HL3 Hh]. destruct (Hnone eq_refl) as [_ Hacq].
    destruct Hcase as [(HL2 & Hph & Hrb & Hbr)|(Hcap & a & La & Lpost & Lend & HL2 & Hspec)].
    + exists Lacq, Ls, [], (map KRelease got). rewrite HL3, HL2, HLacq, <- !app_assoc.
      split_and!; [done|done|done|apply is_release_map|done|by left].
    + exists Lacq, Ls, (La ++ Lpost ++ Lend), (map KRelease got). rewrite HL3, HL2, HLacq, <- !app_assoc.
      split_and!; [done|done|done|apply is_release_map|done|]. right. split_and!; [done|done|]. by exists a, La, Lpost, Lend.
Qed.

Lemma guarded_records cr ts w g w1 :
  guarded cr ts w = (g, w1) ->
  exists L, w_log w1 = w_log w ++ L /\ Forall preparatory L /\ w_locks w1 = w_locks w /\
    (g = None -> cr_hostGuard cr = true -> KGuard ts None ∈ L).
Proof.
  intros E1. unfold guarded in E1. destruct (cr_hostGuard cr).
  - unfold asks in E1. injection E1 as <- <-. eexists [_]. split_and!; [done|events|done|]. intros -> _. set_solver.
  - injection E1 as <- <-. exists []. rewrite app_nil_r. split_and!; [done|constructor|done|done].
Qed.

Lemma runPhase_records gm runID phase bid w rs w' :
  runPhase gm runID phase bid w = (rs, w') ->
  exists L, w_log w' = w_log w ++ L /\ Forall preparatory L /\ w_locks w' = w_locks w /\ KPhase phase rs ∈ L.
Proof.
  intros E. unfold runPhase in E. apply cbind_inv in E as (rs' & w3 & Ea & E). unfold asks in Ea. injection Ea as <- <-.
  apply cbind_inv in E as (u & w4 & Ee & E). unfold emit in Ee. injection Ee as <- <-. injection E as <- <-.
  cbn [w_log w_locks]. rewrite <- app_assoc. eexists [_; _]. split_and!; [done|events|done|set_solver].
Qed.

(** A run that stops before it takes a lock. *)
Lemma shape_stop cr p runID w r err w' L w2 e pre :
  w_log w2 = w_log w ++ L -> Forall preparatory L -> w_locks w2 = w_locks w ->
  (failed runID (p_ID p) pre e, w2) = ((r, err), w') ->
  exists Lpre Lrun Lrel, run_shape cr p runID w w' r err Lpre Lrun Lrel.
Proof.
  intros H1 H2 H3 H4. injection H4 as <- <- <-. exists L, [], []. constructor; try done.
  - by rewrite app_nil_r.
  - intros t. left. by rewrite H3.
  - by left.
Qed.

Lemma RunWith_shape cr p runID w r err w' :
  ls_ok (w_locks w) -> RunWith cr (Some p) runID w = ((r, err), w') ->
  exists Lpre Lrun Lrel, run_shape cr p runID w w' r err Lpre Lrun Lrel.
Proof.
  intros Hok E. unfold RunWith in E. apply cbind_inv in E as (g & w1 & E1 & E).
  pose proof (guarded_records _ _ _ _ _ E1) as Hg.
  destruct Hg as (Lg & HLg & HFg & HKg & Hguard).
  pose proof (shape_stop cr p runID w r err w') as Hstop.
  destruct g as [e|]; [by eapply Hstop|].
  destruct (Verify.materializeStepGates (cr_verifier cr) (Some p) (cr_gateRuntime cr)) as [gm merr] eqn:Hmat.
  destruct merr as [e|]; [by eapply Hstop|].
  apply cbind_inv in E as (pre & w2 & E2 & E).
  pose proof (runPhase_records _ _ _ _ _ _ _ E2) as Hp.
  destruct Hp as (Lp & HLp & HFp & HKp & Hpre).
  assert (HL2 : w_log w2 = w_log w ++ Lg ++ Lp) by (rewrite HLp, HLg, app_assoc; done).
  assert (HF2 : Forall preparatory (Lg ++ Lp)) by (by apply Forall_app).
  destruct (gatesPassed pre) eqn:Hgp; cbn [negb] in E; [|by eapply Hstop; [exact HL2|done|congruence|exact E]].
  apply cbind_inv in E as (c & w3 & [-> ->]%pollCtx_inv & E).
  assert (HF3 : Forall preparatory ((Lg ++ Lp) ++ [KCtx (ce_ctx env (w_log w2))])) by (apply Forall_app; split; [done|events]).
  destruct (ce_ctx env (w_log w2)) as [e|] eqn:Hctx.
  { eapply Hstop; [|exact HF3| |exact E]; cbn [w_log w_locks]; [by rewrite HL2, <- !app_assoc|congruence]. }
  apply lockedRun_spec in E; [|cbn [w_locks]; congruence|done]. cbn [w_log w_locks] in E.
  destruct E as (Lacq & Ls & Lrun & Lrel & Hlog & HFa & HFs & HFr & Hh & Hcase). rewrite HL2 in Hlog.
  exists (((Lg ++ Lp) ++ [KCtx None]) ++ Lacq ++ Ls), Lrun, Lrel. constructor.
  - rewrite Hlog, <- !app_assoc. done.
  - apply Forall_app. split; [done|]. by apply Forall_app.
  - done.
  - intros t. rewrite <- HKg, <- HKp. apply Hh.
  - destruct Hcase as [?|(Hacq & Hcap & Hrest)]; [by left|right]. split_and!; [| |done].
    + split_and!; [intros Hhg; specialize (Hguard eq_refl Hhg); set_solver|by rewrite Hmat| |].
      * exists pre. split; [set_solver|done].
      * intros t Ht. specialize (Hacq t Ht). set_solver.
    + eapply captured_mono; [|exact Hcap]. set_solver.
Qed.

(** ** What a history can hold *)

Definition changes_targets (e : cev) : Prop := is_batch e \/ is_rollback e.

Lemma ending_quiet cr p runID a r err L : ending cr p runID a r err L -> Forall (fun e => ~ is_batch e /\ ~ is_release e) L.
Proof.
  intros []; [constructor..|]. apply Forall_cons_2; [split; by intros []|].
  eapply Forall_impl; [eassumption|]. unfold preparatory. tauto.
Qed.

Lemma batchEvents_quiet (P : cev -> Prop) L : (forall e, P e -> ~ is_batch e) -> Forall P L -> batchEvents L = [].
Proof. intros HP HF. apply batchEvents_none. by eapply Forall_impl. Qed.

Lemma batchEvents_elem L b brs log : (b, brs, log) ∈ batchEvents L <-> KBatch b brs log ∈ L.
Proof.
  unfold batchEvents. rewrite list_elem_of_omap. split; [|by eexists].
  intros (e & He & Hx). destruct e; simplify_eq. done.
Qed.

(** A run either never touches a target, or applies batches and ends in one of
    the four ways. *)
Lemma run_cases cr p runID w r err w' L :
  ls_ok (w_locks w) -> RunWith cr (Some p) runID w = ((r, err), w') -> w_log w' = w_log w ++ L ->
  (Forall (fun e => ~ changes_targets e) L /\ res_Phase r = PhaseFailed /\ res_RollbackResult r = None /\
   res_BatchResults r = []) \/
  exists a La Lend, apply_spec cr (p_Batches p) a La /\ ending cr p runID a r err Lend /\
    batchEvents L = batchEvents La /\ (forall e, e ∈ L -> is_rollback e -> e ∈ Lend) /\ Lend ⊆ L /\ res_BatchResults r = ap_results a.
Proof.
  intros Hok E Heq. destruct (RunWith_shape _ _ _ _ _ _ _ Hok E) as (Lpre & Lrun & Lrel & [Hlog Hpre Hrel _ Hbody]).
  rewrite Heq in Hlog. apply app_inv_head in Hlog as ->. unfold changes_targets.
  assert (Hq : Forall (fun e => ~ (is_batch e \/ is_rollback e)) Lpre) by (eapply Forall_impl; [exact Hpre|]; unfold preparatory; tauto).
  assert (Hr : Forall (fun e => ~ (is_batch e \/ is_rollback e)) Lrel) by (eapply Forall_impl; [exact Hrel|]; intros []; simpl; tauto).
  destruct Hbody as [(-> & Hf)|(_ & _ & a & La & Lpost & Lend & -> & Ha & Hpost & Hend & Hb)].
  { left. split; [|done]. by apply Forall_app. }
  right. exists a, La, Lend. split_and!; [done|done| | |set_solver|done].
  - rewrite !batchEvents_app.
    rewrite (batchEvents_quiet (fun e => ~ (is_batch e \/ is_rollback e)) Lpre) by (tauto || done).
    rewrite (batchEvents_quiet (fun e => ~ (is_batch e \/ is_rollback e)) Lrel) by (tauto || done).
    rewrite (batchEvents_quiet preparatory Lpost) by (done || (unfold preparatory; tauto)).
    rewrite (batchEvents_quiet (fun e => ~ is_batch e /\ ~ is_release e) Lend) by (tauto || by eapply ending_quiet). by rewrite !app_nil_r.
  - intros e He Hre. rewrite !Forall_forall in *. rewrite !elem_of_app in He.
    destruct He as [He|[[He|[He|He]]|He]]; [exfalso|exfalso|exfalso|done|exfalso].
    + apply (Hq e He). tauto.
    + apply (proj1 (proj1 (Forall_forall _ _) (as_events _ _ _ _ Ha) e He)). done.
    + by apply (proj1 (proj2 (Hpost e He))).
    + apply (Hr e He). tauto.
Qed.

(** A step result comes from a callback that returned. *)
Lemma recorded_result c bs brs t s sr :
  Forall (batch_outcome c) bs -> concat (map (fun x => x.1.2) bs) = brs ->
  Rollback.result_for (map Some brs) t s sr ->
  exists b rs log i ps o, (b, rs, log) ∈ bs /\ b_Targets b !! i = Some t /\ ps ∈ b_Steps b /\
    Batch.EvDispatch i ps ∈ log /\ Batch.EvReturn i ps o ∈ log /\ sr = Batch.toSR (ps, o) /\ ps_Name ps = s.
Proof.
  intros Hall <- (br & tr & Hbr & Htr & Ht & Hsr & Hs). apply list_elem_of_fmap in Hbr as (br' & [= <-] & Hbr).
  apply list_elem_of_In, in_concat in Hbr as (rs & Hrs & Hbr). apply List.in_map_iff in Hrs as ([[b rs'] log] & <- & Hx).
  apply list_elem_of_In in Hx, Hbr. rewrite Forall_forall in Hall. simpl in Hbr.
  destruct (Hall _ Hx) as (br0 & Hbr0 & Hcase). cbn [fst snd] in *. subst rs'. apply list_elem_of_singleton in Hbr as ->.
  destruct Hcase as [(_ & Hnil & _)|(log' & -> & Hrec)]; [rewrite Hnil in Htr; inversion Htr|].
  apply list_elem_of_lookup in Htr as [i Htr]. destruct (Batch.rec_target _ _ _ _ Hrec _ _ Htr) as (Hd & rest & Hst & _ & Hshape).
  destruct Hshape as [(? & ? & ? & _ & Hnil & _)|(_ & Hmap & _)]; [rewrite Hnil in Hsr; inversion Hsr|].
  rewrite Hmap in Hsr. apply list_elem_of_fmap in Hsr as ([ps o] & -> & Hin).
  exists b, [br0], (Batch.EvBatch (b_Index b) :: log'), i, ps, o.
  assert (Hps : ps ∈ map fst (Batch.returned i log')) by (apply list_elem_of_fmap; by exists (ps, o)).
  split_and!; [done| |rewrite Hst; apply elem_of_app; by left| | |done|].
  - rewrite <- (Batch.rec_targets _ _ _ _ Hrec), list_lookup_fmap, Htr. simpl. by rewrite Ht.
  - right. rewrite <- Hd in Hps. apply list_elem_of_omap in Hps as (e & He & Hx'). destruct e; try done.
    destruct (Nat.eqb_spec i0 i) as [->|]; simplify_eq. done.
  - right. apply list_elem_of_omap in Hin as (e & He & Hx'). destruct e; try done.
    destruct (Nat.eqb_spec i0 i) as [->|]; simplify_eq. done.
  - rewrite <- Hs. by destruct o.
Qed.

(** ** Theorems *)



(** C6: an executor that was fenced out does not roll back. If a batch of the run
    failed with the fencing sentinel, the run reports failure with that sentinel
    and no rollback was started, so an executor that lost its lease does not undo
    what its successor may be applying. *)
Theorem fenced_never_rolls_back (cr : ClosureRunner) (p : Plan) (runID : string) (w w' : world) (r : ClosureResult)
    (err : option goerr) (L : list cev) (Hok : ls_ok (w_locks w))
    (E : RunWith cr (Some p) runID w = ((r, err), w')) (Hlog : w_log w' = w_log w ++ L)
    (Hf : Exists fenced_batch (batchEvents L)) :
  res_Phase r = PhaseFailed /\ res_RollbackResult r = None /\ Forall (fun e => ~ is_rollback e) L /\
  exists e, err = Some e /\ errors_Is e ErrFencedOut = true.
Proof.
  destruct (run_cases _ _ _ _ _ _ _ _ Hok E Hlog) as [(Hq & _)|(a & La & Lend & Ha & Hend & Hev & Hrb & _)].
  { exfalso. rewrite (batchEvents_quiet (fun e => ~ changes_targets e)) in Hf; [by inversion Hf|unfold changes_targets; tauto|done]. }
  rewrite Hev in Hf. apply (as_fenced _ _ _ _ Ha) in Hf.
  destruct Hend as [? Hx|r e _ Hp Hn Herr|? ? Hnf|? ? ? ? ? Hnf]; [destruct Hf; congruence| |by destruct Hf as [x ?]; destruct (Hnf x)..].
  split_and!; [done|done| |by exists e]. rewrite Forall_forall. intros ev Hin Hre. specialize (Hrb ev Hin Hre). inversion Hrb.
Qed.

(** The manual policy keeps what was applied. Under [on_failure = manual] no
    run starts a rollback; a run that did not complete reports failure. *)
Theorem manual_policy_never_rolls_back (cr : ClosureRunner) (p : Plan) (runID : string) (w w' : world) (r : ClosureResult)
    (err : option goerr) (L : list cev) (Hok : ls_ok (w_locks w))
    (E : RunWith cr (Some p) runID w = ((r, err), w')) (Hlog : w_log w' = w_log w ++ L)
    (Hm : rollbackPolicyOf (Some p) = Dsl.RollbackOnFailureManual) :
  Forall (fun e => ~ is_rollback e) L /\ res_RollbackResult r = None /\
  (res_Phase r = PhaseCompleted \/ res_Phase r = PhaseFailed).
Proof.
  destruct (run_cases _ _ _ _ _ _ _ _ Hok E Hlog) as [(Hq & -> & -> & _)|(a & La & Lend & Ha & Hend & Hev & Hrb & _)].
  { split_and!; [|done|by right]. eapply Forall_impl; [exact Hq|]. unfold changes_targets. tauto. }
  assert (Lend = [] /\ res_RollbackResult r = None /\ (res_Phase r = PhaseCompleted \/ res_Phase r = PhaseFailed)) as (-> & ? & ?).
  { destruct Hend; try done; auto. }
  split_and!; [|done|done]. rewrite Forall_forall. intros ev Hin Hre. specialize (Hrb ev Hin Hre). inversion Hrb.
Qed.

(** A batch without error ran every step on every target. *)
Definition fully_applied (b : Batch) (log : list Batch.event) : Prop :=
  forall i t, b_Targets b !! i = Some t ->
    Batch.dispatched i log = b_Steps b /\ Batch.returned i log = map (fun s => (s, Batch.XOk)) (b_Steps b).

Lemma clean_batch c x : batch_outcome c x -> lastError x.1.2 = None -> fully_applied x.1.1 x.2.
Proof.
  destruct x as [[b brs] log]. intros (br & Hbr & Hcase) Hl i t Ht. cbn [fst snd] in *. subst brs. change (Batch.br_Error br = None) in Hl.
  destruct Hcase as [(_ & _ & Hne)|(log' & -> & Hrec)]; [done|].
  rewrite (Batch.rec_error _ _ _ _ Hrec), Batch.firstTargetError_none in Hl.
  rewrite <- (Batch.rec_targets _ _ _ _ Hrec), list_lookup_fmap in Ht.
  destruct (Batch.br_TargetResults br !! i) as [tr|] eqn:Htr; [|done]. specialize (Hl tr ltac:(by eapply list_elem_of_lookup_2)).
  destruct (Batch.rec_target _ _ _ _ Hrec _ _ Htr) as (Hd & rest & Hst & _ & [(? & ? & ? & _ & _ & ?)|(_ & _ & Hrest)]); [done|].
  destruct (Hrest Hl) as [-> Hall]. rewrite app_nil_r in Hst.
  change (Batch.dispatched i log' = b_Steps b /\ Batch.returned i log' = map (fun s => (s, Batch.XOk)) (b_Steps b)).
  rewrite Hd, Hst. split; [done|]. rewrite map_map. rewrite <- (map_id (Batch.returned i log')) at 1.
  apply map_ext_Forall, Forall_fold_right. clear -Hall. induction Hall as [|[s o] l Ho _ IH]; simpl; [done|]. split; [|done].
  unfold Batch.ran_ok in Ho. simpl in *. by subst.
Qed.

(** C2: completed means applied. A run that ends in phase completed returned no
    error, executed the plan's batches, all of them in plan order, dispatched
    every step of a batch to every target of it in order with each call
    returning success, and every gate that ran passed. *)
Theorem completed_means_applied (cr : ClosureRunner) (p : Plan) (runID : string) (w w' : world) (r : ClosureResult)
    (err : option goerr) (L : list cev) (Hok : ls_ok (w_locks w))
    (E : RunWith cr (Some p) runID w = ((r, err), w')) (Hlog : w_log w' = w_log w ++ L)
    (Hc : res_Phase r = PhaseCompleted) :
  err = None /\ res_Error r = None /\ map (fun x => x.1.1) (batchEvents L) = p_Batches p /\
  (forall b brs log, KBatch b brs log ∈ L -> fully_applied b log) /\ gatesPassed (res_VerifyResults r) = true.
Proof.
  destruct (run_cases _ _ _ _ _ _ _ _ Hok E Hlog) as [(_ & Hf & _)|(a & La & Lend & Ha & Hend & Hev & _)]; [by rewrite Hf in Hc|].
  assert (ap_end a = AllApplied /\ err = None /\ res_Error r = None /\ gatesPassed (res_VerifyResults r) = true) as (Hall & -> & ? & ?).
  { destruct Hend as [|? ? _ Hp|? ? _ _ Hp|? ? ? ? ? _ _ _ Hp]; [done|by rewrite Hp in Hc..|]. exfalso. rewrite Hp in Hc.
    unfold rollbackPhase in Hc. by repeat case_match. }
  destruct (as_complete _ _ _ _ Ha Hall) as (Hex & _ & Hclean). split_and!; [done|done| | |done].
  - rewrite Hev, (as_executed _ _ _ _ Ha). done.
  - intros b brs log Hin%batchEvents_elem. rewrite Hev in Hin. pose proof (as_outcomes _ _ _ _ Ha) as Ho.
    rewrite Forall_forall in Ho, Hclean. apply (clean_batch _ (b, brs, log) (Ho _ Hin) (Hclean _ Hin)).
Qed.

(** C3: an automatic rollback undoes only what this run did. Every call of a
    rollback (an undo step or a snapshot restore) is on a target to which a batch
    of this run dispatched a step of that name, which returned; the undone step
    belongs to an executed batch and declares that undo. *)
Theorem rollback_undoes_only_dispatched (cr : ClosureRunner) (p : Plan) (runID : string) (w w' : world)
    (r : ClosureResult) (err : option goerr) (L : list cev) (rp : Plan) (rr : Rollback.RollbackResult)
    (calls : list rentry) (i : nat) (c : Rollback.call) (e : option goerr) (Hok : ls_ok (w_locks w))
    (E : RunWith cr (Some p) runID w = ((r, err), w')) (Hlog : w_log w' = w_log w ++ L)
    (Hrb : KRollback rp rr calls ∈ L) (Hin : (i, c, e) ∈ calls) :
  exists b brs log j target ps o undone rb,
    KBatch b brs log ∈ L /\ b_Targets b !! j = Some target /\
    Batch.EvDispatch j ps ∈ log /\ Batch.EvReturn j ps o ∈ log /\
    ps_Name undone = ps_Name ps /\ ps_Rollback undone = Some rb /\
    (exists b' brs' log', KBatch b' brs' log' ∈ L /\ undone ∈ b_Steps b' /\ target ∈ b_Targets b') /\
    match c with
    | Rollback.CUndo tgt s => tgt = target /\ s ∈ Dsl.rb_Steps rb
    | Rollback.CRestore _ tgt u => tgt = target /\ u = undone /\ Dsl.rb_Strategy rb = "snapshot"
    end.
Proof.
  destruct (run_cases _ _ _ _ _ _ _ _ Hok E Hlog) as [(Hq & _)|(a & La & Lend & Ha & Hend & Hev & Honly & _)].
  { rewrite Forall_forall in Hq. destruct (Hq _ Hrb). by right. }
  specialize (Honly _ Hrb I). destruct Hend as [| | |? h rr0 calls0 rest _ _ Hcall _ _ Hrest]; [by inversion Honly..|].
  apply elem_of_cons in Honly as [Heq|Hbad].
  2: { rewrite Forall_forall in Hrest. by destruct (Hrest _ Hbad) as (_ & [] & _). }
  injection Heq as -> -> ->.
  destruct (Rollback.call_justified _ _ _ _ _ [] _ _ _ _ _ Hcall Hin) as (b' & u & rb & t & Hb' & Ht & Hu & Hur & Hran & _ & Hc).
  apply Rollback.ledger_ran in Hran as (_ & _ & sr & Hres).
  destruct (recorded_result _ _ _ _ _ _ (as_outcomes _ _ _ _ Ha) (as_results _ _ _ _ Ha) Hres)
    as (b & brs & log & j & ps & o & Hx & Hj & _ & Hd & Hret & _ & Hn).
  exists b, brs, log, j, t, ps, o, u, rb. rewrite <- batchEvents_elem, Hev. split_and!; try done.
  - cbn [subPlan p_Batches] in Hb'. rewrite <- (as_executed _ _ _ _ Ha) in Hb'.
    apply list_elem_of_fmap in Hb' as ([[b0 brs0] log0] & -> & Hin'). exists b0, brs0, log0.
    rewrite <- batchEvents_elem, Hev. done.
  - destruct c; tauto.
Qed.

(** C4: rolled back means restored. If the run ends in phase rolled_back, a
    rollback is in its history, and for every step result the run recorded on a
    target and every step of that name of an executed batch with that target, the
    rollback made every compensating call and each returned no error. *)
Theorem rolled_back_means_restored (cr : ClosureRunner) (p : Plan) (runID : string) (w w' : world)
    (r : ClosureResult) (err : option goerr) (L : list cev) (Hok : ls_ok (w_locks w))
    (E : RunWith cr (Some p) runID w = ((r, err), w')) (Hlog : w_log w' = w_log w ++ L)
    (Hp : res_Phase r = PhaseRolledBack) :
  exists rp rr calls, KRollback rp rr calls ∈ L /\ res_RollbackResult r = Some rr /\
    forall b brs log i target ps sr,
      KBatch b brs log ∈ L -> b_Targets b !! i = Some target -> ps ∈ b_Steps b -> target <> "" -> ps_Name ps <> "" ->
      Rollback.result_for (map Some (res_BatchResults r)) target (ps_Name ps) sr ->
      Rollback.restored (Rollback.SetRunID runID (cr_rollback cr)) i target ps calls.
Proof.
  destruct (run_cases _ _ _ _ _ _ _ _ Hok E Hlog) as [(_ & Hf & _)|(a & La & Lend & Ha & Hend & Hev & _ & Hsub & Hbr)];
    [by rewrite Hf in Hp|].
  destruct Hend as [? _ Hx|? ? _ Hx|? ? _ _ Hx|? h rr calls rest _ _ Hcall Hx Hrr Hrest]; [by rewrite Hx in Hp..|].
  assert (Hs : Rollback.Success rr = true).
  { rewrite Hx in Hp. unfold rollbackPhase in Hp. by repeat case_match. }
  eexists _, rr, calls. split_and!; [apply Hsub; by left|done|].
  intros b brs log i t ps sr Hin%batchEvents_elem Hi Hps Ht Hn Hres. rewrite Hbr in Hres. rewrite Hev in Hin.
  apply (Rollback.success_restored _ _ _ _ _ [] _ _ b i t ps Hcall Hs); [|done|done| |apply Rollback.ledger_not_compensated].
  - cbn [subPlan p_Batches]. rewrite <- (as_executed _ _ _ _ Ha). apply list_elem_of_fmap. by exists (b, brs, log).
  - apply Rollback.ledger_ran. eauto.
Qed.

(** The reported phase is honest about rollback. A run always ends in a
    terminal status; it is one of the rollback verdicts exactly when the result
    carries a rollback, exactly when the history has one, and then it is the
    verdict of that rollback. *)
Theorem phase_reports_rollback (cr : ClosureRunner) (p : Plan) (runID : string) (w w' : world)
    (r : ClosureResult) (err : option goerr) (L : list cev) (Hok : ls_ok (w_locks w))
    (E : RunWith cr (Some p) runID w = ((r, err), w')) (Hlog : w_log w' = w_log w ++ L) :
  RunStatus.IsTerminal (res_Phase r) = true /\
  (inSet RunStatus.RollbackVerdicts (res_Phase r) = true <-> is_Some (res_RollbackResult r)) /\
  (is_Some (res_RollbackResult r) <-> Exists is_rollback L) /\
  (forall rr, res_RollbackResult r = Some rr -> res_Phase r = rollbackPhase rr).
Proof.
  destruct (run_cases _ _ _ _ _ _ _ _ Hok E Hlog) as [(Hq & -> & -> & _)|(a & La & Lend & Ha & Hend & Hev & Honly & Hsub & _)].
  { assert (~ Exists is_rollback L).
    { rewrite Exists_exists, Forall_forall in *. intros (x & Hx & Hr). apply (Hq x Hx). by right. }
    split_and!; [done|split; [done|by intros [? ?]]|split; [by intros [? ?]|done]|done]. }
  assert (HL0 : Lend = [] -> ~ Exists is_rollback L).
  { intros -> (x & Hx & Hr)%Exists_exists. specialize (Honly x Hx Hr). inversion Honly. }
  destruct Hend as [? _ Hx _ Hn|? ? _ Hx Hn|? ? _ _ Hx _ Hn|? h rr calls rest _ _ Hcall Hx Hrr Hrest]; rewrite ?Hx, ?Hn, ?Hrr.
  1-3: split_and!; [done|split; [done|by intros [? ?]]|split; [by intros [? ?]|by intros ?%HL0]|done].
  assert (Hex : Exists is_rollback L) by (apply Exists_exists; eexists; split; [apply Hsub; by left|done]).
  split_and!; [unfold rollbackPhase; by repeat case_match| |done|by intros ? [= <-]].
  split; [done|]. intros _. unfold rollbackPhase. by repeat case_match.
Qed.

End locks.

End run.

Arguments world LS : clear implicits.

(** ** A concrete deployment

    The lock manager of LockInstance over an empty lock table, no gates, steps
    and undos that answer as told. *)

Lemma succ_mono (i j : nat) : i <= j -> (Z.of_nat i + 1 <= Z.of_nat j + 1)%Z.
Proof. lia. Qed.

Definition setting0 : LockInstance.setting :=
  LockInstance.MkSetting (fun n => Z.of_nat n + 1)%Z succ_mono Lock.NewLockManager eq_refl.
#[local] Instance ops0 : LockOps LockInstance.lockState := LockInstance.lockOps setting0.
#[local] Instance laws0 : LockLaws LockInstance.lockState := LockInstance.lockLaws setting0.
Definition world0 : world LockInstance.lockState := MkWorld [] (LockInstance.MkLockState [] 0).

Lemma world0_ok : ls_ok (w_locks world0).
Proof. split_and!; [split; constructor|intros n _; by intros ?%not_elem_of_nil|by intros x ?%not_elem_of_nil]. Defined.

(** [exec] answers a step on a target; goroutine [pick] moves first. *)
Definition env0 (exec : string -> Dsl.Step -> Batch.outcome) (pick : nat) : CEnv :=
  MkCEnv (fun _ _ => None) (fun _ => None) (fun _ _ _ => (Verify.MkGateResult false "down" [], None)) (fun _ => [])
    (fun _ _ _ => None) (fun _ => None) (fun _ => None) (fun _ _ => None) (fun _ _ => exec) (fun _ _ _ => None)
    (fun _ _ => pick) (fun _ _ => true) (fun _ => Rollback.quietEnv) (fun _ => []).

Definition runner0 : ClosureRunner :=
  MkRunner Verify.NewGateManager Rollback.sampleManager (Batch.NewController []) None Verify.bareRuntime false false false.

Definition plan0 (targets : list string) (policy : string) : Plan :=
  MkPlan "p" "wf" [MkBatch 0 targets [Rollback.stepA] 1 None] 1 0 0 [] "" None
    (Some (Dsl.MkRollbackSpec [] "" policy false [])) None None.

Definition succeeds : string -> Dsl.Step -> Batch.outcome := fun _ _ => Batch.XOk.
Definition fails : string -> Dsl.Step -> Batch.outcome := fun _ _ => Batch.XErr (EText "boom").
Definition fencedOn (host : string) : string -> Dsl.Step -> Batch.outcome :=
  fun t _ => if String.eqb t host then Batch.XErr (ESentinel ErrFencedOut) else Batch.XOk.

Definition run0 (exec : string -> Dsl.Step -> Batch.outcome) (policy : string) :=
  RunWith (env0 exec 0) true runner0 (Some (plan0 ["h1"] policy)) "run-1" world0.

Lemma run0_eq exec policy : run0 exec policy = (((run0 exec policy).1.1, (run0 exec policy).1.2), (run0 exec policy).2).
Proof. by destruct (run0 exec policy) as [[r e] w]. Qed.

Lemma run0_log exec policy : w_log (run0 exec policy).2 = w_log world0 ++ w_log (run0 exec policy).2.
Proof. generalize (w_log (run0 exec policy).2). intros l. exact eq_refl. Qed.



Lemma fenced_never_rolls_back_witness :
  res_Phase (run0 (fencedOn "h1") "").1.1 = PhaseFailed /\ res_RollbackResult (run0 (fencedOn "h1") "").1.1 = None /\
  Forall (fun e => ~ is_rollback e) (w_log (run0 (fencedOn "h1") "").2) /\
  exists e, (run0 (fencedOn "h1") "").1.2 = Some e /\ errors_Is e ErrFencedOut = true.
Proof.
  assert (H : Exists fenced_batch (batchEvents (w_log (run0 (fencedOn "h1") "").2))).
  { vm_compute. apply Exists_cons_hd. eexists. split; [reflexivity|vm_compute; reflexivity]. }
  exact (fenced_never_rolls_back (env0 (fencedOn "h1") 0) true runner0 (plan0 ["h1"] "") "run-1" world0 _ _ _ _
    world0_ok (run0_eq (fencedOn "h1") "") (run0_log (fencedOn "h1") "") H).
Defined.

Lemma manual_policy_never_rolls_back_witness :
  Forall (fun e => ~ is_rollback e) (w_log (run0 fails "manual").2) /\ res_RollbackResult (run0 fails "manual").1.1 = None /\
  (res_Phase (run0 fails "manual").1.1 = PhaseCompleted \/ res_Phase (run0 fails "manual").1.1 = PhaseFailed).
Proof.
  exact (manual_policy_never_rolls_back (env0 fails 0) true runner0 (plan0 ["h1"] "manual") "run-1" world0 _ _ _ _
    world0_ok (run0_eq fails "manual") (run0_log fails "manual") eq_refl).
Defined.

Lemma completed_means_applied_witness :
  res_Phase (run0 succeeds "").1.1 = PhaseCompleted /\
  map (fun x => x.1.1) (batchEvents (w_log (run0 succeeds "").2)) = p_Batches (plan0 ["h1"] "") /\
  gatesPassed (res_VerifyResults (run0 succeeds "").1.1) = true.
Proof.
  assert (H : res_Phase (run0 succeeds "").1.1 = PhaseCompleted) by (vm_compute; reflexivity).
  destruct (completed_means_applied (env0 succeeds 0) true runner0 (plan0 ["h1"] "") "run-1" world0 _ _ _ _
    world0_ok (run0_eq succeeds "") (run0_log succeeds "") H) as (_ & _ & H1 & _ & H2).
  exact (conj H (conj H1 H2)).
Defined.

Lemma rollback_undoes_only_dispatched_witness :
  exists rp rr, KRollback rp rr [(0, Rollback.CUndo "h1" Rollback.undoA, None)] ∈ w_log (run0 fails "").2 /\
  exists b brs log j target ps o undone rb,
    KBatch b brs log ∈ w_log (run0 fails "").2 /\ b_Targets b !! j = Some target /\
    Batch.EvDispatch j ps ∈ log /\ Batch.EvReturn j ps o ∈ log /\
    ps_Name undone = ps_Name ps /\ ps_Rollback undone = Some rb /\
    (exists b' brs' log', KBatch b' brs' log' ∈ w_log (run0 fails "").2 /\ undone ∈ b_Steps b' /\ target ∈ b_Targets b') /\
    "h1" = target /\ Rollback.undoA ∈ Dsl.rb_Steps rb.
Proof.
  eexists _, _. refine ((fun H => conj H (rollback_undoes_only_dispatched (env0 fails 0) true runner0 (plan0 ["h1"] "") "run-1"
    world0 _ _ _ (w_log (run0 fails "").2) _ _ [(0, Rollback.CUndo "h1" Rollback.undoA, None)] 0 (Rollback.CUndo "h1" Rollback.undoA) None
    world0_ok (run0_eq fails "") (run0_log fails "") H ltac:(by left))) _).
  apply (list_elem_of_lookup_2 _ 7). vm_compute. reflexivity.
Defined.

Lemma rolled_back_means_restored_witness :
  res_Phase (run0 fails "").1.1 = PhaseRolledBack /\
  exists rp rr calls, KRollback rp rr calls ∈ w_log (run0 fails "").2 /\ res_RollbackResult (run0 fails "").1.1 = Some rr.
Proof.
  assert (H : res_Phase (run0 fails "").1.1 = PhaseRolledBack) by (vm_compute; reflexivity).
  destruct (rolled_back_means_restored (env0 fails 0) true runner0 (plan0 ["h1"] "") "run-1" world0 _ _ _ _
    world0_ok (run0_eq fails "") (run0_log fails "") H) as (rp & rr & calls & H1 & H2 & _).
  exact (conj H (ex_intro _ rp (ex_intro _ rr (ex_intro _ calls (conj H1 H2))))).
Defined.

Lemma phase_reports_rollback_witness :
  RunStatus.IsTerminal (res_Phase (run0 fails "").1.1) = true /\ is_Some (res_RollbackResult (run0 fails "").1.1).
Proof.
  destruct (phase_reports_rollback (env0 fails 0) true runner0 (plan0 ["h1"] "") "run-1" world0 _ _ _ _
    world0_ok (run0_eq fails "") (run0_log fails "")) as (H1 & H2 & _).
  split; [exact H1|]. apply H2. vm_compute. reflexivity.
Defined.

(** ** Observed behaviours *)

(** The batch error is the first in plan order, not in time. With two targets and
    one slot, [h2] is fenced out first, [h1] is then skipped as cancelled, the
    batch error is [h1]'s, the fencing sentinel is not seen and the fenced-out
    executor dispatches an undo on [h2]. *)
Lemma fencing_masked_by_plan_order :
  let '((r, _), w) := RunWith (env0 (fencedOn "h2") 1) true runner0 (Some (plan0 ["h1"; "h2"] "")) "run-1" world0 in
  existsb (fun br => existsb (fun tr => existsb (fun sr =>
      match Batch.sr_Error sr with Some e => errors_Is e ErrFencedOut | None => false end)
      (Batch.tr_StepResults tr)) (Batch.br_TargetResults br)) (res_BatchResults r) = true /\
  res_Phase r = PhaseRolledBack /\
  omap (fun e => match e with KRollback _ _ calls => Some (map (fun x => x.1.2) calls) | _ => None end) (w_log w)
    = [[Rollback.CUndo "h2" Rollback.undoA]].
Proof. vm_compute. done. Qed.

(** The post-apply phase is skipped only when a rollback was triggered: it also
    runs after a fenced-out batch. *)
Lemma fenced_run_still_verifies :
  Exists (fun e => exists rs, e = KPhase Verify.PhasePostApply rs) (w_log (run0 (fencedOn "h1") "").2).
Proof. apply Exists_exists. eexists. split; [apply (list_elem_of_lookup_2 _ 8); vm_compute; reflexivity|by eexists]. Qed.

(** A runner keeps the gates of the plans it ran: a plan without gates, run after
    a plan that declared one, is stopped by the earlier plan's gate. *)
Lemma earlier_plan_gates_survive :
  let earlier := Verify.gatedPlan [Verify.gatedStep "a" "true"] in
  let cr := withVerifier runner0 (Verify.materializeStepGates (cr_verifier runner0) (Some earlier) Verify.bareRuntime).1 in
  Verify.walkPlanGates (Some (plan0 ["h1"] "")) = [] /\
  res_Error (RunWith (env0 succeeds 0) true cr (Some (plan0 ["h1"] "")) "run-2" world0).1.1
    = Some (EText "closure: pre-apply gate failed").
Proof. vm_compute. done. Qed.

End Closure.
