(* ===== verification/Rely.v ===== *)
(** * Rely: programs interleaved over a shared state

    A [Concur.prog] whose calls act on a shared state, run beside others of its
    kind, one call at a time in any order. [good] is what such a program owes the
    others (every change it makes is in [G], the invariant [I] is kept) and what
    it promises at its end, given that the others only make changes in [G].
    [system_good] composes them. *)

From Stdlib Require Import Lia.
From stdpp Require Import base list relations.
From S2P Require Import Prelude Concur.
Import Concur.

Module Rely.

Section rely.
Context {C R S A : Type}.
(** The effect of a call: state before, call, state after, answer. *)
Context (sem : S -> C -> S -> R -> Prop) (I : S -> Prop) (G : S -> S -> Prop).

(** Any number of changes by the others. *)
Definition rely : S -> S -> Prop := rtc G.

Fixpoint good (Q : A -> S -> Prop) (p : prog C R A) (s : S) : Prop :=
  match p with
  | Ret a => forall s', rely s s' -> I s' -> Q a s'
  | Ask c k => forall s', rely s s' -> I s' -> forall s'' r, sem s' c s'' r -> G s' s'' /\ I s'' /\ good Q (k r) s''
  end.

Lemma good_rely Q p s s' : good Q p s -> rely s s' -> good Q p s'.
Proof. destruct p; simpl; intros H Hr s2 Hr2; apply H; by etransitivity. Qed.

Lemma good_mono (Q Q' : A -> S -> Prop) p s : (forall a s, Q a s -> Q' a s) -> good Q p s -> good Q' p s.
Proof.
  intros HQ. revert s. induction p as [a|c k IH]; simpl; intros s Hp s' Hr Hi; [auto|].
  intros s'' r Hs. destruct (Hp s' Hr Hi s'' r Hs) as (? & ? & ?). auto.
Qed.

(** One thread makes its next call. *)
Inductive step : list (prog C R A) * S -> list (prog C R A) * S -> Prop :=
| step_call ths i c k s s' r : ths !! i = Some (Ask c k) -> sem s c s' r -> step (ths, s) (<[i := k r]> ths, s').

(** What holds of a system whose threads are good. *)
Definition system_ok (Qs : list (A -> S -> Prop)) (cfg : list (prog C R A) * S) : Prop :=
  I cfg.2 /\ Forall2 (fun Q p => good Q p cfg.2) Qs cfg.1.

Lemma step_ok Qs cfg cfg' : system_ok Qs cfg -> step cfg cfg' -> system_ok Qs cfg' /\ G cfg.2 cfg'.2.
Proof.
  intros [Hi Hall] Hstep. destruct Hstep as [ths i c k s s' r Hth Hsem]. simpl in *.
  destruct (Forall2_lookup_r _ _ _ _ _ Hall Hth) as (Q & HQ & Hg).
  destruct (Hg s (rtc_refl _ _) Hi s' r Hsem) as (HG & HI & Hk). split; [|done]. split; [done|].
  rewrite <- (list_insert_id Qs i Q HQ). apply Forall2_insert; [|done].
  eapply Forall2_impl; [exact Hall|]. intros Q' p Hp. eapply good_rely; [exact Hp|]. by apply rtc_once.
Qed.

Lemma system_good Qs cfg cfg' :
  system_ok Qs cfg -> rtc step cfg cfg' -> system_ok Qs cfg' /\ rely cfg.2 cfg'.2.
Proof.
  intros Hok Hs. induction Hs as [cfg|c1 c2 c3 H12 _ IH]; [split; [done|apply rtc_refl]|].
  destruct (step_ok _ _ _ Hok H12) as [Hok2 HG]. destruct (IH Hok2) as [Hok3 Hr]. split; [done|]. by eapply rtc_l.
Qed.

(** A thread that has returned has its postcondition. *)
Lemma system_post Qs cfg i Q a :
  system_ok Qs cfg -> Qs !! i = Some Q -> cfg.1 !! i = Some (Ret a) -> Q a cfg.2.
Proof.
  intros [Hi Hall] HQ Ha. destruct (Forall2_lookup_l _ _ _ _ _ Hall HQ) as (p & Hp & Hg).
  rewrite Ha in Hp. injection Hp as <-. apply Hg; [apply rtc_refl|done].
Qed.

End rely.

Lemma good_bind {C R S A B : Type} (sem : S -> C -> S -> R -> Prop) I G (Q : B -> S -> Prop) (p : prog C R A)
    (f : A -> prog C R B) s :
  good sem I G (fun a s => good sem I G Q (f a) s) p s -> good sem I G Q (pbind p f) s.
Proof.
  revert s. induction p as [a|c k IH]; simpl; intros s Hp.
  - destruct (f a) as [b|c k]; simpl in *; intros s' Hr Hi; apply (Hp s' Hr Hi s' (rtc_refl _ _) Hi).
  - intros s' Hr Hi s'' r Hs. destruct (Hp s' Hr Hi s'' r Hs) as (? & ? & ?). auto.
Qed.

(** ** Executable runs *)

(** The program alone, on a state whose calls [next] answers. *)
Fixpoint quiet {C R S A : Type} (next : S -> C -> S * R) (p : prog C R A) (s : S) : A * S :=
  match p with
  | Ret a => (a, s)
  | Ask c k => let '(s', r) := next s c in quiet next (k r) s'
  end.

Lemma quiet_bind {C R S A B : Type} (next : S -> C -> S * R) (p : prog C R A) (f : A -> prog C R B) s :
  quiet next (pbind p f) s = quiet next (f (quiet next p s).1) (quiet next p s).2.
Proof. revert s. induction p as [a|c k IH]; intros s; simpl; [done|]. destruct (next s c). apply IH. Qed.

(** Several programs under a schedule: the list says who calls next; a turn given
    to a program that has returned is skipped. *)
Fixpoint drive {C R S A : Type} (next : S -> C -> S * R) (sched : list nat) (ths : list (prog C R A)) (s : S) :
    list (prog C R A) * S :=
  match sched with
  | [] => (ths, s)
  | i :: sched =>
      match ths !! i with
      | Some (Ask c k) => let '(s', r) := next s c in drive next sched (<[i := k r]> ths) s'
      | _ => drive next sched ths s
      end
  end.

Lemma drive_steps {C R S A : Type} (next : S -> C -> S * R) (sem : S -> C -> S -> R -> Prop)
    (Hnext : forall s c, sem s c (next s c).1 (next s c).2) sched (ths : list (prog C R A)) s :
  rtc (step sem) (ths, s) (drive next sched ths s).
Proof.
  revert ths s. induction sched as [|i sched IH]; intros ths s; simpl; [done|].
  destruct (ths !! i) as [[a|c k]|] eqn:Hi; [apply IH| |apply IH].
  destruct (next s c) as [s' r] eqn:E. eapply rtc_l; [|apply IH]. econstructor; [exact Hi|].
  pose proof (Hnext s c) as H. by rewrite E in H.
Qed.

(** ** Logged runs

    The same interleavings with the history kept: who called what, and the answer. *)
Section logged.
Context {C R S A : Type} (sem : S -> C -> S -> R -> Prop).

Inductive lstep : list (prog C R A) * S * list (entry C R) -> list (prog C R A) * S * list (entry C R) -> Prop :=
| lstep_call ths i c k s s' r log : ths !! i = Some (Ask c k) -> sem s c s' r ->
    lstep (ths, s, log) (<[i := k r]> ths, s', log ++ [(i, c, r)]).

(** Every call a program may make satisfies [P]. *)
Fixpoint issues (P : C -> Prop) (p : prog C R A) : Prop :=
  match p with Ret _ => True | Ask c k => P c /\ forall r, issues P (k r) end.

(** An invariant of state and history that every permitted call keeps. *)
Lemma logged_inv (P : C -> Prop) (I : S -> list (entry C R) -> Prop)
    (Hkeep : forall s log i c s' r, P c -> I s log -> sem s c s' r -> I s' (log ++ [(i, c, r)])) ths s log cfg :
  Forall (issues P) ths -> I s log -> rtc lstep (ths, s, log) cfg -> Forall (issues P) cfg.1.1 /\ I cfg.1.2 cfg.2.
Proof.
  intros Hths Hi Hs. remember (ths, s, log) as cfg0 eqn:E. revert ths s log E Hths Hi.
  induction Hs as [|c1 c2 c3 H12 _ IH]; intros ths s log -> Hths Hi; [done|].
  inversion H12 as [ths' i c k s1 s2 r log' Hi1 Hsem]; subst.
  destruct (proj1 (Forall_lookup _ _) Hths _ _ Hi1) as [HP Hk].
  eapply IH; [reflexivity| |exact (Hkeep _ _ _ _ _ _ HP Hi Hsem)]. apply Forall_insert; [done|apply Hk].
Qed.

(** [earn] counts what a call brings in, [spend] what it uses up; a paid program
    never uses what it does not have. *)
Context (earn : C -> R -> nat) (spend : C -> nat).

Fixpoint paid (n : nat) (p : prog C R A) : Prop :=
  match p with
  | Ret _ => True
  | Ask c k => spend c <= n /\ forall r, paid (n - spend c + earn c r) (k r)
  end.

Definition earned (log : list (entry C R)) : nat := sum_list (map (fun e => earn e.1.2 e.2) log).
Definition spent (log : list (entry C R)) : nat := sum_list (map (fun e => spend e.1.2) log).

Lemma earned_snoc (log : list (entry C R)) i c r : earned (log ++ [(i, c, r)]) = (earned log + earn c r)%nat.
Proof. unfold earned. rewrite map_app, sum_list_with_app. simpl. by rewrite Nat.add_0_r. Qed.

Lemma spent_snoc (log : list (entry C R)) i c r : spent (log ++ [(i, c, r)]) = (spent log + spend c)%nat.
Proof. unfold spent. rewrite map_app, sum_list_with_app. simpl. by rewrite Nat.add_0_r. Qed.

Lemma paid_mono n m p : paid n p -> n <= m -> paid m p.
Proof.
  revert n m. induction p as [a|c k IH]; simpl; intros n m H Hle; [done|]. destruct H as [H1 H2].
  split; [lia|]. intros r. eapply IH; [apply H2|lia].
Qed.

Lemma system_paid ths s log cfg :
  Forall (paid 0) ths -> spent log <= earned log -> rtc lstep (ths, s, log) cfg -> spent cfg.2 <= earned cfg.2.
Proof.
  intros Hths Hlog Hs.
  assert (Hinv : exists credit, Forall2 paid credit ths /\ sum_list credit + spent log <= earned log).
  { exists (replicate (length ths) 0%nat). split; [|rewrite sum_list_replicate; lia].
    apply Forall2_replicate_l; [done|]. done. }
  clear Hths Hlog. remember (ths, s, log) as cfg0 eqn:E. revert ths s log E Hinv.
  induction Hs as [|c1 c2 c3 H12 _ IH]; intros ths s log -> (credit & Hp & Hsum); [simpl; lia|].
  inversion H12 as [ths' i c k s1 s2 r log' Hi1 Hsem]; subst.
  destruct (Forall2_lookup_r _ _ _ _ _ Hp Hi1) as (n & Hn & Hc). destruct Hc as [Hle Hk].
  eapply IH; [reflexivity|]. exists (<[i := (n - spend c + earn c r)%nat]> credit). split; [apply Forall2_insert; [done|apply Hk]|].
  pose proof (sum_insert credit i n (n - spend c + earn c r) Hn). rewrite earned_snoc, spent_snoc. lia.
Qed.
End logged.

(** [drive], with the history. *)
Fixpoint ldrive {C R S A : Type} (next : S -> C -> S * R) (sched : list nat) (ths : list (prog C R A)) (s : S) (log : list (entry C R)) :
    list (prog C R A) * S * list (entry C R) :=
  match sched with
  | [] => (ths, s, log)
  | i :: sched =>
      match ths !! i with
      | Some (Ask c k) => let '(s', r) := next s c in ldrive next sched (<[i := k r]> ths) s' (log ++ [(i, c, r)])
      | _ => ldrive next sched ths s log
      end
  end.

Lemma ldrive_steps {C R S A : Type} (next : S -> C -> S * R) (sem : S -> C -> S -> R -> Prop)
    (Hnext : forall s c, sem s c (next s c).1 (next s c).2) sched (ths : list (prog C R A)) s log :
  rtc (lstep sem) (ths, s, log) (ldrive next sched ths s log).
Proof.
  revert ths s log. induction sched as [|i sched IH]; intros ths s log; simpl; [done|].
  destruct (ths !! i) as [[a|c k]|] eqn:Hi; [apply IH| |apply IH].
  destruct (next s c) as [s' r] eqn:E. eapply rtc_l; [|apply IH]. econstructor; [exact Hi|].
  pose proof (Hnext s c) as H. by rewrite E in H.
Qed.

Lemma issues_bind {C R A B : Type} (P : C -> Prop) (p : prog C R A) (f : A -> prog C R B) :
  issues P p -> (forall a, issues P (f a)) -> issues P (pbind p f).
Proof. induction p as [a|c k IH]; simpl; intros Hp Hf; [auto|]. destruct Hp. split; auto. Qed.

Lemma paid_bind {C R A B : Type} earn spend n (p : prog C R A) (f : A -> prog C R B) :
  paid earn spend n p -> (forall a, paid earn spend 0 (f a)) -> paid earn spend n (pbind p f).
Proof.
  revert n. induction p as [a|c k IH]; simpl; intros n Hp Hf; [eapply paid_mono; [apply Hf|lia]|].
  destruct Hp. split; auto.
Qed.

(** ** Sensible answers

    [tame P Q Phi p]: as long as the answers [p] got satisfy [Q], every call it
    makes satisfies [P], and so does [Phi] what it returns. *)
Fixpoint tame {C R A : Type} (P : C -> Prop) (Q : C -> R -> Prop) (Phi : A -> Prop) (p : prog C R A) : Prop :=
  match p with Ret a => Phi a | Ask c k => P c /\ forall r, Q c r -> tame P Q Phi (k r) end.

Lemma tame_bind {C R A B : Type} (P : C -> Prop) (Q : C -> R -> Prop) (Phi : A -> Prop) (Psi : B -> Prop) (p : prog C R A)
    (f : A -> prog C R B) :
  tame P Q Phi p -> (forall a, Phi a -> tame P Q Psi (f a)) -> tame P Q Psi (pbind p f).
Proof. induction p as [a|c k IH]; simpl; intros Hp Hf; [auto|]. destruct Hp. split; auto. Qed.

Lemma tame_mono {C R A : Type} (P : C -> Prop) (Q : C -> R -> Prop) (Phi Psi : A -> Prop) (p : prog C R A) :
  tame P Q Phi p -> (forall a, Phi a -> Psi a) -> tame P Q Psi p.
Proof. induction p as [a|c k IH]; simpl; intros Hp Hf; [auto|]. destruct Hp. split; auto. Qed.

Lemma tame_system {C R S A : Type} (sem : S -> C -> S -> R -> Prop) (P : C -> Prop) (Q : C -> R -> Prop) (Phi : A -> Prop) (I : S -> Prop)
    (Hkeep : forall s c s' r, I s -> P c -> sem s c s' r -> I s' /\ Q c r) (ths : list (prog C R A)) s cfg :
  Forall (tame P Q Phi) ths -> I s -> rtc (step sem) (ths, s) cfg -> I cfg.2.
Proof.
  intros Hths Hi Hs. remember (ths, s) as cfg0 eqn:E. revert ths s E Hths Hi.
  induction Hs as [|c1 c2 c3 H12 _ IH]; intros ths s -> Hths Hi; [done|].
  inversion H12 as [ths' i c k s1 s2 r Hi1 Hsem]; subst.
  destruct (proj1 (Forall_lookup _ _) Hths _ _ Hi1) as [HP Hk]. destruct (Hkeep _ _ _ _ Hi HP Hsem) as [Hi2 HQ].
  eapply IH; [reflexivity| |done]. apply Forall_insert; [done|by apply Hk].
Qed.

End Rely.
