(* ===== verification/Approval.v ===== *)
(** * Approval: approval records, votes and expiry

    src/internal/approval (service.go, levels.go, expiry.go, staterow.go) over the
    approvals table of src/internal/state/sqlite.go through the store adapter of
    src/cmd/levee/helpers.go. Statements are atomic; an operation is a
    [Concur.prog] of the statements, clock readings, id draws and callbacks it
    makes. Times are nanoseconds since Go's zero time. The JSON text of the comment column is
    represented by the value it encodes; log lines and the retry back-off are not
    modelled. *)

From Stdlib Require Import ZArith Lia.
From stdpp Require Import base gmap strings list sorting relations.
From S2P Require Import Prelude Dsl Concur Rely.
Import Concur Rely.
Open Scope string_scope.
Open Scope list_scope.

Module Approval.

Definition StatusPending := "pending".
Definition StatusApproved := "approved".
Definition StatusRejected := "rejected".
Definition StatusExpired := "expired".

Definition canTransition (from to : string) : bool :=
  if negb (String.eqb from StatusPending) then false
  else inSet [StatusApproved; StatusRejected; StatusExpired] to.

Definition ActionApprove := "approve".
Definition ActionReject := "reject".

Record Decision := MkDecision {
  d_Approver : string;
  d_Action : string;
  d_Reason : string;
  d_At : Z }.

Record Approval := MkApproval {
  a_ID : string;
  a_RunID : string;
  a_Level : string;
  a_Status : string;
  a_Approvers : list string;
  a_MinApprovers : Z;
  a_Decisions : list Decision;
  a_CreatedAt : Z;
  a_ExpiresAt : Z;
  a_PlanHash : string;
  a_Initiator : string;
  a_ExcludeInitiator : bool;
  a_Revision : Z;
  a_SupersededReason : string }.

Record CreateRequest := MkCreateRequest {
  cq_ID : string;
  cq_RunID : string;
  cq_Level : string;
  cq_Approvers : list string;
  cq_MinApprovers : Z;
  cq_ExpiresAt : Z;
  cq_PlanHash : string;
  cq_Initiator : string;
  cq_ExcludeInitiator : bool }.

Definition ErrNotFound := "approval: not found".
Definition ErrInvalidTransition := "approval: invalid status transition".
Definition ErrDuplicateDecision := "approval: approver already decided".
Definition ErrUnauthorizedApprover := "approval: approver not in approvers list".
Definition ErrInitiatorExcluded := "approval: initiator may not approve this change".
Definition ErrInvalidLevel := "approval: invalid level".
Definition ErrEmptyRunID := "approval: empty run id".
Definition ErrMinApproversTooLarge := "approval: min_approvers exceeds approvers".
Definition ErrConflict := "approval: concurrently modified, decision not recorded".
Definition ErrDecisionDenied := "approval: decision denied by policy".

Definition casMaxAttempts : nat := 4.

(** ** Levels *)

Definition LevelStandard := Dsl.ApprovalLevelStandard.
Definition LevelHigh := Dsl.ApprovalLevelHigh.
Definition LevelEmergency := Dsl.ApprovalLevelEmergency.
Definition levelOrder : list string := Dsl.ApprovalLevels.
Definition IsLevel (level : string) : bool := Dsl.IsApprovalLevel level.

Record EscalationPolicy := MkEscalation { OnTimeout : string; EscalateTo : string; NotifyApprovers : list string }.

Record LevelConfig := MkLevelConfig {
  lc_Level : string;
  lc_TriggerCondition : string;
  lc_RequiredApprovers : Z;
  lc_MinApprovers : Z;
  lc_Timeout : Z;
  lc_EscalationPolicy : EscalationPolicy }.

Definition zeroLevelConfig : LevelConfig := MkLevelConfig "" "" 0 0 0 (MkEscalation "" "" []).

Abbreviation LevelManager := (gmap string LevelConfig).
Definition Minute : Z := 60 * 1000000000.

Definition NewLevelManager : LevelManager :=
  <[LevelEmergency := MkLevelConfig LevelEmergency "emergency change channel, fast turnaround, single approver"
      1 1 (30 * Minute) (MkEscalation "auto-reject" "" [])]>
  (<[LevelHigh := MkLevelConfig LevelHigh "irreversible or destructive operations (explicit mark or whitelist match)"
      2 2 (240 * Minute) (MkEscalation "escalate" LevelEmergency [])]>
  (<[LevelStandard := MkLevelConfig LevelStandard "default tier for reversible operations"
      1 1 (1440 * Minute) (MkEscalation "notify" "" [])]> ∅)).

Definition invalidLevel (level : string) : goerr := EWrap level (ESentinel ErrInvalidLevel).

Definition level_Get (m : LevelManager) (level : string) : goerr + LevelConfig :=
  match m !! level with Some cfg => inr cfg | None => inl (invalidLevel level) end.

(** A missing key reads as the zero value. *)
Definition configOf (m : LevelManager) (level : string) : LevelConfig := default zeroLevelConfig (m !! level).
Definition level_All (m : LevelManager) : list LevelConfig := map (configOf m) levelOrder.

Definition SetConfig (m : LevelManager) (cfg : LevelConfig) : LevelManager * option goerr :=
  match m !! lc_Level cfg with
  | None => (m, Some (invalidLevel (lc_Level cfg)))
  | Some _ => (<[lc_Level cfg := cfg]> m, None)
  end.

Record LStep := MkLStep { ls_Module : string; ls_Action : string; ls_Target : string; ls_Irreversible : bool; ls_Emergency : bool }.

Definition DetermineLevel (m : LevelManager) (step : LStep) : LevelConfig :=
  if ls_Emergency step then configOf m LevelEmergency
  else if ls_Irreversible step then configOf m LevelHigh
  else configOf m LevelStandard.

Definition MinApproversFor (level : string) : goerr + Z :=
  match level_Get NewLevelManager level with inl e => inl e | inr cfg => inr (lc_MinApprovers cfg) end.

Definition ForcesInitiatorExclusion (level : string) : bool := String.eqb level LevelHigh.

(** ** The row of a chain *)

Record approvalExtra := MkExtra {
  x_Approvers : list string;
  x_MinApprovers : Z;
  x_Decisions : list Decision;
  x_CreatedAt : Z;
  x_ExpiresAt : Z;
  x_Initiator : string;
  x_ExcludeInitiator : bool;
  x_SupersededReason : string }.

(** The comment column: empty, a chain's JSON, or a text that is not one. *)
Inductive comment := CEmpty | CChain (x : approvalExtra) | CText (s : string).

(** [state.Approval]. *)
Record row := MkRow {
  r_ID : string;
  r_RunID : string;
  r_Level : string;
  r_Approver : string;
  r_Status : string;
  r_Comment : comment;
  r_TimeoutAt : option Z;
  r_ActedAt : option Z;
  r_PlanHash : string;
  r_Revision : Z;
  r_TenantID : string }.

Definition nonZero (t : Z) : option Z := if (t =? 0)%Z then None else Some t.

Definition StateApproval (a : Approval) : row :=
  let lastDecision := last (a_Decisions a) in
  MkRow (a_ID a) (a_RunID a) (a_Level a)
    (match lastDecision with Some d => d_Approver d | None => "" end) (a_Status a)
    (CChain (MkExtra (a_Approvers a) (a_MinApprovers a) (a_Decisions a) (a_CreatedAt a) (a_ExpiresAt a)
       (a_Initiator a) (a_ExcludeInitiator a) (a_SupersededReason a)))
    (nonZero (a_ExpiresAt a))
    (match lastDecision with Some d => nonZero (d_At d) | None => None end)
    (a_PlanHash a) (a_Revision a) "".

Definition emptyExtra : approvalExtra := MkExtra [] 0 [] 0 0 "" false "".

Definition ApprovalFromState (sa : row) : goerr + Approval :=
  let build x :=
    let exp := match r_TimeoutAt sa with
               | Some t => if (x_ExpiresAt x =? 0)%Z then t else x_ExpiresAt x
               | None => x_ExpiresAt x
               end in
    MkApproval (r_ID sa) (r_RunID sa) (r_Level sa) (r_Status sa) (x_Approvers x) (x_MinApprovers x) (x_Decisions x)
      (x_CreatedAt x) exp (r_PlanHash sa) (x_Initiator x) (x_ExcludeInitiator x) (r_Revision sa) (x_SupersededReason x) in
  match r_Comment sa with
  | CEmpty => inr (build emptyExtra)
  | CChain x => inr (build x)
  | CText s => inl (EText ("approval " +:+ r_ID sa +:+ " has unparsable metadata (comment " +:+ s +:+ ")"))
  end.

Definition withReason (x : approvalExtra) (reason : string) : approvalExtra :=
  MkExtra (x_Approvers x) (x_MinApprovers x) (x_Decisions x) (x_CreatedAt x) (x_ExpiresAt x) (x_Initiator x)
    (x_ExcludeInitiator x) reason.

Definition MarkSuperseded (sa : row) (reason : string) : row * option goerr :=
  let upd x := MkRow (r_ID sa) (r_RunID sa) (r_Level sa) (r_Approver sa) (r_Status sa) (CChain (withReason x reason))
                 (r_TimeoutAt sa) (r_ActedAt sa) (r_PlanHash sa) (r_Revision sa) (r_TenantID sa) in
  match r_Comment sa with
  | CEmpty => (upd emptyExtra, None)
  | CChain x => (upd x, None)
  | CText s => (sa, Some (EText ("approval " +:+ r_ID sa +:+ " has unparsable metadata (comment " +:+ s +:+ ")")))
  end.

(** ** The approvals table *)

Inductive stmt :=
| SCreateApproval (r : row)
| SGetApproval (id : string)
| SUpdateApproval (r : row)
| SUpdateApprovalIfPending (r : row)
| SListApprovals (runID status : string)
| SAuthorizeDecision (subject action : string) (a : Approval)   (** [DecisionGuard] *)
| SObserve (a : Approval) (action : string)                     (** a decision observer *)
| SOnExpired (l : list Approval)                                (** the sweeper's callback *)
| SNow
| SNewID.

Record ans := MkAns { a_err : option goerr; a_rows : list row; a_n : Z; a_time : Z; a_id : string }.
Definition noAns : ans := MkAns None [] 0 0 "".

(** [UPDATE ... SET ..., revision=revision+1]. *)
Definition overwrite (old new : row) : row :=
  MkRow (r_ID old) (r_RunID new) (r_Level new) (r_Approver new) (r_Status new) (r_Comment new) (r_TimeoutAt new)
    (r_ActedAt new) (r_PlanHash new) (r_Revision old + 1) (r_TenantID new).

Definition sameRow (new x : row) : bool := String.eqb (r_ID x) (r_ID new).
Definition stillPending (new x : row) : bool :=
  sameRow new x && String.eqb (r_Status x) StatusPending && (r_Revision x =? r_Revision new)%Z.
Definition update (guard : row -> bool) (new : row) (db : list row) : list row :=
  map (fun x => if guard x then overwrite x new else x) db.
Definition affected (guard : row -> bool) (db : list row) : Z := Z.of_nat (length (filter (fun x => guard x = true) db)).

(** [ORDER BY timeout_at ASC], NULLs first. *)
Definition byTimeout (x y : row) : Prop :=
  match r_TimeoutAt x, r_TimeoutAt y with
  | None, _ => True
  | Some _, None => False
  | Some a, Some b => (a <= b)%Z
  end.
#[export] Instance byTimeout_dec : RelDecision byTimeout.
Proof. intros x y. unfold byTimeout. destruct (r_TimeoutAt x), (r_TimeoutAt y); apply _. Defined.

Definition matches (runID status : string) (x : row) : bool :=
  (String.eqb runID "" || String.eqb (r_RunID x) runID) && (String.eqb status "" || String.eqb (r_Status x) status).

Definition dbexec (db : list row) (s : stmt) : list row * ans :=
  match s with
  | SCreateApproval r =>
      if existsb (sameRow r) db
      then (db, MkAns (Some (EWrap "state: create approval" (EText "UNIQUE constraint failed: approvals.id"))) [] 0 0 "")
      else (db ++ [r], noAns)
  | SGetApproval id =>
      (db, MkAns None (match filter (fun x => r_ID x = id) db with x :: _ => [x] | [] => [] end) 0 0 "")
  | SUpdateApproval r =>
      (update (sameRow r) r db,
       if (affected (sameRow r) db =? 0)%Z
       then MkAns (Some (EText ("state: update approval " +:+ r_ID r +:+ ": not found"))) [] 0 0 "" else noAns)
  | SUpdateApprovalIfPending r =>
      (update (stillPending r) r db, MkAns None [] (affected (stillPending r) db) 0 "")
  | SListApprovals runID status =>
      (db, MkAns None (merge_sort byTimeout (filter (fun x => matches runID status x = true) db)) 0 0 "")
  | _ => (db, noAns)
  end.
(** ** The store as the service sees it *)

Definition op (A : Type) : Type := prog stmt ans A.

Definition store_Get {A} (id : string) (k : goerr + option Approval -> op A) : op A :=
  Ask (SGetApproval id) (fun r => k
    match a_err r with
    | Some e => inl e
    | None =>
        match a_rows r with
        | [] => inr None
        | x :: _ => match ApprovalFromState x with inl e => inl e | inr a => inr (Some a) end
        end
    end).

Definition store_UpdateIfPending {A} (a : Approval) (k : goerr + bool -> op A) : op A :=
  Ask (SUpdateApprovalIfPending (StateApproval a)) (fun r => k
    match a_err r with Some e => inl e | None => inr (0 <? a_n r)%Z end).

(** Malformed rows are skipped. *)
Definition store_ListPending {A} (k : goerr + list Approval -> op A) : op A :=
  Ask (SListApprovals "" StatusPending) (fun r => k
    match a_err r with
    | Some e => inl e
    | None => inr (omap (fun x => match ApprovalFromState x with inr a => Some a | inl _ => None end) (a_rows r))
    end).

(** ** Helpers *)

Definition isAuthorized (approvers : list string) (approver : string) : bool :=
  match approvers with [] => true | _ => inSet approvers approver end.

Definition hasDecided (decisions : list Decision) (approver : string) : bool :=
  existsb (fun d => String.eqb (d_Approver d) approver) decisions.

Definition countApproves (decisions : list Decision) : Z :=
  Z.of_nat (length (filter (fun d => d_Action d = ActionApprove) decisions)).

(** ** The service *)

(** [svc_guard]: a decision guard is installed; [svc_observers]: how many
    observers are. *)
Record Service := MkService { svc_guard : bool; svc_observers : nat }.
Definition NewService : Service := MkService false 0.
Definition WithDecisionGuard (g : bool) (s : Service) : Service := MkService g (svc_observers s).
Definition WithDecisionObserver (fn : bool) (s : Service) : Service :=
  MkService (svc_guard s) (if fn then S (svc_observers s) else 0).

Definition quorum (n : Z) : Z := if (n <=? 0)%Z then 1 else n.

Definition Create (s : Service) (req : CreateRequest) : op (goerr + Approval) :=
  if String.eqb (cq_RunID req) "" then Ret (inl (ESentinel ErrEmptyRunID))
  else if negb (IsLevel (cq_Level req)) then Ret (inl (invalidLevel (cq_Level req)))
  else
    let min := quorum (cq_MinApprovers req) in
    let n := Z.of_nat (length (cq_Approvers req)) in
    if (0 <? n)%Z && (n <? min)%Z then Ret (inl (EWrap "min_approvers" (ESentinel ErrMinApproversTooLarge)))
    else
      Ask SNow (fun t =>
        let insert id :=
          let a := MkApproval id (cq_RunID req) (cq_Level req) StatusPending (cq_Approvers req) min [] (a_time t)
                     (cq_ExpiresAt req) (cq_PlanHash req) (cq_Initiator req) (cq_ExcludeInitiator req) 0 "" in
          Ask (SCreateApproval (StateApproval a)) (fun r =>
            Ret match a_err r with Some e => inl (EWrap "approval: create" e) | None => inr a end) in
        if String.eqb (cq_ID req) "" then
          Ask SNewID (fun r => match a_err r with Some e => Ret (inl e) | None => insert (a_id r) end)
        else insert (cq_ID req)).

Definition withQuorum (a : Approval) : Approval :=
  MkApproval (a_ID a) (a_RunID a) (a_Level a) (a_Status a) (a_Approvers a) (quorum (a_MinApprovers a)) (a_Decisions a)
    (a_CreatedAt a) (a_ExpiresAt a) (a_PlanHash a) (a_Initiator a) (a_ExcludeInitiator a) (a_Revision a) (a_SupersededReason a).

Definition excluded (a : Approval) (approver : string) : bool :=
  a_ExcludeInitiator a && negb (String.eqb (a_Initiator a) "") && String.eqb approver (a_Initiator a).

(** The checks of the record itself, in order. *)
Definition recordChecks (a : Approval) (approver : string) : option goerr :=
  if negb (isAuthorized (a_Approvers a) approver) then Some (EWrap approver (ESentinel ErrUnauthorizedApprover))
  else if excluded a approver then Some (EWrap approver (ESentinel ErrInitiatorExcluded))
  else if hasDecided (a_Decisions a) approver then Some (EWrap approver (ESentinel ErrDuplicateDecision))
  else None.

Definition withStatus (a : Approval) (status : string) (ds : list Decision) : Approval :=
  MkApproval (a_ID a) (a_RunID a) (a_Level a) status (a_Approvers a) (a_MinApprovers a) ds
    (a_CreatedAt a) (a_ExpiresAt a) (a_PlanHash a) (a_Initiator a) (a_ExcludeInitiator a) (a_Revision a) (a_SupersededReason a).

Definition castVote (a : Approval) (approver action reason : string) (now : Z) (target : string) : Approval :=
  let ds := a_Decisions a ++ [MkDecision approver action reason now] in
  withStatus a
    (if String.eqb target StatusRejected then StatusRejected
     else if (a_MinApprovers a <=? countApproves ds)%Z then StatusApproved else a_Status a) ds.

(** The policy guard, if one is installed. *)
Definition consult {A} (s : Service) (approver action : string) (a : Approval) (k : option goerr -> op A) : op A :=
  if svc_guard s then
    Ask (SAuthorizeDecision approver action a) (fun r => k
      match a_err r with
      | Some e => Some (EWrap2 (action +:+ " " +:+ approver +:+ " on " +:+ a_RunID a) (ESentinel ErrDecisionDenied) e)
      | None => None
      end)
  else k None.

Fixpoint observe {A} (n : nat) (a : Approval) (action : string) (k : op A) : op A :=
  match n with O => k | S n => Ask (SObserve a action) (fun _ => observe n a action k) end.

Definition conflict (id approver : string) : goerr :=
  EWrap ("approval " +:+ id +:+ " for " +:+ approver) (ESentinel ErrConflict).

(** The loop of [Service.decide] with [n] attempts left. *)
Fixpoint decideLoop (s : Service) (n : nat) (id approver action reason target : string) (lastErr : option goerr) :
    op (option goerr) :=
  match n with
  | O => Ret lastErr
  | S n =>
      store_Get id (fun got =>
        match got with
        | inl e => Ret (Some (EWrap "approval: get" e))
        | inr None => Ret (Some (ESentinel ErrNotFound))
        | inr (Some a) =>
            if negb (canTransition (a_Status a) target)
            then Ret (Some (EWrap (a_Status a +:+ " -> " +:+ target) (ESentinel ErrInvalidTransition)))
            else
              consult s approver action a (fun denied =>
                match denied with
                | Some e => Ret (Some e)
                | None =>
                    let a := withQuorum a in
                    match recordChecks a approver with
                    | Some e => Ret (Some e)
                    | None =>
                        Ask SNow (fun t =>
                          let a := castVote a approver action reason (a_time t) target in
                          store_UpdateIfPending a (fun ok =>
                            match ok with
                            | inl e => Ret (Some (EWrap "approval: update if pending" e))
                            | inr true => observe (svc_observers s) a action (Ret None)
                            | inr false => decideLoop s n id approver action reason target (Some (conflict id approver))
                            end))
                    end
                end)
        end)
  end.

Definition service_decide (s : Service) (id approver action reason target : string) : op (option goerr) :=
  decideLoop s casMaxAttempts id approver action reason target None.

Definition Approve (s : Service) (id approver : string) : op (option goerr) :=
  service_decide s id approver ActionApprove "" StatusApproved.
Definition Reject (s : Service) (id approver reason : string) : op (option goerr) :=
  service_decide s id approver ActionReject reason StatusRejected.

Definition overdue (now : Z) (a : Approval) : bool :=
  negb (a_ExpiresAt a =? 0)%Z && (a_ExpiresAt a <? now)%Z && canTransition (a_Status a) StatusExpired.

Definition settle (a : Approval) : Approval := withStatus a StatusExpired (a_Decisions a).

(** The loop of [CheckExpiry] over the scanned records. *)
Fixpoint expireLoop (now : Z) (pending : list Approval) (expired : list string) : op (list string * option goerr) :=
  match pending with
  | [] => Ret (expired, None)
  | a :: rest =>
      if negb (overdue now a) then expireLoop now rest expired
      else
        store_UpdateIfPending (settle a) (fun ok =>
          match ok with
          | inl e => Ret ([], Some (EWrap "approval: update expiry" e))
          | inr false => expireLoop now rest expired
          | inr true => expireLoop now rest (expired ++ [a_ID a])
          end)
  end.

Definition CheckExpiry : op (list string * option goerr) :=
  store_ListPending (fun got =>
    match got with
    | inl e => Ret ([], Some (EWrap "approval: list pending" e))
    | inr pending => Ask SNow (fun t => expireLoop (a_time t) pending [])
    end).

(** The sweeper: the settled records are read back; an unreadable one is left
    out of the report. *)
Fixpoint readBack (ids : list string) (acc : list Approval) : op (list Approval) :=
  match ids with
  | [] => Ret acc
  | id :: rest => store_Get id (fun got => readBack rest (match got with inr (Some a) => acc ++ [a] | _ => acc end))
  end.

Definition SweepOnce (onExpired : bool) : op (list Approval * option goerr) :=
  pbind CheckExpiry (fun out =>
    match out with
    | (_, Some e) => Ret ([], Some e)
    | ([], None) => Ret ([], None)
    | (ids, None) =>
        pbind (readBack ids []) (fun l =>
          match l with
          | [] => Ret ([], None)
          | _ => if onExpired then Ask (SOnExpired l) (fun _ => Ret (l, None)) else Ret (l, None)
          end)
    end).

(** The kickoff of a new plan: pending approvals of the run's earlier plans are
    marked expired from the scanned rows, unconditionally. *)
Definition superseded (now : Z) (old : row) : row :=
  (MarkSuperseded (MkRow (r_ID old) (r_RunID old) (r_Level old) (r_Approver old) StatusExpired (r_Comment old)
     (r_TimeoutAt old) (Some now) (r_PlanHash old) (r_Revision old) (r_TenantID old)) "superseded by re-plan").1.

Fixpoint supersedeLoop (rows : list row) : op unit :=
  match rows with
  | [] => Ret tt
  | old :: rest => Ask SNow (fun t => Ask (SUpdateApproval (superseded (a_time t) old)) (fun _ => supersedeLoop rest))
  end.

Definition supersede (runID : string) : op unit :=
  Ask (SListApprovals runID StatusPending) (fun r =>
    match a_err r with Some _ => Ret tt | None => supersedeLoop (a_rows r) end).

(** ** Interleaving

    A statement takes effect atomically and answers; a failed one may or may not
    have taken effect. Clock readings and drawn ids are arbitrary. *)
Definition stamped (r : ans) (t : Z) (id : string) : ans := MkAns (a_err r) (a_rows r) (a_n r) t id.

Inductive sem (db : list row) (s : stmt) : list row -> ans -> Prop :=
| sem_ok t id : sem db s (dbexec db s).1 (stamped (dbexec db s).2 t id)
| sem_fail db' r e : db' = db \/ db' = (dbexec db s).1 -> a_err r = Some e -> sem db s db' r.

(** ** The abstract state machine of a record *)

Definition bump (a : Approval) : Approval :=
  MkApproval (a_ID a) (a_RunID a) (a_Level a) (a_Status a) (a_Approvers a) (a_MinApprovers a) (a_Decisions a)
    (a_CreatedAt a) (a_ExpiresAt a) (a_PlanHash a) (a_Initiator a) (a_ExcludeInitiator a) (a_Revision a + 1) (a_SupersededReason a).

Definition legalVote (action target : string) : Prop :=
  action = ActionApprove /\ target = StatusApproved \/ action = ActionReject /\ target = StatusRejected.

(** A record that left pending has no step. *)
Inductive vstep : Approval -> Approval -> Prop :=
| vs_vote a approver action reason now target :
    legalVote action target -> canTransition (a_Status a) target = true -> recordChecks (withQuorum a) approver = None ->
    vstep a (bump (castVote (withQuorum a) approver action reason now target))
| vs_expire a now : overdue now a = true -> vstep a (bump (settle a)).

Lemma canTransition_pending from to : canTransition from to = true -> from = StatusPending.
Proof. unfold canTransition. by destruct (String.eqb_spec from StatusPending). Qed.

Lemma vstep_pending a a' : vstep a a' -> a_Status a = StatusPending.
Proof.
  destruct 1 as [a ap ac re now tg _ Hc _|a now Ho]; [by eapply canTransition_pending|].
  unfold overdue in Ho. boolp. by eapply canTransition_pending.
Qed.

Lemma vstep_revision a a' : vstep a a' -> a_Revision a' = (a_Revision a + 1)%Z /\ a_ID a' = a_ID a.
Proof. by destruct 1. Qed.

Lemma vstep_decisions a a' : vstep a a' -> a_Decisions a `prefix_of` a_Decisions a'.
Proof. destruct 1; simpl; [by apply prefix_app_r|done]. Qed.

(** What a record says is true of its votes: each approver voted once, was
    authorised and independent; the status is what the votes make it. *)
Definition rejected (d : Decision) : Prop := d_Action d = ActionReject.

Record record_ok (a : Approval) : Prop := {
  ok_distinct : NoDup (map d_Approver (a_Decisions a));
  ok_voters : forall d, d ∈ a_Decisions a ->
    isAuthorized (a_Approvers a) (d_Approver d) = true /\ excluded a (d_Approver d) = false;
  ok_approved : a_Status a = StatusApproved ->
    (quorum (a_MinApprovers a) <= countApproves (a_Decisions a))%Z /\ Forall (fun d => ~ rejected d) (a_Decisions a);
  ok_rejected : a_Status a = StatusRejected -> Exists rejected (a_Decisions a);
  ok_open : a_Status a = StatusPending \/ a_Status a = StatusExpired ->
    (countApproves (a_Decisions a) < quorum (a_MinApprovers a))%Z /\ Forall (fun d => ~ rejected d) (a_Decisions a) }.

Lemma quorum_idem n : quorum (quorum n) = quorum n.
Proof. unfold quorum. destruct (Z.leb_spec n 0); [done|]. destruct (Z.leb_spec n 0); [lia|done]. Qed.

Lemma quorum_pos n : (1 <= quorum n)%Z.
Proof. unfold quorum. destruct (Z.leb_spec n 0); lia. Qed.

Lemma hasDecided_false ds x : hasDecided ds x = false <-> (x ∉ map d_Approver ds).
Proof.
  unfold hasDecided. rewrite <- not_true_iff_false, existsb_elem. split; intros H Hin; apply H.
  - apply list_elem_of_fmap in Hin as (d & -> & Hd). exists d. split; [done|]. by apply String.eqb_eq.
  - destruct Hin as (d & Hd & He). apply String.eqb_eq in He as <-. apply list_elem_of_fmap. eauto.
Qed.

Lemma recordChecks_none a x :
  recordChecks a x = None <->
  isAuthorized (a_Approvers a) x = true /\ excluded a x = false /\ (x ∉ map d_Approver (a_Decisions a)).
Proof.
  unfold recordChecks. rewrite <- hasDecided_false.
  destruct (isAuthorized _ _), (excluded _ _), (hasDecided _ _); simpl; naive_solver.
Qed.

Lemma countApproves_snoc ds d :
  countApproves (ds ++ [d]) = (countApproves ds + if bool_decide (d_Action d = ActionApprove) then 1 else 0)%Z.
Proof.
  unfold countApproves. rewrite filter_app, length_app, filter_cons, filter_nil.
  case_decide; case_bool_decide; try done; simpl; lia.
Qed.

Lemma record_ok_fresh a : a_Status a = StatusPending -> a_Decisions a = [] -> record_ok a.
Proof.
  intros Hs Hd. constructor; rewrite ?Hs, Hd; simpl; try done.
  - constructor.
  - by intros d ?%not_elem_of_nil.
  - intros _. split; [|constructor]. pose proof (quorum_pos (a_MinApprovers a)). unfold countApproves. simpl. lia.
Qed.

(** The state machine keeps records well formed. *)
Lemma vstep_ok a a' : record_ok a -> vstep a a' -> record_ok a'.
Proof.
  intros [H1 H2 H3 H4 H5] Hs. pose proof (vstep_pending _ _ Hs) as Hp. destruct (H5 (or_introl Hp)) as [Hcount Hnorej].
  destruct Hs as [a x action reason now target Hl Hc Hchk|a now Ho].
  2: { constructor; simpl; try done. }
  apply recordChecks_none in Hchk as (Hauth & Hexc & Hnew). simpl in Hauth, Hexc, Hnew.
  assert (Hvoters : forall d, d ∈ a_Decisions a ++ [MkDecision x action reason now] ->
    isAuthorized (a_Approvers a) (d_Approver d) = true /\ excluded a (d_Approver d) = false).
  { intros d [Hd| ->%list_elem_of_singleton]%elem_of_app; [auto|done]. }
  constructor; simpl; try done.
  - rewrite map_app. apply NoDup_app. split_and!; [done| |apply NoDup_singleton].
    intros y Hy. simpl. rewrite list_elem_of_singleton. by intros ->.
  - destruct (String.eqb_spec target StatusRejected) as [->|Ht]; [done|].
    rewrite quorum_idem. destruct (Z.leb_spec (quorum (a_MinApprovers a)) (countApproves (a_Decisions a ++ [MkDecision x action reason now]))) as [Hle|]; [|by rewrite Hp].
    intros _. split; [done|]. apply Forall_app. split; [done|]. repeat constructor.
    destruct Hl as [[-> ->]|[_ ->]]; [|done]. unfold rejected. simpl. done.
  - destruct Hl as [[-> ->]|[-> ->]]; simpl.
    + destruct (Z.leb _ _); [done|by rewrite Hp].
    + intros _. apply Exists_app. right. by constructor.
  - destruct (String.eqb_spec target StatusRejected) as [->|Ht]; [by intros []|].
    destruct (Z.leb_spec (quorum (a_MinApprovers a)) (countApproves (a_Decisions a ++ [MkDecision x action reason now]))) as [|Hlt]; [by intros []|].
    intros _. rewrite quorum_idem. split; [done|]. apply Forall_app. split; [done|]. repeat constructor.
    destruct Hl as [[-> ->]|[_ ->]]; [|done]. unfold rejected. simpl. done.
Qed.


(** ** Rows and the state machine *)

Lemma decode_inv r a :
  ApprovalFromState r = inr a -> a_ID a = r_ID r /\ a_Status a = r_Status r /\ a_Revision a = r_Revision r.
Proof. unfold ApprovalFromState. destruct (r_Comment r); intros [= <-]; done. Qed.

Lemma expiry_roundtrip e : match nonZero e with Some t => if (e =? 0)%Z then t else e | None => e end = e.
Proof. unfold nonZero. by destruct (Z.eqb_spec e 0) as [->|]. Qed.

Lemma decode_overwrite old a :
  r_ID old = a_ID a -> r_Revision old = a_Revision a ->
  ApprovalFromState (overwrite old (StateApproval a)) = inr (bump a).
Proof.
  intros Hid Hrev. unfold ApprovalFromState, StateApproval, overwrite, bump. simpl.
  by rewrite expiry_roundtrip, Hid, Hrev.
Qed.

(** A row changes only by a step of its record. *)
Definition row_step (r r' : row) : Prop :=
  r' = r \/ exists a a', ApprovalFromState r = inr a /\ ApprovalFromState r' = inr a' /\ vstep a a'.

Lemma row_step_id r r' : row_step r r' -> r_ID r' = r_ID r.
Proof.
  intros [->|(a & a' & H1%decode_inv & H2%decode_inv & Hs%vstep_revision)]; [done|].
  destruct H1, H2, Hs. congruence.
Qed.

Lemma row_steps_id r r' : rtc row_step r r' -> r_ID r' = r_ID r.
Proof. induction 1 as [|x y z Hxy _ IH]; [done|]. by rewrite IH, (row_step_id _ _ Hxy). Qed.

(** The revision counts the changes. *)
Lemma row_steps_revision r r' :
  rtc row_step r r' -> (r_Revision r <= r_Revision r')%Z /\ (r_Revision r' = r_Revision r -> r' = r).
Proof.
  induction 1 as [|x y z Hxy _ [IH1 IH2]]; [done|].
  destruct Hxy as [->|(a & a' & H1%decode_inv & H2%decode_inv & Hs%vstep_revision)]; [done|].
  destruct H1 as (_ & _ & H1), H2 as (_ & _ & H2), Hs as [Hs _]. split; [lia|]. intros. lia.
Qed.

Lemma row_steps_record r r' a :
  rtc row_step r r' -> ApprovalFromState r = inr a -> exists a', ApprovalFromState r' = inr a' /\ rtc vstep a a'.
Proof.
  intros Hs. revert a. induction Hs as [|x y z Hxy _ IH]; intros a Ha; [by exists a|].
  destruct Hxy as [->|(b & b' & Hb & Hb' & Hv)]; [auto|]. rewrite Ha in Hb. injection Hb as <-.
  destruct (IH _ Hb') as (a' & Ha' & Hr). exists a'. split; [done|]. by eapply rtc_l.
Qed.

(** A row that is not pending stays as it is. *)
Lemma row_steps_terminal r r' : rtc row_step r r' -> r_Status r <> StatusPending -> r' = r.
Proof.
  induction 1 as [|x y z Hxy _ IH]; intros Ht; [done|].
  destruct Hxy as [->|(a & a' & H1%decode_inv & _ & Hs%vstep_pending)]; [auto|]. destruct H1 as (_ & H1 & _). congruence.
Qed.

Lemma vsteps_decisions a a' : rtc vstep a a' -> a_Decisions a `prefix_of` a_Decisions a'.
Proof. induction 1 as [|x y z Hxy _ IH]; [done|]. etransitivity; [by eapply vstep_decisions|done]. Qed.

Lemma vsteps_ok a a' : rtc vstep a a' -> record_ok a -> record_ok a'.
Proof. induction 1 as [|x y z Hxy _ IH]; [done|]. intros. apply IH. by eapply vstep_ok. Qed.

Definition fresh_row (r : row) : Prop :=
  exists a, ApprovalFromState r = inr a /\ a_Status a = StatusPending /\ a_Decisions a = [] /\ (1 <= a_MinApprovers a)%Z.

(** ** Rely and guarantee *)

Definition keys_ok (db : list row) : Prop := NoDup (map r_ID db).

(** Old rows make a step, fresh rows are appended. *)
Definition table_step (R : row -> row -> Prop) (N : row -> Prop) (db db' : list row) : Prop :=
  exists olds news, db' = olds ++ news /\ Forall2 R db olds /\ Forall N news.

Definition guar : list row -> list row -> Prop := table_step row_step fresh_row.

Lemma guar_same db : guar db db.
Proof. exists db, []. rewrite app_nil_r. split_and!; [done| |constructor]. apply Forall_Forall2_diag, Forall_true. by left. Qed.

(** What any number of changes by the actors amounts to. *)
Lemma rely_table db db' :
  rely guar db db' ->
  table_step (rtc row_step) (fun r => exists r0, fresh_row r0 /\ rtc row_step r0 r) db db'.
Proof.
  induction 1 as [db|db1 db2 db3 (olds & news & -> & Hold & Hnew) _ (olds2 & news2 & -> & Hold2 & Hnew2)].
  - exists db, []. rewrite app_nil_r. split_and!; [done| |constructor]. apply Forall_Forall2_diag, Forall_true. intros. apply rtc_refl.
  - apply Forall2_app_inv_l in Hold2 as (o1 & n1 & Ho1 & Hn1 & ->). exists o1, (n1 ++ news2).
    split_and!; [by rewrite app_assoc| |].
    + clear -Hold Ho1. revert o1 Ho1. induction Hold as [|x y l l' Hxy _ IH]; intros o1 Ho1; inversion Ho1; subst; constructor; [by eapply rtc_l|auto].
    + apply Forall_app. split; [|done]. clear -Hnew Hn1. induction Hn1 as [|x y l l' Hxy _ IH]; [constructor|].
      inversion Hnew; subst. constructor; [eauto|auto].
Qed.

Lemma rely_row db db' r : rely guar db db' -> r ∈ db -> exists r', r' ∈ db' /\ rtc row_step r r'.
Proof.
  intros (olds & news & -> & Hf & _)%rely_table Hin. apply list_elem_of_lookup in Hin as [i Hi].
  destruct (Forall2_lookup_l _ _ _ _ _ Hf Hi) as (r' & Hr' & Hs). exists r'. split; [|done].
  apply elem_of_app. left. by eapply list_elem_of_lookup_2.
Qed.

(** [a] was read at some point from a row that is still in the table. *)
Definition traced (db : list row) (a : Approval) : Prop :=
  exists r0 r, ApprovalFromState r0 = inr a /\ r ∈ db /\ rtc row_step r0 r.

Lemma traced_rely db db' a : traced db a -> rely guar db db' -> traced db' a.
Proof.
  intros (r0 & r & Ha & Hr & Hs) Hrel. destruct (rely_row _ _ _ Hrel Hr) as (r' & Hr' & Hs').
  exists r0, r'. split_and!; [done|done|]. by etransitivity.
Qed.

Lemma unique_row db r r' : keys_ok db -> r ∈ db -> r' ∈ db -> r_ID r = r_ID r' -> r = r'.
Proof.
  intros Hk Hr Hr' Heq. apply list_elem_of_lookup in Hr as [i Hi]. apply list_elem_of_lookup in Hr' as [j Hj].
  assert (i = j) as <-; [|congruence]. apply (NoDup_lookup (map r_ID db) i j (r_ID r)); [done| |];
    rewrite list_lookup_fmap; [by rewrite Hi|by rewrite Hj, Heq].
Qed.

(** The row a pending compare-and-set finds is the row that was read. *)
Lemma cas_row db a a' x :
  keys_ok db -> traced db a -> a_ID a' = a_ID a -> a_Revision a' = a_Revision a -> x ∈ db ->
  stillPending (StateApproval a') x = true -> ApprovalFromState x = inr a.
Proof.
  intros Hk (r0 & r & Ha & Hr & Hs) Hid Hrev Hx Hsp. unfold stillPending, sameRow in Hsp. boolp. simpl in *.
  destruct (decode_inv _ _ Ha) as (Hd1 & _ & Hd2). pose proof (row_steps_id _ _ Hs) as Hrid.
  assert (x = r) as -> by (apply (unique_row db); [done|done|done|congruence]).
  destruct (row_steps_revision _ _ Hs) as [_ Heq]. rewrite Heq by lia. done.
Qed.

Lemma update_ids g new db : map r_ID (update g new db) = map r_ID db.
Proof. unfold update. rewrite map_map. apply map_ext. intros x. by destruct (g x). Qed.

Lemma cas_guar db a a' :
  keys_ok db -> traced db a -> a_ID a' = a_ID a -> a_Revision a' = a_Revision a -> vstep a (bump a') ->
  guar db (update (stillPending (StateApproval a')) (StateApproval a') db).
Proof.
  intros Hk Ht Hid Hrev Hv. eexists _, []. rewrite app_nil_r. split_and!; [done| |constructor].
  unfold update. apply Forall2_fmap_r, Forall_Forall2_diag, Forall_forall. intros x Hx. unfold compose.
  destruct (stillPending (StateApproval a') x) eqn:E; [right|left; done].
  pose proof (cas_row _ _ _ _ Hk Ht Hid Hrev Hx E) as Hdec. exists a, (bump a'). split_and!; [done| |done].
  destruct (decode_inv _ _ Hdec) as (H1 & _ & H2). apply decode_overwrite; congruence.
Qed.


(** ** What each actor owes and promises *)

Section actors.
Context {A : Type}.
Abbreviation good := (Rely.good sem keys_ok guar).

Definition answers (db : list row) (s : stmt) (r : ans) : Prop :=
  a_err r = None -> exists t id, r = stamped (dbexec db s).2 t id.

Lemma sem_inv db s db' r :
  sem db s db' r -> (db' = db \/ db' = (dbexec db s).1) /\ answers db s r /\ (a_err r = None -> db' = (dbexec db s).1).
Proof. destruct 1 as [t id|? ? e ? He]; unfold answers; [split_and!; eauto|]. rewrite He. done. Qed.

(** A call that does not change the table. *)
Lemma good_read (Q : A -> list row -> Prop) s k db :
  (forall db, (dbexec db s).1 = db) ->
  (forall db' r, rely guar db db' -> keys_ok db' -> answers db' s r -> good Q (k r) db') -> good Q (Ask s k) db.
Proof.
  intros Hs Hk. simpl. intros db' Hr Hi db'' r Hsem. destruct (sem_inv _ _ _ _ Hsem) as (Hdb & Ha & _).
  assert (db'' = db') as -> by (destruct Hdb as [->|Hdb]; [done|]; by rewrite Hdb, Hs).
  split_and!; [apply guar_same|done|by apply Hk].
Qed.

Lemma affected_zero g db : (0 <? affected g db)%Z = false -> forall x, x ∈ db -> g x = false.
Proof.
  unfold affected. intros H x Hx. destruct (g x) eqn:E; [exfalso|done].
  assert (Hin : x ∈ filter (fun x => g x = true) db) by (by apply list_elem_of_filter).
  destruct (filter _ db); [by apply not_elem_of_nil in Hin|]. simpl in H. apply Z.ltb_ge in H. lia.
Qed.

Lemma affected_pos g db : (0 <? affected g db)%Z = true -> exists x, x ∈ db /\ g x = true.
Proof.
  unfold affected. intros H. destruct (filter _ db) as [|x l] eqn:E; [done|].
  assert (Hin : x ∈ filter (fun x => g x = true) db) by (rewrite E; by left).
  apply list_elem_of_filter in Hin as [? ?]. eauto.
Qed.

(** A compare-and-set of a step of the record that was read: it errs, or it takes
    effect, or another actor has changed the record since. *)
Lemma good_cas (Q : A -> list row -> Prop) a a' k db :
  traced db a -> a_ID a' = a_ID a -> a_Revision a' = a_Revision a -> vstep a (bump a') ->
  (forall db' e, rely guar db db' -> good Q (k (inl e)) db') ->
  (forall db' x, rely guar db db' -> x ∈ db' -> ApprovalFromState x = inr (bump a') -> good Q (k (inr true)) db') ->
  (forall db' x, rely guar db db' -> x ∈ db' -> r_ID x = a_ID a -> (a_Revision a < r_Revision x)%Z ->
     good Q (k (inr false)) db') ->
  good Q (store_UpdateIfPending a' k) db.
Proof.
  intros Ht Hid Hrev Hv Herr Hok Hlost. unfold store_UpdateIfPending. intros db1 Hr Hi db2 r Hsem.
  pose proof (traced_rely _ _ _ Ht Hr) as Ht1. pose proof (cas_guar _ _ _ Hi Ht1 Hid Hrev Hv) as HG.
  assert (Hi' : keys_ok (update (stillPending (StateApproval a')) (StateApproval a') db1)) by (unfold keys_ok; by rewrite update_ids).
  destruct (sem_inv _ _ _ _ Hsem) as (Hdb & Ha & Hdb2).
  assert (HG2 : guar db1 db2 /\ keys_ok db2) by (destruct Hdb as [->| ->]; [split; [apply guar_same|done]|done]).
  destruct HG2 as [HG2 HI2]. assert (Hr2 : rely guar db db2) by (by eapply rtc_r).
  split_and!; [done|done|]. destruct (a_err r) as [e|] eqn:He; [by apply Herr|].
  destruct (Ha He) as (t & id & ->). rewrite (Hdb2 eq_refl) in *. cbn [dbexec fst snd stamped a_n] in *.
  destruct (0 <? affected (stillPending (StateApproval a')) db1)%Z eqn:Hn.
  - apply affected_pos in Hn as (x & Hx & Hsp). pose proof (cas_row _ _ _ _ Hi Ht1 Hid Hrev Hx Hsp) as Hdec.
    destruct (decode_inv _ _ Hdec) as (H1 & _ & H2).
    apply (Hok _ (overwrite x (StateApproval a'))); [done| |by apply decode_overwrite; congruence].
    apply list_elem_of_fmap. exists x. rewrite Hsp. done.
  - pose proof (affected_zero _ _ Hn) as Hno. destruct Ht1 as (r0 & r1 & Hr0 & Hr1 & Hs).
    destruct (decode_inv _ _ Hr0) as (H1 & H2 & H3). pose proof (row_steps_id _ _ Hs) as H4.
    destruct (row_steps_revision _ _ Hs) as [Hle Heq]. pose proof (vstep_pending _ _ Hv) as Hp.
    assert (r_Revision r1 <> r_Revision r0).
    { intros E. rewrite (Heq E) in *. specialize (Hno _ Hr1). unfold stillPending, sameRow in Hno. simpl in Hno.
      rewrite <- H1, <- H2, <- H3, Hid, Hrev, Hp, String.eqb_refl, Z.eqb_refl in Hno. done. }
    apply (Hlost _ r1); [done| |congruence|lia]. apply list_elem_of_fmap. exists r1. by rewrite (Hno _ Hr1).
Qed.

Lemma traced_refl db r a : r ∈ db -> ApprovalFromState r = inr a -> traced db a.
Proof. intros Hr Ha. exists r, r. split_and!; [done|done|apply rtc_refl]. Qed.

(** A read through the adapter: what comes back is in the table. *)
Lemma good_get (Q : A -> list row -> Prop) id k db :
  (forall db' e, rely guar db db' -> good Q (k (inl e)) db') ->
  (forall db', rely guar db db' -> good Q (k (inr None)) db') ->
  (forall db' r a, rely guar db db' -> keys_ok db' -> r ∈ db' -> r_ID r = id -> ApprovalFromState r = inr a ->
    good Q (k (inr (Some a))) db') ->
  good Q (store_Get id k) db.
Proof.
  intros H1 H2 H3. apply good_read; [done|]. intros db' r Hr Hi Ha. destruct (a_err r) as [e|] eqn:He; [by apply H1|].
  destruct (Ha He) as (t & i & ->). cbn [dbexec snd stamped a_rows].
  destruct (filter (fun x => r_ID x = id) db') as [|x l] eqn:E; [by apply H2|].
  assert (Hin : x ∈ filter (fun x => r_ID x = id) db') by (rewrite E; by left).
  apply list_elem_of_filter in Hin as [Hid Hin]. destruct (ApprovalFromState x) eqn:Hd; [by apply H1|]. by eapply H3.
Qed.

Lemma good_observe (Q : A -> list row -> Prop) n a action k db :
  (forall db', rely guar db db' -> good Q k db') -> good Q (observe n a action k) db.
Proof.
  revert db. induction n as [|n IH]; intros db Hk; simpl; [apply Hk, rtc_refl|].
  apply good_read; [done|]. intros db' r Hr _ _. apply IH. intros db'' Hr'. apply Hk. by etransitivity.
Qed.

Lemma good_consult (Q : A -> list row -> Prop) s x action a k db :
  (forall db' d, rely guar db db' -> (forall e, d = Some e -> exists m e1 e2, e = EWrap2 m e1 e2) -> good Q (k d) db') ->
  good Q (consult s x action a k) db.
Proof.
  intros Hk. unfold consult. destruct (svc_guard s).
  - apply good_read; [done|]. intros db' r Hr _ _. apply Hk; [done|]. intros e. destruct (a_err r); [|done]. intros [= <-]. eauto.
  - apply Hk; [apply rtc_refl|done].
Qed.

End actors.

Abbreviation good := (Rely.good sem keys_ok guar).

(** The vote is on record. *)
Definition voted (db : list row) (id x action : string) : Prop :=
  exists r a d, r ∈ db /\ r_ID r = id /\ ApprovalFromState r = inr a /\ d ∈ a_Decisions a /\
    d_Approver d = x /\ d_Action d = action.

Definition atLeast (db : list row) (id : string) (v : Z) : Prop :=
  exists r, r ∈ db /\ r_ID r = id /\ (v <= r_Revision r)%Z.

Lemma voted_rely db db' id x action : voted db id x action -> rely guar db db' -> voted db' id x action.
Proof.
  intros (r & a & d & Hr & Hid & Ha & Hd & Hx) Hrel. destruct (rely_row _ _ _ Hrel Hr) as (r' & Hr' & Hs).
  destruct (row_steps_record _ _ _ Hs Ha) as (a' & Ha' & Hv). exists r', a', d.
  split_and!; [done|by rewrite (row_steps_id _ _ Hs)|done| |naive_solver..].
  destruct (vsteps_decisions _ _ Hv) as [l ->]. apply elem_of_app. by left.
Qed.

Lemma atLeast_rely db db' id v : atLeast db id v -> rely guar db db' -> atLeast db' id v.
Proof.
  intros (r & Hr & Hid & Hv) Hrel. destruct (rely_row _ _ _ Hrel Hr) as (r' & Hr' & Hs).
  exists r'. split_and!; [done|by rewrite (row_steps_id _ _ Hs)|]. destruct (row_steps_revision _ _ Hs). lia.
Qed.

(** What a decision promises: success means the vote is on record; giving up
    means that the record changed under it at every attempt. *)
Definition decided (id x action : string) (existed : Prop) (v : Z) (err : option goerr) (db : list row) : Prop :=
  (err = None -> voted db id x action) /\ (err = Some (conflict id x) -> existed -> atLeast db id v).

Lemma good_refused id x action E v e db :
  e <> conflict id x -> good (decided id x action E v) (Ret (Some e)) db.
Proof. intros He db' _ _. split; [done|]. intros [= ?]. done. Qed.

Lemma recordChecks_conflict a y id x e : recordChecks a y = Some e -> e <> conflict id x.
Proof. unfold recordChecks. repeat case_match; try done; by intros [= <-]. Qed.

Lemma good_decideLoop s n id x action reason target last E db v :
  legalVote action target -> (n = 0 -> last = Some (conflict id x)) -> (E -> atLeast db id v) ->
  good (decided id x action E (v + Z.of_nat n)) (decideLoop s n id x action reason target last) db.
Proof.
  intros Hl. revert last db v. induction n as [|n IH]; intros last db v Hlast Hv; cbn [decideLoop].
  { rewrite (Hlast eq_refl). intros db' Hr _. split; [done|]. intros _ HE. rewrite Z.add_0_r. eapply atLeast_rely; eauto. }
  apply good_get.
  - intros db1 e _. by apply good_refused.
  - intros db1 _. by apply good_refused.
  - intros db1 r a Hr Hk Hin Hid Ha. destruct (canTransition (a_Status a) target) eqn:Hc; cbn [negb]; [|by apply good_refused].
    assert (Hrv : E -> (v <= a_Revision a)%Z).
    { intros HE. destruct (atLeast_rely _ _ _ _ (Hv HE) Hr) as (r' & Hr' & Hid' & Hle).
      rewrite (unique_row _ _ _ Hk Hin Hr') in Ha by congruence. destruct (decode_inv _ _ Ha) as (_ & _ & ->). done. }
    apply good_consult. intros db2 d Hr2 Hd. destruct d as [e|].
    { apply good_refused. destruct (Hd e eq_refl) as (? & ? & ? & ->). done. }
    destruct (recordChecks (withQuorum a) x) as [e|] eqn:Hchk; [by eapply good_refused, recordChecks_conflict|].
    apply good_read; [done|]. intros db3 t Hr3 _ _.
    apply (good_cas _ a); [|done|done|by apply vs_vote| | |].
    + eapply traced_rely; [by eapply traced_refl|]. by etransitivity.
    + intros db4 e _. by apply good_refused.
    + intros db4 y Hr4 Hy Hdec. apply good_observe. intros db5 Hr5 db6 Hr6 _. split; [|done]. intros _.
      apply (voted_rely db4); [|by etransitivity]. eexists y, _, _. split_and!; [done| |exact Hdec|apply elem_of_app; right; by left|done|done].
      destruct (decode_inv _ _ Hdec) as (<- & _). cbn. destruct (decode_inv _ _ Ha) as (-> & _). done.
    + intros db4 y Hr4 Hy Hyid Hlt. replace (v + Z.of_nat (S n))%Z with ((v + 1) + Z.of_nat n)%Z by lia.
      apply IH; [done|]. intros HE. exists y. split_and!; [done| |specialize (Hrv HE); lia].
      rewrite Hyid. destruct (decode_inv _ _ Ha) as (-> & _). done.
Qed.

(** Every id an expiry pass reports is expired in the table. *)
Definition expired_in (db : list row) (id : string) : Prop := exists r, r ∈ db /\ r_ID r = id /\ r_Status r = StatusExpired.

Lemma expired_rely db db' id : expired_in db id -> rely guar db db' -> expired_in db' id.
Proof.
  intros (r & Hr & Hid & Hs) Hrel. destruct (rely_row _ _ _ Hrel Hr) as (r' & Hr' & Hst).
  rewrite (row_steps_terminal _ _ Hst) in Hr' by (by rewrite Hs). by exists r.
Qed.

Definition swept (out : list string * option goerr) (db : list row) : Prop := forall id, id ∈ out.1 -> expired_in db id.

Lemma good_expireLoop now pending expired db :
  (forall a, a ∈ pending -> traced db a) -> (forall id, id ∈ expired -> expired_in db id) ->
  good swept (expireLoop now pending expired) db.
Proof.
  revert expired db. induction pending as [|a rest IH]; intros expired db Ht Hx; cbn [expireLoop].
  { intros db' Hr _ id Hin. eapply expired_rely; eauto. }
  destruct (overdue now a) eqn:Ho; cbn [negb]; [|apply IH; [|done]; intros; apply Ht; by right].
  apply (good_cas _ a); [apply Ht; by left|done|done|by eapply vs_expire| | |].
  - intros db' e _ db'' _ _ id Hin. by apply not_elem_of_nil in Hin.
  - intros db' y Hr Hy Hdec. apply IH; [intros b Hb; eapply traced_rely; [apply Ht; by right|done]|].
    intros id [Hin| ->%list_elem_of_singleton]%elem_of_app; [eapply expired_rely; eauto|].
    destruct (decode_inv _ _ Hdec) as (Hi & Hs & _). by exists y.
  - intros db' y Hr _ _ _. apply IH; [intros b Hb; eapply traced_rely; [apply Ht; by right|done]|].
    intros id Hin. eapply expired_rely; eauto.
Qed.

Lemma good_CheckExpiry db : good swept CheckExpiry db.
Proof.
  unfold CheckExpiry, store_ListPending. apply good_read; [done|]. intros db1 r Hr _ Ha.
  destruct (a_err r) as [e|] eqn:He; [intros db' _ _ id Hin; by apply not_elem_of_nil in Hin|].
  apply good_read; [done|]. intros db2 t Hr2 _ _. apply good_expireLoop; [|by intros id ?%not_elem_of_nil].
  intros a Hin. apply list_elem_of_omap in Hin as (y & Hy & Hd). destruct (Ha He) as (t' & id & ->).
  cbn [dbexec snd stamped a_rows] in Hy. rewrite merge_sort_Permutation in Hy. apply list_elem_of_filter in Hy as [_ Hy].
  destruct (ApprovalFromState y) as [|a'] eqn:Hdec; simplify_eq. eapply traced_rely; [by eapply traced_refl|done].
Qed.


(** A created record is in the table, whatever became of it since. *)
Definition created (res : goerr + Approval) (db : list row) : Prop :=
  forall a, res = inr a -> exists r a', r ∈ db /\ ApprovalFromState r = inr a' /\ rtc vstep a a'.

Lemma roundtrip a : ApprovalFromState (StateApproval a) = inr a.
Proof. unfold ApprovalFromState, StateApproval. simpl. rewrite expiry_roundtrip. by destruct a. Qed.

Lemma create_guar db r : keys_ok db -> fresh_row r -> guar db (dbexec db (SCreateApproval r)).1 /\ keys_ok (dbexec db (SCreateApproval r)).1.
Proof.
  intros Hk Hf. simpl. destruct (existsb (sameRow r) db) eqn:E; [split; [apply guar_same|done]|]. simpl. split.
  - exists db, [r]. split_and!; [done| |by repeat constructor]. apply Forall_Forall2_diag, Forall_true. by left.
  - unfold keys_ok. rewrite map_app. apply NoDup_app. split_and!; [done| |apply NoDup_singleton].
    intros i Hi. simpl. rewrite list_elem_of_singleton. intros ->. apply list_elem_of_fmap in Hi as (x & Hx & Hin).
    apply not_true_iff_false in E. apply E. apply existsb_elem. exists x. split; [done|]. by apply String.eqb_eq.
Qed.

Lemma good_insert a db :
  a_Status a = StatusPending -> a_Decisions a = [] -> (1 <= a_MinApprovers a)%Z ->
  good created (Ask (SCreateApproval (StateApproval a)) (fun r =>
    Ret match a_err r with Some e => inl (EWrap "approval: create" e) | None => inr a end)) db.
Proof.
  intros Hs Hd Hm db1 Hr Hk db2 r Hsem.
  destruct (create_guar db1 (StateApproval a) Hk) as [HG HK]; [exists a; rewrite roundtrip; done|].
  destruct (sem_inv _ _ _ _ Hsem) as (Hdb & Ha & Hok).
  split_and!; [destruct Hdb as [->| ->]; [apply guar_same|done]|by destruct Hdb as [->| ->]|].
  intros db3 Hr3 _ b. destruct (a_err r) as [e|] eqn:He; [done|]. intros [= <-]. rewrite (Hok eq_refl) in *.
  destruct (Ha He) as (t & id & ->). simpl in He.
  destruct (existsb (sameRow (StateApproval a)) db1) eqn:E; [done|].
  destruct (rely_row _ db3 (StateApproval a) Hr3) as (r' & Hr' & Hst).
  { simpl. rewrite E. apply elem_of_app. right. by left. }
  destruct (row_steps_record _ _ _ Hst (roundtrip a)) as (a' & Ha' & Hv). eauto.
Qed.

Lemma good_Create s req db : good created (Create s req) db.
Proof.
  assert (Herr : forall e db, good created (Ret (inl e)) db) by (by intros e db' ? _ _ a).
  unfold Create. destruct (String.eqb _ _); [apply Herr|]. destruct (IsLevel _); cbn [negb]; [|apply Herr].
  destruct (_ && _); [apply Herr|]. apply good_read; [done|]. intros db1 t _ _ _.
  pose proof (quorum_pos (cq_MinApprovers req)). destruct (String.eqb _ _); [|by apply good_insert].
  apply good_read; [done|]. intros db2 r _ _ _. destruct (a_err r); [apply Herr|]. by apply good_insert.
Qed.

(** Settled records read back by the sweeper. *)
Definition anyOutcome {A} (_ : A) (_ : list row) : Prop := True.

Lemma good_readBack ids acc db : good anyOutcome (readBack ids acc) db.
Proof.
  revert acc db. induction ids as [|id ids IH]; intros acc db; [done|]. apply good_get; intros; apply IH.
Qed.

Lemma good_SweepOnce cb db : good anyOutcome (SweepOnce cb) db.
Proof.
  apply good_bind. eapply good_mono; [|apply good_CheckExpiry]. intros [ids [e|]] db' _; [by destruct ids|].
  destruct ids as [|id ids]; [done|]. apply good_bind. eapply good_mono; [|apply good_readBack].
  intros l db'' _. destruct l as [|a l]; [done|]. destruct cb; [|done]. apply good_read; [done|]. done.
Qed.

(** ** The system *)

Inductive actor :=
| AApprove (id approver : string)
| AReject (id approver reason : string)
| ACreate (req : CreateRequest)
| AExpire
| ASweep (onExpired : bool).

Inductive outcome :=
| OVote (err : option goerr)
| OCreate (res : goerr + Approval)
| OExpire (out : list string * option goerr)
| OSweep (out : list Approval * option goerr).

Definition actorProg (s : Service) (a : actor) : op outcome :=
  match a with
  | AApprove id x => pbind (Approve s id x) (fun e => Ret (OVote e))
  | AReject id x reason => pbind (Reject s id x reason) (fun e => Ret (OVote e))
  | ACreate req => pbind (Create s req) (fun r => Ret (OCreate r))
  | AExpire => pbind CheckExpiry (fun r => Ret (OExpire r))
  | ASweep cb => pbind (SweepOnce cb) (fun r => Ret (OSweep r))
  end.

(** What an actor started on table [db0] promises. *)
Definition promise (db0 : list row) (a : actor) (o : outcome) (db : list row) : Prop :=
  match a, o with
  | AApprove id x, OVote err => forall v, decided id x ActionApprove (atLeast db0 id v) (v + Z.of_nat casMaxAttempts) err db
  | AReject id x _, OVote err => forall v, decided id x ActionReject (atLeast db0 id v) (v + Z.of_nat casMaxAttempts) err db
  | ACreate _, OCreate res => created res db
  | AExpire, OExpire out => swept out db
  | ASweep _, OSweep _ => True
  | _, _ => False
  end.

Lemma good_all {A B} (v0 : B) (Q : B -> A -> list row -> Prop) p db :
  (forall v, good (Q v) p db) -> good (fun a db => forall v, Q v a db) p db.
Proof.
  revert db. induction p as [a|c k IH]; simpl; intros db H; [by intros db' Hr Hi v; apply H|].
  intros db' Hr Hi db'' r Hs. destruct (H v0 db' Hr Hi db'' r Hs) as (HG & HI & _). split_and!; [done|done|].
  apply IH. intros v. by apply (H v db' Hr Hi db'' r Hs).
Qed.

Lemma good_return {A} (Q : A -> list row -> Prop) (P : outcome -> list row -> Prop) (f : A -> outcome) p db :
  good Q p db -> (forall a db, Q a db -> P (f a) db) -> good P (pbind p (fun a => Ret (f a))) db.
Proof.
  revert db. induction p as [a|c k IH]; simpl; intros db Hp HP db' Hr Hi; [auto|].
  intros db'' r Hs. destruct (Hp db' Hr Hi db'' r Hs) as (? & ? & ?). auto.
Qed.

Lemma good_actor s db a : good (promise db a) (actorProg s a) db.
Proof.
  destruct a as [id x|id x reason|req| |cb]; cbn [actorProg].
  - eapply (good_return _ _ OVote); [apply (good_all 0%Z); intros v; apply (good_decideLoop s casMaxAttempts id x ActionApprove "" StatusApproved None (atLeast db id v) db v); [by left|done|done]|done].
  - eapply (good_return _ _ OVote); [apply (good_all 0%Z); intros v; apply (good_decideLoop s casMaxAttempts id x ActionReject reason StatusRejected None (atLeast db id v) db v); [by right|done|done]|done].
  - eapply (good_return _ _ OCreate); [apply good_Create|done].
  - eapply (good_return _ _ OExpire); [apply good_CheckExpiry|done].
  - eapply (good_return _ _ OSweep); [apply good_SweepOnce|done].
Qed.

(** A run of the actors from table [db]. *)
Definition reaches (s : Service) (actors : list actor) (db : list row) (ths : list (op outcome)) (db' : list row) : Prop :=
  rtc (step sem) (map (actorProg s) actors, db) (ths, db').

Lemma reaches_ok s actors db ths db' :
  keys_ok db -> reaches s actors db ths db' ->
  rely guar db db' /\ keys_ok db' /\
  (forall i a o, actors !! i = Some a -> ths !! i = Some (Ret o) -> promise db a o db').
Proof.
  intros Hk Hr. assert (Hok : system_ok sem keys_ok guar (map (promise db) actors) (map (actorProg s) actors, db)).
  { split; [done|]. apply Forall2_fmap_2, Forall_Forall2_diag, Forall_true. intros a. apply good_actor. }
  destruct (system_good _ _ _ _ _ _ Hok Hr) as [Hok' Hrel]. split_and!; [done|apply Hok'|].
  intros i a o Ha Ho. apply (system_post _ _ _ _ (ths, db') i (promise db a) o Hok'); [|done].
  rewrite list_lookup_fmap, Ha. done.
Qed.


(** ** Undisturbed operation *)

(** The operation runs alone, at time [now]; [newID] draws [id]; the decision guard
    answers [deny]. *)
Fixpoint exec {A} (p : op A) (now : Z) (id : string) (deny : option goerr) (db : list row) : A * list row :=
  match p with
  | Ret a => (a, db)
  | Ask s k =>
      let out := dbexec db s in
      let err := match s with SAuthorizeDecision _ _ _ => deny | _ => a_err out.2 end in
      exec (k (MkAns err (a_rows out.2) (a_n out.2) now id)) now id deny out.1
  end.

(** Why a vote on [a] is refused, in the order of the checks. *)
Definition refusal (s : Service) (deny : option goerr) (a : Approval) (x action target : string) : option goerr :=
  if negb (String.eqb (a_Status a) StatusPending)
  then Some (EWrap (a_Status a +:+ " -> " +:+ target) (ESentinel ErrInvalidTransition))
  else match (if svc_guard s then deny else None) with
       | Some e => Some (EWrap2 (action +:+ " " +:+ x +:+ " on " +:+ a_RunID a) (ESentinel ErrDecisionDenied) e)
       | None => recordChecks a x
       end.

Lemma get_row db id r : keys_ok db -> r ∈ db -> r_ID r = id -> filter (fun x => r_ID x = id) db = [r].
Proof.
  intros Hk Hr Hid. assert (Hall : forall y, y ∈ filter (fun x => r_ID x = id) db -> y = r).
  { intros y [Hy Hin]%list_elem_of_filter. apply (unique_row db); [done|done|done|congruence]. }
  assert (Hin : r ∈ filter (fun x => r_ID x = id) db) by (by apply list_elem_of_filter).
  assert (Hnd : NoDup (filter (fun x => r_ID x = id) db)) by (apply NoDup_filter; by eapply NoDup_fmap_1).
  destruct (filter _ db) as [|y [|z l]]; [by apply not_elem_of_nil in Hin|f_equal; apply Hall; by left|exfalso].
  apply NoDup_cons in Hnd as [Hn _]. apply Hn. rewrite (Hall y), (Hall z) by set_solver. by left.
Qed.

Lemma exec_observe {A} n a action (k : op A) now id deny db : exec (observe n a action k) now id deny db = exec k now id deny db.
Proof. by induction n. Qed.

Lemma recordChecks_quorum a x : recordChecks (withQuorum a) x = recordChecks a x.
Proof. done. Qed.

(** One attempt, undisturbed. *)
Lemma exec_decideLoop s n id x action reason target last now nid deny db r a :
  keys_ok db -> r ∈ db -> r_ID r = id -> ApprovalFromState r = inr a -> legalVote action target ->
  exec (decideLoop s (S n) id x action reason target last) now nid deny db =
  match refusal s deny a x action target with
  | Some e => (Some e, db)
  | None => let v := StateApproval (castVote (withQuorum a) x action reason now target) in
            (None, map (fun y => if String.eqb (r_ID y) id then overwrite y v else y) db)
  end.
Proof.
  intros Hk Hr Hid Ha Hl. destruct (decode_inv _ _ Ha) as (H1 & H2 & H3).
  assert (Hleg : canTransition (a_Status a) target = String.eqb (a_Status a) StatusPending).
  { unfold canTransition. destruct Hl as [[_ ->]|[_ ->]]; by destruct (String.eqb (a_Status a) StatusPending). }
  cbn [decideLoop]. unfold store_Get. cbn [exec dbexec fst snd a_err a_rows a_n]. rewrite (get_row _ _ _ Hk Hr Hid).
  cbn [a_rows]. rewrite Ha, Hleg. unfold refusal. destruct (String.eqb_spec (a_Status a) StatusPending) as [Hp|]; [cbn [negb]|done].
  assert (Hmain : exec (match recordChecks (withQuorum a) x with
     | Some e => Ret (Some e)
     | None => Ask SNow (fun t => store_UpdateIfPending (castVote (withQuorum a) x action reason (a_time t) target) (fun ok =>
         match ok with
         | inl e => Ret (Some (EWrap "approval: update if pending" e))
         | inr true => observe (svc_observers s) (castVote (withQuorum a) x action reason (a_time t) target) action (Ret None)
         | inr false => decideLoop s n id x action reason target (Some (conflict id x))
         end))
     end) now nid deny db = match recordChecks a x with
       | Some e => (Some e, db)
       | None => let v := StateApproval (castVote (withQuorum a) x action reason now target) in
            (None, map (fun y => if String.eqb (r_ID y) id then overwrite y v else y) db)
       end).
  { rewrite recordChecks_quorum. destruct (recordChecks a x); [done|]. unfold store_UpdateIfPending.
    cbn [exec dbexec fst snd a_err a_rows a_n a_time]. set (v := StateApproval _).
    assert (Hg : forall y, y ∈ db -> stillPending v y = String.eqb (r_ID y) id).
    { intros y Hy. unfold stillPending, sameRow. cbn. rewrite H1, Hid. destruct (String.eqb_spec (r_ID y) id) as [Hyi|]; [|done].
      assert (y = r) as -> by (apply (unique_row db); [done|done|done|congruence]).
      by rewrite <- H2, Hp, H3, Z.eqb_refl. }
    assert (Hup : update (stillPending v) v db = map (fun y => if String.eqb (r_ID y) id then overwrite y v else y) db).
    { apply list_fmap_ext. intros i y Hy. rewrite Hg; [done|]. by eapply list_elem_of_lookup_2. }
    assert (Hpos : (0 <? affected (stillPending v) db)%Z = true).
    { destruct (0 <? affected (stillPending v) db)%Z eqn:E; [done|]. pose proof (affected_zero _ _ E r Hr) as Hz.
      rewrite Hg in Hz by done. by rewrite Hid, String.eqb_refl in Hz. }
    rewrite Hpos, Hup, exec_observe. done. }
  unfold consult. destruct (svc_guard s); [|exact Hmain]. cbn [exec dbexec fst snd a_err]. destruct deny as [e|]; [done|exact Hmain].
Qed.

(** ** Theorems *)

(** A chain survives its row. Encoding an approval into the row of the
    approvals table and decoding it gives the approval back, every field of it. *)
Theorem approval_row_roundtrip (a : Approval) : ApprovalFromState (StateApproval a) = inr a.
Proof. apply roundtrip. Qed.

(** C37: the concurrent service refines the approval state machine. However votes,
    creations, expiry passes and sweeps interleave, statement by statement and
    with statements failing, the record of every row evolves by steps of the
    state machine, and every row that appeared began as a pending record without
    votes. *)
Theorem approvals_refine_machine (s : Service) (actors : list actor) (db db' : list row) (ths : list (op outcome))
    (Hk : keys_ok db) (H : reaches s actors db ths db') :
  keys_ok db' /\
  (forall r a, r ∈ db -> ApprovalFromState r = inr a ->
     exists r' a', r' ∈ db' /\ r_ID r' = r_ID r /\ ApprovalFromState r' = inr a' /\ rtc vstep a a') /\
  (forall r', r' ∈ db' -> (exists r, r ∈ db /\ r_ID r = r_ID r') \/
     exists a0 a', a_Status a0 = StatusPending /\ a_Decisions a0 = [] /\ (1 <= a_MinApprovers a0)%Z /\
       ApprovalFromState r' = inr a' /\ rtc vstep a0 a').
Proof.
  destruct (reaches_ok _ _ _ _ _ Hk H) as (Hr & Hk' & _). split_and!; [done| |].
  - intros r a Hin Ha. destruct (rely_row _ _ _ Hr Hin) as (r' & Hin' & Hs).
    destruct (row_steps_record _ _ _ Hs Ha) as (a' & Ha' & Hv). exists r', a'. split_and!; [done|by apply row_steps_id|done|done].
  - intros r' Hin. destruct (rely_table _ _ Hr) as (olds & news & -> & Hf & Hn). apply elem_of_app in Hin as [Hin|Hin].
    + left. apply list_elem_of_lookup in Hin as [i Hi]. destruct (Forall2_lookup_r _ _ _ _ _ Hf Hi) as (r & Hr' & Hs).
      exists r. split; [by eapply list_elem_of_lookup_2|]. symmetry. by apply row_steps_id.
    + right. rewrite Forall_forall in Hn. destruct (Hn _ Hin) as (r0 & (a0 & Ha0 & ? & ? & ?) & Hs).
      destruct (row_steps_record _ _ _ Hs Ha0) as (a' & Ha' & Hv). exists a0, a'. done.
Qed.

(** C38: approval takes a quorum. From a table of well-formed records, however the
    actors interleave, every record stays well formed: an approved record has at
    least its quorum of approving votes and no veto, by distinct approvers that
    are on its list and none of whom is the initiator it excludes; a rejected one
    has a veto; a pending or expired one has neither. *)
Theorem approved_has_quorum (s : Service) (actors : list actor) (db db' : list row) (ths : list (op outcome))
    (Hk : keys_ok db) (Hok : forall r a, r ∈ db -> ApprovalFromState r = inr a -> record_ok a)
    (H : reaches s actors db ths db') (r' : row) (a' : Approval) (Hr : r' ∈ db') (Ha : ApprovalFromState r' = inr a') :
  record_ok a'.
Proof.
  destruct (reaches_ok _ _ _ _ _ Hk H) as (Hrel & Hk' & _).
  destruct (rely_table _ _ Hrel) as (olds & news & -> & Hf & Hn). apply elem_of_app in Hr as [Hin|Hin].
  - apply list_elem_of_lookup in Hin as [i Hi]. destruct (Forall2_lookup_r _ _ _ _ _ Hf Hi) as (r & Hi' & Hs).
    apply list_elem_of_lookup_2 in Hi'. destruct (ApprovalFromState r) as [e|a] eqn:Hdec.
    + assert (r' = r) as ->; [|congruence]. clear -Hs Hdec. induction Hs as [|x y z Hxy _ IH]; [done|].
      destruct Hxy as [->|(b & b' & Hb & _)]; [auto|congruence].
    + destruct (row_steps_record _ _ _ Hs Hdec) as (b & Hb & Hv). rewrite Ha in Hb. injection Hb as <-.
      eapply vsteps_ok; eauto.
  - rewrite Forall_forall in Hn. destruct (Hn _ Hin) as (r0 & (a0 & Ha0 & ? & ? & ?) & Hs).
    destruct (row_steps_record _ _ _ Hs Ha0) as (b & Hb & Hv). rewrite Ha in Hb. injection Hb as <-.
    eapply vsteps_ok; [exact Hv|]. by apply record_ok_fresh.
Qed.

(** A settled record is final. A row that is approved, rejected or expired is
    in the table unchanged, revision included, whatever votes and expiry passes
    run. *)
Theorem settled_is_final (s : Service) (actors : list actor) (db db' : list row) (ths : list (op outcome))
    (Hk : keys_ok db) (H : reaches s actors db ths db') (r : row) (Hr : r ∈ db) (Hs : r_Status r <> StatusPending) :
  r ∈ db'.
Proof.
  destruct (reaches_ok _ _ _ _ _ Hk H) as (Hrel & _). destruct (rely_row _ _ _ Hrel Hr) as (r' & Hr' & Hst).
  by rewrite (row_steps_terminal _ _ Hst Hs) in Hr'.
Qed.

(** No recorded vote is lost. When a vote has returned success, the record
    holds that approver's decision with that action, and keeps it whatever the
    other actors do; an expiry pass reports only records that are expired. *)
Theorem successful_vote_is_recorded (s : Service) (actors : list actor) (db db' : list row) (ths : list (op outcome))
    (Hk : keys_ok db) (H : reaches s actors db ths db') (i : nat) :
  (forall id x, actors !! i = Some (AApprove id x) -> ths !! i = Some (Ret (OVote None)) -> voted db' id x ActionApprove) /\
  (forall id x reason, actors !! i = Some (AReject id x reason) -> ths !! i = Some (Ret (OVote None)) -> voted db' id x ActionReject) /\
  (forall ids err, actors !! i = Some AExpire -> ths !! i = Some (Ret (OExpire (ids, err))) ->
     forall id, id ∈ ids -> expired_in db' id).
Proof.
  destruct (reaches_ok _ _ _ _ _ Hk H) as (_ & _ & Hp). split_and!.
  - intros id x Ha Ho. by apply (Hp _ _ _ Ha Ho 0%Z).
  - intros id x reason Ha Ho. by apply (Hp _ _ _ Ha Ho 0%Z).
  - intros ids err Ha Ho id Hin. by apply (Hp _ _ _ Ha Ho).
Qed.

(** Giving up means contention. A vote answers with a conflict only if the
    record was changed by others at least once per attempt: its revision is at
    least four above the one it had at the start. *)
Theorem conflict_means_contention (s : Service) (actors : list actor) (db db' : list row) (ths : list (op outcome))
    (Hk : keys_ok db) (H : reaches s actors db ths db') (i : nat) (id x : string) (r : row)
    (Ha : actors !! i = Some (AApprove id x) \/ exists reason, actors !! i = Some (AReject id x reason))
    (Ho : ths !! i = Some (Ret (OVote (Some (conflict id x))))) (Hr : r ∈ db) (Hid : r_ID r = id) :
  exists r', r' ∈ db' /\ r_ID r' = id /\ (r_Revision r + 4 <= r_Revision r')%Z.
Proof.
  destruct (reaches_ok _ _ _ _ _ Hk H) as (_ & _ & Hp). assert (Hat : atLeast db id (r_Revision r)) by (exists r; split_and!; [done..|lia]).
  destruct Ha as [Ha|[reason Ha]]; destruct (Hp _ _ _ Ha Ho (r_Revision r)) as [_ Hc]; by apply Hc.
Qed.


(** A vote does exactly this. Undisturbed, a vote on an existing record is
    refused, leaving the table alone, because the record is settled, the policy
    guard denies it, the voter is not on the list, is the excluded initiator, or
    has voted, in that order of precedence; otherwise the decision is appended,
    a veto rejects at once, and the record is approved at the vote that reaches
    its quorum (at least one) and not before. *)
Theorem vote_functional (s : Service) (db : list row) (r : row) (a : Approval) (id x action reason target nid : string)
    (now : Z) (deny : option goerr) (Hk : keys_ok db) (Hr : r ∈ db) (Hid : r_ID r = id)
    (Ha : ApprovalFromState r = inr a) (Hl : legalVote action target) :
  let '(err, db') := exec (service_decide s id x action reason target) now nid deny db in
  err = refusal s deny a x action target /\
  (err <> None -> db' = db) /\
  (err = None ->
     (forall y, y ∈ db -> r_ID y <> id -> y ∈ db') /\
     exists r' a', r' ∈ db' /\ r_ID r' = id /\ ApprovalFromState r' = inr a' /\
       a_Decisions a' = a_Decisions a ++ [MkDecision x action reason now] /\ a_Revision a' = (a_Revision a + 1)%Z /\
       a_Status a' = (if String.eqb action ActionReject then StatusRejected
                      else if (quorum (a_MinApprovers a) <=? countApproves (a_Decisions a) + 1)%Z then StatusApproved
                      else StatusPending)).
Proof.
  unfold service_decide, casMaxAttempts. rewrite (exec_decideLoop s 3 id x action reason target None now nid deny db r a Hk Hr Hid Ha Hl).
  destruct (refusal s deny a x action target) as [e|] eqn:Href; [done|]. cbv zeta. split_and!; [done|done|]. intros _.
  destruct (decode_inv _ _ Ha) as (H1 & H2 & H3). split.
  { intros y Hy Hne. apply list_elem_of_fmap. exists y. split; [|done]. by destruct (String.eqb_spec (r_ID y) id). }
  exists (overwrite r (StateApproval (castVote (withQuorum a) x action reason now target))), (bump (castVote (withQuorum a) x action reason now target)).
  split_and!; [|done|apply decode_overwrite; [exact (eq_sym H1)|exact (eq_sym H3)]|done|done|].
  { apply list_elem_of_fmap. exists r. split; [|done]. by rewrite Hid, String.eqb_refl. }
  unfold refusal in Href. destruct (String.eqb_spec (a_Status a) StatusPending) as [Hp|]; [|done].
  cbn [bump castVote withStatus a_Status withQuorum a_MinApprovers a_Decisions]. rewrite countApproves_snoc, Hp.
  destruct Hl as [[-> ->]|[-> ->]]; done.
Qed.

(** The tiers of a level manager: one configuration each, under its own name. *)
Definition levels_ok (m : LevelManager) : Prop :=
  (forall level, is_Some (m !! level) <-> IsLevel level = true) /\
  (forall level cfg, m !! level = Some cfg -> lc_Level cfg = level).

Lemma levels_new : levels_ok NewLevelManager.
Proof.
  split.
  - intros level. unfold IsLevel, Dsl.IsApprovalLevel. rewrite inSet_spec. unfold NewLevelManager, is_Some.
    repeat setoid_rewrite lookup_insert_Some. setoid_rewrite lookup_empty.
    unfold Dsl.ApprovalLevels, LevelStandard, LevelHigh, LevelEmergency. rewrite !elem_of_cons, elem_of_nil.
    destruct (String.string_dec level Dsl.ApprovalLevelEmergency), (String.string_dec level Dsl.ApprovalLevelHigh),
      (String.string_dec level Dsl.ApprovalLevelStandard); naive_solver.
  - intros level cfg H. unfold NewLevelManager in H.
    repeat (apply lookup_insert_Some in H as [[<- <-]|[_ H]]; [done|]). by apply lookup_empty_Some in H.
Qed.

Lemma levels_set m cfg : levels_ok m -> levels_ok (SetConfig m cfg).1.
Proof.
  intros [H1 H2]. unfold SetConfig. destruct (m !! lc_Level cfg) as [old|] eqn:E; [|done]. split; simpl.
  - intros level. rewrite <- H1, lookup_insert_is_Some. destruct (String.string_dec (lc_Level cfg) level) as [<-|]; [|naive_solver].
    split; [intros _; by exists old|by left].
  - intros level cfg'. rewrite lookup_insert_Some. naive_solver.
Qed.

(** Routing always finds its tier. After any sequence of configuration
    changes, whatever they carry and whether or not they are refused, the manager
    still has exactly the three tiers under their own names, every step is routed
    to a configured tier, emergency first, then irreversible, then standard, and
    reading a tier fails exactly for names that are not tiers. *)
Theorem routing_total (changes : list LevelConfig) (step : LStep) (level : string) :
  let m := foldl (fun m cfg => (SetConfig m cfg).1) NewLevelManager changes in
  map lc_Level (level_All m) = levelOrder /\
  lc_Level (DetermineLevel m step) =
    (if ls_Emergency step then LevelEmergency else if ls_Irreversible step then LevelHigh else LevelStandard) /\
  ((exists e, level_Get m level = inl e) <-> IsLevel level = false).
Proof.
  intros m. assert (Hm : levels_ok m).
  { subst m. generalize levels_new. generalize NewLevelManager. induction changes as [|c l IH]; intros m Hm; simpl; [done|].
    apply IH. by apply levels_set. }
  clearbody m. destruct Hm as [H1 H2].
  assert (Hc : forall l, IsLevel l = true -> lc_Level (configOf m l) = l).
  { intros l [cfg Hl]%H1. unfold configOf. rewrite Hl. simpl. by apply H2. }
  split_and!.
  - unfold level_All, levelOrder. rewrite map_map. simpl. by rewrite !Hc.
  - unfold DetermineLevel. destruct (ls_Emergency step); [by apply Hc|]. by destruct (ls_Irreversible step); apply Hc.
  - unfold level_Get. specialize (H1 level). destruct (m !! level) as [cfg|].
    + rewrite (proj1 H1 (ex_intro _ cfg eq_refl)). split; [by intros [? ?]|done].
    + split; [intros _|by eauto]. apply not_true_iff_false. intros Ht. by destruct (proj2 H1 Ht).
Qed.

(** ** Concrete interleavings *)

(** Thread [i] makes its next call; time 7, ids "new". *)
Definition moveThread (cfg : list (op outcome) * list row) (i : nat) : list (op outcome) * list row :=
  match cfg.1 !! i with
  | Some (Ask c k) => (<[i := k (stamped (dbexec cfg.2 c).2 7 "new")]> cfg.1, (dbexec cfg.2 c).1)
  | _ => cfg
  end.
Definition schedule (s : Service) (actors : list actor) (db : list row) (sched : list nat) : list (op outcome) * list row :=
  foldl moveThread (map (actorProg s) actors, db) sched.

Lemma schedule_reaches s actors db sched :
  reaches s actors db (schedule s actors db sched).1 (schedule s actors db sched).2.
Proof.
  unfold reaches, schedule. generalize (map (actorProg s) actors, db).
  induction sched as [|i sched IH]; intros cfg; simpl; [rewrite <- surjective_pairing; apply rtc_refl|].
  transitivity (moveThread cfg i); [|apply IH]. unfold moveThread. destruct cfg as [ths tbl]. simpl.
  destruct (ths !! i) as [[o|c k]|] eqn:E; [apply rtc_refl| |apply rtc_refl].
  apply rtc_once. econstructor; [exact E|apply sem_ok].
Qed.

Definition record0 (approvers : list string) (min : Z) : Approval :=
  MkApproval "a1" "run-1" "high" StatusPending approvers min [] 1 0 "v2:00" "alice" true 0 "".
Definition table0 (approvers : list string) (min : Z) : list row := [StateApproval (record0 approvers min)].

Lemma table0_keys approvers min : keys_ok (table0 approvers min).
Proof. apply NoDup_singleton. Defined.

Lemma table0_ok approvers min r a : r ∈ table0 approvers min -> ApprovalFromState r = inr a -> record_ok a.
Proof. intros ->%list_elem_of_singleton. rewrite roundtrip. intros [= <-]. by apply record_ok_fresh. Qed.

(** Two votes race: both read, the second writer loses, retries and settles. *)
Definition race : list actor := [AApprove "a1" "bob"; AApprove "a1" "carol"].
Definition raced := schedule NewService race (table0 ["bob"; "carol"; "alice"] 2) [0; 1; 0; 1; 0; 1; 1; 1; 1].

Lemma raced_reaches : reaches NewService race (table0 ["bob"; "carol"; "alice"] 2) raced.1 raced.2.
Proof. apply schedule_reaches. Qed.

Lemma approvals_refine_machine_witness :
  raced.1 = [Ret (OVote None); Ret (OVote None)] /\ map r_Status raced.2 = [StatusApproved] /\ keys_ok raced.2.
Proof.
  split_and!; [vm_compute; reflexivity|vm_compute; reflexivity|].
  exact (proj1 (approvals_refine_machine NewService race (table0 ["bob"; "carol"; "alice"] 2) raced.2 raced.1 (table0_keys _ _) raced_reaches)).
Defined.

Lemma approved_has_quorum_witness :
  exists r a, r ∈ raced.2 /\ ApprovalFromState r = inr a /\ a_Status a = StatusApproved /\ record_ok a.
Proof.
  eexists _, _. match goal with |- ?A /\ ?B /\ _ => assert (H1 : A) by (apply (list_elem_of_lookup_2 _ 0); vm_compute; reflexivity);
    assert (H2 : B) by reflexivity end.
  split_and!; [exact H1|exact H2|reflexivity|].
  exact (approved_has_quorum NewService race _ raced.2 raced.1 (table0_keys _ _) (table0_ok _ _) raced_reaches _ _ H1 H2).
Defined.

Definition settled0 : row := StateApproval (settle (record0 [] 1)).
Lemma settled_is_final_witness : settled0 ∈ (schedule NewService race [settled0] [0; 1]).2.
Proof.
  exact (settled_is_final NewService race [settled0] _ _ (NoDup_singleton _) (schedule_reaches _ _ _ _) settled0
    ltac:(by left) ltac:(by vm_compute)).
Defined.

Lemma successful_vote_is_recorded_witness : voted raced.2 "a1" "carol" ActionApprove.
Proof.
  apply (proj1 (successful_vote_is_recorded NewService race _ raced.2 raced.1 (table0_keys _ _) raced_reaches 1));
    vm_compute; reflexivity.
Defined.

(** Four others vote between the reads and the writes of the first. *)
Definition crowd : list actor := map (AApprove "a1") ["v0"; "v1"; "v2"; "v3"; "v4"].
Definition crowded := schedule NewService crowd (table0 [] 9)
  [0; 0; 1; 1; 1; 0; 0; 0; 2; 2; 2; 0; 0; 0; 3; 3; 3; 0; 0; 0; 4; 4; 4; 0].

Lemma conflict_means_contention_witness :
  crowded.1 !! 0 = Some (Ret (OVote (Some (conflict "a1" "v0")))) /\
  exists r', r' ∈ crowded.2 /\ r_ID r' = "a1" /\ (4 <= r_Revision r')%Z.
Proof.
  assert (H : crowded.1 !! 0 = Some (Ret (OVote (Some (conflict "a1" "v0"))))) by (vm_compute; reflexivity).
  split; [exact H|].
  exact (conflict_means_contention NewService crowd _ crowded.2 crowded.1 (table0_keys _ _) (schedule_reaches _ _ _ _) 0 "a1" "v0"
    (StateApproval (record0 [] 9)) (or_introl eq_refl) H ltac:(by left) eq_refl).
Defined.

Lemma vote_functional_witness :
  let '(err, _) := exec (service_decide NewService "a1" "alice" ActionApprove "" StatusApproved) 7 "" None (table0 ["bob"; "alice"] 2) in
  err = Some (EWrap "alice" (ESentinel ErrInitiatorExcluded)).
Proof.
  refine (proj1 (vote_functional NewService (table0 ["bob"; "alice"] 2) (StateApproval (record0 ["bob"; "alice"] 2))
    (record0 ["bob"; "alice"] 2) "a1" "alice" ActionApprove "" StatusApproved "" 7 None (table0_keys _ _) ltac:(by left) eq_refl eq_refl
    (or_introl (conj eq_refl eq_refl)))).
Defined.

(** ** Observed behaviours *)

(** The kickoff of a new plan expires the pending approvals it scanned without a
    compare-and-set: a veto recorded between its scan and its write is erased,
    decision included. *)
Definition afterVeto : list row :=
  let scanned := table0 ["bob"] 1 in
  let '(_, db) := exec (Reject NewService "a1" "bob" "no") 6 "" None scanned in
  (exec (supersedeLoop scanned) 7 "" None db).2.

Lemma supersede_overwrites_decision :
  (exec (Reject NewService "a1" "bob" "no") 6 "" None (table0 ["bob"] 1)).1 = None /\
  map (fun r => (r_Status r, match ApprovalFromState r with inr a => length (a_Decisions a) | inl _ => 9 end)) afterVeto
    = [(StatusExpired, 0)].
Proof. vm_compute. done. Qed.

(** The highest tier asks for fewer people than the one below it, and only the
    latter keeps the initiator out. *)
Lemma emergency_needs_less_than_high :
  MinApproversFor LevelEmergency = inr 1%Z /\ MinApproversFor LevelHigh = inr 2%Z /\
  ForcesInitiatorExclusion LevelEmergency = false /\ ForcesInitiatorExclusion LevelHigh = true.
Proof. vm_compute. done. Qed.

(** A comment that is not a chain makes the row unreadable. *)
Lemma text_comment_unreadable r s : r_Comment r = CText s -> exists e, ApprovalFromState r = inl e.
Proof. unfold ApprovalFromState. intros ->. eauto. Qed.

End Approval.
