(* ===== verification/Table.v ===== *)
(** * Table: tables keyed by a unique id, read in order

    Facts about SQL tables as lists of rows that several stores share: rows are
    determined by their key, an ordered read by its rows, and a paged read by a
    keyset cursor continues where the page before it stopped. *)

From Stdlib Require Import Lia.
From stdpp Require Import base sets list strings sorting.
From S2P Require Import Prelude.
Open Scope list_scope.

Module Table.

Section keyed.
Context {A K : Type} (key : A -> K).

Lemma same_key (db : list A) x y : NoDup (map key db) -> x ∈ db -> y ∈ db -> key x = key y -> x = y.
Proof.
  induction db as [|z db IH]; simpl; intros Hnd Hx Hy E; [inversion Hx|]. apply NoDup_cons in Hnd as [Hz Hnd].
  assert (Hin : forall w, w ∈ db -> key w ∈ map key db) by (intros; by apply (list_elem_of_fmap_2 key)).
  apply elem_of_cons in Hx as [->|Hx], Hy as [->|Hy]; [done| | |by apply IH].
  - destruct Hz. rewrite E. auto.
  - destruct Hz. rewrite <- E. auto.
Qed.

Lemma key_filter (P : A -> Prop) `{!forall x, Decision (P x)} db : NoDup (map key db) -> NoDup (map key (filter P db)).
Proof. intros Hk. eapply sublist_NoDup; [exact Hk|]. apply (fmap_sublist key), sublist_filter. Qed.

(** A rewrite of the row with one key leaves lists without it alone. *)
Lemma map_other (f : A -> A) k l : (forall x, key x <> k -> f x = x) -> k ∉ map key l -> map f l = l.
Proof.
  intros Hf. induction l as [|x l IH]; simpl; intros H; [done|]. rewrite IH by set_solver. f_equal. apply Hf. set_solver.
Qed.
End keyed.

Lemma Forall2_map_diag {A} (R : A -> A -> Prop) (f : A -> A) l : (forall x, x ∈ l -> R x (f x)) -> Forall2 R l (map f l).
Proof. induction l as [|x l IH]; simpl; intros H; constructor; [apply H; left|apply IH; intros; apply H; by right]. Qed.

(** ** Ordered reads *)

Section ordered.
Context {A : Type} (R : relation A) `{!forall x y, Decision (R x y)} `{!Transitive R} `{!Total R}.

(** No two rows of the list are in a tie. *)
Definition strict (l : list A) : Prop := forall x y, x ∈ l -> y ∈ l -> R x y -> R y x -> x = y.

Lemma sort_unique l l' : strict l -> StronglySorted R l' -> l' ≡ₚ l -> merge_sort R l = l'.
Proof using All.
  intros Hs Hl' Hp. apply (StronglySorted_unique_strong R).
  - intros x y Hx Hy. rewrite merge_sort_Permutation in Hx. rewrite Hp in Hy. by apply Hs.
  - by apply StronglySorted_merge_sort.
  - done.
  - by rewrite merge_sort_Permutation, Hp.
Qed.

Lemma filter_sorted (P : A -> Prop) `{!forall x, Decision (P x)} l : StronglySorted R l -> StronglySorted R (filter P l).
Proof using Type.
  induction 1 as [|x l Hl IH Hx]; [constructor|]. rewrite filter_cons. case_decide; [|done]. constructor; [done|].
  apply Forall_forall. intros y Hy. apply list_elem_of_filter in Hy as [_ Hy]. rewrite Forall_forall in Hx. auto.
Qed.

Lemma sort_filter (P : A -> Prop) `{!forall x, Decision (P x)} l :
  strict l -> merge_sort R (filter P l) = filter P (merge_sort R l).
Proof using All.
  intros Hs. apply sort_unique.
  - intros x y Hx Hy. apply list_elem_of_filter in Hx as [_ Hx], Hy as [_ Hy]. by apply Hs.
  - by apply filter_sorted, StronglySorted_merge_sort.
  - by rewrite merge_sort_Permutation.
Qed.

(** The rows strictly after [x] are what follows it. *)
Lemma after_cursor (l1 l2 : list A) x :
  strict (l1 ++ x :: l2) -> NoDup (l1 ++ x :: l2) -> StronglySorted R (l1 ++ x :: l2) ->
  filter (fun y => ~ R y x) (l1 ++ x :: l2) = l2.
Proof using All.
  intros Hs Hnd Hsort. apply StronglySorted_app in Hsort as (H12 & _ & Hsort). apply StronglySorted_cons in Hsort as [Hx _].
  rewrite filter_app, filter_cons_False by (intros Hn; apply Hn; by destruct (total R x x)).
  assert (filter (fun y => ~ R y x) l1 = []) as ->.
  { assert (Hb : forall y, y ∈ l1 -> R y x) by (intros; apply H12; set_solver). clear -Hb.
    induction l1 as [|y l1 IH]; [done|]. rewrite filter_cons_False; [apply IH; intros; apply Hb; by right|].
    intros Hn. apply Hn, Hb. left. }
  simpl. assert (Ha : forall y, y ∈ l2 -> ~ R y x).
  { intros y Hy Hyx. rewrite Forall_forall in Hx. assert (y = x) as -> by (apply Hs; [set_solver|set_solver|done|auto]).
    apply NoDup_app in Hnd as (_ & _ & Hnd). by apply NoDup_cons in Hnd as [Hnd _]. }
  clear -Ha. induction l2 as [|y l2 IH]; [done|]. rewrite filter_cons_True by (apply Ha; left). f_equal. apply IH. intros; apply Ha; by right.
Qed.
End ordered.

End Table.
