(* ===== verification/Sha256.v ===== *)
(** * Sha256: the digests of the audit trail

    SHA-256 (FIPS 180-4), HMAC-SHA256 (RFC 2104) and lower-case hexadecimal, the
    functions of Go's crypto/sha256, crypto/hmac and encoding/hex the audit code
    calls. Bytes are integers in [0, 255]; words are integers modulo 2^32. *)

From Stdlib Require Import ZArith Lia Ascii String.
From stdpp Require Import base list strings.
From S2P Require Import Prelude.
Open Scope list_scope.
Local Open Scope Z_scope.

Module Sha256.

Definition w32 (z : Z) : Z := Z.land z 4294967295.
Definition rotr (n x : Z) : Z := w32 (Z.lor (Z.shiftr x n) (Z.shiftl x (32 - n))).
Definition not32 (x : Z) : Z := Z.lxor x 4294967295.

Definition Ch (x y z : Z) : Z := Z.lxor (Z.land x y) (Z.land (not32 x) z).
Definition Maj (x y z : Z) : Z := Z.lxor (Z.lxor (Z.land x y) (Z.land x z)) (Z.land y z).
Definition Sigma0 (x : Z) : Z := Z.lxor (Z.lxor (rotr 2 x) (rotr 13 x)) (rotr 22 x).
Definition Sigma1 (x : Z) : Z := Z.lxor (Z.lxor (rotr 6 x) (rotr 11 x)) (rotr 25 x).
Definition sigma0 (x : Z) : Z := Z.lxor (Z.lxor (rotr 7 x) (rotr 18 x)) (Z.shiftr x 3).
Definition sigma1 (x : Z) : Z := Z.lxor (Z.lxor (rotr 17 x) (rotr 19 x)) (Z.shiftr x 10).

(** The constants of the standard: the first 32 bits of the fractional part of the
    cube roots of the first 64 primes, and of the square roots of the first 8. *)
Fixpoint rootBits (k x : Z) (bit : nat) (r : Z) : Z :=
  match bit with
  | O => r
  | S bit =>
      let r' := r + 2 ^ Z.of_nat bit in
      rootBits k x bit (if r' ^ k <=? x then r' else r)
  end.
Definition rootFraction (k p : Z) : Z := w32 (rootBits k (Z.shiftl p (32 * k)) 40 0).

Definition isPrime (n : nat) : bool := forallb (fun d => negb (Nat.eqb (n mod d) 0)) (seq 2 (n - 2)).
Definition primes : list Z := Eval vm_compute in map Z.of_nat (List.filter isPrime (seq 2 310)).

Definition K : list Z := Eval vm_compute in map (rootFraction 3) primes.

Record hstate := MkH { ha : Z; hb : Z; hc : Z; hd : Z; he : Z; hf : Z; hg : Z; hh : Z }.

Definition H0 : hstate := Eval vm_compute in
  let r i := rootFraction 2 (nth i primes 0) in
  MkH (r 0%nat) (r 1%nat) (r 2%nat) (r 3%nat) (r 4%nat) (r 5%nat) (r 6%nat) (r 7%nat).

(** [n] bytes of [x], most significant first. *)
Fixpoint bigEndian (n : nat) (x : Z) : list Z :=
  match n with
  | O => []
  | S n => Z.land (Z.shiftr x (8 * Z.of_nat n)) 255 :: bigEndian n x
  end.

(** The 0x80 byte, zeros up to 56 modulo 64, the length in bits. *)
Definition pad (m : list Z) : list Z :=
  let n := Z.of_nat (length m) in
  m ++ 0x80 :: replicate (Z.to_nat ((55 - n) mod 64)) 0 ++ bigEndian 8 (8 * n).

Fixpoint words (bs : list Z) : list Z :=
  match bs with
  | a :: b :: c :: d :: r => Z.lor (Z.lor (Z.shiftl a 24) (Z.shiftl b 16)) (Z.lor (Z.shiftl c 8) d) :: words r
  | _ => []
  end.

(** The message schedule as a sliding window: [win] holds the last sixteen words. *)
Fixpoint schedule (n : nat) (win : list Z) : list Z :=
  match n with
  | O => []
  | S n =>
      match win with
      | w0 :: w =>
          let new := w32 (w0 + sigma0 (nth 0 w 0) + nth 8 w 0 + sigma1 (nth 13 w 0)) in
          w0 :: schedule n (w ++ [new])
      | [] => []
      end
  end.

Definition round (s : hstate) (kw : Z * Z) : hstate :=
  let T1 := hh s + Sigma1 (he s) + Ch (he s) (hf s) (hg s) + kw.1 + kw.2 in
  let T2 := Sigma0 (ha s) + Maj (ha s) (hb s) (hc s) in
  MkH (w32 (T1 + T2)) (ha s) (hb s) (hc s) (w32 (hd s + T1)) (he s) (hf s) (hg s).

Definition compress (s : hstate) (block : list Z) : hstate :=
  let r := fold_left round (zip K (schedule 64 (words block))) s in
  MkH (w32 (ha s + ha r)) (w32 (hb s + hb r)) (w32 (hc s + hc r)) (w32 (hd s + hd r))
      (w32 (he s + he r)) (w32 (hf s + hf r)) (w32 (hg s + hg r)) (w32 (hh s + hh r)).

Fixpoint blocks (n : nat) (bs : list Z) (s : hstate) : hstate :=
  match n with
  | O => s
  | S n => blocks n (drop 64 bs) (compress s (take 64 bs))
  end.

Definition out (s : hstate) : list Z :=
  mjoin (map (bigEndian 4) [ha s; hb s; hc s; hd s; he s; hf s; hg s; hh s]).

(** [sha256.Sum256]. *)
Definition Sum256 (m : list Z) : list Z :=
  let p := pad m in out (blocks (length p / 64) p H0).

(** [hmac.New(sha256.New, key)], written to once and summed. *)
Definition hmacSum (key m : list Z) : list Z :=
  let k := if Nat.ltb 64 (length key) then Sum256 key else key in
  let k64 := k ++ replicate (64 - length k) 0 in
  Sum256 (map (Z.lxor 0x5c) k64 ++ Sum256 (map (Z.lxor 0x36) k64 ++ m)).

(** [[]byte(s)] and [hex.EncodeToString]. *)
Definition bytesOf (s : string) : list Z := map (fun c => Z.of_N (N_of_ascii c)) (list_ascii_of_string s).

Definition hexDigit (d : Z) : ascii := ascii_of_N (Z.to_N (if d <? 10 then 48 + d else 87 + d)).

Definition hexOf (bs : list Z) : string :=
  string_of_list_ascii (mjoin (map (fun b => [hexDigit (Z.shiftr b 4); hexDigit (Z.land b 15)]) bs)).

Lemma bigEndian_length n x : length (bigEndian n x) = n.
Proof. induction n; simpl; [done|]. by f_equal. Qed.

Lemma Sum256_length m : length (Sum256 m) = 32%nat.
Proof. reflexivity. Qed.

Lemma hexOf_length bs : String.length (hexOf bs) = (2 * length bs)%nat.
Proof.
  unfold hexOf. induction bs as [|b bs IH]; [done|].
  change (S (S (String.length (string_of_list_ascii (mjoin (map (fun b => [hexDigit (Z.shiftr b 4); hexDigit (Z.land b 15)]) bs)))))
    = 2 * S (length bs))%nat. rewrite IH. lia.
Qed.

Example sixty_four_primes : length primes = 64%nat.
Proof. reflexivity. Qed.

(** The test vectors of the standards. *)
Example sha256_abc :
  hexOf (Sum256 (bytesOf "abc")) = "ba7816bf8f01cfea414140de5dae2223b00361a396177a9cb410ff61f20015ad"%string.
Proof. vm_compute. reflexivity. Qed.

Example sha256_empty :
  hexOf (Sum256 []) = "e3b0c44298fc1c149afbf4c8996fb92427ae41e4649b934ca495991b7852b855"%string.
Proof. vm_compute. reflexivity. Qed.

Example sha256_two_blocks :
  hexOf (Sum256 (bytesOf "abcdbcdecdefdefgefghfghighijhijkijkljklmklmnlmnomnopnopq"))
  = "248d6a61d20638b8e5c026930c3e6039a33ce45964ff2167f6ecedd419db06c1"%string.
Proof. vm_compute. reflexivity. Qed.

Example hmac_jefe :
  hexOf (hmacSum (bytesOf "Jefe") (bytesOf "what do ya want for nothing?"))
  = "5bdcc146bf60754e6a042426089575c75a003f089d2739839dec58b964ec3843"%string.
Proof. vm_compute. reflexivity. Qed.

End Sha256.
