(* ===== verification/Canonical.v ===== *)
(** * Canonical: what audit digests are computed over

    src/internal/audit/canonical.go: the legacy (V1) and the current (V2) encoding
    of a list of fields, the digest funnel with its optional key, and the content
    of a trace. The encoding theorems at the end carry the tamper evidence of
    Audit: V2 is injective, and no V1 encoding of a trace is a V2 encoding of
    one. *)

From Stdlib Require Import ZArith Lia Ascii String.
From stdpp Require Import base sets list strings pretty.
From S2P Require Import Prelude Sha256.
Open Scope string_scope.
Open Scope list_scope.

Module Canonical.

Definition legacySeparator : string := "|".
Definition minHMACKeyLen : nat := 16.

(** [auditKey]: [raw] is the environment's LEVEE_AUDIT_HMAC_KEY, read once. *)
Definition auditKey (raw : string) : string :=
  if String.eqb raw "" then "" else if Nat.ltb (String.length raw) minHMACKeyLen then "" else raw.

Definition Keyed (raw : string) : bool := Nat.ltb 0 (String.length (auditKey raw)).

Definition digest (raw payload : string) : string :=
  if Keyed raw then Sha256.hexOf (Sha256.hmacSum (Sha256.bytesOf (auditKey raw)) (Sha256.bytesOf payload))
  else Sha256.hexOf (Sha256.Sum256 (Sha256.bytesOf payload)).

(** The builder loop of [canonicalV2]. *)
Fixpoint canonicalV2 (fields : list string) : string :=
  match fields with
  | [] => ""
  | f :: fs => pretty (String.length f) +:+ ":" +:+ f +:+ canonicalV2 fs
  end.

Definition canonicalV1 (fields : list string) : string := String.concat legacySeparator fields.

(** [state.Trace]; the timestamp in nanoseconds of Unix time. *)
Record Trace := MkTrace {
  t_ID : string;
  t_RunID : string;
  t_Event : string;
  t_Actor : string;
  t_Detail : string;
  t_PrevHash : string;
  t_CurrHash : string;
  t_Timestamp : Z;
  t_TenantID : string }.

Definition contentFields (t : Trace) : list string :=
  [t_ID t; t_RunID t; t_Event t; t_Actor t; t_Detail t; pretty (t_Timestamp t)].

Definition ComputeChecksum (raw : string) (t : Trace) : string := digest raw (canonicalV2 (contentFields t)).
Definition legacyChecksum (raw : string) (t : Trace) : string := digest raw (canonicalV1 (contentFields t)).
Definition ComputeHashV2 (raw : string) (t : Trace) (prevHash : string) : string :=
  digest raw (canonicalV2 (prevHash :: contentFields t)).
Definition legacyHash (raw : string) (t : Trace) (prevHash : string) : string :=
  digest raw (canonicalV1 (prevHash :: contentFields t)).

(** ** Lengths and characters *)

Lemma digest_nonempty raw payload : digest raw payload <> "".
Proof.
  assert (H : String.length (digest raw payload) = 64).
  { unfold digest. unfold Sha256.hmacSum. destruct (Keyed raw); by rewrite Sha256.hexOf_length, Sha256.Sum256_length. }
  by intros E; rewrite E in H.
Qed.

Abbreviation chars := list_ascii_of_string.

Lemma chars_app s1 s2 : chars (s1 +:+ s2) = chars s1 ++ chars s2.
Proof. induction s1; simpl; [done|]. by f_equal. Qed.

Lemma chars_inj s1 s2 : chars s1 = chars s2 -> s1 = s2.
Proof. intros H. by rewrite <- (string_of_list_ascii_of_string s1), H, string_of_list_ascii_of_string. Qed.

Lemma chars_length s : length (chars s) = String.length s.
Proof. induction s; simpl; congruence. Qed.

(** Neither of the two structural characters. *)
Definition plain (c : ascii) : Prop := c <> ":"%char /\ c <> "|"%char.

Lemma pretty_char_plain x : plain (pretty_N_char x).
Proof. unfold pretty_N_char, plain. by repeat case_match. Qed.

Lemma pretty_N_go_plain x s : Forall plain (chars s) -> Forall plain (chars (pretty_N_go x s)).
Proof.
  revert s. induction (N.lt_wf_0 x) as [x _ IH]; intros s Hs.
  destruct (decide (x = 0)%N) as [->|]; [by rewrite pretty_N_go_0|].
  rewrite pretty_N_go_step by lia. apply IH; [apply N.div_lt; lia|]. simpl. constructor; [apply pretty_char_plain|done].
Qed.

Lemma pretty_N_plain (x : N) : Forall plain (chars (pretty x)).
Proof.
  unfold pretty, pretty_N. destruct (decide (x = 0)%N); [by repeat constructor|].
  apply pretty_N_go_plain. constructor.
Qed.

Lemma pretty_nat_plain (n : nat) : Forall plain (chars (pretty n)).
Proof. apply pretty_N_plain. Qed.

Lemma pretty_Z_plain (z : Z) : Forall plain (chars (pretty z)).
Proof.
  destruct z as [|p|p]; [by repeat constructor|apply (pretty_N_plain (Npos p))|].
  change (pretty (Z.neg p)) with ("-" +:+ pretty (Npos p)). rewrite chars_app. apply Forall_app.
  split; [by repeat constructor|apply pretty_N_plain].
Qed.

(** The first [c] splits a list in one way. *)
Lemma first_split {A} (c : A) (a b r1 r2 : list A) :
  c ∉ a -> c ∉ b -> a ++ c :: r1 = b ++ c :: r2 -> a = b /\ r1 = r2.
Proof.
  revert b. induction a as [|x a IH]; intros [|y b] Ha Hb E; simplify_eq/=; [done|set_solver|set_solver|].
  destruct (IH b) as [-> ->]; [set_solver|set_solver|done|done].
Qed.

(** The last character of a kind [P] is the same however a list is cut there. *)
Lemma last_special {A} (P : A -> Prop) (a b r1 r2 : list A) c1 c2 :
  P c1 -> P c2 -> Forall (fun x => ~ P x) r1 -> Forall (fun x => ~ P x) r2 ->
  a ++ c1 :: r1 = b ++ c2 :: r2 -> c1 = c2.
Proof.
  intros H1 H2 F1 F2 E. destruct (app_eq_inv _ _ _ _ E) as [(k & -> & Hk)|(k & -> & Hk)].
  - destruct k as [|y k]; simplify_eq/=; [done|]. apply Forall_app in F2 as [_ F]. by inversion F.
  - destruct k as [|y k]; simplify_eq/=; [done|]. apply Forall_app in F1 as [_ F]. by inversion F.
Qed.

(** ** V2 is injective *)

Lemma colon_not_in_length (n : nat) : ":"%char ∉ chars (pretty n).
Proof. intros H. pose proof (pretty_nat_plain n) as F. rewrite Forall_forall in F. by destruct (F _ H). Qed.

Lemma canonicalV2_inj fs gs : canonicalV2 fs = canonicalV2 gs -> fs = gs.
Proof.
  revert gs. induction fs as [|f fs IH]; intros [|g gs] E; simpl in E; [done| | |].
  - by destruct (pretty (String.length g)).
  - by destruct (pretty (String.length f)).
  - apply (f_equal chars) in E. rewrite !chars_app in E. simpl in E.
    apply first_split in E as [Hn Hr]; [|apply colon_not_in_length..].
    apply chars_inj, pretty_nat_inj in Hn. apply app_inj_1 in Hr as [Hf Hrest]; [|by rewrite !chars_length].
    f_equal; [by apply chars_inj|]. by apply IH, chars_inj.
Qed.

(** ** V1 and V2 encodings of traces never meet

    Both end in a decimal timestamp; before it, V1 has the separator and V2 the
    colon. *)

Definition special (c : ascii) : Prop := c = ":"%char \/ c = "|"%char.

Lemma pretty_Z_not_special (z : Z) : Forall (fun c => ~ special c) (chars (pretty z)).
Proof. eapply Forall_impl; [apply pretty_Z_plain|]. unfold plain, special. naive_solver. Qed.

Lemma canonicalV2_end fs (z : Z) : exists a, chars (canonicalV2 (fs ++ [pretty z])) = a ++ ":"%char :: chars (pretty z).
Proof.
  induction fs as [|f fs [a IH]]; simpl.
  - exists (chars (pretty (String.length (pretty z)))). by rewrite !chars_app, app_nil_r.
  - exists (chars (pretty (String.length f)) ++ ":"%char :: chars f ++ a).
    rewrite !chars_app, IH. simpl. by rewrite <- !app_assoc, <- app_comm_cons, <- app_assoc.
Qed.

Lemma canonicalV1_end f fs (z : Z) : exists a, chars (canonicalV1 (f :: fs ++ [pretty z])) = a ++ "|"%char :: chars (pretty z).
Proof.
  revert f. induction fs as [|g fs IH]; intros f; unfold canonicalV1 in *.
  - exists (chars f). simpl. by rewrite !chars_app.
  - destruct (IH g) as [a Ha]. exists (chars f ++ "|"%char :: a).
    change (chars (f +:+ legacySeparator +:+ String.concat legacySeparator (g :: fs ++ [pretty z])) =
            (chars f ++ "|"%char :: a) ++ "|"%char :: chars (pretty z)).
    rewrite !chars_app, Ha. by rewrite <- app_assoc.
Qed.

Lemma encodings_disjoint f fs gs (z z' : Z) :
  canonicalV1 (f :: fs ++ [pretty z]) <> canonicalV2 (gs ++ [pretty z']).
Proof.
  intros E. destruct (canonicalV1_end f fs z) as [a Ha]. destruct (canonicalV2_end gs z') as [b Hb].
  rewrite E, Hb in Ha. apply (last_special special) in Ha; [done|by left|by right|apply pretty_Z_not_special..].
Qed.

(** ** Binding *)

(** A second message with the digest of another one. *)
Definition collision (raw : string) : Prop := exists x y, x <> y /\ digest raw x = digest raw y.

Lemma digest_inj raw x y : digest raw x = digest raw y -> x = y \/ collision raw.
Proof. intros E. destruct (decide (x = y)); [by left|]. right. by exists x, y. Qed.

Lemma hash_binds raw t p t' p' :
  ComputeHashV2 raw t p = ComputeHashV2 raw t' p' -> (p = p' /\ contentFields t = contentFields t') \/ collision raw.
Proof.
  intros E. destruct (digest_inj _ _ _ E) as [H|]; [left|by right]. apply canonicalV2_inj in H.
  exact (conj (f_equal (hd "") H) (f_equal tl H)).
Qed.

Lemma checksum_binds raw t t' :
  ComputeChecksum raw t = ComputeChecksum raw t' -> contentFields t = contentFields t' \/ collision raw.
Proof. intros E. destruct (digest_inj _ _ _ E) as [H|]; [left|by right]. by apply canonicalV2_inj. Qed.

Lemma legacy_apart raw t p t' p' : ComputeHashV2 raw t p = legacyHash raw t' p' -> collision raw.
Proof.
  intros E. destruct (digest_inj _ _ _ E) as [H|]; [exfalso|done]. symmetry in H.
  exact (encodings_disjoint p' [t_ID t'; t_RunID t'; t_Event t'; t_Actor t'; t_Detail t']
    [p; t_ID t; t_RunID t; t_Event t; t_Actor t; t_Detail t] (t_Timestamp t') (t_Timestamp t) H).
Qed.

Lemma legacy_checksum_apart raw t t' : ComputeChecksum raw t = legacyChecksum raw t' -> collision raw.
Proof.
  intros E. destruct (digest_inj _ _ _ E) as [H|]; [exfalso|done]. symmetry in H.
  exact (encodings_disjoint (t_ID t') [t_RunID t'; t_Event t'; t_Actor t'; t_Detail t']
    [t_ID t; t_RunID t; t_Event t; t_Actor t; t_Detail t] (t_Timestamp t') (t_Timestamp t) H).
Qed.

Lemma contentFields_inj t t' :
  contentFields t = contentFields t' <->
  t_ID t = t_ID t' /\ t_RunID t = t_RunID t' /\ t_Event t = t_Event t' /\ t_Actor t = t_Actor t' /\
  t_Detail t = t_Detail t' /\ t_Timestamp t = t_Timestamp t'.
Proof.
  unfold contentFields. split.
  - intros E. injection E as ? ? ? ? ? Ht. apply pretty_Z_inj in Ht. done.
  - intros (-> & -> & -> & -> & -> & ->). done.
Qed.

End Canonical.
