(* ===== verification/TraceChain.v ===== *)
(** * TraceChain: the per-run trace chain, its recorder and the WORM store

    src/internal/audit/hashchain.go, verify.go, trace.go, seal_trace.go and worm.go
    over the trace table of src/internal/state/sqlite.go with its two WORM triggers
    (src/internal/state/schema.sql). Operations are programs of SQL statements, so
    that seals and appends can be interleaved. *)

From Stdlib Require Import ZArith Lia Ascii String.
From stdpp Require Import base gmap sets list strings pretty sorting relations.
From S2P Require Import Prelude Table Concur Rely Sha256 Canonical.
Import Concur Rely Canonical.
Open Scope string_scope.
Open Scope list_scope.

Module TraceChain.

Definition ErrNilStore := "audit: nil store".
Definition ErrEmptyRunID := "audit: empty run id".
Definition ErrEmptyEvent := "audit: empty event".
Definition ErrNoTraces := "audit: no traces found for run".
Definition ErrHashMismatch := "audit: hash mismatch".
Definition ErrInvalidBatchSize := "audit: invalid batch size".
Definition ErrChainAlreadyBuilt := "audit: hash chain already built for run; use BuildForce to override".
Definition ErrChainBroken := "audit: hash chain exists but is broken; manual intervention required".
Definition ErrVerifyFailed := "audit: chain verification failed".
Definition ErrAlreadyExists := "audit: trace already exists".
Definition ErrTampered := "audit: trace tampered: checksum mismatch".
Definition ErrWORMNotFound := "audit: trace not found".
Definition ErrTraceExists := "state: trace already exists".

(** ** The trace table *)

Record TraceFilter := MkTraceFilter {
  tf_RunID : string; tf_Event : string; tf_TenantID : string; tf_Limit : Z; tf_Offset : Z }.

Inductive stmt :=
| SCreateTrace (t : Trace)
| SGetTrace (id : string)
| SUpdateTrace (t : Trace)
| SUpdateTraceChecksum (id checksum : string)
| SUpdateTraceChain (id prev curr : string)
| SListTraces (f : TraceFilter)
| SDeleteTrace (id : string)
| SNow
| SNewID.

Record ans := MkAns { a_err : option goerr; a_rows : list Trace; a_time : Z; a_id : string }.
Definition noAns : ans := MkAns None [] 0 "".
Definition failAns (e : goerr) : ans := MkAns (Some e) [] 0 "".

(** [ORDER BY timestamp ASC, id ASC]. *)
Definition chainOrder (x y : Trace) : Prop :=
  (t_Timestamp x < t_Timestamp y)%Z \/ (t_Timestamp x = t_Timestamp y /\ String.le (t_ID x) (t_ID y)).
#[export] Instance chainOrder_dec : RelDecision chainOrder.
Proof. intros x y. unfold chainOrder. apply _. Defined.

Definition selects (f : TraceFilter) (t : Trace) : bool :=
  (String.eqb (tf_RunID f) "" || String.eqb (t_RunID t) (tf_RunID f)) &&
  (String.eqb (tf_Event f) "" || String.eqb (t_Event t) (tf_Event f)) &&
  (String.eqb (tf_TenantID f) "" || String.eqb (t_TenantID t) (tf_TenantID f)).

(** [LIMIT] and [OFFSET] travel together. *)
Definition window (f : TraceFilter) (l : list Trace) : list Trace :=
  if (0 <? tf_Limit f)%Z
  then take (Z.to_nat (tf_Limit f)) (if (0 <? tf_Offset f)%Z then drop (Z.to_nat (tf_Offset f)) l else l)
  else l.

Definition listTraces (f : TraceFilter) (db : list Trace) : list Trace :=
  window f (merge_sort chainOrder (filter (fun t => selects f t = true) db)).

Definition withHashes (t : Trace) (prev curr : string) : Trace :=
  MkTrace (t_ID t) (t_RunID t) (t_Event t) (t_Actor t) (t_Detail t) prev curr (t_Timestamp t) (t_TenantID t).

Definition stamp (id prev curr : string) (t : Trace) : Trace :=
  if String.eqb (t_ID t) id then withHashes t prev curr else t.

Definition hasID (id : string) (t : Trace) : bool := String.eqb (t_ID t) id.

(** The columns [worm_prevent_trace_update] compares. *)
Definition sameContent (a b : Trace) : bool :=
  String.eqb (t_ID a) (t_ID b) && String.eqb (t_RunID a) (t_RunID b) && String.eqb (t_Event a) (t_Event b) &&
  String.eqb (t_Actor a) (t_Actor b) && String.eqb (t_Detail a) (t_Detail b) &&
  String.eqb (t_TenantID a) (t_TenantID b) && (t_Timestamp a =? t_Timestamp b)%Z.

Definition wormUpdate : goerr := EText "WORM violation: trace content fields cannot be updated".
Definition wormDelete : goerr := EText "WORM violation: trace records cannot be deleted".

Definition dbexec (db : list Trace) (s : stmt) : list Trace * ans :=
  match s with
  | SCreateTrace t =>
      if existsb (hasID (t_ID t)) db
      then (db, failAns (EWrap ("state: create trace " +:+ t_ID t) (ESentinel ErrTraceExists)))
      else (db ++ [t], noAns)
  | SGetTrace id =>
      (db, MkAns None (match filter (fun t => t_ID t = id) db with t :: _ => [t] | [] => [] end) 0 "")
  | SUpdateTrace t =>
      if existsb (hasID (t_ID t)) db
      then if forallb (fun x => negb (hasID (t_ID t) x) || sameContent x t) db
           then (map (stamp (t_ID t) (t_PrevHash t) (t_CurrHash t)) db, noAns)
           else (db, failAns (EWrap ("state: update trace " +:+ t_ID t) wormUpdate))
      else (db, failAns (EText ("state: update trace " +:+ t_ID t +:+ ": not found")))
  | SUpdateTraceChecksum id checksum =>
      if String.eqb id "" then (db, failAns (EText "state: update trace checksum: empty id"))
      else if String.eqb checksum "" then (db, failAns (EText ("state: update trace checksum " +:+ id +:+ ": empty checksum")))
      else if existsb (fun t => hasID id t && String.eqb (t_CurrHash t) "") db
      then (map (fun t => if hasID id t && String.eqb (t_CurrHash t) "" then withHashes t (t_PrevHash t) checksum else t) db, noAns)
      else (db, failAns (EText ("state: update trace checksum " +:+ id +:+ ": not found or checksum already present")))
  | SUpdateTraceChain id prev curr =>
      if existsb (hasID id) db then (map (stamp id prev curr) db, noAns)
      else (db, failAns (EText ("state: update trace chain " +:+ id +:+ ": not found")))
  | SListTraces f => (db, MkAns None (listTraces f db) 0 "")
  | SDeleteTrace id =>
      if existsb (hasID id) db then (db, failAns (EWrap ("state: delete trace " +:+ id) wormDelete)) else (db, noAns)
  | SNow | SNewID => (db, noAns)
  end.

Definition op (A : Type) : Type := prog stmt ans A.

Section audit.
(** The environment's HMAC passphrase. *)
Variable raw : string.

Definition ComputeHash (t : Trace) (prevHash : string) : string := ComputeHashV2 raw t prevHash.

Definition runFilter (runID : string) : TraceFilter := MkTraceFilter runID "" "" 0 0.

(** [ListTraces] by run, with the wrapper's error. *)
Definition ListRun {A} (runID : string) (k : goerr + list Trace -> op A) : op A :=
  Ask (SListTraces (runFilter runID)) (fun r => k match a_err r with Some e => inl e | None => inr (a_rows r) end).

Definition listErr (runID : string) (e : goerr) : goerr := EWrap ("audit: list traces for run " +:+ runID) e.

(** ** HashChainBuilder *)

(** [chainExists]: exists, hasHashes. *)
Definition chainExists {A} (runID : string) (k : goerr + (bool * bool) -> op A) : op A :=
  ListRun runID (fun r => k
    match r with
    | inl e => inl e
    | inr [] => inr (false, false)
    | inr traces => inr (true, existsb (fun t => negb (String.eqb (t_CurrHash t) "")) traces)
    end).

(** The loop of [Verify]: records checked, and the first mismatch. *)
Fixpoint verifyLoop (i : Z) (prevHash : string) (traces : list Trace) : Z * option goerr :=
  match traces with
  | [] => (i, None)
  | t :: rest =>
      if negb (String.eqb (t_PrevHash t) prevHash)
      then (i, Some (EWrap ("audit: trace " +:+ t_ID t +:+ " prev hash mismatch") (ESentinel ErrHashMismatch)))
      else if negb (String.eqb (t_CurrHash t) (ComputeHash t prevHash)) &&
              negb (String.eqb (t_CurrHash t) (legacyHash raw t prevHash))
      then (i, Some (EWrap ("audit: trace " +:+ t_ID t +:+ " curr hash mismatch") (ESentinel ErrHashMismatch)))
      else verifyLoop (i + 1) (t_CurrHash t) rest
  end.

Definition hcb_Verify (runID : string) : op (Z * option goerr) :=
  if String.eqb runID "" then Ret (0%Z, Some (ESentinel ErrEmptyRunID))
  else ListRun runID (fun r =>
    match r with
    | inl e => Ret (0%Z, Some (listErr runID e))
    | inr [] => Ret (0%Z, Some (ESentinel ErrNoTraces))
    | inr traces => Ret (verifyLoop 0 "" traces)
    end).

(** [buildChainWithPrev]: count, tail hash, error. *)
Fixpoint buildChainWithPrev (i : Z) (traces : list Trace) (current : string) : op (Z * string * option goerr) :=
  match traces with
  | [] => Ret (i, current, None)
  | t :: rest =>
      let t' := withHashes t current (ComputeHash t current) in
      Ask (SUpdateTrace t') (fun r =>
        match a_err r with
        | Some e => Ret (i, "", Some (EWrap ("audit: update trace " +:+ t_ID t) e))
        | None => buildChainWithPrev (i + 1) rest (t_CurrHash t')
        end)
  end.

Definition buildChain (traces : list Trace) : op (Z * string * option goerr) := buildChainWithPrev 0 traces "".

Definition failBuild (e : goerr) : Z * string * option goerr := (0%Z, "", Some e).

(** The refusals [Build] and [BuildBatch] share (SA-002), then the fresh listing. *)
Definition guardedBuild (what runID : string) (k : list Trace -> op (Z * string * option goerr)) :
    op (Z * string * option goerr) :=
  chainExists runID (fun ex =>
    match ex with
    | inl e => Ret (failBuild (EWrap ("audit: check chain existence for run " +:+ runID) e))
    | inr (false, _) => Ret (failBuild (ESentinel ErrNoTraces))
    | inr (true, true) =>
        pbind (hcb_Verify runID) (fun v => Ret (failBuild (EWrap (what +:+ runID)
          match v.2 with None => ESentinel ErrChainAlreadyBuilt | Some _ => ESentinel ErrChainBroken end)))
    | inr (true, false) =>
        ListRun runID (fun r =>
          match r with
          | inl e => Ret (failBuild (listErr runID e))
          | inr [] => Ret (failBuild (ESentinel ErrNoTraces))
          | inr traces => k traces
          end)
    end).

Definition Build (runID : string) : op (Z * string * option goerr) :=
  if String.eqb runID "" then Ret (failBuild (ESentinel ErrEmptyRunID))
  else guardedBuild "audit: build chain for run " runID buildChain.

Definition BuildForce (runID : string) : op (Z * string * option goerr) :=
  if String.eqb runID "" then Ret (failBuild (ESentinel ErrEmptyRunID))
  else ListRun runID (fun r =>
    match r with
    | inl e => Ret (failBuild (listErr runID e))
    | inr [] => Ret (failBuild (ESentinel ErrNoTraces))
    | inr traces => buildChain traces
    end).

(** The batch loop; [fuel] bounds the batches, one per record is enough. *)
Fixpoint batchLoop (fuel : nat) (size : nat) (traces : list Trace) (total : Z) (prevHash : string) :
    op (Z * string * option goerr) :=
  match fuel, traces with
  | _, [] => Ret (total, prevHash, None)
  | O, _ => Ret (total, prevHash, None)
  | S fuel, _ =>
      pbind (buildChainWithPrev 0 (take size traces) prevHash) (fun r =>
        let '(n, tail, err) := r in
        match err with
        | Some e => Ret (total, "", Some (EWrap "audit: build batch" e))
        | None => batchLoop fuel size (drop size traces) (total + n) tail
        end)
  end.

Definition BuildBatch (runID : string) (batchSize : Z) : op (Z * string * option goerr) :=
  if String.eqb runID "" then Ret (failBuild (ESentinel ErrEmptyRunID))
  else if (batchSize <=? 0)%Z then Ret (failBuild (ESentinel ErrInvalidBatchSize))
  else guardedBuild "audit: build batch chain for run " runID
         (fun traces => batchLoop (length traces) (Z.to_nat batchSize) traces 0 "").

Record SealResult := MkSealResult { sr_Count : Z; sr_Sealed : Z; sr_TailHash : string }.

Fixpoint sealLoop (runID : string) (count : Z) (traces : list Trace) (prev : string) (sealed : Z) :
    op (SealResult * option goerr) :=
  match traces with
  | [] => Ret (MkSealResult count sealed prev, None)
  | t :: rest =>
      let want := ComputeHash t prev in
      if String.eqb (t_PrevHash t) prev && String.eqb (t_CurrHash t) want then sealLoop runID count rest want sealed
      else if String.eqb (t_CurrHash t) "" then
        Ask (SUpdateTraceChain (t_ID t) prev want) (fun r =>
          match a_err r with
          | Some e => Ret (MkSealResult count sealed "", Some (EWrap ("audit: seal trace " +:+ t_ID t) e))
          | None => sealLoop runID count rest want (sealed + 1)
          end)
      else Ret (MkSealResult count sealed "",
                Some (EWrap ("audit: seal run " +:+ runID +:+ ": record " +:+ t_ID t +:+ " is sealed but does not verify")
                        (ESentinel ErrChainBroken)))
  end.

Definition Seal (runID : string) : op (option SealResult * option goerr) :=
  if String.eqb runID "" then Ret (None, Some (ESentinel ErrEmptyRunID))
  else ListRun runID (fun r =>
    match r with
    | inl e => Ret (None, Some (listErr runID e))
    | inr [] => Ret (None, Some (ESentinel ErrNoTraces))
    | inr traces => pbind (sealLoop runID (Z.of_nat (length traces)) traces "" 0) (fun x => Ret (Some x.1, x.2))
    end).

Definition SealRunTraceChain (runID : string) : op (option goerr) :=
  pbind (Seal runID) (fun x => Ret
    match x.2 with
    | None => None
    | Some e => if errors_Is e ErrNoTraces then None
                else Some (EWrap ("audit: seal trace chain for run " +:+ runID) e)
    end).

(** ** ChainVerifier *)

Inductive FailureType := FailureHashMismatch | FailurePrevHashMismatch | FailureEmptyHash.

Record ChainFailure := MkFailure {
  cf_TraceID : string; cf_Index : Z; cf_Expected : string; cf_Actual : string;
  cf_PrevExpected : string; cf_PrevActual : string; cf_Type : FailureType }.

Record VerifyResult := MkVerifyResult {
  vr_RunID : string; vr_Valid : bool; vr_Count : Z; vr_LegacyCount : Z; vr_Failures : list ChainFailure }.

Definition checkTrace (t : Trace) (index : Z) (prevHash : string) : option ChainFailure :=
  let expected := ComputeHash t prevHash in
  let fail := MkFailure (t_ID t) index expected (t_CurrHash t) prevHash (t_PrevHash t) in
  if String.eqb (t_CurrHash t) "" then Some (fail FailureEmptyHash)
  else if negb (String.eqb (t_PrevHash t) prevHash) then Some (fail FailurePrevHashMismatch)
  else if negb (String.eqb (t_CurrHash t) expected) && negb (String.eqb (t_CurrHash t) (legacyHash raw t prevHash))
  then Some (fail FailureHashMismatch)
  else None.

Fixpoint checkLoop (i : Z) (prevHash : string) (traces : list Trace) (r : VerifyResult) : VerifyResult :=
  match traces with
  | [] => r
  | t :: rest =>
      checkLoop (i + 1) (t_CurrHash t) rest
        match checkTrace t i prevHash with
        | Some f => MkVerifyResult (vr_RunID r) false (vr_Count r) (vr_LegacyCount r) (vr_Failures r ++ [f])
        | None =>
            if negb (String.eqb (t_CurrHash t) (ComputeHash t prevHash))
            then MkVerifyResult (vr_RunID r) (vr_Valid r) (vr_Count r) (vr_LegacyCount r + 1) (vr_Failures r)
            else r
        end
  end.

Definition cv_Verify (runID : string) : op (goerr + VerifyResult) :=
  if String.eqb runID "" then Ret (inl (ESentinel ErrEmptyRunID))
  else ListRun runID (fun r => Ret
    match r with
    | inl e => inl (listErr runID e)
    | inr [] => inl (ESentinel ErrNoTraces)
    | inr traces => inr (checkLoop 0 "" traces (MkVerifyResult runID true (Z.of_nat (length traces)) 0 []))
    end).

Definition VerifyStrict (runID : string) : op (option goerr) :=
  pbind (cv_Verify runID) (fun r => Ret
    match r with
    | inl e => Some e
    | inr v => if negb (vr_Valid v)
               then Some (EWrap ("audit: chain verification failed for run " +:+ vr_RunID v) (ESentinel ErrVerifyFailed))
               else None
    end).

(** ** TraceRecorder *)

Record TraceRecord := MkTraceRecord {
  rec_RunID : string; rec_Event : string; rec_Actor : string;
  rec_detail : goerr + string    (** what [buildDetail] makes of the other fields *) }.

Definition Record_ (record : TraceRecord) : op (goerr + Trace) :=
  if String.eqb (rec_RunID record) "" then Ret (inl (ESentinel ErrEmptyRunID))
  else if String.eqb (rec_Event record) "" then Ret (inl (ESentinel ErrEmptyEvent))
  else
    Ask SNewID (fun r =>
      match a_err r with
      | Some e => Ret (inl (EWrap "audit: generate trace id" e))
      | None =>
          match rec_detail record with
          | inl e => Ret (inl (EWrap "audit: build trace detail" e))
          | inr detail =>
              Ask SNow (fun now =>
                let t := MkTrace (a_id r) (rec_RunID record) (rec_Event record) (rec_Actor record) detail "" "" (a_time now) "" in
                Ask (SCreateTrace t) (fun c =>
                  match a_err c with
                  | Some e => Ret (inl (EWrap "audit: create trace" e))
                  | None => pbind (SealRunTraceChain (t_RunID t)) (fun _ => Ret (inr t))   (* a seal failure is logged *)
                  end))
          end
      end).

Definition ListByRun (runID : string) : op (goerr + list Trace) :=
  ListRun runID (fun r => Ret match r with inl e => inl (EWrap ("audit: list traces by run " +:+ runID) e) | inr l => inr l end).

(** [newID]: [last] is [idClock.last], [ns] the clock, [rnd] eight random bytes. *)
Definition newID (last ns : Z) (rnd : list Z) : Z * string :=
  let ns := if (ns <=? last)%Z then wrap64 (last + 1) else ns in
  (ns, Sha256.hexOf (Sha256.bigEndian 8 (ns mod 2 ^ 64) ++ rnd)).

(** ** WORMStore *)

Definition verifyChecksum (t : Trace) : bool :=
  String.eqb (t_CurrHash t) (ComputeChecksum raw t) || String.eqb (t_CurrHash t) (legacyChecksum raw t).

Definition appendErr (id : string) (e : goerr) : goerr := EWrap ("audit: append trace " +:+ id) e.

Definition Append (trace : option Trace) : op (option goerr) :=
  match trace with
  | None => Ret (Some (EText "audit: append trace: nil trace"))
  | Some t =>
      if String.eqb (t_ID t) "" then Ret (Some (EText "audit: append trace: empty id"))
      else
        Ask (SGetTrace (t_ID t)) (fun g =>
          match a_err g, a_rows g with
          | Some e, _ => Ret (Some (appendErr (t_ID t) e))
          | None, _ :: _ => Ret (Some (appendErr (t_ID t) (ESentinel ErrAlreadyExists)))
          | None, [] =>
              Ask (SCreateTrace (withHashes t (t_PrevHash t) (ComputeChecksum raw t))) (fun c => Ret
                match a_err c with
                | Some e => Some (appendErr (t_ID t) (if errors_Is e ErrTraceExists then ESentinel ErrAlreadyExists else e))
                | None => None
                end)
          end)
  end.

Definition Read (id : string) : op (goerr + Trace) :=
  Ask (SGetTrace id) (fun r => Ret
    match a_err r, a_rows r with
    | Some e, _ => inl (EWrap ("audit: read trace " +:+ id) e)
    | None, [] => inl (ESentinel ErrWORMNotFound)
    | None, t :: _ => if verifyChecksum t then inr t else inl (EWrap ("audit: read trace " +:+ id) (ESentinel ErrTampered))
    end).

Definition ReadByRun (runID : string) : op (goerr + list Trace) :=
  ListRun runID (fun r => Ret
    match r with
    | inl e => inl (EWrap ("audit: read by run " +:+ runID) e)
    | inr l => match filter (fun t => verifyChecksum t = false) l with
               | t :: _ => inl (EWrap ("audit: read by run " +:+ runID +:+ ": trace " +:+ t_ID t) (ESentinel ErrTampered))
               | [] => inr l
               end
    end).

Definition Count (runID : string) : op (goerr + Z) :=
  ListRun runID (fun r => Ret match r with inl e => inl (EWrap ("audit: count run " +:+ runID) e) | inr l => inr (Z.of_nat (length l)) end).

(** ** The stored chain of a run *)

Definition chain (runID : string) (db : list Trace) : list Trace := listTraces (runFilter runID) db.

(** [f] rewrites hashes only. *)
Definition hashOnly (f : Trace -> Trace) : Prop := forall t, exists p c, f t = withHashes t p c.

Lemma withHashes_id t : withHashes t (t_PrevHash t) (t_CurrHash t) = t.
Proof. by destruct t. Qed.

Lemma stamp_hashOnly id p c : hashOnly (stamp id p c).
Proof.
  intros t. unfold stamp. destruct (String.eqb (t_ID t) id); [by exists p, c|].
  exists (t_PrevHash t), (t_CurrHash t). by rewrite withHashes_id.
Qed.

Lemma chain_sorted runID db : chain runID db = merge_sort chainOrder (filter (fun t => selects (runFilter runID) t = true) db).
Proof. done. Qed.

Lemma chain_map runID f db : hashOnly f -> chain runID (map f db) = map f (chain runID db).
Proof.
  intros Hf. rewrite !chain_sorted, <- (merge_sort_map f chainOrder chainOrder).
  - f_equal. induction db as [|t db IH]; [done|]. destruct (Hf t) as (p & c & E). cbn [map].
    assert (Hs : selects (runFilter runID) (f t) = selects (runFilter runID) t) by (by rewrite E).
    rewrite !filter_cons, Hs. case_decide; [|done]. cbn [map]. by rewrite IH.
  - intros x y. destruct (Hf x) as (? & ? & ->), (Hf y) as (? & ? & ->). done.
Qed.

Lemma selects_run runID t : runID <> "" -> selects (runFilter runID) t = true <-> t_RunID t = runID.
Proof.
  intros H. unfold selects, runFilter. simpl. rewrite !andb_true_r. apply String.eqb_neq in H. rewrite H. simpl.
  apply String.eqb_eq.
Qed.

Lemma elem_of_chain runID db t : runID <> "" -> t ∈ chain runID db <-> t ∈ db /\ t_RunID t = runID.
Proof.
  intros H. rewrite chain_sorted, merge_sort_Permutation, list_elem_of_filter, selects_run by done. tauto.
Qed.

Lemma chain_ids runID db : NoDup (map t_ID db) -> NoDup (map t_ID (chain runID db)).
Proof. intros H. rewrite chain_sorted, merge_sort_Permutation. by apply Table.key_filter. Qed.

(** ** Exact chains *)

(** Each record carries its predecessor's hash and its own V2 hash. *)
Fixpoint chainOk (prev : string) (l : list Trace) : Prop :=
  match l with
  | [] => True
  | t :: l => t_PrevHash t = prev /\ t_CurrHash t = ComputeHash t prev /\ chainOk (t_CurrHash t) l
  end.

(** Each record is unsealed, or carries what its position implies. *)
Fixpoint sealedExact (prev : string) (l : list Trace) : Prop :=
  match l with
  | [] => True
  | t :: l => (t_CurrHash t = "" \/ (t_PrevHash t = prev /\ t_CurrHash t = ComputeHash t prev)) /\
              sealedExact (ComputeHash t prev) l
  end.

Fixpoint tailHash (prev : string) (l : list Trace) : string :=
  match l with [] => prev | t :: l => tailHash (t_CurrHash t) l end.

Lemma tailHash_app prev l t : tailHash prev (l ++ [t]) = t_CurrHash t.
Proof. revert prev. induction l; intros prev; simpl; auto. Qed.

Lemma chainOk_app prev l t :
  chainOk prev (l ++ [t]) <->
  chainOk prev l /\ t_PrevHash t = tailHash prev l /\ t_CurrHash t = ComputeHash t (tailHash prev l).
Proof. revert prev. induction l as [|x l IH]; intros prev; simpl; [tauto|]. rewrite IH. tauto. Qed.

(** What [ChainVerifier] computes, record by record. *)
Definition passes (t : Trace) (prev : string) : bool :=
  match checkTrace t 0 prev with None => true | Some _ => false end.

Fixpoint okAll (prev : string) (l : list Trace) : bool :=
  match l with [] => true | t :: l => passes t prev && okAll (t_CurrHash t) l end.

Fixpoint legacyN (prev : string) (l : list Trace) : Z :=
  match l with
  | [] => 0
  | t :: l => (if passes t prev && negb (String.eqb (t_CurrHash t) (ComputeHash t prev)) then 1 else 0) + legacyN (t_CurrHash t) l
  end%Z.

Lemma checkTrace_index t i prev : match checkTrace t i prev with None => true | Some _ => false end = passes t prev.
Proof.
  unfold passes, checkTrace. destruct (String.eqb (t_CurrHash t) ""); [done|].
  destruct (negb _); [done|]. by destruct (negb _ && negb _).
Qed.

Lemma passes_spec t prev :
  passes t prev = true <->
  t_CurrHash t <> "" /\ t_PrevHash t = prev /\ (t_CurrHash t = ComputeHash t prev \/ t_CurrHash t = legacyHash raw t prev).
Proof.
  unfold passes, checkTrace. destruct (String.eqb_spec (t_CurrHash t) ""); [naive_solver|].
  destruct (String.eqb_spec (t_PrevHash t) prev); simpl; [|naive_solver].
  destruct (String.eqb_spec (t_CurrHash t) (ComputeHash t prev)), (String.eqb_spec (t_CurrHash t) (legacyHash raw t prev)); simpl; naive_solver.
Qed.

Lemma passes_exact t prev : t_PrevHash t = prev -> t_CurrHash t = ComputeHash t prev -> passes t prev = true.
Proof. intros H1 H2. apply passes_spec. split_and!; [rewrite H2; apply digest_nonempty|done|by left]. Qed.

Lemma checkLoop_spec i prev l r :
  let v := checkLoop i prev l r in
  vr_Valid v = vr_Valid r && okAll prev l /\ vr_LegacyCount v = (vr_LegacyCount r + legacyN prev l)%Z /\
  vr_Count v = vr_Count r.
Proof.
  revert i prev r. induction l as [|t l IH]; intros i prev r; cbn [checkLoop okAll legacyN].
  - rewrite andb_true_r, Z.add_0_r. done.
  - set (r' := match checkTrace t i prev with Some _ => _ | None => _ end).
    destruct (IH (i + 1)%Z (t_CurrHash t) r') as (H1 & H2 & H3). cbn zeta. rewrite H1, H2, H3.
    pose proof (checkTrace_index t i prev) as Hp. unfold r'. destruct (checkTrace t i prev); rewrite <- Hp; simpl.
    + rewrite andb_false_r. split_and!; [done|lia|done].
    + destruct (negb _); simpl; split_and!; [done|lia|done|done|lia|done].
Qed.

Lemma legacyN_nonneg prev l : (0 <= legacyN prev l)%Z.
Proof. revert prev. induction l as [|t l IH]; intros prev; simpl; [lia|]. specialize (IH (t_CurrHash t)). destruct (_ && _); lia. Qed.

(** Valid with no legacy record: exactly the exact chains. *)
Lemma ok_exact prev l : okAll prev l = true /\ legacyN prev l = 0%Z <-> chainOk prev l.
Proof.
  revert prev. induction l as [|t l IH]; intros prev; simpl; [tauto|].
  rewrite andb_true_iff. specialize (IH (t_CurrHash t)). pose proof (legacyN_nonneg (t_CurrHash t) l) as Hn. split.
  - intros [[Hp Ho] Hl]. rewrite Hp in Hl. simpl in Hl. apply passes_spec in Hp as (_ & Hprev & _).
    destruct (String.eqb_spec (t_CurrHash t) (ComputeHash t prev)) as [He|]; simpl in Hl; [|lia].
    split_and!; [done|done|]. apply IH. split; [done|lia].
  - intros (H1 & H2 & H3). apply IH in H3 as [Ho Hl]. rewrite (passes_exact t prev H1 H2), Ho, Hl. simpl.
    by rewrite (proj2 (String.eqb_eq _ _) H2).
Qed.

Definition verdict (runID : string) (db : list Trace) : goerr + VerifyResult := (quiet dbexec (cv_Verify runID) db).1.

Lemma cv_Verify_quiet runID db :
  quiet dbexec (cv_Verify runID) db =
    (if String.eqb runID "" then inl (ESentinel ErrEmptyRunID)
     else match chain runID db with
          | [] => inl (ESentinel ErrNoTraces)
          | l => inr (checkLoop 0 "" l (MkVerifyResult runID true (Z.of_nat (length l)) 0 []))
          end, db).
Proof. unfold cv_Verify. destruct (String.eqb runID ""); [done|]. simpl. fold (chain runID db). by destruct (chain runID db). Qed.

Lemma verdict_exact runID db v :
  verdict runID db = inr v ->
  (vr_Valid v = true /\ vr_LegacyCount v = 0%Z <-> chainOk "" (chain runID db)) /\
  vr_Valid v = okAll "" (chain runID db).
Proof.
  unfold verdict. rewrite cv_Verify_quiet. cbn [fst]. destruct (String.eqb runID ""); [done|]. intros H.
  assert (v = checkLoop 0 "" (chain runID db) (MkVerifyResult runID true (Z.of_nat (length (chain runID db))) 0 [])) as ->
    by (destruct (chain runID db); congruence).
  destruct (checkLoop_spec 0 "" (chain runID db) (MkVerifyResult runID true (Z.of_nat (length (chain runID db))) 0 [])) as (-> & -> & _).
  simpl. rewrite <- ok_exact. split; [tauto|done].
Qed.

(** ** Tamper evidence *)

Lemma passes_app prev l t : okAll prev (l ++ [t]) = okAll prev l && passes t (tailHash prev l).
Proof. revert prev. induction l as [|x l IH]; intros prev; simpl; [by rewrite andb_true_r|]. by rewrite IH, andb_assoc. Qed.

Lemma tails_bind l l' :
  chainOk "" l -> okAll "" l' = true -> tailHash "" l = tailHash "" l' ->
  map contentFields l = map contentFields l' \/ collision raw.
Proof.
  revert l'. induction l as [|t l IH] using rev_ind; intros l' H1 H2 Ht.
  - destruct l' as [|t' l'] using rev_ind; [by left|]. rewrite passes_app in H2. boolp.
    rewrite tailHash_app in Ht. simpl in Ht. apply passes_spec in H0 as (Hne & _). congruence.
  - apply chainOk_app in H1 as (H1 & _ & Hc). rewrite tailHash_app in Ht.
    destruct l' as [|t' l' _] using rev_ind; [exfalso; simpl in Ht; rewrite Ht in Hc; symmetry in Hc; by apply digest_nonempty in Hc|].
    rewrite passes_app in H2. boolp. rewrite tailHash_app in Ht. apply passes_spec in H0 as (_ & _ & Hc').
    rewrite Ht in Hc. destruct Hc' as [Hc'|Hc'].
    + destruct (hash_binds raw t (tailHash "" l) t' (tailHash "" l')) as [[Hp Hf]|?]; [by rewrite Hc in Hc'| |by right].
      destruct (IH l' H1 H Hp) as [He|?]; [left|by right]. by rewrite !map_app, He; simpl; rewrite Hf.
    + right. eapply legacy_apart. transitivity (t_CurrHash t'); [symmetry; exact Hc|exact Hc'].
Qed.


(** ** Sealing *)

(** What one seal may do to a row of the table. *)
Definition seals (runID : string) (x y : Trace) : Prop :=
  y = x \/ (t_RunID x = runID /\ t_CurrHash x = "" /\ exists p c, c <> "" /\ y = withHashes x p c).

Lemma seals_trans runID x y z : seals runID x y -> seals runID y z -> seals runID x z.
Proof.
  intros [->|(Hr & Hx & p & c & Hc & ->)]; [done|]. intros [->|(_ & Hy & _)]; [right; eauto 8|]. by simpl in Hy.
Qed.

Lemma seals_refl runID db : Forall2 (seals runID) db db.
Proof. induction db; constructor; [by left|done]. Qed.

Lemma seals_all_trans runID db1 db2 db3 :
  Forall2 (seals runID) db1 db2 -> Forall2 (seals runID) db2 db3 -> Forall2 (seals runID) db1 db3.
Proof.
  intros H. revert db3. induction H as [|x y l1 l2 Hxy _ IH]; intros db3 H3; inversion H3; subst; constructor; [|auto].
  by eapply seals_trans.
Qed.

(** The walk of a seal over the listed rows: the rows after it, and whether it
    reached the end. *)
Fixpoint sealWalk (prev : string) (l : list Trace) : list Trace * bool :=
  match l with
  | [] => ([], true)
  | t :: rest =>
      let want := ComputeHash t prev in
      if String.eqb (t_PrevHash t) prev && String.eqb (t_CurrHash t) want
      then let '(rest', ok) := sealWalk want rest in (t :: rest', ok)
      else if String.eqb (t_CurrHash t) "" then let '(rest', ok) := sealWalk want rest in (withHashes t prev want :: rest', ok)
      else (t :: rest, false)
  end.

Lemma sealWalk_ok prev l : (sealWalk prev l).2 = true <-> sealedExact prev l.
Proof.
  revert prev. induction l as [|t l IH]; intros prev; cbn [sealWalk sealedExact]; [done|].
  specialize (IH (ComputeHash t prev)).
  destruct (String.eqb_spec (t_PrevHash t) prev), (String.eqb_spec (t_CurrHash t) (ComputeHash t prev)),
    (String.eqb_spec (t_CurrHash t) ""); cbn [andb]; destruct (sealWalk (ComputeHash t prev) l) as [r b]; cbn [snd] in *; naive_solver.
Qed.

Lemma sealWalk_exact prev l : if (sealWalk prev l).2 then chainOk prev (sealWalk prev l).1 else ~ chainOk prev (sealWalk prev l).1.
Proof.
  revert prev. induction l as [|t l IH]; intros prev; cbn [sealWalk]; [done|]. specialize (IH (ComputeHash t prev)).
  destruct (String.eqb_spec (t_PrevHash t) prev) as [Hp|Hp], (String.eqb_spec (t_CurrHash t) (ComputeHash t prev)) as [Hc|Hc],
    (String.eqb_spec (t_CurrHash t) "") as [He|He]; cbn [andb];
    destruct (sealWalk (ComputeHash t prev) l) as [r []]; cbn [fst snd chainOk] in *; rewrite ?Hc; naive_solver.
Qed.

Lemma stamp_others id p c l : id ∉ map t_ID l -> map (stamp id p c) l = l.
Proof. apply Table.map_other. intros x Hx. unfold stamp. by apply String.eqb_neq in Hx as ->. Qed.

Lemma stamp_chain runID db d t l p c :
  NoDup (map t_ID db) -> chain runID db = d ++ t :: l ->
  chain runID (map (stamp (t_ID t) p c) db) = d ++ withHashes t p c :: l.
Proof.
  intros Hnd E. pose proof (chain_ids runID db Hnd) as Hc. rewrite E, map_app in Hc. cbn [map] in Hc.
  apply NoDup_app in Hc as (_ & Hd & Hl). apply NoDup_cons in Hl as [Hl _].
  rewrite chain_map by apply stamp_hashOnly. rewrite E, map_app. cbn [map].
  rewrite !stamp_others; [|done|intros Hin; apply (Hd _ Hin); left].
  unfold stamp at 1. by rewrite String.eqb_refl.
Qed.

Lemma stamp_ids id p c db : map t_ID (map (stamp id p c) db) = map t_ID db.
Proof.
  rewrite map_map. apply map_ext. intros t. unfold stamp. by destruct (String.eqb (t_ID t) id).
Qed.

Lemma same_id (db : list Trace) x y : NoDup (map t_ID db) -> x ∈ db -> y ∈ db -> t_ID x = t_ID y -> x = y.
Proof. apply Table.same_key. Qed.

Lemma update_chain_quiet db t p c : t ∈ db -> dbexec db (SUpdateTraceChain (t_ID t) p c) = (map (stamp (t_ID t) p c) db, noAns).
Proof.
  intros Ht. cbn [dbexec]. assert (existsb (hasID (t_ID t)) db = true) as ->; [|done].
  apply existsb_elem. exists t. split; [done|]. apply String.eqb_refl.
Qed.

Lemma stamp_seals runID db t p c :
  NoDup (map t_ID db) -> t ∈ db -> t_RunID t = runID -> t_CurrHash t = "" -> c <> "" ->
  Forall2 (seals runID) db (map (stamp (t_ID t) p c) db).
Proof.
  intros Hnd Ht Hr He Hc. apply Table.Forall2_map_diag. intros x Hx. unfold stamp.
  destruct (String.eqb_spec (t_ID x) (t_ID t)) as [E|]; [|by left].
  apply (same_id db) in E as ->; [|done..]. right. eauto 8.
Qed.

Lemma sealLoop_quiet runID count l : forall d prev n db r err db',
  runID <> "" -> NoDup (map t_ID db) -> chain runID db = d ++ l ->
  quiet dbexec (sealLoop runID count l prev n) db = ((r, err), db') ->
  chain runID db' = d ++ (sealWalk prev l).1 /\ Forall2 (seals runID) db db' /\ sr_Count r = count /\
  if (sealWalk prev l).2 then err = None /\ sr_TailHash r = tailHash prev (sealWalk prev l).1
  else exists e, err = Some e /\ errors_Is e ErrChainBroken = true.
Proof.
  induction l as [|t l IH]; intros d prev n db r err db' Hrun Hnd E Hq; cbn [sealLoop sealWalk] in *.
  - injection Hq as <- <- <-. split_and!; [done|apply seals_refl|done|done].
  - assert (Ht : t ∈ chain runID db) by (rewrite E; set_solver). apply elem_of_chain in Ht as [Ht Hr]; [|done].
    destruct (String.eqb (t_PrevHash t) prev && String.eqb (t_CurrHash t) (ComputeHash t prev)) eqn:Hex.
    + boolp. destruct (IH (d ++ [t]) _ _ _ _ _ _ Hrun Hnd ltac:(by rewrite E, <- app_assoc) Hq) as (H1 & H2 & H3 & H4).
      destruct (sealWalk (ComputeHash t prev) l) as [rest ok]. rewrite <- app_assoc in H1. cbn [fst snd tailHash] in *.
      split_and!; [done|done|done|]. by rewrite H0.
    + destruct (String.eqb_spec (t_CurrHash t) "") as [He|Hne].
      * cbn [quiet] in Hq. rewrite update_chain_quiet in Hq by done. cbn [a_err noAns] in Hq.
        apply (IH (d ++ [withHashes t prev (ComputeHash t prev)])) in Hq as (H1 & H2 & H3 & H4);
          [|done|by rewrite stamp_ids|by rewrite <- app_assoc; apply stamp_chain].
        destruct (sealWalk (ComputeHash t prev) l) as [rest ok]. rewrite <- app_assoc in H1. cbn [fst snd tailHash] in *.
        split_and!; [done| |done|done]. eapply seals_all_trans; [apply stamp_seals|exact H2]; [done..|apply digest_nonempty].
      * injection Hq as <- <- <-. cbn [fst snd]. split_and!; [done|apply seals_refl|done|]. by eexists.
Qed.

Lemma runID_eqb runID : runID <> "" -> String.eqb runID "" = false.
Proof. apply String.eqb_neq. Qed.

Lemma verdict_run runID db : runID <> "" -> chain runID db <> [] -> exists v, verdict runID db = inr v.
Proof.
  intros H Hne. unfold verdict. rewrite cv_Verify_quiet, runID_eqb by done. destruct (chain runID db); [done|]. by eexists.
Qed.

Lemma seal_quiet runID db r err db' :
  runID <> "" -> NoDup (map t_ID db) -> chain runID db <> [] ->
  quiet dbexec (sealLoop runID (Z.of_nat (length (chain runID db))) (chain runID db) "" 0) db = ((r, err), db') ->
  quiet dbexec (Seal runID) db = ((Some r, err), db').
Proof.
  intros Hrun Hids Hne Hq. unfold Seal. rewrite runID_eqb by done. cbn [ListRun quiet dbexec a_err a_rows]. fold (chain runID db).
  destruct (chain runID db) as [|t l] eqn:E; [done|]. rewrite quiet_bind, Hq. done.
Qed.

(** Sealing a run alone: content and sealed records never change and other
    runs are not touched; the seal succeeds exactly when every sealed record
    carries what its position implies, and then the run verifies under the current
    encoding and the reported tail is the stored one; otherwise it reports a broken
    chain and verification of the table it leaves is not clean. *)
Theorem seal_functional (runID : string) (db : list Trace) (Hrun : runID <> "") (Hids : NoDup (map t_ID db))
    (Hne : chain runID db <> []) :
  exists r err db' v, quiet dbexec (Seal runID) db = ((Some r, err), db') /\ Forall2 (seals runID) db db' /\
    sr_Count r = Z.of_nat (length (chain runID db)) /\ verdict runID db' = inr v /\
    (err = None <-> sealedExact "" (chain runID db)) /\
    (err = None <-> vr_Valid v = true /\ vr_LegacyCount v = 0%Z) /\
    (err = None -> sr_TailHash r = tailHash "" (chain runID db')) /\
    (forall e, err = Some e -> errors_Is e ErrChainBroken = true).
Proof.
  destruct (quiet dbexec (sealLoop runID (Z.of_nat (length (chain runID db))) (chain runID db) "" 0) db) as [[r err] db'] eqn:Hq.
  pose proof (seal_quiet _ _ _ _ _ Hrun Hids Hne Hq) as Hs.
  apply (sealLoop_quiet _ _ _ []) in Hq as (Hc & HF & Hn & Hres); [|done..]. cbn [app] in Hc.
  assert (Hne' : chain runID db' <> []).
  { rewrite Hc. destruct (chain runID db) as [|t l]; [done|]. cbn [sealWalk]. repeat split_match; done. }
  destruct (verdict_run _ _ Hrun Hne') as [v Hv]. exists r, err, db', v. split_and!; [done..| | | |].
  - rewrite <- sealWalk_ok. destruct (sealWalk "" (chain runID db)).2; [naive_solver|]. destruct Hres as (e & -> & _). naive_solver.
  - rewrite (proj1 (verdict_exact _ _ _ Hv)), Hc. pose proof (sealWalk_exact "" (chain runID db)) as Hx.
    destruct (sealWalk "" (chain runID db)).2; [naive_solver|]. destruct Hres as (e & -> & _). naive_solver.
  - rewrite Hc. intros ->. destruct (sealWalk "" (chain runID db)).2; [by destruct Hres|]. by destruct Hres as (e & ? & _).
  - intros e ->. destruct (sealWalk "" (chain runID db)).2; [by destruct Hres|]. by destruct Hres as (e' & [= ->] & ?).
Qed.

(** ** Building *)

Lemma update_trace_quiet db t p c :
  NoDup (map t_ID db) -> t ∈ db ->
  dbexec db (SUpdateTrace (withHashes t p c)) = (map (stamp (t_ID t) p c) db, noAns).
Proof.
  intros Hnd Ht. cbn [dbexec withHashes t_ID t_PrevHash t_CurrHash].
  assert (existsb (hasID (t_ID t)) db = true) as ->.
  { apply existsb_elem. exists t. split; [done|]. apply String.eqb_refl. }
  assert (forallb (fun x => negb (hasID (t_ID t) x) || sameContent x (withHashes t p c)) db = true) as Hall; [|by rewrite Hall].
  apply forallb_elem. intros x Hx. unfold hasID. destruct (String.eqb_spec (t_ID x) (t_ID t)) as [E|]; [|done].
  apply (same_id db) in E as ->; [|done..]. unfold sameContent. simpl. by rewrite !String.eqb_refl, Z.eqb_refl.
Qed.

Definition unsealed (t : Trace) : Prop := t_CurrHash t = "".

Lemma unsealed_exact p l : Forall unsealed l -> sealedExact p l.
Proof. intros H. revert p. induction H; intros p; simpl; [done|]. split; [by left|auto]. Qed.

(** On rows that were never sealed, building and sealing write the same. *)
Lemma build_is_seal runID count l : forall d p i n db,
  runID <> "" -> NoDup (map t_ID db) -> chain runID db = d ++ l -> Forall unsealed l ->
  exists tail db', quiet dbexec (buildChainWithPrev i l p) db = ((i + Z.of_nat (length l), tail, None)%Z, db') /\
    quiet dbexec (sealLoop runID count l p n) db = ((MkSealResult count (n + Z.of_nat (length l)) tail, None)%Z, db').
Proof.
  induction l as [|t l IH]; intros d p i n db Hrun Hnd E HF.
  { exists p, db. simpl. by rewrite !Z.add_0_r. }
  apply Forall_cons in HF as [Ht HF]. unfold unsealed in Ht.
  assert (Hin : t ∈ chain runID db) by (rewrite E; set_solver). apply elem_of_chain in Hin as [Hin Hr]; [|done].
  destruct (IH (d ++ [withHashes t p (ComputeHash t p)]) (ComputeHash t p) (i + 1)%Z (n + 1)%Z
              (map (stamp (t_ID t) p (ComputeHash t p)) db)) as (tail & db' & H1 & H2);
    [done|by rewrite stamp_ids|by rewrite <- app_assoc; apply stamp_chain|done|].
  exists tail, db'. cbn [buildChainWithPrev sealLoop quiet length]. rewrite update_trace_quiet by done. cbn [a_err noAns].
  cbn [t_CurrHash withHashes]. rewrite Ht. rewrite String.eqb_refl.
  assert (String.eqb "" (ComputeHash t p) = false) as -> by (apply String.eqb_neq; intros Hx; symmetry in Hx; by apply digest_nonempty in Hx).
  rewrite andb_false_r. cbn [quiet]. rewrite update_chain_quiet by done. cbn [a_err noAns]. rewrite H1, H2.
  rewrite Nat2Z.inj_succ. unfold Z.succ. rewrite <- !Z.add_assoc, !(Z.add_comm 1). done.
Qed.

Lemma build_split l1 : forall i l2 p db,
  quiet dbexec (buildChainWithPrev i (l1 ++ l2) p) db =
  quiet dbexec (pbind (buildChainWithPrev i l1 p) (fun r =>
    match r with (n, tail, Some e) => Ret (n, "", Some e) | (n, tail, None) => buildChainWithPrev n l2 tail end)) db.
Proof.
  induction l1 as [|t l1 IH]; intros i l2 p db; [done|]. cbn [app buildChainWithPrev pbind quiet].
  destruct (dbexec db _) as [db1 r]. destruct (a_err r); [done|]. apply IH.
Qed.

Lemma build_shift l : forall i j p db,
  quiet dbexec (buildChainWithPrev (i + j) l p) db =
  let '((n, tail, err), db') := quiet dbexec (buildChainWithPrev j l p) db in ((i + n, tail, err)%Z, db').
Proof.
  induction l as [|t l IH]; intros i j p db; [done|]. cbn [buildChainWithPrev quiet].
  destruct (dbexec db _) as [db1 r]. destruct (a_err r); [done|]. by rewrite <- IH, Z.add_assoc.
Qed.

(** A batched build that meets no error is the build. *)
Lemma batch_is_build size fuel : forall l total p db n tail db',
  0 < size -> length l <= fuel ->
  quiet dbexec (buildChainWithPrev total l p) db = ((n, tail, None), db') ->
  quiet dbexec (batchLoop fuel size l total p) db = ((n, tail, None), db').
Proof.
  induction fuel as [|fuel IH]; intros l total p db n tail db' Hs Hl Hq.
  { destruct l; simpl in *; [done|lia]. }
  destruct l as [|t l]; [done|]. cbn [batchLoop]. rewrite quiet_bind.
  rewrite <- (take_drop size (t :: l)), build_split, quiet_bind in Hq.
  rewrite <- (Z.add_0_r total), build_shift in Hq.
  destruct (quiet dbexec (buildChainWithPrev 0 (take size (t :: l)) p) db) as [[[n1 tail1] [e|]] db1]; cbn [fst snd] in *; [done|].
  apply IH; [done| |done]. rewrite length_drop. simpl in *. lia.
Qed.

Lemma list_run_quiet {A} runID (k : goerr + list Trace -> op A) db :
  quiet dbexec (ListRun runID k) db = quiet dbexec (k (inr (chain runID db))) db.
Proof. done. Qed.

Definition sealedIn (l : list Trace) : bool := existsb (fun t => negb (String.eqb (t_CurrHash t) "")) l.

Lemma guarded_quiet what runID k db :
  runID <> "" -> chain runID db <> [] ->
  quiet dbexec (guardedBuild what runID k) db =
  if sealedIn (chain runID db)
  then (failBuild (EWrap (what +:+ runID)
          match (verifyLoop 0 "" (chain runID db)).2 with None => ESentinel ErrChainAlreadyBuilt | Some _ => ESentinel ErrChainBroken end), db)
  else quiet dbexec (k (chain runID db)) db.
Proof.
  intros Hrun Hne. unfold guardedBuild, chainExists. rewrite list_run_quiet.
  destruct (chain runID db) as [|t l] eqn:E; [done|]. fold (sealedIn (t :: l)). destruct (sealedIn (t :: l)).
  - rewrite quiet_bind. unfold hcb_Verify. rewrite runID_eqb by done. rewrite list_run_quiet, E. done.
  - rewrite list_run_quiet, E. done.
Qed.

(** Building is all or nothing: a run with a sealed record is refused with the
    table untouched, as already built when it verifies and as broken when not;
    otherwise a build, a batched build of any size and a seal write the same table
    and report the same number of records and tail. *)
Theorem build_functional (runID : string) (batchSize : Z) (db : list Trace) (Hrun : runID <> "") (Hids : NoDup (map t_ID db))
    (Hne : chain runID db <> []) (Hsize : (0 < batchSize)%Z) :
  if sealedIn (chain runID db) then
    exists e1 e2, quiet dbexec (Build runID) db = (failBuild e1, db) /\ quiet dbexec (BuildBatch runID batchSize) db = (failBuild e2, db) /\
      forall e, e ∈ [e1; e2] -> errors_Is e ErrChainAlreadyBuilt = true /\ (verifyLoop 0 "" (chain runID db)).2 = None \/
                        errors_Is e ErrChainBroken = true /\ (verifyLoop 0 "" (chain runID db)).2 <> None
  else exists n tail db', quiet dbexec (Build runID) db = ((n, tail, None), db') /\
      quiet dbexec (BuildBatch runID batchSize) db = ((n, tail, None), db') /\
      quiet dbexec (Seal runID) db = ((Some (MkSealResult n n tail), None), db').
Proof.
  unfold Build, BuildBatch. rewrite runID_eqb by done. rewrite (proj2 (Z.leb_gt _ _)) by done.
  rewrite !guarded_quiet by done. destruct (sealedIn (chain runID db)) eqn:Hsealed.
  - eexists _, _. split_and!; [done|done|]. intros e He.
    destruct (verifyLoop 0 "" (chain runID db)).2; apply elem_of_cons in He as [->|He]; try apply list_elem_of_singleton in He as ->;
      [right|right|left|left]; (split; [vm_compute; reflexivity|done]).
  - assert (HF : Forall unsealed (chain runID db)).
    { apply Forall_forall. intros t Ht. unfold unsealed. destruct (String.eqb_spec (t_CurrHash t) "") as [|Hn]; [done|].
      exfalso. assert (sealedIn (chain runID db) = true); [|congruence]. apply existsb_elem. exists t.
      split; [done|]. by apply String.eqb_neq in Hn as ->. }
    destruct (build_is_seal runID (Z.of_nat (length (chain runID db))) (chain runID db) [] "" 0 0 db) as (tail & db' & H1 & H2); [done..|].
    exists (Z.of_nat (length (chain runID db))), tail, db'. split_and!.
    + exact H1.
    + by apply batch_is_build; [lia|lia|].
    + by apply seal_quiet.
Qed.

(** ** Seals and appends side by side *)

(** A run's chain of [db] is a prefix of its chain in [db'], row by row the same or
    newly sealed. *)
Definition grows (runID : string) (l l' : list Trace) : Prop := exists a b, l' = a ++ b /\ Forall2 (seals runID) l a.

Definition guar (db db' : list Trace) : Prop := forall runID, runID <> "" -> grows runID (chain runID db) (chain runID db').

(** Ids are unique and no sealed record contradicts its position. *)
Definition sound (db : list Trace) : Prop :=
  NoDup (map t_ID db) /\ forall runID, runID <> "" -> sealedExact "" (chain runID db).

(** Appends come in chain order within their run, unsealed. *)
Definition inOrder (db : list Trace) (s : stmt) : Prop :=
  match s with
  | SCreateTrace t => t_CurrHash t = "" /\ forall x, x ∈ db -> t_RunID x = t_RunID t -> chainOrder x t
  | _ => True
  end.

Inductive sem (db : list Trace) (s : stmt) : list Trace -> ans -> Prop :=
| sem_ok now id : inOrder db s ->
    sem db s (dbexec db s).1 (MkAns (a_err (dbexec db s).2) (a_rows (dbexec db s).2) now id)
| sem_fault e : errors_Is e ErrChainBroken = false -> sem db s db (failAns e).

Lemma grows_refl runID l : grows runID l l.
Proof. exists l, []. split; [by rewrite app_nil_r|apply seals_refl]. Qed.

Lemma grows_trans runID l1 l2 l3 : grows runID l1 l2 -> grows runID l2 l3 -> grows runID l1 l3.
Proof.
  intros (a & b & -> & H1) (a2 & b2 & -> & H2). apply Forall2_app_inv_l in H2 as (a' & b' & H2 & _ & ->).
  exists a', (b' ++ b2). split; [by rewrite app_assoc|]. by eapply seals_all_trans.
Qed.

Lemma rely_grows runID db db' : runID <> "" -> rely guar db db' -> grows runID (chain runID db) (chain runID db').
Proof. intros Hr H. induction H; [apply grows_refl|]. eapply grows_trans; [by apply H|done]. Qed.

(** The hash a row after [l] is chained to: content only. *)
Fixpoint hashAfter (prev : string) (l : list Trace) : string :=
  match l with [] => prev | t :: l => hashAfter (ComputeHash t prev) l end.

Lemma sealedExact_app p l1 l2 : sealedExact p (l1 ++ l2) <-> sealedExact p l1 /\ sealedExact (hashAfter p l1) l2.
Proof. revert p. induction l1 as [|t l1 IH]; intros p; simpl; [tauto|]. rewrite IH. tauto. Qed.

Lemma seals_content runID x y : seals runID x y -> forall p c, withHashes x p c = withHashes y p c.
Proof. intros [->|(_ & _ & p' & c' & _ & ->)]; done. Qed.

Lemma seals_hash runID x y p : seals runID x y -> ComputeHash x p = ComputeHash y p.
Proof. intros [->|(_ & _ & p' & c' & _ & ->)]; done. Qed.

Lemma hashAfter_seals runID l l' p : Forall2 (seals runID) l l' -> hashAfter p l = hashAfter p l'.
Proof. intros H. revert p. induction H as [|x y l l' Hxy _ IH]; intros p; simpl; [done|]. by rewrite (seals_hash _ _ _ _ Hxy), IH. Qed.

Lemma app_two_prefix {A} (a b c d : list A) : a ++ b = c ++ d -> length a <= length c -> exists k, c = a ++ k /\ b = k ++ d.
Proof.
  intros E Hl. destruct (app_eq_inv _ _ _ _ E) as [(k & -> & ->)|(k & -> & Hk)]; [|eauto].
  rewrite length_app in Hl. destruct k; [|simpl in Hl; lia]. exists []. by rewrite !app_nil_r.
Qed.

Lemma chain_other runID db id p c :
  (forall x, x ∈ chain runID db -> t_ID x <> id) -> chain runID (map (stamp id p c) db) = chain runID db.
Proof.
  intros H. rewrite chain_map by apply stamp_hashOnly. apply stamp_others.
  intros (x & -> & Hx)%list_elem_of_fmap. by apply (H x Hx).
Qed.

(** A write of what the position implies keeps the table sound. *)
Lemma stamp_sound runID db d t l :
  runID <> "" -> sound db -> chain runID db = d ++ t :: l ->
  let db' := map (stamp (t_ID t) (hashAfter "" d) (ComputeHash t (hashAfter "" d))) db in
  guar db db' /\ sound db'.
Proof.
  intros Hrun [Hnd Hex] E db'. pose proof (Hex runID Hrun) as Hexr. rewrite E in Hexr.
  apply sealedExact_app in Hexr as [Hd [Ht Hl]].
  assert (Hin : t ∈ chain runID db) by (rewrite E; set_solver). apply elem_of_chain in Hin as [Hin Hr]; [|done].
  assert (Hstamp := stamp_chain runID db d t l (hashAfter "" d) (ComputeHash t (hashAfter "" d)) Hnd E).
  assert (Hother : forall r, r <> "" -> r <> runID -> chain r db' = chain r db).
  { intros r Hr0 Hne. apply chain_other. intros x Hx Hid. apply elem_of_chain in Hx as [Hx Hxr]; [|done].
    apply (same_id db) in Hid; [|done..]. congruence. }
  split; [|split; [by unfold db'; rewrite stamp_ids|]].
  - intros r Hr0. destruct (decide (r = runID)) as [->|Hne]; [|rewrite Hother by done; apply grows_refl].
    unfold db'. rewrite Hstamp, E. eexists (d ++ _ :: l), []. split; [by rewrite app_nil_r|].
    apply Forall2_app; [apply seals_refl|]. constructor; [|apply seals_refl].
    destruct Ht as [Ht|[Hp Hc]]; [right; split_and!; [done|done|]; eexists _, _; split; [apply digest_nonempty|done]|left].
    rewrite <- Hc, <- Hp. apply withHashes_id.
  - intros r Hr0. destruct (decide (r = runID)) as [->|Hne]; [|rewrite Hother by done; auto].
    unfold db'. rewrite Hstamp. apply sealedExact_app. split; [done|]. cbn [sealedExact]. split; [by right|done].
Qed.

(** An append in order extends its run's chain and no other. *)
Lemma chainOrder_total : Total chainOrder.
Proof. intros x y. unfold chainOrder. destruct (Z.lt_trichotomy (t_Timestamp x) (t_Timestamp y)) as [?|[->|?]]; [tauto| |tauto].
  destruct (String.le_total (t_ID x) (t_ID y)); tauto. Qed.

Lemma chainOrder_trans : Transitive chainOrder.
Proof.
  intros x y z. unfold chainOrder. intros [?|[? ?]] [?|[? ?]]; [left; lia|left; lia|left; lia|right].
  split; [lia|]. by transitivity (t_ID y).
Qed.

Lemma append_chain runID db t :
  runID <> "" -> NoDup (map t_ID (db ++ [t])) -> inOrder db (SCreateTrace t) ->
  chain runID (db ++ [t]) = chain runID db ++ (if decide (t_RunID t = runID) then [t] else []).
Proof.
  intros Hrun Hnd [_ Habove]. rewrite !chain_sorted, filter_app, filter_cons, filter_nil.
  destruct (decide (t_RunID t = runID)) as [Hr|Hr].
  - rewrite decide_True by (by apply selects_run). set (F := filter _ db).
    assert (HF : forall x, x ∈ F -> chainOrder x t).
    { intros x [Hx Hin]%list_elem_of_filter. apply Habove; [done|]. apply selects_run in Hx; [congruence|done]. }
    assert (Hids : forall x y, x ∈ F ++ [t] -> y ∈ F ++ [t] -> t_ID x = t_ID y -> x = y).
    { assert (Hsub : forall x, x ∈ F ++ [t] -> x ∈ db ++ [t])
        by (intros x; rewrite !elem_of_app; intros [[_ ?]%list_elem_of_filter|?]; tauto).
      intros x y Hx Hy. apply (same_id (db ++ [t])); auto. }
    apply Table.sort_unique; [apply chainOrder_trans|apply chainOrder_total| | |by rewrite merge_sort_Permutation].
    + intros x y Hx Hy Hxy Hyx. apply Hids; [done|done|].
      unfold chainOrder in *. destruct Hxy as [?|[? ?]], Hyx as [?|[? ?]]; [lia|lia|lia|]. by apply (anti_symm String.le).
    + apply StronglySorted_app. split_and!.
      * intros x y Hx Hy. apply list_elem_of_singleton in Hy as ->. rewrite merge_sort_Permutation in Hx. auto.
      * apply StronglySorted_merge_sort; [apply chainOrder_trans|apply chainOrder_total].
      * repeat constructor.
  - rewrite decide_False by (by rewrite selects_run). by rewrite !app_nil_r.
Qed.

Lemma append_sound db t :
  sound db -> inOrder db (SCreateTrace t) -> existsb (hasID (t_ID t)) db = false ->
  guar db (db ++ [t]) /\ sound (db ++ [t]).
Proof.
  intros [Hnd Hex] Hord Hfresh.
  assert (Hnd' : NoDup (map t_ID (db ++ [t]))).
  { rewrite map_app. apply NoDup_app. split_and!; [done| |by repeat constructor; set_solver].
    intros id (x & -> & Hx)%list_elem_of_fmap Hid. apply list_elem_of_singleton in Hid.
    assert (existsb (hasID (t_ID t)) db = true); [|congruence]. apply existsb_elem. exists x. split; [done|]. by apply String.eqb_eq. }
  split; [|split; [done|]]; intros runID Hrun; rewrite append_chain by done.
  - eexists _, _. split; [done|apply seals_refl].
  - apply sealedExact_app. split; [auto|]. destruct (decide _); simpl; [|done]. destruct Hord as [He _]. tauto.
Qed.

Lemma guar_refl db : guar db db.
Proof. intros runID _. apply grows_refl. Qed.

Definition isSealed (t : Trace) : Prop := t_CurrHash t <> "".

(** Where a seal that listed [d ++ l] and is done with [d] stands. *)
Definition midway (runID : string) (d l db : list Trace) : Prop :=
  exists ad al b, chain runID db = ad ++ al ++ b /\ Forall2 (seals runID) d ad /\ Forall2 (seals runID) l al /\ Forall isSealed ad.

Lemma seals_sealed runID x y : isSealed x -> seals runID x y -> y = x.
Proof. intros Hx [?|(_ & He & _)]; [done|]. by destruct Hx. Qed.

Lemma seals_all_sealed runID l l' : Forall isSealed l -> Forall2 (seals runID) l l' -> l' = l.
Proof.
  intros HF H. induction H as [|x y l l' Hxy _ IH]; [done|]. apply Forall_cons in HF as [Hx HF].
  by rewrite (seals_sealed _ _ _ Hx Hxy), IH.
Qed.

Lemma midway_rely runID d l db db' : runID <> "" -> midway runID d l db -> rely guar db db' -> midway runID d l db'.
Proof.
  intros Hrun (ad & al & b & E & Hd & Hl & Hs) Hr. apply (rely_grows runID) in Hr; [|done]. rewrite E in Hr.
  destruct Hr as (a' & b' & E' & HF). apply Forall2_app_inv_l in HF as (ad' & r' & Had & HF & ->).
  apply Forall2_app_inv_l in HF as (al' & b2 & Hal & _ & ->).
  rewrite (seals_all_sealed _ _ _ Hs Had) in E'. exists ad, al', (b2 ++ b'). split_and!; [by rewrite E', <- !app_assoc|done| |done].
  by eapply seals_all_trans.
Qed.

Lemma exact_chainOk p l : sealedExact p l -> Forall isSealed l -> chainOk p l /\ tailHash p l = hashAfter p l.
Proof.
  revert p. induction l as [|t l IH]; intros p; simpl; [done|]. intros [[He|[Hp Hc]] Hl] HF; apply Forall_cons in HF as [Ht HF];
    [by destruct Ht|]. rewrite Hc. destruct (IH _ Hl HF) as [H1 H2]. split_and!; [done|done|done|done].
Qed.

Definition sealPost (runID : string) (out : option SealResult * option goerr) (db : list Trace) : Prop :=
  match out.2 with
  | Some e => errors_Is e ErrChainBroken = false
  | None => exists r a b, out.1 = Some r /\ chain runID db = a ++ b /\ Z.of_nat (length a) = sr_Count r /\
              chainOk "" a /\ tailHash "" a = sr_TailHash r
  end.

Lemma hashAfter_snoc p d t : hashAfter p (d ++ [t]) = ComputeHash t (hashAfter p d).
Proof. revert p. induction d; intros; simpl; auto. Qed.

Lemma midway_skip runID d t l db : isSealed t -> midway runID d (t :: l) db -> midway runID (d ++ [t]) l db.
Proof.
  intros Ht (ad & al & b & E & Hd & Hl & HS). inversion Hl as [|? t1 ? al' Ht1 Hl']; subst al.
  rewrite (seals_sealed _ _ _ Ht Ht1) in E. exists (ad ++ [t]), al', b. split_and!.
  - by rewrite <- app_assoc.
  - apply Forall2_app; [done|]. constructor; [by left|constructor].
  - done.
  - apply Forall_app. split; [done|by constructor].
Qed.

Lemma midway_write runID d t l s :
  runID <> "" -> sound s -> t_CurrHash t = "" -> midway runID d (t :: l) s ->
  let p := hashAfter "" d in
  exists s', dbexec s (SUpdateTraceChain (t_ID t) p (ComputeHash t p)) = (s', noAns) /\ guar s s' /\ sound s' /\
    midway runID (d ++ [t]) l s'.
Proof.
  intros Hrun Hi He (ad & al & b & E & Hd & Hl & HS) p. inversion Hl as [|? t1 ? al' Ht1 Hl']; subst al.
  assert (Hid : t_ID t = t_ID t1 /\ t_RunID t = t_RunID t1) by (destruct Ht1 as [->|(_ & _ & ? & ? & _ & ->)]; done).
  destruct Hid as [Hid Hrt]. assert (Hh : p = hashAfter "" ad) by (by apply (hashAfter_seals runID)).
  assert (Hin : t1 ∈ chain runID s) by (rewrite E; set_solver). apply elem_of_chain in Hin as [Hin Hr1]; [|done].
  rewrite Hid, (seals_hash _ _ _ _ Ht1), update_chain_quiet by done. rewrite Hh.
  destruct (stamp_sound runID s ad t1 (al' ++ b)) as [HG HI]; [done|done|by rewrite E|].
  eexists. split_and!; [done|done|done|].
  exists (ad ++ [withHashes t1 (hashAfter "" ad) (ComputeHash t1 (hashAfter "" ad))]), al', b. split_and!.
  - rewrite <- app_assoc. apply stamp_chain; [apply Hi|by rewrite E].
  - apply Forall2_app; [done|]. constructor; [|constructor]. right. split_and!; [congruence|done|].
    eexists _, _. split; [apply digest_nonempty|]. by rewrite (seals_content _ _ _ Ht1).
  - done.
  - apply Forall_app. split; [done|]. constructor; [apply digest_nonempty|constructor].
Qed.

Lemma midway_done runID d s :
  runID <> "" -> sound s -> midway runID d [] s ->
  exists a b, chain runID s = a ++ b /\ length a = length d /\ chainOk "" a /\ tailHash "" a = hashAfter "" d.
Proof.
  intros Hrun [_ Hs] (ad & al & b & E & Hd & Hl & HS). inversion Hl; subst al.
  specialize (Hs runID Hrun). rewrite E in Hs. apply sealedExact_app in Hs as [Hs _].
  destruct (exact_chainOk _ _ Hs HS) as [Hok Ht]. exists ad, b. split_and!; [done| |done|].
  - by rewrite (Forall2_length _ _ _ Hd).
  - rewrite Ht. symmetry. by apply (hashAfter_seals runID).
Qed.

Lemma sealLoop_good runID count l : forall d n db,
  runID <> "" -> count = Z.of_nat (length d + length l) -> sealedExact (hashAfter "" d) l -> midway runID d l db ->
  good sem sound guar (fun x => sealPost runID (Some x.1, x.2)) (sealLoop runID count l (hashAfter "" d) n) db.
Proof.
  induction l as [|t l IH]; intros d n db Hrun Hcount Hex Hmid; cbn [sealLoop].
  - intros s' Hr Hi. destruct (midway_done runID d s') as (a & b & E & Hl & Hok & Ht); [done|done|by eapply midway_rely|].
    eexists _, a, b. split_and!; [done|done| |done|done]. rewrite Hl, Hcount. simpl. lia.
  - destruct Hex as [Hrow Hex]. rewrite <- hashAfter_snoc in Hex.
    assert (Hcount' : count = Z.of_nat (length (d ++ [t]) + length l)) by (rewrite length_app; simpl in *; lia).
    destruct (String.eqb_spec (t_CurrHash t) "") as [He|Hne].
    + assert (String.eqb (t_CurrHash t) (ComputeHash t (hashAfter "" d)) = false) as ->.
      { rewrite He. apply String.eqb_neq. intros H. symmetry in H. by apply digest_nonempty in H. }
      rewrite andb_false_r. intros s' Hr Hi s'' r Hsem.
      pose proof (midway_rely _ _ _ _ _ Hrun Hmid Hr) as Hmid'. destruct Hsem as [now id _|e Hf].
      * destruct (midway_write runID d t l s' Hrun Hi He Hmid') as (s1 & -> & HG & HI & Hm). cbn [fst snd a_err noAns].
        split_and!; [done|done|]. rewrite <- hashAfter_snoc. by apply IH.
      * split_and!; [apply guar_refl|done|]. intros s2 _ _. exact Hf.
    + destruct Hrow as [?|[Hp Hc]]; [done|]. rewrite Hp, <- Hc, !String.eqb_refl. cbn [andb].
      rewrite Hc, <- hashAfter_snoc. apply IH; [done|done|done|]. by apply midway_skip.
Qed.

Lemma Seal_good runID db : runID <> "" -> good sem sound guar (sealPost runID) (Seal runID) db.
Proof.
  intros Hrun. unfold Seal. rewrite runID_eqb by done. cbn [ListRun good]. intros s' Hr Hi s'' r Hsem.
  destruct Hsem as [now id _|e Hf]; cbn [dbexec fst snd a_err a_rows failAns]; (split_and!; [apply guar_refl|done|]).
  - fold (chain runID s'). destruct (chain runID s') as [|t l] eqn:E; [by intros ? _ _|]. rewrite <- E.
    apply good_bind. eapply good_mono; [|apply (sealLoop_good runID _ _ [] 0)]; [|done|done|by apply Hi|].
    + intros x s H s2 Hr2 _. cbn [sealPost fst snd] in *.
      unfold sealPost in *. cbn [fst snd] in *. destruct x.2 as [e|]; [done|].
      destruct H as (r & a & b & H1 & H2 & H3 & H4 & H5). apply (rely_grows runID) in Hr2; [|done]. rewrite H2 in Hr2.
      destruct Hr2 as (a' & b' & E' & HF). apply Forall2_app_inv_l in HF as (a1 & a2 & HF & _ & ->).
      assert (a1 = a) as ->.
      { eapply seals_all_sealed; [|exact HF]. clear -H4. revert H4. generalize "". induction a as [|y a IH]; intros p; [constructor|].
        intros (_ & Hy & Ha). constructor; [unfold isSealed; rewrite Hy; apply digest_nonempty|by eapply IH]. }
      exists r, a, (a2 ++ b'). split_and!; [done|by rewrite E', <- app_assoc|done..].
    + exists [], (chain runID s'), []. split_and!; [by rewrite app_nil_r|constructor|apply seals_refl|constructor].
  - intros s2 _ _. exact Hf.
Qed.

Lemma SealRunTraceChain_good runID db :
  runID <> "" ->
  good sem sound guar (fun err _ => forall e, err = Some e -> errors_Is e ErrChainBroken = false) (SealRunTraceChain runID) db.
Proof.
  intros Hrun. unfold SealRunTraceChain. apply good_bind. eapply good_mono; [|by apply Seal_good].
  intros x s H s' _ _ e. unfold sealPost in H. destruct x.2 as [e0|]; [|done]. destruct (errors_Is e0 ErrNoTraces); [done|].
  intros [= <-]. exact H.
Qed.

Lemma Record_good rec db : good sem sound guar (fun _ _ => True) (Record_ rec) db.
Proof.
  unfold Record_. destruct (String.eqb_spec (rec_RunID rec) "") as [|Hrun]; [done|]. destruct (String.eqb (rec_Event rec) ""); [done|].
  intros s Hr Hi s1 r1 H1. assert (s1 = s) as -> by (by destruct H1). split_and!; [apply guar_refl|done|].
  destruct (a_err r1); [done|]. destruct (rec_detail rec) as [|detail]; [done|]. intros s2 Hr2 Hi2 s3 r3 H3.
  assert (s3 = s2) as -> by (by destruct H3). split_and!; [apply guar_refl|done|]. intros s4 Hr4 Hi4 s5 r5 H5.
  assert (Hstep : guar s4 s5 /\ sound s5).
  { destruct H5 as [now id Hord|e He]; [|by split; [apply guar_refl|]]. cbn [dbexec].
    destruct (existsb (hasID _) s4) eqn:Hex; [by split; [apply guar_refl|]|]. by apply append_sound. }
  destruct Hstep as [HG HI]. split_and!; [done|done|]. destruct (a_err r5); [done|]. apply good_bind.
  eapply good_mono; [|by apply SealRunTraceChain_good]. by intros x s' _ s6 _ _.
Qed.

(** Who writes traces: seals of a run and recorders. *)
Inductive actor := ASeal (runID : string) | ARecord (rec : TraceRecord).

Definition act (a : actor) : op (option SealResult * option goerr) :=
  match a with
  | ASeal runID => Seal runID
  | ARecord rec => pbind (Record_ rec) (fun r => Ret (None, match r with inl e => Some e | inr _ => None end))
  end.

Definition actPost (a : actor) (out : option SealResult * option goerr) (db : list Trace) : Prop :=
  match a with ASeal runID => runID <> "" -> sealPost runID out db | ARecord _ => True end.

Lemma act_good a db : good sem sound guar (actPost a) (act a) db.
Proof.
  destruct a as [runID|rec]; cbn [act].
  - destruct (decide (runID = "")) as [->|Hrun]; [by intros s' _ _ Hbad|].
    eapply good_mono; [|by apply Seal_good]. by intros out s H _.
  - apply good_bind. eapply good_mono; [|apply Record_good]. by intros r s _ s' _ _.
Qed.

(** Seals may overlap each other and appends: as long as the appends of a run
    come in chain order, then after any interleaving, with any store failures, no
    sealed record contradicts its position, a run all of whose records are sealed
    verifies, a seal that returned has sealed what it listed, and no seal has
    reported a broken chain. *)
Theorem concurrent_seals_safe (acts : list actor) (db : list Trace) (cfg : list (op (option SealResult * option goerr)) * list Trace)
    (Hsound : sound db) (Hrun : rtc (step sem) (map act acts, db) cfg) :
  sound cfg.2 /\
  (forall runID v, verdict runID cfg.2 = inr v -> Forall isSealed (chain runID cfg.2) -> vr_Valid v = true /\ vr_LegacyCount v = 0%Z) /\
  (forall i runID out, acts !! i = Some (ASeal runID) -> runID <> "" -> cfg.1 !! i = Some (Ret out) -> sealPost runID out cfg.2).
Proof.
  assert (Hok : system_ok sem sound guar (map actPost acts) (map act acts, db)).
  { split; [done|]. cbn [fst snd]. apply Forall2_fmap_2, Forall_Forall2_diag, Forall_forall. intros a _. apply act_good. }
  destruct (system_good _ _ _ _ _ _ Hok Hrun) as [Hok' _]. split_and!; [apply Hok'| |].
  - intros runID v Hv HF. apply (verdict_exact _ _ _ Hv). destruct (decide (runID = "")) as [->|Hr].
    + unfold verdict in Hv. by rewrite cv_Verify_quiet in Hv.
    + apply exact_chainOk; [|done]. by apply (proj2 (proj1 Hok')).
  - intros i runID out Ha Hr Hout. pose proof (system_post _ _ _ _ _ i (actPost (ASeal runID)) out Hok') as Hp.
    apply Hp; [|done|done]. by rewrite list_lookup_fmap, Ha.
Qed.

(** ** The WORM store *)

Lemma get_absent db id : id ∉ map t_ID db -> filter (fun t => t_ID t = id) db = [].
Proof.
  induction db as [|t db IH]; intros H; [done|]. rewrite filter_cons_False by (cbn in H; set_solver). apply IH. cbn in H. set_solver.
Qed.

(** The WORM store is write once and tamper evident: an appended record reads
    back as stored, a second append under its id is refused with the table
    unchanged, and whatever is later read under that id with the stored checksum
    has the appended content, or two messages with one digest are known. *)
Theorem worm_write_once (t : Trace) (db : list Trace) (Hid : t_ID t <> "") (Hfresh : t_ID t ∉ map t_ID db) :
  let stored := withHashes t (t_PrevHash t) (ComputeChecksum raw t) in
  quiet dbexec (Append (Some t)) db = (None, db ++ [stored]) /\
  quiet dbexec (Read (t_ID t)) (db ++ [stored]) = (inr stored, db ++ [stored]) /\
  (forall u, t_ID u = t_ID t -> exists e, quiet dbexec (Append (Some u)) (db ++ [stored]) = (Some e, db ++ [stored]) /\
                                   errors_Is e ErrAlreadyExists = true) /\
  (forall db' u, (quiet dbexec (Read (t_ID t)) db').1 = inr u -> t_CurrHash u = t_CurrHash stored ->
     contentFields u = contentFields t \/ collision raw).
Proof.
  intros stored.
  assert (Hget : filter (fun x => t_ID x = t_ID t) (db ++ [stored]) = [stored]).
  { rewrite filter_app, get_absent by done. unfold stored. rewrite filter_cons_True by done. done. }
  split_and!.
  - unfold Append. rewrite (proj2 (String.eqb_neq _ _) Hid). cbn [quiet dbexec a_err a_rows]. rewrite get_absent by done. cbn [quiet dbexec withHashes t_ID].
    assert (existsb (hasID (t_ID t)) db = false) as ->; [|done]. apply not_true_iff_false. rewrite existsb_elem.
    intros (x & Hx & Hxid). apply String.eqb_eq in Hxid. apply Hfresh. rewrite <- Hxid. by apply (list_elem_of_fmap_2 t_ID).
  - cbn [Read quiet dbexec a_err a_rows]. rewrite Hget. unfold verifyChecksum, stored. cbn [withHashes t_CurrHash].
    assert (String.eqb (ComputeChecksum raw t) (ComputeChecksum raw (withHashes t (t_PrevHash t) (ComputeChecksum raw t))) = true) as ->; [|done].
    apply String.eqb_refl.
  - intros u Hu. unfold Append. rewrite Hu, (proj2 (String.eqb_neq _ _) Hid). cbn [quiet dbexec a_err a_rows]. rewrite Hget. eexists. split; [done|]. by vm_compute.
  - intros db' u Hread Hc. cbn [Read quiet dbexec a_err a_rows fst] in Hread. destruct (filter _ db') as [|x l]; [done|].
    destruct (verifyChecksum x) eqn:Hv; [|done]. injection Hread as <-. unfold verifyChecksum in Hv. rewrite Hc in Hv.
    apply orb_true_iff in Hv as [Hv|Hv]; apply String.eqb_eq in Hv; unfold stored in Hv; cbn [withHashes t_CurrHash] in Hv.
    + destruct (checksum_binds _ _ _ Hv) as [->|?]; [by left|by right].
    + right. by eapply legacy_checksum_apart.
Qed.

End audit.

(** ** Concrete runs *)

Definition sample (id : string) (ts : Z) (detail : string) : Trace :=
  MkTrace id "run-1" "step_execute" "system" detail "" "" ts "".

Definition fresh2 : list Trace := [sample "b" 2 "two"; sample "a" 1 "one"].
Definition sealed2 : list Trace := Eval vm_compute in (quiet dbexec (Seal "" "run-1") fresh2).2.
Definition verdictOf (db : list Trace) : VerifyResult :=
  match verdict "" "run-1" db with inr v => v | inl _ => MkVerifyResult "" false 0 0 [] end.

(** The first record of the chain moved to another tenant. *)
Definition moved2 : list Trace :=
  map (fun t => if String.eqb (t_ID t) "a"
                then MkTrace (t_ID t) (t_RunID t) (t_Event t) (t_Actor t) (t_Detail t) (t_PrevHash t) (t_CurrHash t) (t_Timestamp t) "other"
                else t) sealed2.


Lemma ids2 : NoDup (map t_ID fresh2).
Proof. apply (bool_decide_unpack _). by vm_compute. Qed.

Lemma seal_functional_witness : exists r db', quiet dbexec (Seal "" "run-1") fresh2 = ((Some r, None), db') /\ sr_Sealed r = 2%Z.
Proof.
  destruct (seal_functional "" "run-1" fresh2 ltac:(done) ids2 ltac:(done)) as (r & err & db' & v & Hq & _).
  exists r, db'. rewrite Hq. assert (Hr : (Some r, err) = (quiet dbexec (Seal "" "run-1") fresh2).1) by (by rewrite Hq).
  vm_compute in Hr. injection Hr as -> ->. split; reflexivity.
Defined.

Lemma build_functional_witness :
  (quiet dbexec (Build "" "run-1") fresh2).2 = (quiet dbexec (BuildBatch "" "run-1" 1) fresh2).2 /\
  exists e, (quiet dbexec (Build "" "run-1") sealed2).1 = failBuild e /\ errors_Is e ErrChainAlreadyBuilt = true.
Proof.
  split.
  - pose proof (build_functional "" "run-1" 1 fresh2 ltac:(done) ids2 ltac:(done) ltac:(lia)) as H.
    assert (Hs : sealedIn (chain "run-1" fresh2) = false) by (vm_compute; reflexivity). rewrite Hs in H.
    destruct H as (n & tail & db' & -> & -> & _). done.
  - eexists. split; vm_compute; reflexivity.
Defined.

Lemma sound2 : sound "" fresh2.
Proof.
  split; [apply ids2|]. intros runID Hr.
  assert (H : Forall unsealed (chain runID fresh2)).
  { apply Forall_forall. intros t Ht. apply elem_of_chain in Ht as [Ht _]; [|done]. unfold unsealed, fresh2 in *.
    apply elem_of_cons in Ht as [->|Ht]; [done|]. by apply list_elem_of_singleton in Ht as ->. }
  by apply unsealed_exact.
Qed.

(** A store that answers seals and refuses appends. *)
Definition sealsOnly (db : list Trace) (s : stmt) : list Trace * ans :=
  match s with SCreateTrace _ => (db, failAns (EText "state: create trace: database is locked")) | _ => dbexec db s end.

Lemma sealsOnly_sem db s : sem db s (sealsOnly db s).1 (sealsOnly db s).2.
Proof.
  destruct s; try by apply sem_fault.
  all: match goal with |- sem ?db ?s _ _ =>
    pose proof (sem_ok db s (a_time (dbexec db s).2) (a_id (dbexec db s).2) I) as Hs; unfold sealsOnly; by destruct (dbexec db s) as [d []] end.
Qed.

Definition overlapped : list (op (option SealResult * option goerr)) * list Trace :=
  drive sealsOnly [0; 1; 0; 1; 1; 0] (map (act "") [ASeal "run-1"; ASeal "run-1"]) fresh2.

Lemma concurrent_seals_safe_witness : vr_Valid (verdictOf overlapped.2) = true.
Proof.
  destruct (concurrent_seals_safe "" [ASeal "run-1"; ASeal "run-1"] fresh2 overlapped sound2) as (_ & Hv & _).
  { apply drive_steps, sealsOnly_sem. }
  apply (Hv "run-1"); [vm_compute; reflexivity|].
  apply (bool_decide_unpack _). vm_compute. done.
Defined.

Lemma worm_write_once_witness : exists t, quiet dbexec (Append "" (Some (sample "c" 3 "three"))) sealed2 = (None, sealed2 ++ [t]).
Proof.
  destruct (worm_write_once "" (sample "c" 3 "three") sealed2 ltac:(done)) as (H & _).
  - apply (bool_decide_unpack _). by vm_compute.
  - eexists. exact H.
Defined.

(** ** Observed behaviours *)

(** The trace chain does not cover the tenant: a row moved to another tenant still
    verifies, with the tail it had. *)
Lemma tenant_not_covered :
  vr_Valid (verdictOf moved2) = true /\ tailHash "" (chain "run-1" moved2) = tailHash "" (chain "run-1" sealed2) /\ moved2 <> sealed2.
Proof. split_and!; [vm_compute; reflexivity|vm_compute; reflexivity|]. vm_compute. discriminate. Qed.

(** A chain hashed before V2 verifies, and sealing it reports it as broken. *)
Definition legacy1 : list Trace :=
  Eval vm_compute in [withHashes (sample "a" 1 "one") "" (legacyHash "" (sample "a" 1 "one") "")].

Lemma seal_refuses_legacy_chain :
  vr_Valid (verdictOf legacy1) = true /\
  exists r e, (quiet dbexec (Seal "" "run-1") (legacy1 ++ [sample "b" 2 "two"])).1 = (Some r, Some e) /\ errors_Is e ErrChainBroken = true.
Proof. split; [vm_compute; reflexivity|]. eexists _, _. split; vm_compute; reflexivity. Qed.

(** A record appended through the WORM store is never chained: its checksum is
    taken for a broken link. *)
Lemma worm_record_breaks_chain :
  let db := (quiet dbexec (Append "" (Some (sample "a" 1 "one"))) []).2 in
  (exists e, (quiet dbexec (Build "" "run-1") db).1 = failBuild e /\ errors_Is e ErrChainBroken = true) /\
  (exists r e, (quiet dbexec (Seal "" "run-1") db).1 = (Some r, Some e) /\ errors_Is e ErrChainBroken = true).
Proof. split; [eexists|eexists _, _]; (split; vm_compute; reflexivity). Qed.

(** Two recorders of one run: the second draws its id and its time later but
    inserts first; when the first inserts, it lands before a sealed record. *)
Definition clocked (s : list Trace * list string * list Z) (c : stmt) : (list Trace * list string * list Z) * ans :=
  let '(db, ids, times) := s in
  match c, ids, times with
  | SNewID, id :: ids, _ => ((db, ids, times), MkAns None [] 0 id)
  | SNow, _, t :: times => ((db, ids, times), MkAns None [] t "")
  | _, _, _ => let '(db', r) := dbexec db c in ((db', ids, times), r)
  end.

Definition racing : list (op (goerr + Trace)) :=
  let rec detail := MkTraceRecord "run-1" "step_execute" "system" (inr detail) in
  [Record_ "" (rec "one"); Record_ "" (rec "two")].

Lemma concurrent_records_break_chain :
  exists db t1 t2, drive clocked [0; 0; 1; 1; 1; 1; 1; 0; 0; 0] racing ([], ["a"; "b"], [1%Z; 2%Z])
    = ([Ret (inr t1); Ret (inr t2)], (db, [], [])) /\
    vr_Valid (verdictOf db) = false /\
    exists r e, (quiet dbexec (Seal "" "run-1") db).1 = (Some r, Some e) /\ errors_Is e ErrChainBroken = true.
Proof. eexists _, _, _. split; [vm_compute; reflexivity|]. split; [vm_compute; reflexivity|]. eexists _, _. split; vm_compute; reflexivity. Qed.

End TraceChain.
