(* ===== verification/AuditLog.v ===== *)
(** * AuditLog: the global audit chain and what counts on it

    src/internal/audit/auditchain.go, record.go and denial.go over the audit table
    of src/internal/state/sqlite.go, and src/internal/retrybudget/retrybudget.go,
    which counts its rows. The chain is walked in pages behind a keyset cursor. *)

From Stdlib Require Import ZArith Lia Ascii String.
From stdpp Require Import base gmap sets list strings pretty sorting relations.
From S2P Require Import Prelude RunStatus Concur Rely Table Sha256 Canonical TraceChain.
Import Concur Rely Canonical.
Open Scope string_scope.
Open Scope list_scope.

Module AuditLog.

(** ** The audit table *)

Record Audit := MkAudit {
  au_ID : string;
  au_RunID : string;
  au_Action : string;
  au_Actor : string;
  au_Target : string;
  au_Result : string;
  au_TenantID : string;
  au_PrevHash : string;
  au_CurrHash : string;
  au_Timestamp : Z }.

Record AuditCursor := MkCursor { cu_Timestamp : Z; cu_ID : string }.

Definition DefaultAuditChainPageSize : Z := 1000.

Record AuditFilter := MkAuditFilter {
  af_RunID : string; af_Action : string; af_Actor : string; af_Target : string; af_TenantID : string; af_Limit : Z; af_Offset : Z }.

Inductive stmt :=
| SCreateAudit (a : Audit)
| SUpdateAuditChain (id prev curr : string)
| SGetAudit (id : string)
| SListAudits (f : AuditFilter)
| SListAuditChainPage (after : option AuditCursor) (limit : Z) (tenantID : string)
| SNow
| SNewID.

Record ans := MkAns { a_err : option goerr; a_rows : list Audit; a_time : Z; a_id : string }.
Definition noAns : ans := MkAns None [] 0 "".
Definition failAns (e : goerr) : ans := MkAns (Some e) [] 0 "".

(** [(timestamp, id)] ascending. *)
Definition chainOrder (x y : Audit) : Prop :=
  (au_Timestamp x < au_Timestamp y)%Z \/ (au_Timestamp x = au_Timestamp y /\ String.le (au_ID x) (au_ID y)).
#[export] Instance chainOrder_dec : RelDecision chainOrder.
Proof. intros x y. unfold chainOrder. apply _. Defined.

(** [timestamp > ? OR (timestamp = ? AND id > ?)]. *)
Definition afterCursor (c : option AuditCursor) (a : Audit) : bool :=
  match c with
  | None => true
  | Some c => (cu_Timestamp c <? au_Timestamp a)%Z ||
              ((au_Timestamp a =? cu_Timestamp c)%Z && negb (String.leb (au_ID a) (cu_ID c)))
  end.

Definition ofTenant (tenantID : string) (a : Audit) : bool := String.eqb tenantID "" || String.eqb (au_TenantID a) tenantID.

Definition chainPage (c : option AuditCursor) (limit : Z) (tenantID : string) (db : list Audit) : list Audit :=
  take (Z.to_nat (if (limit <=? 0)%Z then DefaultAuditChainPageSize else limit))
    (merge_sort chainOrder (filter (fun a => afterCursor c a && ofTenant tenantID a = true) db)).

Definition field (want have : string) : bool := String.eqb want "" || String.eqb have want.

Definition selects (f : AuditFilter) (a : Audit) : bool :=
  field (af_RunID f) (au_RunID a) && field (af_Action f) (au_Action a) && field (af_Actor f) (au_Actor a) &&
  field (af_Target f) (au_Target a) && field (af_TenantID f) (au_TenantID a).

(** [ORDER BY timestamp DESC]; the order of ties is the engine's, here the table's. *)
Definition newest (x y : Audit) : Prop := (au_Timestamp y <= au_Timestamp x)%Z.
#[export] Instance newest_dec : RelDecision newest.
Proof. intros x y. unfold newest. apply _. Defined.

Definition withHashes (a : Audit) (prev curr : string) : Audit :=
  MkAudit (au_ID a) (au_RunID a) (au_Action a) (au_Actor a) (au_Target a) (au_Result a) (au_TenantID a) prev curr (au_Timestamp a).

Definition stamp (id prev curr : string) (a : Audit) : Audit :=
  if String.eqb (au_ID a) id then withHashes a prev curr else a.

Definition hasID (id : string) (a : Audit) : bool := String.eqb (au_ID a) id.

Definition dbexec (db : list Audit) (s : stmt) : list Audit * ans :=
  match s with
  | SCreateAudit a =>
      if existsb (hasID (au_ID a)) db
      then (db, failAns (EWrap "state: create audit" (EText "UNIQUE constraint failed: audit.id")))
      else (db ++ [a], noAns)
  | SUpdateAuditChain id prev curr =>
      if existsb (hasID id) db then (map (stamp id prev curr) db, noAns)
      else (db, failAns (EText ("state: update audit chain " +:+ id +:+ ": not found")))
  | SGetAudit id => (db, MkAns None (match filter (fun a => au_ID a = id) db with a :: _ => [a] | [] => [] end) 0 "")
  | SListAudits f =>
      (* the driver rejects OFFSET without LIMIT *)
      if (af_Limit f <=? 0)%Z && (0 <? af_Offset f)%Z
      then (db, failAns (EWrap "state: list audits" (EText "near OFFSET: syntax error")))
      else
        let l := merge_sort newest (filter (fun a => selects f a = true) db) in
        let l := if (0 <? af_Offset f)%Z then drop (Z.to_nat (af_Offset f)) l else l in
        (db, MkAns None (if (0 <? af_Limit f)%Z then take (Z.to_nat (af_Limit f)) l else l) 0 "")
  | SListAuditChainPage c limit tenantID => (db, MkAns None (chainPage c limit tenantID db) 0 "")
  | SNow | SNewID => (db, noAns)
  end.

Definition op (A : Type) : Type := prog stmt ans A.

Section audit.
Variable raw : string.

Definition auditContentFields (a : Audit) : list string :=
  [au_ID a; au_RunID a; au_Action a; au_Actor a; au_Target a; au_Result a; au_TenantID a; pretty (au_Timestamp a)].

Definition ComputeAuditHash (a : Audit) (prevHash : string) : string :=
  digest raw (canonicalV2 (prevHash :: auditContentFields a)).

(** ** The walk *)

Section walk.
Context {S : Type} (fn : S -> Audit -> op (S * option goerr)).

Fixpoint walkPage (st : S) (page : list Audit) : op (S * option goerr) :=
  match page with
  | [] => Ret (st, None)
  | a :: rest =>
      pbind (fn st a) (fun r =>
        match r.2 with Some e => Ret (r.1, Some e) | None => walkPage r.1 rest end)
  end.

(** [walkChain]: [None] when [fuel] pages were not enough. *)
Fixpoint walkChain (fuel : nat) (pageSize : Z) (cursor : option AuditCursor) (st : S) : op (option (S * option goerr)) :=
  match fuel with
  | O => Ret None
  | Datatypes.S fuel =>
      let limit := if (pageSize <=? 0)%Z then DefaultAuditChainPageSize else pageSize in
      Ask (SListAuditChainPage cursor limit "") (fun r =>
        match a_err r with
        | Some e => Ret (Some (st, Some (EWrap "audit: list audits for chain" e)))
        | None =>
            pbind (walkPage st (a_rows r)) (fun w =>
              match w.2 with
              | Some e => Ret (Some (w.1, Some e))
              | None =>
                  if (Z.of_nat (length (a_rows r)) <? limit)%Z then Ret (Some (w.1, None))
                  else match last (a_rows r) with
                       | Some a => walkChain fuel pageSize (Some (MkCursor (au_Timestamp a) (au_ID a))) w.1
                       | None => Ret (Some (w.1, None))
                       end
              end)
        end)
  end.
End walk.

(** ** Seal, Rebuild, Verify *)

Definition relink (a : Audit) (prev want : string) (what : string) (n : Z) : op ((string * Z) * option goerr) :=
  Ask (SUpdateAuditChain (au_ID a) prev want) (fun r => Ret
    match a_err r with
    | Some e => ((prev, n), Some (EWrap (what +:+ au_ID a) e))
    | None => ((want, n + 1)%Z, None)
    end).

Definition sealRow (st : string * Z) (a : Audit) : op ((string * Z) * option goerr) :=
  let '(prev, sealed) := st in
  let want := ComputeAuditHash a prev in
  if String.eqb (au_PrevHash a) prev && String.eqb (au_CurrHash a) want then Ret ((want, sealed), None)
  else if String.eqb (au_CurrHash a) "" then relink a prev want "audit: seal audit " sealed
  else if String.eqb (ComputeAuditHash a (au_PrevHash a)) (au_CurrHash a) then relink a prev want "audit: seal audit " sealed
  else Ret ((prev, sealed),
            Some (EWrap ("audit: seal audit " +:+ au_ID a +:+ ": record content no longer matches the hashes it was sealed with")
                    (ESentinel TraceChain.ErrChainBroken))).

Definition Seal (fuel : nat) (pageSize : Z) : op (option (Z * option goerr)) :=
  pbind (walkChain sealRow fuel pageSize None ("", 0%Z)) (fun r => Ret (option_map (fun x => (x.1.2, x.2)) r)).

Definition rebuildRow (st : string * Z) (a : Audit) : op ((string * Z) * option goerr) :=
  let '(prev, written) := st in
  let want := ComputeAuditHash a prev in
  if negb (String.eqb (au_PrevHash a) prev) || negb (String.eqb (au_CurrHash a) want)
  then relink a prev want "audit: rebuild audit " written
  else Ret ((want, written), None).

Definition Rebuild (fuel : nat) (pageSize : Z) : op (option (Z * option goerr)) :=
  pbind (walkChain rebuildRow fuel pageSize None ("", 0%Z)) (fun r => Ret (option_map (fun x => (x.1.2, x.2)) r)).

Record AuditChainFailure := MkFailure {
  af_AuditID : string; af_Index : Z; af_Type : TraceChain.FailureType; af_Expected : string; af_Actual : string;
  af_PrevExpected : string; af_PrevActual : string }.

Record AuditChainResult := MkResult { ar_Count : Z; ar_Unsealed : Z; ar_Valid : bool; ar_Failures : list AuditChainFailure }.

(** State of the walk: the stored predecessor hash, the index, the result so far. *)
Definition verifyRow (st : string * Z * AuditChainResult) (a : Audit) : op ((string * Z * AuditChainResult) * option goerr) :=
  let '(prev, i, r) := st in
  let want := ComputeAuditHash a prev in
  let fail ty unsealed := MkResult (ar_Count r) unsealed false
    (ar_Failures r ++ [MkFailure (au_ID a) i ty want (au_CurrHash a) prev (au_PrevHash a)]) in
  let r' :=
    if String.eqb (au_CurrHash a) "" then fail TraceChain.FailureEmptyHash (ar_Unsealed r + 1)%Z
    else if negb (String.eqb (au_PrevHash a) prev) then fail TraceChain.FailurePrevHashMismatch (ar_Unsealed r)
    else if negb (String.eqb (au_CurrHash a) want) then fail TraceChain.FailureHashMismatch (ar_Unsealed r)
    else r in
  Ret ((au_CurrHash a, i + 1, r')%Z, None).

Definition Verify (fuel : nat) (pageSize : Z) : op (option (goerr + AuditChainResult)) :=
  pbind (walkChain verifyRow fuel pageSize None ("", 0%Z, MkResult 0 0 true [])) (fun w => Ret
    match w with
    | None => None
    | Some (_, Some e) => Some (inl e)
    | Some ((_, i, r), None) => Some (inr (MkResult i (ar_Unsealed r) (ar_Valid r) (ar_Failures r)))
    end).

(** ** Record *)

Definition auditOutcomeTokens : list string := ["success"; "failed"; "passed"; "denied"; "triggered"; "quorum_pending"].
Definition AuditResultKnown (v : string) : bool := RunStatus.IsValid v || inSet auditOutcomeTokens v.

(** [Record]; an unknown result and a failed seal are only logged. *)
Definition Record_ (fuel : nat) (a : option Audit) : op (option goerr) :=
  match a with
  | None => Ret (Some (EText "audit: record: nil audit entry"))
  | Some a =>
      Ask (SCreateAudit a) (fun r =>
        match a_err r with
        | Some e => Ret (Some e)
        | None => pbind (Seal fuel 0) (fun _ => Ret None)
        end)
  end.

(** [DenialTarget] and [NewDenialRecorder]. *)
Definition DenialTarget (action env : string) : string := if String.eqb env "" then action else action +:+ "@" +:+ env.

Definition recordDenial (fuel : nat) (actor action env : string) : op unit :=
  Ask SNewID (fun i =>
    match a_err i with
    | Some _ => Ret tt
    | None =>
        Ask SNow (fun n =>
          pbind (Record_ fuel (Some (MkAudit (a_id i) "" "permission.denied" actor (DenialTarget action env) "denied" "" "" "" (a_time n))))
            (fun _ => Ret tt))
    end).

(** ** The retry budget *)

Definition MaxAttempts : Z := 3.
Definition AuditActionRetry := "retry".
Definition AuditActionRetryHost := "retry_host".
Definition AuditTargetHost (runID host : string) : string := runID +:+ "/" +:+ host.

Definition countRows (f : AuditFilter) (what : string) : op (goerr + Z) :=
  Ask (SListAudits f) (fun r => Ret
    match a_err r with Some e => inl (EWrap what e) | None => inr (Z.of_nat (length (a_rows r))) end).

Definition RunUsage (runID : string) : op (goerr + Z) :=
  countRows (MkAuditFilter runID AuditActionRetry "" "" "" (MaxAttempts + 1) 0) "retrybudget: count run retries".

Definition HostUsage (runID host : string) : op (goerr + Z) :=
  countRows (MkAuditFilter runID AuditActionRetryHost "" (AuditTargetHost runID host) "" (MaxAttempts + 1) 0)
    "retrybudget: count host retries".

Definition Exhausted (attempts : Z) : bool := (MaxAttempts <=? attempts)%Z.

(** ** The stored order *)

Definition achain (db : list Audit) : list Audit := merge_sort chainOrder db.
Definition after (c : option AuditCursor) (db : list Audit) : list Audit :=
  merge_sort chainOrder (filter (fun a => afterCursor c a = true) db).
Definition cursorOf (a : Audit) : AuditCursor := MkCursor (au_Timestamp a) (au_ID a).

#[local] Instance chainOrder_trans : Transitive chainOrder.
Proof.
  intros x y z. unfold chainOrder. intros [?|[? ?]] [?|[? ?]]; [left; lia|left; lia|left; lia|right].
  split; [lia|]. by transitivity (au_ID y).
Qed.

#[local] Instance chainOrder_total : Total chainOrder.
Proof.
  intros x y. unfold chainOrder. destruct (Z.lt_trichotomy (au_Timestamp x) (au_Timestamp y)) as [?|[->|?]]; [tauto| |tauto].
  destruct (String.le_total (au_ID x) (au_ID y)); tauto.
Qed.

Lemma ids_strict db : NoDup (map au_ID db) -> Table.strict chainOrder db.
Proof.
  intros H x y Hx Hy Hxy Hyx. apply (Table.same_key au_ID db); [done..|].
  unfold chainOrder in *. destruct Hxy as [?|[? ?]], Hyx as [?|[? ?]]; [lia|lia|lia|]. by apply (anti_symm String.le).
Qed.

Lemma afterCursor_spec x a : afterCursor (Some (cursorOf x)) a = true <-> ~ chainOrder a x.
Proof.
  unfold afterCursor, chainOrder, cursorOf. cbn [cu_Timestamp cu_ID]. rewrite orb_true_iff, andb_true_iff, negb_true_iff, Z.ltb_lt, Z.eqb_eq.
  unfold String.le. destruct (String.leb (au_ID a) (au_ID x)); simpl.
  - split; [intros [?|[_ [=]]]; lia|]. intros H. left. lia.
  - split; [intros [?|[? _]]; lia|]. intros H. destruct (Z.eq_dec (au_Timestamp a) (au_Timestamp x)); [by right|left; lia].
Qed.

Lemma achain_ids db : NoDup (map au_ID db) -> NoDup (map au_ID (achain db)).
Proof. unfold achain. by rewrite merge_sort_Permutation. Qed.

Lemma after_rest db l1 x l2 : NoDup (map au_ID db) -> achain db = l1 ++ x :: l2 -> after (Some (cursorOf x)) db = l2.
Proof.
  intros Hnd E. unfold after.
  rewrite (list_filter_iff _ (fun y => ~ chainOrder y x)) by (intros y; apply afterCursor_spec).
  rewrite (Table.sort_filter chainOrder) by (by apply ids_strict). fold (achain db). rewrite E.
  pose proof (achain_ids db Hnd) as Hc. rewrite E in Hc. apply (Table.after_cursor chainOrder).
  - by apply ids_strict.
  - by eapply NoDup_fmap_1.
  - rewrite <- E. unfold achain. apply StronglySorted_merge_sort; apply _.
Qed.

Lemma after_none db : after None db = achain db.
Proof. unfold after, achain. f_equal. induction db as [|a db IH]; [done|]. rewrite filter_cons_True by done. by f_equal. Qed.

(** ** Rewriting hashes *)

Definition hashOnly (f : Audit -> Audit) : Prop := forall a, exists p c, f a = withHashes a p c.

Lemma log_withHashes_id a : withHashes a (au_PrevHash a) (au_CurrHash a) = a.
Proof. by destruct a. Qed.

Lemma hashOnly_id : hashOnly (fun a => a).
Proof. intros a. exists (au_PrevHash a), (au_CurrHash a). by rewrite log_withHashes_id. Qed.

Lemma hashOnly_stamp id p c : hashOnly (stamp id p c).
Proof. intros a. unfold stamp. destruct (String.eqb (au_ID a) id); [by exists p, c|apply hashOnly_id]. Qed.

Lemma hashOnly_comp f g : hashOnly f -> hashOnly g -> hashOnly (fun a => g (f a)).
Proof. intros Hf Hg a. destruct (Hf a) as (p & c & ->). destruct (Hg (withHashes a p c)) as (p' & c' & ->). by exists p', c'. Qed.

Lemma achain_map f db : hashOnly f -> achain (map f db) = map f (achain db).
Proof.
  intros Hf. unfold achain. rewrite (merge_sort_map f chainOrder chainOrder); [done|].
  intros x y. by destruct (Hf x) as (? & ? & ->), (Hf y) as (? & ? & ->).
Qed.

Lemma ids_map f db : hashOnly f -> map au_ID (map f db) = map au_ID db.
Proof. intros Hf. rewrite map_map. apply map_ext. intros a. by destruct (Hf a) as (p & c & ->). Qed.

Lemma stamp_other id p c l : id ∉ map au_ID l -> map (stamp id p c) l = l.
Proof. apply Table.map_other. intros x Hx. unfold stamp. by apply String.eqb_neq in Hx as ->. Qed.

Lemma update_quiet db a p c : a ∈ db -> dbexec db (SUpdateAuditChain (au_ID a) p c) = (map (stamp (au_ID a) p c) db, noAns).
Proof.
  intros Ha. cbn [dbexec]. assert (existsb (hasID (au_ID a)) db = true) as ->; [|done].
  apply existsb_elem. exists a. split; [done|]. apply String.eqb_refl.
Qed.

(** ** Paging is transparent *)

Section pages.
Context {S : Type} (fn : S -> Audit -> op (S * option goerr)).

(** [fn] writes at most the hashes of the row it visits. *)
Definition gentle : Prop := forall st a db, a ∈ db ->
  (quiet dbexec (fn st a) db).2 = db \/ exists p c, (quiet dbexec (fn st a) db).2 = map (stamp (au_ID a) p c) db.

Context (Hfn : gentle).

Lemma walkPage_effect l : forall st db,
  NoDup (map au_ID l) -> (forall a, a ∈ l -> a ∈ db) -> exists f, hashOnly f /\ (quiet dbexec (walkPage fn st l) db).2 = map f db /\
    forall a, au_ID a ∉ map au_ID l -> f a = a.
Proof using Hfn.
  induction l as [|a l IH]; intros st db Hnd Hin; cbn [walkPage].
  { exists (fun a => a). split_and!; [apply hashOnly_id|by rewrite map_id|done]. }
  rewrite quiet_bind. assert (Hstep : exists g, hashOnly g /\ (quiet dbexec (fn st a) db).2 = map g db /\ forall x, au_ID x <> au_ID a -> g x = x).
  { destruct (Hfn st a db) as [->|(p & c & ->)]; [apply Hin; left| |].
    - exists (fun x => x). split_and!; [apply hashOnly_id|by rewrite map_id|done].
    - exists (stamp (au_ID a) p c). split_and!; [apply hashOnly_stamp|done|]. intros x Hx. unfold stamp. by apply String.eqb_neq in Hx as ->. }
  destruct Hstep as (g & Hg & Hdb & Hgo). destruct (quiet dbexec (fn st a) db) as [[st' [e|]] db1]; cbn [fst snd quiet] in *; subst db1.
  { exists g. split_and!; [done|done|]. intros x Hx. apply Hgo. set_solver. }
  apply NoDup_cons in Hnd as [Ha Hnd]. destruct (IH st' (map g db) Hnd) as (f & Hf & -> & Hfo).
  { intros x Hx. rewrite <- (Hgo x).
    - apply (list_elem_of_fmap_2 g). apply Hin. by right.
    - intros Heq. apply Ha. rewrite <- Heq. by apply (list_elem_of_fmap_2 au_ID). }
  exists (fun x => f (g x)). split_and!; [by apply hashOnly_comp|by rewrite map_map|].
  intros x Hx. cbn in Hx. rewrite Hgo by set_solver. apply Hfo. set_solver.
Qed.

Lemma walkPage_app l1 : forall l2 st db,
  quiet dbexec (walkPage fn st (l1 ++ l2)) db =
  quiet dbexec (pbind (walkPage fn st l1) (fun w => match w.2 with Some e => Ret (w.1, Some e) | None => walkPage fn w.1 l2 end)) db.
Proof using Type.
  induction l1 as [|a l1 IH]; intros l2 st db; cbn [app walkPage]; [done|]. rewrite !quiet_bind.
  destruct (quiet dbexec (fn st a) db) as [[st' [e|]] db1]; cbn [fst snd]; [done|]. rewrite IH. by rewrite quiet_bind.
Qed.

Lemma walkChain_quiet pageSize fuel : forall cursor st db d rest,
  NoDup (map au_ID db) -> achain db = d ++ rest -> after cursor db = rest -> length rest < fuel ->
  quiet dbexec (walkChain fn fuel pageSize cursor st) db =
  (Some (quiet dbexec (walkPage fn st rest) db).1, (quiet dbexec (walkPage fn st rest) db).2).
Proof using Hfn.
  induction fuel as [|fuel IH]; intros cursor st db d rest Hnd E Ha Hlen; [lia|]. cbn [walkChain quiet dbexec].
  set (limit := if (pageSize <=? 0)%Z then DefaultAuditChainPageSize else pageSize).
  assert (Hlim : (0 < limit)%Z) by (unfold limit, DefaultAuditChainPageSize; destruct (Z.leb_spec pageSize 0); lia).
  assert (Hpage : chainPage cursor limit "" db = take (Z.to_nat limit) rest).
  { unfold chainPage. rewrite (proj2 (Z.leb_gt _ _)) by done. rewrite <- Ha. unfold after. f_equal. f_equal.
    apply list_filter_iff. intros a. by rewrite andb_true_r. }
  cbn [a_err a_rows]. rewrite Hpage. clear Hpage. set (n := Z.to_nat limit) in *. rewrite quiet_bind.
  pose proof (take_drop n rest) as Hsplit. set (page := take n rest) in *. set (rest' := drop n rest) in *.
  pose proof (achain_ids db Hnd) as Hids. rewrite E, <- Hsplit, !map_app in Hids.
  apply NoDup_app in Hids as (_ & _ & Hids). apply NoDup_app in Hids as (Hpids & Hdis & _).
  destruct (walkPage_effect page st db Hpids) as (f & Hf & Hdb & Hfo).
  { intros a Hin. rewrite <- (merge_sort_Permutation chainOrder). fold (achain db). rewrite E, <- Hsplit. set_solver. }
  replace (walkPage fn st rest) with (walkPage fn st (page ++ rest')) by (by rewrite Hsplit). rewrite walkPage_app, quiet_bind.
  destruct (quiet dbexec (walkPage fn st page) db) as [[st' [e|]] db1]; cbn [fst snd] in *; [done|]. subst db1.
  assert (Hrest : map f rest' = rest').
  { clear -Hfo Hdis. induction rest' as [|x r IH]; simpl; [done|]. rewrite Hfo, IH; [done| |].
    - intros y Hy1 Hy2. apply (Hdis y Hy1). by right.
    - intros Hx. apply (Hdis _ Hx). left. }
  assert (Hplen : length page = n `min` length rest) by (unfold page; apply length_take).
  destruct (Z.ltb_spec (Z.of_nat (length page)) limit) as [Hshort|Hfull].
  - assert (rest' = []) as -> by (apply nil_length_inv; unfold rest'; rewrite length_drop; lia). done.
  - destruct page as [|a0 page0] eqn:Hpg using rev_ind; [simpl in Hfull; lia|]. rewrite last_snoc.
    assert (Hac : achain (map f db) = map f (d ++ page0) ++ f a0 :: rest').
    { rewrite achain_map, E, <- Hsplit by done. rewrite !map_app, Hrest. simpl. by rewrite <- !app_assoc. }
    assert (Hcur : MkCursor (au_Timestamp a0) (au_ID a0) = cursorOf (f a0)) by (destruct (Hf a0) as (? & ? & ->); done).
    rewrite Hcur. apply (IH _ _ _ (map f (d ++ page0) ++ [f a0])).
    + by rewrite ids_map.
    + by rewrite Hac, <- app_assoc.
    + eapply after_rest; [by rewrite ids_map|exact Hac].
    + unfold rest'. rewrite length_drop. lia.
Qed.

Lemma walkChain_whole fuel pageSize st db :
  NoDup (map au_ID db) -> length db < fuel ->
  quiet dbexec (walkChain fn fuel pageSize None st) db =
  (Some (quiet dbexec (walkPage fn st (achain db)) db).1, (quiet dbexec (walkPage fn st (achain db)) db).2).
Proof using Hfn.
  intros Hnd Hl. apply (walkChain_quiet pageSize fuel None st db []); [done|done|apply after_none|].
  unfold achain. by rewrite merge_sort_Permutation.
Qed.

End pages.

Lemma relink_gentle a prev want what n db :
  a ∈ db -> (quiet dbexec (relink a prev want what n) db).2 = map (stamp (au_ID a) prev want) db /\
            (quiet dbexec (relink a prev want what n) db).1 = ((want, n + 1)%Z, None).
Proof. intros Ha. unfold relink. cbn [quiet]. rewrite update_quiet by done. done. Qed.

Lemma sealRow_gentle : gentle sealRow.
Proof.
  intros [prev n] a db Ha. cbn [sealRow]. repeat case_match; try (by left); right; eexists _, _; by apply relink_gentle.
Qed.

Lemma rebuildRow_gentle : gentle rebuildRow.
Proof. intros [prev n] a db Ha. cbn [rebuildRow]. case_match; [right; eexists _, _; by apply relink_gentle|by left]. Qed.

Lemma verifyRow_gentle : gentle verifyRow.
Proof. intros [[prev i] r] a db Ha. by left. Qed.

(** Paging is invisible: over a quiet table, whatever the page size, a seal, a
    rebuild and a verification visit every row exactly once in chain order, as one
    pass over the sorted table would, and stop within one page per row. *)
Theorem chain_walk_transparent (fuel : nat) (pageSize : Z) (db : list Audit) (Hids : NoDup (map au_ID db)) (Hfuel : length db < fuel) :
  (forall st, quiet dbexec (walkChain sealRow fuel pageSize None st) db =
     (let '(r, db') := quiet dbexec (walkPage sealRow st (achain db)) db in (Some r, db'))) /\
  (forall st, quiet dbexec (walkChain rebuildRow fuel pageSize None st) db =
     (let '(r, db') := quiet dbexec (walkPage rebuildRow st (achain db)) db in (Some r, db'))) /\
  (forall st, quiet dbexec (walkChain verifyRow fuel pageSize None st) db =
     (let '(r, db') := quiet dbexec (walkPage verifyRow st (achain db)) db in (Some r, db'))) /\
  achain db ≡ₚ db /\ StronglySorted chainOrder (achain db).
Proof.
  split_and!; [intros st; rewrite walkChain_whole; [by destruct (quiet _ _ db)| |done|done]..| |].
  - apply sealRow_gentle.
  - apply rebuildRow_gentle.
  - apply verifyRow_gentle.
  - apply merge_sort_Permutation.
  - apply StronglySorted_merge_sort; apply _.
Qed.

(** ** Sealing *)

(** The stored pair matches the row's own content. *)
Definition selfConsistent (a : Audit) : Prop := au_CurrHash a = ComputeAuditHash a (au_PrevHash a).
(** Never sealed, or unaltered since. *)
Definition intact (a : Audit) : Prop := au_CurrHash a = "" \/ selfConsistent a.

(** What a seal may do to a row. *)
Definition relinks (x y : Audit) : Prop :=
  y = x \/ (intact x /\ exists p, y = withHashes x p (ComputeAuditHash x p)).

Fixpoint chainOk (prev : string) (l : list Audit) : Prop :=
  match l with
  | [] => True
  | a :: l => au_PrevHash a = prev /\ au_CurrHash a = ComputeAuditHash a prev /\ chainOk (au_CurrHash a) l
  end.

Lemma relinks_refl db : Forall2 relinks db db.
Proof. induction db; constructor; [by left|done]. Qed.

Lemma relinks_trans db1 db2 db3 : Forall2 relinks db1 db2 -> Forall2 relinks db2 db3 -> Forall2 relinks db1 db3.
Proof.
  intros H. revert db3. induction H as [|x y l1 l2 Hxy _ IH]; intros db3 H3; inversion H3 as [|? z ? l3 Hyz]; subst; constructor; [|auto].
  destruct Hxy as [->|(Hx & p & ->)]; [done|]. destruct Hyz as [->|(_ & p' & ->)]; right; (split; [done|by eexists]).
Qed.

Fixpoint sealWalk (prev : string) (l : list Audit) : list Audit * bool :=
  match l with
  | [] => ([], true)
  | a :: rest =>
      let want := ComputeAuditHash a prev in
      let '(rest', ok) := sealWalk want rest in
      if String.eqb (au_PrevHash a) prev && String.eqb (au_CurrHash a) want then (a :: rest', ok)
      else if String.eqb (au_CurrHash a) "" || String.eqb (ComputeAuditHash a (au_PrevHash a)) (au_CurrHash a)
           then (withHashes a prev want :: rest', ok)
      else (a :: rest, false)
  end.

Lemma log_sealWalk_ok prev l : (sealWalk prev l).2 = true <-> Forall intact l.
Proof.
  revert prev. induction l as [|a l IH]; intros prev; cbn [sealWalk]; [naive_solver|]. specialize (IH (ComputeAuditHash a prev)).
  rewrite Forall_cons. unfold intact at 1, selfConsistent.
  destruct (sealWalk (ComputeAuditHash a prev) l) as [r b]. cbn [snd] in IH.
  destruct (String.eqb_spec (au_PrevHash a) prev) as [Hp|], (String.eqb_spec (au_CurrHash a) (ComputeAuditHash a prev)),
    (String.eqb_spec (au_CurrHash a) ""), (String.eqb_spec (ComputeAuditHash a (au_PrevHash a)) (au_CurrHash a)); subst; cbn [andb orb snd]; naive_solver.
Qed.

Lemma log_sealWalk_exact prev l : if (sealWalk prev l).2 then chainOk prev (sealWalk prev l).1 else ~ chainOk prev (sealWalk prev l).1.
Proof.
  revert prev. induction l as [|a l IH]; intros prev; cbn [sealWalk]; [done|]. specialize (IH (ComputeAuditHash a prev)).
  destruct (String.eqb_spec (au_PrevHash a) prev) as [Hp|Hp], (String.eqb_spec (au_CurrHash a) (ComputeAuditHash a prev)) as [Hc|Hc],
    (String.eqb (au_CurrHash a) "" || String.eqb (ComputeAuditHash a (au_PrevHash a)) (au_CurrHash a)); cbn [andb];
    destruct (sealWalk (ComputeAuditHash a prev) l) as [r []]; cbn [fst snd chainOk] in *; rewrite ?Hc; naive_solver.
Qed.

Lemma stamp_achain db d a l p c :
  NoDup (map au_ID db) -> achain db = d ++ a :: l -> achain (map (stamp (au_ID a) p c) db) = d ++ withHashes a p c :: l.
Proof.
  intros Hnd E. pose proof (achain_ids db Hnd) as Hc. rewrite E, map_app in Hc. cbn [map] in Hc.
  apply NoDup_app in Hc as (_ & Hd & Hl). apply NoDup_cons in Hl as [Hl _].
  rewrite achain_map by apply hashOnly_stamp. rewrite E, map_app. cbn [map].
  rewrite !stamp_other; [|done|intros Hin; apply (Hd _ Hin); left]. unfold stamp at 1. by rewrite String.eqb_refl.
Qed.

Lemma elem_of_achain db a : a ∈ achain db <-> a ∈ db.
Proof. unfold achain. by rewrite merge_sort_Permutation. Qed.

Lemma sealRow_cases prev n a db :
  a ∈ db ->
  quiet dbexec (sealRow (prev, n) a) db =
    if String.eqb (au_PrevHash a) prev && String.eqb (au_CurrHash a) (ComputeAuditHash a prev) then ((ComputeAuditHash a prev, n, None), db)
    else if String.eqb (au_CurrHash a) "" || String.eqb (ComputeAuditHash a (au_PrevHash a)) (au_CurrHash a)
    then ((ComputeAuditHash a prev, n + 1, None)%Z, map (stamp (au_ID a) prev (ComputeAuditHash a prev)) db)
    else ((prev, n, Some (EWrap ("audit: seal audit " +:+ au_ID a +:+ ": record content no longer matches the hashes it was sealed with")
                    (ESentinel TraceChain.ErrChainBroken))), db).
Proof.
  intros Ha. cbn [sealRow]. destruct (_ && _); [done|].
  destruct (String.eqb (au_CurrHash a) ""); cbn [orb].
  2: destruct (String.eqb (ComputeAuditHash a (au_PrevHash a)) (au_CurrHash a)); [|done].
  all: unfold relink; cbn [quiet]; by rewrite update_quiet.
Qed.

Lemma stamp_relinks db a p :
  NoDup (map au_ID db) -> a ∈ db -> intact a -> Forall2 relinks db (map (stamp (au_ID a) p (ComputeAuditHash a p)) db).
Proof.
  intros Hnd Ha Hi. apply Table.Forall2_map_diag. intros x Hx. unfold stamp.
  destruct (String.eqb_spec (au_ID x) (au_ID a)) as [E|]; [|by left].
  apply (Table.same_key au_ID db) in E as ->; [|done..]. right. eauto.
Qed.

Lemma sealPage_quiet l : forall d prev n db,
  NoDup (map au_ID db) -> achain db = d ++ l ->
  let '(((prev', n'), err), db') := quiet dbexec (walkPage sealRow (prev, n) l) db in
  achain db' = d ++ (sealWalk prev l).1 /\ Forall2 relinks db db' /\
  if (sealWalk prev l).2 then err = None else exists e, err = Some e /\ errors_Is e TraceChain.ErrChainBroken = true.
Proof.
  induction l as [|a l IH]; intros d prev n db Hnd E; cbn [walkPage sealWalk].
  { cbn [quiet]. split_and!; [done|apply relinks_refl|done]. }
  rewrite quiet_bind. assert (Ha : a ∈ db) by (apply elem_of_achain; rewrite E; set_solver). rewrite sealRow_cases by done.
  pose proof (fun d' => IH d' (ComputeAuditHash a prev)) as IH'. destruct (sealWalk (ComputeAuditHash a prev) l) as [rest ok].
  destruct (_ && _) eqn:Hex; [|destruct (_ || _) eqn:Hint]; cbn [fst snd].
  - specialize (IH' (d ++ [a]) n db Hnd ltac:(by rewrite E, <- app_assoc)).
    destruct (quiet dbexec (walkPage sealRow (ComputeAuditHash a prev, n) l) db) as [[[p' n'] err] db']. cbn [fst snd] in *.
    by rewrite <- app_assoc in IH'.
  - specialize (IH' (d ++ [withHashes a prev (ComputeAuditHash a prev)]) (n + 1)%Z (map (stamp (au_ID a) prev (ComputeAuditHash a prev)) db)
      ltac:(rewrite ids_map; [done|apply hashOnly_stamp]) ltac:(rewrite <- app_assoc; by apply stamp_achain)).
    destruct (quiet dbexec (walkPage sealRow _ l) _) as [[[p' n'] err] db']. cbn [fst snd] in *. rewrite <- app_assoc in IH'.
    destruct IH' as (H1 & H2 & H3). split_and!; [done| |done]. eapply relinks_trans; [|exact H2]. apply stamp_relinks; [done|done|].
    apply orb_true_iff in Hint as [Hint|Hint]; boolp; [by left|by right].
  - split_and!; [done|apply relinks_refl|by eexists].
Qed.

(** ** Verification *)

Lemma verifyPage_quiet l : forall prev i r db,
  let '(((prev', i'), r'), err, db') := quiet dbexec (walkPage verifyRow (prev, i, r) l) db in
  err = None /\ db' = db /\ i' = (i + Z.of_nat (length l))%Z /\
  (ar_Valid r' = true <-> ar_Valid r = true /\ chainOk prev l).
Proof.
  induction l as [|a l IH]; intros prev i r db; cbn [walkPage quiet chainOk].
  { split_and!; [done|done|simpl; lia|tauto]. }
  rewrite quiet_bind. cbn [verifyRow quiet fst snd].
  set (r' := if String.eqb (au_CurrHash a) "" then _ else _). specialize (IH (au_CurrHash a) (i + 1)%Z r' db).
  destruct (quiet dbexec (walkPage verifyRow _ l) db) as [[[[p' i'] r''] err] db']. destruct IH as (-> & -> & -> & Hv).
  split_and!; [done|done|simpl length; lia|]. rewrite Hv. unfold r'.
  destruct (String.eqb_spec (au_CurrHash a) "") as [He|].
  { rewrite He. split; [by intros [? _]|]. intros (_ & _ & Hc & _). exfalso. symmetry in Hc. by apply digest_nonempty in Hc. }
  destruct (String.eqb_spec (au_PrevHash a) prev), (String.eqb_spec (au_CurrHash a) (ComputeAuditHash a prev)); cbn [negb ar_Valid]; naive_solver.
Qed.

Lemma Verify_quiet fuel pageSize db :
  NoDup (map au_ID db) -> length db < fuel ->
  exists v, quiet dbexec (Verify fuel pageSize) db = (Some (inr v), db) /\ ar_Count v = Z.of_nat (length db) /\
    (ar_Valid v = true <-> chainOk "" (achain db)).
Proof.
  intros Hnd Hl. unfold Verify. rewrite quiet_bind, walkChain_whole by (done || apply verifyRow_gentle).
  pose proof (verifyPage_quiet (achain db) "" 0 (MkResult 0 0 true []) db) as H.
  destruct (quiet dbexec (walkPage verifyRow _ (achain db)) db) as [[[[p' i'] r'] err] db']. destruct H as (-> & -> & -> & Hv).
  cbn [fst snd quiet]. eexists. split_and!; [done| |cbn [ar_Valid]; naive_solver].
  cbn [ar_Count]. unfold achain. by rewrite merge_sort_Permutation.
Qed.

Lemma audit_seal_core (fuel : nat) (pageSize : Z) (db : list Audit) (Hids : NoDup (map au_ID db)) (Hfuel : length db < fuel) :
  exists n err db' v, quiet dbexec (Seal fuel pageSize) db = (Some (n, err), db') /\ Forall2 relinks db db' /\
    quiet dbexec (Verify fuel pageSize) db' = (Some (inr v), db') /\ ar_Count v = Z.of_nat (length db) /\
    (err = None <-> Forall intact db) /\ (err = None <-> ar_Valid v = true) /\
    (forall e, err = Some e -> errors_Is e TraceChain.ErrChainBroken = true).
Proof.
  unfold Seal. rewrite quiet_bind, walkChain_whole by (done || apply sealRow_gentle).
  pose proof (sealPage_quiet (achain db) [] "" 0 db Hids eq_refl) as H.
  destruct (quiet dbexec (walkPage sealRow ("", 0%Z) (achain db)) db) as [[[p' n'] err] db']. destruct H as (Hc & HF & Herr).
  cbn [fst snd quiet option_map app] in *.
  assert (Hids' : map au_ID db' = map au_ID db).
  { clear -HF. induction HF as [|x y l l' Hxy _ IH]; simpl; [done|]. rewrite IH. destruct Hxy as [->|(_ & p & ->)]; done. }
  assert (Hlen : length db' = length db) by (symmetry; by eapply Forall2_length).
  destruct (Verify_quiet fuel pageSize db') as (v & Hv & Hn & Hval); [by rewrite Hids'|by rewrite Hlen|].
  exists n', err, db', v. split_and!; [done|done|done|by rewrite Hn, Hlen| | |].
  - rewrite <- (merge_sort_Permutation chainOrder db) at 1. fold (achain db). rewrite <- (log_sealWalk_ok "").
    destruct (sealWalk "" (achain db)).2; [naive_solver|]. destruct Herr as (e & -> & _). naive_solver.
  - rewrite Hval, Hc. pose proof (log_sealWalk_exact "" (achain db)) as Hx.
    destruct (sealWalk "" (achain db)).2; [naive_solver|]. destruct Herr as (e & -> & _). naive_solver.
  - intros e ->. destruct (sealWalk "" (achain db)).2; [done|]. by destruct Herr as (e' & [= ->] & ?).
Qed.

(** Sealing the audit log heals what may be healed and launders nothing: it
    terminates, changes only hashes and only of rows that were unsealed or still
    match their own hashes; it succeeds exactly when no row was altered, and then
    the log verifies; otherwise it reports a broken chain and the log still fails
    verification. *)
Theorem audit_seal_functional (fuel : nat) (pageSize : Z) (db : list Audit) (Hids : NoDup (map au_ID db)) (Hfuel : length db < fuel) :
  exists n err db' v, quiet dbexec (Seal fuel pageSize) db = (Some (n, err), db') /\ Forall2 relinks db db' /\
    quiet dbexec (Verify fuel pageSize) db' = (Some (inr v), db') /\ ar_Count v = Z.of_nat (length db) /\
    (err = None <-> Forall intact db) /\ (err = None <-> ar_Valid v = true) /\
    (forall e, err = Some e -> errors_Is e TraceChain.ErrChainBroken = true).
Proof. by apply audit_seal_core. Qed.

(** Recording writes the entry before anything else and never loses it: an id
    in use is refused with the log unchanged; otherwise the entry is in the log
    with its content, and when no earlier row was altered the log then verifies
    with the entry sealed. *)
Theorem audit_record_functional (fuel : nat) (a : Audit) (db : list Audit) (Hids : NoDup (map au_ID db)) (Hfuel : S (length db) < fuel)
    (Hnew : au_CurrHash a = "") :
  if existsb (hasID (au_ID a)) db then exists e, quiet dbexec (Record_ fuel (Some a)) db = (Some e, db)
  else exists db', quiet dbexec (Record_ fuel (Some a)) db = (None, db') /\ Forall2 relinks (db ++ [a]) db' /\
    (Forall intact db -> exists v, quiet dbexec (Verify fuel 0) db' = (Some (inr v), db') /\ ar_Valid v = true).
Proof.
  cbn [Record_ quiet dbexec]. destruct (existsb (hasID (au_ID a)) db) eqn:Hex; cbn [a_err failAns noAns quiet]; [by eexists|].
  assert (Hnd : NoDup (map au_ID (db ++ [a]))).
  { rewrite map_app. apply NoDup_app. split_and!; [done| |by repeat constructor; set_solver].
    intros id (x & -> & Hx)%list_elem_of_fmap Hid. apply list_elem_of_singleton in Hid.
    assert (existsb (hasID (au_ID a)) db = true); [|congruence]. apply existsb_elem. exists x. split; [done|]. by apply String.eqb_eq. }
  destruct (audit_seal_core fuel 0 (db ++ [a]) Hnd) as (n & err & db' & v & Hs & HF & Hv & _ & Hint & Hval & _).
  { rewrite length_app. simpl. lia. }
  rewrite quiet_bind, Hs. exists db'. split_and!; [done|done|]. intros Hdb. exists v. split; [done|]. apply Hval, Hint.
  apply Forall_app. split; [done|]. constructor; [by left|constructor].
Qed.

(** ** Tamper evidence *)

Fixpoint tailHash (prev : string) (l : list Audit) : string :=
  match l with [] => prev | a :: l => tailHash (au_CurrHash a) l end.

Lemma log_tailHash_app prev l a : tailHash prev (l ++ [a]) = au_CurrHash a.
Proof. revert prev. induction l; intros prev; simpl; auto. Qed.

Lemma log_chainOk_app prev l a :
  chainOk prev (l ++ [a]) <->
  chainOk prev l /\ au_PrevHash a = tailHash prev l /\ au_CurrHash a = ComputeAuditHash a (tailHash prev l).
Proof. revert prev. induction l as [|x l IH]; intros prev; simpl; [tauto|]. rewrite IH. tauto. Qed.

Lemma audit_hash_binds a p a' p' :
  ComputeAuditHash a p = ComputeAuditHash a' p' -> (p = p' /\ auditContentFields a = auditContentFields a') \/ collision raw.
Proof.
  intros E. destruct (digest_inj _ _ _ E) as [H|]; [left|by right]. apply canonicalV2_inj in H.
  exact (conj (f_equal (hd "") H) (f_equal tl H)).
Qed.

Lemma log_tails_bind l l' :
  chainOk "" l -> chainOk "" l' -> tailHash "" l = tailHash "" l' ->
  map auditContentFields l = map auditContentFields l' \/ collision raw.
Proof.
  revert l'. induction l as [|a l IH] using rev_ind; intros l' H1 H2 Ht.
  - destruct l' as [|a' l' _] using rev_ind; [by left|]. apply log_chainOk_app in H2 as (_ & _ & Hc). rewrite log_tailHash_app in Ht.
    simpl in Ht. rewrite <- Ht in Hc. symmetry in Hc. by apply digest_nonempty in Hc.
  - apply log_chainOk_app in H1 as (H1 & _ & Hc). rewrite log_tailHash_app in Ht.
    destruct l' as [|a' l' _] using rev_ind; [exfalso; simpl in Ht; rewrite Ht in Hc; symmetry in Hc; by apply digest_nonempty in Hc|].
    apply log_chainOk_app in H2 as (H2 & _ & Hc'). rewrite log_tailHash_app in Ht.
    destruct (audit_hash_binds a (tailHash "" l) a' (tailHash "" l')) as [[Hp Hf]|?]; [congruence| |by right].
    destruct (IH l' H1 H2 Hp) as [He|?]; [left|by right]. by rewrite !map_app, He; simpl; rewrite Hf.
Qed.

(** The audit log is tamper evident, tenants included: two logs that verify and
    end in the same hash have the same entries in the same order, or two messages
    with one digest are known. *)
Theorem audit_log_tamper_evident (fuel : nat) (pageSize : Z) (db db' : list Audit) (v v' : AuditChainResult)
    (Hids : NoDup (map au_ID db)) (Hids' : NoDup (map au_ID db')) (Hf : length db < fuel) (Hf' : length db' < fuel)
    (Hv : quiet dbexec (Verify fuel pageSize) db = (Some (inr v), db)) (Hval : ar_Valid v = true)
    (Hv' : quiet dbexec (Verify fuel pageSize) db' = (Some (inr v'), db')) (Hval' : ar_Valid v' = true)
    (Htail : tailHash "" (achain db) = tailHash "" (achain db')) :
  map auditContentFields (achain db) = map auditContentFields (achain db') \/ collision raw.
Proof.
  destruct (Verify_quiet fuel pageSize db Hids Hf) as (u & Hu & _ & Hok). destruct (Verify_quiet fuel pageSize db' Hids' Hf') as (u' & Hu' & _ & Hok').
  rewrite Hv in Hu. rewrite Hv' in Hu'. injection Hu as <-. injection Hu' as <-. apply log_tails_bind; [by apply Hok|by apply Hok'|done].
Qed.

End audit.

(** ** The retry budget *)

Definition runRetries (runID : string) (db : list Audit) : list Audit :=
  filter (fun a => field runID (au_RunID a) && String.eqb (au_Action a) AuditActionRetry = true) db.
Definition hostRetries (runID host : string) (db : list Audit) : list Audit :=
  filter (fun a => field runID (au_RunID a) && String.eqb (au_Action a) AuditActionRetryHost &&
                   String.eqb (au_Target a) (AuditTargetHost runID host) = true) db.

Lemma AuditTargetHost_nonempty runID host : String.eqb (AuditTargetHost runID host) "" = false.
Proof. unfold AuditTargetHost. by destruct runID. Qed.

Lemma countRows_quiet run action target what db :
  let f := MkAuditFilter run action "" target "" (MaxAttempts + 1) 0 in
  quiet dbexec (countRows f what) db = (inr (Z.min (MaxAttempts + 1) (Z.of_nat (length (filter (fun a => selects f a = true) db)))), db).
Proof.
  intros f. unfold countRows. cbn [quiet dbexec]. change ((af_Limit f <=? 0)%Z && (0 <? af_Offset f)%Z) with false. cbn [a_err a_rows].
  change ((0 <? af_Offset f)%Z) with false. change ((0 <? af_Limit f)%Z) with true. cbn iota.
  rewrite length_take, merge_sort_Permutation. do 2 f_equal. unfold MaxAttempts. change (af_Limit f) with (MaxAttempts + 1)%Z. unfold MaxAttempts. lia.
Qed.

Lemma exhausted_min n : Exhausted (Z.min (MaxAttempts + 1) n) = (MaxAttempts <=? n)%Z.
Proof. unfold Exhausted, MaxAttempts. destruct (Z.leb_spec 3 n); [apply Z.leb_le|apply Z.leb_gt]; lia. Qed.

(** The retry budget is exact: the bounded count a retry is judged by refuses
    exactly when three attempts are recorded, per run and per host of the run,
    however many other rows the log holds. *)
Theorem retry_budget_exact (runID host : string) (db : list Audit) :
  (exists n, quiet dbexec (RunUsage runID) db = (inr n, db) /\ n = Z.min (MaxAttempts + 1) (Z.of_nat (length (runRetries runID db))) /\
     Exhausted n = (MaxAttempts <=? Z.of_nat (length (runRetries runID db)))%Z) /\
  (exists n, quiet dbexec (HostUsage runID host) db = (inr n, db) /\
     n = Z.min (MaxAttempts + 1) (Z.of_nat (length (hostRetries runID host db))) /\
     Exhausted n = (MaxAttempts <=? Z.of_nat (length (hostRetries runID host db)))%Z).
Proof.
  split; eexists; (split_and!; [apply countRows_quiet| |]); rewrite ?exhausted_min; do 3 f_equal; apply list_filter_iff; intros a;
    unfold selects, field; cbn [af_RunID af_Action af_Actor af_Target af_TenantID]; rewrite ?AuditTargetHost_nonempty; simpl; by rewrite !andb_true_r.
Qed.

(** ** Concrete logs *)

Definition entry (id : string) (ts : Z) (action : string) : Audit := MkAudit id "run-1" action "alice" "run-1" "success" "" "" "" ts.
Definition log3 : list Audit := [entry "c" 3 "retry"; entry "a" 1 "create"; entry "b" 2 "approve"].
Definition sealed3 : list Audit := Eval vm_compute in (quiet dbexec (Seal "" 4 0) log3).2.
Definition verdictOf (db : list Audit) : AuditChainResult :=
  match (quiet dbexec (Verify "" 5 2) db).1 with Some (inr v) => v | _ => MkResult 0 0 false [] end.

Lemma log3_ids : NoDup (map au_ID log3).
Proof. apply (bool_decide_unpack _). by vm_compute. Qed.
Lemma sealed3_ids : NoDup (map au_ID sealed3).
Proof. apply (bool_decide_unpack _). by vm_compute. Qed.

Lemma chain_walk_transparent_witness :
  (quiet dbexec (walkChain (sealRow "") 4 1 None ("", 0%Z)) log3).2 = (quiet dbexec (walkPage (sealRow "") ("", 0%Z) (achain log3)) log3).2.
Proof.
  destruct (chain_walk_transparent "" 4 1 log3 log3_ids ltac:(simpl; lia)) as (H & _). rewrite (H ("", 0%Z)).
  by destruct (quiet dbexec _ log3).
Defined.

Lemma audit_seal_functional_witness : exists n db', quiet dbexec (Seal "" 4 2) log3 = (Some (n, None), db') /\ n = 3%Z.
Proof.
  destruct (audit_seal_functional "" 4 2 log3 log3_ids ltac:(simpl; lia)) as (n & err & db' & v & Hq & _).
  exists n, db'. rewrite Hq. assert (Hr : Some (n, err) = (quiet dbexec (Seal "" 4 2) log3).1) by (by rewrite Hq).
  vm_compute in Hr. injection Hr as -> ->. split; reflexivity.
Defined.

Lemma audit_record_functional_witness :
  exists db', quiet dbexec (Record_ "" 6 (Some (entry "d" 2 "cancel"))) sealed3 = (None, db') /\ length db' = 4.
Proof.
  pose proof (audit_record_functional "" 6 (entry "d" 2 "cancel") sealed3 sealed3_ids ltac:(simpl; lia) eq_refl) as H.
  assert (E : existsb (hasID (au_ID (entry "d" 2 "cancel"))) sealed3 = false) by (vm_compute; reflexivity). rewrite E in H.
  destruct H as (db' & -> & HF & _). exists db'. split; [done|]. apply Forall2_length in HF. by rewrite <- HF.
Defined.

Lemma audit_log_tamper_evident_witness :
  map auditContentFields (achain sealed3) = map auditContentFields (achain sealed3) \/ collision "".
Proof.
  apply (audit_log_tamper_evident "" 5 2 sealed3 sealed3 (verdictOf sealed3) (verdictOf sealed3) sealed3_ids sealed3_ids);
    [simpl; lia|simpl; lia|vm_compute; reflexivity..].
Defined.

(** ** Observed behaviours *)

(** An altered row is caught and kept as evidence by the next seal. *)
Definition altered3 : list Audit :=
  map (fun a => if String.eqb (au_ID a) "b"
                then MkAudit "b" "run-1" "approve" "mallory" "run-1" "success" "" (au_PrevHash a) (au_CurrHash a) 2 else a) sealed3.

Lemma altered_row_is_kept :
  exists n e, quiet dbexec (Seal "" 4 0) altered3 = (Some (n, Some e), altered3) /\ ar_Valid (verdictOf altered3) = false.
Proof. eexists _, _. split; vm_compute; reflexivity. Qed.

(** A deleted row breaks verification only until the next seal. *)
Lemma deletion_is_relinked :
  let cut := filter (fun a => au_ID a <> "b") sealed3 in
  ar_Valid (verdictOf cut) = false /\ ar_Valid (verdictOf (quiet dbexec (Seal "" 4 0) cut).2) = true.
Proof. split; vm_compute; reflexivity. Qed.

(** Paging through the log with an offset and no limit fails in the driver. *)
Lemma offset_needs_limit : exists e, a_err (dbexec log3 (SListAudits (MkAuditFilter "" "" "" "" "" 0 1))).2 = Some e.
Proof. eexists. reflexivity. Qed.

End AuditLog.
