(* ===== verification/Cluster.v ===== *)
(** * Cluster: leases, fencing tokens and leader election

    src/internal/cluster: the lease tables behind execution guards (exec_guard.go)
    and distributed locks (distributed_lock.go), which share one upsert pattern,
    and the node registry with its convergent election (node.go, the shared view
    of pg_registry.go). PostgreSQL's [NOW()] is an argument of every statement;
    sequences are counters. *)

From Stdlib Require Import ZArith Lia String.
From stdpp Require Import base gmap sets list strings sorting relations.
From S2P Require Import Prelude.
Open Scope string_scope.
Open Scope list_scope.
Local Open Scope Z_scope.

Module Cluster.

(** ** Lease tables *)

Record leaseRow := MkLease { l_owner : string; l_token : Z; l_at : Z; l_expires : Z }.

(** Rows by primary key, and the last value the sequence gave out. *)
Record leases := MkLeases { ls_rows : gmap string leaseRow; ls_seq : Z }.

Definition Millisecond : Z := 1000000.
(** [ttl.Milliseconds()], in the table's unit again. *)
Definition inMillis (ttl : Z) : Z := Z.quot ttl Millisecond * Millisecond.

(** [INSERT ... ON CONFLICT DO UPDATE ... WHERE owner = EXCLUDED.owner OR
    lease_expires < NOW() RETURNING ...]. The VALUES list draws from the sequence
    on every path; a change of owner draws once more. [keepAt]: whether a refresh
    keeps the acquisition time. *)
Definition upsert (keepAt : bool) (t : leases) (now : Z) (key owner : string) (ttl : Z) : leases * option leaseRow :=
  let drawn := ls_seq t + 1 in
  let expires := now + inMillis ttl in
  match ls_rows t !! key with
  | None =>
      let r := MkLease owner drawn now expires in
      (MkLeases (<[key := r]> (ls_rows t)) drawn, Some r)
  | Some old =>
      if String.eqb (l_owner old) owner then
        let r := MkLease owner (l_token old) (if keepAt then l_at old else now) expires in
        (MkLeases (<[key := r]> (ls_rows t)) drawn, Some r)
      else if l_expires old <? now then
        let r := MkLease owner (drawn + 1) now expires in
        (MkLeases (<[key := r]> (ls_rows t)) (drawn + 1), Some r)
      else (MkLeases (ls_rows t) drawn, None)
  end.

(** [UPDATE ... SET lease_expires = NOW() + ttl WHERE key AND guard]: rows affected. *)
Definition renewIf (guard : leaseRow -> bool) (t : leases) (now : Z) (key : string) (ttl : Z) : leases * Z :=
  match ls_rows t !! key with
  | Some r => if guard r
              then (MkLeases (<[key := MkLease (l_owner r) (l_token r) (l_at r) (now + inMillis ttl)]> (ls_rows t)) (ls_seq t), 1)
              else (t, 0)
  | None => (t, 0)
  end.

Definition deleteIf (guard : leaseRow -> bool) (t : leases) (key : string) : leases * Z :=
  match ls_rows t !! key with
  | Some r => if guard r then (MkLeases (delete key (ls_rows t)) (ls_seq t), 1) else (t, 0)
  | None => (t, 0)
  end.

Definition live (now : Z) (r : leaseRow) : bool := now <=? l_expires r.
Definition expired (now : Z) (r : leaseRow) : bool := l_expires r <? now.

(** ** The execution guard *)

Definition ErrFencedOut := "cluster: execution fenced out".

Record ExecLease := MkExecLease { el_RunID : string; el_Owner : string; el_Epoch : Z; el_Expiry : Z }.

Definition check (runID owner : string) (ttl : Z) : option goerr :=
  if String.eqb runID "" then Some (EText "cluster: exec guard: empty run id")
  else if String.eqb owner "" then Some (EText "cluster: exec guard: empty owner")
  else if ttl <? 0 then Some (EText "cluster: exec guard: negative ttl")
  else None.

Definition fencedOut (what runID : string) : goerr := EWrap (what +:+ runID) (ESentinel ErrFencedOut).

Definition Register (t : leases) (now : Z) (runID owner : string) (ttl : Z) : leases * (goerr + ExecLease) :=
  match check runID owner ttl with
  | Some e => (t, inl e)
  | None =>
      let '(t', r) := upsert false t now runID owner ttl in
      (t', match r with
           | None => inl (fencedOut "cluster: register execution for " runID)
           | Some r => inr (MkExecLease runID (l_owner r) (l_token r) (l_expires r))
           end)
  end.

Definition renewed (what : string) (lease : ExecLease) (x : leases * Z) : leases * option goerr :=
  (x.1, if x.2 =? 0 then Some (fencedOut what (el_RunID lease)) else None).

Definition Owns (t : leases) (now : Z) (lease : ExecLease) (ttl : Z) : leases * option goerr :=
  match check (el_RunID lease) (el_Owner lease) ttl with
  | Some e => (t, Some e)
  | None => renewed "cluster: own-check for " lease
      (renewIf (fun r => String.eqb (l_owner r) (el_Owner lease) && (l_token r =? el_Epoch lease) && live now r) t now (el_RunID lease) ttl)
  end.

Definition Heartbeat (t : leases) (now : Z) (lease : ExecLease) (ttl : Z) : leases * option goerr :=
  match check (el_RunID lease) (el_Owner lease) ttl with
  | Some e => (t, Some e)
  | None => renewed "cluster: heartbeat for " lease
      (renewIf (fun r => String.eqb (l_owner r) (el_Owner lease) && live now r) t now (el_RunID lease) ttl)
  end.

Definition End_ (t : leases) (lease : ExecLease) : leases * option goerr :=
  match check (el_RunID lease) (el_Owner lease) 0 with
  | Some e => (t, Some e)
  | None => ((deleteIf (fun r => String.eqb (l_owner r) (el_Owner lease) && (l_token r =? el_Epoch lease)) t (el_RunID lease)).1, None)
  end.

(** [ORDER BY run_id]. *)
Definition ExpiredExecutions (t : leases) (now : Z) : list string :=
  merge_sort String.le (map fst (filter (fun p => expired now p.2 = true) (map_to_list (ls_rows t)))).

Definition DeleteExecution (t : leases) (runID : string) : leases * option goerr :=
  if String.eqb runID "" then (t, Some (EText "cluster: delete execution: empty run id"))
  else ((deleteIf (fun _ => true) t runID).1, None).

Definition GetExecution (t : leases) (runID : string) : option ExecLease :=
  (fun r => MkExecLease runID (l_owner r) (l_token r) (l_expires r)) <$> ls_rows t !! runID.

(** ** Distributed locks *)

Definition ErrLockNotHeld := "cluster: lock not held".
Definition ErrLockBusy := "cluster: lock busy".

Record DistributedLock := MkLock {
  dl_Key : string; dl_Owner : string; dl_TTL : Z; dl_FenceToken : Z; dl_AcquiredAt : Z; dl_LeaseExpiry : Z }.

(** The shared table and this process's record of what it holds. *)
Record lockManager := MkManager { lm_table : leases; lm_held : gmap string DistributedLock }.

Definition dropHeld (key owner : string) (held : gmap string DistributedLock) : gmap string DistributedLock :=
  match held !! key with
  | Some l => if String.eqb (dl_Owner l) owner then delete key held else held
  | None => held
  end.

Definition Acquire (m : lockManager) (now : Z) (key owner : string) (ttl : Z) : lockManager * (goerr + DistributedLock) :=
  if String.eqb key "" then (m, inl (EText "cluster: acquire: empty key"))
  else if String.eqb owner "" then (m, inl (EText "cluster: acquire: empty owner"))
  else if ttl <=? 0 then (m, inl (EText "cluster: acquire: non-positive ttl"))
  else
    let '(t, r) := upsert true (lm_table m) now key owner ttl in
    match r with
    | None => (MkManager t (lm_held m), inl (ESentinel ErrLockBusy))
    | Some r =>
        let lock := MkLock key owner ttl (l_token r) (l_at r) (l_expires r) in
        (MkManager t (<[key := lock]> (lm_held m)), inr lock)
    end.

Definition Release (m : lockManager) (key owner : string) : lockManager * option goerr :=
  if String.eqb key "" then (m, Some (EText "cluster: release: empty key"))
  else
    let '(t, n) := deleteIf (fun r => String.eqb (l_owner r) owner) (lm_table m) key in
    (MkManager t (dropHeld key owner (lm_held m)), if n =? 0 then Some (ESentinel ErrLockNotHeld) else None).

(** [clock]: the process clock, which stamps the local record. *)
Definition Refresh (m : lockManager) (now clock : Z) (key owner : string) (ttl : Z) : lockManager * option goerr :=
  if ttl <=? 0 then (m, Some (EText "cluster: refresh: non-positive ttl"))
  else
    let '(t, n) := renewIf (fun r => String.eqb (l_owner r) owner && live now r) (lm_table m) now key ttl in
    if n =? 0 then (MkManager t (dropHeld key owner (lm_held m)), Some (ESentinel ErrLockNotHeld))
    else (MkManager t
            match lm_held m !! key with
            | Some l => if String.eqb (dl_Owner l) owner
                        then <[key := MkLock (dl_Key l) (dl_Owner l) ttl (dl_FenceToken l) (dl_AcquiredAt l) (clock + ttl)]> (lm_held m)
                        else lm_held m
            | None => lm_held m
            end, None).

Definition ReleaseStale (m : lockManager) (now : Z) : lockManager * list (string * string) :=
  let gone := filter (fun p => expired now p.2 = true) (map_to_list (ls_rows (lm_table m))) in
  let released := map (fun p => (p.1, l_owner p.2)) gone in
  (MkManager (MkLeases (filter (fun p => expired now p.2 = false) (ls_rows (lm_table m))) (ls_seq (lm_table m)))
     (fold_left (fun h r => dropHeld r.1 r.2 h) released (lm_held m)), released).

Definition IsHeld (m : lockManager) (key : string) : bool := bool_decide (is_Some (lm_held m !! key)).
Definition IsHeldBy (m : lockManager) (key owner : string) : bool :=
  match lm_held m !! key with Some l => String.eqb (dl_Owner l) owner | None => false end.

(** ** Node registry *)

Definition StatusActive := "active".
Definition StatusLeaving := "leaving".
Definition StatusOffline := "offline".
Definition RoleMaster := "master".
Definition RoleWorker := "worker".

Record Node := MkNode {
  n_ID : string; n_Address : string; n_Status : string; n_Role : string; n_LastHeartbeat : Z; n_Capabilities : string; n_JoinedAt : Z }.

Record NodeRegistry := MkRegistry { r_nodes : gmap string Node; r_leaderID : string }.
Definition NewNodeRegistry : NodeRegistry := MkRegistry ∅ "".

Definition orElse (s d : string) : string := if String.eqb s "" then d else s.

(** A time of 0 is the zero time. *)
Definition node_Register (r : NodeRegistry) (now : Z) (node : Node) : NodeRegistry * option goerr :=
  if String.eqb (n_ID node) "" then (r, Some (EText "cluster: register: empty node id"))
  else if String.eqb (n_Address node) "" then (r, Some (EText "cluster: register: empty node address"))
  else
    let joined := if n_JoinedAt node =? 0 then now else n_JoinedAt node in
    let n := MkNode (n_ID node) (n_Address node) (orElse (n_Status node) StatusActive) (orElse (n_Role node) RoleWorker)
               (if n_LastHeartbeat node =? 0 then joined else n_LastHeartbeat node) (n_Capabilities node) joined in
    (MkRegistry (<[n_ID n := n]> (r_nodes r))
       (if String.eqb (r_leaderID r) "" && String.eqb (n_Role n) RoleMaster && String.eqb (n_Status n) StatusActive
        then n_ID n else r_leaderID r), None).

(** The scan of one election phase, over the nodes in the order the map yields. *)
Fixpoint bestOf (role : string) (nodes : list Node) (best : option Node) : option Node :=
  match nodes with
  | [] => best
  | n :: rest =>
      bestOf role rest
        (if negb (String.eqb (n_Role n) role) || negb (String.eqb (n_Status n) StatusActive) then best
         else match best with
              | None => Some n
              | Some b => if String.leb (n_ID b) (n_ID n) then best else Some n
              end)
  end.

(** [electLeaderLocked] over the map's nodes in some order. *)
Definition electLeader (order : list Node) (r : NodeRegistry) : NodeRegistry * bool :=
  match bestOf RoleMaster order None with
  | Some b => (MkRegistry (r_nodes r) (n_ID b), true)
  | None =>
      match bestOf RoleWorker order None with
      | Some b => (MkRegistry (r_nodes r) (n_ID b), true)
      | None => (r, false)
      end
  end.

Definition nodesOf (m : gmap string Node) : list Node := map snd (map_to_list m).

Definition ElectLeader (order : list Node) (r : NodeRegistry) : NodeRegistry * (goerr + string) :=
  let '(r', ok) := electLeader order (MkRegistry (r_nodes r) "") in
  (r', if ok then inr (r_leaderID r') else inl (EText "cluster: elect leader: no eligible node")).

Definition Deregister (order : list Node) (r : NodeRegistry) (nodeID : string) : NodeRegistry * option goerr :=
  if String.eqb nodeID "" then (r, Some (EText "cluster: deregister: empty node id"))
  else match r_nodes r !! nodeID with
       | None => (r, Some (EText ("cluster: deregister: node " +:+ nodeID +:+ " not found")))
       | Some _ =>
           let nodes := delete nodeID (r_nodes r) in
           if String.eqb (r_leaderID r) nodeID then ((electLeader order (MkRegistry nodes "")).1, None)
           else (MkRegistry nodes (r_leaderID r), None)
       end.

Definition withStatus (n : Node) (status : string) : Node :=
  MkNode (n_ID n) (n_Address n) status (n_Role n) (n_LastHeartbeat n) (n_Capabilities n) (n_JoinedAt n).

Definition node_Heartbeat (r : NodeRegistry) (nodeID : string) (now : Z) : NodeRegistry * option goerr :=
  if String.eqb nodeID "" then (r, Some (EText "cluster: heartbeat: empty node id"))
  else match r_nodes r !! nodeID with
       | None => (r, Some (EText ("cluster: heartbeat: node " +:+ nodeID +:+ " not found")))
       | Some n =>
           let n' := MkNode (n_ID n) (n_Address n) (if String.eqb (n_Status n) StatusOffline then StatusActive else n_Status n)
                       (n_Role n) now (n_Capabilities n) (n_JoinedAt n) in
           (MkRegistry (<[nodeID := n']> (r_nodes r)) (r_leaderID r), None)
       end.

Definition GetLeader (r : NodeRegistry) : option Node :=
  if String.eqb (r_leaderID r) "" then None else r_nodes r !! r_leaderID r.

(** [SyncFromPeers]: every peer upserted, absent nodes removed except [keepID], and
    an unconditional re-election. *)
Definition upsertAll (peers : list Node) (nodes : gmap string Node) : gmap string Node :=
  fold_left (fun m p => <[n_ID p := p]> m) peers nodes.

Definition folded (peers : list Node) (keepID : string) (nodes : gmap string Node) : gmap string Node :=
  filter (fun p => inSet (map n_ID peers) p.1 = true \/ p.1 = keepID) (upsertAll peers nodes).

Definition SyncFromPeers (order : list Node) (peers : list Node) (keepID : string) (r : NodeRegistry) : NodeRegistry :=
  (electLeader order (MkRegistry (folded peers keepID (r_nodes r)) "")).1.

Definition stale (now maxAge : Z) (n : Node) : bool :=
  String.eqb (n_Status n) StatusActive && (maxAge <? now - n_LastHeartbeat n).

(** [MarkStale]; [order] is the order the election scans the nodes left in. *)
Definition MarkStale (order : list Node) (now maxAge : Z) (r : NodeRegistry) : NodeRegistry * list string :=
  let gone := map fst (filter (fun p => stale now maxAge p.2 = true) (map_to_list (r_nodes r))) in
  let nodes := (fun n => if stale now maxAge n then withStatus n StatusOffline else n) <$> r_nodes r in
  let keep := match nodes !! r_leaderID r with Some n => String.eqb (n_Status n) StatusActive | None => false end in
  (if negb (String.eqb (r_leaderID r) "") && negb keep then (electLeader order (MkRegistry nodes "")).1
   else MkRegistry nodes (r_leaderID r), gone).

(** ** The life of a lease table *)

(** What the statements of this file, issued by any process at any time, do to a
    table. *)
Inductive tstep (t : leases) : leases -> Prop :=
| step_upsert keepAt now key owner ttl : tstep t (upsert keepAt t now key owner ttl).1
| step_renew guard now key ttl : tstep t (renewIf guard t now key ttl).1
| step_delete guard key : tstep t (deleteIf guard t key).1
| step_sweep now : tstep t (MkLeases (filter (fun p => expired now p.2 = false) (ls_rows t)) (ls_seq t)).

Lemma Register_step t now runID owner ttl : rtc tstep t (Register t now runID owner ttl).1.
Proof.
  unfold Register. destruct (check runID owner ttl); [apply rtc_refl|].
  pose proof (step_upsert t false now runID owner ttl) as H. destruct (upsert false t now runID owner ttl). by apply rtc_once.
Qed.

Lemma Owns_step t now lease ttl : rtc tstep t (Owns t now lease ttl).1.
Proof. unfold Owns. destruct (check _ _ _); [apply rtc_refl|]. apply rtc_once, step_renew. Qed.

Lemma Heartbeat_step t now lease ttl : rtc tstep t (Heartbeat t now lease ttl).1.
Proof. unfold Heartbeat. destruct (check _ _ _); [apply rtc_refl|]. apply rtc_once, step_renew. Qed.

Lemma End_step t lease : rtc tstep t (End_ t lease).1.
Proof. unfold End_. destruct (check _ _ _); [apply rtc_refl|]. apply rtc_once, step_delete. Qed.

Lemma DeleteExecution_step t runID : rtc tstep t (DeleteExecution t runID).1.
Proof. unfold DeleteExecution. destruct (String.eqb runID ""); [apply rtc_refl|]. apply rtc_once, step_delete. Qed.

Lemma Acquire_step m now key owner ttl : rtc tstep (lm_table m) (lm_table (Acquire m now key owner ttl).1).
Proof.
  unfold Acquire. repeat case_match; try apply rtc_refl;
    (apply rtc_once; match goal with H : upsert true ?t ?n ?k ?o ?l = _ |- _ => pose proof (step_upsert t true n k o l) as Hs; by rewrite H in Hs end).
Qed.

Lemma Release_step m key owner : rtc tstep (lm_table m) (lm_table (Release m key owner).1).
Proof.
  unfold Release. destruct (String.eqb key ""); [apply rtc_refl|].
  pose proof (step_delete (lm_table m) (fun r => String.eqb (l_owner r) owner) key) as H. destruct (deleteIf _ _ _). by apply rtc_once.
Qed.

Lemma Refresh_step m now clock key owner ttl : rtc tstep (lm_table m) (lm_table (Refresh m now clock key owner ttl).1).
Proof.
  unfold Refresh. destruct (ttl <=? 0); [apply rtc_refl|].
  pose proof (step_renew (lm_table m) (fun r => String.eqb (l_owner r) owner && live now r) now key ttl) as H.
  destruct (renewIf _ _ _ _ _) as [t n]. destruct (n =? 0); by apply rtc_once.
Qed.

Lemma ReleaseStale_step m now : rtc tstep (lm_table m) (lm_table (ReleaseStale m now).1).
Proof. apply rtc_once, step_sweep. Qed.

(** A row [P] tolerates stays so as long as refreshes keep [P] and tokens drawn
    later satisfy it. *)
Lemma tstep_inv (key : string) (f : Z) (P : string -> Z -> Prop) t t' :
  (forall owner token, f < token -> P owner token) ->
  tstep t t' -> f <= ls_seq t -> (forall r, ls_rows t !! key = Some r -> P (l_owner r) (l_token r)) ->
  f <= ls_seq t' /\ (forall r, ls_rows t' !! key = Some r -> P (l_owner r) (l_token r)).
Proof.
  intros Hnew Hs Hf HP. destruct Hs as [keepAt now k owner ttl|guard now k ttl|guard k|now].
  - unfold upsert. destruct (ls_rows t !! k) as [old|] eqn:Hk; [destruct (String.eqb_spec (l_owner old) owner) as [Ho|];
      [|destruct (l_expires old <? now)]|]; cbn [fst ls_seq ls_rows]; (split; [lia|]); intros r Hr; try (by apply HP);
      (destruct (decide (k = key)) as [->|Hne]; [rewrite lookup_insert_eq in Hr; injection Hr as <-; cbn [l_owner l_token]
                                               |rewrite lookup_insert_ne in Hr by done; by apply HP]).
    + rewrite <- Ho. by apply HP.
    + apply Hnew. lia.
    + apply Hnew. lia.
  - unfold renewIf. destruct (ls_rows t !! k) as [old|] eqn:Hk; [|done]. destruct (guard old); [|done]. cbn [fst ls_seq ls_rows]. split; [done|].
    intros r Hr. destruct (decide (k = key)) as [->|Hne]; [|rewrite lookup_insert_ne in Hr by done; by apply HP].
    rewrite lookup_insert_eq in Hr. injection Hr as <-. cbn [l_owner l_token]. by apply HP.
  - unfold deleteIf. destruct (ls_rows t !! k) as [old|] eqn:Hk; [|done]. destruct (guard old); [|done]. cbn [fst ls_seq ls_rows]. split; [done|].
    intros r Hr. apply lookup_delete_Some in Hr as [_ Hr]. by apply HP.
  - cbn [ls_seq ls_rows]. split; [done|]. intros r Hr. apply map_lookup_filter_Some in Hr as [Hr _]. by apply HP.
Qed.

Lemma steps_inv key f P t t' :
  (forall owner token, f < token -> P owner token) ->
  rtc tstep t t' -> f <= ls_seq t -> (forall r, ls_rows t !! key = Some r -> P (l_owner r) (l_token r)) ->
  f <= ls_seq t' /\ (forall r, ls_rows t' !! key = Some r -> P (l_owner r) (l_token r)).
Proof. intros Hnew Hs. induction Hs as [|t1 t2 t3 H12 _ IH]; [done|]. intros Hf HP. destruct (tstep_inv key f P t1 t2 Hnew H12 Hf HP). auto. Qed.

(** The row of a run is not this lease's any more. *)
Definition lost (t : leases) (lease : ExecLease) : Prop :=
  forall r, ls_rows t !! el_RunID lease = Some r -> ~ (l_owner r = el_Owner lease /\ l_token r = el_Epoch lease).

Lemma lost_stays t t' lease : el_Epoch lease <= ls_seq t -> lost t lease -> rtc tstep t t' -> lost t' lease.
Proof.
  intros He Hl Hs.
  destruct (steps_inv (el_RunID lease) (el_Epoch lease) (fun o k => ~ (o = el_Owner lease /\ k = el_Epoch lease)) t t') as [_ H];
    [|done|done|exact Hl|exact H].
  intros owner token Hlt [_ ->]. lia.
Qed.

Lemma lost_refused t now lease ttl :
  lost t lease -> (exists e, Owns t now lease ttl = (t, Some e)) /\ (End_ t lease).1 = t.
Proof.
  intros Hl. unfold Owns, End_, renewIf, deleteIf. split.
  - destruct (check _ _ ttl); [by eexists|]. destruct (ls_rows t !! el_RunID lease) as [r|] eqn:Hr; [|by eexists].
    destruct (String.eqb_spec (l_owner r) (el_Owner lease)) as [Ho|]; [|by eexists].
    destruct (Z.eqb_spec (l_token r) (el_Epoch lease)) as [Ht|]; [|by eexists]. by destruct (Hl r Hr).
  - destruct (check _ _ 0); [done|]. destruct (ls_rows t !! el_RunID lease) as [r|] eqn:Hr; [|done].
    destruct (String.eqb_spec (l_owner r) (el_Owner lease)) as [Ho|]; [|done].
    destruct (Z.eqb_spec (l_token r) (el_Epoch lease)) as [Ht|]; [|done]. by destruct (Hl r Hr).
Qed.

(** Fencing is permanent: once an executor's lease is gone, deleted by a
    takeover or registered to another owner, no later statement of any process
    brings it back: its ownership checks fail and its release changes nothing. *)
Theorem fencing_is_permanent (t t' : leases) (lease : ExecLease) (now ttl : Z)
    (Hissued : el_Epoch lease <= ls_seq t) (Hlost : lost t lease) (Hlater : rtc tstep t t') :
  (exists e, Owns t' now lease ttl = (t', Some e)) /\ (End_ t' lease).1 = t'.
Proof. apply lost_refused. by eapply lost_stays. Qed.

(** Both ways of losing a lease. *)
Lemma delete_loses t lease : el_RunID lease <> "" -> lost (DeleteExecution t (el_RunID lease)).1 lease.
Proof.
  intros Hr r. unfold DeleteExecution, deleteIf. apply String.eqb_neq in Hr as ->. destruct (ls_rows t !! el_RunID lease) eqn:E; cbn [fst ls_rows].
  - by rewrite lookup_delete_eq.
  - by rewrite E.
Qed.

Lemma register_loses t now runID owner ttl lease other :
  (Register t now runID owner ttl).2 = inr lease -> el_RunID other = runID -> el_Owner other <> owner ->
  lost (Register t now runID owner ttl).1 other.
Proof.
  unfold Register. destruct (check runID owner ttl); [done|]. unfold upsert. intros H <- Ho r Hr [Hro _].
  destruct (ls_rows t !! el_RunID other) as [old|] eqn:Hk; [destruct (String.eqb_spec (l_owner old) owner);
    [|destruct (l_expires old <? now); [|done]]|]; cbn [fst ls_rows] in Hr; rewrite lookup_insert_eq in Hr; injection Hr as <-; by cbn in Hro.
Qed.

(** ** Exclusivity while a lease lives *)

(** A statement another process may issue on the lease table of executions. *)
Inductive gop :=
| GRegister (runID owner : string) (ttl : Z)
| GOwns (lease : ExecLease) (ttl : Z)
| GHeartbeat (lease : ExecLease) (ttl : Z)
| GEnd (lease : ExecLease)
| GDelete (runID : string).

Definition gexec (t : leases) (x : Z * gop) : leases :=
  match x.2 with
  | GRegister runID owner ttl => (Register t x.1 runID owner ttl).1
  | GOwns lease ttl => (Owns t x.1 lease ttl).1
  | GHeartbeat lease ttl => (Heartbeat t x.1 lease ttl).1
  | GEnd lease => (End_ t lease).1
  | GDelete runID => (DeleteExecution t runID).1
  end.

(** Not by [owner], and no takeover of [runID]. *)
Definition byOther (runID owner : string) (o : gop) : Prop :=
  match o with
  | GRegister _ owner' _ => owner' <> owner
  | GOwns lease _ | GHeartbeat lease _ | GEnd lease => el_Owner lease <> owner
  | GDelete runID' => runID' <> runID
  end.

Lemma renew_other guard t now key ttl k r :
  ls_rows t !! k = Some r -> guard r = false -> ls_rows (renewIf guard t now key ttl).1 !! k = Some r.
Proof.
  intros Hr Hg. unfold renewIf. destruct (ls_rows t !! key) as [x|] eqn:E; [|done]. destruct (guard x) eqn:Hx; [|done].
  cbn [fst ls_rows]. rewrite lookup_insert_ne; [done|]. intros ->. congruence.
Qed.

Lemma delete_other guard t key k r :
  ls_rows t !! k = Some r -> (key = k -> guard r = false) -> ls_rows (deleteIf guard t key).1 !! k = Some r.
Proof.
  intros Hr Hg. unfold deleteIf. destruct (ls_rows t !! key) as [x|] eqn:E; [|done]. destruct (guard x) eqn:Hx; [|done].
  cbn [fst ls_rows]. rewrite lookup_delete_ne; [done|]. intros ->. assert (x = r) as -> by congruence. rewrite Hg in Hx by done. discriminate.
Qed.

Lemma upsert_other keepAt t now key owner ttl k r :
  ls_rows t !! k = Some r -> l_owner r <> owner -> now <= l_expires r ->
  ls_rows (upsert keepAt t now key owner ttl).1 !! k = Some r /\ (key = k -> (upsert keepAt t now key owner ttl).2 = None).
Proof.
  intros Hr Ho Hl. unfold upsert. destruct (decide (key = k)) as [->|Hne].
  - rewrite Hr. apply String.eqb_neq in Ho as ->. rewrite (proj2 (Z.ltb_ge _ _)) by done. done.
  - split; [|done]. repeat case_match; cbn [fst ls_rows]; rewrite ?lookup_insert_ne; done.
Qed.

Lemma gexec_other t x runID r :
  ls_rows t !! runID = Some r -> byOther runID (l_owner r) x.2 -> x.1 <= l_expires r -> ls_rows (gexec t x) !! runID = Some r.
Proof.
  destruct x as [now [run owner ttl|lease ttl|lease ttl|lease|run]]; cbn [byOther fst snd]; intros Hr Hb Hl; unfold gexec; cbn [fst snd].
  - unfold Register. destruct (check run owner ttl); [done|]. destruct (upsert_other false t now run owner ttl runID r) as [H _]; [done|done|done|].
    by destruct (upsert false t now run owner ttl).
  - unfold Owns. destruct (check _ _ _); [done|]. apply renew_other; [done|].
    assert (String.eqb (l_owner r) (el_Owner lease) = false) as -> by (apply String.eqb_neq; congruence). done.
  - unfold Heartbeat. destruct (check _ _ _); [done|]. apply renew_other; [done|].
    assert (String.eqb (l_owner r) (el_Owner lease) = false) as -> by (apply String.eqb_neq; congruence). done.
  - unfold End_. destruct (check _ _ _); [done|]. apply delete_other; [done|]. intros _.
    assert (String.eqb (l_owner r) (el_Owner lease) = false) as -> by (apply String.eqb_neq; congruence). done.
  - unfold DeleteExecution. destruct (String.eqb run ""); [done|]. by apply delete_other.
Qed.

Lemma Owns_row t now lease ttl :
  (Owns t now lease ttl).2 = None ->
  exists at_, ls_rows (Owns t now lease ttl).1 !! el_RunID lease = Some (MkLease (el_Owner lease) (el_Epoch lease) at_ (now + inMillis ttl)).
Proof.
  unfold Owns, renewIf. destruct (check _ _ _); [done|]. destruct (ls_rows t !! el_RunID lease) as [r|] eqn:Hr; [|done].
  destruct (String.eqb_spec (l_owner r) (el_Owner lease)) as [Ho|]; [|done]. destruct (Z.eqb_spec (l_token r) (el_Epoch lease)) as [Ht|]; [|done].
  destruct (live now r); [|done]. intros _. unfold renewed. cbn [andb fst ls_rows]. rewrite lookup_insert_eq, Ho, Ht. by eexists.
Qed.

Lemma not_expired t now runID r : ls_rows t !! runID = Some r -> now <= l_expires r -> runID ∉ ExpiredExecutions t now.
Proof.
  intros Hr Hl. unfold ExpiredExecutions. rewrite merge_sort_Permutation. intros ([k x] & -> & Hx)%list_elem_of_fmap.
  apply list_elem_of_filter in Hx as [He Hx]. apply elem_of_map_to_list in Hx. cbn [fst] in Hr. rewrite Hr in Hx. injection Hx as <-.
  unfold expired in He. cbn [snd] in He. apply Z.ltb_lt in He. lia.
Qed.

(** A successful ownership check buys exclusivity for the whole lease: until its
    expiry, whatever the other processes issue, the execution row stays this
    owner's with this epoch, every other owner's registration is refused with the
    fencing sentinel, and no takeover scan lists the run. *)
Theorem owned_lease_is_exclusive (t : leases) (now ttl : Z) (lease : ExecLease) (others : list (Z * gop)) (deadline : Z)
    (Howns : (Owns t now lease ttl).2 = None) (Hdeadline : deadline = now + inMillis ttl)
    (Hothers : Forall (fun x => x.1 <= deadline /\ byOther (el_RunID lease) (el_Owner lease) x.2) others) :
  let t' := fold_left gexec others (Owns t now lease ttl).1 in
  (exists at_, ls_rows t' !! el_RunID lease = Some (MkLease (el_Owner lease) (el_Epoch lease) at_ deadline)) /\
  (forall now' owner ttl', now' <= deadline -> owner <> el_Owner lease -> owner <> "" -> 0 <= ttl' -> el_RunID lease <> "" ->
     exists e, (Register t' now' (el_RunID lease) owner ttl').2 = inl e /\ errors_Is e ErrFencedOut = true) /\
  (forall now', now' <= deadline -> el_RunID lease ∉ ExpiredExecutions t' now').
Proof.
  intros t'. destruct (Owns_row _ _ _ _ Howns) as [at_ Hrow]. rewrite <- Hdeadline in Hrow.
  assert (Hkeep : ls_rows t' !! el_RunID lease = Some (MkLease (el_Owner lease) (el_Epoch lease) at_ deadline)).
  { unfold t'. clear t'. revert Hrow. generalize (Owns t now lease ttl).1. induction Hothers as [|x l [Hx Hb] _ IH]; intros t0 H0; simpl; [done|].
    apply IH. by apply (gexec_other t0 x _ _ H0). }
  split_and!; [by exists at_| |].
  - intros now' owner ttl' Hn Ho Hne Ht Hrun. unfold Register, check.
    rewrite (proj2 (String.eqb_neq _ _) Hrun), (proj2 (String.eqb_neq _ _) Hne), (proj2 (Z.ltb_ge _ _)) by done.
    destruct (upsert_other false t' now' (el_RunID lease) owner ttl' _ _ Hkeep) as [_ Hnone]; [simpl; congruence|done|].
    specialize (Hnone eq_refl). destruct (upsert false t' now' (el_RunID lease) owner ttl') as [t2 r2]. cbn [snd] in *. subst r2.
    eexists. split; [done|]. cbn. by rewrite bool_decide_eq_true_2.
  - intros now' Hn. by eapply not_expired.
Qed.

(** ** Fence tokens *)

Lemma Acquire_row m now key owner ttl lock :
  (Acquire m now key owner ttl).2 = inr lock ->
  exists r, ls_rows (lm_table (Acquire m now key owner ttl).1) !! key = Some r /\ l_owner r = owner /\ l_token r = dl_FenceToken lock /\
    (l_token r <= ls_seq (lm_table (Acquire m now key owner ttl).1) \/ exists old, ls_rows (lm_table m) !! key = Some old /\ l_owner old = owner /\ l_token old = l_token r).
Proof.
  unfold Acquire. destruct (String.eqb key ""); [done|]. destruct (String.eqb owner ""); [done|]. destruct (ttl <=? 0); [done|]. unfold upsert.
  destruct (ls_rows (lm_table m) !! key) as [old|] eqn:Hk; [destruct (String.eqb_spec (l_owner old) owner); [|destruct (l_expires old <? now); [|done]]|];
    intros [= <-]; cbn [fst lm_table ls_rows ls_seq dl_FenceToken]; rewrite lookup_insert_eq; eexists; cbn [l_owner l_token]; (split_and!; [done|done|done|]).
  - right. by exists old.
  - left. simpl. lia.
  - left. simpl. lia.
Qed.

(** Fence tokens order the holders of a lock: when one owner acquired a key and
    later, after any statements of any processes, another owner acquires it, the
    second token is strictly greater; and while the first lease lives the second
    owner is refused. *)
Theorem fence_tokens_increase (m1 m2 : lockManager) (now1 now2 : Z) (key o1 o2 : string) (ttl1 ttl2 : Z) (k1 k2 : DistributedLock)
    (Hne : o1 <> o2) (Htok : forall r, ls_rows (lm_table m1) !! key = Some r -> l_token r <= ls_seq (lm_table m1))
    (Hfirst : (Acquire m1 now1 key o1 ttl1).2 = inr k1)
    (Hlater : rtc tstep (lm_table (Acquire m1 now1 key o1 ttl1).1) (lm_table m2))
    (Hsecond : (Acquire m2 now2 key o2 ttl2).2 = inr k2) :
  dl_FenceToken k1 < dl_FenceToken k2 /\
  (forall r, ls_rows (lm_table m2) !! key = Some r -> l_owner r = o1 -> l_expires r < now2).
Proof.
  destruct (Acquire_row _ _ _ _ _ _ Hfirst) as (r1 & Hr1 & Ho1 & Ht1 & Hseq).
  assert (Hle : l_token r1 <= ls_seq (lm_table (Acquire m1 now1 key o1 ttl1).1)).
  { destruct Hseq as [?|(old & Hold & _ & <-)]; [done|]. specialize (Htok old Hold).
    destruct (steps_inv key (l_token old) (fun _ _ => True) (lm_table m1) (lm_table (Acquire m1 now1 key o1 ttl1).1)) as [H _]; [done|apply Acquire_step|done|done|done]. }
  destruct (steps_inv key (l_token r1) (fun o k => (o = o1 /\ k = l_token r1) \/ l_token r1 < k) _ _
              (fun _ _ H => or_intror H) Hlater Hle) as [Hle2 Hinv].
  { intros r Hr. rewrite Hr1 in Hr. injection Hr as <-. by left. }
  revert Hsecond. unfold Acquire. destruct (String.eqb key ""); [done|]. destruct (String.eqb o2 ""); [done|]. destruct (ttl2 <=? 0); [done|]. unfold upsert.
  rewrite <- Ht1. destruct (ls_rows (lm_table m2) !! key) as [old|] eqn:Hk; [destruct (String.eqb_spec (l_owner old) o2) as [Ho|]; [|destruct (Z.ltb_spec (l_expires old) now2); [|done]]|];
    intros [= <-]; cbn [dl_FenceToken l_token]; (split; [|intros r Hr Hro; try (injection Hr as <-); try done]).
  - destruct (Hinv old eq_refl) as [[? _]|?]; [congruence|done].
  - congruence.
  - lia.
  - lia.
Qed.

(** ** Convergent election *)

Definition eligible (role : string) (n : Node) : bool := String.eqb (n_Role n) role && String.eqb (n_Status n) StatusActive.

(** [id] is the smallest key of the registry with an active node of [role]. *)
Definition elected (role : string) (nodes : gmap string Node) (id : string) : Prop :=
  (exists n, nodes !! id = Some n /\ eligible role n = true) /\
  (forall id' n', nodes !! id' = Some n' -> eligible role n' = true -> String.le id id').

Definition vacant (role : string) (nodes : gmap string Node) : Prop :=
  forall id n, nodes !! id = Some n -> eligible role n = false.

(** What the election promises of a registry. *)
Definition leaderOf (nodes : gmap string Node) (leader : string) : Prop :=
  elected RoleMaster nodes leader \/
  (vacant RoleMaster nodes /\ elected RoleWorker nodes leader) \/
  (vacant RoleMaster nodes /\ vacant RoleWorker nodes /\ leader = "").

Definition keyed (nodes : gmap string Node) : Prop := forall id n, nodes !! id = Some n -> n_ID n = id.

Lemma bestOf_spec role l acc :
  match bestOf role l acc with
  | None => acc = None /\ forall n, n ∈ l -> eligible role n = false
  | Some b => (acc = Some b \/ (b ∈ l /\ eligible role b = true)) /\
              (forall n, n ∈ l -> eligible role n = true -> String.le (n_ID b) (n_ID n)) /\
              (forall a, acc = Some a -> String.le (n_ID b) (n_ID a))
  end.
Proof.
  revert acc. induction l as [|n l IH]; intros acc; cbn [bestOf].
  - destruct acc as [a|]; [|by split; [|intros n ?%not_elem_of_nil]].
    split_and!; [by left|by intros n ?%not_elem_of_nil|by intros a' [= <-]].
  - match goal with |- context [bestOf role l ?a] => specialize (IH a) end.
    assert (He : negb (String.eqb (n_Role n) role) || negb (String.eqb (n_Status n) StatusActive) = negb (eligible role n))
      by (unfold eligible; by rewrite negb_andb).
    rewrite He in *. clear He. destruct (eligible role n) eqn:En; cbn [negb] in IH |- *.
    + destruct acc as [a|]; [destruct (String.leb (n_ID a) (n_ID n)) eqn:Hle|].
      * destruct (bestOf role l (Some a)) as [b|]; [|naive_solver]. destruct IH as (Ho & Hm & Ha). split_and!.
        -- destruct Ho as [?|[? ?]]; [by left|right; split; [by right|done]].
        -- intros x [->|Hx]%elem_of_cons Hx2; [|by apply Hm]. etrans; [by apply Ha|]. unfold String.le. by rewrite Hle.
        -- done.
      * destruct (bestOf role l (Some n)) as [b|]; [|naive_solver]. destruct IH as (Ho & Hm & Ha). split_and!.
        -- right. destruct Ho as [[= <-]|[? ?]]; (split; [set_solver|done]).
        -- intros x [->|Hx]%elem_of_cons Hx2; [by apply Ha|by apply Hm].
        -- intros a' [= <-]. etrans; [by apply Ha|]. destruct (String.leb_total (n_ID a) (n_ID n)) as [H|H]; unfold String.le; rewrite H in *; done.
      * destruct (bestOf role l (Some n)) as [b|]; [|naive_solver]. destruct IH as (Ho & Hm & Ha). split_and!.
        -- right. destruct Ho as [[= <-]|[? ?]]; (split; [set_solver|done]).
        -- intros x [->|Hx]%elem_of_cons Hx2; [by apply Ha|by apply Hm].
        -- done.
    + destruct (bestOf role l acc) as [b|].
      * destruct IH as (Ho & Hm & Ha). split_and!; [|intros x [->|Hx]%elem_of_cons Hx2; [congruence|by apply Hm]|done].
        destruct Ho as [?|[? ?]]; [by left|right; split; [by right|done]].
      * destruct IH as [-> Hn]. split; [done|]. intros x [->|Hx]%elem_of_cons; auto.
Qed.

Section scan.
Context (nodes : gmap string Node) (order : list Node) (Hkey : keyed nodes) (Horder : order ≡ₚ nodesOf nodes).

Lemma scan_elem n : n ∈ order <-> nodes !! n_ID n = Some n.
Proof using Hkey Horder.
  rewrite Horder. unfold nodesOf. rewrite list_elem_of_fmap. split.
  - intros ([id x] & -> & Hx%elem_of_map_to_list). cbn [snd]. by rewrite (Hkey _ _ Hx).
  - intros H. exists (n_ID n, n). split; [done|]. by apply elem_of_map_to_list.
Qed.

Lemma scan_role role :
  match bestOf role order None with Some b => elected role nodes (n_ID b) | None => vacant role nodes end.
Proof using Hkey Horder.
  pose proof (bestOf_spec role order None) as H. destruct (bestOf role order None) as [b|].
  - destruct H as ([?|[Hb He]] & Hm & _); [done|]. split; [exists b; split; [by apply scan_elem|done]|].
    intros id n Hn Hn2. rewrite <- (Hkey _ _ Hn). apply Hm; [|done]. apply scan_elem. by rewrite (Hkey _ _ Hn).
  - destruct H as [_ Hn]. intros id n Hid. apply Hn, scan_elem. by rewrite (Hkey _ _ Hid).
Qed.

Lemma electLeader_spec :
  (electLeader order (MkRegistry nodes "")).1 = MkRegistry nodes (r_leaderID (electLeader order (MkRegistry nodes "")).1) /\
  leaderOf nodes (r_leaderID (electLeader order (MkRegistry nodes "")).1).
Proof using Hkey Horder.
  unfold electLeader, leaderOf. pose proof (scan_role RoleMaster) as Hm. pose proof (scan_role RoleWorker) as Hw.
  destruct (bestOf RoleMaster order None); [split; [done|by left]|].
  destruct (bestOf RoleWorker order None); (split; [done|right]); [by left|by right].
Qed.
End scan.

Lemma elected_unique role nodes id1 id2 : elected role nodes id1 -> elected role nodes id2 -> id1 = id2.
Proof. intros [(n1 & H1 & E1) M1] [(n2 & H2 & E2) M2]. apply (anti_symm String.le); eauto. Qed.

Lemma elected_vacant role nodes id : elected role nodes id -> vacant role nodes -> False.
Proof. intros [(n & H & E) _] Hv. rewrite (Hv _ _ H) in E. done. Qed.

Lemma leaderOf_unique nodes id1 id2 : leaderOf nodes id1 -> leaderOf nodes id2 -> id1 = id2.
Proof.
  intros [H1|[[V1 H1]|(V1 & W1 & ->)]] [H2|[[V2 H2]|(V2 & W2 & ->)]];
    solve [done|by eapply elected_unique|exfalso; by eauto using elected_vacant].
Qed.

Section sync.
Context (peers : list Node) (keepID : string) (Hkeep : keepID ∈ map n_ID peers).

Lemma upserted_lookup m k :
  upsertAll peers m !! k =
  match upsertAll peers ∅ !! k with Some p => Some p | None => m !! k end.
Proof using.
  clear Hkeep. unfold upsertAll. induction peers as [|p l IH] using rev_ind; [by cbn [fold_left]; rewrite lookup_empty|]. rewrite !fold_left_app. cbn [fold_left].
  destruct (decide (n_ID p = k)) as [<-|Hne]; [by rewrite !lookup_insert_eq|]. by rewrite !lookup_insert_ne.
Qed.

Lemma upserted_keyed k p : upsertAll peers ∅ !! k = Some p -> n_ID p = k.
Proof using.
  clear Hkeep. unfold upsertAll. induction peers as [|q l IH] using rev_ind; [by cbn [fold_left]; rewrite lookup_empty|]. rewrite fold_left_app. cbn [fold_left].
  destruct (decide (n_ID q = k)) as [<-|Hne]; [rewrite lookup_insert_eq; by intros [= ->]|]. by rewrite lookup_insert_ne.
Qed.

Lemma upserted_some k : k ∈ map n_ID peers -> is_Some (upsertAll peers ∅ !! k).
Proof using.
  clear Hkeep. unfold upsertAll. induction peers as [|q l IH] using rev_ind; [by intros ?%not_elem_of_nil|]. rewrite fold_left_app, map_app. cbn [fold_left map].
  destruct (decide (n_ID q = k)) as [<-|Hne]; [by rewrite lookup_insert_eq|]. rewrite lookup_insert_ne by done.
  intros [?|?%list_elem_of_singleton]%elem_of_app; [auto|congruence].
Qed.

(** With this node in the shared view, the folded view is the shared one. *)
Lemma folded_view m : folded peers keepID m = upsertAll peers ∅.
Proof using Hkeep.
  apply map_eq. intros k. unfold folded. destruct (decide (k ∈ map n_ID peers)) as [Hk|Hk].
  - destruct (upserted_some k Hk) as [p Hp]. rewrite Hp. apply map_lookup_filter_Some. rewrite upserted_lookup, Hp. split; [done|]. left. by apply inSet_spec.
  - transitivity (@None Node).
    + apply map_lookup_filter_None. right. intros x _ [H|H]; cbn in H; [by apply inSet_spec in H|by subst].
    + symmetry. apply eq_None_not_Some. intros [p Hp]. apply Hk. pose proof (upserted_keyed _ _ Hp) as <-. clear Hk Hkeep. unfold upsertAll in *.
      revert Hp. generalize (n_ID p). intros k. induction peers as [|q l IH] using rev_ind; [by cbn [fold_left]; rewrite lookup_empty|].
      rewrite fold_left_app, map_app. cbn [fold_left map]. rewrite elem_of_app, list_elem_of_singleton.
      destruct (decide (n_ID q = k)) as [<-|Hne]; [by right|]. rewrite lookup_insert_ne by done. left. auto.
Qed.

Lemma folded_keyed m : keyed (folded peers keepID m).
Proof using Hkeep. rewrite folded_view. exact upserted_keyed. Qed.
End sync.

(** The election converges: two nodes that read the same shared view, each
    present in it, end their sync with identical registries whatever they knew
    before and in whatever order their maps are scanned; and the leader is the
    smallest active master, the smallest active worker when there is no active
    master, and nobody when there is neither. *)
Theorem election_converges (peers : list Node) (keep1 keep2 : string) (r1 r2 : NodeRegistry) (order1 order2 : list Node)
    (Hkeep1 : keep1 ∈ map n_ID peers) (Hkeep2 : keep2 ∈ map n_ID peers)
    (Horder1 : order1 ≡ₚ nodesOf (folded peers keep1 (r_nodes r1))) (Horder2 : order2 ≡ₚ nodesOf (folded peers keep2 (r_nodes r2))) :
  SyncFromPeers order1 peers keep1 r1 = SyncFromPeers order2 peers keep2 r2 /\
  leaderOf (r_nodes (SyncFromPeers order1 peers keep1 r1)) (r_leaderID (SyncFromPeers order1 peers keep1 r1)).
Proof.
  unfold SyncFromPeers.
  destruct (electLeader_spec _ order1 (folded_keyed peers keep1 Hkeep1 _) Horder1) as [E1 L1].
  destruct (electLeader_spec _ order2 (folded_keyed peers keep2 Hkeep2 _) Horder2) as [E2 L2].
  rewrite E1, E2. cbn [r_nodes r_leaderID]. split; [|done]. revert L1 L2. rewrite !folded_view by done. intros L1 L2. f_equal. by eapply leaderOf_unique.
Qed.

(** ** Instances *)

Definition ex_lease := MkExecLease "run" "node-a" 1 0.
Definition ex_table : leases := MkLeases {["run" := MkLease "node-a" 1 0 (30 * Millisecond)]} 1.

Lemma fencing_is_permanent_witness :
  (exists e, Owns (Register (DeleteExecution ex_table "run").1 5 "run" "node-b" Millisecond).1 6 ex_lease Millisecond =
             ((Register (DeleteExecution ex_table "run").1 5 "run" "node-b" Millisecond).1, Some e)) /\
  (End_ (Register (DeleteExecution ex_table "run").1 5 "run" "node-b" Millisecond).1 ex_lease).1 =
  (Register (DeleteExecution ex_table "run").1 5 "run" "node-b" Millisecond).1.
Proof.
  apply (fencing_is_permanent (DeleteExecution ex_table "run").1); [vm_compute; discriminate|by apply (delete_loses ex_table ex_lease)|apply Register_step].
Defined.

Lemma owned_lease_is_exclusive_witness :
  let t' := fold_left gexec [(10, GRegister "run" "node-b" 7); (11, GDelete "other")] (Owns ex_table 5 ex_lease (20 * Millisecond)).1 in
  (exists at_, ls_rows t' !! "run" = Some (MkLease "node-a" 1 at_ (5 + 20 * Millisecond))) /\
  (forall now' owner ttl', now' <= 5 + 20 * Millisecond -> owner <> "node-a" -> owner <> "" -> 0 <= ttl' -> "run" <> "" ->
     exists e, (Register t' now' "run" owner ttl').2 = inl e /\ errors_Is e ErrFencedOut = true) /\
  (forall now', now' <= 5 + 20 * Millisecond -> "run" ∉ ExpiredExecutions t' now').
Proof.
  apply (owned_lease_is_exclusive ex_table 5 (20 * Millisecond) ex_lease _ (5 + 20 * Millisecond)); [done|done|].
  repeat constructor; (by vm_compute) || done.
Defined.

Definition ex_mgr : lockManager := MkManager (MkLeases ∅ 0) ∅.
Definition ex_mgr2 : lockManager := (ReleaseStale (Acquire ex_mgr 0 "k" "a" Millisecond).1 (2 * Millisecond)).1.

Lemma fence_tokens_increase_witness :
  1 < 2 /\ (forall r, ls_rows (lm_table ex_mgr2) !! "k" = Some r -> l_owner r = "a" -> l_expires r < 3 * Millisecond).
Proof.
  apply (fence_tokens_increase ex_mgr ex_mgr2 0 (3 * Millisecond) "k" "a" "b" Millisecond Millisecond
    (MkLock "k" "a" Millisecond 1 0 Millisecond) (MkLock "k" "b" Millisecond 2 (3 * Millisecond) (4 * Millisecond)));
    [done|intros r Hr; vm_compute in Hr; done|reflexivity|apply ReleaseStale_step|reflexivity].
Defined.

Definition ex_peers := [MkNode "w1" ":1" StatusActive RoleWorker 0 "" 0; MkNode "m2" ":2" StatusActive RoleMaster 0 "" 0; MkNode "m1" ":3" StatusOffline RoleMaster 0 "" 0].
Definition ex_self := MkRegistry {["w1" := MkNode "w1" ":1" StatusActive RoleWorker 0 "" 0]} "w1".

Lemma election_converges_witness :
  SyncFromPeers (nodesOf (folded ex_peers "w1" (r_nodes ex_self))) ex_peers "w1" ex_self =
  SyncFromPeers (reverse (nodesOf (folded ex_peers "m2" ∅))) ex_peers "m2" NewNodeRegistry /\
  leaderOf (r_nodes (SyncFromPeers (nodesOf (folded ex_peers "w1" (r_nodes ex_self))) ex_peers "w1" ex_self)) "m2".
Proof.
  apply (election_converges ex_peers "w1" "m2" ex_self NewNodeRegistry); [by left|by right; left|done|by rewrite reverse_Permutation].
Defined.

(** The heartbeat's guard does not read the epoch: an executor whose row was
    deleted and registered again under its own name keeps the new lease alive with
    the old handle, while its ownership checks fail. *)
Example heartbeat_ignores_epoch :
  let t := (Register (DeleteExecution ex_table "run").1 5 "run" "node-a" Millisecond).1 in
  (Heartbeat t 6 ex_lease Millisecond).2 = None /\ (Owns t 6 ex_lease Millisecond).2 <> None.
Proof. by vm_compute. Qed.

End Cluster.
