(* ===== verification/Dispatch.v ===== *)
(** * Dispatch: handing runs to cluster nodes

    src/internal/dispatch/dispatch.go (the leader's sweep, the stale-assignment
    reclaim, the worker's poll), the executor src/cmd/levee/grpc_change_executor.go
    wires into the worker, and the run and run_assignment statements of
    src/internal/state/sqlite.go they issue. Operations are programs of statements,
    so that leaders, workers and takeovers can be interleaved. *)

From Stdlib Require Import ZArith Lia Ascii String.
From stdpp Require Import base gmap sets list strings pretty sorting relations.
From S2P Require Import Prelude RunStatus Table Concur Rely Cluster.
Import Concur Rely.
Open Scope string_scope.
Open Scope list_scope.
Local Open Scope Z_scope.

Module Dispatch.

(** ** Rows *)

Record Run := MkRun {
  r_ID : string; r_WorkflowName : string; r_TemplateName : string; r_Params : string; r_PlanHash : string; r_PlanJSON : string;
  r_Status : string; r_ApprovalStatus : string; r_ApprovalLevel : string; r_Priority : string; r_CreatedAt : Z; r_UpdatedAt : Z;
  r_Creator : string; r_IncidentID : string; r_TenantID : string }.

Record RunFilter := MkRunFilter {
  rf_Status : string; rf_WorkflowName : string; rf_TemplateName : string; rf_Creator : string; rf_IncidentID : string;
  rf_Limit : Z; rf_Offset : Z; rf_TenantID : string }.

Record Assignment := MkAssignment {
  a_RunID : string; a_OwnerNode : string; a_Epoch : Z; a_State : string; a_Result : string; a_AssignedAt : Z; a_UpdatedAt : Z;
  a_TenantID : string }.

Record AssignmentFilter := MkAssignmentFilter {
  af_RunID : string; af_OwnerNode : string; af_State : string; af_ExcludeStates : list string; af_Limit : Z; af_TenantID : string }.

Definition AssignStatePending := "pending".
Definition AssignmentStateExecuting := "executing".
Definition AssignmentStateDone := "done".
Definition AssignmentStateInterrupted := "interrupted".
Definition AssignResultCompleted := "completed".
Definition AssignResultFailed := "failed".
Definition AssignResultRolledBack := "rolled_back".

Definition assignResultOrder := [AssignResultCompleted; AssignResultFailed; AssignResultRolledBack].
Definition isAssignResult (s : string) : bool := inSet assignResultOrder s.

(** ** Statements *)

Inductive stmt :=
| SGetRun (id : string)
| SListRuns (f : RunFilter)
| SUpdateRunStatusIf (id from to : string) (updatedAt : Z)
| SCreateAssignment (a : Assignment)
| SGetAssignment (runID : string)
| SUpdateAssignmentStateIf (runID : string) (epoch : Z) (expected next : string)
| SUpdateAssignmentState (runID next : string)
| SReassign (runID : string) (prevEpoch : Z) (newNode : string)
| SReclaimAssignment (runID : string) (epoch : Z) (newNode : string)
| SListAssignments (f : AssignmentFilter)
| SDeleteAssignment (runID : string)
| SSetAssignmentResult (runID : string) (epoch : Z) (result : string)
| SNow                                  (** the store's clock, the process clock *)
| SGetLeader
| SActiveNodes
| SRetryChange (runID : string)
| SApplyChange (runID : string).

Record ans := MkAns {
  x_err : option goerr; x_ok : bool; x_run : option Run; x_runs : list Run; x_asg : option Assignment; x_asgs : list Assignment;
  x_time : Z; x_leader : option string; x_nodes : list Cluster.Node; x_status : string }.

Definition done_ : ans := MkAns None false None [] None [] 0 None [] "".
Definition fails (e : goerr) : ans := MkAns (Some e) false None [] None [] 0 None [] "".
Definition rows (b : bool) : ans := MkAns None b None [] None [] 0 None [] "".

(** The run and run_assignment tables, and this node's view of the cluster. *)
Record db := MkDb { d_runs : gmap string Run; d_asgn : gmap string Assignment; d_reg : Cluster.NodeRegistry }.

Definition clause (v col : string) : bool := String.eqb v "" || String.eqb col v.

Definition selectsRun (f : RunFilter) (r : Run) : bool :=
  clause (rf_Status f) (r_Status r) && clause (rf_WorkflowName f) (r_WorkflowName r) && clause (rf_TemplateName f) (r_TemplateName r) &&
  clause (rf_Creator f) (r_Creator r) && clause (rf_IncidentID f) (r_IncidentID r) && clause (rf_TenantID f) (r_TenantID r).

(** [ORDER BY created_at DESC]; ties are the database's to break. *)
Definition newestFirst (x y : Run) : Prop := r_CreatedAt y <= r_CreatedAt x.
#[export] Instance newestFirst_dec : RelDecision newestFirst.
Proof. intros x y. unfold newestFirst. apply _. Defined.

(** [OFFSET] without [LIMIT] is not SQL the store accepts. *)
Definition listRuns (f : RunFilter) (runs : gmap string Run) : goerr + list Run :=
  let l := merge_sort newestFirst (filter (fun r => selectsRun f r = true) (map snd (map_to_list runs))) in
  if 0 <? rf_Limit f then inr (take (Z.to_nat (rf_Limit f)) (if 0 <? rf_Offset f then drop (Z.to_nat (rf_Offset f)) l else l))
  else if 0 <? rf_Offset f then inl (EText "state: list runs: near OFFSET: syntax error")
  else inr l.

Definition selectsAssignment (f : AssignmentFilter) (a : Assignment) : bool :=
  clause (af_RunID f) (a_RunID a) && clause (af_OwnerNode f) (a_OwnerNode a) && clause (af_State f) (a_State a) &&
  negb (inSet (af_ExcludeStates f) (a_State a)) && clause (af_TenantID f) (a_TenantID a).

(** [ORDER BY assigned_at ASC]. *)
Definition oldestFirst (x y : Assignment) : Prop := a_AssignedAt x <= a_AssignedAt y.
#[export] Instance oldestFirst_dec : RelDecision oldestFirst.
Proof. intros x y. unfold oldestFirst. apply _. Defined.

Definition listAssignments (f : AssignmentFilter) (asgn : gmap string Assignment) : list Assignment :=
  let l := merge_sort oldestFirst (filter (fun a => selectsAssignment f a = true) (map snd (map_to_list asgn))) in
  if 0 <? af_Limit f then take (Z.to_nat (af_Limit f)) l else l.

Definition withStatus (r : Run) (status : string) (at_ : Z) : Run :=
  MkRun (r_ID r) (r_WorkflowName r) (r_TemplateName r) (r_Params r) (r_PlanHash r) (r_PlanJSON r) status (r_ApprovalStatus r)
    (r_ApprovalLevel r) (r_Priority r) (r_CreatedAt r) at_ (r_Creator r) (r_IncidentID r) (r_TenantID r).

Definition withState (a : Assignment) (state : string) (now : Z) : Assignment :=
  MkAssignment (a_RunID a) (a_OwnerNode a) (a_Epoch a) state (a_Result a) (a_AssignedAt a) now (a_TenantID a).
(** [owner_node=?, epoch=epoch+1, state=pending, result='']. *)
Definition repointed (a : Assignment) (node : string) (now : Z) : Assignment :=
  MkAssignment (a_RunID a) node (a_Epoch a + 1) AssignStatePending "" (a_AssignedAt a) now (a_TenantID a).
Definition withResult (a : Assignment) (result : string) (now : Z) : Assignment :=
  MkAssignment (a_RunID a) (a_OwnerNode a) (a_Epoch a) (a_State a) result (a_AssignedAt a) now (a_TenantID a).

Definition liveState (s : string) : bool := String.eqb s AssignStatePending || String.eqb s AssignmentStateExecuting.

(** [UPDATE run_assignment SET ... WHERE run_id=? AND guard]: rows affected > 0. *)
Definition updateIf (d : db) (runID : string) (guard : Assignment -> bool) (f : Assignment -> Assignment) : db * ans :=
  match d_asgn d !! runID with
  | Some a => if guard a then (MkDb (d_runs d) (<[runID := f a]> (d_asgn d)) (d_reg d), rows true) else (d, rows false)
  | None => (d, rows false)
  end.

Definition activeNodes (r : Cluster.NodeRegistry) : list Cluster.Node :=
  filter (fun n => Cluster.n_Status n = Cluster.StatusActive) (Cluster.nodesOf (Cluster.r_nodes r)).

(** One statement at time [now]. The changes an apply or a retry makes to the run
    are the environment's, see [sem]. *)
Definition dbexec (now : Z) (d : db) (s : stmt) : db * ans :=
  match s with
  | SGetRun id => (d, MkAns None false (d_runs d !! id) [] None [] 0 None [] "")
  | SListRuns f =>
      (d, match listRuns f (d_runs d) with
          | inl e => fails e
          | inr l => MkAns None false None l None [] 0 None [] ""
          end)
  | SUpdateRunStatusIf id from to at_ =>
      match d_runs d !! id with
      | Some r => if String.eqb (r_Status r) from
                  then (MkDb (<[id := withStatus r to at_]> (d_runs d)) (d_asgn d) (d_reg d), rows true)
                  else (d, rows false)
      | None => (d, rows false)
      end
  | SCreateAssignment a =>
      match d_asgn d !! a_RunID a with
      | Some _ => (d, fails (EText ("state: create assignment for " +:+ a_RunID a)))
      | None =>
          if String.eqb (a_Result a) "" || isAssignResult (a_Result a)
          then (MkDb (d_runs d)
                  (<[a_RunID a := MkAssignment (a_RunID a) (a_OwnerNode a) (a_Epoch a) (a_State a) (a_Result a) now now (a_TenantID a)]> (d_asgn d))
                  (d_reg d), done_)
          else (d, fails (EText ("state: create assignment for " +:+ a_RunID a)))
      end
  | SGetAssignment runID => (d, MkAns None false None [] (d_asgn d !! runID) [] 0 None [] "")
  | SUpdateAssignmentStateIf runID epoch expected next =>
      updateIf d runID (fun a => (a_Epoch a =? epoch) && String.eqb (a_State a) expected) (fun a => withState a next now)
  | SUpdateAssignmentState runID next => updateIf d runID (fun a => liveState (a_State a)) (fun a => withState a next now)
  | SReassign runID prevEpoch newNode => updateIf d runID (fun a => a_Epoch a =? prevEpoch) (fun a => repointed a newNode now)
  | SReclaimAssignment runID epoch newNode =>
      updateIf d runID (fun a => (a_Epoch a =? epoch) && String.eqb (a_State a) AssignStatePending) (fun a => repointed a newNode now)
  | SListAssignments f => (d, MkAns None false None [] None (listAssignments f (d_asgn d)) 0 None [] "")
  | SDeleteAssignment runID => (MkDb (d_runs d) (delete runID (d_asgn d)) (d_reg d), done_)
  | SSetAssignmentResult runID epoch result =>
      if isAssignResult result
      then ((updateIf d runID (fun a => a_Epoch a =? epoch) (fun a => withResult a result now)).1, done_)
      else (d, fails (EText ("state: set result for " +:+ runID +:+ ": not an assignment result")))
  | SNow => (d, MkAns None false None [] None [] now None [] "")
  | SGetLeader => (d, MkAns None false None [] None [] 0 (Cluster.n_ID <$> Cluster.GetLeader (d_reg d)) [] "")
  | SActiveNodes => (d, MkAns None false None [] None [] 0 None (activeNodes (d_reg d)) "")
  | SRetryChange _ | SApplyChange _ => (d, done_)
  end.

Definition op (A : Type) : Type := prog stmt ans A.
Definition call (s : stmt) : op ans := Ask s Ret.
Local Open Scope levee_scope.

(** ** The leader's sweep *)

Definition DefaultInterval : Z := 10 * 1000000000.
Definition DefaultWorkerCapacity : Z := 4.
Definition DefaultClaimTimeout : Z := 600 * 1000000000.
Definition DefaultWorkerInterval : Z := 5 * 1000000000.
Definition terminalAssignStates := [AssignmentStateDone; AssignmentStateInterrupted].
Definition runStatusApproved := RunStatus.StatusApproved.

Record workerLoad := MkLoad { wl_id : string; wl_active : Z }.

Record Loop := MkLoop { l_nodeID : string; l_interval : Z; l_capacity : Z; l_claimTimeout : Z }.

Definition NewLoop (nodeID : string) (interval capacity claimTimeout : Z) : Loop :=
  MkLoop nodeID (if interval <=? 0 then DefaultInterval else interval)
    (if capacity <=? 0 then DefaultWorkerCapacity else capacity)
    (if claimTimeout <=? 0 then DefaultClaimTimeout else claimTimeout).

(** The inner loop of [sortByLoad]: the element after [prefix] sinks to its place;
    [prefix] is kept last element first. *)
Fixpoint sink (x : workerLoad) (prefix : list workerLoad) : list workerLoad :=
  match prefix with
  | [] => [x]
  | y :: rest => if wl_active x <? wl_active y then y :: sink x rest else x :: y :: rest
  end.

Definition sortByLoad (workers : list workerLoad) : list workerLoad :=
  reverse (fold_left (fun prefix x => sink x prefix) workers []).

Definition bumped (w : workerLoad) : workerLoad := MkLoad (wl_id w) (wl_active w + 1).

Definition countOwned (all : list Assignment) (id : string) : Z :=
  Z.of_nat (length (filter (fun a => a_OwnerNode a = id) all)).

Definition isLeader (nodeID : string) : op bool :=
  let! r := call SGetLeader in
  Ret match x_leader r with Some id => String.eqb id nodeID | None => false end.

Definition workerLoads (l : Loop) : op (goerr + list workerLoad) :=
  let! n := call SActiveNodes in
  let nodes := match x_nodes n with
               | [] => [Cluster.MkNode (l_nodeID l) "" Cluster.StatusActive "" 0 "" 0]
               | ns => ns
               end in
  let! r := call (SListAssignments (MkAssignmentFilter "" "" "" terminalAssignStates 10000 "")) in
  Ret match x_err r with
      | Some e => inl e
      | None => inr (sortByLoad (map (fun n => MkLoad (Cluster.n_ID n) (countOwned (x_asgs r) (Cluster.n_ID n)))
                                   (filter (fun n => Cluster.n_Status n = Cluster.StatusActive) nodes)))
      end.

Definition since (a : Assignment) : Z := if a_UpdatedAt a =? 0 then a_AssignedAt a else a_UpdatedAt a.

(** The loop of [reclaimStale]: what is left of the pending rows, the callers'
    worker loads (updated in place), how many were reclaimed. *)
Fixpoint reclaimLoop (l : Loop) (now : Z) (pending : list Assignment) (workers : list workerLoad) (reclaimed : Z) :
    op (list workerLoad * Z) :=
  match pending with
  | [] => Ret (workers, reclaimed)
  | a :: rest =>
      if now - since a <? l_claimTimeout l then reclaimLoop l now rest workers reclaimed
      else
        let! g := call (SGetRun (a_RunID a)) in
        match x_err g with
        | Some _ => reclaimLoop l now rest workers reclaimed
        | None =>
            if match x_run g with Some r => String.eqb (r_Status r) runStatusApproved | None => false end then
              match workers with
              | [] => reclaimLoop l now rest workers reclaimed
              | target :: others =>
                  let! r := call (SReclaimAssignment (a_RunID a) (a_Epoch a) (wl_id target)) in
                  match x_err r with
                  | Some _ => reclaimLoop l now rest workers reclaimed
                  | None => if x_ok r then reclaimLoop l now rest (sortByLoad (bumped target :: others)) (reclaimed + 1)
                            else reclaimLoop l now rest workers reclaimed
                  end
              end
            else
              let! _ := call (SUpdateAssignmentStateIf (a_RunID a) (a_Epoch a) AssignStatePending AssignmentStateInterrupted) in
              reclaimLoop l now rest workers reclaimed
        end
  end.

Definition reclaimStale (l : Loop) (workers : list workerLoad) : op (goerr + list workerLoad * Z) :=
  let! p := call (SListAssignments (MkAssignmentFilter "" "" AssignStatePending [] 10000 "")) in
  match x_err p with
  | Some e => Ret (inl e)
  | None =>
      let! n := call SNow in
      let! r := reclaimLoop l (x_time n) (x_asgs p) workers 0 in
      Ret (inr r)
  end.

Definition ReclaimOnce (l : Loop) : op (goerr + Z) :=
  let! lead := isLeader (l_nodeID l) in
  if negb lead then Ret (inr 0)
  else
    let! w := workerLoads l in
    match w with
    | inl e => Ret (inl (EWrap "dispatch: list worker loads" e))
    | inr workers =>
        let! r := reclaimStale l workers in
        Ret match r with inl e => inl e | inr (_, n) => inr n end
    end.

Definition hasActiveAssignment (runID : string) : op (goerr + bool) :=
  let! r := call (SGetAssignment runID) in
  Ret match x_err r with
      | Some e => inl e
      | None => inr match x_asg r with Some a => liveState (a_State a) | None => false end
      end.

Fixpoint candidatesLoop (runs : list Run) (out : list Run) : op (goerr + list Run) :=
  match runs with
  | [] => Ret (inr out)
  | r :: rest =>
      let! h := hasActiveAssignment (r_ID r) in
      match h with
      | inl e => Ret (inl e)
      | inr active => candidatesLoop rest (if active then out else out ++ [r])
      end
  end.

Definition candidates : op (goerr + list Run) :=
  let! r := call (SListRuns (MkRunFilter runStatusApproved "" "" "" "" 1000 0 "")) in
  match x_err r with
  | Some e => Ret (inl e)
  | None => candidatesLoop (x_runs r) []
  end.

Definition claim (run : Run) (worker : string) : op (goerr + bool) :=
  let! g := call (SGetAssignment (r_ID run)) in
  match x_err g with
  | Some e => Ret (inl e)
  | None =>
      match x_asg g with
      | None =>
          let! n := call SNow in
          let! c := call (SCreateAssignment (MkAssignment (r_ID run) worker 1 AssignStatePending "" (x_time n) (x_time n) (r_TenantID run))) in
          match x_err c with
          | None => Ret (inr true)
          | Some e =>
              let! again := call (SGetAssignment (r_ID run)) in
              Ret match x_err again, x_asg again with
                  | None, Some a => if liveState (a_State a) then inr false else inl e
                  | _, _ => inl e
                  end
          end
      | Some a =>
          if liveState (a_State a) then Ret (inr false)
          else
            let! r := call (SReassign (r_ID run) (a_Epoch a) worker) in
            Ret match x_err r with Some e => inl e | None => inr (x_ok r) end
      end
  end.

(** [workers[wi:]] once the saturated ones are passed. *)
Fixpoint nextWorker (capacity : Z) (workers : list workerLoad) : list workerLoad :=
  match workers with
  | w :: rest => if capacity <=? wl_active w then nextWorker capacity rest else workers
  | [] => []
  end.

Fixpoint assignLoop (l : Loop) (cands : list Run) (workers : list workerLoad) (claimed : Z) : op Z :=
  match cands with
  | [] => Ret claimed
  | run :: rest =>
      match nextWorker (l_capacity l) workers with
      | [] => Ret claimed
      | worker :: others =>
          let! r := claim run (wl_id worker) in
          match r with
          | inr true => assignLoop l rest (bumped worker :: others) (claimed + 1)
          | _ => assignLoop l rest (worker :: others) claimed
          end
      end
  end.

Definition DispatchOnce (l : Loop) : op (goerr + Z) :=
  let! lead := isLeader (l_nodeID l) in
  if negb lead then Ret (inr 0)
  else
    let! w := workerLoads l in
    match w with
    | inl e => Ret (inl (EWrap "dispatch: list worker loads" e))
    | inr workers =>
        let! s := reclaimStale l workers in
        match s with
        | inl e => Ret (inl (EWrap "dispatch: reclaim stale" e))
        | inr (workers', _) =>
            let! c := candidates in
            match c with
            | inl e => Ret (inl (EWrap "dispatch: list candidates" e))
            | inr cands =>
                let! n := assignLoop l cands workers' 0 in
                Ret (inr n)
            end
        end
    end.

Definition MarkDone (runID result : string) : op (option goerr) :=
  let! g := call (SGetAssignment runID) in
  match x_err g, x_asg g with
  | Some e, _ => Ret (Some e)
  | None, None => Ret None
  | None, Some a =>
      if String.eqb (a_State a) AssignmentStateDone then Ret None
      else
        let! w := call (SUpdateAssignmentStateIf runID (a_Epoch a) (a_State a) AssignmentStateDone) in
        match x_err w with
        | Some e => Ret (Some e)
        | None =>
            if negb (x_ok w) then Ret None
            else
              let! r := call (SSetAssignmentResult runID (a_Epoch a) (if String.eqb result "" then AssignResultCompleted else result)) in
              Ret (x_err r)
        end
  end.

(** The assignment part of a takeover (src/internal/takeover/takeover.go). *)
Definition reflectInterrupted (runID : string) : op unit :=
  let! g := call (SGetAssignment runID) in
  match x_err g, x_asg g with
  | None, Some a =>
      if liveState (a_State a)
      then let! _ := call (SUpdateAssignmentState runID AssignmentStateInterrupted) in Ret tt
      else Ret tt
  | _, _ => Ret tt
  end.

(** ** The executor *)

Definition retryOutcome (status : string) : string :=
  if String.eqb status RunStatus.StatusRolledBack then AssignResultRolledBack
  else if String.eqb status RunStatus.StatusRolledBackPartial || String.eqb status RunStatus.StatusRollbackIncomplete then AssignResultFailed
  else if String.eqb status RunStatus.StatusCompleted || String.eqb status "done" then AssignResultCompleted
  else if String.eqb status RunStatus.StatusFailed then AssignResultFailed
  else AssignResultFailed.

Definition retry (runID : string) : op (goerr + string) :=
  let! r := call (SRetryChange runID) in
  Ret match x_err r with Some e => inl e | None => inr (retryOutcome (x_status r)) end.

Definition apply_ (runID : string) : op (goerr + string) :=
  let! r := call (SApplyChange runID) in
  Ret match x_err r with
      | Some e => inl e
      | None => inr (if String.eqb (x_status r) RunStatus.StatusRolledBack then AssignResultRolledBack
                     else if x_ok r then AssignResultCompleted else AssignResultFailed)
      end.

Definition Execute (runID : string) : op (goerr + string) :=
  let! g := call (SGetRun runID) in
  match x_err g with
  | Some e => Ret (inl e)
  | None =>
      match x_run g with
      | Some r => if String.eqb (r_Status r) "interrupted" then retry runID else apply_ runID
      | None => apply_ runID
      end
  end.

(** ** The worker *)

Inductive acquired := Got (a : Assignment) | Nothing | Spent.

(** [acquire]: [fuel] bounds the races lost before one is won. *)
Fixpoint acquire (fuel : nat) (nodeID : string) : op acquired :=
  match fuel with
  | O => Ret Spent
  | S fuel =>
      let! p := call (SListAssignments (MkAssignmentFilter "" nodeID AssignStatePending [] 1 "")) in
      match x_err p, x_asgs p with
      | None, a :: _ =>
          let! r := call (SUpdateAssignmentStateIf (a_RunID a) (a_Epoch a) AssignStatePending AssignmentStateExecuting) in
          match x_err r with
          | Some _ => Ret Nothing
          | None => if x_ok r
                    then Ret (Got (MkAssignment (a_RunID a) (a_OwnerNode a) (a_Epoch a) AssignmentStateExecuting (a_Result a)
                                     (a_AssignedAt a) (a_UpdatedAt a) (a_TenantID a)))
                    else acquire fuel nodeID
          end
      | _, _ => Ret Nothing
      end
  end.

Definition complete (a : Assignment) (result : string) : op (option goerr) :=
  let! r := call (SUpdateAssignmentStateIf (a_RunID a) (a_Epoch a) AssignmentStateExecuting AssignmentStateDone) in
  match x_err r with
  | Some e => Ret (Some e)
  | None =>
      if negb (x_ok r) then Ret None
      else let! s := call (SSetAssignmentResult (a_RunID a) (a_Epoch a) result) in Ret (x_err s)
  end.

(** [pollOnce]: [fuel] bounds the assignments handled; whether it ended by itself. *)
Fixpoint pollOnce (races fuel : nat) (nodeID : string) : op bool :=
  match fuel with
  | O => Ret false
  | S fuel =>
      let! g := acquire races nodeID in
      match g with
      | Got a =>
          let! x := Execute (a_RunID a) in
          let! _ := complete a match x with inl _ => "failed" | inr result => result end in
          pollOnce races fuel nodeID
      | Nothing => Ret true
      | Spent => Ret false
      end
  end.

(** ** Interleavings *)

(** What a statement may do to a state that others change too: the run table and
    the membership view move freely between calls, the assignment table only by
    the statements; any statement may fail, before or after it took effect; clocks,
    membership, apply and retry answer anything. *)
Inductive sem (d : db) : stmt -> db -> ans -> Prop :=
| sem_exec c d1 now : d_asgn d1 = d_asgn d -> sem d c (dbexec now d1 c).1 (dbexec now d1 c).2
| sem_lost c d1 now e : d_asgn d1 = d_asgn d -> sem d c (dbexec now d1 c).1 (fails e)
| sem_fail c d1 e : d_asgn d1 = d_asgn d -> sem d c d1 (fails e)
| sem_free c d1 r : d_asgn d1 = d_asgn d ->
    match c with SNow | SGetLeader | SActiveNodes | SRetryChange _ | SApplyChange _ => True | _ => False end -> sem d c d1 r.

(** Who may be running: any number of each, anywhere. *)
Inductive actor :=
| ALeader (l : Loop)
| AReclaimer (l : Loop)
| AWorker (races fuel : nat) (nodeID : string)
| ADone (runID result : string)
| ATakeover (runID : string).

Definition progOf (a : actor) : op unit :=
  match a with
  | ALeader l => let! _ := DispatchOnce l in Ret tt
  | AReclaimer l => let! _ := ReclaimOnce l in Ret tt
  | AWorker races fuel nodeID => let! _ := pollOnce races fuel nodeID in Ret tt
  | ADone runID result => let! _ := MarkDone runID result in Ret tt
  | ATakeover runID => reflectInterrupted runID
  end.

(** How far an epoch has come. *)
Definition rank (state : string) : nat :=
  if String.eqb state AssignStatePending then 0%nat
  else if String.eqb state AssignmentStateExecuting then 1%nat
  else if String.eqb state AssignmentStateDone then 3%nat
  else 2%nat.

Definition claims (run : string) (c : stmt) (r : ans) : option Z :=
  match c with
  | SUpdateAssignmentStateIf runID epoch _ next =>
      if String.eqb runID run && String.eqb next AssignmentStateExecuting && x_ok r then Some epoch else None
  | _ => None
  end.

(** The epochs of [run] claimed for execution, in order. *)
Definition claimEpochs (run : string) (log : list (entry stmt ans)) : list Z := omap (fun e => claims run e.1.2 e.2) log.

(** The executions of [run] started. *)
Definition executes (run : string) (c : stmt) : nat :=
  match c with SRetryChange r | SApplyChange r => if String.eqb r run then 1%nat else 0%nat | _ => 0%nat end.

Definition legal (c : stmt) : Prop :=
  match c with
  | SCreateAssignment a => a_State a = AssignStatePending
  | SUpdateAssignmentStateIf _ _ from to => (rank from < rank to)%nat
  | SUpdateAssignmentState _ next => (2 <= rank next)%nat
  | SDeleteAssignment _ => False
  | _ => True
  end.

Definition ahead (a a' : Assignment) : Prop :=
  a_Epoch a < a_Epoch a' \/ (a_Epoch a = a_Epoch a' /\ (rank (a_State a) <= rank (a_State a'))%nat).

Lemma ahead_refl a : ahead a a.
Proof. right. lia. Qed.

Lemma live_rank s : liveState s = true -> (rank s < 2)%nat.
Proof. unfold liveState, rank. destruct (String.eqb s AssignStatePending); [lia|]. destruct (String.eqb s AssignmentStateExecuting); [lia|done]. Qed.

Lemma updateIf_lookup d run guard f k :
  d_asgn (updateIf d run guard f).1 !! k =
  if decide (run = k) then (fun a => if guard a then f a else a) <$> d_asgn d !! k else d_asgn d !! k.
Proof.
  unfold updateIf. destruct (d_asgn d !! run) as [a|] eqn:Ha; [destruct (guard a) eqn:Hg|]; cbn [fst d_asgn]; destruct (decide (run = k)) as [<-|Hne];
    rewrite ?lookup_insert_eq, ?(lookup_insert_ne _ run k), ?Ha by done; cbn; rewrite ?Hg; done.
Qed.

Lemma updateIf_ok d run guard f :
  x_ok (updateIf d run guard f).2 = true -> exists a, d_asgn d !! run = Some a /\ guard a = true /\ d_asgn (updateIf d run guard f).1 = <[run := f a]> (d_asgn d).
Proof. unfold updateIf. destruct (d_asgn d !! run) as [a|]; [destruct (guard a) eqn:Hg|]; cbn; try done. eauto. Qed.

(** Rows never go back and are never lost. *)
Lemma dbexec_ahead now d c run a :
  legal c -> d_asgn d !! run = Some a -> exists a', d_asgn (dbexec now d c).1 !! run = Some a' /\ ahead a a'.
Proof.
  intros Hl Ha.
  assert (Hu : forall k guard f, (forall x, guard x = true -> ahead x (f x)) ->
            exists a', d_asgn (updateIf d k guard f).1 !! run = Some a' /\ ahead a a').
  { intros k guard f Hf. rewrite updateIf_lookup, Ha. destruct (decide (k = run)); [|eauto using ahead_refl]. cbn.
    destruct (guard a) eqn:Hg; eauto using ahead_refl. }
  destruct c; cbn [dbexec fst]; try (by eauto using ahead_refl).
  - destruct (d_runs d !! id) as [r|]; [destruct (String.eqb (r_Status r) from)|]; cbn [fst d_asgn]; eauto using ahead_refl.
  - destruct (d_asgn d !! a_RunID a0) eqn:Hk; [eauto using ahead_refl|]. destruct (_ || _); cbn [fst d_asgn]; [|eauto using ahead_refl].
    rewrite lookup_insert_ne by congruence. eauto using ahead_refl.
  - apply Hu. intros x [_ Hs]%andb_true_iff. apply String.eqb_eq in Hs. right. cbn in *. rewrite Hs. split; [done|]. lia.
  - apply Hu. intros x Hs%live_rank. right. cbn in *. split; [done|lia].
  - apply Hu. intros x _. left. cbn. lia.
  - apply Hu. intros x _. left. cbn. lia.
  - destruct (isAssignResult result); cbn [fst]; [|eauto using ahead_refl]. apply Hu. intros x _. by right.
Qed.

Lemma dbexec_claim now d c run e :
  legal c -> claims run c (dbexec now d c).2 = Some e ->
  exists a a', d_asgn d !! run = Some a /\ a_Epoch a = e /\ rank (a_State a) = 0%nat /\
               d_asgn (dbexec now d c).1 !! run = Some a' /\ a_Epoch a' = e /\ rank (a_State a') = 1%nat.
Proof.
  destruct c; try done. cbn [claims legal dbexec]. intros Hl.
  destruct (String.eqb_spec runID run) as [->|]; [|done]. destruct (String.eqb_spec next AssignmentStateExecuting) as [->|]; [|done]. cbn [andb].
  match goal with |- context [x_ok (updateIf ?d ?k ?g ?f).2] => destruct (x_ok (updateIf d k g f).2) eqn:Hok; [|done];
    destruct (updateIf_ok d k g f Hok) as (a & Ha & Hg & Heq); rewrite Heq end.
  intros [= <-]. apply andb_true_iff in Hg as [He%Z.eqb_eq Hs%String.eqb_eq]. exists a, (withState a AssignmentStateExecuting now).
  rewrite lookup_insert_eq, Hs. cbn in *. split_and!; try done. change (rank AssignmentStateExecuting) with 1%nat in Hl. lia.
Qed.

(** What the history and the table always satisfy together. *)
Definition epochInv (d : db) (log : list (entry stmt ans)) : Prop := forall run,
  StronglySorted Z.lt (claimEpochs run log) /\
  Forall (fun e => exists a, d_asgn d !! run = Some a /\ (e < a_Epoch a \/ (e = a_Epoch a /\ (1 <= rank (a_State a))%nat))) (claimEpochs run log).

Lemma claimEpochs_snoc run log i c r :
  claimEpochs run (log ++ [(i, c, r)]) = claimEpochs run log ++ match claims run c r with Some e => [e] | None => [] end.
Proof. unfold claimEpochs. rewrite omap_app. f_equal. Qed.

Lemma sem_ahead d c d' r run a :
  legal c -> sem d c d' r -> d_asgn d !! run = Some a -> exists a', d_asgn d' !! run = Some a' /\ ahead a a'.
Proof.
  intros Hl Hs Ha. destruct Hs as [c d1 now H|c d1 now e H|c d1 e H|c d1 r H Hc]; rewrite <- H in Ha;
    [by apply dbexec_ahead|by apply dbexec_ahead|eauto using ahead_refl|eauto using ahead_refl].
Qed.

Lemma sem_claim d c d' r run e :
  legal c -> sem d c d' r -> claims run c r = Some e ->
  exists a a', d_asgn d !! run = Some a /\ a_Epoch a = e /\ rank (a_State a) = 0%nat /\
               d_asgn d' !! run = Some a' /\ a_Epoch a' = e /\ rank (a_State a') = 1%nat.
Proof.
  intros Hl Hs Hc. destruct Hs as [c d1 now H|c d1 now e' H|c d1 e' H|c d1 r H Hf].
  - rewrite <- H. by apply dbexec_claim.
  - destruct c; try done. cbn in Hc. by rewrite !andb_false_r in Hc.
  - destruct c; try done. cbn in Hc. by rewrite !andb_false_r in Hc.
  - by destruct c.
Qed.

Lemma epochInv_keep d log i c d' r : legal c -> epochInv d log -> sem d c d' r -> epochInv d' (log ++ [(i, c, r)]).
Proof.
  intros Hl Hinv Hs run. destruct (Hinv run) as [Hsort Hbound]. rewrite claimEpochs_snoc.
  assert (Hkeep : Forall (fun e => exists a, d_asgn d' !! run = Some a /\ (e < a_Epoch a \/ (e = a_Epoch a /\ (1 <= rank (a_State a))%nat))) (claimEpochs run log)).
  { eapply Forall_impl; [exact Hbound|]. cbn beta. intros e (a & Ha & He). destruct (sem_ahead _ _ _ _ _ _ Hl Hs Ha) as (a' & Ha' & Hahead).
    exists a'. split; [done|]. unfold ahead in Hahead. lia. }
  destruct (claims run c r) as [e|] eqn:Hc; [|by rewrite app_nil_r].
  destruct (sem_claim _ _ _ _ _ _ Hl Hs Hc) as (a & a' & Ha & He & Hr & Ha' & He' & Hr'). split.
  - apply StronglySorted_app_2; [|done|by repeat constructor]. intros x y Hx ->%list_elem_of_singleton.
    rewrite Forall_forall in Hbound. destruct (Hbound x Hx) as (a2 & Ha2 & Hx2). rewrite Ha in Ha2. injection Ha2 as <-. lia.
  - apply Forall_app. split; [done|]. constructor; [|constructor]. exists a'. split; [done|]. lia.
Qed.

(** Programs, walked call by call. *)
Ltac walk :=
  repeat match goal with
    | |- issues _ (pbind _ _) => apply issues_bind; [|intros ?]
    | |- paid _ _ _ (pbind _ _) => apply paid_bind; [|intros ?]
    | |- issues _ (match ?x with _ => _ end) => destruct x eqn:?
    | |- paid _ _ _ (match ?x with _ => _ end) => destruct x eqn:?
    | |- issues _ (call _) => split; [|intros ?; exact I]
    | |- paid _ _ _ (call _) => split; [cbn; lia|intros ?; exact I]
    | |- issues _ (Ret _) => exact I
    | |- paid _ _ _ (Ret _) => exact I
    end.

Lemma done_last s : String.eqb s AssignmentStateDone = false -> (rank s < 3)%nat.
Proof. unfold rank. intros ->. repeat case_match; lia. Qed.

Lemma reclaimLoop_issues l now pending workers n : issues legal (reclaimLoop l now pending workers n).
Proof.
  revert workers n. induction pending as [|a rest IH]; intros workers n; cbn [reclaimLoop]; [done|].
  walk; try apply IH; cbn; done || (cbv; lia).
Qed.

Lemma candidatesLoop_issues runs out : issues legal (candidatesLoop runs out).
Proof. revert out. induction runs as [|r rest IH]; intros out; cbn [candidatesLoop]; [done|]. unfold hasActiveAssignment. walk; try apply IH; done. Qed.

Lemma claim_issues run w : issues legal (claim run w).
Proof. unfold claim. walk; done. Qed.

Lemma assignLoop_issues l cands workers n : issues legal (assignLoop l cands workers n).
Proof. revert workers n. induction cands as [|r rest IH]; intros workers n; cbn [assignLoop]; [done|]. walk; try apply IH; apply claim_issues. Qed.

Lemma workerLoads_issues l : issues legal (workerLoads l).
Proof. unfold workerLoads. walk; done. Qed.

Lemma reclaimStale_issues l ws : issues legal (reclaimStale l ws).
Proof. unfold reclaimStale. walk; try apply reclaimLoop_issues; done. Qed.

Lemma acquire_issues races node : issues legal (acquire races node).
Proof. induction races as [|n IH]; cbn [acquire]; [done|]. walk; try apply IH; try done. cbv. lia. Qed.

Lemma complete_issues a res : issues legal (complete a res).
Proof. unfold complete. walk; try done. cbv. lia. Qed.

Lemma Execute_issues run : issues legal (Execute run).
Proof. unfold Execute, retry, apply_. walk; done. Qed.

Lemma pollOnce_issues races fuel node : issues legal (pollOnce races fuel node).
Proof.
  induction fuel as [|n IH]; cbn [pollOnce]; [done|].
  walk; try apply IH; auto using acquire_issues, complete_issues, Execute_issues.
Qed.

Lemma progOf_issues a : issues legal (progOf a).
Proof.
  destruct a as [l|l|races fuel node|run result|run]; cbn [progOf].
  - unfold DispatchOnce, isLeader, candidates. walk; auto using workerLoads_issues, reclaimStale_issues, assignLoop_issues, candidatesLoop_issues; done.
  - unfold ReclaimOnce, isLeader. walk; auto using workerLoads_issues, reclaimStale_issues; done.
  - walk; auto using pollOnce_issues.
  - unfold MarkDone. walk; try done. cbn. by apply done_last.
  - unfold reflectInterrupted. walk; try done. cbv. lia.
Qed.

Section executions.
Context (run : string).

Definition earn (c : stmt) (r : ans) : nat := match claims run c r with Some _ => 1%nat | None => 0%nat end.
Abbreviation pays := (paid earn (executes run)).

Lemma earned_claims log : earned earn log = length (claimEpochs run log).
Proof.
  induction log as [|[[i c] r] log IH] using rev_ind; [done|].
  etransitivity; [apply earned_snoc|]. rewrite claimEpochs_snoc, length_app, IH. f_equal. unfold earn. by destruct (claims run c r).
Qed.

(** A program that starts no execution owes nothing. *)
Definition idle (c : stmt) : Prop := executes run c = 0%nat.

Lemma idle_paid {A} n (p : op A) : issues idle p -> pays n p.
Proof.
  revert n. induction p as [a|c k IH]; intros n; [done|]. intros [Hc Hk]. cbn [paid]. rewrite Hc. split; [lia|]. intros r. by apply IH.
Qed.

Definition due (r : string) : nat := if String.eqb r run then 1%nat else 0%nat.

Lemma Execute_pays {A} r (k : goerr + string -> op A) : (forall x, pays 0 (k x)) -> pays (due r) (pbind (Execute r) k).
Proof.
  intros Hk. assert (H0 : forall x n, pays n (k x)) by (intros x n; eapply paid_mono; [apply Hk|lia]).
  unfold Execute, call. cbn [pbind paid executes]. split; [lia|]. intros g. unfold earn, claims. rewrite Nat.sub_0_r, Nat.add_0_r.
  destruct (x_err g); [apply H0|]. destruct (x_run g) as [x|]; [destruct (String.eqb (r_Status x) "interrupted")|];
    (split; [unfold due; cbn [executes]; lia|intros ?; apply H0]).
Qed.

Lemma acquire_pays {A} races node (k : acquired -> op A) :
  (forall x, pays (match x with Got a => due (a_RunID a) | _ => 0%nat end) (k x)) -> pays 0 (pbind (acquire races node) k).
Proof.
  intros Hk. induction races as [|n IH]; cbn [acquire]; [apply (Hk Spent)|].
  unfold call. cbn [pbind paid executes]. split; [lia|]. intros p. unfold earn, claims. cbn [Nat.sub Nat.add].
  destruct (x_err p); [apply (Hk Nothing)|]. destruct (x_asgs p) as [|a l]; [apply (Hk Nothing)|].
  cbn [pbind paid executes]. split; [lia|]. intros r. destruct (x_err r).
  - eapply paid_mono; [apply (Hk Nothing)|lia].
  - unfold earn, claims. destruct (x_ok r).
    + eapply paid_mono; [apply (Hk (Got _))|]. cbn [a_RunID]. unfold due. rewrite String.eqb_refl, !andb_true_r. destruct (String.eqb (a_RunID a) run); lia.
    + rewrite !andb_false_r. apply IH.
Qed.

Lemma pollOnce_pays races fuel node : pays 0 (pollOnce races fuel node).
Proof.
  induction fuel as [|n IH]; cbn [pollOnce]; [done|]. apply acquire_pays. intros [a| |]; [|done|done].
  apply Execute_pays. intros x. apply paid_bind; [|intros _; apply IH]. apply idle_paid. unfold complete. walk; done.
Qed.

Lemma reclaimLoop_idle l now pending workers n : issues idle (reclaimLoop l now pending workers n).
Proof. revert workers n. induction pending as [|a rest IH]; intros workers n; cbn [reclaimLoop]; [done|]. walk; try apply IH; done. Qed.

Lemma candidatesLoop_idle runs out : issues idle (candidatesLoop runs out).
Proof. revert out. induction runs as [|r rest IH]; intros out; cbn [candidatesLoop]; [done|]. unfold hasActiveAssignment. walk; try apply IH; done. Qed.

Lemma assignLoop_idle l cands workers n : issues idle (assignLoop l cands workers n).
Proof. revert workers n. induction cands as [|r rest IH]; intros workers n; cbn [assignLoop]; [done|]. unfold claim. walk; try apply IH; done. Qed.

Lemma progOf_pays a : pays 0 (progOf a).
Proof.
  destruct a as [l|l|races fuel node|r result|r]; cbn [progOf];
    try (apply paid_bind; [apply pollOnce_pays|done]); apply idle_paid;
    unfold DispatchOnce, ReclaimOnce, isLeader, workerLoads, reclaimStale, candidates, MarkDone, reflectInterrupted;
    walk; try done; auto using reclaimLoop_idle, candidatesLoop_idle, assignLoop_idle.
Qed.
End executions.

(** C32: dispatch executes at most once per epoch. However leaders, reclaimers,
    workers, completions and takeovers are interleaved, whatever statements fail or
    lose their answers, and however the run table and the membership change in
    between: the epochs of a run that were claimed for execution strictly increase,
    no execution of the run starts without a claim of its own, and no claim is
    ahead of the assignment row. *)
Theorem each_epoch_executes_once (actors : list actor) (d0 d : db) (ths : list (op unit)) (log : list (entry stmt ans)) (run : string)
    (Hrun : rtc (lstep sem) (map progOf actors, d0, []) (ths, d, log)) :
  StronglySorted Z.lt (claimEpochs run log) /\
  (spent (executes run) log <= length (claimEpochs run log))%nat /\
  Forall (fun e => exists a, d_asgn d !! run = Some a /\ e <= a_Epoch a) (claimEpochs run log).
Proof.
  assert (Hi : Forall (issues legal) (map progOf actors)) by (apply Forall_map, Forall_true; apply progOf_issues).
  assert (H0 : epochInv d0 []) by (intros r; split; constructor).
  destruct (logged_inv sem legal epochInv epochInv_keep _ _ _ _ Hi H0 Hrun) as [_ Hinv].
  destruct (Hinv run) as [Hs Hb]. split_and!; [done| |].
  - rewrite <- earned_claims. apply (system_paid sem (earn run) (executes run) (map progOf actors) d0 [] (ths, d, log)); [|done|exact Hrun].
    apply Forall_map, Forall_true. apply progOf_pays.
  - eapply Forall_impl; [exact Hb|]. cbn beta. intros e (a & Ha & He). exists a. split; [done|lia].
Qed.

(** ** A poll on its own *)

(** The tables with an executor that answers [orc]. *)
Definition next (now : Z) (orc : string -> ans) (d : db) (c : stmt) : db * ans :=
  match c with SRetryChange r | SApplyChange r => (d, orc r) | _ => dbexec now d c end.

Section poll.
Context (now : Z) (orc : string -> ans) (node : string) (Hnode : node <> "").

(** What an execution of [run] reports. *)
Definition outcome (d : db) (run : string) : string :=
  match (quiet (next now orc) (Execute run) d).1 with inl _ => "failed" | inr result => result end.

Lemma Execute_quiet d run : (quiet (next now orc) (Execute run) d).2 = d.
Proof using. unfold Execute, retry, apply_, call. cbn. repeat case_match; done. Qed.

Lemma outcome_known d run : isAssignResult (outcome d run) = true.
Proof using.
  clear Hnode. unfold outcome, Execute, retry, apply_, retryOutcome, call. cbn.
  destruct (d_runs d !! run) as [r|]; cbn; [destruct (String.eqb (r_Status r) "interrupted"); cbn|]; repeat case_match; simplify_eq; done.
Qed.

Definition mine (a : Assignment) : bool := String.eqb (a_OwnerNode a) node && String.eqb (a_State a) AssignStatePending.

(** A row of this node that was waiting is done, with the result of its run. *)
Definition settled (d : db) (a : Assignment) : Assignment :=
  if mine a then MkAssignment (a_RunID a) (a_OwnerNode a) (a_Epoch a) AssignmentStateDone (outcome d (a_RunID a)) (a_AssignedAt a) now (a_TenantID a)
  else a.

Definition waiting (d : db) : nat := length (filter (fun a => mine a = true) (map snd (map_to_list (d_asgn d)))).
Definition wellKeyed (d : db) : Prop := map_Forall (fun k a => a_RunID a = k) (d_asgn d).

Definition mineFilter : AssignmentFilter := MkAssignmentFilter "" node AssignStatePending [] 1 "".

Lemma selects_mine a : selectsAssignment mineFilter a = mine a.
Proof using Hnode.
  unfold selectsAssignment, clause, mine. cbn [af_RunID af_OwnerNode af_State af_ExcludeStates af_TenantID mineFilter].
  apply String.eqb_neq in Hnode. rewrite Hnode. cbn. by rewrite !andb_true_r.
Qed.

(** The row a poll looks at first. *)
Lemma poll_head d :
  match listAssignments mineFilter (d_asgn d) with
  | [] => waiting d = 0%nat
  | a :: _ => exists k, d_asgn d !! k = Some a /\ mine a = true
  end.
Proof using Hnode.
  unfold listAssignments, waiting. cbn [af_Limit mineFilter Z.ltb Z.compare].
  rewrite (list_filter_iff _ (fun a => mine a = true)) by (intros a; by rewrite selects_mine).
  destruct (merge_sort oldestFirst _) as [|a l] eqn:E; cbn.
  - assert (H : filter (fun a => mine a = true) (map snd (map_to_list (d_asgn d))) ≡ₚ []) by (rewrite <- E; symmetry; apply merge_sort_Permutation).
    by apply Permutation_nil_r in H as ->.
  - assert (Ha : a ∈ merge_sort oldestFirst (filter (fun a => mine a = true) (map snd (map_to_list (d_asgn d))))) by (rewrite E; by left).
    rewrite merge_sort_Permutation in Ha. apply list_elem_of_filter in Ha as [Hm ([k x] & -> & Hx%elem_of_map_to_list)%list_elem_of_fmap].
    by exists k.
Qed.

Lemma waiting_insert d k a a' :
  d_asgn d !! k = Some a -> mine a = true -> mine a' = false ->
  S (waiting (MkDb (d_runs d) (<[k := a']> (d_asgn d)) (d_reg d))) = waiting d.
Proof using.
  intros Ha Hm Hm'. unfold waiting. cbn [d_asgn]. rewrite <- insert_delete_eq.
  rewrite <- (insert_delete_id (d_asgn d) k a Ha) at 2.
  rewrite !(map_to_list_insert (delete k (d_asgn d))) by apply lookup_delete_eq. cbn [map snd].
  rewrite !filter_cons. rewrite Hm, Hm'. by rewrite decide_False, decide_True by done.
Qed.

(** One assignment handled. *)
Definition advance (d : db) (k : string) (a : Assignment) : db := MkDb (d_runs d) (<[k := settled d a]> (d_asgn d)) (d_reg d).

Lemma acquire_quiet d races k a l :
  wellKeyed d -> listAssignments mineFilter (d_asgn d) = a :: l -> d_asgn d !! k = Some a -> mine a = true ->
  quiet (next now orc) (acquire (S races) node) d =
  (Got (MkAssignment (a_RunID a) (a_OwnerNode a) (a_Epoch a) AssignmentStateExecuting (a_Result a) (a_AssignedAt a) (a_UpdatedAt a) (a_TenantID a)),
   MkDb (d_runs d) (<[k := withState a AssignmentStateExecuting now]> (d_asgn d)) (d_reg d)).
Proof using.
  intros Hk Hl Ha Hm. pose proof (Hk _ _ Ha) as Hid. cbn beta in Hid.
  unfold mine in Hm. apply andb_true_iff in Hm as [_ Hs].
  cbn [acquire]. unfold call. cbn [pbind quiet next dbexec x_err x_asgs]. fold mineFilter. rewrite Hl. cbn [pbind quiet next dbexec].
  unfold updateIf. rewrite Hid, Ha, Z.eqb_refl, Hs. done.
Qed.

Lemma complete_quiet d k a result :
  a_RunID a = k -> d_asgn d !! k = Some (withState a AssignmentStateExecuting now) -> isAssignResult result = true ->
  quiet (next now orc)
    (complete (MkAssignment (a_RunID a) (a_OwnerNode a) (a_Epoch a) AssignmentStateExecuting (a_Result a) (a_AssignedAt a) (a_UpdatedAt a) (a_TenantID a)) result) d =
  (None, MkDb (d_runs d)
           (<[k := MkAssignment (a_RunID a) (a_OwnerNode a) (a_Epoch a) AssignmentStateDone result (a_AssignedAt a) now (a_TenantID a)]> (d_asgn d)) (d_reg d)).
Proof using.
  intros Hid Ha Hr. unfold complete, call. cbn [pbind quiet next dbexec a_RunID a_Epoch]. unfold updateIf. rewrite Hid, Ha. cbn [withState a_Epoch a_State].
  rewrite Z.eqb_refl, String.eqb_refl. cbn [andb x_err x_ok rows negb pbind quiet next dbexec]. rewrite Hr. unfold updateIf. cbn [d_asgn].
  rewrite lookup_insert_eq. cbn [withState a_Epoch]. rewrite Z.eqb_refl. cbn. rewrite insert_insert_eq. unfold withResult, withState. cbn. by rewrite Hid.
Qed.

Lemma outcome_runs d d' run : d_runs d' = d_runs d -> outcome d' run = outcome d run.
Proof using. clear Hnode. intros H. unfold outcome, Execute, retry, apply_, call. cbn. rewrite H.
  destruct (d_runs d !! run) as [r|]; cbn; [destruct (String.eqb (r_Status r) "interrupted"); cbn|]; by destruct (x_err (orc run)).
Qed.

Lemma settled_runs d d' a : d_runs d' = d_runs d -> settled d' a = settled d a.
Proof using. intros H. unfold settled. by rewrite (outcome_runs d d'). Qed.

Lemma settled_mine d a : mine (settled d a) = false.
Proof using. unfold settled. destruct (mine a) eqn:Hm; [|done]. unfold mine. cbn. apply andb_false_r. Qed.

Lemma settled_twice d a : settled d (settled d a) = settled d a.
Proof using. unfold settled at 1. by rewrite settled_mine. Qed.

Lemma advance_settles d k a : d_asgn d !! k = Some a -> settled (advance d k a) <$> d_asgn (advance d k a) = settled d <$> d_asgn d.
Proof using.
  intros Ha. apply map_eq. intros i. rewrite !lookup_fmap. unfold advance. cbn [d_asgn].
  destruct (decide (k = i)) as [<-|Hne]; [rewrite lookup_insert_eq, Ha|rewrite lookup_insert_ne by done; destruct (d_asgn d !! i)];
    cbn; rewrite ?(settled_runs d) by done; rewrite ?settled_twice; done.
Qed.

Lemma advance_keyed d k a : wellKeyed d -> d_asgn d !! k = Some a -> wellKeyed (advance d k a).
Proof using.
  intros Hk Ha. apply map_Forall_insert_2; [|done]. unfold settled. pose proof (Hk _ _ Ha). by destruct (mine a).
Qed.

Lemma poll_step d races fuel k a l :
  wellKeyed d -> listAssignments mineFilter (d_asgn d) = a :: l -> d_asgn d !! k = Some a -> mine a = true ->
  quiet (next now orc) (pollOnce (S races) (S fuel) node) d = quiet (next now orc) (pollOnce (S races) fuel node) (advance d k a).
Proof using Hnode.
  intros Hk Hl Ha Hm. pose proof (Hk _ _ Ha) as Hid. cbn beta in Hid. cbn [pollOnce].
  rewrite quiet_bind, (acquire_quiet d races k a l Hk Hl Ha Hm). cbn [fst snd a_RunID].
  rewrite quiet_bind, Execute_quiet, quiet_bind. fold (outcome (MkDb (d_runs d) (<[k := withState a AssignmentStateExecuting now]> (d_asgn d)) (d_reg d)) (a_RunID a)).
  rewrite (outcome_runs d) by done. rewrite (complete_quiet _ k a); [|done|cbn [d_asgn]; by rewrite lookup_insert_eq|apply outcome_known].
  cbn [fst snd d_runs d_asgn d_reg]. rewrite insert_insert_eq. unfold advance, settled. by rewrite Hm.
Qed.

Lemma poll_all races fuel d :
  wellKeyed d -> (waiting d < fuel)%nat ->
  quiet (next now orc) (pollOnce (S races) fuel node) d = (true, MkDb (d_runs d) (settled d <$> d_asgn d) (d_reg d)).
Proof using Hnode.
  revert d. induction fuel as [|fuel IH]; intros d Hk Hw; [lia|]. pose proof (poll_head d) as Hh.
  destruct (listAssignments mineFilter (d_asgn d)) as [|a l] eqn:Hl.
  - cbn [pollOnce acquire]. unfold call. cbn [pbind quiet next dbexec x_err x_asgs]. fold mineFilter. rewrite Hl. cbn. f_equal. destruct d as [rs as_ rg]. cbn. f_equal.
    symmetry. apply map_eq. intros i. rewrite lookup_fmap. destruct (as_ !! i) as [a|] eqn:Hi; [|done]. cbn. unfold settled.
    destruct (mine a) eqn:Hm; [|done]. exfalso. unfold waiting in Hh. apply nil_length_inv in Hh. cbn in Hh.
    assert (Hin : a ∈ filter (fun a => mine a = true) (map snd (map_to_list as_))); [|rewrite Hh in Hin; by apply not_elem_of_nil in Hin].
    apply list_elem_of_filter. split; [done|]. apply list_elem_of_fmap. exists (i, a). split; [done|]. by apply elem_of_map_to_list.
  - destruct Hh as (k & Ha & Hm). rewrite (poll_step d races fuel k a l Hk Hl Ha Hm), IH.
    + by rewrite advance_settles.
    + by apply advance_keyed.
    + pose proof (waiting_insert d k a (settled d a) Ha Hm (settled_mine d a)). unfold advance. lia.
Qed.
End poll.


(** ** Instances *)

Definition ex_asg (run node : string) (epoch : Z) (state : string) : Assignment := MkAssignment run node epoch state "" 1 1 "".
Definition ex_db : db := MkDb ∅ {[ "r1" := ex_asg "r1" "n1" 1 "pending"; "r2" := ex_asg "r2" "n2" 4 "executing"; "r3" := ex_asg "r3" "n1" 2 "pending" ]} Cluster.NewNodeRegistry.


(** Two workers of one node and a takeover on one assignment, on a schedule that
    makes the workers race. *)
Definition ex_actors : list actor := [AWorker 2 1 "n1"; AWorker 2 1 "n1"; ATakeover "r3"].
Definition ex_race := ldrive (next 9 (fun _ => rows true)) [0; 1; 0; 1; 2; 2; 0; 0; 1; 1; 1; 0; 1; 1]%nat (map progOf ex_actors) ex_db [].

Lemma next_sem now orc d c : sem d c (next now orc d c).1 (next now orc d c).2.
Proof. destruct c; try (by apply (sem_exec d _ d now)); by apply sem_free. Qed.

Lemma ex_race_runs : rtc (lstep sem) (map progOf ex_actors, ex_db, []) (ex_race.1.1, ex_race.1.2, ex_race.2).
Proof. rewrite <- (surjective_pairing ex_race.1), <- surjective_pairing. exact (ldrive_steps _ sem (next_sem 9 (fun _ => rows true)) _ _ _ _). Qed.

Lemma each_epoch_executes_once_witness :
  (claimEpochs "r3" ex_race.2 = [2] /\ spent (executes "r3") ex_race.2 = 1%nat /\ (a_State <$> d_asgn ex_race.1.2 !! "r3") = Some "interrupted") /\
  StronglySorted Z.lt (claimEpochs "r3" ex_race.2) /\ (spent (executes "r3") ex_race.2 <= length (claimEpochs "r3" ex_race.2))%nat /\
  Forall (fun e => exists a, d_asgn ex_race.1.2 !! "r3" = Some a /\ e <= a_Epoch a) (claimEpochs "r3" ex_race.2).
Proof.
  split; [by vm_compute|]. apply (each_epoch_executes_once ex_actors ex_db ex_race.1.2 ex_race.1.1 ex_race.2 "r3").
  exact ex_race_runs.
Defined.

(** The sweep fills the first worker with spare room instead of the least loaded
    one: two runs and two idle nodes of capacity 4 both go to the first node. *)
Definition ex_run (id : string) : Run := MkRun id "" "" "" "" "" RunStatus.StatusApproved "" "" "" 1 1 "" "" "".
Definition ex_leader : Cluster.NodeRegistry :=
  Cluster.MkRegistry {[ "n1" := Cluster.MkNode "n1" ":1" "active" "master" 0 "" 0; "n2" := Cluster.MkNode "n2" ":2" "active" "worker" 0 "" 0 ]} "n1".

Example sweep_does_not_spread :
  let d := MkDb {[ "r1" := ex_run "r1"; "r2" := ex_run "r2" ]} ∅ ex_leader in
  let d' := (quiet (next 9 (fun _ => rows true)) (DispatchOnce (NewLoop "n1" 0 0 0)) d).2 in
  (a_OwnerNode <$> d_asgn d' !! "r1") = (a_OwnerNode <$> d_asgn d' !! "r2") /\ is_Some (a_OwnerNode <$> d_asgn d' !! "r1").
Proof. vm_compute. split; [done|by eexists]. Qed.

(** A completion is not tied to an epoch: it marks done whatever epoch the run is
    at, also one that was handed to another node since. *)
Example mark_done_crosses_epochs :
  let d := MkDb ∅ {[ "r" := ex_asg "r" "n2" 2 "pending" ]} Cluster.NewNodeRegistry in
  let d' := (quiet (next 9 (fun _ => rows true)) (MarkDone "r" "completed") d).2 in
  (a_State <$> d_asgn d' !! "r") = Some "done" /\ (a_Epoch <$> d_asgn d' !! "r") = Some 2.
Proof. by vm_compute. Qed.
End Dispatch.
