(* ===== verification/DispatchSweep.v ===== *)
(** * DispatchSweep: what one sweep of the leader achieves

    The sweep of [Dispatch.DispatchOnce] (src/internal/dispatch/dispatch.go) run on
    its own over the tables: which rows it writes, that it never loads a node past
    its capacity, and that it leaves a run waiting only when every node is full. *)

From Stdlib Require Import ZArith Lia Ascii String.
From stdpp Require Import base gmap sets list strings pretty sorting relations.
From S2P Require Import Prelude RunStatus Table Concur Rely Cluster Dispatch.
Import Concur Rely Dispatch.
Open Scope string_scope.
Open Scope list_scope.
Local Open Scope Z_scope.

Module DispatchSweep.

(** ** The insertion sort *)

Definition lighter (x y : workerLoad) : Prop := wl_active x <= wl_active y.

Lemma sink_perm x l : sink x l ≡ₚ x :: l.
Proof. induction l as [|y l IH]; cbn; [done|]. destruct (wl_active x <? wl_active y); [|done]. rewrite IH. constructor. Qed.

Lemma sink_sorted x l : StronglySorted (flip lighter) l -> StronglySorted (flip lighter) (sink x l).
Proof.
  induction 1 as [|y l Hs IH Hall]; cbn; [by repeat constructor|]. destruct (Z.ltb_spec (wl_active x) (wl_active y)) as [Hlt|Hge].
  - constructor; [done|]. rewrite sink_perm. constructor; [unfold flip, lighter; lia|done].
  - constructor; [by constructor|]. constructor; [done|]. eapply Forall_impl; [exact Hall|]. unfold flip, lighter. intros z Hz. lia.
Qed.

Lemma sortByLoad_perm l : sortByLoad l ≡ₚ l.
Proof.
  unfold sortByLoad. rewrite reverse_Permutation. rewrite <- (app_nil_r l) at 2. generalize (@nil workerLoad) as acc.
  induction l as [|x l IH]; intros acc; cbn; [done|]. rewrite IH, sink_perm. by rewrite Permutation_middle.
Qed.

Lemma sortByLoad_sorted l : StronglySorted lighter (sortByLoad l).
Proof.
  unfold sortByLoad.
  assert (H : StronglySorted (flip lighter) (fold_left (fun prefix x => sink x prefix) l [])).
  { assert (Hacc : StronglySorted (flip lighter) (@nil workerLoad)) by constructor. revert Hacc. generalize (@nil workerLoad).
    induction l as [|x l IH]; intros acc Hacc; cbn; [done|]. by apply IH, sink_sorted. }
  induction H as [|x l' Hs IH Hall]; [constructor|]. rewrite reverse_cons. apply StronglySorted_app_2; [|done|by repeat constructor].
  intros a b Ha ->%list_elem_of_singleton. rewrite elem_of_reverse in Ha. rewrite Forall_forall in Hall. by apply Hall.
Qed.

(** ** Loads *)

Definition rowsOf (d : db) : list Assignment := map snd (map_to_list (d_asgn d)).
Definition loads (id : string) (a : Assignment) : bool := negb (inSet terminalAssignStates (a_State a)) && String.eqb (a_OwnerNode a) id.
(** The assignments that count against a node. *)
Definition load (d : db) (id : string) : Z := Z.of_nat (length (filter (fun a => loads id a = true) (rowsOf d))).

Definition activeRow (d : db) (run : string) : bool := match d_asgn d !! run with Some a => liveState (a_State a) | None => false end.

(** The states the column knows. *)
Definition vocabulary (d : db) : Prop :=
  map_Forall (fun _ a => a_State a ∈ [AssignStatePending; AssignmentStateExecuting; AssignmentStateDone; AssignmentStateInterrupted]) (d_asgn d).

Definition putRow (d : db) (k : string) (a : Assignment) : db := MkDb (d_runs d) (<[k := a]> (d_asgn d)) (d_reg d).

Lemma terminal_not_live s :
  s ∈ [AssignStatePending; AssignmentStateExecuting; AssignmentStateDone; AssignmentStateInterrupted] ->
  inSet terminalAssignStates s = negb (liveState s).
Proof. intros Hs. repeat (apply elem_of_cons in Hs as [->|Hs]; [done|]). by apply not_elem_of_nil in Hs. Qed.

Lemma load_put d k a id :
  vocabulary d -> activeRow d k = false -> load (putRow d k a) id = load d id + (if loads id a then 1 else 0).
Proof.
  intros Hv Hk. unfold load, rowsOf, putRow. cbn [d_asgn].
  assert (Hdel : filter (fun a => loads id a = true) (map snd (map_to_list (delete k (d_asgn d)))) ≡ₚ
                 filter (fun a => loads id a = true) (map snd (map_to_list (d_asgn d)))).
  { destruct (d_asgn d !! k) as [old|] eqn:Hold; [|by rewrite delete_id].
    rewrite <- (insert_delete_id (d_asgn d) k old Hold) at 2. rewrite map_to_list_insert by apply lookup_delete_eq. cbn [map snd].
    rewrite filter_cons_False; [done|]. unfold loads, activeRow in *. rewrite Hold in Hk. rewrite (terminal_not_live _ (Hv _ _ Hold)), Hk. done. }
  rewrite <- insert_delete_eq, map_to_list_insert by apply lookup_delete_eq. cbn [map snd]. rewrite filter_cons.
  destruct (loads id a); [rewrite decide_True by done|rewrite decide_False by done]; cbn [length]; rewrite Hdel; lia.
Qed.

Lemma vocabulary_put d k a : vocabulary d -> a_State a = AssignStatePending -> vocabulary (putRow d k a).
Proof. intros Hv Ha. apply map_Forall_insert_2; [rewrite Ha; by left|done]. Qed.

(** ** One claim *)

(** The row a claim of [run] writes for [w]. *)
Definition claimed (now : Z) (d : db) (run : Run) (w : string) : Assignment :=
  match d_asgn d !! r_ID run with
  | None => MkAssignment (r_ID run) w 1 AssignStatePending "" now now (r_TenantID run)
  | Some a => repointed a w now
  end.

Section sweep.
Context (now : Z) (orc : string -> ans).

Lemma claim_quiet d run w :
  activeRow d (r_ID run) = false -> quiet (next now orc) (claim run w) d = (inr true, putRow d (r_ID run) (claimed now d run w)).
Proof using.
  unfold activeRow, claim, call, claimed, putRow. intros Hk. cbn [pbind quiet next dbexec x_err x_asg].
  destruct (d_asgn d !! r_ID run) as [a|] eqn:Ha.
  - rewrite Hk. cbn [pbind quiet next dbexec]. unfold updateIf. by rewrite Ha, Z.eqb_refl.
  - cbn [pbind quiet next dbexec a_RunID]. rewrite Ha. done.
Qed.

Lemma claimed_pending d run w : a_State (claimed now d run w) = AssignStatePending /\ a_OwnerNode (claimed now d run w) = w.
Proof using. unfold claimed. by destruct (d_asgn d !! r_ID run). Qed.

Lemma loads_claimed d run w id : loads id (claimed now d run w) = String.eqb w id.
Proof using. unfold loads. destruct (claimed_pending d run w) as [-> ->]. done. Qed.

(** Every row of [d'] is the one of [d] or the row of a claim made by this sweep. *)
Definition onlyClaims (cands : list Run) (ws : list string) (d d' : db) : Prop :=
  d_runs d' = d_runs d /\ d_reg d' = d_reg d /\
  forall k, d_asgn d' !! k = d_asgn d !! k \/
    exists run w, run ∈ cands /\ r_ID run = k /\ w ∈ ws /\ activeRow d k = false /\ d_asgn d' !! k = Some (claimed now d run w).

Lemma nextWorker_spec cap ws :
  exists skipped, ws = skipped ++ nextWorker cap ws /\ Forall (fun w => cap <= wl_active w) skipped /\
    match nextWorker cap ws with w :: _ => wl_active w < cap | [] => True end.
Proof using.
  induction ws as [|w ws (sk & Hs & Hf & Hn)]; cbn; [by exists []|]. destruct (Z.leb_spec cap (wl_active w)) as [Hle|Hlt].
  - exists (w :: sk). split_and!; [cbn; by f_equal|by constructor|done].
  - by exists [].
Qed.

Lemma activeRow_put_ne d k k' a : k <> k' -> activeRow (putRow d k a) k' = activeRow d k'.
Proof using. intros H. unfold activeRow, putRow. cbn. by rewrite lookup_insert_ne. Qed.

Lemma claimed_put_ne d k a run w : r_ID run <> k -> claimed now (putRow d k a) run w = claimed now d run w.
Proof using. intros H. unfold claimed, putRow. cbn. by rewrite lookup_insert_ne. Qed.

(** What the loop over the candidates does. *)
Record swept (l : Loop) (cands : list Run) (ws : list workerLoad) (d d' : db) : Prop := {
  sw_rows : onlyClaims cands (map wl_id ws) d d';
  sw_load : forall id, load d id <= load d' id <= Z.max (load d id) (l_capacity l);
  sw_full : (exists run, run ∈ cands /\ activeRow d' (r_ID run) = false) -> forall w, w ∈ ws -> l_capacity l <= load d' (wl_id w);
}.

Lemma swept_refl l cands ws d :
  (cands = [] \/ Forall (fun w => l_capacity l <= load d (wl_id w)) ws) -> swept l cands ws d d.
Proof using.
  intros H. constructor; [|lia|].
  - split_and!; [done|done|]. by left.
  - intros (run & Hrun & _) w Hw. destruct H as [->|H]; [by apply not_elem_of_nil in Hrun|]. rewrite Forall_forall in H. by apply H.
Qed.

Lemma onlyClaims_skip cands ws ws' d d' : (forall w, w ∈ ws -> w ∈ ws') -> onlyClaims cands ws d d' -> onlyClaims cands ws' d d'.
Proof using.
  intros Hin (Hr & Hg & H). split_and!; [done|done|]. intros k. destruct (H k) as [?|(run & w & ? & ? & ? & ?)]; [by left|right]. exists run, w. auto.
Qed.

Lemma swept_step l run cands w others d d' :
  vocabulary d -> activeRow d (r_ID run) = false -> r_ID run ∉ map r_ID cands -> wl_active w = load d (wl_id w) -> wl_active w < l_capacity l ->
  swept l cands (bumped w :: others) (putRow d (r_ID run) (claimed now d run (wl_id w))) d' ->
  swept l (run :: cands) (w :: others) d d'.
Proof using.
  intros Hv Hact Hrun Hw Hlt [(Hr & Hg & Hrows) Hload Hfull]. set (d1 := putRow _ _ _) in *.
  assert (Hl : forall id, load d1 id = load d id + (if String.eqb (wl_id w) id then 1 else 0)).
  { intros id. unfold d1. rewrite load_put by done. by rewrite loads_claimed. }
  assert (Hself : d_asgn d' !! r_ID run = Some (claimed now d run (wl_id w))).
  { destruct (Hrows (r_ID run)) as [->|(run' & w' & Hin & Hid & _)]; [unfold d1; cbn; by rewrite lookup_insert_eq|].
    exfalso. apply Hrun, list_elem_of_fmap. by exists run'. }
  constructor.
  - split_and!; [done|done|]. intros k. destruct (decide (r_ID run = k)) as [<-|Hne].
    + right. exists run, (wl_id w). split_and!; try done; by left.
    + destruct (Hrows k) as [->|(run' & w' & Hin & Hid & Hw' & Ha & ->)]; [left; unfold d1; cbn; by rewrite lookup_insert_ne|right].
      exists run', w'. split_and!; [by right|done|exact Hw'| |].
      * unfold d1 in Ha. by rewrite activeRow_put_ne in Ha.
      * unfold d1. rewrite claimed_put_ne by congruence. done.
  - intros node. specialize (Hload node). rewrite Hl in Hload. destruct (String.eqb_spec (wl_id w) node) as [E|]; [rewrite E in Hw|]; lia.
  - intros (run' & [->|Hin]%elem_of_cons & Ha) w' Hw'.
    + exfalso. unfold activeRow in Ha. rewrite Hself in Ha. by rewrite (proj1 (claimed_pending d run (wl_id w))) in Ha.
    + apply elem_of_cons in Hw' as [->|Hw']; [apply (Hfull (ex_intro _ run' (conj Hin Ha)) (bumped w)); by left|].
      apply (Hfull (ex_intro _ run' (conj Hin Ha)) w'). by right.
Qed.

Lemma swept_skip l cands skipped ws d d' :
  Forall (fun w => l_capacity l <= load d (wl_id w)) skipped -> swept l cands ws d d' -> swept l cands (skipped ++ ws) d d'.
Proof using.
  intros Hs [Hrows Hload Hfull]. constructor; [|done|].
  - eapply onlyClaims_skip; [|exact Hrows]. intros w Hw. rewrite map_app. apply elem_of_app. by right.
  - intros Hex w [Hw|Hw]%elem_of_app; [|by apply Hfull]. rewrite Forall_forall in Hs. specialize (Hs w Hw). specialize (Hload (wl_id w)). lia.
Qed.

Lemma assign_sweeps l cands ws n d :
  vocabulary d -> NoDup (map r_ID cands) -> Forall (fun run => activeRow d (r_ID run) = false) cands ->
  NoDup (map wl_id ws) -> Forall (fun w => wl_active w = load d (wl_id w)) ws ->
  swept l cands ws d (quiet (next now orc) (assignLoop l cands ws n) d).2.
Proof using.
  revert ws n d. induction cands as [|run cands IH]; intros ws n d Hv Hnd Hfree Hids Hact; cbn [assignLoop].
  - cbn. apply swept_refl. by left.
  - destruct (nextWorker_spec (l_capacity l) ws) as (skipped & Hws & Hskip & Hhead).
    assert (Hsk : Forall (fun w => l_capacity l <= load d (wl_id w)) skipped).
    { rewrite Hws in Hact. apply Forall_app in Hact as [Ha _]. rewrite Forall_forall in *. intros w Hw. rewrite <- (Ha w Hw). auto. }
    destruct (nextWorker (l_capacity l) ws) as [|w others]; subst ws.
    + cbn. rewrite app_nil_r. apply swept_refl. by right.
    + apply Forall_cons in Hfree as [Hrun Hfree]. apply NoDup_cons in Hnd as [Hnew Hnd]. apply Forall_app in Hact as [_ [Hw Ho]%Forall_cons].
      rewrite map_app in Hids. apply NoDup_app in Hids as (_ & _ & [Hwn Hon]%NoDup_cons).
      rewrite quiet_bind, claim_quiet by done. cbn [fst snd]. apply swept_skip; [done|]. apply swept_step; [done..|].
      destruct (claimed_pending d run (wl_id w)) as [Hp _]. apply IH.
      * by apply vocabulary_put.
      * done.
      * rewrite Forall_forall in *. intros r Hr. rewrite activeRow_put_ne; [by apply Hfree|]. intros E. apply Hnew, list_elem_of_fmap. by exists r.
      * by constructor.
      * constructor; [cbn; rewrite load_put, loads_claimed, String.eqb_refl, Hw by done; lia|].
        rewrite Forall_forall in *. intros x Hx. rewrite load_put, loads_claimed by done. rewrite (proj2 (String.eqb_neq _ _)); [rewrite (Ho x Hx); lia|].
        intros E. apply Hwn. rewrite E. by apply list_elem_of_fmap_2.
Qed.
End sweep.

(** ** The reads before the loop *)

(** The nodes a sweep hands work to. *)
Definition workers (l : Loop) (d : db) : list string :=
  match activeNodes (d_reg d) with [] => [l_nodeID l] | ns => map Cluster.n_ID ns end.

(** The runs that wait for a node. *)
Definition waits (d : db) (run : Run) : Prop :=
  d_runs d !! r_ID run = Some run /\ r_Status run = RunStatus.StatusApproved /\ activeRow d (r_ID run) = false.

(** Tables a sweep reads whole: its page sizes are 10000 and 1000. *)
Record pageable (d : db) : Prop := {
  pg_asgn : Z.of_nat (size (d_asgn d)) <= 10000;
  pg_runs : Z.of_nat (size (d_runs d)) <= 1000;
  pg_keys : map_Forall (fun k r => r_ID r = k) (d_runs d);
  pg_nodes : Cluster.keyed (Cluster.r_nodes (d_reg d));
  pg_states : vocabulary d;
}.

(** No pending assignment is old enough to be reclaimed. *)
Definition fresh (now : Z) (l : Loop) (d : db) : Prop :=
  map_Forall (fun _ a => a_State a = AssignStatePending -> now - since a < l_claimTimeout l) (d_asgn d).

Lemma rowsOf_elem d a : a ∈ rowsOf d <-> exists k, d_asgn d !! k = Some a.
Proof.
  unfold rowsOf. rewrite list_elem_of_fmap. split.
  - intros ([k x] & -> & Hx%elem_of_map_to_list). by exists k.
  - intros (k & Hk). exists (k, a). split; [done|]. by apply elem_of_map_to_list.
Qed.

Lemma rowsOf_length d : length (rowsOf d) = size (d_asgn d).
Proof. unfold rowsOf. by rewrite length_map, length_map_to_list. Qed.

Section reads.
Context (now : Z) (orc : string -> ans) (l : Loop) (d : db) (Hpg : pageable d).

Lemma live_listed :
  listAssignments (MkAssignmentFilter "" "" "" terminalAssignStates 10000 "") (d_asgn d) ≡ₚ
  filter (fun a => negb (inSet terminalAssignStates (a_State a)) = true) (rowsOf d).
Proof using Hpg.
  unfold listAssignments. cbn [af_Limit Z.ltb Z.compare]. rewrite take_ge.
  - rewrite merge_sort_Permutation. rewrite (list_filter_iff _ (fun a => negb (inSet terminalAssignStates (a_State a)) = true)); [done|].
    intros a. unfold selectsAssignment, clause. cbn [af_RunID af_OwnerNode af_State af_ExcludeStates af_TenantID]. cbn [String.eqb orb andb]. by rewrite andb_true_r.
  - rewrite merge_sort_Permutation, length_filter. fold (rowsOf d). rewrite rowsOf_length. pose proof (pg_asgn d Hpg). lia.
Qed.

Lemma countOwned_load id :
  countOwned (listAssignments (MkAssignmentFilter "" "" "" terminalAssignStates 10000 "") (d_asgn d)) id = load d id.
Proof using Hpg.
  unfold countOwned, load. f_equal. rewrite live_listed, list_filter_filter. f_equal. apply list_filter_iff. intros a. unfold loads.
  clear orc. rewrite andb_true_iff, String.eqb_eq. tauto.
Qed.

Lemma active_ids : map Cluster.n_ID (filter (fun n => Cluster.n_Status n = Cluster.StatusActive)
    match activeNodes (d_reg d) with [] => [Cluster.MkNode (l_nodeID l) "" Cluster.StatusActive "" 0 "" 0] | ns => ns end) = workers l d.
Proof using.
  unfold workers. destruct (activeNodes (d_reg d)) as [|n ns] eqn:E; [done|]. rewrite <- E. unfold activeNodes. by rewrite list_filter_filter_l.
Qed.

Lemma workers_NoDup : NoDup (workers l d).
Proof using Hpg.
  unfold workers. destruct (activeNodes (d_reg d)) as [|n ns] eqn:E; [apply NoDup_singleton|]. rewrite <- E. unfold activeNodes, Cluster.nodesOf.
  apply Table.key_filter. rewrite map_map. erewrite map_ext_in; [apply NoDup_fst_map_to_list|].
  intros [k x] Hx%list_elem_of_In%elem_of_map_to_list. exact (pg_nodes d Hpg _ _ Hx).
Qed.

Lemma workerLoads_quiet :
  exists ws, quiet (next now orc) (workerLoads l) d = (inr ws, d) /\ map wl_id ws ≡ₚ workers l d /\ Forall (fun w => wl_active w = load d (wl_id w)) ws.
Proof using Hpg.
  unfold workerLoads, call. cbn [pbind quiet next dbexec x_nodes x_err x_asgs]. eexists. split; [reflexivity|]. split.
  - rewrite sortByLoad_perm, map_map. cbn [wl_id]. apply reflexive_eq, active_ids.
  - rewrite sortByLoad_perm. apply Forall_map, Forall_true. intros n. cbn. apply countOwned_load.
Qed.

Lemma reclaimLoop_fresh pending ws n :
  Forall (fun a => now - since a < l_claimTimeout l) pending -> quiet (next now orc) (reclaimLoop l now pending ws n) d = ((ws, n), d).
Proof using. clear Hpg. induction 1 as [|a rest Ha _ IH]; cbn [reclaimLoop]; [done|]. by rewrite (proj2 (Z.ltb_lt _ _) Ha). Qed.

Lemma reclaim_fresh ws : fresh now l d -> quiet (next now orc) (reclaimStale l ws) d = (inr (ws, 0), d).
Proof using.
  clear Hpg. intros Hf. unfold reclaimStale, call. cbn [pbind quiet next dbexec x_err x_asgs x_time]. rewrite quiet_bind, reclaimLoop_fresh; [done|].
  apply Forall_forall. intros a Ha. unfold listAssignments in Ha. cbn [af_Limit Z.ltb Z.compare] in Ha. apply (subseteq_take _ _ a) in Ha.
  rewrite merge_sort_Permutation in Ha. apply list_elem_of_filter in Ha as [Hs Ha]. fold (rowsOf d) in Ha. apply rowsOf_elem in Ha as [k Hk].
  apply (Hf _ _ Hk). unfold selectsAssignment, clause in Hs. cbn [af_RunID af_OwnerNode af_State af_ExcludeStates af_TenantID] in Hs. cbn in Hs.
  rewrite !andb_true_r in Hs. by apply String.eqb_eq in Hs.
Qed.

Lemma candidatesLoop_quiet runs out :
  quiet (next now orc) (candidatesLoop runs out) d = (inr (out ++ filter (fun r => activeRow d (r_ID r) = false) runs), d).
Proof using.
  clear Hpg. revert out. induction runs as [|r rest IH]; intros out; cbn [candidatesLoop]; [by rewrite app_nil_r|].
  unfold hasActiveAssignment, call. cbn [pbind quiet next dbexec x_err x_asg]. fold (activeRow d (r_ID r)). rewrite filter_cons.
  destruct (activeRow d (r_ID r)); rewrite IH; [done|]. rewrite decide_True by done. by rewrite <- app_assoc.
Qed.

Lemma approved_listed :
  exists rs, listRuns (MkRunFilter runStatusApproved "" "" "" "" 1000 0 "") (d_runs d) = inr rs /\
    rs ≡ₚ filter (fun r => r_Status r = RunStatus.StatusApproved) (map snd (map_to_list (d_runs d))).
Proof using Hpg.
  unfold listRuns. cbn [rf_Limit rf_Offset Z.ltb Z.compare]. eexists. split; [reflexivity|]. rewrite take_ge.
  - rewrite merge_sort_Permutation. rewrite (list_filter_iff _ (fun r => r_Status r = RunStatus.StatusApproved)); [done|].
    intros r. unfold selectsRun, clause. cbn [rf_Status rf_WorkflowName rf_TemplateName rf_Creator rf_IncidentID rf_TenantID]. cbn. rewrite !andb_true_r. apply String.eqb_eq.
  - rewrite merge_sort_Permutation, length_filter, length_map, length_map_to_list. pose proof (pg_runs d Hpg). lia.
Qed.

Lemma candidates_quiet :
  exists cs, quiet (next now orc) candidates d = (inr cs, d) /\ NoDup (map r_ID cs) /\ forall run, run ∈ cs <-> waits d run.
Proof using Hpg.
  destruct approved_listed as (rs & Hrs & Hp). unfold candidates, call. cbn [pbind quiet next dbexec]. rewrite Hrs. cbn [x_err x_runs]. rewrite candidatesLoop_quiet. cbn [app].
  eexists. split; [reflexivity|]. split.
  - apply Table.key_filter. rewrite Hp. apply Table.key_filter. rewrite map_map. erewrite map_ext_in; [apply NoDup_fst_map_to_list|].
    intros [k x] Hx%list_elem_of_In%elem_of_map_to_list. exact (pg_keys d Hpg _ _ Hx).
  - intros run. rewrite list_elem_of_filter, Hp, list_elem_of_filter, list_elem_of_fmap. unfold waits. split.
    + intros (Ha & Hs & [k x] & -> & Hx%elem_of_map_to_list). cbn [snd] in *. pose proof (pg_keys d Hpg _ _ Hx) as Hk. cbn in Hk. by rewrite Hk in *.
    + intros (Hr & Hs & Ha). split_and!; [done|done|]. exists (r_ID run, run). split; [done|]. by apply elem_of_map_to_list.
Qed.
End reads.

(** What one sweep of the leader does, run on its own over tables within its page
    sizes and with no assignment old enough to reclaim: it writes only pending rows
    for runs that wait (approved, no active assignment), each for a node of the
    pool and at the next epoch, and nothing else; it never takes a node past its
    capacity; and when a run still waits afterwards, every node of the pool is at
    its capacity. *)
Theorem sweep_is_sound_and_complete (now : Z) (orc : string -> ans) (l : Loop) (d : db)
    (Hlead : Cluster.n_ID <$> Cluster.GetLeader (d_reg d) = Some (l_nodeID l))
    (Hpg : pageable d) (Hfresh : fresh now l d) :
  let d' := (quiet (next now orc) (DispatchOnce l) d).2 in
  (d_runs d' = d_runs d /\ d_reg d' = d_reg d /\
   forall k, d_asgn d' !! k = d_asgn d !! k \/
     exists run w, waits d run /\ r_ID run = k /\ w ∈ workers l d /\ d_asgn d' !! k = Some (claimed now d run w)) /\
  (forall id, load d id <= load d' id <= Z.max (load d id) (l_capacity l)) /\
  ((exists run, waits d run /\ activeRow d' (r_ID run) = false) -> forall w, w ∈ workers l d -> l_capacity l <= load d' w).
Proof.
  destruct (workerLoads_quiet now orc l d Hpg) as (ws & Hws & Hids & Hact). destruct (candidates_quiet now orc d Hpg) as (cs & Hcs & Hnd & Hin).
  assert (Hd : (quiet (next now orc) (DispatchOnce l) d).2 = (quiet (next now orc) (assignLoop l cs ws 0) d).2).
  { unfold DispatchOnce, isLeader. rewrite quiet_bind. unfold call. cbn [pbind quiet next dbexec x_leader fst snd]. rewrite Hlead, String.eqb_refl. cbn [negb].
    rewrite quiet_bind, Hws. cbn [fst snd]. rewrite quiet_bind, reclaim_fresh by done. cbn [fst snd]. rewrite quiet_bind, Hcs. cbn [fst snd]. by rewrite quiet_bind. }
  cbn zeta. rewrite Hd. destruct (assign_sweeps now orc l cs ws 0 d) as [(Hr & Hg & Hrows) Hload Hfull].
  - exact (pg_states d Hpg).
  - done.
  - apply Forall_forall. intros run Hrun%Hin. apply Hrun.
  - rewrite Hids. by apply workers_NoDup.
  - done.
  - split_and!; [done|done| |done|].
    + intros k. destruct (Hrows k) as [?|(run & w & Hrun & Hid & Hw & _ & Hk)]; [by left|right]. exists run, w.
      split_and!; [by apply Hin|done|by rewrite <- Hids|done].
    + intros (run & Hrun & Ha) w Hw. rewrite <- Hids in Hw. apply list_elem_of_fmap in Hw as (x & -> & Hx).
      apply (Hfull (ex_intro _ run (conj (proj2 (Hin run) Hrun) Ha)) x Hx).
Qed.

(** ** An instance *)

Definition ex_sweep : db := MkDb {[ "r1" := ex_run "r1"; "r2" := ex_run "r2"; "r3" := ex_run "r3" ]}
  {[ "r1" := ex_asg "r1" "n1" 1 "pending"; "r3" := ex_asg "r3" "n2" 4 "interrupted" ]} ex_leader.

Lemma ex_sweep_pageable : pageable ex_sweep.
Proof.
  constructor; [by vm_compute|by vm_compute|by apply (bool_decide_unpack _); vm_compute| |by apply (bool_decide_unpack _); vm_compute].
  change (map_Forall (fun k n => Cluster.n_ID n = k) (Cluster.r_nodes (d_reg ex_sweep))). by apply (bool_decide_unpack _); vm_compute.
Qed.

Lemma sweep_is_sound_and_complete_witness :
  let l := NewLoop "n1" 0 2 0 in
  let d' := (quiet (next 9 (fun _ => rows true)) (DispatchOnce l) ex_sweep).2 in
  (load ex_sweep "n1" = 1 /\ load d' "n1" + load d' "n2" = 3) /\
  (d_runs d' = d_runs ex_sweep /\ d_reg d' = d_reg ex_sweep /\
   forall k, d_asgn d' !! k = d_asgn ex_sweep !! k \/
     exists run w, waits ex_sweep run /\ r_ID run = k /\ w ∈ workers l ex_sweep /\ d_asgn d' !! k = Some (claimed 9 ex_sweep run w)) /\
  (forall id, load ex_sweep id <= load d' id <= Z.max (load ex_sweep id) 2) /\
  ((exists run, waits ex_sweep run /\ activeRow d' (r_ID run) = false) -> forall w, w ∈ workers l ex_sweep -> 2 <= load d' w).
Proof.
  cbn zeta. split; [by vm_compute|].
  apply (sweep_is_sound_and_complete 9 (fun _ => rows true) (NewLoop "n1" 0 2 0) ex_sweep); [by vm_compute|apply ex_sweep_pageable|].
  by apply (bool_decide_unpack _); vm_compute.
Defined.

End DispatchSweep.
