(* ===== verification/Takeover.v ===== *)
(** * Takeover: settling the runs of dead executors

    src/internal/takeover/takeover.go over the lease table of executions and the
    takeover locks (Cluster), the run and assignment tables (Dispatch) and the
    trace chain (TraceChain). The loop is a program over the statements of all of
    them. *)

From Stdlib Require Import ZArith Lia Ascii String.
From stdpp Require Import base gmap sets list strings pretty sorting relations.
From S2P Require Import Prelude RunStatus Table Concur Rely Sha256 Canonical TraceChain Cluster Dispatch.
Import Concur Rely.
Open Scope string_scope.
Open Scope list_scope.
Local Open Scope Z_scope.

Module Takeover.

(** ** The world a takeover works on *)

Record StepRow := MkStepRow { sr_RunID : string; sr_Status : string }.

Record world := MkWorld {
  w_db : Dispatch.db;                    (** runs, assignments, membership *)
  w_exec : Cluster.leases;               (** run_execution *)
  w_locks : Cluster.lockManager;         (** cluster_locks *)
  w_steps : gmap string StepRow;
  w_traces : list Canonical.Trace }.

Definition DefaultInterval : Z := 10 * 1000000000.
Definition DefaultOrphanGracePeriod : Z := 300 * 1000000000.

Inductive stmt :=
| TDb (s : Dispatch.stmt)
| TTrace (s : TraceChain.stmt)
| TExpired
| TOrphaned (grace : Z)
| TDeleteExecution (runID : string)
| TGetExecution (runID : string)
| TAcquire (key owner : string) (ttl : Z)
| TRelease (key owner : string)
| TMarkNonTerminalSteps (runID marker : string).

Record ans := MkAns {
  y_db : Dispatch.ans; y_tr : TraceChain.ans; y_err : option goerr; y_ids : list string; y_lock : option Cluster.DistributedLock;
  y_lease : option Cluster.ExecLease }.

Definition plain (e : option goerr) : ans := MkAns Dispatch.done_ TraceChain.noAns e [] None None.

(** [OrphanedExecutions]: running, aged past the grace period, no execution row. *)
Definition orphan (now grace : Z) (w : world) (r : Dispatch.Run) : bool :=
  String.eqb (Dispatch.r_Status r) "running" && (Dispatch.r_UpdatedAt r <? now - Cluster.inMillis grace) &&
  bool_decide (Cluster.ls_rows (w_exec w) !! Dispatch.r_ID r = None).

Definition OrphanedExecutions (now grace : Z) (w : world) : list string :=
  let grace := if grace <=? 0 then DefaultOrphanGracePeriod else grace in
  merge_sort String.le (map Dispatch.r_ID (filter (fun r => orphan now grace w r = true) (map snd (map_to_list (Dispatch.d_runs (w_db w)))))).

(** [UPDATE steps SET status=? WHERE run_id=? AND status IN ('running','pending')]. *)
Definition markSteps (runID marker : string) (steps : gmap string StepRow) : gmap string StepRow :=
  (fun s => if String.eqb (sr_RunID s) runID && (String.eqb (sr_Status s) "running" || String.eqb (sr_Status s) "pending")
            then MkStepRow (sr_RunID s) marker else s) <$> steps.

(** One statement at time [now]; [nanos] names new rows. *)
Definition exec (now : Z) (w : world) (s : stmt) : world * ans :=
  match s with
  | TDb c => let '(d, r) := Dispatch.dbexec now (w_db w) c in
             (MkWorld d (w_exec w) (w_locks w) (w_steps w) (w_traces w), MkAns r TraceChain.noAns (Dispatch.x_err r) [] None None)
  | TTrace c => let '(t, r) := TraceChain.dbexec (w_traces w) c in
                (MkWorld (w_db w) (w_exec w) (w_locks w) (w_steps w) t, MkAns Dispatch.done_ r (TraceChain.a_err r) [] None None)
  | TExpired => (w, MkAns Dispatch.done_ TraceChain.noAns None (Cluster.ExpiredExecutions (w_exec w) now) None None)
  | TOrphaned grace => (w, MkAns Dispatch.done_ TraceChain.noAns None (OrphanedExecutions now grace w) None None)
  | TDeleteExecution runID =>
      let '(t, e) := Cluster.DeleteExecution (w_exec w) runID in (MkWorld (w_db w) t (w_locks w) (w_steps w) (w_traces w), plain e)
  | TGetExecution runID => (w, MkAns Dispatch.done_ TraceChain.noAns None [] None (Cluster.GetExecution (w_exec w) runID))
  | TAcquire key owner ttl =>
      let '(m, r) := Cluster.Acquire (w_locks w) now key owner ttl in
      (MkWorld (w_db w) (w_exec w) m (w_steps w) (w_traces w),
       match r with
       | inl e => plain (Some e)
       | inr lock => MkAns Dispatch.done_ TraceChain.noAns None [] (Some lock) None
       end)
  | TRelease key owner =>
      let '(m, e) := Cluster.Release (w_locks w) key owner in (MkWorld (w_db w) (w_exec w) m (w_steps w) (w_traces w), plain e)
  | TMarkNonTerminalSteps runID marker =>
      (MkWorld (w_db w) (w_exec w) (w_locks w) (markSteps runID marker (w_steps w)) (w_traces w), plain None)
  end.

Definition op (A : Type) : Type := prog stmt ans A.
Definition call (s : stmt) : op ans := Ask s Ret.
Local Open Scope levee_scope.

(** A program of one table inside this one. *)
Fixpoint embed {C R A} (wrap : C -> stmt) (read : ans -> R) (p : prog C R A) : op A :=
  match p with Ret a => Ret a | Ask c k => Ask (wrap c) (fun r => embed wrap read (k (read r))) end.

Definition onDb {A} (p : Dispatch.op A) : op A := embed TDb y_db p.
Definition onTraces {A} (p : TraceChain.op A) : op A := embed TTrace y_tr p.

(** ** The loop *)

Record Loop := MkLoop { l_nodeID : string; l_interval : Z; l_ttl : Z }.
Definition NewLoop (nodeID : string) (interval : Z) : Loop :=
  MkLoop nodeID (if interval <=? 0 then DefaultInterval else interval) (10 * 1000000000).

Definition EventTakeoverInterrupted := "interrupted_by_takeover".

Record TakeoverResult := MkResult { Settled : list string; Skipped : list string }.

Definition deleteExecRow (runID : string) : op (option goerr) :=
  let! r := call (TDeleteExecution runID) in
  Ret match y_err r with Some e => Some (EWrap ("delete execution row for " +:+ runID) e) | None => None end.

(** Diagnostics only. *)
Definition execOwner (runID : string) : op string :=
  let! r := call (TGetExecution runID) in
  Ret match y_err r, y_lease r with None, Some l => Cluster.el_Owner l | _, _ => "" end.

Section takeover.
(** The environment's HMAC passphrase. *)
Variable raw : string.

Definition takeoverTrace (runID : string) (ns at_ : Z) : Canonical.Trace :=
  Canonical.MkTrace ("trc-takeover-" +:+ runID +:+ "-" +:+ pretty ns) runID EventTakeoverInterrupted "cluster-takeover" "" "" "" at_ "".

(** [settleOne] once the takeover lock is held, up to the deferred release. *)
Definition settleLocked (runID : string) : op (goerr + bool) :=
  let! t := onDb (Dispatch.call Dispatch.SNow) in
  let! c := onDb (Dispatch.call (Dispatch.SUpdateRunStatusIf runID RunStatus.StatusRunning RunStatus.StatusInterrupted (Dispatch.x_time t))) in
  match Dispatch.x_err c with
  | Some e => Ret (inl (EWrap ("status CAS for " +:+ runID) e))
  | None =>
      if negb (Dispatch.x_ok c) then Ret (inr false)
      else
        let! _ := onDb (Dispatch.reflectInterrupted runID) in
        let! _ := call (TMarkNonTerminalSteps runID "unknown") in
        let! n := onDb (Dispatch.call Dispatch.SNow) in
        let! m := onDb (Dispatch.call Dispatch.SNow) in
        let! _ := call (TTrace (TraceChain.SCreateTrace (takeoverTrace runID (Dispatch.x_time n) (Dispatch.x_time m)))) in
        let! _ := onTraces (TraceChain.SealRunTraceChain raw runID) in
        let! _ := deleteExecRow runID in
        let! _ := execOwner runID in
        Ret (inr true)
  end.

Definition settleOne (l : Loop) (runID : string) : op (goerr + bool) :=
  let! a := call (TAcquire ("takeover:" +:+ runID) (l_nodeID l) (l_ttl l)) in
  match y_err a, y_lock a with
  | Some e, _ => Ret (if errors_Is e Cluster.ErrLockBusy then inr false else inl (EWrap ("acquire takeover lock for " +:+ runID) e))
  | None, None => Ret (inr false)
  | None, Some lock =>
      let! out := settleLocked runID in
      let! _ := call (TRelease (Cluster.dl_Key lock) (Cluster.dl_Owner lock)) in
      Ret out
  end.

(** The orphans the expired scan did not list, appended. *)
Definition union (expired orphans : list string) : list string := expired ++ filter (fun id => inSet expired id = false) orphans.

Fixpoint settleAll (l : Loop) (cands : list string) (res : TakeoverResult) : op TakeoverResult :=
  match cands with
  | [] => Ret res
  | runID :: rest =>
      let! r := settleOne l runID in
      match r with
      | inl _ => settleAll l rest res
      | inr true => settleAll l rest (MkResult (Settled res ++ [runID]) (Skipped res))
      | inr false => settleAll l rest (MkResult (Settled res) (Skipped res ++ [runID]))
      end
  end.

Definition TakeoverOnce (l : Loop) : op (TakeoverResult * option goerr) :=
  let! lead := onDb (Dispatch.isLeader (l_nodeID l)) in
  if negb lead then Ret (MkResult [] [], None)
  else
    let! x := call TExpired in
    match y_err x with
    | Some e => Ret (MkResult [] [], Some (EWrap "takeover: scan expired executions" e))
    | None =>
        let! o := call (TOrphaned DefaultOrphanGracePeriod) in
        let cands := match y_err o with Some _ => y_ids x | None => union (y_ids x) (y_ids o) end in
        let! res := settleAll l cands (MkResult [] []) in
        Ret (res, None)
    end.
End takeover.

(** ** A sweep on its own *)

Lemma alter_some {A} (f : A -> A) (m : gmap string A) k a : m !! k = Some a -> alter f k m = <[k := f a]> m.
Proof.
  intros Hk. apply map_eq. intros i.
  destruct (decide (k = i)) as [<-|]; rewrite ?lookup_alter_eq, ?lookup_insert_eq, ?lookup_alter_ne, ?lookup_insert_ne, ?Hk by done; done.
Qed.

Lemma alter_none {A} (f : A -> A) (m : gmap string A) k : m !! k = None -> alter f k m = m.
Proof. intros Hk. apply map_eq. intros i. destruct (decide (k = i)) as [<-|]; rewrite ?lookup_alter_eq, ?lookup_alter_ne, ?Hk by done; done. Qed.

Section sweep.
Context (raw : string) (now : Z) (l : Loop).

Definition setDb (w : world) (d : Dispatch.db) : world := MkWorld d (w_exec w) (w_locks w) (w_steps w) (w_traces w).
Definition setTraces (w : world) (t : list Canonical.Trace) : world := MkWorld (w_db w) (w_exec w) (w_locks w) (w_steps w) t.
Definition setLocks (w : world) (m : Cluster.lockManager) : world := MkWorld (w_db w) (w_exec w) m (w_steps w) (w_traces w).

Lemma onDb_quiet {A} (p : Dispatch.op A) w :
  quiet (exec now) (onDb p) w = ((quiet (Dispatch.dbexec now) p (w_db w)).1, setDb w (quiet (Dispatch.dbexec now) p (w_db w)).2).
Proof using.
  revert w. induction p as [a|c k IH]; intros w; cbn [onDb embed quiet]; [by destruct w|]. cbn [exec].
  destruct (Dispatch.dbexec now (w_db w) c) as [d r]. cbn [y_db]. unfold onDb in IH. by rewrite IH.
Qed.

Lemma onTraces_quiet {A} (p : TraceChain.op A) w :
  quiet (exec now) (onTraces p) w = ((quiet TraceChain.dbexec p (w_traces w)).1, setTraces w (quiet TraceChain.dbexec p (w_traces w)).2).
Proof using.
  revert w. induction p as [a|c k IH]; intros w; cbn [onTraces embed quiet]; [by destruct w|]. cbn [exec].
  destruct (TraceChain.dbexec (w_traces w) c) as [d r]. cbn [y_tr]. unfold onTraces in IH. by rewrite IH.
Qed.

Definition running (w : world) (run : string) : bool :=
  match Dispatch.d_runs (w_db w) !! run with Some r => String.eqb (Dispatch.r_Status r) RunStatus.StatusRunning | None => false end.

Definition interruptRun (r : Dispatch.Run) : Dispatch.Run := Dispatch.withStatus r RunStatus.StatusInterrupted now.
Definition interruptAsg (a : Dispatch.Assignment) : Dispatch.Assignment :=
  if Dispatch.liveState (Dispatch.a_State a) then Dispatch.withState a Dispatch.AssignmentStateInterrupted now else a.

(** What a settlement leaves of the runs, assignments, leases and steps. *)
Record settles (run : string) (w w' : world) : Prop := {
  st_runs : Dispatch.d_runs (w_db w') = alter interruptRun run (Dispatch.d_runs (w_db w));
  st_asgn : Dispatch.d_asgn (w_db w') = alter interruptAsg run (Dispatch.d_asgn (w_db w));
  st_reg : Dispatch.d_reg (w_db w') = Dispatch.d_reg (w_db w);
  st_exec : Cluster.ls_rows (w_exec w') = delete run (Cluster.ls_rows (w_exec w));
  st_steps : w_steps w' = markSteps run "unknown" (w_steps w);
}.

Lemma reflect_quiet d run :
  (quiet (Dispatch.dbexec now) (Dispatch.reflectInterrupted run) d).2 =
  Dispatch.MkDb (Dispatch.d_runs d) (alter interruptAsg run (Dispatch.d_asgn d)) (Dispatch.d_reg d).
Proof using.
  unfold Dispatch.reflectInterrupted, Dispatch.call. cbn [pbind quiet Dispatch.dbexec Dispatch.x_err Dispatch.x_asg].
  destruct (Dispatch.d_asgn d !! run) as [a|] eqn:Ha.
  - rewrite (alter_some _ _ _ a Ha). unfold interruptAsg. destruct (Dispatch.liveState (Dispatch.a_State a)) eqn:Hl.
    + cbn [pbind quiet Dispatch.dbexec]. unfold Dispatch.updateIf. by rewrite Ha, Hl.
    + rewrite insert_id by done. by destruct d.
  - rewrite alter_none by done. cbn. by destruct d.
Qed.

Lemma settleLocked_quiet w run :
  run <> "" ->
  if running w run
  then exists w', quiet (exec now) (settleLocked raw run) w = (inr true, w') /\ settles run w w' /\ w_locks w' = w_locks w
  else quiet (exec now) (settleLocked raw run) w = (inr false, w).
Proof using.
  intros Hrun. unfold settleLocked. rewrite quiet_bind, onDb_quiet, quiet_bind, onDb_quiet. unfold Dispatch.call. cbn [quiet Dispatch.dbexec fst snd setDb w_db Dispatch.x_time].
  unfold running. destruct (Dispatch.d_runs (w_db w) !! run) as [r|] eqn:Hr; [|cbn; by destruct w].
  destruct (String.eqb (Dispatch.r_Status r) RunStatus.StatusRunning) eqn:Hs; [|cbn; by destruct w].
  cbn [fst snd Dispatch.x_err Dispatch.rows Dispatch.x_ok negb].
  rewrite quiet_bind, onDb_quiet, reflect_quiet. rewrite quiet_bind. unfold call. cbn [quiet exec fst snd setDb w_db w_steps Dispatch.d_runs Dispatch.d_asgn Dispatch.d_reg].
  rewrite quiet_bind, onDb_quiet. unfold Dispatch.call. cbn [quiet Dispatch.dbexec fst snd setDb w_db Dispatch.x_time].
  rewrite quiet_bind, onDb_quiet. cbn [quiet Dispatch.dbexec fst snd setDb w_db Dispatch.x_time].
  rewrite quiet_bind. cbn [quiet exec w_traces]. destruct (TraceChain.dbexec _ _) as [tr rt]. cbn [fst snd].
  rewrite quiet_bind, onTraces_quiet. cbn [fst snd setTraces]. rewrite quiet_bind. unfold deleteExecRow, call. cbn [pbind quiet exec w_exec w_db w_locks w_steps w_traces].
  unfold Cluster.DeleteExecution. rewrite (proj2 (String.eqb_neq _ _) Hrun). unfold Cluster.deleteIf.
  pose proof (alter_some interruptRun _ _ r Hr) as Hruns.
  eexists. split; [cbn; reflexivity|].
  destruct (Cluster.ls_rows (w_exec w) !! run) as [x|] eqn:Hx; (split; [constructor; cbn; try done|done]).
  - unfold setDb. symmetry. by apply delete_id.
Qed.
(** ** The candidates *)

Definition lockKey (run : string) : string := "takeover:" +:+ run.

(** Nobody else is settling a run right now. *)
Definition unlocked (w : world) : Prop :=
  forall run r, Cluster.ls_rows (Cluster.lm_table (w_locks w)) !! lockKey run = Some r -> Cluster.l_owner r = l_nodeID l \/ Cluster.l_expires r < now.

Context (Hnode : l_nodeID l <> "") (Httl : 0 < l_ttl l).

Lemma acquire_unlocked w run :
  unlocked w ->
  exists m lock, Cluster.Acquire (w_locks w) now (lockKey run) (l_nodeID l) (l_ttl l) = (m, inr lock) /\
    Cluster.dl_Key lock = lockKey run /\ Cluster.dl_Owner lock = l_nodeID l /\
    (forall k, k <> lockKey run -> Cluster.ls_rows (Cluster.lm_table m) !! k = Cluster.ls_rows (Cluster.lm_table (w_locks w)) !! k) /\
    (exists r, Cluster.ls_rows (Cluster.lm_table m) !! lockKey run = Some r /\ Cluster.l_owner r = l_nodeID l).
Proof using Hnode Httl.
  intros Hu. unfold Cluster.Acquire. change (String.eqb (lockKey run) "") with false. rewrite (proj2 (String.eqb_neq _ _) Hnode), (proj2 (Z.leb_gt _ _) Httl).
  unfold Cluster.upsert. destruct (Cluster.ls_rows (Cluster.lm_table (w_locks w)) !! lockKey run) as [old|] eqn:Hold;
    [destruct (String.eqb_spec (Cluster.l_owner old) (l_nodeID l)) as [He|He];
       [|destruct (Hu run old Hold) as [?|Hexp]; [done|rewrite (proj2 (Z.ltb_lt _ _) Hexp)]]|];
    (do 2 eexists; split; [reflexivity|]; cbn [Cluster.dl_Key Cluster.dl_Owner Cluster.lm_table Cluster.ls_rows];
     split_and!; [done|done|intros k Hk; by rewrite lookup_insert_ne|rewrite lookup_insert_eq; by eexists]).
Qed.

Lemma release_own m run r :
  Cluster.ls_rows (Cluster.lm_table m) !! lockKey run = Some r -> Cluster.l_owner r = l_nodeID l ->
  Cluster.ls_rows (Cluster.lm_table (Cluster.Release m (lockKey run) (l_nodeID l)).1) = delete (lockKey run) (Cluster.ls_rows (Cluster.lm_table m)).
Proof using.
  intros Hr Ho. unfold Cluster.Release. change (String.eqb (lockKey run) "") with false. unfold Cluster.deleteIf. by rewrite Hr, Ho, String.eqb_refl.
Qed.

(** One candidate: what changes outside the traces and the lock table. *)
Definition settlesIf (run : string) (w w' : world) : Prop :=
  if running w run then settles run w w'
  else w_db w' = w_db w /\ w_exec w' = w_exec w /\ w_steps w' = w_steps w.

Lemma settleOne_quiet w run :
  run <> "" -> unlocked w ->
  exists w', quiet (exec now) (settleOne raw l run) w = (inr (running w run), w') /\ settlesIf run w w' /\ unlocked w'.
Proof using Hnode Httl.
  intros Hrun Hu. destruct (acquire_unlocked w run Hu) as (m & lock & Hacq & Hkey & Hown & Hother & r & Hr & Hro).
  unfold settleOne. rewrite quiet_bind. unfold call. fold (lockKey run). cbn [quiet exec]. rewrite Hacq. cbn [fst snd y_err y_lock].
  rewrite quiet_bind. pose proof (settleLocked_quiet (setLocks w m) run Hrun) as Hs. fold (setLocks w m).
  assert (Hun : forall w2, w_locks w2 = m -> unlocked (setLocks w2 (Cluster.Release (w_locks w2) (Cluster.dl_Key lock) (Cluster.dl_Owner lock)).1)).
  { intros w2 Hw2 run2 r2. rewrite Hkey, Hown, Hw2. cbn [setLocks w_locks]. rewrite (release_own m run r Hr Hro).
    intros [Hne Hl2]%lookup_delete_Some. rewrite Hother in Hl2 by done. by apply (Hu run2). }
  unfold settlesIf. change (running (setLocks w m) run) with (running w run) in Hs. destruct (running w run).
  - destruct Hs as (w' & -> & Hset & Hlk). cbn [fst snd]. rewrite quiet_bind. cbn [quiet exec]. specialize (Hun w' Hlk).
    destruct (Cluster.Release (w_locks w') _ _) as [m' e']. eexists. split; [reflexivity|]. split; [|exact Hun]. by destruct Hset.
  - rewrite Hs. cbn [fst snd]. rewrite quiet_bind. cbn [quiet exec]. specialize (Hun (setLocks w m) eq_refl).
    destruct (Cluster.Release (w_locks (setLocks w m)) _ _) as [m' e']. eexists. split; [reflexivity|]. by split.
Qed.

(** What a list of candidates leaves, run by run. *)
Record sweeps (cs : list string) (w w' : world) : Prop := {
  sp_in : forall k, k ∈ cs -> running w k = true ->
    Dispatch.d_runs (w_db w') !! k = interruptRun <$> Dispatch.d_runs (w_db w) !! k /\
    Dispatch.d_asgn (w_db w') !! k = interruptAsg <$> Dispatch.d_asgn (w_db w) !! k /\
    Cluster.ls_rows (w_exec w') !! k = None;
  sp_out : forall k, ~ (k ∈ cs /\ running w k = true) ->
    Dispatch.d_runs (w_db w') !! k = Dispatch.d_runs (w_db w) !! k /\
    Dispatch.d_asgn (w_db w') !! k = Dispatch.d_asgn (w_db w) !! k /\
    Cluster.ls_rows (w_exec w') !! k = Cluster.ls_rows (w_exec w) !! k;
}.

Lemma settles_lookup run w w' k :
  settlesIf run w w' -> (run <> k \/ running w run = false) ->
  Dispatch.d_runs (w_db w') !! k = Dispatch.d_runs (w_db w) !! k /\ Dispatch.d_asgn (w_db w') !! k = Dispatch.d_asgn (w_db w) !! k /\
  Cluster.ls_rows (w_exec w') !! k = Cluster.ls_rows (w_exec w) !! k.
Proof using.
  unfold settlesIf. destruct (running w run); intros Hs H.
  - destruct Hs as [Hr Ha _ He _]. destruct H as [H|]; [|done]. rewrite Hr, Ha, He. by rewrite !lookup_alter_ne, lookup_delete_ne.
  - destruct Hs as (-> & -> & _). done.
Qed.

Lemma settleAll_quiet cs res w :
  NoDup cs -> "" ∉ cs -> unlocked w ->
  exists w', quiet (exec now) (settleAll raw l cs res) w =
      (MkResult (Settled res ++ filter (fun k => running w k = true) cs) (Skipped res ++ filter (fun k => running w k = false) cs), w') /\ sweeps cs w w'.
Proof using Hnode Httl.
  revert res w. induction cs as [|run cs IH]; intros res w Hnd Hne Hu; cbn [settleAll].
  - exists w. cbn. rewrite !app_nil_r. split; [by destruct res|]. constructor; [by intros k ?%not_elem_of_nil|done].
  - apply NoDup_cons in Hnd as [Hnew Hnd]. apply not_elem_of_cons in Hne as [Hrun Hne].
    destruct (settleOne_quiet w run (not_eq_sym Hrun) Hu) as (w1 & Hq & Hs & Hu1). rewrite quiet_bind, Hq. cbn [fst snd].
    assert (Hsame : forall k, k ∈ cs -> running w1 k = running w k).
    { intros k Hk. unfold running. destruct (settles_lookup run w w1 k Hs) as [-> _]; [left; by intros ->|done]. }
    assert (Hf : forall b, filter (fun k => running w1 k = b) cs = filter (fun k => running w k = b) cs).
    { intros b. clear -Hsame. induction cs as [|k cs IH]; [done|]. rewrite !filter_cons, Hsame by (by left). rewrite IH; [done|]. intros x Hx. apply Hsame. by right. }
    assert (Hcons : forall w', sweeps cs w1 w' -> sweeps (run :: cs) w w').
    { intros w' [Hin Hout]. constructor.
      - intros k [->|Hk]%elem_of_cons Hr.
        + destruct (Hout run) as (-> & -> & ->); [by intros [? _]|]. unfold settlesIf in Hs. rewrite Hr in Hs. destruct Hs as [-> -> _ -> _].
          by rewrite !lookup_alter_eq, lookup_delete_eq.
        + destruct (settles_lookup run w w1 k Hs) as (<- & <- & _); [left; by intros ->|]. apply Hin; [done|]. by rewrite Hsame.
      - intros k Hk. destruct (Hout k) as (-> & -> & ->).
        + intros [Hk1 Hk2]. apply Hk. split; [by right|]. by rewrite <- Hsame.
        + apply (settles_lookup run w w1 k Hs). destruct (decide (run = k)) as [->|]; [|by left]. right. apply not_true_iff_false. intros Hr. apply Hk. split; [by left|done]. }
    rewrite !filter_cons. destruct (running w run).
    + rewrite decide_True, decide_False by done. destruct (IH (MkResult (Settled res ++ [run]) (Skipped res)) w1 Hnd Hne Hu1) as (w' & Hq2 & Hsw).
      exists w'. split; [|by apply Hcons]. rewrite Hq2, !Hf. cbn. by rewrite <- app_assoc.
    + rewrite decide_False, decide_True by done. destruct (IH (MkResult (Settled res) (Skipped res ++ [run])) w1 Hnd Hne Hu1) as (w' & Hq2 & Hsw).
      exists w'. split; [|by apply Hcons]. rewrite Hq2, !Hf. cbn. by rewrite <- app_assoc.
Qed.

(** The executor of [run] is gone: its lease ran out, or it never got one and the
    run has been running for longer than the grace period. *)
Definition dead (w : world) (run : string) : Prop :=
  match Cluster.ls_rows (w_exec w) !! run with
  | Some lease => Cluster.l_expires lease < now
  | None => exists r, Dispatch.d_runs (w_db w) !! run = Some r /\ Dispatch.r_UpdatedAt r < now - DefaultOrphanGracePeriod
  end.

Record wf (w : world) : Prop := {
  wf_runs : map_Forall (fun k r => Dispatch.r_ID r = k) (Dispatch.d_runs (w_db w));
  wf_exec : Cluster.ls_rows (w_exec w) !! "" = None;
  wf_names : Dispatch.d_runs (w_db w) !! "" = None;
}.

Lemma expired_elem w run : run ∈ Cluster.ExpiredExecutions (w_exec w) now <-> exists lease, Cluster.ls_rows (w_exec w) !! run = Some lease /\ Cluster.l_expires lease < now.
Proof using.
  unfold Cluster.ExpiredExecutions. rewrite merge_sort_Permutation, list_elem_of_fmap. split.
  - intros ([k x] & -> & [He Hx]%list_elem_of_filter). apply elem_of_map_to_list in Hx. exists x. split; [done|]. unfold Cluster.expired in He. cbn in He. lia.
  - intros (x & Hx & He). exists (run, x). split; [done|]. apply list_elem_of_filter. split; [unfold Cluster.expired; cbn; lia|by apply elem_of_map_to_list].
Qed.

Lemma orphan_elem w run :
  wf w -> (run ∈ OrphanedExecutions now DefaultOrphanGracePeriod w) <->
  (running w run = true /\ Cluster.ls_rows (w_exec w) !! run = None /\ exists r, Dispatch.d_runs (w_db w) !! run = Some r /\ Dispatch.r_UpdatedAt r < now - DefaultOrphanGracePeriod).
Proof using.
  clear Hnode Httl l. intros Hw. unfold OrphanedExecutions. cbn [Z.leb]. change (DefaultOrphanGracePeriod <=? 0) with false. cbv iota.
  rewrite merge_sort_Permutation, list_elem_of_fmap. unfold running, orphan. change (Cluster.inMillis DefaultOrphanGracePeriod) with DefaultOrphanGracePeriod. split.
  - intros (r & -> & [Ho Hr]%list_elem_of_filter). apply list_elem_of_fmap in Hr as ([k x] & -> & Hx%elem_of_map_to_list). cbn [snd] in *.
    pose proof (wf_runs w Hw _ _ Hx) as Hk. cbn in Hk. rewrite Hk in *. rewrite Hx. rewrite !andb_true_iff, bool_decide_eq_true in Ho. destruct Ho as [[Hs Ht] Hn].
    split_and!; [exact Hs|done|]. exists x. split; [done|lia].
  - intros (Hs & Hn & r & Hr & Ht). rewrite Hr in Hs. exists r. split; [symmetry; exact (wf_runs w Hw _ _ Hr)|]. apply list_elem_of_filter. split.
    + rewrite (wf_runs w Hw _ _ Hr), !andb_true_iff, bool_decide_eq_true. split_and!; [exact Hs|lia|done].
    + apply list_elem_of_fmap. exists (run, r). split; [done|]. by apply elem_of_map_to_list.
Qed.

Lemma candidates_spec w :
  wf w -> let cs := union (Cluster.ExpiredExecutions (w_exec w) now) (OrphanedExecutions now DefaultOrphanGracePeriod w) in
  NoDup cs /\ ("" ∉ cs) /\ forall run, running w run = true -> (run ∈ cs <-> dead w run).
Proof using.
  clear Hnode Httl l. intros Hw cs. split_and!.
  - apply NoDup_app. split_and!.
    + unfold Cluster.ExpiredExecutions. rewrite merge_sort_Permutation. apply Table.key_filter, NoDup_fst_map_to_list.
    + intros x Hx [Hx2 _]%list_elem_of_filter. by apply inSet_false in Hx2.
    + apply NoDup_filter. unfold OrphanedExecutions. rewrite merge_sort_Permutation. apply Table.key_filter. rewrite map_map.
      erewrite map_ext_in; [apply NoDup_fst_map_to_list|]. intros [k x] Hx%list_elem_of_In%elem_of_map_to_list. exact (wf_runs w Hw _ _ Hx).
  - intros [Hx|[_ Hx]%list_elem_of_filter]%elem_of_app.
    + apply expired_elem in Hx as (x & Hx & _). rewrite (wf_exec w Hw) in Hx. done.
    + apply orphan_elem in Hx as (_ & _ & r & Hr & _); [|done]. rewrite (wf_names w Hw) in Hr. done.
  - intros run Hr. unfold cs, union. rewrite elem_of_app, list_elem_of_filter, inSet_false, expired_elem, orphan_elem by done. unfold dead.
    destruct (Cluster.ls_rows (w_exec w) !! run) as [x|] eqn:E; split; [intros [(y & [= <-] & ?)|(_ & _ & ? & _)]; done|intros ?; left; by exists x|naive_solver|].
    intros Hd. right. split; [by intros (x & [=] & _)|]. done.
Qed.
End sweep.

(** C34: what a takeover sweep of the leader settles, run on its own while nobody else
    holds a takeover lock: exactly the running runs whose executor is dead become
    interrupted, are reported, have their active assignment interrupted and their
    lease deleted; every other run, assignment and lease is untouched, a running
    run with a live lease and a paused or finished run with an expired one
    included. *)
Theorem takeover_settles_the_dead (raw : string) (now : Z) (l : Loop) (w : world)
    (Hlead : Cluster.n_ID <$> Cluster.GetLeader (Dispatch.d_reg (w_db w)) = Some (l_nodeID l))
    (Hnode : l_nodeID l <> "") (Httl : 0 < l_ttl l) (Hwf : wf w) (Hfree : unlocked now l w) :
  exists w' res, quiet (exec now) (TakeoverOnce raw l) w = ((res, None), w') /\
    forall run,
      (running w run = true /\ dead now w run ->
         (run ∈ Settled res) /\
         Dispatch.d_runs (w_db w') !! run = interruptRun now <$> Dispatch.d_runs (w_db w) !! run /\
         Dispatch.d_asgn (w_db w') !! run = interruptAsg now <$> Dispatch.d_asgn (w_db w) !! run /\
         Cluster.ls_rows (w_exec w') !! run = None) /\
      (~ (running w run = true /\ dead now w run) ->
         (run ∉ Settled res) /\
         Dispatch.d_runs (w_db w') !! run = Dispatch.d_runs (w_db w) !! run /\
         Dispatch.d_asgn (w_db w') !! run = Dispatch.d_asgn (w_db w) !! run /\
         Cluster.ls_rows (w_exec w') !! run = Cluster.ls_rows (w_exec w) !! run).
Proof.
  destruct (candidates_spec now w Hwf) as (Hnd & Hne & Hcs).
  destruct (settleAll_quiet raw now l Hnode Httl _ (MkResult [] []) w Hnd Hne Hfree) as (w' & Hq & Hin & Hout).
  exists w'. eexists. split.
  - unfold TakeoverOnce. rewrite quiet_bind, onDb_quiet. unfold Dispatch.isLeader, Dispatch.call. cbn [pbind quiet Dispatch.dbexec Dispatch.x_leader fst snd].
    rewrite Hlead, String.eqb_refl. cbn [negb]. rewrite quiet_bind. unfold call. cbn [quiet exec fst snd y_err y_ids]. rewrite quiet_bind. cbn [quiet exec fst snd y_err y_ids].
    rewrite quiet_bind. assert (setDb w (w_db w) = w) as -> by (by destruct w). rewrite Hq. reflexivity.
  - intros run. cbn [fst Settled app]. rewrite list_elem_of_filter. split.
    + intros [Hr Hd]. apply Hcs in Hd; [|done]. split; [done|]. by apply Hin.
    + intros Hno. split; [intros [Hr Hc]; apply Hno; split; [done|]; by apply Hcs|]. apply Hout. intros [Hc Hr]. apply Hno. split; [done|]. by apply Hcs.
Qed.

(** ** Instances *)

Definition ex_w : world :=
  MkWorld (Dispatch.MkDb {[ "a" := Dispatch.withStatus (Dispatch.ex_run "a") "running" 5; "b" := Dispatch.withStatus (Dispatch.ex_run "b") "running" 5 ]}
             {[ "a" := Dispatch.ex_asg "a" "n2" 1 "executing" ]} Dispatch.ex_leader)
    (Cluster.MkLeases {[ "a" := Cluster.MkLease "n2" 1 0 50; "b" := Cluster.MkLease "n1" 2 0 500 ]} 2)
    (Cluster.MkManager (Cluster.MkLeases ∅ 0) ∅) {[ "s1" := MkStepRow "a" "running" ]} [].

Lemma takeover_settles_the_dead_witness :
  exists w' res, quiet (exec 100) (TakeoverOnce "key" (NewLoop "n1" 0)) ex_w = ((res, None), w') /\ ("a" ∈ Settled res) /\ ("b" ∉ Settled res) /\
    Cluster.ls_rows (w_exec w') !! "b" = Some (Cluster.MkLease "n1" 2 0 500).
Proof.
  destruct (takeover_settles_the_dead "key" 100 (NewLoop "n1" 0) ex_w) as (w' & res & Hq & H).
  - by vm_compute.
  - done.
  - done.
  - constructor; [by apply (bool_decide_unpack _); vm_compute|done|done].
  - intros run r Hr. done.
  - exists w', res. destruct (H "a") as [Ha _]. destruct (H "b") as [_ Hb].
    destruct Ha as (Ha & _); [split; by vm_compute|]. destruct Hb as (Hb & _ & _ & Hl); [by intros [_ ?]|].
    split_and!; [exact Hq|exact Ha|exact Hb|rewrite Hl; by vm_compute].
Defined.

(** The settlement reads the run's status and nothing of its lease: a candidate that
    was settled and resumed in the meantime is interrupted while its new executor
    holds a live lease, and that lease is deleted. *)
Example settle_ignores_live_lease :
  let '(r, w') := quiet (exec 100) (settleOne "key" (NewLoop "n1" 0) "b") ex_w in
  r = inr true /\ Cluster.ls_rows (w_exec ex_w) !! "b" = Some (Cluster.MkLease "n1" 2 0 500) /\ Cluster.ls_rows (w_exec w') !! "b" = None.
Proof. vm_compute. done. Qed.

(** The trace of a takeover carries no tenant. *)
Example takeover_trace_has_no_tenant run ns at_ : Canonical.t_TenantID (takeoverTrace run ns at_) = "".
Proof. done. Qed.

End Takeover.
