(* ===== verification/Limiter.v ===== *)
(** * Limiter: three tiers of admission

    src/internal/channel/limiter.go (semaphores per target, per channel type and
    global) and src/internal/batch/concurrency.go (the batch's manager, which
    waits for the limiter in a goroutine and rescues permits granted to a caller
    that gave up). The limiter's operations are programs over its semaphores; the
    manager is a step relation over the requests in flight, one semaphore
    operation at a time. *)

From Stdlib Require Import ZArith Lia Ascii String.
From stdpp Require Import base gmap countable sets list strings relations.
From S2P Require Import Prelude Concur.
Import Concur.
Open Scope string_scope.
Open Scope list_scope.

Module Limiter.
Local Open Scope levee_scope.

Definition ErrRateLimited := "channel: rate limited (acquire timed out)".
Definition ErrLimiterClosed := "channel: limiter is closed".
Definition ErrAcquireTimeout := "batch: concurrency acquire timed out".
Definition ErrManagerClosed := "batch: concurrency manager is closed".

(** ** Semaphores *)

Inductive key := KTarget (k : string) | KChannel (channelType : string) | KGlobal.

#[export] Instance key_eq_dec : EqDecision key.
Proof. solve_decision. Defined.
#[export] Instance key_countable : Countable key.
Proof.
  refine (inj_countable' (fun k => match k with KTarget s => inl s | KChannel s => inr (inl s) | KGlobal => inr (inr tt) end)
            (fun x => match x with inl s => KTarget s | inr (inl s) => KChannel s | inr (inr _) => KGlobal end) _); by intros [].
Defined.

(** The permits in use of every semaphore created so far. *)
Record Limiter := MkLimiter {
  globalMax : Z; perChannelMax : Z; perTargetMax : Z; timeout : Z;
  sems : gmap key nat; closed : bool; totalAcquired : Z; totalTimedOut : Z; panicked : bool }.

Definition effectiveCap (max : Z) : Z := if (max <=? 0)%Z then 2 ^ 20 else max.

Definition NewLimiter (global perChannel perTarget timeout : Z) : Limiter :=
  MkLimiter global perChannel perTarget timeout {[ KGlobal := 0 ]} false 0 0 false.

Definition cap (l : Limiter) (k : key) : nat :=
  Z.to_nat (effectiveCap match k with KTarget _ => perTargetMax l | KChannel _ => perChannelMax l | KGlobal => globalMax l end).

Definition inUse (l : Limiter) (k : key) : nat := default 0 (sems l !! k).

Definition withSems (l : Limiter) (s : gmap key nat) : Limiter :=
  MkLimiter (globalMax l) (perChannelMax l) (perTargetMax l) (timeout l) s (closed l) (totalAcquired l) (totalTimedOut l) (panicked l).

Definition targetKey (channelType targetID : string) : string := channelType +:+ ":" +:+ targetID.

(** ** The limiter's operations *)

Inductive stmt :=
| CIsClosed
| CGetOrCreate (k : key)
| CAcquire (k : key)
| CRelease (k : key)
| CLoad (k : key)
| CTimedOut
| CAcquired.

Definition op (A : Type) : Type := prog stmt bool A.
Definition call (s : stmt) : op bool := Ask s Ret.

Definition Acquire (channelType targetID : string) : op (option goerr) :=
  let target := KTarget (targetKey channelType targetID) in
  let! c := call CIsClosed in
  if c then Ret (Some (ESentinel ErrLimiterClosed))
  else
    let! _ := call (CGetOrCreate target) in
    let! l3 := call (CAcquire target) in
    if negb l3 then let! _ := call CTimedOut in Ret (Some (ESentinel ErrRateLimited))
    else
      let! _ := call (CGetOrCreate (KChannel channelType)) in
      let! l2 := call (CAcquire (KChannel channelType)) in
      if negb l2 then
        let! _ := call (CRelease target) in
        let! _ := call CTimedOut in
        Ret (Some (ESentinel ErrRateLimited))
      else
        let! l1 := call (CAcquire KGlobal) in
        if negb l1 then
          let! _ := call (CRelease (KChannel channelType)) in
          let! _ := call (CRelease target) in
          let! _ := call CTimedOut in
          Ret (Some (ESentinel ErrRateLimited))
        else
          let! _ := call CAcquired in
          Ret None.

Definition Release (channelType targetID : string) : op unit :=
  let target := KTarget (targetKey channelType targetID) in
  let! _ := call (CRelease KGlobal) in
  let! c := call (CLoad (KChannel channelType)) in
  let! _ := (if c then call (CRelease (KChannel channelType)) else Ret true) in
  let! t := call (CLoad target) in
  let! _ := (if t then call (CRelease target) else Ret true) in
  Ret tt.

Definition Close (l : Limiter) : Limiter :=
  MkLimiter (globalMax l) (perChannelMax l) (perTargetMax l) (timeout l) (sems l) true (totalAcquired l) (totalTimedOut l) (panicked l).

(** One operation. An acquire goes through when the semaphore has room, and gives
    up when the limiter has a timeout; otherwise it blocks. *)
Inductive lsem (l : Limiter) : stmt -> Limiter -> bool -> Prop :=
| sem_closed : lsem l CIsClosed l (closed l)
| sem_create_new k : sems l !! k = None -> lsem l (CGetOrCreate k) (withSems l (<[k := 0]> (sems l))) true
| sem_create_old k n : sems l !! k = Some n -> lsem l (CGetOrCreate k) l true
| sem_grant k n : sems l !! k = Some n -> n < cap l k -> lsem l (CAcquire k) (withSems l (<[k := S n]> (sems l))) true
| sem_giveup k : (0 < timeout l)%Z -> lsem l (CAcquire k) l false
| sem_release k n : sems l !! k = Some (S n) -> lsem l (CRelease k) (withSems l (<[k := n]> (sems l))) true
| sem_panic k : inUse l k = 0 -> lsem l (CRelease k)
    (MkLimiter (globalMax l) (perChannelMax l) (perTargetMax l) (timeout l) (sems l) (closed l) (totalAcquired l) (totalTimedOut l) true) false
| sem_load k : lsem l (CLoad k) l (bool_decide (is_Some (sems l !! k)))
| sem_timedout : lsem l CTimedOut
    (MkLimiter (globalMax l) (perChannelMax l) (perTargetMax l) (timeout l) (sems l) (closed l) (totalAcquired l) (totalTimedOut l + 1) (panicked l)) true
| sem_acquired : lsem l CAcquired
    (MkLimiter (globalMax l) (perChannelMax l) (perTargetMax l) (timeout l) (sems l) (closed l) (totalAcquired l + 1) (totalTimedOut l) (panicked l)) true.

(** ** The batch's concurrency manager *)

(** A call of [ConcurrencyManager.Acquire] for [target], from the caller's start to
    the last goroutine it left behind. *)
Inductive request :=
| QAcquiring (target : string) (p : op (option goerr))   (** the caller waits, the goroutine acquires *)
| QResult (target : string) (r : option goerr)           (** the goroutine has its result, the caller still waits *)
| QHeld (target : string)                                (** the caller holds the permit *)
| QReleasing (target : string) (p : op unit)             (** the ReleaseFunc gives it back *)
| QAbandoned (target : string) (p : op (option goerr))   (** the caller gave up, the rescue waits for the goroutine *)
| QAbandonedResult (target : string) (r : option goerr)
| QRescue (target : string) (p : op unit)                (** the rescue gives back a permit nobody took *)
| QHeldFree                                              (** no limiter: held without a permit *)
| QDone.

Record Manager := MkManager {
  m_hasLimiter : bool; m_channelType : string; m_waitTimeout : Z; m_closed : bool;
  inFlight : Z; waiting : Z; m_totalAcquired : Z; m_totalTimedOut : Z }.

Definition NewConcurrencyManager (hasLimiter : bool) (channelType : string) (waitTimeout : Z) : Manager :=
  MkManager hasLimiter channelType waitTimeout false 0 0 0 0.

(** The counters move by these amounts. *)
Definition count (m : Manager) (flight wait acq out : Z) : Manager :=
  MkManager (m_hasLimiter m) (m_channelType m) (m_waitTimeout m) (m_closed m)
    (inFlight m + flight) (waiting m + wait) (m_totalAcquired m + acq) (m_totalTimedOut m + out).
Definition m_Close (m : Manager) : Manager :=
  MkManager (m_hasLimiter m) (m_channelType m) (m_waitTimeout m) true (inFlight m) (waiting m) (m_totalAcquired m) (m_totalTimedOut m).

Record state := MkState { s_lim : Limiter; s_mgr : Manager; s_reqs : list request }.

(** The request's own moves: what it becomes, and what the manager counts. *)
Inductive move (m : Manager) : request -> request -> Manager -> Prop :=
| move_result t r : move m (QAcquiring t (Ret r)) (QResult t r) m
| move_take t : move m (QResult t None) (QHeld t) (count m 1 (-1) 1 0)
| move_refused t e : move m (QResult t (Some e)) QDone (count m 0 (-1) 0 1)
| move_abandon t p : move m (QAcquiring t p) (QAbandoned t p) (count m 0 (-1) 0 1)
| move_abandon_result t r : move m (QResult t r) (QAbandonedResult t r) (count m 0 (-1) 0 1)
| move_release t : move m (QHeld t) (QReleasing t (Release (m_channelType m) t)) (count m (-1) 0 0 0)
| move_released t u : move m (QReleasing t (Ret u)) QDone m
| move_abandoned_result t r : move m (QAbandoned t (Ret r)) (QAbandonedResult t r) m
| move_rescue t : move m (QAbandonedResult t None) (QRescue t (Release (m_channelType m) t)) m
| move_no_rescue t e : move m (QAbandonedResult t (Some e)) QDone m
| move_rescued t u : move m (QRescue t (Ret u)) QDone m
| move_release_free : move m QHeldFree QDone (count m (-1) 0 0 0).

(** The goroutine of a request makes its next operation on the limiter. *)
Inductive work (l : Limiter) : request -> request -> Limiter -> Prop :=
| work_acquiring t c k l' r : lsem l c l' r -> work l (QAcquiring t (Ask c k)) (QAcquiring t (k r)) l'
| work_releasing t c k l' r : lsem l c l' r -> work l (QReleasing t (Ask c k)) (QReleasing t (k r)) l'
| work_abandoned t c k l' r : lsem l c l' r -> work l (QAbandoned t (Ask c k)) (QAbandoned t (k r)) l'
| work_rescue t c k l' r : lsem l c l' r -> work l (QRescue t (Ask c k)) (QRescue t (k r)) l'.

Inductive step : state -> state -> Prop :=
| step_refused l m reqs : m_closed m = true -> step (MkState l m reqs) (MkState l (count m 0 0 0 1) reqs)
| step_cancelled l m reqs : step (MkState l m reqs) (MkState l (count m 0 0 0 1) reqs)
| step_unlimited l m reqs : m_closed m = false -> m_hasLimiter m = false ->
    step (MkState l m reqs) (MkState l (count m 1 0 1 0) (reqs ++ [QHeldFree]))
| step_arrive l m reqs t : m_closed m = false -> m_hasLimiter m = true ->
    step (MkState l m reqs) (MkState l (count m 0 1 0 0) (reqs ++ [QAcquiring t (Acquire (m_channelType m) t)]))
| step_move l m reqs i q q' m' : reqs !! i = Some q -> move m q q' m' -> step (MkState l m reqs) (MkState l m' (<[i := q']> reqs))
| step_work l m reqs i q q' l' : reqs !! i = Some q -> work l q q' l' -> step (MkState l m reqs) (MkState l' m (<[i := q']> reqs))
| step_close l m reqs : step (MkState l m reqs) (MkState (Close l) m reqs)
| step_mclose l m reqs : step (MkState l m reqs) (MkState l (m_Close m) reqs).

Definition initial (global perChannel perTarget timeout : Z) (m : Manager) : state :=
  MkState (NewLimiter global perChannel perTarget timeout) m [].

(** ** Accounting

    What a program does to one semaphore [k]: it holds [n] permits of it now, and
    [post] of its result at its end; it releases only what it holds, and while it
    waits for a semaphore it holds none of that tier or a later one. *)

(** Tiers in the order they are taken. *)
Definition level (k : key) : nat := match k with KTarget _ => 0 | KChannel _ => 1 | KGlobal => 2 end.

Definition after (k : key) (n : nat) (c : stmt) (r : bool) : nat :=
  match c with
  | CAcquire k' => if decide (k' = k) then if r then S n else n else n
  | CRelease k' => if decide (k' = k) then n - 1 else n
  | _ => n
  end.

Definition due_ok (k : key) (n : nat) (c : stmt) : Prop :=
  match c with
  | CAcquire k' => level k' <= level k -> n = 0
  | CRelease k' => k' = k -> 1 <= n
  | _ => True
  end.

Definition possible (k : key) (n : nat) (c : stmt) (r : bool) : Prop :=
  match c with CLoad k' => k' = k -> 0 < n -> r = true | _ => True end.

Fixpoint bal {A} (k : key) (n : nat) (p : op A) (post : A -> nat) : Prop :=
  match p with
  | Ret a => n = post a
  | Ask c kont => due_ok k n c /\ forall r, possible k n c r -> bal k (after k n c r) (kont r) post
  end.

Section accounting.
Context (ct : string).

(** The permits an admitted request for [t] holds. *)
Definition due (t : string) (k : key) : nat :=
  if decide (KTarget (targetKey ct t) = k) then 1 else if decide (KChannel ct = k) then 1 else if decide (KGlobal = k) then 1 else 0.

(** Walks a program whose operations are on [k] or not, as decided. *)
Ltac balance :=
  cbn -[decide level targetKey];
  repeat first
    [ done
    | match goal with
      | H : ?x = ?x -> _ |- _ => specialize (H eq_refl)
      | H : 0 < 1 -> _ |- _ => specialize (H Nat.lt_0_1); subst
      | |- _ /\ _ => split
      | |- forall _ : bool, _ => intros []
      | |- _ -> _ => intros ?
      | |- context [decide (?x = ?y)] => destruct (decide (x = y)); simplify_eq; cbn -[decide level targetKey]
      end
    | progress cbn -[decide level targetKey] in *
    | lia ].

Lemma Acquire_bal k t : bal k 0 (Acquire ct t) (fun r => match r with None => due t k | Some _ => 0 end).
Proof.
  unfold Acquire, due, call. balance. all: match goal with H : level _ <= level _ |- _ => cbn in H; lia end.
Qed.

Lemma Release_bal k t : bal k (due t k) (Release ct t) (fun _ => 0).
Proof. unfold Release, due, call. balance. Qed.
(** A request holds [n] permits of [k]. *)
Definition holds (k : key) (n : nat) (q : request) : Prop :=
  match q with
  | QAcquiring t p | QAbandoned t p => bal k n p (fun r => match r with None => due t k | Some _ => 0 end)
  | QResult t r | QAbandonedResult t r => n = match r with None => due t k | Some _ => 0 end
  | QHeld t => n = due t k
  | QReleasing t p | QRescue t p => bal k n p (fun _ => 0)
  | QHeldFree | QDone => n = 0
  end.

Lemma move_holds m k n q q' m' : m_channelType m = ct -> move m q q' m' -> holds k n q -> holds k n q'.
Proof. intros Hct Hm. destruct Hm; cbn [holds bal]; intros H; try done; rewrite Hct, H; apply Release_bal. Qed.

(** The operation a request's goroutine makes next. *)
Definition nextOp (q : request) : option stmt :=
  match q with
  | QAcquiring _ (Ask c _) | QAbandoned _ (Ask c _) | QReleasing _ (Ask c _) | QRescue _ (Ask c _) => Some c
  | _ => None
  end.

Lemma work_inv l q q' l' : work l q q' l' -> exists c r, nextOp q = Some c /\ lsem l c l' r /\
  forall k n, holds k n q -> due_ok k n c /\ (possible k n c r -> holds k (after k n c r) q').
Proof. intros Hw. destruct Hw; do 2 eexists; (split; [reflexivity|]); (split; [eassumption|]); cbn [holds bal]; intros k0 n [H1 H2]; auto. Qed.

(** One operation on the semaphores, against a holder's account. *)
Lemma lsem_count l c l' r k n :
  lsem l c l' r -> due_ok k n c -> n <= inUse l k -> inUse l k <= cap l k ->
  possible k n c r /\ inUse l' k + n = inUse l k + after k n c r /\ inUse l' k <= cap l' k /\ (forall k', cap l' k' = cap l k').
Proof.
  intros Hs Hd Hn Hc. destruct Hs as [|k1 H|k1 x H|k1 x H Hlt|k1 Ht|k1 x H|k1 H|k1| |]; unfold inUse, cap in *; cbn -[decide] in *;
    try (split_and!; (done || lia)).
  - destruct (decide (k1 = k)) as [->|Hne]; [rewrite lookup_insert_eq, H in *|rewrite lookup_insert_ne by done]; cbn in *; split_and!; (done || lia).
  - destruct (decide (k1 = k)) as [->|Hne]; [rewrite lookup_insert_eq, H in *|rewrite lookup_insert_ne by done]; cbn in *; split_and!; (done || lia).
  - destruct (decide (k1 = k)); split_and!; (done || lia).
  - destruct (decide (k1 = k)) as [->|Hne]; [specialize (Hd eq_refl); rewrite lookup_insert_eq, H in *|rewrite lookup_insert_ne by done]; cbn in *; split_and!; (done || lia).
  - destruct (decide (k1 = k)) as [->|Hne]; [specialize (Hd eq_refl); lia|]. split_and!; (done || lia).
  - split_and!; try (done || lia). intros -> Hpos. apply bool_decide_eq_true_2. destruct (sems l !! k); [by eexists|cbn in *; lia].
Qed.

Lemma lsem_panic l c l' r :
  lsem l c l' r -> panicked l = false -> (forall k, c = CRelease k -> 1 <= inUse l k) -> panicked l' = false.
Proof. intros Hs Hp Hr. destruct Hs; try done. specialize (Hr k eq_refl). lia. Qed.

(** ** The invariant *)

Record Inv (st : state) : Prop := {
  inv_ct : m_channelType (s_mgr st) = ct;
  inv_panic : panicked (s_lim st) = false;
  inv_count : forall k, inUse (s_lim st) k <= cap (s_lim st) k /\
    exists held, Forall2 (holds k) held (s_reqs st) /\ inUse (s_lim st) k = sum_list held;
}.

Lemma sum_elem (l : list nat) i n : l !! i = Some n -> n <= sum_list l.
Proof. revert i. induction l as [|x l IH]; intros i H; [done|]. destruct i; simplify_eq/=; [lia|]. specialize (IH _ H). lia. Qed.

Lemma Inv_arrive l m m' reqs q :
  Inv (MkState l m reqs) -> m_channelType m' = m_channelType m -> (forall k, holds k 0 q) -> Inv (MkState l m' (reqs ++ [q])).
Proof.
  intros [Hct Hp Hc] Hm Hq. constructor; [by rewrite <- Hct|done|]. intros k. destruct (Hc k) as (Hcap & held & Hh & Hs). split; [done|].
  exists (held ++ [0]). split; [apply Forall2_app; [done|by repeat constructor]|]. cbn in *. rewrite sum_list_with_app. cbn. lia.
Qed.

Lemma Inv_step st st' : Inv st -> step st st' -> Inv st'.
Proof.
  intros Hinv Hs. destruct Hs as [l m reqs H|l m reqs|l m reqs H1 H2|l m reqs t H1 H2|l m reqs i q q' m' Hi Hm|l m reqs i q q' l' Hi Hw|l m reqs|l m reqs].
  - by destruct Hinv.
  - by destruct Hinv.
  - by eapply Inv_arrive.
  - eapply Inv_arrive; [done|done|]. intros k. destruct Hinv as [Hct _ _]. cbn in Hct. rewrite Hct. apply Acquire_bal.
  - destruct Hinv as [Hct Hp Hc]. cbn in *. constructor; [by destruct Hm|done|]. cbn. intros k. destruct (Hc k) as (Hcap & held & Hh & Hsum). split; [done|].
    exists held. split; [|done]. destruct (Forall2_lookup_r _ _ _ _ _ Hh Hi) as (n & Hn & Hq). rewrite <- (list_insert_id held i n Hn).
    apply Forall2_insert; [done|]. by eapply move_holds.
  - destruct Hinv as [Hct Hp Hc]. cbn in *. destruct (work_inv _ _ _ _ Hw) as (c & r & _ & Hsem & Hh').
    constructor; [done| |]; cbn.
    + eapply lsem_panic; [done..|]. intros k ->. destruct (Hc k) as (_ & held & Hh & Hsum).
      destruct (Forall2_lookup_r _ _ _ _ _ Hh Hi) as (n & Hn & Hq). destruct (Hh' k n Hq) as [Hd _]. specialize (Hd eq_refl). pose proof (sum_elem _ _ _ Hn). lia.
    + intros k. destruct (Hc k) as (Hcap & held & Hh & Hsum). destruct (Forall2_lookup_r _ _ _ _ _ Hh Hi) as (n & Hn & Hq).
      destruct (Hh' k n Hq) as [Hd Hq']. pose proof (sum_elem _ _ _ Hn) as Hle.
      destruct (lsem_count l c l' r k n) as (Hpos & Hcnt & Hcap' & _); [done|done|lia|done|]. split; [done|].
      exists (<[i := after k n c r]> held). split; [apply Forall2_insert; [done|auto]|]. pose proof (sum_insert held i n (after k n c r) Hn). lia.
  - destruct Hinv as [Hct Hp Hc]. by constructor.
  - destruct Hinv as [Hct Hp Hc]. by constructor.
Qed.

Lemma reachable_Inv g c t to m st : m_channelType m = ct -> rtc step (initial g c t to m) st -> Inv st.
Proof.
  intros Hct Hs. assert (H0 : Inv (initial g c t to m)).
  { constructor; [done|done|]. intros k. cbn. unfold inUse, NewLimiter. cbn. split; [|exists []; split; [constructor|cbn]].
    - destruct (decide (KGlobal = k)) as [<-|]; [rewrite lookup_singleton_eq; cbn; lia|]. rewrite lookup_singleton_ne by done. cbn. lia.
    - destruct (decide (KGlobal = k)) as [<-|]; [by rewrite lookup_singleton_eq|]. by rewrite lookup_singleton_ne. }
  clear Hct. induction Hs as [|s1 s2 s3 H12 _ IH]; [done|]. apply IH. by eapply Inv_step.
Qed.

(** The requests that hold a permit of [k] as far as their callers know. *)
Definition holder (k : key) (q : request) : bool := match q with QHeld t => Nat.eqb (due t k) 1 | _ => false end.
Definition holders (k : key) (reqs : list request) : nat := length (filter (fun q => holder k q = true) reqs).

Lemma holders_le k held reqs : Forall2 (holds k) held reqs -> holders k reqs <= sum_list held.
Proof.
  unfold holders. induction 1 as [|n q held reqs Hq _ IH]; [done|]. rewrite filter_cons. cbn [sum_list_with].
  case_decide as Hd; [|cbn; lia]. destruct q; try done. cbn in *. apply Nat.eqb_eq in Hd. lia.
Qed.
End accounting.

Definition wellManaged (m : Manager) : Prop := inFlight m = 0%Z /\ waiting m = 0%Z.

(** The caps hold: whatever the callers, their timeouts and cancellations and the
    goroutines they leave behind do, at every moment no tier has more permits out
    than its cap, no more callers hold a permit of a tier than the tier has out, and
    no release ever finds its semaphore empty. *)
Theorem limiter_caps_hold (global perChannel perTarget timeout_ : Z) (m : Manager) (st : state)
    (Hrun : rtc step (initial global perChannel perTarget timeout_ m) st) :
  panicked (s_lim st) = false /\
  forall k, holders (m_channelType m) k (s_reqs st) <= inUse (s_lim st) k <= cap (s_lim st) k.
Proof.
  destruct (reachable_Inv (m_channelType m) _ _ _ _ _ _ eq_refl Hrun) as [_ Hp Hc]. split; [done|]. intros k.
  destruct (Hc k) as (Hcap & held & Hh & Hs). split; [rewrite Hs; by apply holders_le|done].
Qed.

(** ** Counters *)

Definition held (q : request) : Z := match q with QHeld _ | QHeldFree => 1 | _ => 0 end.
Definition queued (q : request) : Z := match q with QAcquiring _ _ | QResult _ _ => 1 | _ => 0 end.
Definition total (f : request -> Z) (reqs : list request) : Z := foldr Z.add 0%Z (map f reqs).

Lemma total_app f l1 l2 : total f (l1 ++ l2) = (total f l1 + total f l2)%Z.
Proof. unfold total. induction l1 as [|x l1 IH]; cbn; [done|]. rewrite IH. lia. Qed.

Lemma total_one f q : total f [q] = f q.
Proof. apply Z.add_0_r. Qed.

Lemma total_update f l i q q' : l !! i = Some q -> total f (<[i := q']> l) = (total f l + (f q' - f q))%Z.
Proof. unfold total. revert i. induction l as [|x l IH]; intros i H; [done|]. destruct i; simplify_eq/=; [lia|]. rewrite (IH _ H). lia. Qed.

Definition counted (st : state) : Prop := inFlight (s_mgr st) = total held (s_reqs st) /\ waiting (s_mgr st) = total queued (s_reqs st).

Lemma counted_step st st' : counted st -> step st st' -> counted st'.
Proof.
  intros [H1 H2] Hs. unfold counted. destruct Hs as [| | | |l m reqs i q q' m' Hi Hm|l m reqs i q q' l' Hi Hw| |]; cbn -[total Acquire] in *; rewrite ?total_app, ?total_one; try (cbn -[total Acquire]; lia).
  - rewrite !(total_update _ _ _ _ _ Hi). destruct Hm; cbn; lia.
  - rewrite !(total_update _ _ _ _ _ Hi). destruct Hw; cbn; lia.
Qed.

(** A request nothing is left to do for. *)
Definition idle (q : request) : Prop := match q with QDone | QHeldFree => True | _ => False end.

(** Nothing leaks: the manager's counters are exactly the callers that hold and
    that wait; and once no request is under way every semaphore of every tier is
    empty again, the permits granted to callers that had given up included. *)
Theorem limiter_leaks_nothing (global perChannel perTarget timeout_ : Z) (m : Manager) (st : state)
    (Hfresh : wellManaged m) (Hrun : rtc step (initial global perChannel perTarget timeout_ m) st) :
  counted st /\ (Forall idle (s_reqs st) -> forall k, inUse (s_lim st) k = 0).
Proof.
  split.
  - assert (H0 : counted (initial global perChannel perTarget timeout_ m)) by (destruct Hfresh; by split).
    clear Hfresh. induction Hrun as [|s1 s2 s3 H12 _ IH]; [done|]. apply IH. by eapply counted_step.
  - intros Hidle k. destruct (reachable_Inv (m_channelType m) _ _ _ _ _ _ eq_refl Hrun) as [_ _ Hc].
    destruct (Hc k) as (_ & hs & Hh & ->). clear -Hh Hidle. induction Hh as [|n q hs reqs Hq _ IH]; [done|].
    apply Forall_cons in Hidle as [Hi Hidle]. cbn. rewrite IH by done. destruct q; try done; cbn in Hq; lia.
Qed.

(** ** Progress *)

(** The limiter whose acquires never give up. *)
Definition patient (l : Limiter) : Limiter :=
  MkLimiter (globalMax l) (perChannelMax l) (perTargetMax l) 0 (sems l) (closed l) (totalAcquired l) (totalTimedOut l) (panicked l).

Inductive abandons : request -> request -> Prop :=
| abandon_wait t p : abandons (QAcquiring t p) (QAbandoned t p)
| abandon_result t r : abandons (QResult t r) (QAbandonedResult t r).

(** The request can go on without anyone giving up. *)
Definition advances (l : Limiter) (m : Manager) (q : request) : Prop :=
  (exists q' m', move m q q' m' /\ ~ abandons q q') \/ (exists q' l', work (patient l) q q' l').

(** What a request waits for, when it waits. *)
Definition waitsFor (q : request) : option key := match nextOp q with Some (CAcquire k) => Some k | _ => None end.

Section progress.
Context (ct : string).

Lemma lsem_total l c : (forall k, c = CAcquire k -> exists n, sems l !! k = Some n /\ n < cap l k) -> exists l' r, lsem l c l' r.
Proof.
  destruct c as [|k|k|k|k| |]; intros H.
  - do 2 eexists. apply sem_closed.
  - destruct (sems l !! k) eqn:E; do 2 eexists; [by eapply sem_create_old|by apply sem_create_new].
  - destruct (H k eq_refl) as (n & Hn & Hlt). do 2 eexists. by eapply sem_grant.
  - destruct (sems l !! k) as [[|n]|] eqn:E; do 2 eexists; [eapply sem_panic; unfold inUse; by rewrite E|by eapply sem_release|eapply sem_panic; unfold inUse; by rewrite E].
  - do 2 eexists. apply sem_load.
  - do 2 eexists. apply sem_timedout.
  - do 2 eexists. apply sem_acquired.
Qed.

(** The semaphores a program waits for exist. *)
Fixpoint created {A} (ks : list key) (p : op A) : Prop :=
  match p with
  | Ret _ => True
  | Ask c kont =>
      match c with CAcquire k => k = KGlobal \/ k ∈ ks | _ => True end /\
      forall r, created (match c with CGetOrCreate k => k :: ks | _ => ks end) (kont r)
  end.

Lemma Acquire_created t ks : created ks (Acquire ct t).
Proof. unfold Acquire, call. cbn -[targetKey]. repeat first [done|split|intros []|progress cbn -[targetKey]|set_solver]. Qed.

Lemma Release_created t ks : created ks (Release ct t).
Proof. unfold Release, call. cbn -[targetKey]. repeat first [done|split|intros []|progress cbn -[targetKey]|set_solver]. Qed.

Lemma created_mono {A} ks ks' (p : op A) : created ks p -> (forall k, k ∈ ks -> k ∈ ks') -> created ks' p.
Proof.
  revert ks ks'. induction p as [a|c kont IH]; intros ks ks' H Hin; [done|]. destruct H as [H1 H2]. split; [destruct c; naive_solver|].
  intros r. eapply IH; [apply H2|]. destruct c; auto. intros k0 Hk. set_solver.
Qed.

Definition reqCreated (l : Limiter) (q : request) : Prop :=
  exists ks, (forall k, k ∈ ks -> is_Some (sems l !! k)) /\
  match q with QAcquiring _ p | QAbandoned _ p => created ks p | QReleasing _ p | QRescue _ p => created ks p | _ => True end.

Lemma lsem_sems l c l' r k : lsem l c l' r -> is_Some (sems l !! k) -> is_Some (sems l' !! k).
Proof. intros Hs Hk. destruct Hs; cbn; try done; by apply lookup_insert_is_Some'; right. Qed.

Definition allCreated (st : state) : Prop :=
  m_channelType (s_mgr st) = ct /\ is_Some (sems (s_lim st) !! KGlobal) /\ Forall (reqCreated (s_lim st)) (s_reqs st).

Lemma work_created l q q' l' : work l q q' l' -> reqCreated l q -> reqCreated l' q'.
Proof.
  assert (Hp : forall A c (kont : bool -> op A) r ks, lsem l c l' r -> (forall k, k ∈ ks -> is_Some (sems l !! k)) -> created ks (Ask c kont) ->
            exists ks', (forall k, k ∈ ks' -> is_Some (sems l' !! k)) /\ created ks' (kont r)).
  { intros A c kont r ks Hs Hks [_ Hk]. eexists. split; [|apply Hk]. intros k Hin.
    destruct c; try (apply (lsem_sems _ _ _ _ _ Hs); auto; fail). apply elem_of_cons in Hin as [->|Hin]; [|apply (lsem_sems _ _ _ _ _ Hs); auto].
    inversion Hs; subst; [cbn; rewrite lookup_insert_eq; by eexists|by eexists]. }
  intros Hw (ks & Hks & Hq). destruct Hw; (eapply Hp; [eassumption|exact Hks|exact Hq]).
Qed.

Lemma allCreated_step st st' : allCreated st -> step st st' -> allCreated st'.
Proof.
  intros (Hct & Hg & Hall) Hs.
  destruct Hs as [l m reqs H|l m reqs|l m reqs H1 H2|l m reqs t H1 H2|l m reqs i q q' m' Hi Hm|l m reqs i q q' l' Hi Hw|l m reqs|l m reqs]; cbn in Hct, Hg, Hall.
  - by split_and!.
  - by split_and!.
  - split_and!; [done|done|]. apply Forall_app. split; [done|]. constructor; [|constructor]. exists []. split; [by intros k ?%not_elem_of_nil|done].
  - split_and!; [done|done|]. apply Forall_app. split; [done|]. constructor; [|constructor]. exists []. split; [by intros k ?%not_elem_of_nil|]. cbn [s_mgr]. rewrite Hct. apply Acquire_created.
  - split_and!; [by destruct Hm|done|]. cbn. apply Forall_insert; [done|]. rewrite Forall_lookup in Hall. destruct (Hall _ _ Hi) as (ks & Hks & Hq).
    exists ks. split; [done|]. destruct Hm; try done; rewrite Hct; apply Release_created.
  - destruct (work_inv ct _ _ _ _ Hw) as (c & r & _ & Hsem & _). split_and!; [done|by eapply lsem_sems|]. cbn. apply Forall_insert.
    + eapply Forall_impl; [exact Hall|]. intros q0 (ks & Hks & Hq0). exists ks. split; [|done]. intros k Hk. eapply lsem_sems; eauto.
    + eapply work_created; [exact Hw|]. rewrite Forall_lookup in Hall. eauto.
  - by split_and!.
  - by split_and!.
Qed.

Lemma cap_pos l k : 0 < cap l k.
Proof. unfold cap, effectiveCap. destruct (Z.leb_spec match k with KTarget _ => perTargetMax l | KChannel _ => perChannelMax l | KGlobal => globalMax l end 0); lia. Qed.

(** A request that waits holds nothing of the tier it waits for, or of a later one. *)
Lemma waits_holds q k k' n : waitsFor q = Some k' -> holds ct k n q -> level k' <= level k -> n = 0.
Proof.
  unfold waitsFor. destruct q as [t p|t r|t|t p|t p|t r|t p| |]; try done; cbn [nextOp holds]; destruct p as [a|c kont]; try done; destruct c; try done;
    intros [= <-] [Hd _]; exact Hd.
Qed.

(** Requests that neither wait nor are finished go on. *)
Lemma free_advances l m q :
  q <> QDone -> (forall k, waitsFor q = Some k -> exists n, sems l !! k = Some n /\ n < cap l k) -> advances l m q.
Proof.
  intros Hq Hw.
  assert (Hlib : forall c, nextOp q = Some c -> exists l' r, lsem (patient l) c l' r).
  { intros c Hc. apply lsem_total. intros k ->. cbn. apply Hw. unfold waitsFor. by rewrite Hc. }
  assert (Hm : forall q' m', move m q q' m' -> ~ abandons q q' -> advances l m q) by (intros q' m' ? ?; left; by exists q', m').
  destruct q as [t [r|c k]|t [e|]|t|t [u|c k]|t [r|c k]|t [e|]|t [u|c k]| |]; try done;
    try (eapply Hm; [constructor|by inversion 1]); right; destruct (Hlib c eq_refl) as (l' & r & Hs); do 2 eexists; by constructor.
Qed.

(** If a request waits for a full semaphore, some request that does not holds a
    permit, or waits at a later tier. *)
Lemma full_has_holder st k :
  Inv ct st -> inUse (s_lim st) k = cap (s_lim st) k -> exists i q, s_reqs st !! i = Some q /\ q <> QDone /\ forall k', waitsFor q = Some k' -> level k < level k'.
Proof.
  intros [_ _ Hc] Hfull. destruct (Hc k) as (_ & hs & Hh & Hs). assert (Hpos : 0 < sum_list hs) by (rewrite <- Hs, Hfull; apply cap_pos).
  assert (Hex : exists i n, hs !! i = Some (S n)).
  { clear -Hpos. induction hs as [|[|n] hs IH]; cbn in Hpos; [lia| |by exists 0, n]. destruct (IH Hpos) as (i & n & Hi). by exists (S i), n. }
  destruct Hex as (i & n & Hi). destruct (Forall2_lookup_l _ _ _ _ _ Hh Hi) as (q & Hq & Hhold). exists i, q. split_and!; [done|by intros ->|].
  intros k' Hw. destruct (Nat.lt_ge_cases (level k) (level k')) as [|Hge]; [done|]. by pose proof (waits_holds q k k' (S n) Hw Hhold Hge).
Qed.

(** Some request advances: go up the tiers until one is not full. *)
Lemma someone_advances st fuel i q :
  Inv ct st -> allCreated st -> s_reqs st !! i = Some q -> q <> QDone -> (forall k, waitsFor q = Some k -> 3 <= level k + fuel) ->
  exists j q', s_reqs st !! j = Some q' /\ advances (s_lim st) (s_mgr st) q'.
Proof.
  intros Hinv Hcr. revert i q. induction fuel as [|fuel IH]; intros i q Hi Hq Hlev.
  - exists i, q. split; [done|]. apply free_advances; [done|]. intros k Hk. specialize (Hlev k Hk). destruct k; cbn in Hlev; lia.
  - destruct (waitsFor q) as [k|] eqn:Hk; [|exists i, q; split; [done|]; apply free_advances; [done|]; by rewrite Hk].
    destruct (decide (inUse (s_lim st) k < cap (s_lim st) k)) as [Hlt|Hge].
    + exists i, q. split; [done|]. apply free_advances; [done|]. intros k' [= <-]%(eq_trans (eq_sym Hk)).
      destruct Hcr as (_ & Hg & Hall). rewrite Forall_lookup in Hall. destruct (Hall _ _ Hi) as (ks & Hks & Hp).
      assert (Hsome : is_Some (sems (s_lim st) !! k)).
      { unfold waitsFor in Hk. destruct q as [t p|t r|t|t p|t p|t r|t p| |]; try done; cbn [nextOp] in Hk; destruct p as [a|c kont]; try done; destruct c; try done;
          injection Hk as <-; destruct Hp as [[->|Hin] _]; auto. }
      destruct Hsome as [n Hn]. exists n. split; [done|]. unfold inUse in Hlt. by rewrite Hn in Hlt.
    + destruct (full_has_holder st k Hinv) as (j & q' & Hj & Hq' & Hup).
      { destruct Hinv as [_ _ Hc]. destruct (Hc k) as [Hle _]. lia. }
      apply (IH j q' Hj Hq'). intros k' Hk'. specialize (Hup k' Hk'). specialize (Hlev k eq_refl). lia.
Qed.
End progress.

(** C40: the tiers never deadlock: in every reachable state with a request still under
    way, one of the requests can go on, its acquire granted rather than timed out
    and its caller not giving up. *)
Theorem limiter_never_deadlocks (global perChannel perTarget timeout_ : Z) (m : Manager) (st : state)
    (Hrun : rtc step (initial global perChannel perTarget timeout_ m) st) (Hopen : exists q, q ∈ s_reqs st /\ q <> QDone) :
  exists i q, s_reqs st !! i = Some q /\ advances (s_lim st) (s_mgr st) q.
Proof.
  destruct Hopen as (q & [i Hi]%list_elem_of_lookup_1 & Hq).
  eapply (someone_advances (m_channelType m) st 3 i q); [by eapply reachable_Inv| |done|done|lia].
  assert (H0 : allCreated (m_channelType m) (initial global perChannel perTarget timeout_ m)) by (split_and!; [done|by eexists|constructor]).
  clear -Hrun H0. induction Hrun as [|s1 s2 s3 H12 _ IH]; [done|]. apply IH. by eapply allCreated_step.
Qed.

(** ** Instances *)

Definition ex_mgr : Manager := NewConcurrencyManager true "batch" 0.
Definition ex_init : state := initial 2 2 1 5 ex_mgr.

Ltac goroutine := eapply rtc_l; [eapply (step_work _ _ _ 0); [reflexivity|econstructor; econstructor; (reflexivity || (cbv; lia))]|cbn].

(** A request admitted through the three tiers. *)
Lemma ex_admitted : exists st, rtc step ex_init st /\ s_reqs st = [QHeld "h"] /\ inUse (s_lim st) KGlobal = 1.
Proof.
  eexists. split; [|split].
  - eapply rtc_l; [by apply (step_arrive _ _ _ "h")|]. cbn. do 7 goroutine.
    eapply rtc_l; [eapply (step_move _ _ _ 0); [reflexivity|apply move_result]|]. cbn.
    eapply rtc_l; [eapply (step_move _ _ _ 0); [reflexivity|apply move_take]|]. cbn. apply rtc_refl.
  - reflexivity.
  - reflexivity.
Qed.

Lemma limiter_caps_hold_witness :
  exists st, s_reqs st = [QHeld "h"] /\ panicked (s_lim st) = false /\
    forall k, holders "batch" k (s_reqs st) <= inUse (s_lim st) k <= cap (s_lim st) k.
Proof. destruct ex_admitted as (st & Hrun & Hq & _). exists st. split; [done|]. apply (limiter_caps_hold 2 2 1 5 ex_mgr st Hrun). Defined.

Lemma limiter_leaks_nothing_witness :
  exists st, inUse (s_lim st) KGlobal = 1 /\ counted st /\ (Forall idle (s_reqs st) -> forall k, inUse (s_lim st) k = 0).
Proof. destruct ex_admitted as (st & Hrun & _ & Hu). exists st. split; [done|]. apply (limiter_leaks_nothing 2 2 1 5 ex_mgr st); [done|exact Hrun]. Defined.

Lemma limiter_never_deadlocks_witness :
  exists st, s_reqs st = [QHeld "h"] /\ exists i q, s_reqs st !! i = Some q /\ advances (s_lim st) (s_mgr st) q.
Proof.
  destruct ex_admitted as (st & Hrun & Hq & _). exists st. split; [done|]. apply (limiter_never_deadlocks 2 2 1 5 ex_mgr st Hrun).
  exists (QHeld "h"). rewrite Hq. split; [by left|done].
Defined.

(** The key of a target semaphore is not injective: a colon in a channel type or a
    target makes two pairs share one. *)
Example target_keys_collide : targetKey "ssh" "a:b" = targetKey "ssh:a" "b".
Proof. reflexivity. Qed.

End Limiter.
