(* ===== verification/Lifecycle.v ===== *)
(** * Lifecycle: the change service

    The request handlers that move a change through its life:
    src/internal/grpc/change_service.go (create, clone, plan, apply, approve,
    reject, settle, pause, resume, cancel, retry, roll back, archive), the engine
    closures of src/internal/wiring/run.go they call (runChange, retryChange,
    rollbackChange and their helpers), src/internal/pause/pause.go, and the run
    statements of src/internal/state/sqlite.go.

    A handler is a program over the run, approval, trace and audit tables; the
    operations of the approval service, the trace chain and the audit log are the
    programs of their own files, embedded. What the handlers delegate to is a
    statement the environment answers: the policy ([LDecide]), the plan generator
    ([LGeneratePlan]), the closure ([LExecutePlan]), the rollback manager
    ([LRollback]), clocks and random ids. Errors are gRPC codes; message texts are
    not modelled. *)

From Stdlib Require Import ZArith Lia.
From stdpp Require Import base gmap strings list sorting pretty relations.
From S2P Require Import Prelude RunStatus Risk Dsl Plan Concur Rely Approval Canonical TraceChain AuditLog Dispatch.
Import Concur Rely.
Open Scope string_scope.
Open Scope list_scope.

Module Lifecycle.
Local Open Scope levee_scope.
Local Open Scope Z_scope.

Abbreviation Run := Dispatch.Run.
Abbreviation r_ID := Dispatch.r_ID.
Abbreviation r_Status := Dispatch.r_Status.
Abbreviation r_PlanJSON := Dispatch.r_PlanJSON.
Abbreviation r_PlanHash := Dispatch.r_PlanHash.
Abbreviation r_ApprovalLevel := Dispatch.r_ApprovalLevel.
Abbreviation withStatus := Dispatch.withStatus.

(** ** Tables and statements *)

Inductive code :=
| Internal | NotFound | FailedPrecondition | PermissionDenied | Unauthenticated | InvalidArgument | ResourceExhausted | AlreadyExists
| Panicked   (** not a code: the handler dereferences nil *).

#[export] Instance code_eq_dec : EqDecision code.
Proof. solve_decision. Defined.

(** What the closure reports: run id, success, phase, error. *)
Record outcome := MkOutcome { o_runID : string; o_success : bool; o_phase : string; o_err : option goerr }.

Inductive stmt :=
| LGetRun (id : string)
| LCreateRun (r : Run)
| LListRuns (f : Dispatch.RunFilter)
| LUpdateRun (r : Run)
| LUpdateRunStatusIf (id from to : string) (at_ : Z)
| LUpdateRunApprovalStatusIf (id from to approvalStatus : string) (at_ : Z)
| LUpdateRunPlan (id json hash : string) (at_ : Z)
| LPurgeArtifacts (id : string)                               (** batch and step rows *)
| LAppr (s : Approval.stmt)
| LTrace (s : TraceChain.stmt)
| LAudit (s : AuditLog.stmt)
| LSlotAcquire
| LSlotRelease
| LDecide (subject env action : string)                       (** [Authorizer.Decide] *)
| LHasPermission (subject permission : string)
| LValidateNotFrozen (hosts : list string)
| LGeneratePlan (id : string) (hosts : list string)
| LExecutePlan (id : string) (p : Plan.Plan) (resumable : bool)
| LRollback (id : string) (p : Plan.Plan) (dryRun : bool)
| LPublish (id old new message : string)
| LReport (id status : string)                                (** feedback and platform reports, mirrors *)
| LNow
| LNewID.

Record ans := MkAns {
  y_err : option goerr; y_ok : bool; y_run : option Run; y_runs : list Run;
  y_appr : Approval.ans; y_tr : TraceChain.ans; y_au : AuditLog.ans;
  y_time : Z; y_id : string; y_env : string; y_stored : option (string * string); y_out : outcome }.

Definition noOutcome : outcome := MkOutcome "" false "" None.
Definition answers (e : option goerr) (ok : bool) (run : option Run) (runs : list Run) : ans :=
  MkAns e ok run runs Approval.noAns TraceChain.noAns AuditLog.noAns 0 "" "" None noOutcome.
Definition done_ : ans := answers None false None [].
Definition rows (b : bool) : ans := answers None b None [].
(** The statement failed, whoever asked. *)
Definition fails (e : goerr) : ans :=
  MkAns (Some e) false None [] (Approval.MkAns (Some e) [] 0 0 "") (TraceChain.failAns e) (AuditLog.failAns e) 0 "" "" None
    (MkOutcome "" false "" (Some e)).

(** [w_started]: the executions begun, in order; no table holds them. *)
Record world := MkWorld {
  w_runs : gmap string Run; w_appr : list Approval.row; w_traces : list Canonical.Trace; w_audits : list AuditLog.Audit;
  w_slots : Z; w_cap : Z; w_started : list (string * Plan.Plan) }.

Definition setRuns (w : world) (m : gmap string Run) : world :=
  MkWorld m (w_appr w) (w_traces w) (w_audits w) (w_slots w) (w_cap w) (w_started w).
Definition setAppr (w : world) (l : list Approval.row) : world :=
  MkWorld (w_runs w) l (w_traces w) (w_audits w) (w_slots w) (w_cap w) (w_started w).
Definition setTraces (w : world) (l : list Canonical.Trace) : world :=
  MkWorld (w_runs w) (w_appr w) l (w_audits w) (w_slots w) (w_cap w) (w_started w).
Definition setAudits (w : world) (l : list AuditLog.Audit) : world :=
  MkWorld (w_runs w) (w_appr w) (w_traces w) l (w_slots w) (w_cap w) (w_started w).
Definition setSlots (w : world) (n : Z) : world :=
  MkWorld (w_runs w) (w_appr w) (w_traces w) (w_audits w) n (w_cap w) (w_started w).
Definition begins (w : world) (id : string) (p : Plan.Plan) : world :=
  MkWorld (w_runs w) (w_appr w) (w_traces w) (w_audits w) (w_slots w) (w_cap w) (w_started w ++ [(id, p)]).

(** [UpdateRun]: every column but the id and the creation time. *)
Definition overwrite (old new : Run) : Run :=
  Dispatch.MkRun (r_ID old) (Dispatch.r_WorkflowName new) (Dispatch.r_TemplateName new) (Dispatch.r_Params new) (r_PlanHash new)
    (r_PlanJSON new) (r_Status new) (Dispatch.r_ApprovalStatus new) (r_ApprovalLevel new) (Dispatch.r_Priority new)
    (Dispatch.r_CreatedAt old) (Dispatch.r_UpdatedAt new) (Dispatch.r_Creator new) (Dispatch.r_IncidentID new) (Dispatch.r_TenantID new).
Definition withApproval (r : Run) (status approvalStatus : string) (at_ : Z) : Run :=
  Dispatch.MkRun (r_ID r) (Dispatch.r_WorkflowName r) (Dispatch.r_TemplateName r) (Dispatch.r_Params r) (r_PlanHash r)
    (r_PlanJSON r) status approvalStatus (r_ApprovalLevel r) (Dispatch.r_Priority r)
    (Dispatch.r_CreatedAt r) at_ (Dispatch.r_Creator r) (Dispatch.r_IncidentID r) (Dispatch.r_TenantID r).
Definition withPlan (r : Run) (json hash : string) (at_ : Z) : Run :=
  Dispatch.MkRun (r_ID r) (Dispatch.r_WorkflowName r) (Dispatch.r_TemplateName r) (Dispatch.r_Params r) hash
    json (r_Status r) (Dispatch.r_ApprovalStatus r) (r_ApprovalLevel r) (Dispatch.r_Priority r)
    (Dispatch.r_CreatedAt r) at_ (Dispatch.r_Creator r) (Dispatch.r_IncidentID r) (Dispatch.r_TenantID r).
Definition withLevel (r : Run) (level : string) (at_ : Z) : Run :=
  Dispatch.MkRun (r_ID r) (Dispatch.r_WorkflowName r) (Dispatch.r_TemplateName r) (Dispatch.r_Params r) (r_PlanHash r)
    (r_PlanJSON r) (r_Status r) (Dispatch.r_ApprovalStatus r) level (Dispatch.r_Priority r)
    (Dispatch.r_CreatedAt r) at_ (Dispatch.r_Creator r) (Dispatch.r_IncidentID r) (Dispatch.r_TenantID r).

(** [UPDATE runs SET ... WHERE id=? AND status=from]. *)
Definition casRun (w : world) (id from : string) (f : Run -> Run) : world * ans :=
  match w_runs w !! id with
  | Some r => if String.eqb (r_Status r) from then (setRuns w (<[id := f r]> (w_runs w)), rows true) else (w, rows false)
  | None => (w, rows false)
  end.

(** [UPDATE runs SET ... WHERE id=?]; no row is an error. *)
Definition setRun (w : world) (id : string) (f : Run -> Run) : world * ans :=
  match w_runs w !! id with
  | Some r => (setRuns w (<[id := f r]> (w_runs w)), done_)
  | None => (w, fails (EText ("state: update run " +:+ id +:+ ": not found")))
  end.

(** One statement; what no table answers is [orc]'s. *)
Definition exec (orc : stmt -> ans) (w : world) (s : stmt) : world * ans :=
  match s with
  | LGetRun id => (w, answers None false (w_runs w !! id) [])
  | LCreateRun r =>
      match w_runs w !! r_ID r with
      | Some _ => (w, fails (EText "state: create run: UNIQUE constraint failed: runs.id"))
      | None => (setRuns w (<[r_ID r := r]> (w_runs w)), done_)
      end
  | LListRuns f => (w, match Dispatch.listRuns f (w_runs w) with inl e => fails e | inr l => answers None false None l end)
  | LUpdateRun r => setRun w (r_ID r) (fun old => overwrite old r)
  | LUpdateRunStatusIf id from to at_ => casRun w id from (fun r => withStatus r to at_)
  | LUpdateRunApprovalStatusIf id from to appr at_ => casRun w id from (fun r => withApproval r to appr at_)
  | LUpdateRunPlan id json hash at_ => setRun w id (fun r => withPlan r json hash at_)
  | LAppr Approval.SNow | LAppr Approval.SNewID | LAppr (Approval.SAuthorizeDecision _ _ _) => (w, orc s)
  | LTrace TraceChain.SNow | LTrace TraceChain.SNewID | LAudit AuditLog.SNow | LAudit AuditLog.SNewID => (w, orc s)
  | LAppr c => let '(l, r) := Approval.dbexec (w_appr w) c in
               (setAppr w l, MkAns (Approval.a_err r) false None [] r TraceChain.noAns AuditLog.noAns 0 "" "" None noOutcome)
  | LTrace c => let '(l, r) := TraceChain.dbexec (w_traces w) c in
                (setTraces w l, MkAns (TraceChain.a_err r) false None [] Approval.noAns r AuditLog.noAns 0 "" "" None noOutcome)
  | LAudit c => let '(l, r) := AuditLog.dbexec (w_audits w) c in
                (setAudits w l, MkAns (AuditLog.a_err r) false None [] Approval.noAns TraceChain.noAns r 0 "" "" None noOutcome)
  | LSlotAcquire => if w_slots w <? w_cap w then (setSlots w (w_slots w + 1), rows true) else (w, rows false)
  | LSlotRelease => (setSlots w (w_slots w - 1), done_)
  | LExecutePlan id p _ => (begins w id p, orc s)
  | LPurgeArtifacts _ | LPublish _ _ _ _ | LReport _ _ => (w, done_)
  | LDecide _ _ _ | LHasPermission _ _ | LValidateNotFrozen _ | LGeneratePlan _ _ | LRollback _ _ _ | LNow | LNewID => (w, orc s)
  end.

Definition op (A : Type) : Type := prog stmt ans A.
Definition call (s : stmt) : op ans := Ask s Ret.

(** A program of one table inside this one. *)
Fixpoint embed {C R A} (wrap : C -> stmt) (read : ans -> R) (p : prog C R A) : op A :=
  match p with Ret a => Ret a | Ask c k => Ask (wrap c) (fun r => embed wrap read (k (read r))) end.

Definition onApprovals {A} (p : Approval.op A) : op A := embed LAppr y_appr p.
Definition onTraces {A} (p : TraceChain.op A) : op A := embed LTrace y_tr p.
Definition onAudits {A} (p : AuditLog.op A) : op A := embed LAudit y_au p.

(** ** The service *)

(** The caller: the verified subject and the asserted actor. *)
Record ctx := MkCtx { x_subject : string; x_actor : string }.

Definition actorFromCtx (c : ctx) : string := if String.eqb (x_actor c) "" then "grpc-user" else x_actor c.
Definition creatorFromCtx (c : ctx) : string := if String.eqb (x_subject c) "" then actorFromCtx c else x_subject c.
Definition envOf (r : Run) : string := Dispatch.r_IncidentID r.

(** What is wired: store, engine adapter, approval service, pause manager, policy
    (and whether it records denials), bulk checker, expiry rule, approval mirrors. *)
Record ChangeService := MkChangeService {
  cs_store : bool; cs_engine : bool; cs_approval : option Approval.Service; cs_pause : bool; cs_authz : option bool;
  cs_bulkAuth : bool; cs_expiry : option (string -> Z); cs_mirrors : nat }.

Definition ErrReplanNeedsApproval := "re-plan requires a fresh approval before execution".
Definition ErrIncomplete := "rollback incomplete".
Definition ErrWindowClosed := "change window is closed".
Definition ErrGateNotExecutable := "engine: declared verification gate is not executable in this deployment".
Definition ErrFrozen := "calendar: target set is inside an active freeze period".
Definition ErrApprovalUnderprovisioned := "approval under-provisioned".
Definition UnattributableActor := "<unattributable>".

Definition terminalRunStatuses : list string :=
  [RunStatus.StatusApproved; RunStatus.StatusRejected; RunStatus.StatusRunning; RunStatus.StatusCompleted; RunStatus.StatusFailed;
   RunStatus.StatusRolledBack; RunStatus.StatusRolledBackPartial; RunStatus.StatusRollbackIncomplete; RunStatus.StatusCancelled;
   RunStatus.StatusArchived; RunStatus.StatusInterrupted].

Definition isValidTransition (from to : string) : bool :=
  if String.eqb to RunStatus.StatusPaused then inSet [RunStatus.StatusRunning; RunStatus.StatusPending] from
  else if String.eqb to RunStatus.StatusRunning then
    inSet [RunStatus.StatusPaused; RunStatus.StatusPending; RunStatus.StatusApproved; RunStatus.StatusDraft; RunStatus.StatusPlanned] from
  else if String.eqb to RunStatus.StatusCancelled then
    negb (inSet [RunStatus.StatusCompleted; RunStatus.StatusCancelled; RunStatus.StatusArchived; RunStatus.StatusInterrupted] from)
  else if String.eqb to RunStatus.StatusArchived then
    inSet [RunStatus.StatusCompleted; RunStatus.StatusFailed; RunStatus.StatusCancelled; RunStatus.StatusRolledBack;
           RunStatus.StatusRolledBackPartial; RunStatus.StatusRollbackIncomplete; RunStatus.StatusInterrupted; RunStatus.StatusDraft;
           RunStatus.StatusPlanned] from
  else false.

(** [Approval.MatchesPlan]: matched, and only through the legacy rule. *)
Definition MatchesPlan (a : Approval.row) (planHash : string) : bool * bool :=
  if String.eqb (Approval.r_PlanHash a) "" then (true, true)
  else (negb (String.eqb planHash "") && String.eqb (Approval.r_PlanHash a) planHash, false).

Definition mapApprovalError (e : goerr) : code :=
  if errors_Is e Approval.ErrNotFound then NotFound
  else if errors_Is e Approval.ErrInvalidTransition then FailedPrecondition
  else if errors_Is e Approval.ErrUnauthorizedApprover then PermissionDenied
  else if errors_Is e Approval.ErrInitiatorExcluded then PermissionDenied
  else if errors_Is e Approval.ErrDuplicateDecision then AlreadyExists
  else Internal.

Definition withoutIdentity (approvers : list string) (identity : string) : list string :=
  if String.eqb identity "" then approvers else filter (fun a => a <> identity) approvers.

Section service.
(** The audit passphrase; enough fuel for a walk of the audit log. *)
Variables (raw : string) (fuel : nat).
(** encoding/json on the stored artifact, the plan hash check of
    src/internal/plan/hash.go, and the approval declaration of an inline YAML source. *)
Variables (decodePlan : string -> option Plan.Plan) (VerifyHash : Plan.Plan -> string -> bool)
  (parseInlineApprovalSpec : string -> option Dsl.ApprovalSpec).

Definition now : op Z := let! r := call LNow in Ret (y_time r).

Definition recordAudit (runID action actor target result : string) (ts : Z) : op unit :=
  let! i := call LNewID in
  let! _ := onAudits (AuditLog.Record_ raw fuel (Some (AuditLog.MkAudit (y_id i) runID action actor target result "" "" "" ts))) in
  Ret tt.

Definition sealTraceChain (runID : string) : op unit :=
  let! _ := onTraces (TraceChain.SealRunTraceChain raw runID) in Ret tt.

(** [authorizeResource]; the answer names the subject and the environment judged. *)
Definition authorizeResource (s : ChangeService) (c : ctx) (env action : string) : op (option code) :=
  match cs_authz s with
  | None => Ret None
  | Some recorder =>
      let! d := call (LDecide (x_subject c) env action) in
      if y_ok d then Ret None
      else
        let actor := if String.eqb (y_id d) "" then UnattributableActor else y_id d in
        let! _ := (if recorder : bool then onAudits (AuditLog.recordDenial raw fuel actor action (y_env d)) else Ret tt) in
        Ret (Some (if String.eqb (y_id d) "" then Unauthenticated else PermissionDenied))
  end.

Definition authorize (s : ChangeService) (c : ctx) (run : Run) (action : string) : op (option code) :=
  authorizeResource s c (envOf run) action.

(** The opening of every handler: the store, the run, then the policy. *)
Definition loaded {A} (s : ChangeService) (id : string) (refuse : code -> A) (k : Run -> op A) : op A :=
  if negb (cs_store s) then Ret (refuse Internal)
  else
    let! r := call (LGetRun id) in
    match y_err r, y_run r with
    | Some _, _ => Ret (refuse Internal)
    | None, None => Ret (refuse NotFound)
    | None, Some run => k run
    end.

Definition authorized {A} (s : ChangeService) (c : ctx) (run : Run) (action : string) (refuse : code -> A) (k : op A) : op A :=
  let! d := authorize s c run action in
  match d with Some e => Ret (refuse e) | None => k end.

(** ** Stored plans *)

(** [verifyStoredPlanHash]; the plan of the artifact when it checks. *)
Definition storedPlan (r : Run) : option Plan.Plan :=
  match decodePlan (r_PlanJSON r) with
  | Some p => if VerifyHash p (r_PlanHash r) then Some p else None
  | None => None
  end.
Definition verifyStoredPlanHash (r : Run) : bool := match storedPlan r with Some _ => true | None => false end.

Definition loadStoredPlan (id : string) : op (goerr + Plan.Plan) :=
  let! r := call (LGetRun id) in
  Ret match y_err r, y_run r with
      | Some e, _ => inl (EWrap "wiring: get run" e)
      | None, None => inl (EText ("wiring: change " +:+ id +:+ " not found"))
      | None, Some run =>
          if String.eqb (r_PlanJSON run) "" then inl (EText ("wiring: change " +:+ id +:+ " has no persisted plan"))
          else match storedPlan run with
               | Some p => inr p
               | None => inl (EText ("wiring: stored plan for " +:+ id +:+ " is corrupt or does not match its plan hash"))
               end
      end.

Definition withMaxConcurrency (p : Plan.Plan) (n : Z) : Plan.Plan :=
  Plan.MkPlan (Plan.p_ID p) (Plan.p_WorkflowName p)
    (map (fun b => Plan.MkBatch (Plan.b_Index b) (Plan.b_Targets b) (Plan.b_Steps b) n (Plan.b_Gate b)) (Plan.p_Batches p))
    (Plan.p_TotalTargets p) (Plan.p_CreatedAt p) (Plan.p_RiskScore p) (Plan.p_RiskFactors p) (Plan.p_ApprovalFloor p)
    (Plan.p_Approval p) (Plan.p_Rollback p) (Plan.p_Gate p) (Plan.p_RunSnapshot p).

Definition narrowPlan (p : Plan.Plan) (hosts : list string) : Plan.Plan :=
  let kept := omap (fun b =>
    match filter (fun t => inSet hosts t = true) (Plan.b_Targets b) with
    | [] => None
    | keep => Some (Plan.MkBatch (Plan.b_Index b) keep (Plan.b_Steps b) (Plan.b_MaxConcurrency b) (Plan.b_Gate b))
    end) (Plan.p_Batches p) in
  Plan.MkPlan (Plan.p_ID p) (Plan.p_WorkflowName p) kept
    (Z.of_nat (length (concat (map Plan.b_Targets kept)))) (Plan.p_CreatedAt p) (Plan.p_RiskScore p) (Plan.p_RiskFactors p)
    (Plan.p_ApprovalFloor p) (Plan.p_Approval p) (Plan.p_Rollback p) (Plan.p_Gate p) None.

Definition globalTargets (p : Plan.Plan) : list string :=
  fold_left (fun out t => if inSet out t then out else out ++ [t]) (concat (map Plan.b_Targets (Plan.p_Batches p))) [].

(** ** Apply *)

Record ApplyResponse := MkApplyResponse { ar_Change : Run; ar_RunId : string; ar_Success : bool }.

Definition ApplyResult : Type := option ApplyResponse * option code.
Definition refuseApply (c : code) : ApplyResult := (None, Some c).

(** [casRunStatus]: won, and the run as the caller now sees it. *)
Definition casRunStatus (run : Run) (final : string) : op (bool * Run) :=
  let! t := now in
  let! r := call (LUpdateRunStatusIf (r_ID run) RunStatus.StatusRunning final t) in
  match y_err r with
  | Some _ => Ret (false, run)
  | None =>
      if y_ok r then Ret (true, withStatus run final t)
      else
        let! l := call (LGetRun (r_ID run)) in
        Ret (false, match y_err l, y_run l with
                    | None, Some latest => withStatus run (r_Status latest) (Dispatch.r_UpdatedAt latest)
                    | _, _ => run
                    end)
  end.

(** [Engine.acquire] with its deferred release. *)
Definition withSlot {A} (refused : A) (body : op A) : op A :=
  let! r := call LSlotAcquire in
  if negb (y_ok r) then Ret refused
  else
    let! out := body in
    let! _ := call LSlotRelease in
    Ret out.

Definition engineFails (e : goerr) : outcome := MkOutcome "" false "" (Some e).

Definition runChange (id : string) (maxConcurrency : Z) : op outcome :=
  withSlot (engineFails (EText ("wiring: refusing to start change " +:+ id)))
    (let! p := loadStoredPlan id in
     match p with
     | inl e => Ret (engineFails e)
     | inr p =>
         let p := if 0 <? maxConcurrency then withMaxConcurrency p maxConcurrency else p in
         let! r := call (LExecutePlan id p false) in
         Ret (y_out r)
     end).

(** The approval that authorises the current plan, if an approval service is wired. *)
Definition planApproved (s : ChangeService) (run : Run) (auto : bool) : op (option code) :=
  match cs_approval s with
  | Some _ =>
      if auto then Ret None
      else
        let! l := onApprovals (Ask (Approval.SListApprovals (r_ID run) "approved") Ret) in
        Ret match Approval.a_err l with
            | Some _ => Some Internal
            | None => if existsb (fun a => (MatchesPlan a (r_PlanHash run)).1) (Approval.a_rows l) then None else Some FailedPrecondition
            end
  | None => Ret None
  end.

Definition verdictStatus (o : outcome) : string :=
  if RunStatus.IsRollbackVerdict (o_phase o) then o_phase o
  else if o_success o then RunStatus.StatusCompleted else RunStatus.StatusFailed.

(** [ApplyChange] once the run is [running]: the engine, then the settlement. *)
Definition drive (c : ctx) (run : Run) (old : string) (maxConcurrency at_ : Z) : op ApplyResult :=
  let! i := call LNewID in
  let! _ := call (LTrace (TraceChain.SCreateTrace
              (Canonical.MkTrace (y_id i) (r_ID run) "apply_started" (actorFromCtx c) "" "" "" at_ ""))) in
  let! _ := call (LPublish (r_ID run) old RunStatus.StatusRunning "apply triggered") in
  let! o := runChange (r_ID run) maxConcurrency in
  let final := match o_err o with Some _ => RunStatus.StatusFailed | None => verdictStatus o end in
  let! '(won, run) := casRunStatus run final in
  if negb won then Ret (Some (MkApplyResponse run (o_runID o) false), Some FailedPrecondition)
  else
    let! _ := call (LPublish (r_ID run) RunStatus.StatusRunning final final) in
    let! _ := sealTraceChain (r_ID run) in
    let! _ := call (LReport (r_ID run) final) in
    match o_err o with
    | Some _ => Ret (Some (MkApplyResponse run (o_runID o) false), Some Internal)
    | None => Ret (Some (MkApplyResponse run (o_runID o) (o_success o)), None)
    end.

Definition ApplyChange (s : ChangeService) (c : ctx) (id : string) (auto dryRun : bool) (maxConcurrency : Z) : op ApplyResult :=
  if negb (cs_store s) then Ret (refuseApply Internal)
  else if dryRun then Ret (refuseApply FailedPrecondition)
  else
    loaded s id refuseApply (fun run =>
    authorized s c run "apply" refuseApply (
      if negb auto && negb (String.eqb (r_Status run) RunStatus.StatusApproved) then Ret (refuseApply FailedPrecondition)
      else if negb (cs_engine s) then Ret (refuseApply FailedPrecondition)
      else if String.eqb (r_PlanJSON run) "" then Ret (refuseApply FailedPrecondition)
      else if negb (verifyStoredPlanHash run) then Ret (refuseApply FailedPrecondition)
      else if Risk.AutoApproveForbidden (r_ApprovalLevel run) && auto then Ret (refuseApply PermissionDenied)
      else
        let! bound := planApproved s run auto in
        match bound with
        | Some e => Ret (refuseApply e)
        | None =>
            let! t := now in
            let! r := call (LUpdateRunStatusIf (r_ID run) (r_Status run) RunStatus.StatusRunning t) in
            match y_err r with
            | Some _ => Ret (refuseApply Internal)
            | None =>
                if y_ok r then drive c (withStatus run RunStatus.StatusRunning t) (r_Status run) maxConcurrency t
                else let! _ := call (LGetRun id) in Ret (refuseApply FailedPrecondition)
            end
        end)).

(** ** Settlement and decisions *)

Inductive SettleState := SettleNone | SettlePending | SettleApproved | SettleRejected | SettleExpired.

#[export] Instance SettleState_eq_dec : EqDecision SettleState.
Proof. solve_decision. Defined.

Definition transitionRunForApproval (run : Run) (status approvalStatus : string) : op (option goerr) :=
  if inSet terminalRunStatuses (r_Status run) && negb (String.eqb (r_Status run) status) then Ret None
  else if String.eqb (r_Status run) status && String.eqb (Dispatch.r_ApprovalStatus run) approvalStatus then Ret None
  else
    let! t := now in
    let! r := call (LUpdateRunApprovalStatusIf (r_ID run) (r_Status run) status approvalStatus t) in
    Ret match y_err r with Some e => Some (EWrap ("settle approval: update run " +:+ r_ID run) e) | None => None end.

(** The verdict the matching rows carry. *)
Definition chainVerdict (matching : list Approval.row) : SettleState :=
  let has st := existsb (fun r => String.eqb (Approval.r_Status r) st) matching in
  if has "rejected" && negb (has "pending") then SettleRejected
  else if has "approved" && negb (has "pending") then SettleApproved
  else if has "pending" then SettlePending
  else SettleExpired.

Definition SettleApproval (s : ChangeService) (runID : string) : op (SettleState * option goerr) :=
  if negb (cs_store s) then Ret (SettleNone, Some (EText "settle approval: store not configured"))
  else
    let! l := onApprovals (Ask (Approval.SListApprovals runID "") Ret) in
    match Approval.a_err l, Approval.a_rows l with
    | Some e, _ => Ret (SettleNone, Some (EWrap "settle approval: list approvals" e))
    | None, [] => Ret (SettleNone, None)
    | None, rows =>
        let! r := call (LGetRun runID) in
        match y_err r, y_run r with
        | Some e, _ => Ret (SettleNone, Some (EWrap "settle approval: get run" e))
        | None, None => Ret (SettleNone, Some (EText ("settle approval: run " +:+ runID +:+ " not found")))
        | None, Some run =>
            match filter (fun a => (MatchesPlan a (r_PlanHash run)).1 = true) rows with
            | [] => Ret (SettleNone, None)
            | matching =>
                match chainVerdict matching with
                | SettleRejected => let! e := transitionRunForApproval run "rejected" "rejected" in Ret (SettleRejected, e)
                | SettleApproved => let! e := transitionRunForApproval run "approved" "approved" in Ret (SettleApproved, e)
                | v => Ret (v, None)
                end
            end
        end
    end.

(** A run read again; [gone] is what its absence leads to. *)
Definition reload (gone : code) (id : string) (k : Run -> op (code + Run)) : op (code + Run) :=
  let! r := call (LGetRun id) in
  match y_err r, y_run r with
  | Some _, _ => Ret (inl Internal)
  | None, Some run => k run
  | None, None => Ret (inl gone)
  end.

(** The vote is the authenticated subject's. *)
Definition voter {A} (c : ctx) (claimed : string) (refuse : code -> A) (k : string -> op A) : op A :=
  if String.eqb (x_subject c) "" then Ret (refuse Unauthenticated)
  else if negb (String.eqb claimed "") && negb (String.eqb claimed (x_subject c)) then Ret (refuse PermissionDenied)
  else k (x_subject c).

(** Vote on the first pending approval of the run. *)
Definition voteOnPending (id : string) (vote : string -> Approval.op (option goerr)) (k : op (code + Run)) : op (code + Run) :=
  let! l := onApprovals (Ask (Approval.SListApprovals id "pending") Ret) in
  match Approval.a_err l, Approval.a_rows l with
  | Some _, _ => Ret (inl Internal)
  | None, [] => Ret (inl FailedPrecondition)
  | None, a :: _ =>
      let! e := onApprovals (vote (Approval.r_ID a)) in
      match e with Some e => Ret (inl (mapApprovalError e)) | None => k end
  end.

Definition ApproveChange (s : ChangeService) (c : ctx) (id claimed comment : string) : op (code + Run) :=
  loaded s id inl (fun run =>
  voter c claimed inl (fun approver =>
  authorized s c run "approve" inl (
    if cs_engine s && String.eqb (r_PlanJSON run) "" then Ret (inl FailedPrecondition)
    else
      let! t := now in
      let old := r_Status run in
      let finish run :=
        let! _ := recordAudit (r_ID run) "approve" approver (r_ID run) RunStatus.StatusApproved t in
        let! _ := call (LPublish (r_ID run) old "approved" comment) in
        Ret (inr run) in
      match cs_approval s with
      | Some svc =>
          voteOnPending id (fun a => Approval.Approve svc a approver) (
            let! '(settled, e) := SettleApproval s id in
            match e with
            | Some _ => Ret (inl Internal)
            | None =>
                if bool_decide (settled = SettlePending) then
                  reload Panicked id (fun run =>
                    let! _ := recordAudit (r_ID run) "approve" approver (r_ID run) "quorum_pending" t in
                    Ret (inr run))
                else reload Panicked id finish
            end)
      | None =>
          let run := withApproval run "approved" "approved" t in
          let! r := call (LUpdateRun run) in
          match y_err r with Some _ => Ret (inl Internal) | None => finish run end
      end))).

Definition RejectChange (s : ChangeService) (c : ctx) (id claimed reason : string) : op (code + Run) :=
  loaded s id inl (fun run =>
  voter c claimed inl (fun rejecter =>
  authorized s c run "approve" inl (
    let! t := now in
    let old := r_Status run in
    let finish run :=
      let! _ := recordAudit (r_ID run) "reject" rejecter (r_ID run) RunStatus.StatusRejected t in
      let! _ := call (LPublish (r_ID run) old "rejected" reason) in
      Ret (inr run) in
    match cs_approval s with
    | Some svc =>
        voteOnPending id (fun a => Approval.Reject svc a rejecter reason) (
          let! '(_, e) := SettleApproval s id in
          match e with Some _ => Ret (inl Internal) | None => reload Panicked id finish end)
    | None =>
        let run := withApproval run "rejected" "rejected" t in
        let! r := call (LUpdateRun run) in
        match y_err r with Some _ => Ret (inl Internal) | None => finish run end
    end))).

(** ** Create, clone, plan *)

Definition priorityOrder : list string := ["low"; "normal"; "high"; "urgent"].
Definition IsPriority (p : string) : bool := inSet priorityOrder p.

Definition newRun (id workflow template params level priority creator env : string) (at_ : Z) : Run :=
  Dispatch.MkRun id workflow template params "" "" "draft" "pending" level priority at_ at_ creator env "".

Definition CreateChange (s : ChangeService) (c : ctx) (workflow template params priority env : string) : op (code + Run) :=
  if negb (cs_store s) then Ret (inl Internal)
  else
    let! d := authorizeResource s c env "plan" in
    match d with
    | Some e => Ret (inl e)
    | None =>
        let! t := now in
        let! i := call LNewID in
        let priority := if String.eqb priority "" then "normal" else priority in
        if negb (IsPriority priority) then Ret (inl InvalidArgument)
        else
          let run := newRun (y_id i) workflow template params "" priority (creatorFromCtx c) env t in
          let! r := call (LCreateRun run) in
          match y_err r with
          | Some _ => Ret (inl Internal)
          | None =>
              let! _ := recordAudit (r_ID run) "create" (Dispatch.r_Creator run) template RunStatus.StatusDraft t in
              Ret (inr run)
          end
    end.

(** [merge]: the source's parameters with the request's laid over them. *)
Definition CloneChange (s : ChangeService) (c : ctx) (source : string) (merge : string -> string) (env : string) : op (code + Run) :=
  loaded s source inl (fun src =>
    let env := if String.eqb env "" then envOf src else env in
    let! d := authorizeResource s c env "plan" in
    match d with
    | Some e => Ret (inl e)
    | None =>
        let! t := now in
        let! i := call LNewID in
        let run := newRun (y_id i) (Dispatch.r_WorkflowName src) (Dispatch.r_TemplateName src) (merge (Dispatch.r_Params src))
                     (r_ApprovalLevel src) (Dispatch.r_Priority src) (creatorFromCtx c) env t in
        let! r := call (LCreateRun run) in
        match y_err r with
        | Some _ => Ret (inl Internal)
        | None =>
            let! _ := recordAudit (r_ID run) "clone" (Dispatch.r_Creator run) source RunStatus.StatusDraft t in
            Ret (inr run)
        end
    end).

(** The declaration the tier and the quorum come from. *)
Definition approvalSpec (p : Plan.Plan) (run : Run) : option Dsl.ApprovalSpec :=
  match Plan.p_Approval p with Some spec => Some spec | None => parseInlineApprovalSpec (Dispatch.r_WorkflowName run) end.

Definition derivedApprovalTier (run : Run) : string :=
  if String.eqb (r_PlanJSON run) "" then ""
  else
    match decodePlan (r_PlanJSON run) with
    | None => ""
    | Some p =>
        let declared := match approvalSpec p run with Some spec => Dsl.ap_Level spec | None => "" end in
        let tier := Risk.MaxLevel declared (Plan.p_ApprovalFloor p) in
        if String.eqb tier "" then Approval.LevelStandard else tier
    end.

(** The chain a planned run asks for: tier, approvers, quorum, whether its
    creator is excluded; or the refusal. *)
Record chainDemand := MkDemand { cd_tier : string; cd_approvers : list string; cd_min : Z; cd_exclude : bool }.

Definition demand (p : Plan.Plan) (run : Run) : goerr + chainDemand :=
  let spec := approvalSpec p run in
  let tier := derivedApprovalTier run in
  let tier := if String.eqb tier "" then Approval.LevelStandard else tier in
  match Approval.MinApproversFor tier with
  | inl e => inl (EWrap "approval kickoff" e)
  | inr min =>
      let approvers := match spec with Some x => Dsl.ap_Approvers x | None => [] end in
      let min := match spec with Some x => Z.max min (Dsl.ap_MinApprovers x) | None => min end in
      let exclude := Approval.ForcesInitiatorExclusion tier || match spec with Some x => Dsl.ap_ExcludeInitiator x | None => false end in
      let approvers :=
        if bool_decide (approvers = []) && negb exclude && (min <=? 1) then [Dispatch.r_Creator run] else approvers in
      let votable := if exclude then withoutIdentity approvers (Dispatch.r_Creator run) else approvers in
      if Z.of_nat (length votable) <? min
      then inl (EWrap (tier +:+ "-level change") (ESentinel ErrApprovalUnderprovisioned))
      else inr (MkDemand tier approvers min exclude)
  end.

Fixpoint mirror (n : nat) (id : string) : op unit :=
  match n with O => Ret tt | S n => let! _ := call (LReport id "approval_created") in mirror n id end.

Definition approvalExpiryFor (s : ChangeService) (tier : string) : op Z :=
  match cs_expiry s with
  | Some f => Ret (f tier)
  | None => let! t := now in Ret (t + 24 * 3600 * 1000000000)
  end.

Definition kickoffApproval (s : ChangeService) (run : Run) : op (option goerr) :=
  match cs_approval s with
  | None => Ret None
  | Some svc =>
      if String.eqb (r_PlanJSON run) "" then Ret None
      else
        match storedPlan run with
        | None => Ret None
        | Some p =>
            match demand p run with
            | inl e => Ret (Some e)
            | inr d =>
                let! _ := onApprovals (Approval.supersede (r_ID run)) in
                let! expires := approvalExpiryFor s (cd_tier d) in
                let! created := onApprovals (Approval.Create svc (Approval.MkCreateRequest "" (r_ID run) (cd_tier d) (cd_approvers d)
                                  (cd_min d) expires (r_PlanHash run) (Dispatch.r_Creator run) (cd_exclude d))) in
                match created with
                | inl _ => Ret None
                | inr a =>
                    let! _ := (if String.eqb (r_ApprovalLevel run) (cd_tier d) then Ret done_
                               else let! t := now in call (LUpdateRun (withLevel run (cd_tier d) t))) in
                    let! t := now in
                    let! _ := recordAudit (r_ID run) "approval_kickoff" "system" (Approval.a_ID a) "success" t in
                    let! _ := mirror (cs_mirrors s) (Approval.a_ID a) in
                    Ret None
                end
            end
        end
  end.

(** The status reset of a re-plan: a new artifact on an approved run. *)
Definition resetApproved (run : Run) (prevHash hash : string) (t : Z) : op (code + Run) :=
  if String.eqb (r_Status run) RunStatus.StatusApproved && negb (String.eqb hash "") && negb (String.eqb hash prevHash) then
    let! r := call (LUpdateRunApprovalStatusIf (r_ID run) RunStatus.StatusApproved RunStatus.StatusDraft "pending" t) in
    Ret match y_err r with
        | Some _ => inl Internal
        | None => if y_ok r then inr (withApproval run RunStatus.StatusDraft "pending" (Dispatch.r_UpdatedAt run)) else inr run
        end
  else Ret (inr run).

(** A deployment without an approval service records the tier itself. *)
Definition recordTier (s : ChangeService) (run : Run) : op (code + Run) :=
  match cs_approval s with
  | Some _ => Ret (inr run)
  | None =>
      let tier := derivedApprovalTier run in
      if String.eqb tier "" || String.eqb (r_ApprovalLevel run) tier then Ret (inr run)
      else
        let run := withLevel run tier (Dispatch.r_UpdatedAt run) in
        let! r := call (LUpdateRun run) in
        Ret match y_err r with Some _ => inl Internal | None => inr run end
  end.

Definition persistPlan (s : ChangeService) (run : Run) (json hash : string) : op (option code) :=
  let prevHash := r_PlanHash run in
  let! t := now in
  let! u := call (LUpdateRunPlan (r_ID run) json hash t) in
  match y_err u with
  | Some _ => Ret (Some Internal)
  | None =>
      let! r := recordTier s (withPlan run json hash t) in
      match r with
      | inl e => Ret (Some e)
      | inr run =>
          let! r := resetApproved run prevHash hash t in
          match r with
          | inl e => Ret (Some e)
          | inr run => let! k := kickoffApproval s run in Ret (match k with Some _ => Some FailedPrecondition | None => None end)
          end
      end
  end.

Definition PlanChange (s : ChangeService) (c : ctx) (id : string) (hosts : list string) (dryRun : bool) : op (code + option (string * string)) :=
  loaded s id inl (fun run =>
  authorized s c run "plan" inl (
    let! f := call (LValidateNotFrozen hosts) in
    match y_err f with
    | Some _ => Ret (inl FailedPrecondition)
    | None =>
        if negb (cs_engine s) then Ret (inr None)
        else
          let! g := call (LGeneratePlan id hosts) in
          match y_err g with
          | Some e =>
              Ret (inl (if errors_Is e ErrWindowClosed || errors_Is e ErrGateNotExecutable || errors_Is e ErrFrozen
                        then FailedPrecondition else Internal))
          | None =>
              match y_stored g with
              | Some (json, hash) =>
                  if String.eqb json "" || dryRun then Ret (inr (y_stored g))
                  else let! e := persistPlan s run json hash in
                       Ret (match e with Some e => inl e | None => inr (y_stored g) end)
              | None => Ret (inr None)
              end
          end
    end)).

(** ** Pause manager *)

Definition ErrRunNotFound := "pause: run not found".
Definition ErrNotPausable := "pause: run is not in a pausable state".
Definition ErrNotResumable := "pause: run is not paused".
Definition ErrPermissionDenied := "pause: permission denied".
Definition ErrPauseEmptyRunID := "pause: empty run id".
Definition ErrEmptyActor := "pause: empty actor".
Definition PermissionPauseAll := "pause:all".
Definition PermissionResumeAll := "resume:all".
Definition pausableStates : list string := [RunStatus.StatusRunning; RunStatus.StatusPending].
Definition resumableStates : list string := [RunStatus.StatusPaused].
Definition TargetAll := "*".

(** [writeAudit]; its failure is only logged. *)
Definition writeAudit (action actor target result runID : string) : op unit :=
  let! i := call LNewID in
  match y_err i with
  | Some _ => Ret tt
  | None =>
      let! t := now in
      let! _ := onAudits (AuditLog.Record_ raw fuel (Some (AuditLog.MkAudit (y_id i) runID action actor target result "" "" "" t))) in
      Ret tt
  end.

Definition transitionOne (action runID actor : string) (allowed : list string) (target stateErr : string) : op (option goerr) :=
  let! r := call (LGetRun runID) in
  match y_err r, y_run r with
  | Some e, _ => Ret (Some (EWrap "pause: get run" e))
  | None, None => Ret (Some (ESentinel ErrRunNotFound))
  | None, Some run =>
      if negb (inSet allowed (r_Status run)) then Ret (Some (EWrap ("status " +:+ r_Status run) (ESentinel stateErr)))
      else
        let! t := now in
        let! u := call (LUpdateRun (withStatus run target t)) in
        match y_err u with
        | Some e => Ret (Some (EWrap "pause: update run" e))
        | None => let! _ := writeAudit action actor runID "success" runID in Ret None
        end
  end.

Definition PauseRun (runID actor : string) : op (option goerr) :=
  if String.eqb runID "" then Ret (Some (ESentinel ErrPauseEmptyRunID))
  else if String.eqb actor "" then Ret (Some (ESentinel ErrEmptyActor))
  else transitionOne "pause" runID actor pausableStates RunStatus.StatusPaused ErrNotPausable.

Definition ResumeRun (runID actor : string) : op (option goerr) :=
  if String.eqb runID "" then Ret (Some (ESentinel ErrPauseEmptyRunID))
  else if String.eqb actor "" then Ret (Some (ESentinel ErrEmptyActor))
  else transitionOne "resume" runID actor resumableStates RunStatus.StatusRunning ErrNotResumable.

Record PauseResult := MkPauseResult { pr_Affected : list string; pr_Failed : list string }.

(** The runs of each source status, none twice. *)
Fixpoint collectRuns (sources : list string) (acc : list Run) : op (goerr + list Run) :=
  match sources with
  | [] => Ret (inr acc)
  | st :: rest =>
      let! l := call (LListRuns (Dispatch.MkRunFilter st "" "" "" "" 0 0 "")) in
      match y_err l with
      | Some e => Ret (inl (EWrap ("pause: list runs with status " +:+ st) e))
      | None => collectRuns rest (fold_left (fun acc r => if inSet (map r_ID acc) (r_ID r) then acc else acc ++ [r]) (y_runs l) acc)
      end
  end.

Fixpoint transitionEach (action actor target : string) (runs : list Run) (res : PauseResult) : op PauseResult :=
  match runs with
  | [] => Ret res
  | run :: rest =>
      let! t := now in
      let! u := call (LUpdateRun (withStatus run target t)) in
      match y_err u with
      | Some _ =>
          let! _ := writeAudit action actor (r_ID run) "failed" (r_ID run) in
          transitionEach action actor target rest (MkPauseResult (pr_Affected res) (pr_Failed res ++ [r_ID run]))
      | None =>
          let! _ := writeAudit action actor (r_ID run) "success" (r_ID run) in
          transitionEach action actor target rest (MkPauseResult (pr_Affected res ++ [r_ID run]) (pr_Failed res))
      end
  end.

Definition transitionAll (action actor target : string) (sources : list string) : op (goerr + PauseResult) :=
  let! runs := collectRuns sources [] in
  match runs with
  | inl e => Ret (inl e)
  | inr runs =>
      let! res := transitionEach action actor target runs (MkPauseResult [] []) in
      let! _ := writeAudit action actor TargetAll (match pr_Failed res with [] => "success" | _ => "failed" end) "" in
      Ret (inr res)
  end.

(** [perm]: whether a checker was given. *)
Definition pause_PauseAll (actor : string) (perm : bool) : op (goerr + PauseResult) :=
  if String.eqb actor "" then Ret (inl (ESentinel ErrEmptyActor))
  else if negb perm then Ret (inl (ESentinel ErrPermissionDenied))
  else
    let! p := call (LHasPermission actor PermissionPauseAll) in
    if negb (y_ok p) then Ret (inl (ESentinel ErrPermissionDenied))
    else transitionAll "pause_all" actor RunStatus.StatusPaused [RunStatus.StatusRunning; RunStatus.StatusPending].

Definition pause_ResumeAll (actor : string) (perm : bool) : op (goerr + PauseResult) :=
  if String.eqb actor "" then Ret (inl (ESentinel ErrEmptyActor))
  else if negb perm then Ret (inl (ESentinel ErrPermissionDenied))
  else
    let! p := call (LHasPermission actor PermissionResumeAll) in
    if negb (y_ok p) then Ret (inl (ESentinel ErrPermissionDenied))
    else transitionAll "resume_all" actor RunStatus.StatusRunning [RunStatus.StatusPaused].

(** ** Pause, resume, cancel *)

Definition mapPauseError (e : goerr) : code :=
  if errors_Is e ErrRunNotFound then NotFound
  else if errors_Is e ErrNotPausable || errors_Is e ErrNotResumable then FailedPrecondition
  else if errors_Is e ErrPermissionDenied then PermissionDenied
  else if errors_Is e ErrPauseEmptyRunID || errors_Is e ErrEmptyActor then InvalidArgument
  else Internal.

Definition transitionStatusWith (s : ChangeService) (c : ctx) (id newStatus action reason permissionAction : string) (force : bool) :
    op (code + Run) :=
  loaded s id inl (fun run =>
  authorized s c run permissionAction inl (
    let viaManager (p : op (option goerr)) :=
      let! e := p in
      match e with Some e => Ret (inl (mapPauseError e)) | None => reload NotFound id (fun run => Ret (inr run)) end in
    if cs_pause s && String.eqb newStatus RunStatus.StatusPaused then viaManager (PauseRun id (actorFromCtx c))
    else if cs_pause s && String.eqb newStatus RunStatus.StatusRunning then viaManager (ResumeRun id (actorFromCtx c))
    else if negb force && negb (isValidTransition (r_Status run) newStatus) then Ret (inl FailedPrecondition)
    else
      let! t := now in
      let old := r_Status run in
      let run := withStatus run newStatus t in
      let! u := call (LUpdateRun run) in
      match y_err u with
      | Some _ => Ret (inl Internal)
      | None =>
          let! _ := recordAudit id action (actorFromCtx c) id newStatus t in
          let! _ := call (LPublish id old newStatus reason) in
          let! _ := (if RunStatus.IsTerminal newStatus then sealTraceChain id else Ret tt) in
          Ret (inr run)
      end)).

Definition PauseChange (s : ChangeService) (c : ctx) (id reason : string) : op (code + Run) :=
  transitionStatusWith s c id RunStatus.StatusPaused "pause" reason "pause" false.
Definition ResumeChange (s : ChangeService) (c : ctx) (id reason : string) : op (code + Run) :=
  transitionStatusWith s c id RunStatus.StatusRunning "resume" reason "resume" false.
Definition CancelChange (s : ChangeService) (c : ctx) (id reason : string) (force : bool) : op (code + Run) :=
  transitionStatusWith s c id RunStatus.StatusCancelled "cancel" reason "cancel" force.

Record PauseAllResponse := MkPauseAllResponse { pa_Paused : list string; pa_Skipped : list string }.

(** The loop of [bulkTransition]; [envs] the requested environments. *)
Fixpoint bulkLoop (c : ctx) (target action reason : string) (envs : list string) (t : Z) (runs : list Run) (res : PauseAllResponse) :
    op PauseAllResponse :=
  match runs with
  | [] => Ret res
  | run :: rest =>
      let skip := MkPauseAllResponse (pa_Paused res) (pa_Skipped res ++ [r_ID run]) in
      if negb (bool_decide (envs = [])) && negb (inSet envs (envOf run)) then bulkLoop c target action reason envs t rest res
      else if String.eqb target RunStatus.StatusRunning && negb (String.eqb (r_Status run) RunStatus.StatusPaused)
      then bulkLoop c target action reason envs t rest skip
      else if negb (isValidTransition (r_Status run) target) then bulkLoop c target action reason envs t rest skip
      else
        let! u := call (LUpdateRun (withStatus run target t)) in
        match y_err u with
        | Some _ => bulkLoop c target action reason envs t rest skip
        | None =>
            let! _ := recordAudit (r_ID run) action (actorFromCtx c) (r_ID run) target t in
            let! _ := call (LPublish (r_ID run) (r_Status run) target reason) in
            bulkLoop c target action reason envs t rest (MkPauseAllResponse (pa_Paused res ++ [r_ID run]) (pa_Skipped res))
        end
  end.

Definition bulkTransition (s : ChangeService) (c : ctx) (target action reason : string) (envs : list string) : op (code + PauseAllResponse) :=
  if negb (cs_store s) then Ret (inl Internal)
  else
    let! refusal := (if cs_bulkAuth s then
                       let granted := if String.eqb target RunStatus.StatusRunning then PermissionResumeAll else PermissionPauseAll in
                       let! p := call (LHasPermission (x_subject c) granted) in
                       Ret (if String.eqb (x_subject c) "" then Some Unauthenticated
                            else if y_ok p then None else Some PermissionDenied)
                     else Ret None) in
    match refusal with
    | Some e => Ret (inl e)
    | None =>
        let! l := call (LListRuns (Dispatch.MkRunFilter "" "" "" "" "" 0 0 "")) in
        match y_err l with
        | Some _ => Ret (inl Internal)
        | None =>
            let! t := now in
            let! res := bulkLoop c target action reason envs t (y_runs l) (MkPauseAllResponse [] []) in
            Ret (inr res)
        end
    end.

Definition PauseAll (s : ChangeService) (c : ctx) (envs : list string) (reason : string) : op (code + PauseAllResponse) :=
  bulkTransition s c RunStatus.StatusPaused "pause_all" reason envs.
Definition ResumeAll (s : ChangeService) (c : ctx) (envs : list string) (reason : string) : op (code + PauseAllResponse) :=
  bulkTransition s c RunStatus.StatusRunning "resume_all" reason envs.

(** ** Retry *)

(** [planAuthorised]: whether an approved row attests to the plan. *)
Definition planAuthorised (id hash : string) : op (goerr + bool) :=
  let! l := onApprovals (Ask (Approval.SListApprovals id "approved") Ret) in
  Ret match Approval.a_err l with
      | Some e => inl e
      | None => inr (existsb (fun a => (MatchesPlan a hash).1) (Approval.a_rows l))
      end.

(** The previous plan's pending rows, expired; the text lands in an empty comment. *)
Definition expiredByRetry (at_ : Z) (old : Approval.row) : Approval.row :=
  Approval.MkRow (Approval.r_ID old) (Approval.r_RunID old) (Approval.r_Level old) (Approval.r_Approver old) "expired"
    (match Approval.r_Comment old with Approval.CEmpty => Approval.CText "superseded by retry re-plan" | x => x end)
    (Approval.r_TimeoutAt old) (Some at_) (Approval.r_PlanHash old) (Approval.r_Revision old) (Approval.r_TenantID old).

Fixpoint expireRows (at_ : Z) (l : list Approval.row) : op unit :=
  match l with
  | [] => Ret tt
  | old :: rest => let! _ := call (LAppr (Approval.SUpdateApproval (expiredByRetry at_ old))) in expireRows at_ rest
  end.

Definition reenterApprovalFlow (run : Run) : op (option goerr) :=
  let! t := now in
  let! u := call (LUpdateRun (withApproval run "draft" "pending" t)) in
  match y_err u with
  | Some e => Ret (Some (EWrap ("wiring: re-enter approval flow for " +:+ r_ID run) e))
  | None =>
      let! l := onApprovals (Ask (Approval.SListApprovals (r_ID run) "pending") Ret) in
      match Approval.a_err l with
      | Some e => Ret (Some (EWrap ("wiring: list pending approvals for " +:+ r_ID run) e))
      | None => let! _ := expireRows t (Approval.a_rows l) in Ret None
      end
  end.

(** [retryChange] with the slot held: the plan to execute. *)
Definition replanned (id : string) (hosts : list string) : op (goerr + Plan.Plan) :=
  let! g := call (LGeneratePlan id hosts) in
  match y_err g, y_stored g with
  | Some e, _ => Ret (inl (EWrap "wiring: replan" e))
  | None, None => Ret (inl (EText "wiring: replan"))
  | None, Some (json, hash) =>
      let! a := planAuthorised id hash in
      match a with
      | inl e => Ret (inl (EWrap "wiring: replan approval check" e))
      | inr authorised =>
          let! r := call (LGetRun id) in
          match y_err r, y_run r with
          | None, Some run =>
              let! t := now in
              let run := withPlan run json hash t in
              let! u := call (LUpdateRun run) in
              match y_err u with
              | Some e => Ret (inl (EWrap "wiring: persist replan" e))
              | None =>
                  if negb authorised then
                    let! e := reenterApprovalFlow run in
                    Ret (inl match e with Some e => e | None => EWrap ("change " +:+ id) (ESentinel ErrReplanNeedsApproval) end)
                  else loadStoredPlan id
              end
          | _, _ => Ret (inl (EText "wiring: get run for replan"))
          end
      end
  end.

Definition retryPlan (id : string) (replan : bool) (targetHosts : list string) : op (goerr + Plan.Plan) :=
  let! p := loadStoredPlan id in
  match p with
  | inl e => Ret (inl e)
  | inr p =>
      if replan then replanned id (match targetHosts with [] => globalTargets p | _ => targetHosts end)
      else
        match targetHosts with
        | [] => Ret (inl (EText "wiring: retry without replan requires an explicit host subset"))
        | _ =>
            let p := narrowPlan p targetHosts in
            Ret (match Plan.p_Batches p with
                 | [] => inl (EText "wiring: retry hosts match no batch of the stored plan")
                 | _ => inr p
                 end)
        end
  end.

(** The status a retry settles on. *)
Definition retryFinal (o : outcome) : string :=
  if inSet ["rolled_back"; "rolled_back_partial"; "rollback_incomplete"] (o_phase o) then o_phase o
  else if bool_decide (o_err o = None) && String.eqb (o_phase o) "completed" then RunStatus.StatusCompleted
  else RunStatus.StatusFailed.

Definition joinErr (e : option goerr) (x : goerr) : option goerr :=
  match e with Some e => Some (EWrap2 "" e x) | None => Some x end.

(** The execution of the chosen plan, from the status the run has by then. *)
Definition redrive (id : string) (p : Plan.Plan) : op (option goerr) :=
  let! r := call (LGetRun id) in
  match y_err r, y_run r with
  | None, Some run =>
      let old := r_Status run in
      let! t := now in
      let! c := call (LUpdateRunStatusIf id old RunStatus.StatusRunning t) in
      match y_err c with
      | Some e => Ret (Some (EWrap "wiring: retry transition" e))
      | None =>
          if negb (y_ok c) then Ret (Some (EText ("wiring: retry refused: change " +:+ id +:+ " status changed concurrently")))
          else
            let! x := call (LExecutePlan id p (String.eqb old RunStatus.StatusInterrupted)) in
            let o := y_out x in
            let! t := now in
            let! f := call (LUpdateRunStatusIf id RunStatus.StatusRunning (retryFinal o) t) in
            let err := match y_err f with
                       | Some e => joinErr (o_err o) (EWrap "wiring: retry final status write" e)
                       | None => if y_ok f then o_err o
                                 else joinErr (o_err o) (EText ("wiring: retry verdict superseded: change " +:+ id))
                       end in
            let! i := call LNewID in
            let! t := now in
            let! _ := call (LTrace (TraceChain.SCreateTrace (Canonical.MkTrace (y_id i) id "retry_finished" "engine" "" "" "" t ""))) in
            let! _ := sealTraceChain id in
            Ret err
      end
  | _, _ => Ret (Some (EText "wiring: get run for retry"))
  end.

Definition retryChange (id : string) (replan : bool) (targetHosts : list string) : op (option goerr) :=
  withSlot (Some (EText ("wiring: refusing to start change " +:+ id)))
    (let! p := retryPlan id replan targetHosts in
     match p with inl e => Ret (Some e) | inr p => redrive id p end).

Definition RetryChange (s : ChangeService) (c : ctx) (id : string) (replan : bool) (targetHosts : list string) : op (code + Run) :=
  loaded s id inl (fun run =>
  authorized s c run "apply" inl (
    if negb (RunStatus.InRetryAdmitted (r_Status run)) then Ret (inl FailedPrecondition)
    else
      let! u := onAudits (AuditLog.RunUsage (r_ID run)) in
      match u with
      | inl _ => Ret (inl Internal)
      | inr n =>
          if AuditLog.Exhausted n then Ret (inl ResourceExhausted)
          else
            let old := r_Status run in
            if cs_engine s then
              let! e := retryChange id replan targetHosts in
              match e with
              | Some e => Ret (inl (if errors_Is e ErrReplanNeedsApproval then FailedPrecondition else Internal))
              | None =>
                  reload NotFound id (fun run =>
                    let! t := now in
                    let! _ := recordAudit (r_ID run) "retry" (actorFromCtx c) (r_ID run) (r_Status run) t in
                    let! _ := call (LPublish (r_ID run) old (r_Status run) "retry finished") in
                    Ret (inr run))
              end
            else
              let! t := now in
              let run := withStatus run "draft" t in
              let! w := call (LUpdateRun run) in
              match y_err w with
              | Some _ => Ret (inl Internal)
              | None =>
                  let! _ := recordAudit (r_ID run) "retry" (actorFromCtx c) (r_ID run) "draft" t in
                  let! _ := call (LPublish (r_ID run) old "draft" "retry triggered") in
                  Ret (inr run)
              end
      end)).

Fixpoint exhaustedHosts (runID : string) (hosts : list string) (acc : list string) : op (goerr + list string) :=
  match hosts with
  | [] => Ret (inr acc)
  | h :: rest =>
      let! u := onAudits (AuditLog.HostUsage runID h) in
      match u with
      | inl e => Ret (inl e)
      | inr n => exhaustedHosts runID rest (if AuditLog.Exhausted n then acc ++ [h] else acc)
      end
  end.

Fixpoint recordHosts (c : ctx) (run : Run) (hosts : list string) (t : Z) : op unit :=
  match hosts with
  | [] => Ret tt
  | h :: rest =>
      let! _ := recordAudit (r_ID run) "retry_host" (actorFromCtx c) (AuditLog.AuditTargetHost (r_ID run) h) (r_Status run) t in
      recordHosts c run rest t
  end.

Definition RetryHost (s : ChangeService) (c : ctx) (id : string) (hosts : list string) : op (code + Run) :=
  loaded s id inl (fun run =>
    if bool_decide (hosts = []) then Ret (inl InvalidArgument)
    else
      authorized s c run "apply" inl (
        let! x := exhaustedHosts (r_ID run) hosts [] in
        match x with
        | inl _ => Ret (inl Internal)
        | inr (_ :: _) => Ret (inl ResourceExhausted)
        | inr [] =>
            let! e := (if cs_engine s then retryChange id false hosts else Ret None) in
            match e with
            | Some _ => Ret (inl Internal)
            | None =>
                let! t := now in
                let! _ := recordHosts c run hosts t in
                Ret (inr run)
            end
        end)).

(** ** Roll back, archive *)

(** [rollbackChange] up to the rollback itself; the id of the rollback run. *)
Definition rollbackChange (id : string) (dryRun : bool) : op (string * option goerr) :=
  withSlot ("", Some (EText ("wiring: refusing to start change " +:+ id)))
    (let! p := loadStoredPlan id in
     match p with
     | inl e => Ret ("", Some e)
     | inr p => let! r := call (LRollback id p dryRun) in Ret (y_id r, y_err r)
     end).

Record RollbackResponse := MkRollbackResponse { rr_Change : Run; rr_RunId : string; rr_Success : bool }.

Definition settleRollback (c : ctx) (run : Run) (old newStatus target message : string) (auditAt writeAt : Z) (success : bool) :
    op (code + RollbackResponse) :=
  let run := withStatus run newStatus writeAt in
  let! u := call (LUpdateRun run) in
  match y_err u with
  | Some _ => Ret (inl Internal)
  | None =>
      let! _ := recordAudit (r_ID run) "rollback" (actorFromCtx c) target newStatus auditAt in
      let! _ := call (LPublish (r_ID run) old newStatus message) in
      Ret (inr (MkRollbackResponse run target success))
  end.

Definition RollbackChange (s : ChangeService) (c : ctx) (id runId : string) (auto dryRun : bool) : op (code + RollbackResponse) :=
  loaded s id inl (fun run =>
  authorized s c run "rollback" inl (
    if negb (RunStatus.InRollbackAdmitted (r_Status run)) then Ret (inl FailedPrecondition)
    else if Risk.AutoApproveForbidden (r_ApprovalLevel run) && auto then Ret (inl PermissionDenied)
    else
      let! t := now in
      let old := r_Status run in
      if cs_engine s then
        let! '(rbID, err) := rollbackChange id dryRun in
        let incomplete := match err with Some e => errors_Is e ErrIncomplete | None => false end in
        if negb incomplete && negb (bool_decide (err = None)) then Ret (inl Internal)
        else if dryRun then Ret (inr (MkRollbackResponse run "" true))
        else
          let! w := now in
          if incomplete
          then settleRollback c run old RunStatus.StatusRollbackIncomplete rbID "rollback incomplete" t w false
          else settleRollback c run old RunStatus.StatusRolledBack rbID "rollback completed" t w true
      else if dryRun then Ret (inr (MkRollbackResponse run "" true))
      else settleRollback c run old "rolled_back" (if String.eqb runId "" then r_ID run else runId) "rollback completed" t t true)).

Definition ArchiveChange (s : ChangeService) (c : ctx) (id : string) (purge : bool) : op (code + Run) :=
  loaded s id inl (fun run =>
    if String.eqb (r_Status run) "archived" then Ret (inr run)
    else
      authorized s c run "admin" inl (
        if String.eqb (r_Status run) "running" || String.eqb (r_Status run) "paused" then Ret (inl FailedPrecondition)
        else
          let! t := now in
          let old := r_Status run in
          let run := withStatus run "archived" t in
          let! u := call (LUpdateRun run) in
          match y_err u with
          | Some _ => Ret (inl Internal)
          | None =>
              let! _ := (if purge then call (LPurgeArtifacts id) else Ret done_) in
              let! _ := recordAudit (r_ID run) "archive" (actorFromCtx c) (r_ID run) RunStatus.StatusArchived t in
              let! _ := call (LPublish (r_ID run) old "archived" "archived") in
              Ret (inr run)
          end)).

End service.

End Lifecycle.
