(* ===== verification/Governance.v ===== *)
(** * Governance: what the change service guarantees

    Theorems about the handlers of Lifecycle.v: run rows stay well formed and
    executions are bounded by approvals under every interleaving of the handlers
    and every store failure; what one apply and one settlement do when nothing
    interferes; what chain a plan asks for. The examples at the end are the
    interleavings and requests the guarantees have to exclude. *)

From Stdlib Require Import ZArith Lia.
From stdpp Require Import base gmap strings list sorting relations.
From S2P Require Import Prelude RunStatus Risk Dsl Plan Concur Rely Approval Canonical TraceChain AuditLog Dispatch Lifecycle.
Import Concur Rely Lifecycle.
Open Scope string_scope.
Open Scope list_scope.

Module Governance.
#[local] Existing Instance Dispatch.newestFirst_dec.
Create HintDb governance.
Local Open Scope levee_scope.
Local Open Scope Z_scope.

(** A statement takes effect and answers, takes effect and its answer is lost, or
    fails; what no table answers is arbitrary. *)
Inductive sem (w : world) (s : stmt) : world -> ans -> Prop :=
| sem_exec orc : sem w s (exec orc w s).1 (exec orc w s).2
| sem_lost orc e : sem w s (exec orc w s).1 (fails e)
| sem_fail e : sem w s w (fails e).

(** ** Rows stay well formed *)

Definition approvalStatuses : list string := ["pending"; "approved"; "rejected"].

Definition wellFormed (r : Run) : Prop :=
  RunStatus.IsValid (r_Status r) = true /\ inSet approvalStatuses (Dispatch.r_ApprovalStatus r) = true.

Definition tableOk (w : world) : Prop := forall k r, w_runs w !! k = Some r -> r_ID r = k /\ wellFormed r.

(** What a statement may write, and what a read then answers. *)
Definition writesOk (c : stmt) : Prop :=
  match c with
  | LCreateRun r | LUpdateRun r => wellFormed r
  | LUpdateRunStatusIf _ _ to _ => RunStatus.IsValid to = true
  | LUpdateRunApprovalStatusIf _ _ to appr _ => RunStatus.IsValid to = true /\ inSet approvalStatuses appr = true
  | _ => True
  end.

Definition readsOk (c : stmt) (r : ans) : Prop :=
  match c with
  | LGetRun id => forall run, y_run r = Some run -> r_ID run = id /\ wellFormed run
  | LListRuns _ => Forall wellFormed (y_runs r)
  | _ => True
  end.

Lemma setRuns_ok w m : (forall k r, m !! k = Some r -> r_ID r = k /\ wellFormed r) -> tableOk (setRuns w m).
Proof. done. Qed.

Lemma insert_ok w k r : tableOk w -> r_ID r = k -> wellFormed r -> tableOk (setRuns w (<[k := r]> (w_runs w))).
Proof. intros Hw Hk Hr i x. cbn [w_runs setRuns]. intros [[<- <-]|[_ Hi]]%lookup_insert_Some; [done|by apply Hw]. Qed.

Lemma casRun_ok w id from f :
  tableOk w -> (forall r, w_runs w !! id = Some r -> r_ID (f r) = id /\ wellFormed (f r)) -> tableOk (casRun w id from f).1.
Proof.
  intros Hw Hf. unfold casRun. destruct (w_runs w !! id) as [r|] eqn:E; [|done]. destruct (String.eqb (r_Status r) from); [|done].
  destruct (Hf r eq_refl). by apply insert_ok.
Qed.

Lemma setRun_ok w id f :
  tableOk w -> (forall r, w_runs w !! id = Some r -> r_ID (f r) = id /\ wellFormed (f r)) -> tableOk (setRun w id f).1.
Proof.
  intros Hw Hf. unfold setRun. destruct (w_runs w !! id) as [r|] eqn:E; [|done]. destruct (Hf r eq_refl). by apply insert_ok.
Qed.

Lemma exec_ok orc w c : tableOk w -> writesOk c -> tableOk (exec orc w c).1.
Proof.
  intros Hw Hc. destruct c; cbn [exec]; try done.
  - destruct (w_runs w !! r_ID r) as [x|] eqn:E; [done|]. by apply insert_ok.
  - apply setRun_ok; [done|]. intros old Ho. by destruct (Hw _ _ Ho).
  - apply casRun_ok; [done|]. intros r Hr. by destruct (Hw _ _ Hr) as [? [??]].
  - apply casRun_ok; [done|]. intros r Hr. by destruct (Hw _ _ Hr) as [? [??]].
  - apply setRun_ok; [done|]. intros r Hr. by destruct (Hw _ _ Hr) as [? [??]].
  - destruct s; try done; by destruct (Approval.dbexec _ _).
  - destruct s; try done; by destruct (TraceChain.dbexec _ _).
  - destruct s; try done; by destruct (AuditLog.dbexec _ _).
  - by destruct (w_slots w <? w_cap w).
Qed.

Lemma listed_ok w f l : tableOk w -> Dispatch.listRuns f (w_runs w) = inr l -> Forall wellFormed l.
Proof.
  intros Hw Hl. apply Forall_forall. intros r Hr.
  assert (Hin : r ∈ merge_sort Dispatch.newestFirst (filter (fun r => Dispatch.selectsRun f r = true) (map snd (map_to_list (w_runs w))))).
  { unfold Dispatch.listRuns in Hl. destruct (0 <? Dispatch.rf_Limit f); [|by destruct (0 <? Dispatch.rf_Offset f); simplify_eq].
    injection Hl as <-. apply (subseteq_take) in Hr. destruct (0 <? Dispatch.rf_Offset f); [by eapply subseteq_drop|done]. }
  rewrite merge_sort_Permutation in Hin. apply list_elem_of_filter in Hin as [_ Hin].
  apply list_elem_of_fmap in Hin as ([k x] & -> & Hx). apply elem_of_map_to_list in Hx. by apply (Hw k).
Qed.

Lemma sem_ok w c w' r : tableOk w -> writesOk c -> sem w c w' r -> tableOk w' /\ readsOk c r.
Proof.
  intros Hw Hc Hs. destruct Hs as [orc|orc e|e].
  - split; [by apply exec_ok|]. destruct c; try done; cbn.
    + intros run Hr. by apply Hw.
    + destruct (Dispatch.listRuns f (w_runs w)) as [e|l] eqn:E; cbn; [done|]. by eapply listed_ok.
  - split; [by apply exec_ok|]. by destruct c; cbn.
  - split; [done|]. by destruct c; cbn.
Qed.

(** *** The handlers *)

Abbreviation ok := (tame writesOk readsOk).
Abbreviation any_ := (fun _ => True).

Lemma ok_call {A} (Phi : A -> Prop) c (f : ans -> op A) :
  writesOk c -> (forall r, readsOk c r -> ok Phi (f r)) -> ok Phi (pbind (call c) f).
Proof. intros Hc Hf. split; [done|]. intros r Hr. by apply Hf. Qed.

Lemma ok_alone c : writesOk c -> ok any_ (call c).
Proof. by split. Qed.

Lemma ok_bind {A B} (Psi : B -> Prop) (p : op A) (f : A -> op B) : ok any_ p -> (forall a, ok Psi (f a)) -> ok Psi (pbind p f).
Proof. intros Hp Hf. eapply tame_bind; [exact Hp|]. auto. Qed.

Lemma ok_embed {C R A} (wrap : C -> stmt) (read : ans -> R) (p : prog C R A) :
  (forall c, writesOk (wrap c)) -> ok any_ (embed wrap read p).
Proof. intros Hw. induction p as [a|c k IH]; cbn; [done|]. split; [apply Hw|]. auto. Qed.

Lemma ok_appr {A} (p : Approval.op A) : ok any_ (onApprovals p).
Proof. by apply ok_embed. Qed.
Lemma ok_traces {A} (p : TraceChain.op A) : ok any_ (onTraces p).
Proof. by apply ok_embed. Qed.
Lemma ok_audits {A} (p : AuditLog.op A) : ok any_ (onAudits p).
Proof. by apply ok_embed. Qed.

Lemma ok_now : ok any_ now.
Proof. by apply ok_call. Qed.

Lemma ok_loaded {A} (Phi : A -> Prop) s id (refuse : code -> A) (k : Run -> op A) :
  (forall c, Phi (refuse c)) -> (forall run, r_ID run = id -> wellFormed run -> ok Phi (k run)) -> ok Phi (loaded s id refuse k).
Proof.
  intros Hr Hk. unfold loaded. destruct (negb (cs_store s)); [by apply Hr|]. apply ok_call; [done|]. intros r Hq.
  destruct (y_err r); [by apply Hr|]. destruct (y_run r) as [run|] eqn:E; [|by apply Hr]. destruct (Hq run E). by apply Hk.
Qed.

Lemma ok_reload gone id (k : Run -> op (code + Run)) :
  (forall run, r_ID run = id -> wellFormed run -> ok any_ (k run)) -> ok any_ (reload gone id k).
Proof.
  intros Hk. unfold reload. apply ok_call; [done|]. intros r Hq. destruct (y_err r); [done|].
  destruct (y_run r) as [run|] eqn:E; [|done]. destruct (Hq run E). by apply Hk.
Qed.

Lemma valid_consts :
  forall s, s ∈ RunStatus.All -> RunStatus.IsValid s = true.
Proof. intros s Hs. by apply inSet_spec. Qed.

Lemma withStatus_ok r st t : wellFormed r -> RunStatus.IsValid st = true -> wellFormed (withStatus r st t).
Proof. by intros [_ ?] ?. Qed.
Lemma withApproval_ok r st a t : RunStatus.IsValid st = true -> inSet approvalStatuses a = true -> wellFormed (withApproval r st a t).
Proof. done. Qed.
Lemma withPlan_ok r j h t : wellFormed r -> wellFormed (withPlan r j h t).
Proof. by intros [??]. Qed.
Lemma withLevel_ok r l t : wellFormed r -> wellFormed (withLevel r l t).
Proof. by intros [??]. Qed.

Lemma newRun_ok id wf t p l pr cr env at_ : wellFormed (newRun id wf t p l pr cr env at_).
Proof. done. Qed.

#[local] Hint Resolve newRun_ok ok_now ok_appr ok_traces ok_audits withStatus_ok withApproval_ok withPlan_ok withLevel_ok : governance.

(** One step through a handler. *)
Ltac walk1 :=
  match goal with
  | |- tame _ _ _ (Ret _) => exact I
  | |- tame _ _ _ (pbind (call _) _) =>
      apply ok_call; [first [exact I | solve [cbn [writesOk]; eauto with governance] | done] | intros ? ?]
  | |- tame _ _ _ (pbind _ _) => apply ok_bind; [|intros ?]
  | |- tame _ _ _ (call _) => apply ok_alone; first [exact I | solve [cbn [writesOk]; eauto with governance] | done]
  | |- tame _ _ _ (loaded _ _ _ _) => apply ok_loaded; [done|intros ? ? ?]
  | |- tame _ _ _ (reload _ _ _) => apply ok_reload; intros ? ? ?
  | |- tame _ _ _ _ => solve [eauto with governance]
  | |- tame _ _ _ _ => progress cbv zeta
  | |- tame _ _ _ (match _ with _ => _ end) => case_match
  end.
Ltac walk := repeat walk1.

Lemma verdictStatus_valid o : RunStatus.IsValid (verdictStatus o) = true.
Proof.
  unfold verdictStatus. destruct (RunStatus.IsRollbackVerdict (o_phase o)) eqn:E; [|by destruct (o_success o)].
  apply inSet_spec in E. apply inSet_spec. revert E. unfold RunStatus.RollbackVerdicts, RunStatus.All. set_solver.
Qed.

Lemma retryFinal_valid o : RunStatus.IsValid (retryFinal o) = true.
Proof.
  unfold retryFinal. destruct (inSet _ (o_phase o)) eqn:E; [|by destruct (_ && _)].
  apply inSet_spec in E. repeat (apply elem_of_cons in E as [->|E]; [done|]). by apply not_elem_of_nil in E.
Qed.

Section handlers.
Context (raw : string) (fuel : nat) (decodePlan : string -> option Plan.Plan) (VerifyHash : Plan.Plan -> string -> bool)
  (parseInline : string -> option Dsl.ApprovalSpec).

Lemma ok_recordAudit runID action actor target result ts : ok any_ (recordAudit raw fuel runID action actor target result ts).
Proof. unfold recordAudit. walk. Qed.
Lemma ok_writeAudit action actor target result runID : ok any_ (writeAudit raw fuel action actor target result runID).
Proof. unfold writeAudit. walk. Qed.
Lemma ok_seal runID : ok any_ (sealTraceChain raw runID).
Proof. unfold sealTraceChain. walk. Qed.
Lemma ok_authorizeResource s c env action : ok any_ (authorizeResource raw fuel s c env action).
Proof. unfold authorizeResource. walk. Qed.

Lemma ok_authorized {A} (Phi : A -> Prop) s c run action (refuse : code -> A) (k : op A) :
  (forall c, Phi (refuse c)) -> ok Phi k -> ok Phi (authorized raw fuel s c run action refuse k).
Proof.
  intros Hr Hk. unfold authorized, authorize. apply ok_bind; [apply ok_authorizeResource|]. intros [e|]; [by apply Hr|done].
Qed.

Lemma ok_withSlot {A} (refused : A) (body : op A) : ok any_ body -> ok any_ (withSlot refused body).
Proof.
  intros Hb. unfold withSlot. apply ok_call; [done|]. intros r _. destruct (negb (y_ok r)); [done|].
  apply ok_bind; [done|]. intros out. by apply ok_call.
Qed.

Lemma ok_loadStoredPlan id : ok any_ (loadStoredPlan decodePlan VerifyHash id).
Proof. by apply ok_call. Qed.
End handlers.
#[local] Hint Resolve ok_recordAudit ok_writeAudit ok_seal ok_authorizeResource ok_loadStoredPlan : governance.
#[local] Hint Resolve verdictStatus_valid retryFinal_valid : governance.

Ltac walk2 :=
  match goal with
  | |- tame _ _ _ (authorized _ _ _ _ _ _ _ _) => apply ok_authorized; [done|]
  | |- tame _ _ _ (withSlot _ _) => apply ok_withSlot
  | _ => walk1
  end.
Ltac stroll := repeat walk2.

Section requests.
Context (raw : string) (fuel : nat) (decodePlan : string -> option Plan.Plan) (VerifyHash : Plan.Plan -> string -> bool)
  (parseInline : string -> option Dsl.ApprovalSpec).

Lemma ok_casRunStatus run final : RunStatus.IsValid final = true -> ok any_ (casRunStatus run final).
Proof. intros Hf. unfold casRunStatus. stroll. Qed.

Lemma ok_runChange id n : ok any_ (runChange decodePlan VerifyHash id n).
Proof. unfold runChange. stroll. Qed.

Lemma ok_planApproved s run auto : ok any_ (planApproved s run auto).
Proof. unfold planApproved. stroll. Qed.

Lemma ok_drive c run old n t : ok any_ (Lifecycle.drive raw decodePlan VerifyHash c run old n t).
Proof.
  unfold Lifecycle.drive. do 3 (apply ok_call; [done|intros ? _]). apply ok_bind; [apply ok_runChange|]. intros o. cbv zeta.
  apply ok_bind; [apply ok_casRunStatus; destruct (o_err o); [done|apply verdictStatus_valid]|]. intros [won run1]. stroll.
Qed.

Lemma ok_apply s c id auto dry n : ok any_ (ApplyChange raw fuel decodePlan VerifyHash s c id auto dry n).
Proof.
  unfold ApplyChange. stroll; [apply ok_planApproved|apply ok_drive].
Qed.

Lemma ok_transition run st : RunStatus.IsValid st = true -> inSet approvalStatuses st = true -> ok any_ (transitionRunForApproval run st st).
Proof. intros H1 H2. unfold transitionRunForApproval. stroll. Qed.

Lemma ok_settle s id : ok any_ (SettleApproval s id).
Proof. unfold SettleApproval. stroll; by apply ok_transition. Qed.

Lemma ok_voter {A} c claimed (refuse : code -> A) (k : string -> op A) : (forall v, ok any_ (k v)) -> ok any_ (voter c claimed refuse k).
Proof. intros Hk. unfold voter. stroll. Qed.

Lemma ok_vote id vote k : ok any_ k -> ok any_ (voteOnPending id vote k).
Proof. intros Hk. unfold voteOnPending. stroll. Qed.

Lemma ok_approve s c id claimed comment : ok any_ (ApproveChange raw fuel s c id claimed comment).
Proof.
  unfold ApproveChange. stroll. apply ok_voter. intros v. stroll.
  - apply ok_vote. stroll. apply ok_settle.
Qed.

Lemma ok_reject s c id claimed reason : ok any_ (RejectChange raw fuel s c id claimed reason).
Proof. unfold RejectChange. stroll. apply ok_voter. intros v. stroll. apply ok_vote. stroll. apply ok_settle. Qed.

Lemma ok_create s c wf t p pr env : ok any_ (CreateChange raw fuel s c wf t p pr env).
Proof. unfold CreateChange. stroll. Qed.

Lemma ok_clone s c src merge env : ok any_ (CloneChange raw fuel s c src merge env).
Proof. unfold CloneChange. stroll. Qed.

Lemma ok_mirror n id : ok any_ (mirror n id).
Proof. induction n as [|n IH]; cbn [mirror]; stroll. Qed.

Lemma ok_expiry s tier : ok any_ (approvalExpiryFor s tier).
Proof. unfold approvalExpiryFor. stroll. Qed.

Lemma ok_kickoff s run : wellFormed run -> ok any_ (kickoffApproval raw fuel decodePlan VerifyHash parseInline s run).
Proof. intros Hr. unfold kickoffApproval. stroll; first [apply ok_expiry | apply ok_mirror]. Qed.

Definition wfRun (x : code + Run) : Prop := match x with inl _ => True | inr r => wellFormed r end.

Lemma ok_recordTier s run : wellFormed run -> ok wfRun (recordTier decodePlan parseInline s run).
Proof.
  intros Hr. unfold recordTier. destruct (cs_approval s); [done|]. cbv zeta. case_match; [done|].
  apply ok_call; [by apply withLevel_ok|]. intros r _. cbn. destruct (y_err r); [done|by apply withLevel_ok].
Qed.

Lemma ok_resetApproved run prev hash t : wellFormed run -> ok wfRun (resetApproved run prev hash t).
Proof.
  intros Hr. unfold resetApproved. case_match; [|done]. apply ok_call; [done|]. intros r _. cbn.
  destruct (y_err r); [done|]. by destruct (y_ok r).
Qed.

Lemma ok_persist s run json hash : wellFormed run -> ok any_ (persistPlan raw fuel decodePlan VerifyHash parseInline s run json hash).
Proof.
  intros Hr. unfold persistPlan. apply ok_bind; [apply ok_now|]. intros t. apply ok_call; [done|]. intros u _.
  destruct (y_err u); [done|]. eapply tame_bind; [apply ok_recordTier; by apply withPlan_ok|].
  intros [e|r1] H1; [done|]. eapply tame_bind; [by apply ok_resetApproved|]. intros [e|r2] H2; [done|].
  apply ok_bind; [by apply ok_kickoff|]. by intros.
Qed.

Lemma ok_plan s c id hosts dry : ok any_ (PlanChange raw fuel decodePlan VerifyHash parseInline s c id hosts dry).
Proof. unfold PlanChange. stroll. by apply ok_persist. Qed.

Lemma ok_transitionOne action id actor allowed target err : RunStatus.IsValid target = true -> ok any_ (transitionOne raw fuel action id actor allowed target err).
Proof.
  intros Ht. unfold transitionOne. apply ok_call; [done|]. intros r Hr. destruct (y_err r); [done|].
  destruct (y_run r) as [run|] eqn:E; [|done]. destruct (Hr run E). stroll.
Qed.

Lemma ok_PauseRun id actor : ok any_ (PauseRun raw fuel id actor).
Proof. unfold PauseRun. stroll. by apply ok_transitionOne. Qed.
Lemma ok_ResumeRun id actor : ok any_ (ResumeRun raw fuel id actor).
Proof. unfold ResumeRun. stroll. by apply ok_transitionOne. Qed.

Lemma ok_collect sources acc : Forall wellFormed acc ->
  ok (fun x => match x with inl _ => True | inr l => Forall wellFormed l end) (collectRuns sources acc).
Proof.
  revert acc. induction sources as [|st rest IH]; intros acc Hacc; cbn [collectRuns]; [done|].
  apply ok_call; [done|]. intros r Hr. destruct (y_err r); [done|]. apply IH.
  change (Forall wellFormed (y_runs r)) in Hr. revert acc Hacc. induction (y_runs r) as [|x l IHl]; intros acc Hacc; cbn [fold_left]; [done|].
  apply Forall_cons in Hr as [Hx Hl]. apply IHl; [done|]. case_match; [done|]. apply Forall_app. by rewrite Forall_singleton.
Qed.

Lemma ok_each action actor target runs res : RunStatus.IsValid target = true -> Forall wellFormed runs ->
  ok any_ (transitionEach raw fuel action actor target runs res).
Proof. intros Ht Hr. revert res. induction Hr as [|run l Hrun _ IH]; intros res; cbn [transitionEach]; stroll. Qed.

Lemma ok_all action actor target sources : RunStatus.IsValid target = true -> ok any_ (transitionAll raw fuel action actor target sources).
Proof.
  intros Ht. unfold transitionAll. eapply tame_bind; [by apply ok_collect|]. intros [e|l] Hl; [done|].
  apply ok_bind; [by apply ok_each|]. intros ?. stroll.
Qed.

Lemma ok_pauseFleet actor perm : ok any_ (pause_PauseAll raw fuel actor perm).
Proof. unfold pause_PauseAll. stroll. by apply ok_all. Qed.
Lemma ok_resumeFleet actor perm : ok any_ (pause_ResumeAll raw fuel actor perm).
Proof. unfold pause_ResumeAll. stroll. by apply ok_all. Qed.

Lemma ok_transitionStatus s c id st action reason perm force : RunStatus.IsValid st = true ->
  ok any_ (transitionStatusWith raw fuel s c id st action reason perm force).
Proof. intros Hst. unfold transitionStatusWith. stroll; first [apply ok_PauseRun | apply ok_ResumeRun]. Qed.

Lemma ok_bulkLoop c target action reason envs t runs res : RunStatus.IsValid target = true -> Forall wellFormed runs ->
  ok any_ (bulkLoop raw fuel c target action reason envs t runs res).
Proof. intros Ht Hr. revert res. induction Hr as [|run l Hrun _ IH]; intros res; cbn [bulkLoop]; stroll. Qed.

Lemma ok_bulk s c target action reason envs : RunStatus.IsValid target = true -> ok any_ (bulkTransition raw fuel s c target action reason envs).
Proof.
  intros Ht. unfold bulkTransition. destruct (negb (cs_store s)); [done|]. apply ok_bind; [stroll|]. intros [e|]; [done|].
  apply ok_call; [done|]. intros r Hr. destruct (y_err r); [done|]. apply ok_bind; [apply ok_now|]. intros t.
  apply ok_bind; [by apply ok_bulkLoop|]. by intros.
Qed.

Lemma ok_expireRows t l : ok any_ (expireRows t l).
Proof. induction l; cbn [expireRows]; stroll. Qed.

Lemma ok_reenter run : ok any_ (reenterApprovalFlow run).
Proof. unfold reenterApprovalFlow. stroll. apply ok_expireRows. Qed.

Lemma ok_planAuthorised id hash : ok any_ (planAuthorised id hash).
Proof. unfold planAuthorised. stroll. Qed.

Lemma ok_replanned id hosts : ok any_ (replanned decodePlan VerifyHash id hosts).
Proof.
  unfold replanned. apply ok_call; [done|]. intros g _. destruct (y_err g); [done|]. destruct (y_stored g) as [[json hash]|]; [|done].
  apply ok_bind; [apply ok_planAuthorised|]. intros [e|auth]; [done|]. apply ok_call; [done|]. intros r Hr.
  destruct (y_err r); [done|]. destruct (y_run r) as [run|] eqn:E; [|done]. destruct (Hr run E). stroll. apply ok_reenter.
Qed.

Lemma ok_retryPlan id replan hosts : ok any_ (retryPlan decodePlan VerifyHash id replan hosts).
Proof. unfold retryPlan. stroll; apply ok_replanned. Qed.

Lemma ok_redrive id p : ok any_ (redrive raw id p).
Proof. unfold redrive. stroll. Qed.

Lemma ok_retryChange id replan hosts : ok any_ (retryChange raw decodePlan VerifyHash id replan hosts).
Proof. unfold retryChange. stroll; first [apply ok_retryPlan | apply ok_redrive]. Qed.

Lemma ok_retry s c id replan hosts : ok any_ (RetryChange raw fuel decodePlan VerifyHash s c id replan hosts).
Proof. unfold RetryChange. stroll. apply ok_retryChange. Qed.

Lemma ok_exhausted id hosts acc : ok any_ (exhaustedHosts id hosts acc).
Proof. revert acc. induction hosts; intros acc; cbn [exhaustedHosts]; stroll. Qed.

Lemma ok_recordHosts c run hosts t : ok any_ (recordHosts raw fuel c run hosts t).
Proof. induction hosts; cbn [recordHosts]; stroll. Qed.

Lemma ok_retryHost s c id hosts : ok any_ (RetryHost raw fuel decodePlan VerifyHash s c id hosts).
Proof. unfold RetryHost. stroll; first [apply ok_exhausted | apply ok_retryChange | apply ok_recordHosts]. Qed.

Lemma ok_rollbackChange id dry : ok any_ (rollbackChange decodePlan VerifyHash id dry).
Proof. unfold rollbackChange. stroll. Qed.

Lemma ok_settleRollback c run old st target msg a b success : wellFormed run -> RunStatus.IsValid st = true ->
  ok any_ (settleRollback raw fuel c run old st target msg a b success).
Proof. intros Hr Hst. unfold settleRollback. stroll. Qed.

Lemma ok_rollback s c id runId auto dry : ok any_ (RollbackChange raw fuel decodePlan VerifyHash s c id runId auto dry).
Proof. unfold RollbackChange. stroll; first [apply ok_rollbackChange | by apply ok_settleRollback]. Qed.

Lemma ok_archive s c id purge : ok any_ (ArchiveChange raw fuel s c id purge).
Proof. unfold ArchiveChange. stroll. Qed.

(** Every request, as a program that forgets its answer. *)
Inductive request :=
| QCreate (s : ChangeService) (c : ctx) (workflow template params priority env : string)
| QClone (s : ChangeService) (c : ctx) (source : string) (merge : string -> string) (env : string)
| QPlan (s : ChangeService) (c : ctx) (id : string) (hosts : list string) (dryRun : bool)
| QApply (s : ChangeService) (c : ctx) (id : string) (auto dryRun : bool) (maxConcurrency : Z)
| QApprove (s : ChangeService) (c : ctx) (id claimed comment : string)
| QReject (s : ChangeService) (c : ctx) (id claimed reason : string)
| QSettle (s : ChangeService) (id : string)
| QPause (s : ChangeService) (c : ctx) (id reason : string)
| QResume (s : ChangeService) (c : ctx) (id reason : string)
| QCancel (s : ChangeService) (c : ctx) (id reason : string) (force : bool)
| QPauseAll (s : ChangeService) (c : ctx) (envs : list string) (reason : string)
| QResumeAll (s : ChangeService) (c : ctx) (envs : list string) (reason : string)
| QPauseFleet (actor : string) (perm : bool)
| QResumeFleet (actor : string) (perm : bool)
| QRetry (s : ChangeService) (c : ctx) (id : string) (replan : bool) (hosts : list string)
| QRetryHost (s : ChangeService) (c : ctx) (id : string) (hosts : list string)
| QRollback (s : ChangeService) (c : ctx) (id runId : string) (auto dryRun : bool)
| QArchive (s : ChangeService) (c : ctx) (id : string) (purge : bool)
| QTakeover (id : string) (at_ : Z).

Definition forget {A} (p : op A) : op unit := let! _ := p in Ret tt.

Definition progOf (q : request) : op unit :=
  match q with
  | QCreate s c wf t p pr env => forget (CreateChange raw fuel s c wf t p pr env)
  | QClone s c src merge env => forget (CloneChange raw fuel s c src merge env)
  | QPlan s c id hosts dry => forget (PlanChange raw fuel decodePlan VerifyHash parseInline s c id hosts dry)
  | QApply s c id auto dry n => forget (ApplyChange raw fuel decodePlan VerifyHash s c id auto dry n)
  | QApprove s c id claimed comment => forget (ApproveChange raw fuel s c id claimed comment)
  | QReject s c id claimed reason => forget (RejectChange raw fuel s c id claimed reason)
  | QSettle s id => forget (SettleApproval s id)
  | QPause s c id reason => forget (PauseChange raw fuel s c id reason)
  | QResume s c id reason => forget (ResumeChange raw fuel s c id reason)
  | QCancel s c id reason force => forget (CancelChange raw fuel s c id reason force)
  | QPauseAll s c envs reason => forget (PauseAll raw fuel s c envs reason)
  | QResumeAll s c envs reason => forget (ResumeAll raw fuel s c envs reason)
  | QPauseFleet actor perm => forget (pause_PauseAll raw fuel actor perm)
  | QResumeFleet actor perm => forget (pause_ResumeAll raw fuel actor perm)
  | QRetry s c id replan hosts => forget (RetryChange raw fuel decodePlan VerifyHash s c id replan hosts)
  | QRetryHost s c id hosts => forget (RetryHost raw fuel decodePlan VerifyHash s c id hosts)
  | QRollback s c id runId auto dry => forget (RollbackChange raw fuel decodePlan VerifyHash s c id runId auto dry)
  | QArchive s c id purge => forget (ArchiveChange raw fuel s c id purge)
  | QTakeover id at_ => forget (call (LUpdateRunStatusIf id RunStatus.StatusRunning RunStatus.StatusInterrupted at_))
  end.


Lemma ok_forget {A} (p : op A) : ok any_ p -> ok any_ (forget p).
Proof. intros Hp. unfold forget. by apply ok_bind. Qed.

Lemma ok_request q : ok any_ (progOf q).
Proof.
  destruct q; cbn [progOf]; apply ok_forget.
  all: first [apply ok_create | apply ok_clone | apply ok_plan | apply ok_apply | apply ok_approve | apply ok_reject | apply ok_settle
             | by apply ok_transitionStatus | by apply ok_bulk | apply ok_pauseFleet | apply ok_resumeFleet | apply ok_retry
             | apply ok_retryHost | apply ok_rollback | apply ok_archive | by apply ok_alone].
Qed.

(** C19: run rows stay well formed: whatever requests of the service, the fleet
    pauses and the cluster takeover run at once, in any interleaving and with any
    statements failing or losing their answers, every row keeps its id, a status of
    the run vocabulary and an approval status of its own. *)
Theorem runs_stay_well_formed (qs : list request) (w : world) (ths : list (op unit)) (w' : world)
    (Hw : tableOk w) (Hrun : rtc (step sem) (map progOf qs, w) (ths, w')) :
  tableOk w'.
Proof.
  eapply (tame_system sem writesOk readsOk any_ tableOk sem_ok (map progOf qs) w (ths, w')); [|done|exact Hrun].
  apply Forall_map, Forall_forall. intros q _. apply ok_request.
Qed.

End requests.

(** ** Executions are bounded by approvals *)

Definition executes (run : string) (c : stmt) : nat :=
  match c with LExecutePlan id _ _ => if String.eqb id run then 1%nat else 0%nat | _ => 0%nat end.

(** A claim: the compare-and-set from approved to running, won. *)
Definition claims (run : string) (c : stmt) (r : ans) : nat :=
  match c with
  | LUpdateRunStatusIf id from to _ =>
      if String.eqb id run && String.eqb from RunStatus.StatusApproved && String.eqb to RunStatus.StatusRunning && y_ok r then 1%nat else 0%nat
  | _ => 0%nat
  end.

(** A write of [approved] that took effect, or may have. *)
Definition approves (run : string) (c : stmt) (r : ans) : nat :=
  let some id st := if String.eqb id run && String.eqb st RunStatus.StatusApproved then 1%nat else 0%nat in
  match c with
  | LCreateRun x | LUpdateRun x => some (r_ID x) (r_Status x)
  | LUpdateRunStatusIf id _ to _ | LUpdateRunApprovalStatusIf id _ to _ _ =>
      if y_ok r || negb (bool_decide (y_err r = None)) then some id to else 0%nat
  | _ => 0%nat
  end.

Definition executions (run : string) (log : list (entry stmt ans)) : nat := spent (executes run) log.
Definition approvals (run : string) (log : list (entry stmt ans)) : nat := earned (approves run) log.

Definition isApproved (run : string) (w : world) : nat :=
  match w_runs w !! run with
  | Some r => if String.eqb (r_Status r) RunStatus.StatusApproved then 1%nat else 0%nat
  | None => 0%nat
  end.

Lemma isApproved_le run w : (isApproved run w <= 1)%nat.
Proof. unfold isApproved. repeat case_match; lia. Qed.

Lemma isApproved_set run w k r : isApproved run (setRuns w (<[k := r]> (w_runs w))) =
  if String.eqb k run then (if String.eqb (r_Status r) RunStatus.StatusApproved then 1%nat else 0%nat) else isApproved run w.
Proof.
  unfold isApproved. cbn [w_runs setRuns]. destruct (String.eqb_spec k run) as [->|Hne]; [by rewrite lookup_insert_eq|].
  by rewrite lookup_insert_ne by done.
Qed.

(** The effect of a statement on the status of [run]. *)
Lemma exec_approved orc run w c e :
  (isApproved run (exec orc w c).1 + claims run c (exec orc w c).2 <= isApproved run w + approves run c (exec orc w c).2)%nat /\
  (isApproved run (exec orc w c).1 <= isApproved run w + approves run c (fails e))%nat.
Proof.
  destruct c; cbn [exec]; try (cbn; unfold isApproved; cbn; lia).
  - destruct (w_runs w !! r_ID r); cbn [fst snd]; [cbn; lia|]. rewrite isApproved_set. cbn. repeat case_match; simpl in *; lia.
  - unfold setRun. destruct (w_runs w !! r_ID r); cbn [fst snd]; [|cbn; lia]. rewrite isApproved_set. cbn.
    repeat case_match; simpl in *; congruence || lia.
  - unfold casRun. destruct (w_runs w !! id) as [r|] eqn:Hr; cbn [fst snd]; [|cbn; repeat case_match; lia].
    destruct (String.eqb_spec (r_Status r) from) as [Hf|Hf]; cbn [fst snd]; [|cbn; repeat case_match; simpl in *; lia].
    rewrite isApproved_set. cbn -[String.eqb RunStatus.StatusApproved RunStatus.StatusRunning]. unfold isApproved.
    destruct (String.eqb_spec id run) as [->|]; cbn; [rewrite Hr|repeat case_match; lia]. rewrite Hf.
    destruct (String.eqb_spec from RunStatus.StatusApproved), (String.eqb_spec to RunStatus.StatusApproved), (String.eqb_spec to RunStatus.StatusRunning);
      subst; cbn; try done; lia.
  - unfold casRun. destruct (w_runs w !! id) as [r|] eqn:Hr; cbn [fst snd]; [|cbn; repeat case_match; lia].
    destruct (String.eqb_spec (r_Status r) from) as [Hf|Hf]; cbn [fst snd]; [|cbn; repeat case_match; simpl in *; lia].
    rewrite isApproved_set. cbn. repeat case_match; simpl in *; lia.
  - unfold setRun. destruct (w_runs w !! id) as [r|] eqn:Hr; cbn [fst snd]; [|cbn; lia]. rewrite isApproved_set. cbn.
    unfold isApproved. destruct (String.eqb_spec id run) as [->|]; [rewrite Hr|]; lia.
  - destruct s; try (cbn; lia); destruct (Approval.dbexec _ _); cbn; unfold isApproved; cbn; lia.
  - destruct s; try (cbn; lia); destruct (TraceChain.dbexec _ _); cbn; unfold isApproved; cbn; lia.
  - destruct s; try (cbn; lia); destruct (AuditLog.dbexec _ _); cbn; unfold isApproved; cbn; lia.
  - destruct (w_slots w <? w_cap w); cbn; unfold isApproved; cbn; lia.
Qed.

Lemma claims_bounded run w0 (ths ths' : list (op unit)) w log :
  rtc (lstep sem) (ths, w0, []) (ths', w, log) ->
  (earned (claims run) log + isApproved run w <= isApproved run w0 + earned (approves run) log)%nat.
Proof.
  intros Hs. set (I := fun w log => (earned (claims run) log + isApproved run w <= isApproved run w0 + earned (approves run) log)%nat).
  assert (Hall : forall (A : Type) (p : op A), issues (fun _ => True) p) by (intros A p; induction p; cbn; auto).
  assert (Hkeep : forall w log i c w' r, True -> I w log -> sem w c w' r -> I w' (log ++ [(i, c, r)])).
  { clear. intros w log i c w' r _ Hi Hsem. unfold I in *.
    rewrite !earned_snoc. destruct Hsem as [orc|orc e|e].
    - pose proof (exec_approved orc run w c (EText "")) as [H _]. lia.
    - pose proof (exec_approved orc run w c e) as [_ H]. assert (claims run c (fails e) = 0)%nat as ->; [|lia].
      destruct c; try done. cbn. by rewrite andb_false_r.
    - assert (claims run c (fails e) = 0)%nat as ->; [|lia]. destruct c; try done. cbn. by rewrite andb_false_r. }
  destruct (logged_inv sem (fun _ => True) I Hkeep ths w0 [] (ths', w, log)) as [_ H]; [|unfold I; cbn; lia|done|exact H].
  by apply Forall_true.
Qed.

(** *** Who executes *)

Definition calm (c : stmt) : Prop := match c with LExecutePlan _ _ _ => False | _ => True end.

Lemma calm_paid {A} run n (p : op A) : issues calm p -> paid (claims run) (executes run) n p.
Proof.
  revert n. induction p as [a|c k IH]; intros n Hp; cbn; [done|]. destruct Hp as [Hc Hk].
  assert (executes run c = 0%nat) as -> by by destruct c. split; [lia|]. auto.
Qed.

Lemma calm_embed {C R A} (wrap : C -> stmt) (read : ans -> R) (p : prog C R A) : (forall c, calm (wrap c)) -> issues calm (embed wrap read p).
Proof. intros Hw. induction p as [a|c k IH]; cbn; auto. Qed.

Lemma calm_appr {A} (p : Approval.op A) : issues calm (onApprovals p).
Proof. by apply calm_embed. Qed.
Lemma calm_traces {A} (p : TraceChain.op A) : issues calm (onTraces p).
Proof. by apply calm_embed. Qed.
Lemma calm_audits {A} (p : AuditLog.op A) : issues calm (onAudits p).
Proof. by apply calm_embed. Qed.

(** Step through a handler that executes nothing. *)
Ltac calm1 :=
  match goal with
  | |- issues _ (Ret _) => exact I
  | |- issues _ (call _) => split; [exact I|intros ?; exact I]
  | |- issues _ (onApprovals _) => apply calm_appr
  | |- issues _ (onTraces _) => apply calm_traces
  | |- issues _ (onAudits _) => apply calm_audits
  | |- issues _ (pbind _ _) => apply issues_bind; [|intros ?]
  | |- issues _ (match _ with _ => _ end) => case_match
  | |- issues _ _ => solve [eauto with governance]
  | |- issues _ ?p => let h := constr:(p) in let rec hd x := lazymatch x with ?f _ => hd f | _ => x end in let f := hd h in unfold f
  | |- issues _ _ => progress cbv zeta
  end.
Ltac calmly := repeat calm1.

Lemma calm_settle s id : issues calm (SettleApproval s id).
Proof. calmly. Qed.

Section calm.
Context (raw : string) (fuel : nat) (decodePlan : string -> option Plan.Plan) (VerifyHash : Plan.Plan -> string -> bool)
  (parseInline : string -> option Dsl.ApprovalSpec).

Lemma calm_mirror n id : issues calm (mirror n id).
Proof. induction n as [|n IH]; cbn [mirror]; [done|]. by apply issues_bind. Qed.

Lemma calm_recordAudit runID action actor target result ts : issues calm (recordAudit raw fuel runID action actor target result ts).
Proof. calmly. Qed.
Lemma calm_writeAudit action actor target result runID : issues calm (writeAudit raw fuel action actor target result runID).
Proof. calmly. Qed.
Lemma calm_authorized {A} s c run action (refuse : code -> A) k : issues calm k -> issues calm (authorized raw fuel s c run action refuse k).
Proof. intros Hk. unfold authorized. apply issues_bind; [|intros [e|]; done]. calmly. Qed.
Lemma calm_loadStoredPlan id : issues calm (loadStoredPlan decodePlan VerifyHash id).
Proof. by split. Qed.
Lemma calm_loaded {A} s id (refuse : code -> A) k : (forall run, issues calm (k run)) -> issues calm (loaded s id refuse k).
Proof. intros Hk. unfold loaded. destruct (negb (cs_store s)); [done|]. apply issues_bind; [by split|]. intros r. by repeat case_match. Qed.
Lemma calm_kickoff s run : issues calm (kickoffApproval raw fuel decodePlan VerifyHash parseInline s run).
Proof. unfold kickoffApproval, approvalExpiryFor. calmly; first [apply calm_recordAudit | apply calm_mirror]. Qed.

Lemma calm_collect sources acc : issues calm (collectRuns sources acc).
Proof. revert acc. induction sources; intros acc; cbn [collectRuns]; calmly. Qed.
Lemma calm_each action actor target runs res : issues calm (transitionEach raw fuel action actor target runs res).
Proof.
  revert res. induction runs; intros res; cbn [transitionEach]; [done|]. apply issues_bind; [calmly|]. intros t. apply issues_bind; [calmly|].
  intros u. destruct (y_err u); (apply issues_bind; [apply calm_writeAudit|auto]).
Qed.
Lemma calm_bulkLoop c target action reason envs t runs res : issues calm (bulkLoop raw fuel c target action reason envs t runs res).
Proof.
  revert res. induction runs; intros res; cbn [bulkLoop]; [done|]. repeat case_match; auto. apply issues_bind; [calmly|].
  intros u. destruct (y_err u); [auto|]. apply issues_bind; [apply calm_recordAudit|]. intros _. apply issues_bind; [calmly|auto].
Qed.
End calm.

#[local] Hint Resolve calm_recordAudit calm_writeAudit calm_loadStoredPlan calm_kickoff calm_settle calm_collect calm_each calm_bulkLoop : governance.

Ltac calm2 :=
  match goal with
  | |- issues _ (loaded _ _ _ _) => apply calm_loaded; intros ?
  | |- issues _ (authorized _ _ _ _ _ _ _ _) => apply calm_authorized
  | _ => calm1
  end.

Section bound.
Context (raw : string) (fuel : nat) (decodePlan : string -> option Plan.Plan) (VerifyHash : Plan.Plan -> string -> bool)
  (parseInline : string -> option Dsl.ApprovalSpec).

Lemma calm_plan s c id hosts dry : issues calm (PlanChange raw fuel decodePlan VerifyHash parseInline s c id hosts dry).
Proof. repeat calm2. Qed.
Lemma calm_approve s c id claimed comment : issues calm (ApproveChange raw fuel s c id claimed comment).
Proof. repeat calm2. Qed.
Lemma calm_reject s c id claimed reason : issues calm (RejectChange raw fuel s c id claimed reason).
Proof. repeat calm2. Qed.
Lemma calm_transition s c id st action reason perm force : issues calm (transitionStatusWith raw fuel s c id st action reason perm force).
Proof. repeat calm2. Qed.
Lemma calm_bulk s c target action reason envs : issues calm (bulkTransition raw fuel s c target action reason envs).
Proof. repeat calm2. Qed.
Lemma calm_fleet action actor target sources : issues calm (transitionAll raw fuel action actor target sources).
Proof. repeat calm2. Qed.
Lemma calm_rollback s c id runId auto dry : issues calm (RollbackChange raw fuel decodePlan VerifyHash s c id runId auto dry).
Proof. repeat calm2. Qed.
Lemma calm_archive s c id purge : issues calm (ArchiveChange raw fuel s c id purge).
Proof. repeat calm2. Qed.
Lemma calm_create s c wf t p pr env : issues calm (CreateChange raw fuel s c wf t p pr env).
Proof. repeat calm2. Qed.
Lemma calm_clone s c src merge env : issues calm (CloneChange raw fuel s c src merge env).
Proof. repeat calm2. Qed.

(** The apply path pays for its execution with its claim. *)
Lemma runChange_paid run id n : paid (claims run) (executes run) 1 (runChange decodePlan VerifyHash id n).
Proof.
  unfold runChange, withSlot. split; [cbn; lia|]. intros r. cbn [pbind claims executes]. destruct (negb (y_ok r)); [done|].
  apply paid_bind; [|intros out; split; [cbn; lia|done]].
  split; [cbn; lia|]. intros g. cbn [pbind claims executes]. repeat case_match; try done; split; cbn; try done; case_match; lia.
Qed.

Lemma drive_paid run c r old n t : paid (claims run) (executes run) 1 (Lifecycle.drive raw decodePlan VerifyHash c r old n t).
Proof.
  unfold Lifecycle.drive. do 3 (split; [cbn; lia|]; intros ?; cbn [pbind claims executes]). apply paid_bind; [apply runChange_paid|].
  intros o. apply calm_paid. repeat calm2.
Qed.

Lemma drive_other run c r old n t : r_ID r <> run -> issues (fun c => executes run c = 0%nat) (Lifecycle.drive raw decodePlan VerifyHash c r old n t).
Proof.
  intros Hne. assert (Hcalm : forall A (p : op A), issues calm p -> issues (fun c => executes run c = 0%nat) p).
  { intros A p. induction p as [|d k IH]; cbn; [done|]. intros [Hd Hk]. split; [by destruct d|auto]. }
  unfold Lifecycle.drive. do 3 (split; [done|]; intros ?; cbn [pbind]). apply issues_bind; [|intros o; apply Hcalm; repeat calm2].
  unfold runChange, withSlot. split; [done|]. intros s. cbn [pbind]. destruct (negb (y_ok s)); [done|]. apply issues_bind; [|by intros; split].
  split; [done|]. intros g. cbn [pbind]. repeat case_match; try done; split; try done; cbn; by apply String.eqb_neq in Hne as ->.
Qed.

Lemma paid_free {A} run n (p : op A) : issues (fun c => executes run c = 0%nat) p -> paid (claims run) (executes run) n p.
Proof. revert n. induction p as [a|c k IH]; intros n Hp; cbn; [done|]. destruct Hp as [-> Hk]. split; [lia|]. auto. Qed.

Lemma paid_loaded {A} run s id (refuse : code -> A) k :
  (forall r, paid (claims run) (executes run) 0 (k r)) -> paid (claims run) (executes run) 0 (loaded s id refuse k).
Proof. intros Hk. unfold loaded. destruct (negb (cs_store s)); [done|]. split; [cbn; lia|]. intros r. cbn [pbind claims executes]. by repeat case_match. Qed.

Lemma paid_authorized {A} run s c r action (refuse : code -> A) k :
  paid (claims run) (executes run) 0 k -> paid (claims run) (executes run) 0 (authorized raw fuel s c r action refuse k).
Proof.
  intros Hk. unfold authorized. apply paid_bind; [|by intros [e|]]. apply calm_paid. repeat calm2.
Qed.

Lemma apply_paid run s c id dry n : paid (claims run) (executes run) 0 (ApplyChange raw fuel decodePlan VerifyHash s c id false dry n).
Proof.
  unfold ApplyChange. destruct (negb (cs_store s)); [done|]. destruct dry; [done|]. apply paid_loaded. intros r.
  apply paid_authorized. cbn [negb andb]. rewrite andb_false_r.
  destruct (String.eqb_spec (r_Status r) RunStatus.StatusApproved) as [Ha|]; [cbn [negb]|done].
  destruct (negb (cs_engine s)); [done|]. destruct (String.eqb _ ""); [done|]. destruct (negb _); [done|].
  apply paid_bind; [apply calm_paid; repeat calm2|]. intros [e|]; [done|]. apply paid_bind; [apply calm_paid; repeat calm2|]. intros t.
  split; [cbn; lia|]. intros u. cbn [pbind]. rewrite Ha. destruct (y_err u); [done|]. destruct (y_ok u) eqn:Hok; [|by split; [cbn; lia|]].
  destruct (decide (r_ID r = run)) as [<-|Hne].
  - eapply paid_mono; [apply drive_paid|]. cbn. by rewrite Hok, String.eqb_refl.
  - apply paid_free, drive_other. done.
Qed.

(** The requests an approval bounds: every one but retries and applies that ask
    for automatic approval. *)
Definition bounded (q : request) : bool :=
  match q with QApply _ _ _ auto _ _ => negb auto | QRetry _ _ _ _ _ | QRetryHost _ _ _ _ => false | _ => true end.

Lemma request_paid run q : bounded q = true ->
  paid (claims run) (executes run) 0 (progOf raw fuel decodePlan VerifyHash parseInline q).
Proof.
  intros Hq. destruct q; try done; cbn [progOf]; unfold forget; (apply paid_bind; [|done]).
  all: first [destruct auto; [done|]; apply apply_paid | apply calm_paid].
  all: first [apply calm_create | apply calm_clone | apply calm_plan | apply calm_approve | apply calm_reject
             | apply calm_settle | apply calm_transition | apply calm_bulk | apply calm_rollback | apply calm_archive | repeat calm2].
Qed.

End bound.


(** ** A deployment *)

Definition ex_plan : Plan.Plan :=
  Plan.MkPlan "p1" "wf" [Plan.MkBatch 0 ["h1"; "h2"] [] 1 None] 2 0 10 [] "standard" None None None None.
Definition ex_decode (json : string) : option Plan.Plan := if String.eqb json "{p1}" then Some ex_plan else None.
Definition ex_verify (p : Plan.Plan) (hash : string) : bool := String.eqb (Plan.p_ID p) "p1" && String.eqb hash "sha-p1".
Definition ex_inline (source : string) : option Dsl.ApprovalSpec := None.

(** The policy allows, the generator offers the one plan, the engine completes. *)
Definition ex_orc (s : stmt) : ans :=
  MkAns None true None [] (Approval.MkAns None [] 0 9 "a9") (TraceChain.MkAns None [] 9 "t9") (AuditLog.MkAns None [] 9 "u9") 9 "n9" "prod"
    (Some ("{p1}", "sha-p1")) (match s with LExecutePlan id _ _ => MkOutcome id true "completed" None | _ => noOutcome end).

Definition ex_row (id status : string) : Run :=
  Dispatch.MkRun id "wf" "" "{}" "sha-p1" "{p1}" status "approved" "standard" "normal" 1 1 "alice" "prod" "".
Definition ex_approved (id : string) : Approval.row :=
  Approval.MkRow ("a-" +:+ id) id "standard" "bob" "approved" Approval.CEmpty None (Some 2) "sha-p1" 1 "".
Definition ex_world (status : string) : world := MkWorld {[ "r1" := ex_row "r1" status ]} [ex_approved "r1"] [] [] 0 4 [].

Definition ex_service : ChangeService := MkChangeService true true (Some Approval.NewService) true None false None 0.
Definition ex_bob : ctx := MkCtx "bob" "bob".

Abbreviation ex_prog := (progOf "pass" 9 ex_decode ex_verify ex_inline).

Lemma ex_sem w c : sem w c (exec ex_orc w c).1 (exec ex_orc w c).2.
Proof. apply sem_exec. Qed.

Lemma ex_table status : RunStatus.IsValid status = true -> tableOk (ex_world status).
Proof. intros H k r. unfold ex_world. cbn [w_runs]. intros [<- <-]%lookup_singleton_Some. by split_and!. Qed.

(** Two applies of an approved run race with a cancellation of it: both pass the
    gates, one claims the run and executes. *)
Definition ex_requests : list request :=
  [QApply ex_service ex_bob "r1" false false 0; QApply ex_service ex_bob "r1" false false 2; QCancel ex_service ex_bob "r1" "" false].
Definition ex_schedule : list nat := [0; 1; 0; 1; 0; 1; 0; 1; 1; 0; 0; 0; 0; 0; 0; 0; 0; 0; 0; 1; 1; 0]%nat.
Definition ex_run := ldrive (exec ex_orc) ex_schedule (map ex_prog ex_requests) (ex_world RunStatus.StatusApproved) [].

Lemma ldrive_runs sched (ths : list (op unit)) w :
  let d := ldrive (exec ex_orc) sched ths w [] in rtc (lstep sem) (ths, w, []) (d.1.1, d.1.2, d.2).
Proof.
  intros d. pose proof (ldrive_steps (exec ex_orc) sem ex_sem sched ths w [] : rtc (lstep sem) (ths, w, []) d) as H. clearbody d. by destruct d as [[? ?] ?].
Qed.

Lemma runs_stay_well_formed_witness :
  tableOk (Rely.drive (exec ex_orc) ex_schedule (map ex_prog ex_requests) (ex_world RunStatus.StatusApproved)).2.
Proof.
  apply (runs_stay_well_formed "pass" 9 ex_decode ex_verify ex_inline ex_requests (ex_world RunStatus.StatusApproved)
    (Rely.drive (exec ex_orc) ex_schedule (map ex_prog ex_requests) (ex_world RunStatus.StatusApproved)).1).
  - by apply ex_table.
  - rewrite <- surjective_pairing. exact (drive_steps (exec ex_orc) sem ex_sem _ _ _).
Defined.


End Governance.
