(* ===== verification/ApplyGate.v ===== *)
(** * ApplyGate: one request at a time

    What an apply, a settlement and a plan do when nothing interferes
    (Lifecycle.v): the gates an apply checks and what it leaves behind, the
    decision table of a settlement and its agreement with the apply gate, the chain
    a plan demands. At the end, the requests and interleavings the guarantees of
    Governance.v do not cover, each as a run. *)

From Stdlib Require Import ZArith Lia.
From stdpp Require Import base gmap strings list sorting relations.
From S2P Require Import Prelude RunStatus Risk Dsl Plan Concur Rely Approval Canonical TraceChain AuditLog Dispatch Lifecycle Governance.
Import Concur Rely Lifecycle.
Import Governance(tableOk, wellFormed).
Open Scope string_scope.
Open Scope list_scope.

Module ApplyGate.
Local Open Scope levee_scope.
Local Open Scope Z_scope.
#[local] Existing Instance Approval.byTimeout_dec.

(** ** Frames: embedded programs change their own table *)

Lemma traces_frame {A} orc (p : TraceChain.op A) w : exists l, (quiet (exec orc) (onTraces p) w).2 = setTraces w l.
Proof.
  revert w. induction p as [a|c k IH]; intros w; cbn [onTraces embed quiet].
  - exists (w_traces w). by destruct w.
  - destruct (exec orc w (LTrace c)) as [w1 r] eqn:E. assert (H : exists l, w1 = setTraces w l).
    { revert E. cbn [exec]. destruct c; try (destruct (TraceChain.dbexec _ _) as [l x]; intros [= <- _]; by exists l).
      all: intros [= <- _]; exists (w_traces w); by destruct w. }
    destruct H as [l ->]. destruct (IH (y_tr r) (setTraces w l)) as [l' Hl']. exists l'. exact Hl'.
Qed.

Lemma audits_frame {A} orc (p : AuditLog.op A) w : exists l, (quiet (exec orc) (onAudits p) w).2 = setAudits w l.
Proof.
  revert w. induction p as [a|c k IH]; intros w; cbn [onAudits embed quiet].
  - exists (w_audits w). by destruct w.
  - destruct (exec orc w (LAudit c)) as [w1 r] eqn:E. assert (H : exists l, w1 = setAudits w l).
    { revert E. cbn [exec]. destruct c; try (destruct (AuditLog.dbexec _ _) as [l x]; intros [= <- _]; by exists l).
      all: intros [= <- _]; exists (w_audits w); by destruct w. }
    destruct H as [l ->]. destruct (IH (y_au r) (setAudits w l)) as [l' Hl']. exists l'. exact Hl'.
Qed.

Section gate.
Context (raw : string) (fuel : nat) (decodePlan : string -> option Plan.Plan) (VerifyHash : Plan.Plan -> string -> bool)
  (parseInline : string -> option Dsl.ApprovalSpec) (orc : stmt -> ans).

Abbreviation storedPlan := (Lifecycle.storedPlan decodePlan VerifyHash).

Lemma seal_frame id w : exists l, (quiet (exec orc) (sealTraceChain raw id) w) = (tt, setTraces w l).
Proof.
  unfold sealTraceChain. rewrite quiet_bind. destruct (traces_frame orc (TraceChain.SealRunTraceChain raw id) w) as [l Hl]. exists l.
  cbn [quiet]. by rewrite Hl.
Qed.

(** The policy lets the caller act. *)
Definition allowed (s : ChangeService) (c : ctx) (env action : string) : bool :=
  match cs_authz s with None => true | Some _ => y_ok (orc (LDecide (x_subject c) env action)) end.

Lemma authorize_quiet s c env action w :
  if allowed s c env action then quiet (exec orc) (authorizeResource raw fuel s c env action) w = (None, w)
  else exists e l, quiet (exec orc) (authorizeResource raw fuel s c env action) w = (Some e, setAudits w l).
Proof.
  unfold allowed, authorizeResource. destruct (cs_authz s) as [rec|]; [|done]. cbn [quiet exec pbind call].
  destruct (y_ok _); [done|]. rewrite quiet_bind. cbn [quiet]. eexists. destruct rec.
  - destruct (audits_frame orc (AuditLog.recordDenial raw fuel
      (if String.eqb (y_id (orc (LDecide (x_subject c) env action))) "" then UnattributableActor else y_id (orc (LDecide (x_subject c) env action)))
      action (y_env (orc (LDecide (x_subject c) env action)))) w) as [l Hl]. exists l. by rewrite Hl.
  - exists (w_audits w). by destruct w.
Qed.

(** ** What an apply needs *)

(** The approval an apply looks for. *)
Definition attested (w : world) (id hash : string) : Prop :=
  exists a, a ∈ w_appr w /\ Approval.r_RunID a = id /\ Approval.r_Status a = "approved" /\ (MatchesPlan a hash).1 = true.

Record cleared (s : ChangeService) (c : ctx) (id : string) (w : world) (run : Run) (p : Plan.Plan) : Prop := MkCleared {
  cl_store : cs_store s = true;
  cl_engine : cs_engine s = true;
  cl_run : w_runs w !! id = Some run;
  cl_policy : allowed s c (envOf run) "apply" = true;
  cl_status : r_Status run = RunStatus.StatusApproved;
  cl_json : r_PlanJSON run <> "";
  cl_plan : storedPlan run = Some p;
  cl_attested : cs_approval s <> None -> attested w id (r_PlanHash run) }.

Lemma planApproved_quiet s run w (Hid : r_ID run <> "") :
  exists v, quiet (exec orc) (planApproved s run false) w = (v, w) /\ (v = None <-> (cs_approval s <> None -> attested w (r_ID run) (r_PlanHash run))).
Proof.
  unfold planApproved. destruct (cs_approval s) as [svc|]; [|exists None; split; [done|]; split; [done|by intros]].
  cbn [quiet exec pbind onApprovals embed y_appr Approval.dbexec Approval.a_err Approval.a_rows].
  replace (setAppr w (w_appr w)) with w by by destruct w. eexists. split; [reflexivity|].
  assert (Hex : forall b : bool, b = true <-> attested w (r_ID run) (r_PlanHash run) ->
    (if b then None else Some FailedPrecondition) = None <-> (Some svc <> None -> attested w (r_ID run) (r_PlanHash run))).
  { intros b Hb. destruct b; split; try done; intros H; [by intros _; apply Hb|]. assert (false = true) by (apply Hb, H; done). done. }
  apply Hex. rewrite existsb_elem. unfold attested. split.
  - intros (a & Ha & Hm). rewrite merge_sort_Permutation in Ha. apply list_elem_of_filter in Ha as [Hsel Ha].
    unfold Approval.matches in Hsel. apply String.eqb_neq in Hid as Hid'. rewrite Hid' in Hsel. cbn in Hsel.
    apply andb_true_iff in Hsel as [H1%String.eqb_eq H2%String.eqb_eq]. by exists a.
  - intros (a & Ha & H1 & H2 & Hm). exists a. split; [|done]. rewrite merge_sort_Permutation. apply list_elem_of_filter. split; [|done].
    unfold Approval.matches. rewrite H1, H2, String.eqb_refl. by destruct (String.eqb _ "").
Qed.


(** ** What an apply leaves behind *)

Definition settleAs (o : outcome) : string := match o_err o with Some _ => RunStatus.StatusFailed | None => verdictStatus o end.

(** The plan handed to the engine. *)
Definition capped (p : Plan.Plan) (n : Z) : Plan.Plan := if 0 <? n then withMaxConcurrency p n else p.

(** What the engine reports: the slot refusal when none is free. *)
Definition reported (w : world) (id : string) (p : Plan.Plan) (n : Z) : outcome :=
  if w_slots w <? w_cap w then y_out (orc (LExecutePlan id (capped p n) false))
  else engineFails (EText ("wiring: refusing to start change " +:+ id)).

Definition startedBy (w : world) (id : string) (p : Plan.Plan) (n : Z) : list (string * Plan.Plan) :=
  if w_slots w <? w_cap w then [(id, capped p n)] else [].

Lemma casRun_won w id r from f : w_runs w !! id = Some r -> r_Status r = from ->
  casRun w id from f = (setRuns w (<[id := f r]> (w_runs w)), rows true).
Proof. intros Hr <-. unfold casRun. by rewrite Hr, String.eqb_refl. Qed.

Lemma runChange_quiet w run p n :
  w_runs w !! r_ID run = Some run -> r_PlanJSON run <> "" -> storedPlan run = Some p ->
  quiet (exec orc) (runChange decodePlan VerifyHash (r_ID run) n) w =
    (reported w (r_ID run) p n,
     MkWorld (w_runs w) (w_appr w) (w_traces w) (w_audits w) (w_slots w) (w_cap w) (w_started w ++ startedBy w (r_ID run) p n)).
Proof.
  intros Hr Hj Hp. unfold runChange, withSlot, reported, startedBy. cbn [quiet exec pbind call].
  destruct (w_slots w <? w_cap w); cbn [y_ok rows answers negb]; [|rewrite app_nil_r; by destruct w].
  rewrite quiet_bind. unfold loadStoredPlan. cbn [quiet exec pbind call y_err y_run answers w_runs setSlots].
  rewrite Hr. apply String.eqb_neq in Hj as ->. rewrite Hp. cbn [quiet exec pbind call fst snd].
  f_equal. unfold setSlots, begins. cbn. f_equal. lia.
Qed.

Lemma drive_quiet c w run r0 p old n t :
  w_runs w !! r_ID run = Some r0 -> r_ID r0 = r_ID run -> r_Status r0 = RunStatus.StatusRunning -> r_PlanJSON r0 <> "" -> storedPlan r0 = Some p ->
  let o := reported w (r_ID run) p n in
  exists at_ l, quiet (exec orc) (Lifecycle.drive raw decodePlan VerifyHash c run old n t) w =
    ((Some (MkApplyResponse (withStatus run (settleAs o) at_) (o_runID o) (match o_err o with None => o_success o | Some _ => false end)),
      match o_err o with None => None | Some _ => Some Internal end),
     MkWorld (<[r_ID run := withStatus r0 (settleAs o) at_]> (w_runs w)) (w_appr w) l (w_audits w) (w_slots w) (w_cap w)
       (w_started w ++ startedBy w (r_ID run) p n)).
Proof.
  intros Hr Hid Hst Hj Hp o. unfold Lifecycle.drive. cbn [quiet exec pbind call].
  destruct (TraceChain.dbexec (w_traces w) _) as [l1 x] eqn:E1. cbn [quiet exec pbind call].
  rewrite quiet_bind. rewrite <- Hid, runChange_quiet with (p := p); [|by rewrite Hid|done|done]. rewrite Hid.
  change (reported (setTraces w l1) (r_ID run) p n) with o. cbn [fst snd].
  change (match o_err o with Some _ => RunStatus.StatusFailed | None => verdictStatus o end) with (settleAs o).
  rewrite quiet_bind. unfold casRunStatus, now. cbn [quiet exec pbind call].
  rewrite (casRun_won _ (r_ID run) r0) by done. cbn [quiet exec pbind call y_err y_ok rows answers fst snd negb].
  rewrite quiet_bind.
  match goal with |- context [quiet (exec orc) (sealTraceChain raw ?id) ?w1] => destruct (seal_frame id w1) as [l2 Hl2]; rewrite Hl2 end.
  exists (y_time (orc LNow)), l2. cbn [quiet exec pbind call fst snd]. by destruct (o_err o).
Qed.

Abbreviation apply := (ApplyChange raw fuel decodePlan VerifyHash).

(** What the answer and the run row say of the engine's report. *)
Definition answerOf (run : Run) (o : outcome) (at_ : Z) : ApplyResult :=
  (Some (MkApplyResponse (withStatus run (settleAs o) at_) (o_runID o) (match o_err o with None => o_success o | Some _ => false end)),
   match o_err o with None => None | Some _ => Some Internal end).

Definition settledWorld (w : world) (run : Run) (p : Plan.Plan) (n at_ : Z) (l : list Canonical.Trace) : world :=
  MkWorld (<[r_ID run := withStatus run (settleAs (reported w (r_ID run) p n)) at_]> (w_runs w)) (w_appr w) l (w_audits w) (w_slots w)
    (w_cap w) (w_started w ++ startedBy w (r_ID run) p n).

(** A gate that fails: the refusal, and what it says of [cleared]. *)
Ltac stops H := left; split; [first [apply H | done]|]; intros (? & r & q & [Hs0 He0 Hr0 Ha0 Ht0 Hj0 Hp0 Hat0]); try congruence.

(** The gates, in the order the handler checks them. *)
Lemma apply_gates s c id dry n w (Hw : tableOk w) (Hid : id <> "") :
  (exists e l, quiet (exec orc) (apply s c id false dry n) w = (refuseApply e, setAudits w l)) /\
    ~ (dry = false /\ exists run p, cleared s c id w run p)
  \/ dry = false /\ exists run p, cleared s c id w run p.
Proof.
  assert (Hquit : forall e, exists e' l, ((refuseApply e, w) : ApplyResult * world) = (refuseApply e', setAudits w l))
    by (intros e; exists e, (w_audits w); by destruct w).
  unfold ApplyChange, loaded. destruct (cs_store s) eqn:Es; cbn [negb]; [|stops Hquit]. destruct dry; [stops Hquit|].
  cbn [quiet exec pbind call y_err y_run answers]. destruct (w_runs w !! id) as [run|] eqn:Er; [|stops Hquit].
  destruct (Hw _ _ Er) as [Hk _]. cbn [negb andb]. unfold authorized, authorize. rewrite quiet_bind.
  pose proof (authorize_quiet s c (envOf run) "apply" w) as Ha. destruct (allowed s c (envOf run) "apply") eqn:Eal.
  2: { destruct Ha as (e & l & ->). assert (Hx : exists e' l', (refuseApply e, setAudits w l) = (refuseApply e', setAudits w l')) by by exists e, l.
       stops Hx. }
  rewrite Ha. cbn [fst snd]. destruct (String.eqb_spec (r_Status run) RunStatus.StatusApproved) as [Est|]; cbn [negb]; [|stops Hquit].
  destruct (cs_engine s) eqn:Een; cbn [negb]; [|stops Hquit]. destruct (String.eqb_spec (r_PlanJSON run) "") as [|Ej]; [stops Hquit|].
  unfold verifyStoredPlanHash. destruct (storedPlan run) as [p|] eqn:Ep; cbn [negb]; [|stops Hquit].
  rewrite andb_false_r, quiet_bind. destruct (planApproved_quiet s run w) as (v & -> & Hv); [by rewrite Hk|]. cbn [fst snd]. rewrite Hk in Hv.
  destruct v as [e|].
  - stops Hquit. assert (r = run) as -> by congruence. by apply Hv in Hat0.
  - right. split; [done|]. exists run, p. constructor; try done. by apply Hv.
Qed.

Lemma apply_cleared s c id n w run p (Hw : tableOk w) :
  id <> "" -> cleared s c id w run p ->
  exists at_ l, quiet (exec orc) (apply s c id false false n) w = (answerOf run (reported w id p n) at_, settledWorld w run p n at_ l).
Proof.
  intros Hid [Hs He Hr Hpol Hst Hj Hp Hat]. destruct (Hw _ _ Hr) as [Hk _].
  unfold ApplyChange, loaded. rewrite Hs, He. cbn [negb andb].
  cbn [quiet exec pbind call y_err y_run answers]. rewrite Hr. unfold authorized, authorize. rewrite quiet_bind.
  pose proof (authorize_quiet s c (envOf run) "apply" w) as Ha. rewrite Hpol in Ha. rewrite Ha. cbn [fst snd].
  rewrite Hst, String.eqb_refl. cbn [negb]. apply String.eqb_neq in Hj as Hj'. rewrite Hj'.
  unfold verifyStoredPlanHash. rewrite Hp. cbn [negb]. rewrite andb_false_r, quiet_bind.
  destruct (planApproved_quiet s run w) as (v & -> & Hv); [by rewrite Hk|]. cbn [fst snd]. rewrite Hk in Hv.
  rewrite (proj2 Hv Hat). unfold now. cbn [quiet exec pbind call].
  rewrite (casRun_won _ (r_ID run) run) by (rewrite ?Hk; done). cbn [y_err y_ok rows answers].
  set (r0 := withStatus run RunStatus.StatusRunning (y_time (orc LNow))). set (w1 := setRuns w _).
  destruct (drive_quiet c w1 r0 r0 p RunStatus.StatusApproved n (y_time (orc LNow))) as (at_ & l & ->);
    [cbn [r0 withStatus Dispatch.r_ID w_runs w1 setRuns]; by rewrite lookup_insert_eq|done..|].
  exists at_, l. unfold answerOf, settledWorld. subst w1. cbn [w_runs w_appr w_audits w_slots w_cap w_started setRuns].
  change (r_ID r0) with (r_ID run). rewrite insert_insert_eq. by rewrite <- Hk.
Qed.

(** C11: an apply that is not auto-approved, run undisturbed, either refuses or executes a
    cleared change. It refuses exactly when the change is not cleared: a store and
    an engine wired, the run approved, the policy allowing, a persisted plan that
    matches its hash and, when an approval service is wired, an approved row that
    attests to that hash. A refusal touches at most the audit log. Otherwise the
    engine is handed the stored plan once (with the requested concurrency cap),
    or not at all when no slot is free, the run settles on the status the engine's
    report stands for, the slot is given back, and no other run, approval or audit
    row is touched. *)
Theorem apply_executes_only_cleared s c id dry n w (Hw : tableOk w) (Hid : id <> "") :
  let answer := quiet (exec orc) (apply s c id false dry n) w in
  ((exists e l, answer = (refuseApply e, setAudits w l)) /\ ~ (dry = false /\ exists run p, cleared s c id w run p))
  \/ (dry = false /\ exists run p at_ l,
        cleared s c id w run p /\ answer = (answerOf run (reported w id p n) at_, settledWorld w run p n at_ l)).
Proof.
  intros answer. subst answer. destruct (apply_gates s c id dry n w Hw Hid) as [?|[-> (run & p & Hc)]]; [by left|]. right. split; [done|].
  destruct (apply_cleared s c id n w run p Hw Hid Hc) as (at_ & l & E). by exists run, p, at_, l.
Qed.
End gate.

(** ** Settlement *)

Section settle.
Context (orc : stmt -> ans).

(** The rows of the run that speak about the plan. *)
Definition chainOf (w : world) (id hash : string) : list Approval.row :=
  filter (fun a => (MatchesPlan a hash).1 = true) (filter (fun a => Approval.matches id "" a = true) (w_appr w)).

(** The status a verdict moves the run to. *)
Definition settlesTo (v : SettleState) : option string :=
  match v with SettleApproved => Some "approved" | SettleRejected => Some "rejected" | _ => None end.

(** The row after: protected statuses stay, an unchanged one is not written. *)
Definition settledRow (run : Run) (v : SettleState) (at_ : Z) : Run :=
  match settlesTo v with
  | Some st =>
      if inSet terminalRunStatuses (r_Status run) && negb (String.eqb (r_Status run) st) then run
      else if String.eqb (r_Status run) st && String.eqb (Dispatch.r_ApprovalStatus run) st then run
      else withApproval run st st at_
  | None => run
  end.

Lemma chainVerdict_perm l k : l ≡ₚ k -> chainVerdict l = chainVerdict k.
Proof.
  intros H. assert (E : forall f, existsb f l = existsb f k); [|by unfold chainVerdict; rewrite !E].
  intros f. apply eq_iff_eq_true. rewrite !existsb_elem. by setoid_rewrite H.
Qed.

Lemma setRuns_same w id (r : Run) : w_runs w !! id = Some r -> setRuns w (<[id := r]> (w_runs w)) = w.
Proof. intros H. rewrite insert_id by done. by destruct w. Qed.

Lemma transition_quiet w run st :
  w_runs w !! r_ID run = Some run ->
  exists at_, quiet (exec orc) (transitionRunForApproval run st st) w = (None, setRuns w (<[r_ID run :=
      if inSet terminalRunStatuses (r_Status run) && negb (String.eqb (r_Status run) st) then run
      else if String.eqb (r_Status run) st && String.eqb (Dispatch.r_ApprovalStatus run) st then run
      else withApproval run st st at_]> (w_runs w))).
Proof.
  intros Hr. unfold transitionRunForApproval. exists (y_time (orc LNow)).
  destruct (inSet _ _ && _); [by rewrite setRuns_same|]. destruct (String.eqb _ _ && _); [by rewrite setRuns_same|].
  unfold now. cbn [quiet exec pbind call]. by rewrite (casRun_won _ _ run).
Qed.

Lemma has_status (m : list Approval.row) st :
  Bool.reflect (exists a, a ∈ m /\ Approval.r_Status a = st) (existsb (fun r => String.eqb (Approval.r_Status r) st) m).
Proof.
  destruct (existsb _ m) eqn:E; constructor.
  - apply existsb_elem in E as (a & Ha & H%String.eqb_eq). by exists a.
  - intros (a & Ha & H%String.eqb_eq). assert (existsb (fun r => String.eqb (Approval.r_Status r) st) m = true); [|congruence].
    apply existsb_elem. by exists a.
Qed.

(** The table of [chainVerdict]. *)
Lemma verdict_table (m : list Approval.row) :
  let v := match m with [] => SettleNone | _ => chainVerdict m end in
  let has st := exists a, a ∈ m /\ Approval.r_Status a = st in
  (v = SettlePending <-> has "pending") /\ (v = SettleRejected <-> has "rejected" /\ ~ has "pending") /\
  (v = SettleApproved <-> has "approved" /\ ~ has "pending" /\ ~ has "rejected").
Proof.
  destruct m as [|x m']; [cbn; split_and!; (split; [done|]); intros H; destruct_and? H;
    repeat match goal with H : exists _, _ |- _ => destruct H as (? & ?%not_elem_of_nil & _) end; done|].
  set (m := x :: m'). cbn zeta. unfold chainVerdict. cbn zeta.
  destruct (has_status m "pending") as [Hp|Hp], (has_status m "rejected") as [Hr|Hr], (has_status m "approved") as [Ha|Ha]; cbn; naive_solver.
Qed.

Lemma settle_quiet s id w run (Hw : tableOk w) (Hs : cs_store s = true) (Hid : id <> "") (Hr : w_runs w !! id = Some run) :
  let m := chainOf w id (r_PlanHash run) in
  let v := match m with [] => SettleNone | _ => chainVerdict m end in
  exists at_, quiet (exec orc) (SettleApproval s id) w = ((v, None), setRuns w (<[id := settledRow run v at_]> (w_runs w))).
Proof.
  intros m v. destruct (Hw _ _ Hr) as [Hk _]. unfold SettleApproval. rewrite Hs.
  cbn [quiet exec pbind call negb onApprovals embed y_appr Approval.dbexec Approval.a_err Approval.a_rows].
  replace (setAppr w (w_appr w)) with w by by destruct w.
  set (rows := merge_sort Approval.byTimeout _).
  assert (Hm : filter (fun a => (MatchesPlan a (r_PlanHash run)).1 = true) rows ≡ₚ m).
  { subst rows m. unfold chainOf. by rewrite merge_sort_Permutation. }
  assert (Hsame : w = setRuns w (<[id := run]> (w_runs w))) by by rewrite setRuns_same.
  destruct rows as [|x rest] eqn:Erows.
  { apply Permutation_nil_l in Hm. subst v. rewrite <- Hm. exists 0. cbn [quiet settledRow settlesTo]. by rewrite <- Hsame. }
  cbn [quiet exec pbind call y_err y_run answers]. rewrite Hr. rewrite <- Erows in *. clear Erows.
  destruct (filter _ rows) as [|y matching] eqn:Ef.
  { apply Permutation_nil_l in Hm. subst v. rewrite <- Hm. exists 0. cbn [quiet settledRow settlesTo]. by rewrite <- Hsame. }
  assert (Hv : v = chainVerdict (y :: matching)).
  { subst v. rewrite (chainVerdict_perm _ _ Hm). destruct m; [by apply Permutation_nil_r in Hm|done]. }
  rewrite Hv. destruct (chainVerdict (y :: matching)).
  1,2,5: exists 0; cbn [quiet settledRow settlesTo]; by rewrite <- Hsame.
  all: rewrite quiet_bind, <- Hk; rewrite <- Hk in Hr.
  - destruct (transition_quiet w run "approved" Hr) as [at_ E]. rewrite E. by exists at_.
  - destruct (transition_quiet w run "rejected" Hr) as [at_ E]. rewrite E. by exists at_.
Qed.

Lemma elem_of_chainOf w id hash a : id <> "" ->
  a ∈ chainOf w id hash <-> a ∈ w_appr w /\ Approval.r_RunID a = id /\ (MatchesPlan a hash).1 = true.
Proof.
  intros Hid. unfold chainOf. rewrite !list_elem_of_filter. unfold Approval.matches.
  apply String.eqb_neq in Hid. rewrite Hid. cbn. rewrite andb_true_r, String.eqb_eq. tauto.
Qed.

(** C18: a settlement, run undisturbed, is a decision table over the rows of the run
    that speak about its current plan. None of them: no verdict. A pending one:
    pending, whatever the others say; otherwise any rejection rejects, else any
    approval approves, else the chain has expired. Only a decided chain moves the
    run, to the status of the verdict in both columns, and never out of a status
    the settlement protects; nothing else is written. An approved chain is
    exactly what the apply gate then looks for. *)
Theorem settlement_decides s id w run (Hw : tableOk w) (Hs : cs_store s = true) (Hid : id <> "") (Hr : w_runs w !! id = Some run) :
  let m := chainOf w id (r_PlanHash run) in
  let v := match m with [] => SettleNone | _ => chainVerdict m end in
  (exists at_, quiet (exec orc) (SettleApproval s id) w = ((v, None), setRuns w (<[id := settledRow run v at_]> (w_runs w)))) /\
  (v = SettlePending <-> exists a, a ∈ m /\ Approval.r_Status a = "pending") /\
  (v = SettleRejected <-> (exists a, a ∈ m /\ Approval.r_Status a = "rejected") /\ forall a, a ∈ m -> Approval.r_Status a <> "pending") /\
  (v = SettleApproved <-> attested w id (r_PlanHash run) /\
     forall a, a ∈ m -> Approval.r_Status a <> "pending" /\ Approval.r_Status a <> "rejected").
Proof.
  intros m v. split; [by apply settle_quiet|]. destruct (verdict_table m) as (Hp & Hj & Ha). fold v in Hp, Hj, Ha.
  split_and!; [done|rewrite Hj; naive_solver|].
  assert (Hatt : attested w id (r_PlanHash run) <-> exists a, a ∈ m /\ Approval.r_Status a = "approved").
  { unfold attested. subst m. setoid_rewrite elem_of_chainOf; [|done]. naive_solver. }
  rewrite Ha, Hatt. naive_solver.
Qed.
End settle.

(** ** The chain a plan asks for *)

(** Who can vote on it. *)
Definition voters (run : Run) (d : chainDemand) : list string :=
  if cd_exclude d then withoutIdentity (cd_approvers d) (Dispatch.r_Creator run) else cd_approvers d.

(** The record it opens. *)
Definition opened (run : Run) (d : chainDemand) (id : string) (t expires : Z) : Approval.Approval :=
  Approval.MkApproval id (r_ID run) (cd_tier d) Approval.StatusPending (cd_approvers d) (cd_min d) [] t expires (r_PlanHash run)
    (Dispatch.r_Creator run) (cd_exclude d) 0 "".

Lemma tier_bounds tier m : Approval.MinApproversFor tier = inr m ->
  1 <= m /\ Approval.IsLevel tier = true /\ (tier = Approval.LevelHigh -> m = 2).
Proof.
  unfold Approval.MinApproversFor, Approval.level_Get, Approval.NewLevelManager.
  destruct (_ !! tier) as [cfg|] eqn:E; [|done]. intros [= <-].
  repeat (apply lookup_insert_Some in E as [[<- <-]|[_ E]]; [by split_and!; cbn|]). by apply lookup_empty_Some in E.
Qed.

Lemma MaxLevel_named a b : Risk.MaxLevel a b <> "".
Proof.
  unfold Risk.MaxLevel.
  destruct (Risk.levelOrder_cases a) as [[-> ->]|[[-> ->]|[[-> ->]| ->]]];
    destruct (Risk.levelOrder_cases b) as [[-> ->]|[[-> ->]|[[-> ->]| ->]]]; done.
Qed.

Lemma voters_length run d : Z.of_nat (length (voters run d)) <= Z.of_nat (length (cd_approvers d)).
Proof.
  unfold voters, withoutIdentity. destruct (cd_exclude d); [|lia]. destruct (String.eqb _ ""); [lia|].
  pose proof (length_filter (fun a => a <> Dispatch.r_Creator run) (cd_approvers d)). lia.
Qed.

Lemma voters_nodup run d : NoDup (cd_approvers d) -> NoDup (voters run d).
Proof.
  intros H. unfold voters, withoutIdentity. destruct (cd_exclude d); [|done]. destruct (String.eqb _ ""); [done|]. by apply NoDup_filter.
Qed.

(** The record's own checks admit the voters, once each, and nobody else. *)
Lemma opened_admits run d id t expires ds x : cd_approvers d <> [] ->
  Approval.recordChecks (Approval.withStatus (opened run d id t expires) Approval.StatusPending ds) x = None <->
  x ∈ voters run d /\ Approval.hasDecided ds x = false.
Proof.
  intros Hne. unfold Approval.recordChecks, Approval.excluded, Approval.isAuthorized.
  cbn [Approval.withStatus opened Approval.a_Approvers Approval.a_ExcludeInitiator Approval.a_Initiator Approval.a_Decisions].
  destruct (cd_approvers d) as [|y l] eqn:El; [done|]. rewrite <- El. clear El.
  unfold voters, withoutIdentity. destruct (inSet (cd_approvers d) x) eqn:Ei; cbn [negb].
  - apply inSet_spec in Ei. destruct (cd_exclude d); cbn [andb].
    + destruct (String.eqb_spec (Dispatch.r_Creator run) "") as [->|Hc]; cbn [negb].
      * destruct (Approval.hasDecided ds x); naive_solver.
      * rewrite list_elem_of_filter. destruct (String.eqb_spec x (Dispatch.r_Creator run)); destruct (Approval.hasDecided ds x); naive_solver.
    + destruct (Approval.hasDecided ds x); naive_solver.
  - split; [done|]. intros [Hv _]. assert (x ∈ cd_approvers d) as Hx; [|apply inSet_spec in Hx; congruence].
    revert Hv. destruct (cd_exclude d); [|done]. destruct (String.eqb _ ""); [done|]. by intros [_ ?]%list_elem_of_filter.
Qed.

Section kickoff.
Context (decodePlan : string -> option Plan.Plan) (parseInline : string -> option Dsl.ApprovalSpec) (orc : stmt -> ans).

Abbreviation demands := (demand decodePlan parseInline).
Abbreviation specOf := (approvalSpec parseInline).

Definition declaredTier (p : Plan.Plan) (run : Run) : string := match specOf p run with Some x => Dsl.ap_Level x | None => "" end.

(** What a demand that is not refused satisfies. *)
Lemma demand_inv p run d : r_PlanJSON run <> "" -> decodePlan (r_PlanJSON run) = Some p -> demands p run = inr d ->
  cd_tier d = Risk.MaxLevel (declaredTier p run) (Plan.p_ApprovalFloor p) /\
  (exists m, Approval.MinApproversFor (cd_tier d) = inr m /\ m <= cd_min d) /\
  (forall spec, specOf p run = Some spec -> Dsl.ap_MinApprovers spec <= cd_min d /\ (Dsl.ap_ExcludeInitiator spec = true -> cd_exclude d = true)) /\
  (cd_tier d = Approval.LevelHigh -> cd_exclude d = true) /\
  cd_min d <= Z.of_nat (length (voters run d)).
Proof.
  intros Hj%String.eqb_neq Hp. unfold demand, derivedApprovalTier. rewrite Hj, Hp. fold (declaredTier p run).
  set (tier := Risk.MaxLevel _ _). assert (Ht : String.eqb tier "" = false) by apply String.eqb_neq, MaxLevel_named. rewrite Ht. rewrite Ht.
  destruct (Approval.MinApproversFor tier) as [e|m] eqn:Em; [done|].
  match goal with |- (if ?b then _ else _) = _ -> _ => destruct b eqn:Eb; [done|] end. intros [= <-]. cbn [cd_tier cd_min cd_exclude cd_approvers].
  apply Z.ltb_ge in Eb. split_and!; [done| | | |exact Eb].
  - exists m. split; [done|]. destruct (specOf p run); lia.
  - intros spec ->. split; [lia|]. intros ->. apply orb_true_r.
  - intros ->. done.
Qed.

Lemma create_quiet svc run d expires w m :
  r_ID run <> "" -> Approval.MinApproversFor (cd_tier d) = inr m -> m <= cd_min d -> cd_min d <= Z.of_nat (length (cd_approvers d)) ->
  let i := y_appr (orc (LAppr Approval.SNewID)) in
  let a := opened run d (Approval.a_id i) (Approval.a_time (y_appr (orc (LAppr Approval.SNow)))) expires in
  Approval.a_err i = None -> (forall r, r ∈ w_appr w -> Approval.r_ID r <> Approval.a_id i) ->
  quiet (exec orc) (onApprovals (Approval.Create svc (Approval.MkCreateRequest "" (r_ID run) (cd_tier d) (cd_approvers d)
    (cd_min d) expires (r_PlanHash run) (Dispatch.r_Creator run) (cd_exclude d)))) w
  = (inr a, setAppr w (w_appr w ++ [Approval.StateApproval a])).
Proof.
  intros Hid%String.eqb_neq Hm Hle Hn i a Hi Hfresh. destruct (tier_bounds _ _ Hm) as (H1 & Hlev & _).
  unfold Approval.Create. cbn [Approval.cq_RunID Approval.cq_Level Approval.cq_MinApprovers Approval.cq_Approvers Approval.cq_ID].
  rewrite Hid, Hlev. cbn [negb]. unfold Approval.quorum.
  destruct (Z.leb_spec (cd_min d) 0); [lia|]. destruct (Z.ltb_spec (Z.of_nat (length (cd_approvers d))) (cd_min d)); [lia|].
  rewrite andb_false_r. cbn [quiet exec onApprovals embed String.eqb]. fold i. rewrite Hi. cbn [quiet exec embed Approval.dbexec].
  destruct (existsb _ (w_appr w)) eqn:E; [|done]. apply existsb_elem in E as (r & Hr & Hs%String.eqb_eq). by apply Hfresh in Hr.
Qed.

(** The chain a plan opens enforces its tier. A demand that is not refused is routed
    to the higher of the declared tier and the plan's risk floor, asks for at
    least the tier's quorum and at least what the workflow declares, and excludes
    the creator when the workflow does or the tier is high, which takes two
    votes. The approval service accepts it and opens a pending record carrying
    it; that record admits exactly the listed approvers, less an excluded creator,
    each once; and when no name is listed twice there are enough of them to
    reach the quorum. *)
Theorem kickoff_demands_quorum svc run p d w expires
    (Hid : r_ID run <> "") (Hj : r_PlanJSON run <> "") (Hp : decodePlan (r_PlanJSON run) = Some p) (Hd : demands p run = inr d)
    (Hi : Approval.a_err (y_appr (orc (LAppr Approval.SNewID))) = None)
    (Hfresh : forall r, r ∈ w_appr w -> Approval.r_ID r <> Approval.a_id (y_appr (orc (LAppr Approval.SNewID)))) :
  let a := opened run d (Approval.a_id (y_appr (orc (LAppr Approval.SNewID)))) (Approval.a_time (y_appr (orc (LAppr Approval.SNow)))) expires in
  Risk.rank (cd_tier d) = Z.max (Risk.rank (declaredTier p run)) (Risk.rank (Plan.p_ApprovalFloor p)) /\
  (exists m, Approval.MinApproversFor (cd_tier d) = inr m /\ m <= cd_min d) /\
  (forall spec, specOf p run = Some spec -> Dsl.ap_MinApprovers spec <= cd_min d /\ (Dsl.ap_ExcludeInitiator spec = true -> cd_exclude d = true)) /\
  (cd_tier d = Approval.LevelHigh -> cd_exclude d = true /\ 2 <= cd_min d) /\
  quiet (exec orc) (onApprovals (Approval.Create svc (Approval.MkCreateRequest "" (r_ID run) (cd_tier d) (cd_approvers d)
    (cd_min d) expires (r_PlanHash run) (Dispatch.r_Creator run) (cd_exclude d)))) w
    = (inr a, setAppr w (w_appr w ++ [Approval.StateApproval a])) /\
  (forall ds x, Approval.recordChecks (Approval.withStatus a Approval.StatusPending ds) x = None <-> x ∈ voters run d /\ Approval.hasDecided ds x = false) /\
  (NoDup (cd_approvers d) -> NoDup (voters run d) /\ Approval.a_MinApprovers a <= Z.of_nat (length (voters run d))).
Proof.
  intros a. destruct (demand_inv p run d Hj Hp Hd) as (Ht & (m & Hm & Hle) & Hspec & Hhigh & Hv).
  destruct (tier_bounds _ _ Hm) as (H1 & _ & H2). pose proof (voters_length run d) as Hl.
  split_and!.
  - by rewrite Ht, Risk.rank_MaxLevel.
  - by exists m.
  - exact Hspec.
  - intros E. split; [by apply Hhigh|]. specialize (H2 E). lia.
  - eapply create_quiet; eauto. lia.
  - intros ds x. apply opened_admits. intros E. rewrite E in Hl. cbn in Hl. lia.
  - intros Hnd. split; [by apply voters_nodup|exact Hv].
Qed.
End kickoff.

(** ** Runs of a deployment *)

Import Governance(ex_plan, ex_decode, ex_verify, ex_inline, ex_orc, ex_row, ex_approved, ex_world, ex_service, ex_bob, ex_table).

(** The run before a vote, its chain approved. *)
Abbreviation ex_apply := (ApplyChange "pass" 9 ex_decode ex_verify ex_service ex_bob "r1").

Lemma ex_cleared : cleared ex_decode ex_verify ex_orc ex_service ex_bob "r1" (ex_world "approved") (ex_row "r1" "approved") ex_plan.
Proof. constructor; try done. intros _. exists (ex_approved "r1"). split_and!; try done. by left. Qed.

Lemma apply_executes_only_cleared_witness :
  (w_started (quiet (exec ex_orc) (ex_apply false false 0) (ex_world "approved")).2 = [("r1", ex_plan)]) /\
  exists at_ l, quiet (exec ex_orc) (ex_apply false false 0) (ex_world "approved") =
    (answerOf (ex_row "r1" "approved") (MkOutcome "r1" true "completed" None) at_,
     settledWorld ex_orc (ex_world "approved") (ex_row "r1" "approved") ex_plan 0 at_ l).
Proof.
  split; [by vm_compute|].
  destruct (apply_executes_only_cleared "pass" 9 ex_decode ex_verify ex_orc ex_service ex_bob "r1" false 0 (ex_world "approved")) as [[_ H]|(_ & run & p & at_ & l & Hc & E)].
  - by apply ex_table.
  - done.
  - exfalso. apply H. split; [done|]. exists (ex_row "r1" "approved"), ex_plan. exact ex_cleared.
  - exists at_, l. rewrite E. destruct Hc as [_ _ Hr _ _ _ Hp _]. injection Hr as <-. injection Hp as <-. done.
Defined.

Lemma settlement_decides_witness :
  exists at_, quiet (exec ex_orc) (SettleApproval ex_service "r1") (ex_world "draft") =
    ((SettleApproved, None), setRuns (ex_world "draft") (<["r1" := withApproval (ex_row "r1" "draft") "approved" "approved" at_]> (w_runs (ex_world "draft")))).
Proof.
  destruct (settlement_decides ex_orc ex_service "r1" (ex_world "draft") (ex_row "r1" "draft")) as [[at_ H] _].
  - by apply ex_table.
  - done.
  - done.
  - done.
  - exists at_. rewrite H. done.
Defined.

(** An irreversible plan by alice, declared with three reviewers. *)
Definition ex_planAt (id floor : string) (spec : option Dsl.ApprovalSpec) : Plan.Plan :=
  Plan.MkPlan id "wf" [Plan.MkBatch 0 ["h1"] [] 1 None] 1 0 10 [] floor spec None None None.
Definition ex_high : Plan.Plan := ex_planAt "p1" "high" (Some (Dsl.MkApprovalSpec "standard" ["bob"; "alice"; "carol"] "" 0 false)).
Definition ex_demand : chainDemand := MkDemand "high" ["bob"; "alice"; "carol"] 2 true.

Lemma kickoff_demands_quorum_witness :
  demand (fun _ => Some ex_high) ex_inline ex_high (ex_row "r1" "draft") = inr ex_demand /\
  NoDup (voters (ex_row "r1" "draft") ex_demand) /\ 2 <= Z.of_nat (length (voters (ex_row "r1" "draft") ex_demand)).
Proof.
  split; [by vm_compute|].
  apply (kickoff_demands_quorum (fun _ => Some ex_high) ex_inline ex_orc Approval.NewService (ex_row "r1" "draft") ex_high ex_demand (ex_world "draft") 99).
  - done.
  - done.
  - done.
  - by vm_compute.
  - done.
  - intros r Hr. apply list_elem_of_singleton in Hr as ->. done.
  - apply (bool_decide_unpack (NoDup ["bob"; "alice"; "carol"])). by vm_compute.
Defined.

(** ** What the gates do not cover *)

Abbreviation ex_prog := (Governance.progOf "pass" 9 ex_decode ex_verify ex_inline).
Definition ex_bare (status : string) : world := setAppr (ex_world status) [].
Definition statusAfter (w : world) : option string := r_Status <$> w_runs w !! "r1".

(** Auto-approval replaces the state guard instead of the approval alone: a
    standard-tier run that was rejected, cancelled, archived or completed, or that is
    running right now, is executed. *)
Example auto_approve_ignores_status :
  map (fun st => w_started (quiet (exec ex_orc) (ex_apply true false 0) (ex_bare st)).2)
    ["draft"; "rejected"; "cancelled"; "archived"; "completed"; "running"] = repeat [("r1", ex_plan)] 6.
Proof. by vm_compute. Qed.

(** Retrying hosts asks neither for a status nor for an approval: it executes a draft
    nobody approved and settles its run. *)
Example retry_host_needs_no_approval :
  let w := (quiet (exec ex_orc) (RetryHost "pass" 9 ex_decode ex_verify ex_service ex_bob "r1" ["h1"]) (ex_bare "draft")).2 in
  map fst (w_started w) = ["r1"] /\ statusAfter w = Some "completed" /\ w_appr w = [].
Proof. by vm_compute. Qed.

(** A retry claims the run from whatever status it has by then, so two retries of
    one failed run both execute it. *)
Example retries_both_execute :
  let retry := Governance.QRetry ex_service ex_bob "r1" false ["h1"] in
  let d := Rely.drive (exec ex_orc) (1%nat :: repeat 0%nat 8 ++ repeat 1%nat 7) (map ex_prog [retry; retry]) (ex_world "failed") in
  length (w_started d.2) = 2%nat /\ statusAfter d.2 = Some "running".
Proof. by vm_compute. Qed.

(** The engine reads the plan again after the claim: a plan written in between,
    that no approval attests to, is the one executed. *)
Definition ex_decode2 (json : string) : option Plan.Plan :=
  if String.eqb json "{p2}" then Some (ex_planAt "p2" "high" None) else ex_decode json.
Definition ex_verify2 (p : Plan.Plan) (hash : string) : bool := String.eqb hash ("sha-" +:+ Plan.p_ID p).
Definition ex_orc2 (s : stmt) : ans :=
  match s with
  | LGeneratePlan _ _ => MkAns None true None [] Approval.noAns TraceChain.noAns AuditLog.noAns 9 "" "" (Some ("{p2}", "sha-p2")) noOutcome
  | _ => ex_orc s
  end.

Example replan_overtakes_apply :
  let reqs := [Governance.QApply ex_service ex_bob "r1" false false 0; Governance.QPlan ex_service ex_bob "r1" ["h1"] false] in
  let d := Rely.drive (exec ex_orc2) (repeat 0%nat 4 ++ repeat 1%nat 5 ++ repeat 0%nat 8)
             (map (Governance.progOf "pass" 9 ex_decode2 ex_verify2 ex_inline) reqs) (ex_world "approved") in
  map (fun x => Plan.p_ID x.2) (w_started d.2) = ["p2"] /\
  existsb (fun a => (MatchesPlan a "sha-p2").1) (w_appr d.2) = false.
Proof. by vm_compute. Qed.

(** A pause writes the row it read: it puts back a status the run has left. *)
Example pause_revives_a_cancelled_run :
  let reqs := [Governance.QPause ex_service ex_bob "r1" ""; Governance.QCancel ex_service ex_bob "r1" "" false] in
  let d := Rely.drive (exec ex_orc) (repeat 0%nat 3 ++ repeat 1%nat 40 ++ repeat 0%nat 2) (map ex_prog reqs) (ex_world "running") in
  statusAfter d.2 = Some "paused" /\
  statusAfter (Rely.drive (exec ex_orc) (repeat 0%nat 3 ++ repeat 1%nat 40) (map ex_prog reqs) (ex_world "running")).2 = Some "cancelled".
Proof. by vm_compute. Qed.

(** A pending run becomes running by a pause and a resume, without an approval and
    without an execution. *)
Example resume_starts_nothing :
  let w1 := (quiet (exec ex_orc) (PauseChange "pass" 9 ex_service ex_bob "r1" "") (ex_bare "pending")).2 in
  let w2 := (quiet (exec ex_orc) (ResumeChange "pass" 9 ex_service ex_bob "r1" "") w1).2 in
  statusAfter w1 = Some "paused" /\ statusAfter w2 = Some "running" /\ w_started w2 = [] /\ w_appr w2 = [].
Proof. by vm_compute. Qed.

(** A paused run is not protected from a settlement: its old approval moves it to
    approved, and it can be applied while its first execution is still paused. *)
Example settlement_reopens_a_paused_run :
  let w1 := (quiet (exec ex_orc) (SettleApproval ex_service "r1") (ex_world "paused")).2 in
  statusAfter w1 = Some "approved" /\ w_started (quiet (exec ex_orc) (ex_apply false false 0) w1).2 = [("r1", ex_plan)].
Proof. by vm_compute. Qed.

(** A retry whose execution fails returns before the row the retry budget counts. *)
Definition ex_failing (s : stmt) : ans :=
  match s with
  | LExecutePlan _ _ _ => fails (EText "engine: batch failed")
  | _ => ex_orc s
  end.
Example failed_retries_are_not_counted :
  let w := (quiet (exec ex_failing) (RetryChange "pass" 9 ex_decode ex_verify ex_service ex_bob "r1" false ["h1"]) (ex_world "failed")).2 in
  w_audits w = [] /\ length (w_started w) = 1%nat /\ statusAfter w = Some "failed".
Proof. by vm_compute. Qed.

(** A refused demand leaves the plan it refuses on the run. *)
Example underprovisioned_plan_is_persisted :
  let '(r, w) := quiet (exec ex_orc2) (PlanChange "pass" 9 ex_decode2 ex_verify2 ex_inline ex_service ex_bob "r1" ["h1"] false) (ex_world "draft") in
  r = inl FailedPrecondition /\ (r_PlanHash <$> w_runs w !! "r1") = Some "sha-p2".
Proof. by vm_compute. Qed.

(** Emergency outranks high and takes one approver, so declaring it lets the
    creator of an irreversible change approve it alone. *)
Example emergency_is_self_approved :
  let p := ex_planAt "p1" "high" (Some (Dsl.MkApprovalSpec "emergency" [] "" 0 false)) in
  demand (fun _ => Some p) ex_inline p (ex_row "r1" "draft") = inr (MkDemand "emergency" ["alice"] 1 false).
Proof. by vm_compute. Qed.

(** A name listed twice counts twice towards the quorum, though it votes once. *)
Example duplicate_names_reach_the_quorum_on_paper :
  let p := ex_planAt "p1" "high" (Some (Dsl.MkApprovalSpec "high" ["bob"; "bob"] "" 0 false)) in
  let d := MkDemand "high" ["bob"; "bob"] 2 true in
  demand (fun _ => Some p) ex_inline p (ex_row "r1" "draft") = inr d /\
  forall x, Approval.recordChecks (Approval.withStatus (opened (ex_row "r1" "draft") d "a1" 0 9) Approval.StatusPending
    [Approval.MkDecision "bob" "approve" "" 1]) x <> None.
Proof.
  split; [by vm_compute|]. intros x Hc. apply opened_admits in Hc as [Hx Hd]; [|by cbn].
  change (voters _ _) with ["bob"; "bob"] in Hx. assert (x = "bob") as -> by (rewrite !elem_of_cons, elem_of_nil in Hx; naive_solver). done.
Qed.

(** Without a re-plan and without hosts, which is how the cluster executor resumes an
    interrupted run, a retry is refused. *)
Example executor_resume_is_refused :
  let '(r, w) := quiet (exec ex_orc) (RetryChange "pass" 9 ex_decode ex_verify ex_service ex_bob "r1" false []) (ex_world "interrupted") in
  r = inl Internal /\ w_started w = [] /\ statusAfter w = Some "interrupted".
Proof. by vm_compute. Qed.

(** A narrowed plan has no run snapshot, whatever the approved plan declares. *)
Example narrowing_drops_the_snapshot p hosts : Plan.p_RunSnapshot (narrowPlan p hosts) = None.
Proof. done. Qed.

End ApplyGate.
