(* ===== verification/Condition.v ===== *)
(** * Condition: label conditions

    The boolean expressions of conditional policies,
    src/internal/permission/abac.go: their syntax tree, evaluation, printing and
    the recursive-descent parser. The parser's position is the rest of its input.
    Parsing always ends ([parse_total]: the fuel is enough), what it accepts
    evaluates without error, and a printed condition parses back. *)

From Stdlib Require Import ZArith Lia Ascii String.
From stdpp Require Import base gmap strings list.
From S2P Require Import Prelude.
Open Scope string_scope.
Open Scope list_scope.

Module Condition.

Definition ErrInvalidCondition := "permission: invalid condition".
Definition ErrUnknownOperator := "permission: unknown operator".

Definition OpEq := "=".
Definition OpNeq := "!=".
Definition OpIn := "in".
Definition OpNotIn := "not_in".

Record labelAtom := MkAtom { la_key : string; la_op : string; la_values : list string }.

Inductive LabelCondition :=
| CTrue
| CLeaf (a : labelAtom)
| CBin (op : string) (l r : LabelCondition).

(** [None]: [values[0]] of an empty slice panics. *)
Definition evaluate (a : labelAtom) (labels : gmap string string) : option bool :=
  let v := default "" (labels !! la_key a) in
  if String.eqb (la_op a) OpEq then match la_values a with x :: _ => Some (String.eqb v x) | [] => None end
  else if String.eqb (la_op a) OpNeq then match la_values a with x :: _ => Some (negb (String.eqb v x)) | [] => None end
  else if String.eqb (la_op a) OpIn then Some (inSet (la_values a) v)
  else if String.eqb (la_op a) OpNotIn then Some (negb (inSet (la_values a) v))
  else Some false.

Fixpoint Evaluate (c : LabelCondition) (labels : gmap string string) : option (goerr + bool) :=
  match c with
  | CTrue => Some (inr true)
  | CLeaf a => inr <$> evaluate a labels
  | CBin op l r =>
      match Evaluate l labels with
      | Some (inr lv) =>
          match Evaluate r labels with
          | Some (inr rv) =>
              Some (if String.eqb op "AND" then inr (lv && rv)
                    else if String.eqb op "OR" then inr (lv || rv)
                    else inl (EWrap ("unknown combinator " +:+ op) (ESentinel ErrInvalidCondition)))
          | x => x
          end
      | x => x
      end
  end.

(** ** Printing *)

Definition atom_String (a : labelAtom) : string :=
  if String.eqb (la_op a) OpIn || String.eqb (la_op a) OpNotIn
  then la_key a +:+ " " +:+ la_op a +:+ " [" +:+ String.concat ", " (la_values a) +:+ "]"
  else la_key a +:+ " " +:+ la_op a +:+ " " +:+ hd "" (la_values a).

Fixpoint String_ (c : LabelCondition) : string :=
  match c with
  | CTrue => ""
  | CLeaf a => atom_String a
  | CBin op l r => "(" +:+ String_ l +:+ " " +:+ op +:+ " " +:+ String_ r +:+ ")"
  end.

(** ** Lexing *)

Definition tab : ascii := ascii_of_nat 9.
Definition dquote : ascii := ascii_of_nat 34.
Definition oneOf (l : list ascii) (c : ascii) : bool := existsb (Ascii.eqb c) l.
Definition between (lo hi c : ascii) : bool := (nat_of_ascii lo <=? nat_of_ascii c)%nat && (nat_of_ascii c <=? nat_of_ascii hi)%nat.
Definition identChar (c : ascii) : bool :=
  between "a" "z" c || between "A" "Z" c || between "0" "9" c || oneOf ["."; "_"; "-"]%char c.
Definition blank (c : ascii) : bool := oneOf [" "%char; tab] c.

Fixpoint skipSpaces (s : string) : string :=
  match s with String c r => if blank c then skipSpaces r else s | EmptyString => s end.

(** The longest prefix of characters satisfying [f], and the rest. *)
Fixpoint span (f : ascii -> bool) (s : string) : string * string :=
  match s with
  | String c r => if f c then let '(x, y) := span f r in (String c x, y) else ("", s)
  | EmptyString => ("", "")
  end.

Fixpoint stripPrefix (p s : string) : option string :=
  match p, s with
  | EmptyString, _ => Some s
  | String a p, String b s => if Ascii.eqb a b then stripPrefix p s else None
  | String _ _, EmptyString => None
  end.

(** [strings.TrimSpace]: the encodings of the white-space runes. *)
Definition bytes (l : list nat) : string := string_of_list_ascii (map ascii_of_nat l).
Definition spaceRunes : list string :=
  map bytes ([[9]; [10]; [11]; [12]; [13]; [32]; [194; 133]; [194; 160]; [225; 154; 128];
    [226; 128; 168]; [226; 128; 169]; [226; 128; 175]; [226; 129; 159]; [227; 128; 128]]
    ++ map (fun k => [226; 128; 128 + k]) (seq 0 11))%nat.

Fixpoint dropRunes (enc : list string) (fuel : nat) (s : string) : string :=
  match fuel with
  | O => s
  | S n => match omap (fun p => stripPrefix p s) enc with r :: _ => dropRunes enc n r | [] => s end
  end.

Definition trimLeft (s : string) : string := dropRunes spaceRunes (String.length s) s.
Definition trimRight (s : string) : string :=
  String.rev (dropRunes (map String.rev spaceRunes) (String.length s) (String.rev s)).
Definition TrimSpace (s : string) : string := trimRight (trimLeft s).

(** ** Parsing: an error, or a value and the rest. *)

Definition presult (A : Type) : Type := goerr + A * string.
Definition bad {A} (msg : string) : presult A := inl (EWrap msg (ESentinel ErrInvalidCondition)).

(** A keyword ends the input or is followed by a blank, a bracket or a quote. *)
Definition consumeKeyword (kw s : string) : option string :=
  match stripPrefix kw s with
  | Some (String c r) => if oneOf [" "%char; tab; "("%char; "["%char; dquote; "'"%char] c then Some (String c r) else None
  | x => x
  end.

Definition parseIdent (s : string) : presult string :=
  match span identChar s with
  | (EmptyString, _) => bad "expected identifier"
  | (x, r) => inr (x, r)
  end.

Definition parseOperator (s : string) : presult string :=
  match s with
  | EmptyString => bad "expected operator"
  | String c r =>
      match stripPrefix "!=" s with
      | Some r => inr (OpNeq, r)
      | None =>
          if Ascii.eqb c "=" then inr (OpEq, r)
          else
            match consumeKeyword OpNotIn s with
            | Some r => inr (OpNotIn, r)
            | None => match consumeKeyword OpIn s with
                      | Some r => inr (OpIn, r)
                      | None => inl (EWrap "unknown operator" (ESentinel ErrUnknownOperator))
                      end
            end
      end
  end.

Definition parseValue (s : string) : presult string :=
  match skipSpaces s with
  | EmptyString => bad "expected value"
  | String c r =>
      if Ascii.eqb c dquote || Ascii.eqb c "'" then
        match span (fun x => negb (Ascii.eqb x c)) r with
        | (v, String _ r) => inr (v, r)
        | (_, EmptyString) => bad "unterminated string"
        end
      else parseIdent (String c r)
  end.

Definition startsWith (c : ascii) (s : string) : option string :=
  match s with String x r => if Ascii.eqb x c then Some r else None | EmptyString => None end.

(** [None]: the fuel ran out. *)
Fixpoint listLoop (fuel : nat) (values : list string) (s : string) : option (presult (list string)) :=
  match fuel with
  | O => None
  | S n =>
      let s := skipSpaces s in
      match startsWith "]" s with
      | Some r => Some (inr (values, r))
      | None =>
          match parseValue s with
          | inl e => Some (inl e)
          | inr (v, s) =>
              let s := skipSpaces s in
              match startsWith "," s with
              | Some r => listLoop n (values ++ [v]) r
              | None => match startsWith "]" (skipSpaces s) with
                        | Some r => Some (inr (values ++ [v], r))
                        | None => Some (bad "expected , or ]")
                        end
              end
          end
      end
  end.

Definition parseList (s : string) : option (presult (list string)) :=
  match startsWith "[" (skipSpaces s) with
  | None => Some (bad "expected [")
  | Some r => match listLoop (S (String.length r)) [] r with
              | Some (inr ([], _)) => Some (bad "empty list")
              | x => x
              end
  end.

Definition parseComparison (s : string) : option (presult LabelCondition) :=
  match parseIdent s with
  | inl e => Some (inl e)
  | inr (key, s) =>
      match parseOperator (skipSpaces s) with
      | inl e => Some (inl e)
      | inr (op, s) =>
          let s := skipSpaces s in
          let values := if String.eqb op OpIn || String.eqb op OpNotIn then parseList s
                        else Some (match parseValue s with inl e => inl e | inr (v, r) => inr ([v], r) end) in
          match values with
          | None => None
          | Some (inl e) => Some (inl e)
          | Some (inr (vs, r)) => Some (inr (CLeaf (MkAtom key op vs), r))
          end
      end
  end.

Fixpoint parseOr (fuel : nat) (s : string) : option (presult LabelCondition) :=
  match fuel with
  | O => None
  | S n => match parseAnd n s with Some (inr (left_, s)) => orLoop n left_ s | x => x end
  end
with orLoop (fuel : nat) (left_ : LabelCondition) (s : string) : option (presult LabelCondition) :=
  match fuel with
  | O => None
  | S n =>
      let s := skipSpaces s in
      match consumeKeyword "OR" s with
      | None => Some (inr (left_, s))
      | Some s => match parseAnd n (skipSpaces s) with
                  | Some (inr (right_, s)) => orLoop n (CBin "OR" left_ right_) s
                  | x => x
                  end
      end
  end
with parseAnd (fuel : nat) (s : string) : option (presult LabelCondition) :=
  match fuel with
  | O => None
  | S n => match parseAtom n s with Some (inr (left_, s)) => andLoop n left_ s | x => x end
  end
with andLoop (fuel : nat) (left_ : LabelCondition) (s : string) : option (presult LabelCondition) :=
  match fuel with
  | O => None
  | S n =>
      let s := skipSpaces s in
      match consumeKeyword "AND" s with
      | None => Some (inr (left_, s))
      | Some s => match parseAtom n (skipSpaces s) with
                  | Some (inr (right_, s)) => andLoop n (CBin "AND" left_ right_) s
                  | x => x
                  end
      end
  end
with parseAtom (fuel : nat) (s : string) : option (presult LabelCondition) :=
  match fuel with
  | O => None
  | S n =>
      let s := skipSpaces s in
      match startsWith "(" s with
      | Some r => match parseOr n r with
                  | Some (inr (inner, s)) => match startsWith ")" (skipSpaces s) with
                                             | Some r => Some (inr (inner, r))
                                             | None => Some (bad "missing closing paren")
                                             end
                  | x => x
                  end
      | None => parseComparison s
      end
  end.

(** Three nested calls per character, at most. *)
Definition parseFuel (s : string) : nat := 3 * String.length s + 3.

Definition ParseLabelCondition (s : string) : option (goerr + LabelCondition) :=
  let s := TrimSpace s in
  if String.eqb s "" then Some (inr CTrue)
  else match parseOr (parseFuel s) s with
       | None => None
       | Some (inl e) => Some (inl e)
       | Some (inr (c, EmptyString)) => Some (inr c)
       | Some (inr (_, String _ _)) => Some (inl (EWrap "trailing input" (ESentinel ErrInvalidCondition)))
       end.

Example parse_precedence :
  ParseLabelCondition "  target.env = prod AND change.risk not_in [low, 'very low'] OR (target.env != 'x y')" =
  Some (inr (CBin "OR" (CBin "AND" (CLeaf (MkAtom "target.env" "=" ["prod"])) (CLeaf (MkAtom "change.risk" "not_in" ["low"; "very low"])))
    (CLeaf (MkAtom "target.env" "!=" ["x y"])))).
Proof. by vm_compute. Qed.

(** ** Lengths: every parser consumes *)

#[local] Arguments blank : simpl never.
#[local] Arguments identChar : simpl never.
#[local] Arguments oneOf : simpl never.
#[local] Arguments String.append !_ _ : simpl nomatch.
#[local] Arguments errors_Is : simpl nomatch.

Lemma append_cons x (a b : string) : String x a +:+ b = String x (a +:+ b).
Proof. done. Qed.
Lemma append_assoc (a b c : string) : (a +:+ b) +:+ c = a +:+ b +:+ c.
Proof. induction a as [|x a IH]; [done|]. rewrite !append_cons. by rewrite IH. Qed.
Lemma append_empty (a : string) : a +:+ "" = a.
Proof. induction a as [|x a IH]; [done|]. rewrite !append_cons. by rewrite IH. Qed.
Lemma length_append (a b : string) : String.length (a +:+ b) = (String.length a + String.length b)%nat.
Proof. induction a as [|x a IH]; [done|]. rewrite append_cons. cbn. by rewrite IH. Qed.

Lemma skipSpaces_length s : (String.length (skipSpaces s) <= String.length s)%nat.
Proof. induction s as [|c s IH]; [done|]. cbn [skipSpaces]. destruct (blank c); cbn [String.length]; lia. Qed.

Lemma span_append f s : let '(x, y) := span f s in s = x +:+ y.
Proof. induction s as [|c s IH]; [done|]. cbn [span]. destruct (f c); [|done]. destruct (span f s) as [x y]. by rewrite append_cons, <- IH. Qed.

Lemma stripPrefix_append p s r : stripPrefix p s = Some r <-> s = p +:+ r.
Proof.
  revert s. induction p as [|a p IH]; intros s; cbn; [split; [by intros [= ->]|by intros ->]|].
  destruct s as [|b s]; [split; [done|intros [=]]|]. destruct (Ascii.eqb_spec a b) as [->|Hab].
  - rewrite IH. split; [by intros ->|by intros [= ->]].
  - split; [done|]. intros [= ->]. done.
Qed.

Lemma consumeKeyword_append kw s r : consumeKeyword kw s = Some r -> s = kw +:+ r.
Proof.
  unfold consumeKeyword. destruct (stripPrefix kw s) as [[|c x]|] eqn:E; [|destruct (oneOf _ c)|]; intros [= <-]; by apply stripPrefix_append in E.
Qed.

Lemma startsWith_cons c s r : startsWith c s = Some r <-> s = String c r.
Proof.
  destruct s as [|x s]; cbn; [split; [done|intros [=]]|]. destruct (Ascii.eqb_spec x c) as [->|H].
  - split; [by intros [= ->]|by intros [= ->]].
  - split; [done|]. intros [= -> ->]. done.
Qed.

(** What a result promises about the rest. *)
Definition shorter {A} (s : string) (P : A -> Prop) (x : option (presult A)) : Prop :=
  match x with
  | None => False
  | Some (inl e) => errors_Is e ErrInvalidCondition || errors_Is e ErrUnknownOperator = true
  | Some (inr (a, r)) => (String.length r < String.length s)%nat /\ P a
  end.

Lemma shorter_weaken {A} (s s' : string) (P Q : A -> Prop) x :
  (String.length s <= String.length s')%nat -> (forall a, P a -> Q a) -> shorter s P x -> shorter s' Q x.
Proof. intros Hl HPQ. destruct x as [[e|[a r]]|]; cbn; [done| |done]. intros [? ?]. split; [lia|auto]. Qed.

Lemma parseIdent_shorter s : shorter s (fun x => x <> "") (Some (parseIdent s)).
Proof.
  unfold parseIdent. pose proof (span_append identChar s) as H. destruct (span identChar s) as [[|c x] r]; [by cbn|].
  cbn. subst s. rewrite length_append. cbn. split; [lia|done].
Qed.

Lemma parseOperator_shorter s : shorter s (fun op => op ∈ [OpEq; OpNeq; OpIn; OpNotIn]) (Some (parseOperator s)).
Proof.
  unfold parseOperator. destruct s as [|c s]; [by cbn|].
  destruct (stripPrefix "!=" (String c s)) as [r|] eqn:E1.
  { apply stripPrefix_append in E1. rewrite E1. cbn. split; [lia|set_solver]. }
  destruct (Ascii.eqb c "="); [cbn; split; [lia|set_solver]|].
  destruct (consumeKeyword OpNotIn (String c s)) as [r|] eqn:E2.
  { apply consumeKeyword_append in E2. rewrite E2. cbn. split; [lia|set_solver]. }
  destruct (consumeKeyword OpIn (String c s)) as [r|] eqn:E3; [|by cbn].
  apply consumeKeyword_append in E3. rewrite E3. cbn. split; [lia|set_solver].
Qed.

Lemma parseValue_shorter s : shorter s (fun _ => True) (Some (parseValue s)).
Proof.
  unfold parseValue. pose proof (skipSpaces_length s) as Hs. destruct (skipSpaces s) as [|c r]; [by cbn|]. cbn in Hs.
  destruct (_ || _).
  - pose proof (span_append (fun x => negb (Ascii.eqb x c)) r) as H. destruct (span _ r) as [v [|q y]]; [by cbn|].
    cbn. subst r. rewrite length_append in Hs. cbn in Hs. split; [lia|done].
  - eapply shorter_weaken; [|done|apply parseIdent_shorter]. by cbn.
Qed.

Lemma listLoop_shorter fuel vs s : (String.length s < fuel)%nat -> shorter s (fun _ => True) (listLoop fuel vs s).
Proof.
  revert vs s. induction fuel as [|n IH]; intros vs s Hf; [lia|]. cbn [listLoop]. pose proof (skipSpaces_length s) as Hs.
  destruct (startsWith "]" (skipSpaces s)) as [r|] eqn:E1.
  { apply startsWith_cons in E1. rewrite E1 in Hs. cbn in *. split; [lia|done]. }
  pose proof (parseValue_shorter (skipSpaces s)) as Hv. destruct (parseValue (skipSpaces s)) as [e|[v s1]]; [exact Hv|].
  destruct Hv as [Hv _]. pose proof (skipSpaces_length s1) as Hs1.
  destruct (startsWith "," (skipSpaces s1)) as [r|] eqn:E2.
  { apply startsWith_cons in E2. rewrite E2 in Hs1. cbn in Hs1. eapply shorter_weaken; [|done|apply IH; lia]. lia. }
  pose proof (skipSpaces_length (skipSpaces s1)) as Hs2. destruct (startsWith "]" (skipSpaces (skipSpaces s1))) as [r|] eqn:E3; [|by cbn].
  apply startsWith_cons in E3. rewrite E3 in Hs2. cbn in *. split; [lia|done].
Qed.

Lemma parseList_shorter s : shorter s (fun vs => vs <> []) (parseList s).
Proof.
  unfold parseList. pose proof (skipSpaces_length s) as Hs. destruct (startsWith "[" (skipSpaces s)) as [r|] eqn:E; [|by cbn].
  apply startsWith_cons in E. rewrite E in Hs. cbn in Hs. pose proof (listLoop_shorter (S (String.length r)) [] r ltac:(lia)) as H.
  destruct (listLoop _ _ _) as [[e|[[|v vs] y]]|]; [exact H|by cbn| |exact H]. cbn in *. split; [lia|done].
Qed.

(** The shape of what is parsed. *)
Definition atomOk (a : labelAtom) : Prop := la_values a <> [] /\ la_op a ∈ [OpEq; OpNeq; OpIn; OpNotIn].
Fixpoint condOk (c : LabelCondition) : Prop :=
  match c with CTrue => True | CLeaf a => atomOk a | CBin op l r => (op = "AND" \/ op = "OR") /\ condOk l /\ condOk r end.

Lemma parseComparison_shorter s : shorter s condOk (parseComparison s).
Proof.
  unfold parseComparison. pose proof (parseIdent_shorter s) as Hi. destruct (parseIdent s) as [e|[key s1]]; [exact Hi|].
  destruct Hi as [Hi _]. pose proof (skipSpaces_length s1). pose proof (parseOperator_shorter (skipSpaces s1)) as Ho.
  destruct (parseOperator _) as [e|[op s2]]; [exact Ho|]. destruct Ho as [Hl Ho]. pose proof (skipSpaces_length s2).
  destruct (_ || _).
  - pose proof (parseList_shorter (skipSpaces s2)) as H1. destruct (parseList _) as [[e|[vs r]]|]; [exact H1| |exact H1].
    destruct H1. split; [lia|]. by split.
  - pose proof (parseValue_shorter (skipSpaces s2)) as H1. destruct (parseValue _) as [e|[v r]]; [exact H1|].
    destruct H1. split; [lia|]. by split.
Qed.

(** *** The grammar *)

Definition consumes (P : LabelCondition -> Prop) (k : nat) (strict : bool) (n : nat) (f : string -> option (presult LabelCondition)) : Prop :=
  forall s, (3 * String.length s + k <= n)%nat -> shorter (if strict then s else String " " s) P (f s).

Lemma parser_shorter n :
  consumes condOk 3 true n (parseOr n) /\ (forall l, condOk l -> consumes condOk 1 false n (orLoop n l)) /\
  consumes condOk 2 true n (parseAnd n) /\ (forall l, condOk l -> consumes condOk 1 false n (andLoop n l)) /\
  consumes condOk 1 true n (parseAtom n).
Proof.
  induction n as [|n (IHor & IHol & IHand & IHal & IHat)]; [split_and!; intros; intros s Hs; lia|].
  split_and!.
  - intros s Hs. cbn [parseOr]. pose proof (IHand s ltac:(lia)) as H. destruct (parseAnd n s) as [[e|[l r]]|]; [exact H| |exact H].
    destruct H as [Hl Hc]. pose proof (IHol l Hc r ltac:(lia)) as H. eapply shorter_weaken; [|done|exact H]. cbn. lia.
  - intros l Hl s Hs. cbn [orLoop]. pose proof (skipSpaces_length s) as Hk. destruct (consumeKeyword "OR" (skipSpaces s)) as [s1|] eqn:E; [|cbn; split; [lia|done]].
    apply consumeKeyword_append in E. rewrite E, length_append in Hk. cbn in Hk. pose proof (skipSpaces_length s1) as Hk1.
    pose proof (IHand (skipSpaces s1) ltac:(lia)) as H. destruct (parseAnd n _) as [[e|[c r]]|]; [exact H| |exact H].
    destruct H as [H Hc]. pose proof (IHol (CBin "OR" l c) ltac:(by split_and!; [right| |]) r ltac:(lia)) as H2.
    eapply shorter_weaken; [|done|exact H2]. cbn. lia.
  - intros s Hs. cbn [parseAnd]. pose proof (IHat s ltac:(lia)) as H. destruct (parseAtom n s) as [[e|[l r]]|]; [exact H| |exact H].
    destruct H as [Hl Hc]. pose proof (IHal l Hc r ltac:(lia)) as H. eapply shorter_weaken; [|done|exact H]. cbn. lia.
  - intros l Hl s Hs. cbn [andLoop]. pose proof (skipSpaces_length s) as Hk. destruct (consumeKeyword "AND" (skipSpaces s)) as [s1|] eqn:E; [|cbn; split; [lia|done]].
    apply consumeKeyword_append in E. rewrite E, length_append in Hk. cbn in Hk. pose proof (skipSpaces_length s1) as Hk1.
    pose proof (IHat (skipSpaces s1) ltac:(lia)) as H. destruct (parseAtom n _) as [[e|[c r]]|]; [exact H| |exact H].
    destruct H as [H Hc]. pose proof (IHal (CBin "AND" l c) ltac:(by split_and!; [left| |]) r ltac:(lia)) as H2.
    eapply shorter_weaken; [|done|exact H2]. cbn. lia.
  - intros s Hs. cbn [parseAtom]. pose proof (skipSpaces_length s) as Hk. destruct (startsWith "(" (skipSpaces s)) as [r|] eqn:E.
    + apply startsWith_cons in E. rewrite E in Hk. cbn in Hk. pose proof (IHor r ltac:(lia)) as H.
      destruct (parseOr n r) as [[e|[c s1]]|]; [exact H| |exact H]. destruct H as [H Hc]. pose proof (skipSpaces_length s1) as Hk1.
      destruct (startsWith ")" _) as [y|] eqn:E2; [|by cbn]. apply startsWith_cons in E2. rewrite E2 in Hk1. cbn in *. split; [lia|done].
    + eapply shorter_weaken; [exact Hk|done|apply parseComparison_shorter].
Qed.

Lemma condOk_evaluates c labels : condOk c -> exists b, Evaluate c labels = Some (inr b).
Proof.
  induction c as [|a|op l IHl r IHr]; cbn; [by exists true| |].
  - intros [Hv Ho]. unfold evaluate. destruct (la_values a) as [|x vs]; [done|].
    rewrite !elem_of_cons, elem_of_nil in Ho. destruct Ho as [->|[->|[->|[->|[]]]]]; eexists; reflexivity.
  - intros (Hop & Hl & Hr). destruct (IHl Hl) as [x ->]. destruct (IHr Hr) as [y ->]. destruct Hop as [-> | ->]; eexists; reflexivity.
Qed.

Lemma parse_outcome s : exists r, ParseLabelCondition s = Some r /\
  match r with inl e => errors_Is e ErrInvalidCondition || errors_Is e ErrUnknownOperator = true | inr c => condOk c end.
Proof.
  unfold ParseLabelCondition. destruct (String.eqb (TrimSpace s) "") eqn:E; [by eexists|].
  pose proof (proj1 (parser_shorter (parseFuel (TrimSpace s))) (TrimSpace s) ltac:(done)) as H.
  destruct (parseOr _ _) as [[e|[c [|x r]]]|]; [| | |done]; eexists; (split; [done|]); [exact H| |done]. apply H.
Qed.

(** Parsing a condition always ends: every text is either refused with one of the
    two sentinels, or yields a condition that evaluates to a verdict, without an error
    and without a panic, whatever the labels. *)
Theorem parse_total (s : string) :
  exists r, ParseLabelCondition s = Some r /\
    match r with
    | inl e => errors_Is e ErrInvalidCondition || errors_Is e ErrUnknownOperator = true
    | inr c => forall labels, exists b, Evaluate c labels = Some (inr b)
    end.
Proof.
  destruct (parse_outcome s) as ([e|c] & -> & H); eexists; (split; [done|]); [done|]. intros labels. by apply condOk_evaluates.
Qed.

(** ** Printed conditions parse back *)

Fixpoint allChars (f : ascii -> bool) (s : string) : bool := match s with EmptyString => true | String c s => f c && allChars f s end.
Definition identifier (s : string) : bool := negb (String.eqb s "") && allChars identChar s.

(** Conditions whose keys and values are identifiers; printing does not quote. *)
Definition plainAtom (a : labelAtom) : bool :=
  identifier (la_key a) && forallb identifier (la_values a) &&
  (if inSet [OpIn; OpNotIn] (la_op a) then negb (bool_decide (la_values a = []))
   else inSet [OpEq; OpNeq] (la_op a) && bool_decide (length (la_values a) = 1%nat)).
Fixpoint plain (c : LabelCondition) : bool :=
  match c with CTrue => false | CLeaf a => plainAtom a | CBin op l r => inSet ["AND"; "OR"] op && plain l && plain r end.

Lemma char_cases (P : ascii -> bool) : forallb (fun n => P (ascii_of_nat n)) (seq 0 256) = true -> forall c, P c = true.
Proof.
  intros H c. rewrite forallb_forall in H. rewrite <- (ascii_nat_embedding c). apply H, in_seq. pose proof (nat_ascii_bounded c). lia.
Qed.

(** Identifier characters are none of the others. *)
Definition special : list ascii := [" "; "("; ")"; "["; "]"; ","; "="; "!"; "'"]%char ++ [tab; dquote].
Lemma ident_special c : identChar c = true -> oneOf special c = false.
Proof.
  intros H. pose proof (char_cases (fun c => negb (identChar c) || negb (oneOf special c)) ltac:(by vm_compute) c) as E.
  cbn beta in E. rewrite H in E. by apply negb_true_iff in E.
Qed.

Lemma ident_ne c d : identChar c = true -> oneOf special d = true -> Ascii.eqb c d = false.
Proof. intros Hc Hd. apply Ascii.eqb_neq. intros ->. rewrite ident_special in Hd; done. Qed.

(** The next character ends an identifier. *)
Definition stops (s : string) : bool := match s with EmptyString => true | String c _ => negb (identChar c) end.

Lemma span_ident x r : allChars identChar x = true -> stops r = true -> span identChar (x +:+ r) = (x, r).
Proof.
  intros Hx Hr. induction x as [|c x IH]; cbn [allChars] in Hx.
  - destruct r as [|c r]; [done|]. cbn. cbn in Hr. apply negb_true_iff in Hr. by rewrite Hr.
  - apply andb_true_iff in Hx as [Hc Hx]. rewrite append_cons. cbn [span]. by rewrite Hc, IH.
Qed.

Lemma identifier_cons x : identifier x = true -> exists c y, x = String c y /\ identChar c = true.
Proof. destruct x as [|c y]; cbn; [done|]. intros [Hc _]%andb_true_iff. by exists c, y. Qed.

Lemma parseIdent_print x r : identifier x = true -> stops r = true -> parseIdent (x +:+ r) = inr (x, r).
Proof.
  intros Hx Hr. destruct (identifier_cons x Hx) as (c & y & E & _). unfold identifier in Hx. apply andb_true_iff in Hx as [_ Hx].
  unfold parseIdent. rewrite span_ident by done. by rewrite E.
Qed.

Lemma skip_ident x r : identifier x = true -> skipSpaces (x +:+ r) = x +:+ r.
Proof.
  intros (c & y & -> & Hc)%identifier_cons. rewrite append_cons. cbn [skipSpaces]. unfold blank, oneOf, existsb.
  by rewrite !(ident_ne c) by done.
Qed.

Lemma starts_ident d x r : identifier x = true -> oneOf special d = true -> startsWith d (x +:+ r) = None.
Proof. intros (c & y & -> & Hc)%identifier_cons Hd. rewrite append_cons. cbn [startsWith]. by rewrite ident_ne. Qed.

Lemma parseValue_print x r : identifier x = true -> stops r = true -> parseValue (x +:+ r) = inr (x, r).
Proof.
  intros Hx Hr. unfold parseValue. rewrite skip_ident by done. destruct (identifier_cons x Hx) as (c & y & E & Hc).
  rewrite E, append_cons, !(ident_ne c) by done. cbn [orb]. rewrite <- append_cons, <- E. by apply parseIdent_print.
Qed.

Lemma listLoop_print vs acc r n : vs <> [] -> forallb identifier vs = true -> (length vs <= n)%nat ->
  listLoop n acc (String.concat ", " vs +:+ "]" +:+ r) = Some (inr (acc ++ vs, r)).
Proof.
  revert acc n. induction vs as [|v vs IH]; intros acc n Hne Hv Hn; [done|]. cbn [forallb] in Hv. apply andb_true_iff in Hv as [Hv Hvs].
  destruct n as [|n]; [cbn in Hn; lia|]. cbn [listLoop]. destruct vs as [|v' vs].
  - cbn [String.concat]. rewrite skip_ident, starts_ident, parseValue_print by done. by cbn.
  - change (String.concat ", " (v :: v' :: vs)) with (v +:+ ", " +:+ String.concat ", " (v' :: vs)). rewrite !append_assoc.
    rewrite skip_ident, starts_ident, parseValue_print by done. set (rest := String.concat ", " (v' :: vs) +:+ "]" +:+ r).
    change (skipSpaces (", " +:+ rest)) with (String "," (String " " rest)).
    change (startsWith "," (String "," (String " " rest))) with (Some (String " " rest)). cbn iota.
    destruct n as [|n]; [cbn in Hn; lia|]. assert (E : forall a s, listLoop (S n) a (String " " s) = listLoop (S n) a s) by done.
    rewrite E. subst rest. rewrite IH by (done || cbn in *; lia). by rewrite <- app_assoc.
Qed.

Lemma concat_length vs : forallb identifier vs = true -> (length vs <= String.length (String.concat ", " vs))%nat.
Proof.
  induction vs as [|v vs IH]; [cbn; lia|]. cbn [forallb]. intros [(c & y & -> & _)%identifier_cons Hvs]%andb_true_iff.
  specialize (IH Hvs). destruct vs as [|v' vs]; [cbn; lia|].
  change (String.concat ", " (String c y :: v' :: vs)) with (String c y +:+ ", " +:+ String.concat ", " (v' :: vs)).
  rewrite !length_append. cbn [String.length length] in *. lia.
Qed.

Lemma parseList_print vs r : vs <> [] -> forallb identifier vs = true ->
  parseList (" [" +:+ String.concat ", " vs +:+ "]" +:+ r) = Some (inr (vs, r)).
Proof.
  intros Hne Hv. unfold parseList. set (z := String.concat ", " vs +:+ "]" +:+ r).
  change (startsWith "[" (skipSpaces (" [" +:+ z))) with (Some z). cbn iota. subst z. rewrite listLoop_print; [by destruct vs|done|done|].
  rewrite length_append. pose proof (concat_length vs Hv). lia.
Qed.

(** The operator, between blanks. *)
Lemma operator_print op z : inSet [OpEq; OpNeq; OpIn; OpNotIn] op = true -> parseOperator (skipSpaces (" " +:+ op +:+ " " +:+ z)) = inr (op, " " +:+ z).
Proof. intros H. apply inSet_spec in H. rewrite !elem_of_cons, elem_of_nil in H. by destruct H as [->|[->|[->|[->|[]]]]]. Qed.

Lemma parseComparison_print a r : plainAtom a = true -> stops r = true -> parseComparison (atom_String a +:+ r) = Some (inr (CLeaf a, r)).
Proof.
  destruct a as [key op vs]. unfold plainAtom, atom_String. cbn [la_key la_op la_values]. intros [[Hk Hv]%andb_true_iff Hop]%andb_true_iff Hr.
  destruct (inSet [OpIn; OpNotIn] op) eqn:Eop.
  - apply negb_true_iff, bool_decide_eq_false in Hop. assert (E : String.eqb op OpIn || String.eqb op OpNotIn = true).
    { apply inSet_spec in Eop. rewrite !elem_of_cons, elem_of_nil in Eop. by destruct Eop as [->|[->|[]]]. }
    rewrite E, !append_assoc. unfold parseComparison. rewrite parseIdent_print by done.
    change (" [" +:+ String.concat ", " vs +:+ "]" +:+ r) with (" " +:+ "[" +:+ String.concat ", " vs +:+ "]" +:+ r).
    rewrite operator_print by (apply inSet_spec in Eop; apply inSet_spec; set_solver). rewrite E.
    assert (Hs : forall z, parseList (skipSpaces (" " +:+ z)) = parseList (skipSpaces z)) by done. rewrite Hs.
    assert (Hs2 : forall z, parseList (skipSpaces ("[" +:+ z)) = parseList (" [" +:+ z)) by done. by rewrite Hs2, parseList_print.
  - apply andb_true_iff in Hop as [Hop Hl%bool_decide_eq_true]. destruct vs as [|v [|? ?]]; try done. cbn [forallb] in Hv. apply andb_true_iff in Hv as [Hv _].
    assert (E : String.eqb op OpIn || String.eqb op OpNotIn = false).
    { apply inSet_spec in Hop. rewrite !elem_of_cons, elem_of_nil in Hop. by destruct Hop as [->|[->|[]]]. }
    rewrite E, !append_assoc. unfold parseComparison. rewrite parseIdent_print by done. cbn [hd].
    rewrite operator_print by (apply inSet_spec in Hop; apply inSet_spec; set_solver). rewrite E.
    change (skipSpaces (" " +:+ v +:+ r)) with (skipSpaces (v +:+ r)). rewrite skip_ident by done. by rewrite parseValue_print.
Qed.

(** The first character of a printed condition is an opening parenthesis or an
    identifier's. *)
Lemma print_head c : plain c = true -> exists x y, String_ c = String x y /\ (x = "("%char \/ identChar x = true).
Proof.
  destruct c as [|a|op l r]; [done| |].
  - cbn [plain]. unfold plainAtom. intros [[(x & y & E & Hx)%identifier_cons _]%andb_true_iff _]%andb_true_iff. cbn [String_]. unfold atom_String.
    destruct (_ || _); rewrite E; eexists x, _; (split; [by rewrite append_cons|by right]).
  - intros _. eexists _, _. split; [done|by left].
Qed.

Lemma skip_print c r : plain c = true -> skipSpaces (String_ c +:+ r) = String_ c +:+ r.
Proof.
  intros (x & y & -> & Hx)%print_head. rewrite append_cons. cbn [skipSpaces]. destruct Hx as [->|Hx]; [done|].
  unfold blank, oneOf, existsb. by rewrite !(ident_ne x) by done.
Qed.

Lemma starts_comparison a r : plainAtom a = true -> startsWith "(" (atom_String a +:+ r) = None.
Proof.
  unfold plainAtom. intros [[Hk _]%andb_true_iff _]%andb_true_iff. unfold atom_String. destruct (_ || _); rewrite !append_assoc; by apply starts_ident.
Qed.

Lemma parseAtom_print c : plain c = true -> forall r n, stops r = true -> (String.length (String_ c) < n)%nat ->
  parseAtom n (String_ c +:+ r) = Some (inr (c, r)).
Proof.
  induction c as [|a|op l IHl r IHr]; intros Hc s n Hs Hn; [done| |].
  - destruct n as [|n]; [lia|]. cbn [parseAtom]. rewrite skip_print by done. cbn [String_ plain] in *. rewrite starts_comparison by done.
    by apply parseComparison_print.
  - cbn [plain] in Hc. apply andb_true_iff in Hc as [[Hop Hl]%andb_true_iff Hr]. cbn [String_] in Hn. rewrite !length_append in Hn. cbn [String.length] in Hn.
    do 4 (destruct n as [|n]; [lia|]). cbn [String_]. rewrite !append_assoc.
    set (z := String_ l +:+ " " +:+ op +:+ " " +:+ String_ r +:+ ")" +:+ s). change (parseAtom (S (S (S (S n)))) ("(" +:+ z)) with
      (match parseOr (S (S (S n))) z with
       | Some (inr (inner, s)) => match startsWith ")" (skipSpaces s) with
                                  | Some r => Some (inr (inner, r)) | None => Some (bad "missing closing paren") end
       | x => x end). subst z.
    assert (E : parseOr (S (S (S n))) (String_ l +:+ " " +:+ op +:+ " " +:+ String_ r +:+ ")" +:+ s) = Some (inr (CBin op l r, ")" +:+ s))); [|by rewrite E].
    cbn [parseOr parseAnd]. rewrite IHl by (done || lia).
    apply inSet_spec in Hop. rewrite !elem_of_cons, elem_of_nil in Hop. destruct Hop as [->|[->|[]]]; cbn [String.length] in Hn.
    + assert (Ha : forall m z, andLoop (S m) l (" " +:+ "AND" +:+ " " +:+ z) =
        match parseAtom m (skipSpaces z) with Some (inr (right_, s)) => andLoop m (CBin "AND" l right_) s | x => x end) by done.
      rewrite Ha, skip_print, IHr by (done || lia). destruct n; [lia|done].
    + assert (Ha : forall m z, andLoop (S m) l (" " +:+ "OR" +:+ " " +:+ z) = Some (inr (l, "OR" +:+ " " +:+ z))) by done. rewrite Ha.
      assert (Ho : forall m z, orLoop (S m) l ("OR" +:+ " " +:+ z) =
        match parseAnd m (skipSpaces z) with Some (inr (right_, s)) => orLoop m (CBin "OR" l right_) s | x => x end) by done.
      rewrite Ho, skip_print by done. cbn [parseAnd]. rewrite IHr by (done || lia). destruct n; [lia|done].
Qed.

(** *** Nothing to trim *)

Definition headOk (enc : list string) (x : ascii) : bool :=
  forallb (fun p => match p with String a _ => negb (Ascii.eqb a x) | EmptyString => false end) enc.

Lemma dropRunes_none enc n x y : headOk enc x = true -> dropRunes enc n (String x y) = String x y.
Proof.
  intros H. destruct n as [|n]; [done|]. cbn [dropRunes]. assert (E : omap (fun p => stripPrefix p (String x y)) enc = []); [|by rewrite E].
  induction enc as [|p enc IH]; [done|]. cbn [headOk forallb] in H. apply andb_true_iff in H as [Hp H]. cbn [omap list_omap].
  destruct p as [|a p]; [done|]. cbn [stripPrefix]. apply negb_true_iff in Hp. rewrite Hp. by apply IH.
Qed.

Definition edge (x : ascii) : bool := identChar x || oneOf ["("; ")"; "]"]%char x.
Lemma edge_ok x : edge x = true -> headOk spaceRunes x = true /\ headOk (map String.rev spaceRunes) x = true.
Proof.
  intros H. pose proof (char_cases (fun c => negb (edge c) || (headOk spaceRunes c && headOk (map String.rev spaceRunes) c)) ltac:(by vm_compute) x) as E.
  cbn beta in E. rewrite H in E. by apply andb_true_iff in E.
Qed.

Lemma rev_acc s u : String.rev_app s u = String.rev s +:+ u.
Proof.
  unfold String.rev. revert u. induction s as [|a s IH]; intros u; [done|]. cbn [String.rev_app]. rewrite IH, (IH (String a "")), append_assoc. done.
Qed.
Lemma rev_append s u : String.rev (s +:+ u) = String.rev u +:+ String.rev s.
Proof.
  induction s as [|a s IH]; [by rewrite append_empty|]. rewrite append_cons. unfold String.rev at 1 3. cbn [String.rev_app].
  by rewrite !(rev_acc _ (String a "")), IH, append_assoc.
Qed.
Lemma rev_rev s : String.rev (String.rev s) = s.
Proof.
  induction s as [|a s IH]; [done|]. change (String a s) with (String a "" +:+ s) at 1. by rewrite !rev_append, IH.
Qed.

Lemma trim_edges x y z w s : s = String x y -> s = z +:+ String w "" -> edge x = true -> edge w = true -> TrimSpace s = s.
Proof.
  intros H1 H2 Hx Hw. apply edge_ok in Hx as [Hx _]. apply edge_ok in Hw as [_ Hw].
  assert (E : trimLeft s = s) by (unfold trimLeft; rewrite H1; by apply dropRunes_none).
  unfold TrimSpace. rewrite E. unfold trimRight. rewrite <- (rev_rev s) at 3. f_equal. rewrite H2, rev_append. by apply dropRunes_none.
Qed.

Lemma ident_last x : identifier x = true -> exists z w, x = z +:+ String w "" /\ edge w = true.
Proof.
  intros H. assert (Hy : allChars identChar x = true) by by apply andb_true_iff in H as [_ H].
  apply identifier_cons in H as (c & y & -> & Hc). revert c Hc Hy. induction y as [|d y IH]; intros c Hc Hy.
  - exists "", c. split; [done|]. unfold edge. by rewrite Hc.
  - cbn [allChars] in Hy. apply andb_true_iff in Hy as [_ Hy]. assert (Hd : identChar d = true) by by apply andb_true_iff in Hy as [? _].
    destruct (IH d Hd Hy) as (z & w & E & Hw). exists (String c z), w. split; [|done]. by rewrite append_cons, <- E.
Qed.

Lemma print_last c : plain c = true -> exists z w, String_ c = z +:+ String w "" /\ edge w = true.
Proof.
  destruct c as [|[key op vs]|op l r]; [done| |].
  - cbn [plain String_]. unfold plainAtom, atom_String. cbn [la_key la_op la_values]. intros [[_ Hv]%andb_true_iff Hop]%andb_true_iff.
    destruct (_ || _) eqn:E.
    + exists (key +:+ " " +:+ op +:+ " [" +:+ String.concat ", " vs), "]"%char. split; [by rewrite !append_assoc|done].
    + destruct (inSet [OpIn; OpNotIn] op) eqn:Eop.
      { apply inSet_spec in Eop. rewrite !elem_of_cons, elem_of_nil in Eop. by destruct Eop as [->|[->|[]]]. }
      apply andb_true_iff in Hop as [_ Hl%bool_decide_eq_true]. destruct vs as [|v [|? ?]]; try done. cbn [forallb] in Hv. apply andb_true_iff in Hv as [Hv _].
      destruct (ident_last v Hv) as (z & w & -> & Hw). exists (key +:+ " " +:+ op +:+ " " +:+ z), w. split; [by rewrite !append_assoc|done].
  - intros _. exists ("(" +:+ String_ l +:+ " " +:+ op +:+ " " +:+ String_ r), ")"%char. split; [by cbn [String_]; rewrite !append_assoc|done].
Qed.

(** C22: a printed condition parses back to itself: the parentheses the printer writes
    are exactly those that keep the tree, and neither the keywords nor the white space
    around them are swallowed, for every condition whose keys and values are
    identifiers. *)
Theorem print_parse (c : LabelCondition) (Hc : plain c = true) : ParseLabelCondition (String_ c) = Some (inr c).
Proof.
  destruct (print_head c Hc) as (x & y & E1 & Hx). destruct (print_last c Hc) as (z & w & E2 & Hw).
  unfold ParseLabelCondition. rewrite (trim_edges x y z w) by (try done; unfold edge; by destruct Hx as [->| ->]).
  assert (E3 : String.eqb (String_ c) "" = false) by by rewrite E1. rewrite E3.
  unfold parseFuel. replace (3 * String.length (String_ c) + 3)%nat with (S (S (S (3 * String.length (String_ c))))) by lia.
  cbn [parseOr parseAnd]. rewrite <- (append_empty (String_ c)) at 2.
  rewrite parseAtom_print; [done|done|done|]. lia.
Qed.

Definition sampleCondition : LabelCondition :=
  CBin "OR" (CBin "AND" (CLeaf (MkAtom "target.env" OpEq ["prod"])) (CLeaf (MkAtom "change.risk" OpNotIn ["low"; "AND"])))
    (CLeaf (MkAtom "OR" OpNeq ["in"])).

Lemma print_parse_witness :
  String_ sampleCondition = "((target.env = prod AND change.risk not_in [low, AND]) OR OR != in)" /\
  ParseLabelCondition (String_ sampleCondition) = Some (inr sampleCondition).
Proof. split; [by vm_compute|]. apply (print_parse sampleCondition). by vm_compute. Defined.

(** A value that is not an identifier is printed without the quotes it was read with. *)
Example quoted_values_print_unquoted :
  let c := CLeaf (MkAtom "team" OpEq ["site reliability"]) in
  ParseLabelCondition "team = 'site reliability'" = Some (inr c) /\ String_ c = "team = site reliability" /\
  exists e, ParseLabelCondition (String_ c) = Some (inl e).
Proof. split_and!; [by vm_compute|by vm_compute|]. eexists. by vm_compute. Qed.

(** An unknown operator is not reported as an invalid condition. *)
Example unknown_operator_sentinel :
  exists e, ParseLabelCondition "env ~ prod" = Some (inl e) /\ errors_Is e ErrInvalidCondition = false.
Proof. eexists. split; by vm_compute. Qed.
End Condition.
