(* ===== verification/Access.v ===== *)
(** * Access: the permission matrix and the role tree

    Who may act where (src/internal/permission/matrix.go), what a role inherits
    (role_tree.go) and the decision cache (cache.go). A set is a [gset]; where the
    code ranges over a map and sorts the result the order is that of [sortedKeys].
    The YAML files are modelled as the records they are decoded into. *)

From Stdlib Require Import ZArith Lia Ascii String.
From stdpp Require Import base gmap strings list sorting relations.
From S2P Require Import Prelude.
Open Scope string_scope.
Open Scope list_scope.

Module Access.
Local Open Scope Z_scope.

(** ** The matrix *)

Definition ActionPlan := "plan".
Definition ActionApply := "apply".
Definition ActionApprove := "approve".
Definition ActionRollback := "rollback".
Definition ActionPause := "pause".
Definition ActionResume := "resume".
Definition ActionPauseAll := "pause_all".
Definition ActionResumeAll := "resume_all".
Definition ActionCancel := "cancel".
Definition ActionView := "view".
Definition ActionAdmin := "admin".
Definition Wildcard := "*".
Definition AllActions : list string :=
  [ActionPlan; ActionApply; ActionApprove; ActionRollback; ActionPause; ActionResume; ActionPauseAll; ActionResumeAll; ActionCancel;
   ActionView; ActionAdmin].
Definition isKnownAction (action : string) : bool := inSet AllActions action.

Definition ErrConfigInvalid := "permission: invalid config".
Definition ErrUnknownAction := "permission: unknown action".

Abbreviation rules := (gmap string (gmap string (gset string))).

Record PermissionMatrix := MkMatrix { pm_grants : rules; pm_revokes : rules; pm_StrictActions : bool }.

Record EnvPermission := MkEnvPermission { ep_Name : string; ep_Actions : list string }.
Record TeamRule := MkTeamRule { tr_Name : string; tr_Environments : list EnvPermission }.

Definition NewPermissionMatrix : PermissionMatrix := MkMatrix ∅ ∅ false.

(** [rules[t][e]]; a missing key reads as the empty set. *)
Definition actsOf (r : rules) (t e : string) : gset string := default ∅ (default ∅ (r !! t) !! e).
(** [rules[t][e][a] = true]. *)
Definition addRule (r : rules) (t e a : string) : rules :=
  let envs := default ∅ (r !! t) in <[t := <[e := {[a]} ∪ default ∅ (envs !! e)]> envs]> r.

Definition candidates (team env : string) : list (string * string) :=
  [(team, env); (Wildcard, env); (team, Wildcard); (Wildcard, Wildcard)].
Definition lookup (r : rules) (team env action : string) : bool :=
  existsb (fun c => bool_decide (action ∈ actsOf r c.1 c.2)) (candidates team env).

Definition anyEmpty (team env action : string) : bool := String.eqb team "" || String.eqb env "" || String.eqb action "".

Definition Allow (m : PermissionMatrix) (team env action : string) : bool :=
  if anyEmpty team env action then false
  else if lookup (pm_revokes m) team env action then false
  else if lookup (pm_grants m) team env action then true
  else negb (String.eqb action ActionAdmin) && lookup (pm_grants m) team env ActionAdmin.

Definition Revoked (m : PermissionMatrix) (team env action : string) : bool :=
  if anyEmpty team env action then false else lookup (pm_revokes m) team env action.

Definition AllowAny (m : PermissionMatrix) (team env : string) (actions : list string) : bool := existsb (Allow m team env) actions.
Definition AllowAll (m : PermissionMatrix) (team env : string) (actions : list string) : bool :=
  match actions with [] => false | _ => forallb (Allow m team env) actions end.

Definition sortedKeys (s : gset string) : list string := merge_sort String.le (elements s).

Definition collectGrants (m : PermissionMatrix) (team env : string) : gset string :=
  ⋃ map (fun c => actsOf (pm_grants m) c.1 c.2) (candidates team env).

Definition ActionsFor (m : PermissionMatrix) (team env : string) : list string :=
  if String.eqb team "" || String.eqb env "" then []
  else
    let unrevoked (a : string) := lookup (pm_revokes m) team env a = false in
    let direct := filter unrevoked (collectGrants m team env) in
    sortedKeys (if lookup (pm_grants m) team env ActionAdmin then direct ∪ filter unrevoked (list_to_set AllActions) else direct).

Definition Teams (m : PermissionMatrix) : list string :=
  sortedKeys (filter (fun t => t <> Wildcard) (dom (pm_grants m) ∪ dom (pm_revokes m))).
Definition envNames (r : rules) : gset string := ⋃ map (fun x => dom x.2) (map_to_list r).
Definition Environments (m : PermissionMatrix) : list string :=
  sortedKeys (filter (fun e => e <> Wildcard) (envNames (pm_grants m) ∪ envNames (pm_revokes m))).

Definition refusesAction (m : PermissionMatrix) (action : string) : bool := negb (isKnownAction action) && pm_StrictActions m.
Definition unknownAction (action : string) : goerr := EWrap action (ESentinel ErrUnknownAction).

Definition Grant (m : PermissionMatrix) (team env action : string) : PermissionMatrix * option goerr :=
  if anyEmpty team env action then (m, None)
  else if refusesAction m action then (m, Some (unknownAction action))
  else (MkMatrix (addRule (pm_grants m) team env action) (pm_revokes m) (pm_StrictActions m), None).

Definition Revoke (m : PermissionMatrix) (team env action : string) : PermissionMatrix * option goerr :=
  if anyEmpty team env action then (m, None)
  else if refusesAction m action then (m, Some (unknownAction action))
  else (MkMatrix (pm_grants m) (addRule (pm_revokes m) team env action) (pm_StrictActions m), None).

Definition invalidConfig (what : string) : goerr := EWrap what (ESentinel ErrConfigInvalid).

Fixpoint loadActions (m : PermissionMatrix) (team env : string) (actions : list string) (g : rules) : goerr + rules :=
  match actions with
  | [] => inr g
  | a :: rest =>
      if String.eqb a "" then inl (invalidConfig "action is empty")
      else if refusesAction m a then inl (unknownAction a)
      else loadActions m team env rest (addRule g team env a)
  end.

Fixpoint loadEnvs (m : PermissionMatrix) (team : string) (envs : list EnvPermission) (g : rules) : goerr + rules :=
  match envs with
  | [] => inr g
  | e :: rest =>
      if String.eqb (ep_Name e) "" then inl (invalidConfig "environment name is empty")
      else match loadActions m team (ep_Name e) (ep_Actions e) g with inl x => inl x | inr g => loadEnvs m team rest g end
  end.

Fixpoint loadTeams (m : PermissionMatrix) (teams : list TeamRule) (g : rules) : goerr + rules :=
  match teams with
  | [] => inr g
  | t :: rest =>
      if String.eqb (tr_Name t) "" then inl (invalidConfig "team name is empty")
      else match loadEnvs m (tr_Name t) (tr_Environments t) g with inl x => inl x | inr g => loadTeams m rest g end
  end.

Definition LoadFromConfig (m : PermissionMatrix) (teams : list TeamRule) : PermissionMatrix * option goerr :=
  match teams with
  | [] => (m, Some (invalidConfig "no teams defined"))
  | _ => match loadTeams m teams ∅ with
         | inl e => (m, Some e)
         | inr g => (MkMatrix g ∅ (pm_StrictActions m), None)
         end
  end.

(** ** The role tree *)

Definition ErrEmptyRole := "permission: empty role".
Definition ErrUnknownRole := "permission: unknown role".
Definition ErrCycleDetected := "permission: cycle detected".
Definition ErrSelfParent := "permission: self parent".

Record RoleTree := MkTree { rt_parent : gmap string string; rt_children : gmap string (gset string); rt_perms : gmap string (gset string) }.

Definition NewRoleTree : RoleTree := MkTree ∅ ∅ ∅.

Fixpoint walkUp (fuel : nat) (parent : gmap string string) (cur target : string) : bool :=
  match fuel with
  | O => false
  | S n => if String.eqb cur target then true
           else match parent !! cur with
                | Some next => if String.eqb next "" then false else walkUp n parent next target
                | None => false
                end
  end.
Definition reachable (parent : gmap string string) (start target : string) : bool := walkUp (size parent + 1) parent start target.

(** [set[k] = true] and [delete(set, k)] on a map of sets; [ensure] makes the entry. *)
Definition addTo (m : gmap string (gset string)) (k x : string) : gmap string (gset string) := <[k := {[x]} ∪ default ∅ (m !! k)]> m.
Definition removeFrom (m : gmap string (gset string)) (k x : string) : gmap string (gset string) := alter (fun s => s ∖ {[x]}) k m.
Definition ensure (m : gmap string (gset string)) (k : string) : gmap string (gset string) := match m !! k with Some _ => m | None => <[k := ∅]> m end.

Definition AddRole (t : RoleTree) (name parent : string) : RoleTree * option goerr :=
  if String.eqb name "" then (t, Some (ESentinel ErrEmptyRole))
  else if negb (String.eqb parent "") && String.eqb name parent then (t, Some (ESentinel ErrSelfParent))
  else if bool_decide (rt_parent t !! name = Some parent) then (t, None)
  else if negb (String.eqb parent "") && reachable (rt_parent t) parent name then (t, Some (EWrap name (ESentinel ErrCycleDetected)))
  else
    let children := match rt_parent t !! name with
                    | Some old => if String.eqb old "" then rt_children t else removeFrom (rt_children t) old name
                    | None => rt_children t
                    end in
    (if String.eqb parent "" then MkTree (<[name := parent]> (rt_parent t)) children (ensure (rt_perms t) name)
     else MkTree (<[name := parent]> (rt_parent t)) (addTo children parent name) (ensure (ensure (rt_perms t) parent) name), None).

Definition unknownRole (name : string) : goerr := EWrap name (ESentinel ErrUnknownRole).

Definition HasRole (t : RoleTree) (name : string) : bool := bool_decide (is_Some (rt_perms t !! name)).
Definition Roles (t : RoleTree) : list string := sortedKeys (dom (rt_perms t)).
Definition Parent (t : RoleTree) (name : string) : goerr + string :=
  if HasRole t name then inr (default "" (rt_parent t !! name)) else inl (unknownRole name).
Definition Children (t : RoleTree) (name : string) : goerr + list string :=
  if HasRole t name then inr (sortedKeys (default ∅ (rt_children t !! name))) else inl (unknownRole name).

(** The walk of [GetAncestors]; it stops at a role it has seen. *)
Fixpoint ancestorsFrom (fuel : nat) (parent : gmap string string) (cur : string) (seen : gset string) : gset string :=
  match fuel with
  | O => seen
  | S n => if String.eqb cur "" || bool_decide (cur ∈ seen) then seen
           else match parent !! cur with
                | Some next => ancestorsFrom n parent next ({[cur]} ∪ seen)
                | None => {[cur]} ∪ seen
                end
  end.
Definition GetAncestors (t : RoleTree) (name : string) : goerr + list string :=
  if HasRole t name
  then inr (sortedKeys (ancestorsFrom (size (rt_parent t) + 2) (rt_parent t) (default "" (rt_parent t !! name)) ∅))
  else inl (unknownRole name).

Fixpoint grantAll (s : gset string) (actions : list string) : gset string :=
  match actions with [] => s | a :: rest => grantAll (if String.eqb a "" then s else {[a]} ∪ s) rest end.
Definition GrantPermission (t : RoleTree) (role : string) (actions : list string) : RoleTree * option goerr :=
  if String.eqb role "" then (t, Some (ESentinel ErrEmptyRole))
  else (MkTree (rt_parent t) (rt_children t) (<[role := grantAll (default ∅ (rt_perms t !! role)) actions]> (rt_perms t)), None).
Definition RevokePermission (t : RoleTree) (role : string) (actions : list string) : RoleTree * option goerr :=
  if String.eqb role "" then (t, Some (ESentinel ErrEmptyRole))
  else match rt_perms t !! role with
       | None => (t, Some (unknownRole role))
       | Some s => (MkTree (rt_parent t) (rt_children t) (<[role := s ∖ list_to_set actions]> (rt_perms t)), None)
       end.
Definition DirectPermissions (t : RoleTree) (role : string) : goerr + list string :=
  match rt_perms t !! role with Some s => inr (sortedKeys s) | None => inl (unknownRole role) end.

Fixpoint mergeUp (fuel : nat) (t : RoleTree) (cur : string) (merged : gset string) : gset string :=
  match fuel with
  | O => merged
  | S n => let merged := merged ∪ default ∅ (rt_perms t !! cur) in
           match rt_parent t !! cur with
           | Some next => if String.eqb next "" then merged else mergeUp n t next merged
           | None => merged
           end
  end.
Definition EffectivePermissions (t : RoleTree) (role : string) : goerr + list string :=
  if HasRole t role then inr (sortedKeys (mergeUp (size (rt_parent t) + 1) t role ∅)) else inl (unknownRole role).

(** [for child := range t.children[name]]; the visits commute. *)
Definition reparent (parent : string) (t : RoleTree) (child : string) : RoleTree :=
  MkTree (<[child := parent]> (rt_parent t)) (if String.eqb parent "" then rt_children t else addTo (rt_children t) parent child) (rt_perms t).
Definition RemoveRole (t : RoleTree) (name : string) : RoleTree * option goerr :=
  if negb (HasRole t name) then (t, Some (unknownRole name))
  else
    let parent := default "" (rt_parent t !! name) in
    let t1 := foldl (reparent parent) t (elements (default ∅ (rt_children t !! name))) in
    let children := delete name (rt_children t1) in
    (MkTree (delete name (rt_parent t1)) (if String.eqb parent "" then children else removeFrom children parent name)
       (delete name (rt_perms t1)), None).

(** The file: [SaveToYAML] and [LoadFromYAML] on the decoded entries. *)
Record roleYAMLEntry := MkRoleEntry { re_Name : string; re_Parent : string; re_Permissions : list string }.

Definition SaveToYAML (t : RoleTree) : list roleYAMLEntry :=
  map (fun r => MkRoleEntry r (match Parent t r with inr p => p | inl _ => "" end)
                  (match DirectPermissions t r with inr l => l | inl _ => [] end)) (Roles t).

(** One pass over the entries: the tree, the names added, whether any was; an
    error leaves the tree as far as it got. *)
Fixpoint loadPass (entries : list roleYAMLEntry) (t : RoleTree) (added : gset string) (progress : bool) :
    RoleTree * (goerr + gset string * bool) :=
  match entries with
  | [] => (t, inr (added, progress))
  | r :: rest =>
      if bool_decide (re_Name r ∈ added) then loadPass rest t added progress
      else if negb (String.eqb (re_Parent r) "") && negb (bool_decide (re_Parent r ∈ added)) then loadPass rest t added progress
      else
        match AddRole t (re_Name r) (re_Parent r) with
        | (t, Some e) => (t, inl (EWrap ("add role " +:+ re_Name r) e))
        | (t, None) =>
            match (match re_Permissions r with [] => (t, None) | l => GrantPermission t (re_Name r) l end) with
            | (t, Some e) => (t, inl (EWrap ("grant permissions for " +:+ re_Name r) e))
            | (t, None) => loadPass rest t ({[re_Name r]} ∪ added) true
            end
        end
  end.

Fixpoint loadPasses (n : nat) (entries : list roleYAMLEntry) (t : RoleTree) (added : gset string) : RoleTree * (goerr + gset string) :=
  match n with
  | O => (t, inr added)
  | S n =>
      match loadPass entries t added false with
      | (t, inl e) => (t, inl e)
      | (t, inr (added, progress)) => if progress : bool then loadPasses n entries t added else (t, inr added)
      end
  end.

Definition LoadFromYAML (t : RoleTree) (entries : list roleYAMLEntry) : RoleTree * option goerr :=
  match loadPasses (length entries + 1) entries t ∅ with
  | (t, inl e) => (t, Some e)
  | (t, inr added) =>
      match filter (fun r => re_Name r ∉ added) entries with
      | [] => (t, None)
      | r :: _ => (t, Some (EText ("role " +:+ re_Name r +:+ " names parent " +:+ re_Parent r +:+ ", which is not declared")))
      end
  end.

(** ** The cache *)

Definition DefaultCacheTTL : Z := 5 * 60 * 1000000000.

Record cacheEntry := MkEntry { ce_allowed : bool; ce_reason : string; ce_expiresAt : Z }.
Record PermissionCache := MkCache { pc_entries : gmap string cacheEntry; pc_ttl : Z }.

Definition NUL : string := String (ascii_of_nat 0) "".
Definition NewPermissionCache (ttl : Z) : PermissionCache := MkCache ∅ (if ttl <=? 0 then DefaultCacheTTL else ttl).
Definition cacheKey (subject action resource : string) : string := subject +:+ NUL +:+ action +:+ NUL +:+ resource.
Definition isFresh (e : cacheEntry) (now : Z) : bool := now <? ce_expiresAt e.

(** The decision, if it is cached and fresh; an expired entry is evicted. *)
Definition cache_Get (c : PermissionCache) (now : Z) (subject action resource : string) : PermissionCache * option (bool * string) :=
  let key := cacheKey subject action resource in
  match pc_entries c !! key with
  | None => (c, None)
  | Some e => if isFresh e now then (c, Some (ce_allowed e, ce_reason e))
              else (MkCache (delete key (pc_entries c)) (pc_ttl c), None)
  end.
Definition cache_Set (c : PermissionCache) (now : Z) (subject action resource : string) (allowed : bool) (reason : string) : PermissionCache :=
  MkCache (<[cacheKey subject action resource := MkEntry allowed reason (now + pc_ttl c)]> (pc_entries c)) (pc_ttl c).
Definition Invalidate (c : PermissionCache) (subject action resource : string) : PermissionCache :=
  MkCache (delete (cacheKey subject action resource) (pc_entries c)) (pc_ttl c).
Definition InvalidateSubject (c : PermissionCache) (subject : string) : PermissionCache :=
  MkCache (filter (fun kv => String.prefix (subject +:+ NUL) kv.1 = false) (pc_entries c)) (pc_ttl c).
Definition InvalidateAll (c : PermissionCache) : PermissionCache := MkCache ∅ (pc_ttl c).
Definition sweep (c : PermissionCache) (now : Z) : PermissionCache :=
  MkCache (filter (fun kv => isFresh kv.2 now = true) (pc_entries c)) (pc_ttl c).

(** ** The matrix is two sets of rules *)

Lemma elem_of_sortedKeys x s : x ∈ sortedKeys s <-> x ∈ s.
Proof. unfold sortedKeys. rewrite merge_sort_Permutation. by rewrite elem_of_elements. Qed.
Lemma sortedKeys_sorted s : StronglySorted String.le (sortedKeys s).
Proof. apply (StronglySorted_merge_sort String.le). Qed.
Lemma sortedKeys_nodup s : NoDup (sortedKeys s).
Proof. unfold sortedKeys. rewrite merge_sort_Permutation. apply NoDup_elements. Qed.
Lemma sortedKeys_nil s : sortedKeys s = [] <-> s = ∅.
Proof.
  split.
  - intros E. apply elem_of_equiv_empty_L. intros x Hx. apply elem_of_sortedKeys in Hx. rewrite E in Hx. by apply not_elem_of_nil in Hx.
  - intros ->. done.
Qed.

Abbreviation rule := (string * string * string)%type.

Lemma actsOf_addRule r t e a t' e' a' :
  a' ∈ actsOf (addRule r t e a) t' e' <-> (t', e', a') = (t, e, a) \/ a' ∈ actsOf r t' e'.
Proof.
  unfold actsOf, addRule. destruct (decide (t' = t)) as [->|Ht].
  - rewrite lookup_insert_eq. cbn [from_option id]. destruct (decide (e' = e)) as [->|He].
    + rewrite lookup_insert_eq. cbn [from_option id]. rewrite elem_of_union, elem_of_singleton. naive_solver.
    + rewrite lookup_insert_ne by done. naive_solver.
  - rewrite lookup_insert_ne by done. naive_solver.
Qed.

Lemma actsOf_empty t e : actsOf ∅ t e = ∅.
Proof. unfold actsOf. rewrite lookup_empty. cbn [from_option id]. by rewrite lookup_empty. Qed.

(** A rule covers a request directly or through a wildcard. *)
Definition covers (s : gset rule) (team env action : string) : Prop :=
  exists t e, (t = team \/ t = Wildcard) /\ (e = env \/ e = Wildcard) /\ (t, e, action) ∈ s.

Definition represents (r : rules) (s : gset rule) : Prop := forall t e a, a ∈ actsOf r t e <-> (t, e, a) ∈ s.

Lemma lookup_covers r s team env action : represents r s -> lookup r team env action = true <-> covers s team env action.
Proof.
  intros H. unfold lookup, candidates, covers. rewrite existsb_elem. split.
  - intros ([t e] & Hc & Hin%bool_decide_eq_true). apply H in Hin. exists t, e. rewrite !elem_of_cons, elem_of_nil in Hc. naive_solver.
  - intros (t & e & Ht & He & Hin). exists (t, e). rewrite bool_decide_eq_true. split; [|by apply H]. rewrite !elem_of_cons. naive_solver.
Qed.

Lemma represents_add r s t e a : represents r s -> represents (addRule r t e a) ({[(t, e, a)]} ∪ s).
Proof. intros H t' e' a'. rewrite actsOf_addRule, (H t' e' a'), elem_of_union, elem_of_singleton. done. Qed.

Lemma represents_empty : represents ∅ ∅.
Proof. intros t e a. rewrite actsOf_empty. set_solver. Qed.

(** *** What a configuration says *)

Definition configRules (teams : list TeamRule) : list rule :=
  t ← teams; e ← tr_Environments t; a ← ep_Actions e; [(tr_Name t, ep_Name e, a)].

Definition configOk (strict : bool) (teams : list TeamRule) : bool :=
  negb (bool_decide (teams = [])) &&
  forallb (fun t => negb (String.eqb (tr_Name t) "") &&
    forallb (fun e => negb (String.eqb (ep_Name e) "") &&
      forallb (fun a => negb (String.eqb a "") && negb (negb (isKnownAction a) && strict)) (ep_Actions e)) (tr_Environments t)) teams.

Lemma loadActions_rules m team env actions g :
  if forallb (fun a => negb (String.eqb a "") && negb (negb (isKnownAction a) && pm_StrictActions m)) actions
  then exists g', loadActions m team env actions g = inr g' /\
         (forall s, represents g s -> represents g' (list_to_set (map (fun a => (team, env, a)) actions) ∪ s))
  else exists e, loadActions m team env actions g = inl e.
Proof.
  revert g. induction actions as [|a actions IH]; intros g; cbn [forallb loadActions].
  - exists g. split; [done|]. intros s Hs. cbn. by rewrite union_empty_l_L.
  - destruct (String.eqb a ""); [by eexists|]. unfold refusesAction. destruct (negb (isKnownAction a) && pm_StrictActions m); [by eexists|].
    cbn [negb andb]. specialize (IH (addRule g team env a)). destruct (forallb _ actions); [|done].
    destruct IH as (g' & -> & Hg). exists g'. split; [done|]. intros s Hs. apply represents_add with (t := team) (e := env) (a := a), Hg in Hs.
    cbn [map list_to_set]. intros t e x. rewrite (Hs t e x). set_solver.
Qed.

Lemma loadEnvs_rules m team envs g :
  if forallb (fun e => negb (String.eqb (ep_Name e) "") &&
      forallb (fun a => negb (String.eqb a "") && negb (negb (isKnownAction a) && pm_StrictActions m)) (ep_Actions e)) envs
  then exists g', loadEnvs m team envs g = inr g' /\
         (forall s, represents g s -> represents g' (list_to_set (e ← envs; a ← ep_Actions e; [(team, ep_Name e, a)]) ∪ s))
  else exists e, loadEnvs m team envs g = inl e.
Proof.
  revert g. induction envs as [|e envs IH]; intros g; cbn [forallb loadEnvs].
  - exists g. split; [done|]. intros s Hs. cbn. by rewrite union_empty_l_L.
  - destruct (String.eqb (ep_Name e) ""); [by eexists|]. cbn [negb andb]. pose proof (loadActions_rules m team (ep_Name e) (ep_Actions e) g) as Ha.
    destruct (forallb _ (ep_Actions e)); cbn [andb]; [|destruct Ha as [x ->]; by eexists].
    destruct Ha as (g1 & -> & H1). specialize (IH g1). destruct (forallb _ envs); [|done]. destruct IH as (g2 & -> & H2).
    exists g2. split; [done|]. intros s Hs. apply H1, H2 in Hs. intros t x y. rewrite (Hs t x y). rewrite bind_cons, list_to_set_app_L.
    assert (E : (a ← ep_Actions e; [(team, ep_Name e, a)]) = map (fun a => (team, ep_Name e, a)) (ep_Actions e)).
    { clear. induction (ep_Actions e) as [|a l IH]; [done|]. cbn. by f_equal. }
    rewrite E. set_solver.
Qed.

Lemma loadTeams_rules m teams g :
  if forallb (fun t => negb (String.eqb (tr_Name t) "") &&
    forallb (fun e => negb (String.eqb (ep_Name e) "") &&
      forallb (fun a => negb (String.eqb a "") && negb (negb (isKnownAction a) && pm_StrictActions m)) (ep_Actions e)) (tr_Environments t)) teams
  then exists g', loadTeams m teams g = inr g' /\ (forall s, represents g s -> represents g' (list_to_set (configRules teams) ∪ s))
  else exists e, loadTeams m teams g = inl e.
Proof.
  revert g. induction teams as [|t teams IH]; intros g; cbn [forallb loadTeams].
  - exists g. split; [done|]. intros s Hs. cbn. by rewrite union_empty_l_L.
  - destruct (String.eqb (tr_Name t) ""); [by eexists|]. cbn [negb andb]. pose proof (loadEnvs_rules m (tr_Name t) (tr_Environments t) g) as Ha.
    destruct (forallb _ (tr_Environments t)); cbn [andb]; [|destruct Ha as [x ->]; by eexists].
    destruct Ha as (g1 & -> & H1). specialize (IH g1). destruct (forallb _ teams); [|done]. destruct IH as (g2 & -> & H2).
    exists g2. split; [done|]. intros s Hs. apply H1, H2 in Hs. intros x y z. rewrite (Hs x y z). unfold configRules.
    rewrite bind_cons, list_to_set_app_L. set_solver.
Qed.

(** *** Operations on the two sets *)

Inductive matrixOp :=
| MGrant (team env action : string)
| MRevoke (team env action : string)
| MLoad (teams : list TeamRule).

Definition runOp (m : PermissionMatrix) (o : matrixOp) : PermissionMatrix :=
  match o with
  | MGrant t e a => (Grant m t e a).1
  | MRevoke t e a => (Revoke m t e a).1
  | MLoad c => (LoadFromConfig m c).1
  end.

Definition accepts (strict : bool) (t e a : string) : bool := negb (anyEmpty t e a) && negb (negb (isKnownAction a) && strict).

(** The abstract matrix: the rules granted and the rules revoked. *)
Definition ruleStep (strict : bool) (s : gset rule * gset rule) (o : matrixOp) : gset rule * gset rule :=
  match o with
  | MGrant t e a => if accepts strict t e a then ({[(t, e, a)]} ∪ s.1, s.2) else s
  | MRevoke t e a => if accepts strict t e a then (s.1, {[(t, e, a)]} ∪ s.2) else s
  | MLoad c => if configOk strict c then (list_to_set (configRules c), ∅) else s
  end.

Definition abstracts (m : PermissionMatrix) (s : gset rule * gset rule) : Prop :=
  represents (pm_grants m) s.1 /\ represents (pm_revokes m) s.2.

Lemma runOp_refines m s o : abstracts m s ->
  abstracts (runOp m o) (ruleStep (pm_StrictActions m) s o) /\ pm_StrictActions (runOp m o) = pm_StrictActions m.
Proof.
  intros [Hg Hr]. destruct o as [t e a|t e a|c]; cbn [runOp ruleStep].
  - unfold Grant, accepts, refusesAction. destruct (anyEmpty t e a); [by split|]. destruct (negb (isKnownAction a) && _); [by split|].
    split; [|done]. split; [by apply represents_add|done].
  - unfold Revoke, accepts, refusesAction. destruct (anyEmpty t e a); [by split|]. destruct (negb (isKnownAction a) && _); [by split|].
    split; [|done]. split; [done|by apply represents_add].
  - unfold LoadFromConfig, configOk. destruct c as [|c0 c]; [by split|]. rewrite bool_decide_eq_false_2 by done. cbn [negb andb].
    pose proof (loadTeams_rules m (c0 :: c) ∅) as H. destruct (forallb _ (c0 :: c)); [|destruct H as [e ->]; by split].
    destruct H as (g & -> & H). split; [|done]. split; [|apply represents_empty]. specialize (H ∅ represents_empty). by rewrite union_empty_r_L in H.
Qed.

Lemma runOps_refine ops m s : abstracts m s ->
  abstracts (foldl runOp m ops) (foldl (ruleStep (pm_StrictActions m)) s ops).
Proof.
  revert m s. induction ops as [|o ops IH]; intros m s H; [done|]. cbn [foldl]. destruct (runOp_refines m s o H) as [H1 H2].
  specialize (IH _ _ H1). by rewrite H2 in IH.
Qed.

(** The matrix refines two sets of rules: after any loads, grants and revokes, a
    team may act exactly when no revoke covers the request, directly or through a
    wildcard on team or environment, and a grant covers it, or covers admin for an
    action other than admin. A load that is refused, and a grant or revoke that is,
    change nothing; one that succeeds forgets everything before it. The listing of a
    team's actions agrees for every known action. *)
Theorem matrix_refines_rules (strict : bool) (ops : list matrixOp) (team env action : string) :
  let m := foldl runOp (MkMatrix ∅ ∅ strict) ops in
  let s := foldl (ruleStep strict) (∅, ∅) ops in
  (Allow m team env action = true <->
     team <> "" /\ env <> "" /\ action <> "" /\ ~ covers s.2 team env action /\
     (covers s.1 team env action \/ (action <> ActionAdmin /\ covers s.1 team env ActionAdmin))) /\
  (Revoked m team env action = true <-> team <> "" /\ env <> "" /\ action <> "" /\ covers s.2 team env action) /\
  (isKnownAction action = true -> (action ∈ ActionsFor m team env <-> Allow m team env action = true)).
Proof.
  intros m s. assert (H : abstracts m s). { apply (runOps_refine ops (MkMatrix ∅ ∅ strict)). split; apply represents_empty. }
  clearbody m s. destruct H as [Hg Hr].
  pose proof (fun t e a => lookup_covers _ _ t e a Hg) as Lg. pose proof (fun t e a => lookup_covers _ _ t e a Hr) as Lr.
  assert (HA : Allow m team env action = true <->
     team <> "" /\ env <> "" /\ action <> "" /\ ~ covers s.2 team env action /\
     (covers s.1 team env action \/ (action <> ActionAdmin /\ covers s.1 team env ActionAdmin))).
  { unfold Allow, anyEmpty. rewrite <- Lr, <- !Lg. clear Hg Hr Lg Lr.
    destruct (String.eqb_spec team "") as [->|]; [split; [done|by intros (? & _)]|].
    destruct (String.eqb_spec env "") as [->|]; [split; [done|by intros (_ & ? & _)]|].
    destruct (String.eqb_spec action "") as [->|]; [split; [done|by intros (_ & _ & ? & _)]|]. cbn [orb].
    destruct (lookup (pm_revokes m) team env action); [split; [done|by intros (_ & _ & _ & [] & _)]|].
    destruct (lookup (pm_grants m) team env action); [split; [intros _; split_and!; try done; by left|done]|].
    rewrite andb_true_iff, negb_true_iff, String.eqb_neq. split; [intros ?; split_and!; try done; by right|intros (_ & _ & _ & _ & [?|?]); done]. }
  split; [done|]. split.
  - unfold Revoked, anyEmpty. rewrite <- Lr. clear. destruct (String.eqb_spec team "") as [->|]; [split; [done|by intros (? & _)]|].
    destruct (String.eqb_spec env "") as [->|]; [split; [done|by intros (_ & ? & _)]|].
    destruct (String.eqb_spec action "") as [->|]; [split; [done|by intros (_ & _ & ? & _)]|]. cbn [orb]. tauto.
  - intros Hk. rewrite HA, <- Lr, <- !Lg. clear HA Hg Hr Lg Lr. assert (Hne : action <> "") by by intros ->.
    unfold ActionsFor. destruct (String.eqb_spec team ""); cbn [orb]; [set_solver|]. destruct (String.eqb_spec env ""); [set_solver|].
    assert (Hc : action ∈ collectGrants m team env <-> lookup (pm_grants m) team env action = true).
    { unfold collectGrants, lookup. rewrite existsb_elem. rewrite elem_of_union_list. setoid_rewrite bool_decide_eq_true. setoid_rewrite list_elem_of_fmap. naive_solver. }
    rewrite elem_of_sortedKeys. apply inSet_spec in Hk. destruct (lookup (pm_grants m) team env ActionAdmin) eqn:Ead.
    + rewrite elem_of_union, !elem_of_filter, elem_of_list_to_set, Hc. destruct (decide (action = ActionAdmin)) as [->|]; [|destruct (lookup (pm_revokes m) team env action); naive_solver].
      rewrite Ead. destruct (lookup (pm_revokes m) team env ActionAdmin); naive_solver.
    + rewrite elem_of_filter, Hc. destruct (lookup (pm_revokes m) team env action); naive_solver.
Qed.

Lemma matrix_refines_rules_witness :
  let ops := [MLoad [MkTeamRule "sre" [MkEnvPermission "*" ["admin"]]; MkTeamRule "*" [MkEnvPermission "dev" ["view"]]]; MRevoke "sre" "prod" "apply"] in
  let m := foldl runOp (MkMatrix ∅ ∅ true) ops in
  (Allow m "sre" "dev" "apply" = true /\ Allow m "sre" "prod" "apply" = false /\ Allow m "dba" "dev" "view" = true) /\
  ("apply" ∈ ActionsFor m "sre" "dev" <-> Allow m "sre" "dev" "apply" = true).
Proof.
  intros ops m. split; [by vm_compute|]. by apply (matrix_refines_rules true ops "sre" "dev" "apply").
Defined.

(** ** The role tree is a forest *)

(** The direct parent; an empty name is no parent. *)
Definition edge (m : gmap string string) (c p : string) : Prop := m !! c = Some p /\ p <> "".
Definition ranked (m : gmap string string) (rk : string -> nat) : Prop := forall c p, edge m c p -> (rk p < rk c)%nat.

(** No cycle, children and parents in step, every role of an edge declared, no empty
    names. *)
Record treeOk (t : RoleTree) : Prop := MkTreeOk {
  ok_acyclic : exists rk, ranked (rt_parent t) rk;
  ok_children : forall p c, c ∈ (default ∅ (rt_children t !! p) : gset string) <-> edge (rt_parent t) c p;
  ok_child : forall c p, rt_parent t !! c = Some p -> is_Some (rt_perms t !! c);
  ok_parent : forall c p, edge (rt_parent t) c p -> is_Some (rt_perms t !! p);
  ok_named : rt_perms t !! "" = None;
  ok_actions : forall r s, rt_perms t !! r = Some s -> "" ∉ s }.

Lemma ranked_nsteps m rk k x y : ranked m rk -> nsteps (edge m) k x y -> (k + rk y <= rk x)%nat.
Proof. intros H. induction 1 as [|k x y z Hxy _ IH]; [lia|]. apply H in Hxy. lia. Qed.

Lemma nsteps_delete m rk k x y s : ranked m rk -> (rk x < rk s)%nat -> nsteps (edge m) k x y -> nsteps (edge (delete s m)) k x y.
Proof.
  intros H Hs. induction 1 as [|k x y z [Hxy Hne] _ IH]; [constructor|]. econstructor.
  - split; [|exact Hne]. rewrite lookup_delete_ne; [done|]. intros ->. lia.
  - apply IH. assert (rk y < rk x)%nat by by apply H. lia.
Qed.

(** A walk visits a role at most once. *)
Lemma nsteps_bound m rk k x y : ranked m rk -> nsteps (edge m) k x y -> (k <= size m)%nat.
Proof.
  revert m x. induction k as [|k IH]; intros m x Hm Hk; [lia|]. inversion Hk as [|? ? z ? Hxz Hz]; subst.
  assert (Hd : (k <= size (delete x m))%nat).
  { apply IH with (x := z); [|eapply nsteps_delete; [done|by apply Hm|done]]. intros c p [[_ Hc]%lookup_delete_Some Hp]. by apply Hm. }
  destruct Hxz as [Hxz _]. rewrite map_size_delete_Some in Hd by by eexists.
  assert (size m <> 0)%nat by (apply map_size_ne_0_lookup; by exists x, z). lia.
Qed.

Lemma walkUp_spec n m x y : walkUp n m x y = true <-> exists k, (k < n)%nat /\ nsteps (edge m) k x y.
Proof.
  revert x. induction n as [|n IH]; intros x; cbn [walkUp]; [split; [done|intros (? & ? & _); lia]|].
  destruct (String.eqb_spec x y) as [->|Hxy]; [split; [intros _; exists 0%nat; split; [lia|constructor]|done]|].
  assert (Hinv : forall k, nsteps (edge m) k x y -> exists k' z, k = S k' /\ edge m x z /\ nsteps (edge m) k' z y).
  { intros k Hk. inversion Hk; subst; [done|]. by eexists _, _. }
  destruct (m !! x) as [z|] eqn:E; [|split; [done|intros (k & _ & (? & ? & _ & [? _] & _)%Hinv); congruence]].
  destruct (String.eqb_spec z "") as [->|Hz]; [split; [done|]; intros (k & _ & (? & ? & _ & [? ?] & _)%Hinv); congruence|].
  rewrite IH. split.
  - intros (k & Hk & Hn). exists (S k). split; [lia|]. econstructor; [by split|done].
  - intros (k & Hk & (k' & z' & -> & [Hz' _] & Hn)%Hinv). exists k'. split; [lia|]. congruence.
Qed.

(** The cycle check finds every ancestor. *)
Lemma reachable_spec m rk x y : ranked m rk -> reachable m x y = true <-> rtc (edge m) x y.
Proof.
  intros Hm. unfold reachable. rewrite walkUp_spec. split.
  - intros (k & _ & Hk). by eapply rtc_nsteps_2.
  - intros [k Hk]%rtc_nsteps. exists k. split; [|done]. pose proof (nsteps_bound m rk k x y Hm Hk). lia.
Qed.

Lemma mergeUp_spec n t x s a : (forall k y, nsteps (edge (rt_parent t)) k x y -> (k < n)%nat) ->
  a ∈ mergeUp n t x s <-> a ∈ s \/ exists y, rtc (edge (rt_parent t)) x y /\ a ∈ (default ∅ (rt_perms t !! y) : gset string).
Proof.
  revert x s. induction n as [|n IH]; intros x s Hn; [specialize (Hn 0%nat x ltac:(constructor)); lia|]. cbn [mergeUp].
  destruct (rt_parent t !! x) as [z|] eqn:E.
  - destruct (String.eqb_spec z "") as [->|Hz].
    + rewrite elem_of_union. split; [intros [?|?]; [by left|right; by exists x]|]. intros [?|(y & Hy & Ha)]; [by left|].
      apply rtc_inv in Hy as [<-|(w & [? ?] & _)]; [by right|congruence].
    + assert (Hxz : edge (rt_parent t) x z) by by split. rewrite IH.
      * rewrite elem_of_union. split.
        { intros [[?|?]|(y & Hy & Ha)]; [by left|right; by exists x|]. right. exists y. split; [by econstructor|done]. }
        intros [?|(y & Hy & Ha)]; [by left; left|]. apply rtc_inv in Hy as [<-|(w & [Hw _] & Hy)]; [by left; right|]. right. exists y. split; [congruence|done].
      * intros k y Hk. specialize (Hn (S k) y ltac:(by econstructor)). lia.
  - rewrite elem_of_union. split; [intros [?|?]; [by left|right; by exists x]|]. intros [?|(y & Hy & Ha)]; [by left|].
    apply rtc_inv in Hy as [<-|(w & [? ?] & _)]; [by right|congruence].
Qed.

Lemma effective_spec t x a : treeOk t -> a ∈ mergeUp (size (rt_parent t) + 1) t x ∅ <->
  exists y, rtc (edge (rt_parent t)) x y /\ a ∈ (default ∅ (rt_perms t !! y) : gset string).
Proof.
  intros [[rk Hrk] _ _ _ _ _]. rewrite mergeUp_spec; [set_solver|]. intros k y Hk. pose proof (nsteps_bound _ _ _ _ _ Hrk Hk). lia.
Qed.

(** *** Every operation keeps the forest *)

Lemma treeOk_new : treeOk NewRoleTree.
Proof.
  split; cbn; try (intros; by rewrite lookup_empty in *).
  - exists (fun _ => 0%nat). intros c p [H _]. by rewrite lookup_empty in H.
  - intros p c. rewrite lookup_empty. cbn. split; [set_solver|]. intros [H _]. by rewrite lookup_empty in H.
  - intros c p [H _]. by rewrite lookup_empty in H.
Qed.

Lemma lookup_addTo m k x q : default ∅ (addTo m k x !! q) = if decide (q = k) then {[x]} ∪ default ∅ (m !! q) else default ∅ (m !! q).
Proof. unfold addTo. destruct (decide (q = k)) as [->|]; [by rewrite lookup_insert_eq|by rewrite lookup_insert_ne]. Qed.
Lemma lookup_removeFrom m k x q : default ∅ (removeFrom m k x !! q) = if decide (q = k) then default ∅ (m !! q) ∖ {[x]} else default ∅ (m !! q).
Proof.
  unfold removeFrom. destruct (decide (q = k)) as [->|]; [|by rewrite lookup_alter_ne]. rewrite lookup_alter_eq.
  destruct (m !! k); cbn; [done|]. set_solver.
Qed.
Lemma lookup_ensure m k q : ensure m k !! q = if decide (q = k) then Some (default ∅ (m !! q)) else m !! q.
Proof.
  unfold ensure. destruct (decide (q = k)) as [->|].
  - destruct (m !! k) eqn:E; [by rewrite E|by rewrite lookup_insert_eq].
  - destruct (m !! k) eqn:E; [done|by rewrite lookup_insert_ne].
Qed.

(** A new edge whose source is not above its target keeps the ranks. *)
Lemma ranked_insert m rk name parent : ranked m rk -> (parent <> "" -> ~ rtc (edge m) parent name) -> exists rk', ranked (<[name := parent]> m) rk'.
Proof.
  intros Hm Hno. exists (fun x => if reachable m x name then (rk x + S (rk parent))%nat else rk x).
  intros c p [Hcp Hp]. apply lookup_insert_Some in Hcp as [[<- <-]|[Hne Hcp]].
  - assert (E1 : reachable m parent name = false).
    { destruct (reachable m parent name) eqn:E; [|done]. apply (reachable_spec m rk) in E; [|done]. by apply Hno in E. }
    assert (E2 : reachable m name name = true) by by apply (reachable_spec m rk). rewrite E1, E2. lia.
  - assert (Hlt : (rk p < rk c)%nat) by by apply Hm. destruct (reachable m p name) eqn:E1.
    + assert (E2 : reachable m c name = true); [|rewrite E2; lia]. apply (reachable_spec m rk) in E1; [|done]. apply (reachable_spec m rk); [done|]. by econstructor.
    + destruct (reachable m c name); lia.
Qed.

Lemma treeOk_AddRole t name parent : treeOk t -> treeOk (AddRole t name parent).1.
Proof.
  intros Ht. pose proof Ht as [[rk Hrk] Hch Hc Hp Hn Ha]. unfold AddRole. destruct (String.eqb_spec name "") as [|Hname]; [done|].
  destruct (negb (String.eqb parent "") && String.eqb name parent) eqn:Eself; [done|].
  destruct (bool_decide (rt_parent t !! name = Some parent)); [done|].
  destruct (negb (String.eqb parent "") && reachable (rt_parent t) parent name) eqn:Ecyc; [done|].
  set (m' := <[name := parent]> (rt_parent t)).
  assert (Hacy : exists rk, ranked m' rk).
  { apply (ranked_insert _ rk); [done|]. intros Hne Hr. apply (reachable_spec _ rk) in Hr; [|done]. rewrite Hr, andb_true_r in Ecyc.
    by apply negb_false_iff, String.eqb_eq in Ecyc. }
  set (ch := match rt_parent t !! name with Some old => if String.eqb old "" then rt_children t else removeFrom (rt_children t) old name | None => rt_children t end).
  assert (Hedge : forall c p, edge m' c p <-> (c <> name /\ edge (rt_parent t) c p) \/ (c = name /\ p = parent /\ p <> "")).
  { intros c p. unfold edge, m'. rewrite lookup_insert_Some. naive_solver. }
  assert (Hch0 : forall p c, c ∈ (default ∅ (ch !! p) : gset string) <-> c <> name /\ edge (rt_parent t) c p).
  { intros p c. subst ch. destruct (rt_parent t !! name) as [old|] eqn:Eold.
    - destruct (String.eqb_spec old "") as [->|Hold].
      + rewrite Hch. unfold edge. split; [|by intros [_ ?]]. intros [H1 H2]. split; [|done]. intros ->. congruence.
      + rewrite lookup_removeFrom. destruct (decide (p = old)) as [->|].
        * rewrite elem_of_difference, elem_of_singleton, Hch. naive_solver.
        * rewrite Hch. unfold edge. split; [|by intros [_ ?]]. intros [H1 H2]. split; [|done]. intros ->. congruence.
    - rewrite Hch. unfold edge. split; [|by intros [_ ?]]. intros [H1 H2]. split; [|done]. intros ->. congruence. }
  destruct (String.eqb_spec parent "") as [->|Hpar]; cbn [fst]; split; cbn [rt_parent rt_children rt_perms]; fold m' ch.
  all: try done.
  - intros p c. rewrite Hch0, Hedge. naive_solver.
  - intros c p Hcp. rewrite lookup_ensure. destruct (decide (c = name)); [by eexists|]. unfold m' in Hcp. rewrite lookup_insert_ne in Hcp by done. eauto.
  - intros c p Hcp. rewrite lookup_ensure. destruct (decide (p = name)); [by eexists|]. apply Hedge in Hcp. naive_solver.
  - rewrite lookup_ensure. by rewrite decide_False.
  - intros r s. rewrite lookup_ensure. destruct (decide (r = name)) as [->|]; [|eauto]. intros [= <-]. destruct (rt_perms t !! name) eqn:E; cbn; [eauto|set_solver].
  - intros p c. rewrite lookup_addTo, Hedge. destruct (decide (p = parent)) as [->|]; [rewrite elem_of_union, elem_of_singleton|]; rewrite Hch0; naive_solver.
  - intros c p Hcp. rewrite !lookup_ensure. destruct (decide (c = name)); [by eexists|]. destruct (decide (c = parent)); [by eexists|].
    unfold m' in Hcp. rewrite lookup_insert_ne in Hcp by done. eauto.
  - intros c p Hcp. rewrite !lookup_ensure. destruct (decide (p = name)); [by eexists|]. destruct (decide (p = parent)); [by eexists|]. apply Hedge in Hcp. naive_solver.
  - rewrite !lookup_ensure. by rewrite !decide_False.
  - intros r s. rewrite !lookup_ensure.
    assert (Hd : forall q, "" ∉ (default ∅ (rt_perms t !! q) : gset string)) by (intros q; destruct (rt_perms t !! q) eqn:E; cbn; [eauto|set_solver]).
    destruct (decide (r = name)) as [->|]; [intros [= <-]; destruct (decide (name = parent)); apply Hd|].
    destruct (decide (r = parent)) as [->|]; [intros [= <-]; apply Hd|eauto].
Qed.

Lemma grantAll_spec s l a : a ∈ grantAll s l <-> a ∈ s \/ (a ∈ l /\ a <> "").
Proof.
  revert s. induction l as [|x l IH]; intros s; cbn [grantAll]; [set_solver|]. rewrite IH. destruct (String.eqb_spec x "") as [->|]; set_solver.
Qed.

(** Operations that only change what a declared role grants. *)
Lemma treeOk_perms t f : treeOk t -> (forall r, is_Some (rt_perms t !! r) -> is_Some (f !! r)) -> f !! "" = None ->
  (forall r s, f !! r = Some s -> "" ∉ s) -> treeOk (MkTree (rt_parent t) (rt_children t) f).
Proof. intros [H1 H2 H3 H4 H5 H6] Hf He Ha. split; cbn; try done; eauto. Qed.

Lemma treeOk_Grant t role l : treeOk t -> treeOk (GrantPermission t role l).1.
Proof.
  intros Ht. unfold GrantPermission. destruct (String.eqb_spec role "") as [|Hr]; [done|]. destruct Ht as [? ? ? ? Hn Ha] eqn:E. clear E. apply treeOk_perms; [done|..].
  - intros r [s Hs]. destruct (decide (r = role)) as [->|]; [rewrite lookup_insert_eq|rewrite lookup_insert_ne by done]; by eexists.
  - by rewrite lookup_insert_ne.
  - intros r s [[<- <-]|[_ Hs]]%lookup_insert_Some; [|eauto]. rewrite grantAll_spec.
    intros [H|[_ ?]]; [|done]. destruct (rt_perms t !! role) as [s|] eqn:E; cbn in H; [by eapply Ha|set_solver].
Qed.

Lemma treeOk_Revoke t role l : treeOk t -> treeOk (RevokePermission t role l).1.
Proof.
  intros Ht. unfold RevokePermission. destruct (String.eqb_spec role "") as [|Hr]; [done|]. destruct (rt_perms t !! role) as [s0|] eqn:E; [|done].
  pose proof Ht as [? ? ? ? Hn Ha]. apply treeOk_perms; [done|..].
  - intros r [s Hs]. destruct (decide (r = role)) as [->|]; [rewrite lookup_insert_eq|rewrite lookup_insert_ne by done]; by eexists.
  - by rewrite lookup_insert_ne.
  - intros r s [[<- <-]|[_ Hs]]%lookup_insert_Some; [|eauto]. specialize (Ha _ _ E). set_solver.
Qed.

(** What the loop of a removal does. *)
Lemma foldl_reparent parent kids t :
  (forall c, rt_parent (foldl (reparent parent) t kids) !! c = if decide (c ∈ kids) then Some parent else rt_parent t !! c) /\
  (forall q c, c ∈ (default ∅ (rt_children (foldl (reparent parent) t kids) !! q) : gset string) <->
     c ∈ (default ∅ (rt_children t !! q) : gset string) \/ (q = parent /\ parent <> "" /\ c ∈ kids)) /\
  rt_perms (foldl (reparent parent) t kids) = rt_perms t.
Proof.
  revert t. induction kids as [|k kids IH]; intros t; cbn [foldl]; [split_and!; [done|set_solver|done]|].
  destruct (IH (reparent parent t k)) as (H1 & H2 & H3). split_and!; [| |by rewrite H3].
  - intros c. rewrite H1. cbn [reparent rt_parent]. destruct (decide (c ∈ kids)), (decide (c ∈ k :: kids)); [done|set_solver| |].
    + assert (c = k) as -> by set_solver. by rewrite lookup_insert_eq.
    + rewrite lookup_insert_ne; [done|set_solver].
  - intros q c. rewrite H2. cbn [reparent rt_children]. destruct (String.eqb_spec parent "") as [->|Hp]; [set_solver|].
    rewrite lookup_addTo. destruct (decide (q = parent)) as [->|]; set_solver.
Qed.

Definition kidsOf (t : RoleTree) (name : string) : gset string := default ∅ (rt_children t !! name).

(** The parents after a removal: the children move up. *)
Lemma removed_edge t name c p : treeOk t -> HasRole t name = true ->
  edge (rt_parent (RemoveRole t name).1) c p <->
  c <> name /\ ((edge (rt_parent t) c name /\ edge (rt_parent t) name p) \/ (~ edge (rt_parent t) c name /\ edge (rt_parent t) c p)).
Proof.
  intros [[rk Hrk] Hch _ _ _ _] Hh. unfold RemoveRole. rewrite Hh. cbn [negb fst rt_parent].
  destruct (foldl_reparent (default "" (rt_parent t !! name)) (elements (default ∅ (rt_children t !! name))) t) as (H1 & _ & _).
  unfold edge at 1. rewrite lookup_delete_Some, H1. destruct (decide _) as [Hk|Hk]; rewrite elem_of_elements, Hch in Hk.
  - split.
    + intros [[Hne [= <-]] Hp]. split; [done|]. left. split; [done|]. destruct (rt_parent t !! name) eqn:E; cbn in *; [by split|done].
    + intros [Hne [[_ [E Hp]]|[? _]]]; [|done]. rewrite E. by split.
  - split; [intros [[Hne Hcp] Hp]; split; [done|]; by right|]. intros [Hne [[? _]|[_ [Hcp Hp]]]]; [done|]. by split.
Qed.

Lemma edge_fun m c p q : edge m c p -> edge m c q -> p = q.
Proof. intros [H1 _] [H2 _]. congruence. Qed.

Lemma acyclic_edge m rk x y : ranked m rk -> edge m x y -> x <> y.
Proof. intros H Hxy ->. apply H in Hxy. lia. Qed.

Lemma removed_perms t name : HasRole t name = true -> rt_perms (RemoveRole t name).1 = delete name (rt_perms t).
Proof.
  intros Eh. unfold RemoveRole. rewrite Eh. cbn. f_equal.
  by destruct (foldl_reparent (default "" (rt_parent t !! name)) (elements (default ∅ (rt_children t !! name))) t) as (_ & _ & ->).
Qed.

Lemma treeOk_RemoveRole t name : treeOk t -> treeOk (RemoveRole t name).1.
Proof.
  intros Ht. destruct (HasRole t name) eqn:Eh; [|unfold RemoveRole; by rewrite Eh].
  pose proof Ht as [[rk Hrk] Hch Hc Hp Hn Ha]. pose proof (fun c p => removed_edge t name c p Ht Eh) as Hedge.
  pose proof (removed_perms t name Eh) as Hperms.
  split.
  - exists rk. intros c p [_ [[H1 H2]|[_ H1]]]%Hedge; [|by apply Hrk]. apply Hrk in H1, H2. lia.
  - intros q c. rewrite Hedge. unfold RemoveRole. rewrite Eh. cbn [negb fst rt_children].
    destruct (foldl_reparent (default "" (rt_parent t !! name)) (elements (default ∅ (rt_children t !! name))) t) as (_ & H2 & _).
    set (par := default "" (rt_parent t !! name)) in *. set (ch1 := rt_children (foldl _ _ _)) in *.
    assert (Hpar : par <> "" -> edge (rt_parent t) name par) by (intros ?; subst par; destruct (rt_parent t !! name) eqn:E; cbn in *; [by split|done]).
    assert (Hpar2 : forall p, edge (rt_parent t) name p -> p = par) by (intros p [E ?]; subst par; by rewrite E).
    assert (Hd : forall x, x ∈ (default ∅ (delete name ch1 !! q) : gset string) <-> q <> name /\ (edge (rt_parent t) x q \/ (q = par /\ par <> "" /\ edge (rt_parent t) x name))).
    { intros x. destruct (decide (q = name)) as [->|Hq]; [rewrite lookup_delete_eq; cbn; set_solver|]. rewrite lookup_delete_ne by done.
      rewrite H2, elem_of_elements, !Hch. tauto. }
    assert (Hloop : ~ edge (rt_parent t) name name) by (intros H%(acyclic_edge _ rk); done).
    destruct (String.eqb_spec par "") as [Epar|Epar].
    + rewrite Hd. split.
      * intros [Hq [He|(_ & ? & _)]]; [|done]. split; [|right; split; [|done]].
        { intros ->. apply Hpar2 in He as E. subst q. by destruct He. }
        intros He2. pose proof (edge_fun _ _ _ _ He He2). done.
      * intros [Hne [[_ He]|[Hno He]]]; [apply Hpar2 in He as E; subst q; by destruct He|]. split; [|by left]. intros ->. done.
    + specialize (Hpar Epar). assert (Hpn : par <> name) by (intros E; rewrite E in Hpar; done).
      assert (Hrm : c ∈ (default ∅ (removeFrom (delete name ch1) par name !! q) : gset string) <-> c ∈ (default ∅ (delete name ch1 !! q) : gset string) /\ (q = par -> c <> name)).
      { rewrite lookup_removeFrom. destruct (decide (q = par)); [rewrite elem_of_difference, elem_of_singleton|]; naive_solver. }
      rewrite Hrm, Hd. split.
      * intros [[Hq [He|(-> & _ & He)]] Hx].
        { split; [intros ->; apply Hpar2 in He; by apply Hx|]. right. split; [|done]. intros He2. pose proof (edge_fun _ _ _ _ He He2). done. }
        split; [by apply Hx|]. by left.
      * intros [Hne [[He He2]|[Hno He]]].
        { apply Hpar2 in He2 as ->. split; [|done]. split; [done|]. by right. }
        split; [|done]. split; [intros ->; done|by left].
  - intros c p Hcp. rewrite Hperms. revert Hcp. unfold RemoveRole. rewrite Eh. cbn [negb fst rt_parent].
    destruct (foldl_reparent (default "" (rt_parent t !! name)) (elements (default ∅ (rt_children t !! name))) t) as (H1 & _ & _).
    rewrite lookup_delete_Some, H1. intros [Hne Hcp]. rewrite lookup_delete_ne by done. destruct (decide _) as [Hk|_]; [|eauto].
    rewrite elem_of_elements, Hch in Hk. destruct Hk. eauto.
  - intros c p [Hne [[H1 H2]|[H1 H2]]]%Hedge; rewrite Hperms, lookup_delete_ne; eauto.
    + intros ->. by apply (acyclic_edge _ rk) in H2.
    + intros ->. done.
  - rewrite Hperms. by apply lookup_delete_None; right.
  - intros r s. rewrite Hperms, lookup_delete_Some. intros [_ ?]. eauto.
Qed.

Lemma treeOk_loadPass entries t added prog : treeOk t -> treeOk (loadPass entries t added prog).1.
Proof.
  revert t added prog. induction entries as [|r entries IH]; intros t added prog Ht; [done|]. cbn [loadPass].
  destruct (bool_decide _); [by apply IH|]. destruct (negb _ && _); [by apply IH|].
  pose proof (treeOk_AddRole t (re_Name r) (re_Parent r) Ht) as H1. destruct (AddRole t _ _) as [t1 [e|]]; [done|]. cbn [fst] in H1.
  destruct (re_Permissions r) as [|a l]; [by apply IH|]. pose proof (treeOk_Grant t1 (re_Name r) (a :: l) H1) as H2.
  destruct (GrantPermission t1 _ _) as [t2 [e|]]; [done|]. by apply IH.
Qed.

Lemma treeOk_LoadFromYAML t entries : treeOk t -> treeOk (LoadFromYAML t entries).1.
Proof.
  intros Ht. unfold LoadFromYAML. assert (H : forall n t added, treeOk t -> treeOk (loadPasses n entries t added).1).
  { intros n. induction n as [|n IH]; intros t0 added H0; [done|]. cbn [loadPasses]. pose proof (treeOk_loadPass entries t0 added false H0) as H1.
    destruct (loadPass entries t0 added false) as [t1 [e|[a p]]]; [done|]. destruct p; [by apply IH|done]. }
  specialize (H (length entries + 1)%nat t ∅ Ht). destruct (loadPasses _ _ _ _) as [t1 [e|a]]; [done|]. by destruct (filter _ entries).
Qed.

Inductive roleOp :=
| RAdd (name parent : string)
| RGrant (role : string) (actions : list string)
| RRevoke (role : string) (actions : list string)
| RRemove (name : string)
| RLoad (entries : list roleYAMLEntry).

Definition roleStep (t : RoleTree) (o : roleOp) : RoleTree :=
  match o with
  | RAdd n p => (AddRole t n p).1
  | RGrant r l => (GrantPermission t r l).1
  | RRevoke r l => (RevokePermission t r l).1
  | RRemove n => (RemoveRole t n).1
  | RLoad l => (LoadFromYAML t l).1
  end.

Lemma roleSteps_ok ops t : treeOk t -> treeOk (foldl roleStep t ops).
Proof.
  revert t. induction ops as [|o ops IH]; intros t Ht; [done|]. apply IH.
  destruct o; [by apply treeOk_AddRole|by apply treeOk_Grant|by apply treeOk_Revoke|by apply treeOk_RemoveRole|by apply treeOk_LoadFromYAML].
Qed.

(** After a removal the other roles keep every other ancestor. *)
Lemma removed_ancestors t name x y : treeOk t -> HasRole t name = true -> x <> name ->
  rtc (edge (rt_parent (RemoveRole t name).1)) x y <-> rtc (edge (rt_parent t)) x y /\ y <> name.
Proof.
  intros Ht Eh Hx. pose proof (fun c p => removed_edge t name c p Ht Eh) as Hedge. pose proof Ht as [[rk Hrk] _ _ _ _ _]. split.
  - intros Hr. induction Hr as [x|x z y Hxz _ IH]; [done|]. apply Hedge in Hxz as [_ Hxz].
    assert (Hz : z <> name).
    { intros ->. destruct Hxz as [[_ H]|[H1 H2]]; [|done]. by apply (acyclic_edge _ rk) in H. }
    destruct (IH Hz) as [H1 H2]. split; [|done]. destruct Hxz as [[Ha Hb]|[_ Ha]]; [|by econstructor]. econstructor; [exact Ha|]. by econstructor.
  - intros [Hr Hy]. assert (H : (x <> name -> rtc (edge (rt_parent (RemoveRole t name).1)) x y) /\
      (x = name -> forall c, edge (rt_parent t) c name -> rtc (edge (rt_parent (RemoveRole t name).1)) c y)); [|by destruct H as [H _]; apply H].
    clear Hx. induction Hr as [x|x z y Hxz _ IH]; [by split|]. destruct (IH Hy) as [IH1 IH2]. split.
    + intros Hx. destruct (decide (z = name)) as [->|Hz]; [by apply IH2|]. econstructor; [|by apply IH1]. apply Hedge. split; [done|]. right. split; [|done].
      intros H. by pose proof (edge_fun _ _ _ _ Hxz H).
    + intros -> c Hc. econstructor; [|apply IH1; intros ->; by apply (acyclic_edge _ rk) in Hxz]. apply Hedge.
      split; [intros ->; by apply (acyclic_edge _ rk) in Hc|]. by left.
Qed.

(** Roles inherit along a forest. Whatever roles are added, moved, removed, granted,
    revoked or loaded, the tree has no cycle and its two indexes agree; a role's
    effective permissions are exactly what it and its ancestors grant, each once and
    in order, and only an undeclared role has none to report; adding a role is refused
    as a cycle exactly when its new parent descends from it; and removing a role takes
    from the others exactly what only it granted. *)
Theorem roles_inherit (ops : list roleOp) :
  let t := foldl roleStep NewRoleTree ops in
  let grants t x a := a ∈ (default ∅ (rt_perms t !! x) : gset string) in
  treeOk t /\
  (forall role, match EffectivePermissions t role with
     | inl _ => HasRole t role = false
     | inr l => HasRole t role = true /\ StronglySorted String.le l /\ NoDup l /\
                forall a, a ∈ l <-> exists x, rtc (edge (rt_parent t)) role x /\ grants t x a
     end) /\
  (forall name parent, (exists e, (AddRole t name parent).2 = Some e /\ errors_Is e ErrCycleDetected = true) <->
     name <> "" /\ parent <> "" /\ name <> parent /\ rtc (edge (rt_parent t)) parent name) /\
  (forall name role a l, HasRole t name = true -> role <> name -> EffectivePermissions (RemoveRole t name).1 role = inr l ->
     (a ∈ l <-> exists x, x <> name /\ rtc (edge (rt_parent t)) role x /\ grants t x a)).
Proof.
  intros t grants. assert (Ht : treeOk t) by (apply roleSteps_ok, treeOk_new). clearbody t. split; [done|]. split_and!.
  - intros role. unfold EffectivePermissions. destruct (HasRole t role); [|done]. split_and!; [done|apply sortedKeys_sorted|apply sortedKeys_nodup|].
    intros a. rewrite elem_of_sortedKeys. by apply effective_spec.
  - intros name parent. pose proof Ht as [[rk Hrk] _ _ _ _ _]. unfold AddRole.
    destruct (String.eqb_spec name "") as [->|Hn]; [split; [by intros (e & [= <-] & ?)|by intros (? & _)]|].
    destruct (String.eqb_spec parent "") as [->|Hp]; cbn [negb andb].
    { split; [|by intros (_ & ? & _)]. intros (e & He & _). by destruct (bool_decide _). }
    destruct (String.eqb_spec name parent) as [->|Hnp]; [split; [by intros (e & [= <-] & ?)|by intros (_ & _ & ? & _)]|].
    destruct (bool_decide (rt_parent t !! name = Some parent)) eqn:E1.
    { apply bool_decide_eq_true in E1. split; [by intros (e & ? & _)|]. intros (_ & _ & _ & [k Hk]%rtc_nsteps). apply (ranked_nsteps _ rk) in Hk; [|done].
      assert (rk parent < rk name)%nat by by apply Hrk. lia. }
    destruct (reachable (rt_parent t) parent name) eqn:E2; cbn [snd].
    + apply (reachable_spec _ rk) in E2; [|done]. split; [done|]. intros _. by eexists.
    + split; [by intros (e & ? & _)|]. intros (_ & _ & _ & H). apply (reachable_spec _ rk) in H; [|done]. congruence.
  - intros name role a l Hh Hne. unfold EffectivePermissions. destruct (HasRole (RemoveRole t name).1 role); [|done]. intros [= <-].
    rewrite elem_of_sortedKeys, effective_spec by by apply treeOk_RemoveRole.
    rewrite (removed_perms t name) by done. unfold grants. split.
    + intros (y & Hy & Ha). apply removed_ancestors in Hy as [Hy Hyn]; [|done..]. rewrite lookup_delete_ne in Ha by done. by exists y.
    + intros (y & Hyn & Hy & Ha). exists y. rewrite removed_ancestors by done. by rewrite lookup_delete_ne.
Qed.

Lemma roles_inherit_witness :
  let ops := [RAdd "operator" "viewer"; RGrant "viewer" ["view"]; RGrant "operator" ["apply"]; RAdd "lead" "operator"; RGrant "lead" ["approve"]] in
  let t := foldl roleStep NewRoleTree ops in
  EffectivePermissions t "lead" = inr ["apply"; "approve"; "view"] /\
  (exists e, (AddRole t "viewer" "lead").2 = Some e /\ errors_Is e ErrCycleDetected = true) /\
  EffectivePermissions (RemoveRole t "operator").1 "lead" = inr ["approve"; "view"] /\
  ("apply" ∈ ["approve"; "view"] <-> exists x, x <> "operator" /\ rtc (edge (rt_parent t)) "lead" x /\ "apply" ∈ (default ∅ (rt_perms t !! x) : gset string)).
Proof.
  intros ops t. split; [by vm_compute|]. split; [eexists; split; by vm_compute|]. split; [by vm_compute|].
  apply (roles_inherit ops); [by vm_compute|done|by vm_compute].
Defined.
End Access.
