(* ===== verification/RoleFile.v ===== *)
(** * RoleFile: saving and loading the role tree

    The role file of src/internal/permission/role_tree.go: what [SaveToYAML] writes,
    [LoadFromYAML] reads back. The loader adds roles in dependency order whatever the
    order of the file, in passes; the proof follows the roles added so far. *)
From Stdlib Require Import ZArith Lia Ascii String.
From stdpp Require Import base gmap strings list sorting relations.
From S2P Require Import Prelude Access.
Open Scope string_scope.
Open Scope list_scope.

Module RoleFile.
Import Access.

(** ** A tree loaded in part *)

Definition parentOf (t : RoleTree) (x : string) : string := default "" (rt_parent t !! x).

(** [u] holds exactly the roles of [t] in [added], a set closed under parents. *)
Record partial (t : RoleTree) (added : gset string) (u : RoleTree) : Prop := MkPartial {
  pa_ok : treeOk u;
  pa_parent : forall c, rt_parent u !! c = if decide (c ∈ added) then Some (parentOf t c) else None;
  pa_perms : forall c, rt_perms u !! c = if decide (c ∈ added) then rt_perms t !! c else None;
  pa_roles : added ⊆ dom (rt_perms t);
  pa_closed : forall c, c ∈ added -> parentOf t c = "" \/ parentOf t c ∈ added }.

Lemma parentOf_edge t x : parentOf t x <> "" -> edge (rt_parent t) x (parentOf t x).
Proof. unfold parentOf, edge. destruct (rt_parent t !! x); cbn; [done|by intros []]. Qed.

Lemma partial_new t : partial t ∅ NewRoleTree.
Proof. split; [apply treeOk_new|intros c; by rewrite decide_False by set_solver|intros c; by rewrite decide_False by set_solver|set_solver|set_solver]. Qed.

(** In a part no role descends from one that is still missing. *)
Lemma partial_unreached t added u x y : partial t added u -> x ∉ added -> y <> x -> reachable (rt_parent u) y x = false.
Proof.
  intros Hp Hx Hy. destruct (reachable (rt_parent u) y x) eqn:E; [|done]. exfalso. destruct (pa_ok _ _ _ Hp) as [[rk Hrk] _ _ _ _ _].
  apply (reachable_spec _ rk) in E; [|done]. apply rtc_inv_r in E as [->|(z & _ & [Hz Hne])]; [done|].
  rewrite (pa_parent _ _ _ Hp) in Hz. destruct (decide (z ∈ added)) as [Hin|]; [|done]. injection Hz as Hz.
  destruct (pa_closed _ _ _ Hp z Hin) as [E|E]; congruence.
Qed.

(** The entry of one role, as the file has it. *)
Definition entryOf (t : RoleTree) (x : string) : roleYAMLEntry :=
  MkRoleEntry x (parentOf t x) (match rt_perms t !! x with Some s => sortedKeys s | None => [] end).

Lemma SaveToYAML_entries t : SaveToYAML t = map (entryOf t) (Roles t).
Proof.
  unfold SaveToYAML. apply map_ext_in. intros x Hx. apply list_elem_of_In, elem_of_sortedKeys, elem_of_dom in Hx.
  unfold Parent, HasRole, DirectPermissions, entryOf. rewrite bool_decide_eq_true_2 by done. by destruct (rt_perms t !! x).
Qed.

(** Adding a missing role whose parent is in. *)
Definition addEntry (u : RoleTree) (r : roleYAMLEntry) : RoleTree :=
  let u := (AddRole u (re_Name r) (re_Parent r)).1 in
  match re_Permissions r with [] => u | l => (GrantPermission u (re_Name r) l).1 end.

Lemma AddRole_partial t added u x : treeOk t -> partial t added u -> is_Some (rt_perms t !! x) -> x ∉ added ->
  (parentOf t x = "" \/ parentOf t x ∈ added) ->
  (AddRole u x (parentOf t x)).2 = None /\ rt_parent (AddRole u x (parentOf t x)).1 = <[x := parentOf t x]> (rt_parent u) /\
  rt_perms (AddRole u x (parentOf t x)).1 = <[x := ∅]> (rt_perms u).
Proof.
  intros Ht Hp Hx Hnew Hpar. unfold AddRole. destruct (String.eqb_spec x "") as [->|Hne].
  { rewrite (ok_named _ Ht) in Hx. by destruct Hx. }
  assert (Hux : rt_parent u !! x = None) by (rewrite (pa_parent _ _ _ Hp); by rewrite decide_False).
  assert (Hupx : rt_perms u !! x = None) by (rewrite (pa_perms _ _ _ Hp); by rewrite decide_False).
  rewrite Hux. rewrite bool_decide_eq_false_2 by done. destruct (String.eqb_spec (parentOf t x) "") as [E|E]; cbn [negb andb].
  - unfold ensure. rewrite Hupx. done.
  - destruct (String.eqb_spec x (parentOf t x)) as [Es|Es].
    { destruct Ht as [[rk Hrk] _ _ _ _ _]. apply parentOf_edge, Hrk in E. rewrite <- Es in E. lia. }
    rewrite (partial_unreached t added u) by done. cbn. split; [done|]. split; [done|].
    assert (Hpin : parentOf t x ∈ added) by by destruct Hpar. assert (is_Some (rt_perms u !! parentOf t x)) as [s Hs].
    { rewrite (pa_perms _ _ _ Hp). rewrite decide_True by done. by apply elem_of_dom, (pa_roles _ _ _ Hp). }
    unfold ensure. rewrite Hs, Hupx. done.
Qed.

Lemma grantAll_sorted (s : gset string) : "" ∉ s -> grantAll ∅ (sortedKeys s) = s.
Proof. intros H. apply set_eq. intros a. rewrite grantAll_spec, elem_of_sortedKeys. set_solver. Qed.

Lemma addEntry_partial t added u x : treeOk t -> partial t added u -> is_Some (rt_perms t !! x) -> x ∉ added ->
  (parentOf t x = "" \/ parentOf t x ∈ added) -> partial t ({[x]} ∪ added) (addEntry u (entryOf t x)).
Proof.
  intros Ht Hp Hx Hnew Hpar. destruct (AddRole_partial t added u x) as (_ & E1 & E2); [done..|].
  pose proof (treeOk_AddRole u x (parentOf t x) (pa_ok _ _ _ Hp)) as Hok. destruct Hx as [s Hs].
  assert (E : rt_parent (addEntry u (entryOf t x)) = <[x := parentOf t x]> (rt_parent u) /\
              rt_perms (addEntry u (entryOf t x)) = <[x := s]> (rt_perms u) /\ treeOk (addEntry u (entryOf t x))).
  { unfold addEntry, entryOf. cbn [re_Name re_Parent re_Permissions]. rewrite Hs. pose proof (ok_actions _ Ht _ _ Hs) as Hemp.
    destruct (sortedKeys s) as [|a l] eqn:El.
    - apply sortedKeys_nil in El. subst s. by rewrite E1, E2.
    - rewrite <- El. split_and!; [| |by apply treeOk_Grant].
      all: unfold GrantPermission; destruct (String.eqb_spec x "") as [->|]; [by rewrite (ok_named _ Ht) in Hs|]; cbn [fst rt_parent rt_perms].
      + done.
      + rewrite E2, lookup_insert_eq. cbn [from_option id]. rewrite grantAll_sorted by done. by rewrite insert_insert_eq. }
  destruct E as (F1 & F2 & F3). split; [done| | | |].
  - intros c. rewrite F1. destruct (decide (c = x)) as [->|]; [rewrite lookup_insert_eq; by rewrite decide_True by set_solver|].
    rewrite lookup_insert_ne by done. rewrite (pa_parent _ _ _ Hp). destruct (decide (c ∈ added)), (decide (c ∈ {[x]} ∪ added)); set_solver.
  - intros c. rewrite F2. destruct (decide (c = x)) as [->|]; [rewrite lookup_insert_eq; by rewrite decide_True by set_solver|].
    rewrite lookup_insert_ne by done. rewrite (pa_perms _ _ _ Hp). destruct (decide (c ∈ added)), (decide (c ∈ {[x]} ∪ added)); set_solver.
  - intros c. rewrite elem_of_union, elem_of_singleton. intros [->|Hc]; [by apply elem_of_dom|by apply (pa_roles _ _ _ Hp)].
  - intros c. rewrite elem_of_union, elem_of_singleton. intros [->|Hc]; [set_solver|]. destruct (pa_closed _ _ _ Hp c Hc); set_solver.
Qed.

(** ** The passes *)

(** A step of a pass that adds the role of the entry. *)
Lemma loadPass_add t added u x rest prog : treeOk t -> partial t added u -> is_Some (rt_perms t !! x) -> x ∉ added ->
  (parentOf t x = "" \/ parentOf t x ∈ added) ->
  loadPass (entryOf t x :: rest) u added prog = loadPass rest (addEntry u (entryOf t x)) ({[x]} ∪ added) true.
Proof.
  intros Ht Hp Hx Hnew Hpar. destruct (AddRole_partial t added u x) as (E & _ & _); [done..|]. cbn [loadPass].
  change (re_Name (entryOf t x)) with x. change (re_Parent (entryOf t x)) with (parentOf t x). rewrite bool_decide_eq_false_2 by done.
  assert (Eskip : negb (String.eqb (parentOf t x) "") && negb (bool_decide (parentOf t x ∈ added)) = false).
  { destruct Hpar as [->|Hpar]; [done|]. by rewrite bool_decide_eq_true_2, andb_false_r. }
  rewrite Eskip. unfold addEntry. change (re_Name (entryOf t x)) with x. change (re_Parent (entryOf t x)) with (parentOf t x).
  destruct (AddRole u x (parentOf t x)) as [u1 [e|]]; [done|]. cbn [fst]. destruct (re_Permissions (entryOf t x)) as [|a l]; [done|].
  unfold GrantPermission. destruct (String.eqb_spec x "") as [->|]; [|done]. rewrite (ok_named _ Ht) in Hx. by destruct Hx.
Qed.

(** One pass keeps the part, and stops making progress only when every entry is in or
    waits for a parent that is not. *)
Lemma loadPass_partial t names u added prog : treeOk t -> partial t added u -> (forall x, x ∈ names -> is_Some (rt_perms t !! x)) ->
  exists u' added' prog', loadPass (map (entryOf t) names) u added prog = (u', inr (added', prog')) /\ partial t added' u' /\ added ⊆ added' /\
    (prog = true -> prog' = true) /\ (prog' = true -> prog = true \/ (size added < size added')%nat) /\
    (prog' = false -> u' = u /\ added' = added /\ forall x, x ∈ names -> x ∈ added \/ (parentOf t x <> "" /\ parentOf t x ∉ added)).
Proof.
  intros Ht. revert u added prog. induction names as [|x names IH]; intros u added prog Hp Hn.
  - exists u, added, prog. split_and!; [done|done|done|done|by left|]. intros ->. split_and!; set_solver.
  - assert (Hn' : forall y, y ∈ names -> is_Some (rt_perms t !! y)) by (intros y Hy; apply Hn; set_solver).
    assert (Hskip : x ∈ added \/ (parentOf t x <> "" /\ parentOf t x ∉ added) ->
      loadPass (map (entryOf t) (x :: names)) u added prog = loadPass (map (entryOf t) names) u added prog).
    { cbn [map loadPass]. change (re_Name (entryOf t x)) with x. change (re_Parent (entryOf t x)) with (parentOf t x). intros Hs.
      destruct (bool_decide (x ∈ added)) eqn:Eb; [done|]. apply bool_decide_eq_false in Eb. destruct Hs as [?|[Hp1 Hp2]]; [done|].
      rewrite bool_decide_eq_false_2 by done. by destruct (String.eqb_spec (parentOf t x) ""). }
    destruct (decide (x ∈ added \/ (parentOf t x <> "" /\ parentOf t x ∉ added))) as [Hs|Hs].
    + rewrite Hskip by done. destruct (IH u added prog Hp Hn') as (u' & a' & p' & -> & H1 & H2 & Hm & H3 & H4). exists u', a', p'. split_and!; [done..|].
      intros E. destruct (H4 E) as (-> & -> & Hall). split_and!; [done|done|]. intros y [->|Hy]%elem_of_cons; [done|by apply Hall].
    + assert (Hnew : x ∉ added) by tauto. assert (Hpar : parentOf t x = "" \/ parentOf t x ∈ added).
      { destruct (decide (parentOf t x = "")); [by left|]. destruct (decide (parentOf t x ∈ added)); [by right|]. exfalso. tauto. }
      assert (Hx : is_Some (rt_perms t !! x)) by (apply Hn; set_solver). cbn [map]. rewrite loadPass_add by done.
      destruct (IH (addEntry u (entryOf t x)) ({[x]} ∪ added) true) as (u' & a' & p' & -> & H1 & H2 & Hm & H3 & H4); [by apply addEntry_partial|done|].
      assert (Hlt : (size added < size a')%nat).
      { apply subseteq_size in H2. rewrite size_union in H2 by set_solver. rewrite size_singleton in H2. lia. }
      exists u', a', p'. rewrite Hm by done. split_and!; [done|done|set_solver|done|by right|done].
Qed.

(** A part that makes no more progress is the whole tree. *)
Lemma partial_full t added u : treeOk t -> partial t added u ->
  (forall x, x ∈ Roles t -> x ∈ added \/ (parentOf t x <> "" /\ parentOf t x ∉ added)) -> added = dom (rt_perms t).
Proof.
  intros Ht Hp Hall. pose proof Ht as [[rk Hrk] _ _ Hpar _ _]. apply set_eq. intros x. split; [apply (pa_roles _ _ _ Hp)|]. intros Hx.
  remember (rk x) as n eqn:En. revert x En Hx. induction n as [n IH] using lt_wf_ind. intros x -> Hx.
  destruct (Hall x) as [?|[H1 H2]]; [by apply elem_of_sortedKeys|done|]. apply parentOf_edge in H1. destruct H2.
  eapply IH; [by apply Hrk|done|]. apply elem_of_dom. by eapply Hpar.
Qed.

Lemma loadPasses_partial t n u added : treeOk t -> partial t added u -> (size (dom (rt_perms t)) < n + size added)%nat ->
  exists u', loadPasses n (map (entryOf t) (Roles t)) u added = (u', inr (dom (rt_perms t))) /\ partial t (dom (rt_perms t)) u'.
Proof.
  intros Ht. revert u added. induction n as [|n IH]; intros u added Hp Hn.
  { pose proof (subseteq_size _ _ (pa_roles _ _ _ Hp)). lia. }
  cbn [loadPasses]. destruct (loadPass_partial t (Roles t) u added false Ht Hp) as (u' & a' & p' & -> & H1 & H2 & _ & H3 & H4).
  { intros x Hx%elem_of_sortedKeys. by apply elem_of_dom. }
  destruct p'.
  - apply IH; [done|]. destruct H3; [done|done|]. lia.
  - destruct (H4 eq_refl) as (-> & -> & Hall). exists u. assert (E : added = dom (rt_perms t)) by by apply (partial_full t added u). by rewrite E in *.
Qed.

Lemma reload t : treeOk t -> exists u, LoadFromYAML NewRoleTree (SaveToYAML t) = (u, None) /\ partial t (dom (rt_perms t)) u.
Proof.
  intros Ht. unfold LoadFromYAML. rewrite SaveToYAML_entries, length_map.
  destruct (loadPasses_partial t (length (Roles t) + 1) NewRoleTree ∅) as (u & -> & Hu); [done|apply partial_new| |].
  - assert (E : length (Roles t) = size (dom (rt_perms t))); [|lia]. unfold Roles, sortedKeys. by rewrite merge_sort_Permutation.
  - exists u. split; [|done]. destruct (filter _ _) as [|r l] eqn:El; [done|].
    assert (Hr : r ∈ filter (fun r => re_Name r ∉ dom (rt_perms t)) (map (entryOf t) (Roles t))) by (rewrite El; set_solver).
    apply list_elem_of_filter in Hr as [Hr (x & -> & Hx)%list_elem_of_fmap]. destruct Hr. by apply elem_of_sortedKeys in Hx.
Qed.

(** What one can ask of a tree. *)
Definition sameTree (t u : RoleTree) : Prop :=
  Roles u = Roles t /\
  forall role, HasRole u role = HasRole t role /\ Parent u role = Parent t role /\ Children u role = Children t role /\
    DirectPermissions u role = DirectPermissions t role /\ EffectivePermissions u role = EffectivePermissions t role.

Lemma partial_same t u : treeOk t -> partial t (dom (rt_perms t)) u -> sameTree t u.
Proof.
  intros Ht Hp. assert (Eperms : rt_perms u = rt_perms t).
  { apply map_eq. intros x. rewrite (pa_perms _ _ _ Hp). destruct (decide (x ∈ dom (rt_perms t))) as [|H]; [done|]. by apply not_elem_of_dom in H. }
  assert (Eedge : forall c p, edge (rt_parent u) c p <-> edge (rt_parent t) c p).
  { intros c p. unfold edge. rewrite (pa_parent _ _ _ Hp). split.
    - intros [H Hne]. destruct (decide _); [|done]. injection H as H. split; [|done]. unfold parentOf in H. destruct (rt_parent t !! c); cbn in H; congruence.
    - intros [H Hne]. rewrite decide_True by (apply elem_of_dom; by eapply ok_child). unfold parentOf. by rewrite H. }
  split; [unfold Roles; by rewrite Eperms|]. intros role.
  assert (Eh : HasRole u role = HasRole t role) by (unfold HasRole; by rewrite Eperms). split_and!; [done|..].
  - unfold Parent. rewrite Eh. destruct (HasRole t role) eqn:E; [|done]. apply bool_decide_eq_true, elem_of_dom in E.
    rewrite (pa_parent _ _ _ Hp). by rewrite decide_True.
  - unfold Children. rewrite Eh. destruct (HasRole t role); [|done]. do 2 f_equal. apply set_eq. intros c.
    rewrite (ok_children _ (pa_ok _ _ _ Hp)), (ok_children _ Ht). apply Eedge.
  - unfold DirectPermissions. by rewrite Eperms.
  - unfold EffectivePermissions. rewrite Eh. destruct (HasRole t role); [|done]. do 2 f_equal. apply set_eq. intros a.
    rewrite !effective_spec by (try done; apply (pa_ok _ _ _ Hp)). rewrite Eperms.
    assert (Er : forall y, rtc (edge (rt_parent u)) role y <-> rtc (edge (rt_parent t)) role y); [|by setoid_rewrite Er].
    intros y. split; apply rtc_subrel; intros c p; apply Eedge.
Qed.

(** The role file round-trips. Whatever tree the operations build, loading what is
    saved of it into a new tree succeeds, although the entries are written in name
    order and a child may precede its parent, and gives a forest with the same roles,
    parents, children and direct and effective permissions. *)
Theorem role_file_roundtrip (ops : list roleOp) :
  let t := foldl roleStep NewRoleTree ops in
  exists u, LoadFromYAML NewRoleTree (SaveToYAML t) = (u, None) /\ treeOk u /\ sameTree t u.
Proof.
  intros t. assert (Ht : treeOk t) by (apply roleSteps_ok, treeOk_new). destruct (reload t Ht) as (u & E & Hu).
  exists u. split; [done|]. split; [apply (pa_ok _ _ _ Hu)|by apply partial_same].
Qed.

(** A child that precedes its parent needs a second pass. *)
Example reload_two_passes :
  let t := foldl roleStep NewRoleTree [RAdd "apprentice" "operator"; RAdd "operator" "viewer"; RGrant "viewer" ["view"]; RGrant "apprentice" ["plan"]] in
  map re_Name (SaveToYAML t) = ["apprentice"; "operator"; "viewer"] /\
  EffectivePermissions (LoadFromYAML NewRoleTree (SaveToYAML t)).1 "apprentice" = inr ["plan"; "view"].
Proof. by vm_compute. Qed.

(** Loading adds to the tree: a role the file does not name keeps what it granted. *)
Example reload_keeps_old_roles :
  let t := foldl roleStep NewRoleTree [RAdd "root" ""; RGrant "root" ["admin"]] in
  let '(u, e) := LoadFromYAML t [MkRoleEntry "viewer" "" ["view"]] in
  e = None /\ Roles u = ["root"; "viewer"] /\ EffectivePermissions u "root" = inr ["admin"].
Proof. by vm_compute. Qed.
End RoleFile.
