(* ===== verification/Authz.v ===== *)
(** * Authz: one decision from matrix, roles and policies

    The conditional policies of src/internal/permission/policy.go and their two
    evaluators (the policy set and the engine of abac.go), the membership registry of
    src/internal/identity/registry.go, and the authorizer of
    src/internal/authz/authz.go that composes them with the permission matrix and the
    role tree (Access.v). The files of the data directory are modelled as what the
    YAML decoder returns for them. *)

From Stdlib Require Import ZArith Lia Ascii String.
From stdpp Require Import base gmap strings list sorting relations.
From S2P Require Import Prelude Condition Access.
Import Condition(ParseLabelCondition, LabelCondition, CTrue).
Open Scope string_scope.
Open Scope list_scope.

Module Authz.
Import Access.

(** ** Policies *)

Definition EffectAllow := "allow".
Definition EffectDeny := "deny".
Definition ErrUnknownEffect := "permission: unknown effect".
Definition ErrEmptyResource := "permission: empty resource".
Definition ErrEmptyPolicyAction := "permission: empty policy action".
Definition ErrNoMatch := "permission: no matching policy".

Record Policy := MkPolicy {
  po_ID : string; po_Effect : string; po_Resource : string; po_Action : string; po_Condition : string; po_Description : string }.

Abbreviation Labels := (gmap string string).

(** The condition as [ensureCompiled] parses it; an empty one is not parsed. [None]
    would be a parser that does not return. *)
Definition ensureCompiled (p : Policy) : option (goerr + LabelCondition) :=
  if String.eqb (po_Condition p) "" then Some (inr CTrue) else ParseLabelCondition (po_Condition p).

Definition Validate (p : Policy) : option (option goerr) :=
  if negb (String.eqb (po_Effect p) EffectAllow) && negb (String.eqb (po_Effect p) EffectDeny) then Some (Some (EWrap (po_Effect p) (ESentinel ErrUnknownEffect)))
  else if String.eqb (po_Resource p) "" then Some (Some (ESentinel ErrEmptyResource))
  else if String.eqb (po_Action p) "" then Some (Some (ESentinel ErrEmptyPolicyAction))
  else if String.eqb (po_Condition p) "" then Some None
  else match ParseLabelCondition (po_Condition p) with
       | None => None
       | Some (inl e) => Some (Some (EWrap "parse condition" e))
       | Some (inr _) => Some None
       end.

(** [strings.Cut], [strings.Contains] of one character, [strings.HasSuffix] and
    [strings.TrimSuffix]. *)
Definition Cut (s : string) (sep : ascii) : string * string :=
  let '(a, b) := Condition.span (fun c => negb (Ascii.eqb c sep)) s in
  (a, match b with String _ r => r | EmptyString => "" end).
Definition Contains (s : string) (c : ascii) : bool := existsb (Ascii.eqb c) (list_ascii_of_string s).
Definition HasSuffix (s suf : string) : bool :=
  (String.length suf <=? String.length s)%nat && String.eqb (substring (String.length s - String.length suf) (String.length suf) s) suf.
Definition TrimSuffix (s suf : string) : string := if HasSuffix s suf then substring 0 (String.length s - String.length suf) s else s.

Definition matchesResource (p : Policy) (request : string) : bool :=
  let pat := po_Resource p in
  if String.eqb pat Wildcard then true
  else if String.eqb pat request then true
  else if HasSuffix pat ":*" then
    let patKind := TrimSuffix pat ":*" in
    String.eqb patKind (Cut request ":").1 || String.eqb patKind ""
  else if Contains pat ":" then
    let '(patKind, patSel) := Cut pat ":" in
    let '(reqKind, reqSel) := Cut request ":" in
    if negb (String.eqb patKind reqKind) then false
    else if Contains patSel "=" then true
    else String.eqb patSel reqSel
  else false.

Definition matchesAction (p : Policy) (request : string) : bool :=
  if String.eqb (po_Action p) Wildcard then true else String.eqb (po_Action p) request.

Definition matchesCondition (p : Policy) (labels : Labels) : option (goerr + bool) :=
  match ensureCompiled p with
  | None => None
  | Some (inl e) => Some (inl (EWrap "compile condition" e))
  | Some (inr c) => if String.eqb (po_Condition p) "" then Some (inr true) else Condition.Evaluate c labels
  end.

Definition Matches (p : Policy) (resource action : string) (labels : Labels) : option (goerr + bool) :=
  if negb (matchesResource p resource) then Some (inr false)
  else if negb (matchesAction p action) then Some (inr false)
  else matchesCondition p labels.

(** ** The policy set *)

Abbreviation PolicySet := (list Policy).

Definition policy_Add (s : PolicySet) (p : option Policy) : option (PolicySet * option goerr) :=
  match p with
  | None => Some (s, Some (EText "permission: nil policy"))
  | Some p => match Validate p with
              | None => None
              | Some (Some e) => Some (s, Some (EWrap "validate policy" e))
              | Some None => Some (s ++ [p], None)
              end
  end.

Fixpoint policy_Remove (s : PolicySet) (id : string) : PolicySet * bool :=
  match s with
  | [] => ([], false)
  | p :: s => if String.eqb (po_ID p) id then (s, true) else let '(s', b) := policy_Remove s id in (p :: s', b)
  end.

Fixpoint checkAll (ps : list Policy) : option (option goerr) :=
  match ps with
  | [] => Some None
  | p :: ps => match Validate p with None => None | Some (Some e) => Some (Some (EWrap "validate policy" e)) | Some None => checkAll ps end
  end.
Definition policy_LoadFromConfig (s : PolicySet) (cfg : list Policy) : option (PolicySet * option goerr) :=
  match checkAll cfg with None => None | Some (Some e) => Some (s, Some e) | Some None => Some (cfg, None) end.

Record EvaluationContext := MkEvalCtx { ec_Subject : string; ec_Action : string; ec_Resource : string; ec_Labels : Labels }.

(** The loop's locals. *)
Record tally := MkTally { t_firstErr : option goerr; t_matchedAllow : bool; t_matchedDeny : bool }.

Fixpoint evalLoop (ps : list Policy) (ctx : EvaluationContext) (t : tally) : option tally :=
  match ps with
  | [] => Some t
  | p :: ps =>
      match Matches p (ec_Resource ctx) (ec_Action ctx) (ec_Labels ctx) with
      | None => None
      | Some (inl e) => evalLoop ps ctx (MkTally (match t_firstErr t with None => Some e | x => x end) (t_matchedAllow t) (t_matchedDeny t))
      | Some (inr false) => evalLoop ps ctx t
      | Some (inr true) =>
          evalLoop ps ctx (if String.eqb (po_Effect p) EffectDeny then MkTally (t_firstErr t) (t_matchedAllow t) true
                           else MkTally (t_firstErr t) true (t_matchedDeny t))
      end
  end.

(** [anyMatched] is a match of either effect. *)
Definition policies_Evaluate (s : PolicySet) (ctx : EvaluationContext) : option (bool * option goerr) :=
  match evalLoop s ctx (MkTally None false false) with
  | None => None
  | Some t => Some (if t_matchedDeny t then (false, None)
                    else if t_matchedAllow t then (true, None)
                    else if negb (t_matchedAllow t || t_matchedDeny t) then (false, Some (EWrap (ec_Subject ctx) (ESentinel ErrNoMatch)))
                    else (false, t_firstErr t))
  end.

(** ** The engine *)

Fixpoint engineLoop (ps : list Policy) (action resource : string) (labels : Labels) (allowID : string) (anyError : option goerr) :
    option (string * string * option goerr) :=
  match ps with
  | [] => Some (allowID, "", anyError)
  | p :: ps =>
      match Matches p resource action labels with
      | None => None
      | Some (inl e) => engineLoop ps action resource labels allowID (match anyError with None => Some e | x => x end)
      | Some (inr false) => engineLoop ps action resource labels allowID anyError
      | Some (inr true) =>
          if String.eqb (po_Effect p) EffectDeny then Some (allowID, po_ID p, anyError)
          else engineLoop ps action resource labels (if String.eqb allowID "" then po_ID p else allowID) anyError
      end
  end.

Definition engine_Evaluate (ps : PolicySet) (subject action resource : string) (labels : Labels) : option (bool * string) :=
  match engineLoop ps action resource labels "" None with
  | None => None
  | Some (allowID, denyID, anyError) =>
      Some (if negb (String.eqb denyID "") then (false, "denied by policy " +:+ denyID)
            else if negb (String.eqb allowID "") then (true, "allowed by policy " +:+ allowID)
            else match anyError with
                 | Some _ => (false, "evaluation error")
                 | None => (false, "no matching policy")
                 end)
  end.

(** ** The registry *)

Record User := MkUser { u_Name : string; u_Team : string; u_Role : string }.
Abbreviation Registry := (list User).

Definition registry_Lookup (r : Registry) (name : string) : option User := head (filter (fun u => u_Name u = name) r).
Definition Names (r : Registry) : list string := map u_Name r.

(** ** The authorizer *)

Record Decision := MkDecision {
  d_Enforced : bool; d_Allowed : bool; d_Via : string; d_Reason : string; d_Subject : string; d_Env : string; d_Action : string;
  d_Team : string; d_Role : string }.

Definition ViaMatrix := "matrix".
Definition ViaRole := "role".
Definition ViaPolicy := "policy".

Record Authorizer := MkAuthorizer {
  az_registry : Registry; az_matrix : PermissionMatrix; az_roles : RoleTree; az_policies : PolicySet; az_defaultEnv : string;
  az_recorder : bool; az_defaultSubject : string }.

Definition WithDefaultSubject (a : Authorizer) (s : string) : Authorizer :=
  MkAuthorizer (az_registry a) (az_matrix a) (az_roles a) (az_policies a) (az_defaultEnv a) (az_recorder a) s.
Definition WithDenialRecorder (a : Authorizer) (installed : bool) : Authorizer :=
  MkAuthorizer (az_registry a) (az_matrix a) (az_roles a) (az_policies a) (az_defaultEnv a) installed (az_defaultSubject a).
Definition subjectOr (a : Authorizer) (subject : string) : string := if String.eqb subject "" then az_defaultSubject a else subject.

Definition UnattributableActor := "<unattributable>".
(** The rows (actor, action, env) handed to the recorder. *)
Definition RecordDenial (a : option Authorizer) (d : Decision) (rows : list (string * string * string)) : list (string * string * string) :=
  match a with
  | None => rows
  | Some a => if negb (az_recorder a) || d_Allowed d then rows
              else rows ++ [(if String.eqb (d_Subject d) "" then UnattributableActor else d_Subject d, d_Action d, d_Env d)]
  end.

Definition Enforced (a : Authorizer) : bool := match Teams (az_matrix a) with [] => false | _ => true end.
Definition ReadFilteringActive (a : Authorizer) (subject : string) : bool := Enforced a && negb (String.eqb (subjectOr a subject) "").
Definition Registered (a : Authorizer) : list string := Names (az_registry a).
Definition Knows (a : Authorizer) (subject : string) : bool :=
  if String.eqb subject "" then false else match registry_Lookup (az_registry a) subject with Some _ => true | None => false end.
Definition ResolveEnv (a : option Authorizer) (env : string) : string :=
  match a with None => env | Some a => if negb (String.eqb env "") then env else az_defaultEnv a end.

Definition policyResourceFor (action : string) : string :=
  if inSet [ActionPlan; ActionApply; ActionApprove; ActionRollback; ActionPause; ActionResume; ActionPauseAll; ActionResumeAll; ActionCancel] action
  then "change:*" else Wildcard.

(** [d.Allowed, d.Via = true, via] and [d.Reason = reason]; the reasons keep their
    clause, without Go's quoting. *)
Definition allow (d : Decision) (via : string) : Decision :=
  MkDecision (d_Enforced d) true via (d_Reason d) (d_Subject d) (d_Env d) (d_Action d) (d_Team d) (d_Role d).
Definition because (d : Decision) (reason : string) : Decision :=
  MkDecision (d_Enforced d) (d_Allowed d) (d_Via d) reason (d_Subject d) (d_Env d) (d_Action d) (d_Team d) (d_Role d).

Definition envLabels (env : string) : Labels := <["env" := env]> (<["target.env" := env]> ∅).

Definition applyPolicyLayer (a : Authorizer) (d : Decision) (subject env action via : string) : option Decision :=
  match az_policies a with
  | [] => Some (allow d via)
  | ps =>
      match policies_Evaluate ps (MkEvalCtx subject action (policyResourceFor action) (envLabels env)) with
      | None => None
      | Some (ok, Some e) => Some (if errors_Is e ErrNoMatch then allow d via else because d "conditional policy could not be evaluated")
      | Some (ok, None) => Some (if ok then allow d ViaPolicy else because d "denied by a conditional policy")
      end
  end.

Definition containsAction (actions : list string) (action : string) : bool := existsb (fun a => String.eqb a action) actions.

Definition Decide (a : Authorizer) (subject env action : string) : option Decision :=
  let subject := subjectOr a subject in
  if negb (Enforced a)
  then Some (MkDecision false true "" "no permission matrix configured (authorization not in effect)" subject env action "" "")
  else
    let env := if String.eqb env "" then az_defaultEnv a else env in
    let d := MkDecision true false "" "" subject env action "" "" in
    if String.eqb env "" then Some (because d "no environment given and permission.default_env is unset")
    else if String.eqb subject "" then Some (because d "no authenticated subject")
    else match registry_Lookup (az_registry a) subject with
         | None => Some (because d "subject is not registered in users.yaml")
         | Some member =>
             let d := MkDecision true false "" "" subject env action (u_Team member) (u_Role member) in
             if String.eqb (u_Team member) "" then Some (because d "registered without a team")
             else if Allow (az_matrix a) (u_Team member) env action then applyPolicyLayer a d subject env action ViaMatrix
             else match ActionsFor (az_matrix a) (u_Team member) env with
                  | [] => Some (because d ("team " +:+ u_Team member +:+ " has no grant in environment " +:+ env))
                  | _ =>
                      if Revoked (az_matrix a) (u_Team member) env action
                      then Some (because d ("action " +:+ action +:+ " is explicitly revoked for team " +:+ u_Team member +:+ " in " +:+ env))
                      else match EffectivePermissions (az_roles a) (u_Role member) with
                           | inl _ => Some (because d ("role " +:+ u_Role member +:+ " is not declared and the matrix does not grant " +:+ action))
                           | inr granted =>
                               if containsAction granted action then applyPolicyLayer a d subject env action ViaRole
                               else Some (because d ("neither the matrix nor role " +:+ u_Role member +:+ " grants " +:+ action +:+ " in " +:+ env))
                           end
                  end
         end.

Definition AdmitsRead (a : Authorizer) (subject env : string) : option (bool * string) :=
  let subject := subjectOr a subject in
  if negb (Enforced a) then Some (true, "no permission matrix configured (read visibility not filtered)")
  else if String.eqb subject "" then Some (true, "caller has no provable identity")
  else match Decide a subject env ActionView with
       | None => None
       | Some d => Some (if d_Allowed d then (true, "granted via " +:+ d_Via d) else (false, d_Reason d))
       end.

(** ** Loading *)

(** What the data directory holds for one file. *)
Inductive file (A : Type) :=
| FMissing
| FBroken (e : goerr)   (** not readable, or not decodable *)
| FHolds (x : A).
Arguments FMissing {A}.
Arguments FBroken {A} _.
Arguments FHolds {A} _.

Definition loadRegistry (f : file (list User)) : goerr + Registry :=
  match f with FMissing => inr [] | FBroken e => inl e | FHolds us => inr us end.

Definition loadMatrix (f : file (list TeamRule)) : goerr + PermissionMatrix :=
  match f with
  | FMissing => inr NewPermissionMatrix
  | FBroken e => inl (EWrap "load permission matrix" e)
  | FHolds ts => match LoadFromConfig NewPermissionMatrix ts with (m, None) => inr m | (_, Some e) => inl (EWrap "load permission matrix" e) end
  end.

Definition loadRoles (f : file (list roleYAMLEntry)) : goerr + RoleTree :=
  match f with
  | FMissing => inr NewRoleTree
  | FBroken e => inl (EWrap "load role tree" e)
  | FHolds rs => match LoadFromYAML NewRoleTree rs with (t, None) => inr t | (_, Some e) => inl (EWrap "load role tree" e) end
  end.

Definition loadPolicies (f : file (list Policy)) : option (goerr + PolicySet) :=
  match f with
  | FMissing => Some (inr [])
  | FBroken e => Some (inl (EWrap "load policies" e))
  | FHolds ps => match policy_LoadFromConfig [] ps with
                 | None => None
                 | Some (s, None) => Some (inr s)
                 | Some (_, Some e) => Some (inl (EWrap "load policies" e))
                 end
  end.

Definition Load (users : file (list User)) (matrix : file (list TeamRule)) (roles : file (list roleYAMLEntry)) (policies : file (list Policy))
    (defaultEnv : string) : option (goerr + Authorizer) :=
  match loadRegistry users with
  | inl e => Some (inl e)
  | inr reg =>
      match loadMatrix matrix with
      | inl e => Some (inl e)
      | inr m =>
          match loadRoles roles with
          | inl e => Some (inl e)
          | inr t =>
              match loadPolicies policies with
              | None => None
              | Some (inl e) => Some (inl e)
              | Some (inr ps) => Some (inr (MkAuthorizer reg m t ps defaultEnv false ""))
              end
          end
      end
  end.

(** ** A validated policy always answers *)

Definition policyOk (p : Policy) : Prop := Validate p = Some None.

Lemma policyOk_matches p resource action labels : policyOk p -> exists b, Matches p resource action labels = Some (inr b).
Proof.
  unfold policyOk, Validate, Matches, matchesCondition, ensureCompiled. intros H.
  destruct (negb (matchesResource p resource)); [by eexists|]. destruct (negb (matchesAction p action)); [by eexists|].
  destruct (negb _ && negb _); [done|]. destruct (String.eqb (po_Resource p) ""); [done|]. destruct (String.eqb (po_Action p) ""); [done|].
  destruct (String.eqb (po_Condition p) "") eqn:E; [by eexists|].
  destruct (Condition.parse_outcome (po_Condition p)) as ([e|c] & Ep & Hc); rewrite Ep in *; [done|]. by apply Condition.condOk_evaluates.
Qed.

Lemma policyOk_effect p : policyOk p -> po_Effect p = EffectAllow \/ po_Effect p = EffectDeny.
Proof.
  unfold policyOk, Validate. destruct (String.eqb_spec (po_Effect p) EffectAllow); [by left|]. destruct (String.eqb_spec (po_Effect p) EffectDeny); [by right|done].
Qed.

Lemma Validate_total p : exists r, Validate p = Some r.
Proof.
  unfold Validate. repeat (case_match; [by eexists|]). destruct (Condition.parse_outcome (po_Condition p)) as ([e|c] & -> & _); by eexists.
Qed.

(** The policy applies to the request. *)
Definition fires (p : Policy) (resource action : string) (labels : Labels) : bool :=
  match Matches p resource action labels with Some (inr true) => true | _ => false end.
Definition firesWith (effect : string -> bool) (ps : list Policy) (resource action : string) (labels : Labels) : bool :=
  existsb (fun p => fires p resource action labels && effect (po_Effect p)) ps.
Definition denies : string -> bool := String.eqb EffectDeny.
Definition permits (e : string) : bool := negb (String.eqb EffectDeny e).

Lemma evalLoop_spec ps ctx t : Forall policyOk ps ->
  evalLoop ps ctx t = Some (MkTally (t_firstErr t)
    (t_matchedAllow t || firesWith permits ps (ec_Resource ctx) (ec_Action ctx) (ec_Labels ctx))
    (t_matchedDeny t || firesWith denies ps (ec_Resource ctx) (ec_Action ctx) (ec_Labels ctx))).
Proof.
  intros H. revert t. induction H as [|p ps Hp _ IH]; intros t; cbn [evalLoop]; [by destruct t as [? [] []]|].
  unfold firesWith, fires in *. cbn [existsb]. destruct (policyOk_matches p (ec_Resource ctx) (ec_Action ctx) (ec_Labels ctx) Hp) as [b ->].
  destruct b; rewrite IH; [|done]. unfold permits, denies. rewrite (String.eqb_sym EffectDeny).
  destruct (String.eqb (po_Effect p) EffectDeny); cbn; by destruct (t_matchedAllow t), (t_matchedDeny t).
Qed.

(** Deny wins, then allow, then nothing spoke. *)
Lemma policies_Evaluate_spec ps ctx : Forall policyOk ps ->
  policies_Evaluate ps ctx = Some (
    if firesWith denies ps (ec_Resource ctx) (ec_Action ctx) (ec_Labels ctx) then (false, None)
    else if firesWith permits ps (ec_Resource ctx) (ec_Action ctx) (ec_Labels ctx) then (true, None)
    else (false, Some (EWrap (ec_Subject ctx) (ESentinel ErrNoMatch)))).
Proof.
  intros H. unfold policies_Evaluate. rewrite evalLoop_spec by done. cbn. by repeat case_match.
Qed.

(** ** The two evaluators agree *)

Lemma engineLoop_spec ps action resource labels allowID : Forall policyOk ps -> (forall p, p ∈ ps -> po_ID p <> "") ->
  exists a d, engineLoop ps action resource labels allowID None = Some (a, d, None) /\
    (d <> "" <-> firesWith denies ps resource action labels = true) /\
    (firesWith denies ps resource action labels = false -> (a <> "" <-> allowID <> "" \/ firesWith permits ps resource action labels = true)).
Proof.
  intros H. revert allowID. induction H as [|p ps Hp _ IH]; intros allowID Hid; cbn [engineLoop].
  - exists allowID, "". split; [done|]. cbn. split; [done|]. intros _. split; [by left|]. by intros [?|?].
  - unfold firesWith, fires in *. cbn [existsb]. destruct (policyOk_matches p resource action labels Hp) as [b ->].
    assert (Hid' : forall q, q ∈ ps -> po_ID q <> "") by (intros q Hq; apply Hid; set_solver).
    destruct b; [|cbn; by apply IH]. unfold permits, denies in *. cbn [andb]. rewrite (String.eqb_sym EffectDeny).
    destruct (String.eqb (po_Effect p) EffectDeny); cbn [orb negb].
    + exists allowID, (po_ID p). split; [done|]. split; [|done]. split; [done|]. intros _. apply Hid. set_solver.
    + destruct (IH (if String.eqb allowID "" then po_ID p else allowID) Hid') as (a & d & -> & Hd & Ha). exists a, d. split; [done|]. split; [done|].
      intros E. rewrite (Ha E). split; [by intros _; right|]. intros _. left. destruct (String.eqb_spec allowID ""); [apply Hid; set_solver|done].
Qed.

(** The two evaluators agree. On policies that validate and carry an id, the
    engine behind the command line and the policy set behind the server reach the same
    verdict on every request, neither ever fails, and both are deny-wins: a request is
    allowed exactly when some allowing policy applies and no denying one does, in
    whatever order the policies stand. *)
Theorem evaluators_agree (ps : PolicySet) (subject action resource : string) (labels : Labels)
    (Hok : Forall policyOk ps) (Hid : forall p, p ∈ ps -> po_ID p <> "") :
  exists b e reason,
    policies_Evaluate ps (MkEvalCtx subject action resource labels) = Some (b, e) /\
    engine_Evaluate ps subject action resource labels = Some (b, reason) /\
    (b = true <-> firesWith permits ps resource action labels = true /\ firesWith denies ps resource action labels = false) /\
    (forall x, e = Some x -> errors_Is x ErrNoMatch = true /\ reason = "no matching policy").
Proof.
  rewrite policies_Evaluate_spec by done. cbn [ec_Resource ec_Action ec_Labels ec_Subject]. unfold engine_Evaluate.
  destruct (engineLoop_spec ps action resource labels "" Hok Hid) as (a & d & -> & Hd & Ha).
  destruct (firesWith denies ps resource action labels) eqn:Ed.
  { assert (Hne : d <> "") by by apply Hd. apply String.eqb_neq in Hne. rewrite Hne. do 3 eexists. split; [done|]. split; [done|]. naive_solver. }
  assert (Hde : d = "") by (destruct (String.eqb_spec d "") as [|Hne]; [done|]; by apply Hd in Hne). subst d. specialize (Ha eq_refl). cbn [String.eqb negb].
  destruct (firesWith permits ps resource action labels) eqn:Ep.
  - assert (Hne : a <> "") by (apply Ha; by right). apply String.eqb_neq in Hne. rewrite Hne. do 3 eexists. split; [done|]. split; [done|]. naive_solver.
  - assert (Hae : a = "") by (destruct (String.eqb_spec a "") as [|Hne]; [done|]; apply Ha in Hne as [?|?]; done). subst a. cbn.
    do 3 eexists. split; [done|]. split; [done|]. split; [naive_solver|]. by intros x [= <-].
Qed.

Lemma evaluators_agree_witness :
  let ps := [MkPolicy "p1" "allow" "change:*" "apply" "" ""; MkPolicy "p2" "deny" "*" "*" "target.env = prod" ""] in
  exists b e reason,
    policies_Evaluate ps (MkEvalCtx "ann" "apply" "change:*" (envLabels "prod")) = Some (b, e) /\
    engine_Evaluate ps "ann" "apply" "change:*" (envLabels "prod") = Some (b, reason) /\
    (b = true <-> firesWith permits ps "change:*" "apply" (envLabels "prod") = true /\ firesWith denies ps "change:*" "apply" (envLabels "prod") = false) /\
    (forall x, e = Some x -> errors_Is x ErrNoMatch = true /\ reason = "no matching policy").
Proof.
  intros ps. apply evaluators_agree; [repeat constructor|]. intros p. unfold ps. rewrite !elem_of_cons, elem_of_nil. intros [->|[->|[]]]; done.
Defined.

(** Without an id a deny is lost to the engine, and not to the set. *)
Example anonymous_deny_ignored :
  let ps := [MkPolicy "" "deny" "*" "*" "" ""; MkPolicy "p" "allow" "*" "*" "" ""] in
  policies_Evaluate ps (MkEvalCtx "ann" "apply" "change:*" ∅) = Some (false, None) /\
  engine_Evaluate (reverse ps) "ann" "apply" "change:*" ∅ = Some (true, "allowed by policy p").
Proof. by vm_compute. Qed.

(** ** The decision *)

Record azOk (a : Authorizer) : Prop := MkAzOk { az_tree : treeOk (az_roles a); az_valid : Forall policyOk (az_policies a) }.

Lemma checkAll_spec ps : exists r, checkAll ps = Some r /\ (r = None -> Forall policyOk ps).
Proof.
  induction ps as [|p ps (r & IH & Hr)]; cbn [checkAll]; [by exists None|]. destruct (Validate_total p) as [[e|] Hp]; rewrite Hp; [by eexists|].
  rewrite IH. exists r. split; [done|]. intros E. constructor; [done|by apply Hr].
Qed.

(** Loading ends, and what it accepts is well formed. *)
Lemma Load_spec users matrix roles policies env0 :
  exists r, Load users matrix roles policies env0 = Some r /\ forall a, r = inr a -> azOk a /\ az_defaultEnv a = env0 /\ az_defaultSubject a = "".
Proof.
  unfold Load. destruct (loadRegistry users) as [e|reg]; [by eexists|]. destruct (loadMatrix matrix) as [e|m]; [by eexists|].
  destruct (loadRoles roles) as [e|t] eqn:Et; [by eexists|].
  assert (Ht : treeOk t).
  { destruct roles as [|e|rs]; cbn in Et; [injection Et as <-; apply treeOk_new|done|]. pose proof (treeOk_LoadFromYAML NewRoleTree rs treeOk_new) as H.
    destruct (LoadFromYAML NewRoleTree rs) as [t' [e|]]; [done|]. by injection Et as <-. }
  assert (Hp : exists x, loadPolicies policies = Some x /\ forall ps, x = inr ps -> Forall policyOk ps).
  { destruct policies as [|e|ps]; cbn; [eexists; split; [done|]; intros ? [= <-]; constructor|by eexists|].
    unfold policy_LoadFromConfig. destruct (checkAll_spec ps) as ([e|] & -> & H); eexists; (split; [done|]); [done|]. intros ? [= <-]. by apply H. }
  destruct Hp as ([e|ps] & -> & H); eexists; (split; [done|]); [done|]. intros a [= <-]. split; [|done]. split; [done|by apply H].
Qed.

(** A conditional policy denies the action in the environment. *)
Definition barred (a : Authorizer) (env action : string) : bool :=
  firesWith denies (az_policies a) (policyResourceFor action) action (envLabels env).

(** The role, or a role it inherits from, grants the action. *)
Definition roleGrants (t : RoleTree) (role action : string) : Prop :=
  exists r, rtc (edge (rt_parent t)) role r /\ action ∈ (default ∅ (rt_perms t !! r) : gset string).

Definition entitled (a : Authorizer) (subject env action : string) : Prop :=
  env <> "" /\ subject <> "" /\
  exists u, registry_Lookup (az_registry a) subject = Some u /\ u_Team u <> "" /\
    (Allow (az_matrix a) (u_Team u) env action = true \/
     ((exists x, x ∈ ActionsFor (az_matrix a) (u_Team u) env) /\ Revoked (az_matrix a) (u_Team u) env action = false /\
      roleGrants (az_roles a) (u_Role u) action)) /\
    barred a env action = false.

Lemma applyPolicyLayer_spec a d subject env action via : azOk a -> d_Allowed d = false -> exists d', applyPolicyLayer a d subject env action via = Some d' /\
  d_Allowed d' = negb (barred a env action) /\ d_Enforced d' = d_Enforced d /\ d_Subject d' = d_Subject d /\ d_Env d' = d_Env d /\ d_Action d' = d_Action d /\
  (d_Allowed d' = true -> d_Via d' = via \/ d_Via d' = ViaPolicy).
Proof.
  intros [_ Hp] Hd. unfold applyPolicyLayer, barred. destruct (az_policies a) as [|p ps] eqn:E; [eexists; split; [done|]; cbn; naive_solver|].
  rewrite policies_Evaluate_spec by done. cbn [ec_Resource ec_Action ec_Labels ec_Subject].
  destruct (firesWith denies (p :: ps) _ _ _); [eexists; split; [done|]; cbn; rewrite Hd; naive_solver|].
  destruct (firesWith permits (p :: ps) _ _ _); eexists; (split; [done|]); cbn; naive_solver.
Qed.

Lemma effective_grants t role action : treeOk t ->
  roleGrants t role action <-> exists l, EffectivePermissions t role = inr l /\ containsAction l action = true.
Proof.
  intros Ht. unfold EffectivePermissions, roleGrants. rewrite <- effective_spec by done. destruct (HasRole t role) eqn:E.
  - split; [|intros (l & [= <-] & (x & Hx & ->%String.eqb_eq)%existsb_elem); by apply elem_of_sortedKeys].
    intros H. eexists. split; [done|]. apply existsb_elem. exists action. split; [by apply elem_of_sortedKeys|apply String.eqb_refl].
  - split; [|by intros (l & ? & _)]. intros H. apply effective_spec in H as (r & Hr & Ha); [|done]. exfalso. apply bool_decide_eq_false in E. apply E.
    apply rtc_inv in Hr as [<-|(z & [Hz _] & _)]; [|by eapply ok_child]. destruct (rt_perms t !! role); [by eexists|set_solver].
Qed.

(** A refusal: the request fails a condition of [entitled]. *)
Ltac settle := eexists; split; [reflexivity|]; cbn; split_and!; [done..|]; split; [done|]; intros [?|(? & ? & v & ? & ? & ? & ?)]; congruence.

Lemma decide_outcome a subject env action : azOk a -> exists d, Decide a subject env action = Some d /\ d_Enforced d = Enforced a /\
  d_Subject d = subjectOr a subject /\ d_Env d = (if Enforced a then ResolveEnv (Some a) env else env) /\ d_Action d = action /\
  (d_Allowed d = true <-> Enforced a = false \/ entitled a (subjectOr a subject) (ResolveEnv (Some a) env) action).
Proof.
  intros Ha. unfold Decide, entitled, ResolveEnv. destruct (Enforced a); cbn [negb].
  2:{ eexists. split; [done|]. cbn. split_and!; [done..|]. split; [by left|done]. }
  set (s := subjectOr a subject). set (e := if String.eqb env "" then az_defaultEnv a else env).
  replace (if negb (String.eqb env "") then env else az_defaultEnv a) with e by (subst e; by destruct (String.eqb env "")).
  destruct (String.eqb_spec e "") as [He|He]; [settle|].
  destruct (String.eqb_spec s "") as [Hs|Hs]; [settle|].
  destruct (registry_Lookup (az_registry a) s) as [u|] eqn:Eu; [|settle].
  destruct (String.eqb_spec (u_Team u) "") as [Ht|Ht]; [settle|].
  destruct (Allow (az_matrix a) (u_Team u) e action) eqn:Eal.
  { destruct (applyPolicyLayer_spec a (MkDecision true false "" "" s e action (u_Team u) (u_Role u)) s e action ViaMatrix Ha eq_refl) as (d & -> & H1 & H2 & H3 & H4 & H5 & _).
    exists d. split_and!; [done..|]. rewrite H1, negb_true_iff. split; [|by intros [?|(_ & _ & v & _ & _ & _ & ?)]]. intros Hb. right. split_and!; [done..|]. exists u. split_and!; [done..|by left|done]. }
  destruct (ActionsFor (az_matrix a) (u_Team u) e) as [|x l] eqn:Ex.
  { eexists. split; [done|]. cbn. split_and!; [done..|]. split; [done|]. intros [?|(_ & _ & v & [= <-] & _ & [?|[[y Hy] _]] & _)]; [done|congruence|]. rewrite Ex in Hy. set_solver. }
  destruct (Revoked (az_matrix a) (u_Team u) e action) eqn:Er; [|].
  { eexists. split; [done|]. cbn. split_and!; [done..|]. split; [done|]. intros [?|(_ & _ & v & [= <-] & _ & [?|(_ & ? & _)] & _)]; congruence. }
  pose proof (effective_grants (az_roles a) (u_Role u) action (az_tree _ Ha)) as Hg.
  destruct (EffectivePermissions (az_roles a) (u_Role u)) as [err|l'] eqn:El.
  { eexists. split; [done|]. cbn. split_and!; [done..|]. split; [done|]. intros [?|(_ & _ & v & [= <-] & _ & [?|(_ & _ & Hr)] & _)]; [done|congruence|]. by apply Hg in Hr as (? & ? & _). }
  destruct (containsAction l' action) eqn:Ec.
  - destruct (applyPolicyLayer_spec a (MkDecision true false "" "" s e action (u_Team u) (u_Role u)) s e action ViaRole Ha eq_refl) as (d & -> & H1 & H2 & H3 & H4 & H5 & _).
    exists d. split_and!; [done..|]. rewrite H1, negb_true_iff. split; [|by intros [?|(_ & _ & v & _ & _ & _ & ?)]]. intros Hb. right. split_and!; [done..|]. exists u. split_and!; try done.
    right. split_and!; [rewrite Ex; exists x; set_solver|done|]. apply Hg. by eexists.
  - eexists. split; [done|]. cbn. split_and!; [done..|]. split; [done|]. intros [?|(_ & _ & v & [= <-] & _ & [?|(_ & _ & Hr)] & _)]; [done|congruence|].
    apply Hg in Hr as (l2 & [= <-] & ?). congruence.
Qed.

(** C21: a decision is the composition the package promises. From any files that load,
    every question gets an answer. Once the matrix names a team, a request is allowed
    exactly when it has an environment (its own or the default) and a subject (its own
    or the default), the subject is registered with a team, the matrix allows the
    action there or the team reaches the environment, the action is not revoked and the
    subject's role or one it inherits from grants it, and no conditional policy denies
    it; and the answer names the subject and environment that were judged. Reads are
    judged alike, except that a caller without identity sees everything. *)
Theorem decision_composes (users : file (list User)) (matrix : file (list TeamRule)) (roles : file (list roleYAMLEntry)) (policies : file (list Policy))
    (env0 subject0 subject env action : string) (a0 : Authorizer) (Hload : Load users matrix roles policies env0 = Some (inr a0)) :
  let a := WithDefaultSubject a0 subject0 in
  let s := if String.eqb subject "" then subject0 else subject in
  let e := if String.eqb env "" then env0 else env in
  (exists d, Decide a subject env action = Some d /\ d_Enforced d = Enforced a /\ d_Subject d = s /\ (Enforced a = true -> d_Env d = e) /\
     (d_Allowed d = true <-> Enforced a = false \/ entitled a s e action)) /\
  (exists r, AdmitsRead a subject env = Some r /\ (r.1 = true <-> Enforced a = false \/ s = "" \/ entitled a s e ActionView)) /\
  (ReadFilteringActive a subject = false -> forall env', exists reason, AdmitsRead a subject env' = Some (true, reason)).
Proof.
  intros a s e. destruct (Load_spec users matrix roles policies env0) as (r & E & Hr). rewrite Hload in E. injection E as <-.
  destruct (Hr _ eq_refl) as (Ha0 & He0 & _). assert (Ha : azOk a) by by destruct Ha0.
  assert (Es : forall x, subjectOr a x = if String.eqb x "" then subject0 else x) by done.
  assert (Ee : ResolveEnv (Some a) env = e) by (cbn; subst e; rewrite He0; by destruct (String.eqb env "")). split_and!.
  - destruct (decide_outcome a subject env action Ha) as (d & H & H1 & H2 & H3 & _ & H4). exists d. rewrite Ee, Es in *.
    split_and!; [done..|by intros Hen; rewrite Hen in H3|done].
  - unfold AdmitsRead. rewrite Es. fold s. destruct (Enforced a) eqn:Een; cbn [negb]; [|eexists; split; [done|]; naive_solver].
    destruct (String.eqb_spec s "") as [Hs|Hs]; [eexists; split; [done|]; naive_solver|].
    destruct (decide_outcome a s env ActionView Ha) as (d & -> & H1 & H2 & H3 & _ & H4). rewrite Ee, Es, Een in *. apply String.eqb_neq in Hs as Hs'. rewrite Hs' in *.
    eexists. split; [done|]. destruct (d_Allowed d); cbn; naive_solver.
  - unfold ReadFilteringActive, AdmitsRead. rewrite Es. destruct (Enforced a); cbn [negb andb]; [|by eexists]. intros H%negb_false_iff env'. rewrite H. by eexists.
Qed.

Definition sampleUsers := [MkUser "ann" "sre" "lead"; MkUser "bob" "dba" "viewer"].
Definition sampleTeams := [MkTeamRule "sre" [MkEnvPermission "prod" ["plan"; "view"]]; MkTeamRule "dba" [MkEnvPermission "dev" ["apply"]]].
Definition sampleRoles := [MkRoleEntry "lead" "operator" ["approve"]; MkRoleEntry "operator" "" ["apply"]; MkRoleEntry "viewer" "" ["view"]].
Definition samplePolicies := [MkPolicy "freeze" "deny" "change:*" "approve" "target.env = prod" ""].
Definition sampleAuthorizer : Authorizer :=
  match Load (FHolds sampleUsers) (FHolds sampleTeams) (FHolds sampleRoles) (FHolds samplePolicies) "prod" with
  | Some (inr a) => a | _ => MkAuthorizer [] NewPermissionMatrix NewRoleTree [] "" false "" end.

Lemma sampleAuthorizer_loads : Load (FHolds sampleUsers) (FHolds sampleTeams) (FHolds sampleRoles) (FHolds samplePolicies) "prod" = Some (inr sampleAuthorizer).
Proof. by vm_compute. Qed.
Lemma sampleAuthorizer_ok : azOk sampleAuthorizer.
Proof.
  destruct (Load_spec (FHolds sampleUsers) (FHolds sampleTeams) (FHolds sampleRoles) (FHolds samplePolicies) "prod") as (r & E & H).
  rewrite sampleAuthorizer_loads in E. injection E as <-. by apply H.
Qed.

Lemma decision_composes_witness :
  let a := WithDefaultSubject sampleAuthorizer "" in
  (d_Allowed <$> Decide a "ann" "" "apply") = Some true /\ (d_Allowed <$> Decide a "ann" "prod" "approve") = Some false /\
  (d_Allowed <$> Decide a "bob" "prod" "view") = Some false /\ (d_Allowed <$> Decide a "eve" "prod" "view") = Some false /\
  exists d, Decide a "ann" "" "apply" = Some d /\ d_Enforced d = Enforced a /\ d_Subject d = "ann" /\ (Enforced a = true -> d_Env d = "prod") /\
     (d_Allowed d = true <-> Enforced a = false \/ entitled a "ann" "prod" "apply").
Proof.
  intros a. do 4 (split; [by vm_compute|]).
  apply (decision_composes (FHolds sampleUsers) (FHolds sampleTeams) (FHolds sampleRoles) (FHolds samplePolicies) "prod" "" "ann" "" "apply" sampleAuthorizer).
  apply sampleAuthorizer_loads.
Defined.

(** ** Revokes, reach and policies only narrow *)

Lemma lookup_addRule r t e a team env : (t = team \/ t = Wildcard) -> (e = env \/ e = Wildcard) -> lookup (addRule r t e a) team env a = true.
Proof.
  intros Ht He. unfold lookup. apply existsb_elem. exists (t, e). split.
  - unfold candidates. rewrite !elem_of_cons. naive_solver.
  - apply bool_decide_eq_true, actsOf_addRule. by left.
Qed.

Definition withMatrix (a : Authorizer) (m : PermissionMatrix) : Authorizer :=
  MkAuthorizer (az_registry a) m (az_roles a) (az_policies a) (az_defaultEnv a) (az_recorder a) (az_defaultSubject a).
Definition withPolicies (a : Authorizer) (ps : PolicySet) : Authorizer :=
  MkAuthorizer (az_registry a) (az_matrix a) (az_roles a) ps (az_defaultEnv a) (az_recorder a) (az_defaultSubject a).

Lemma Teams_nonempty m : Teams m <> [] <-> exists t, t <> Wildcard /\ t ∈ dom (pm_grants m) ∪ dom (pm_revokes m).
Proof.
  unfold Teams. rewrite sortedKeys_nil. split.
  - intros H. apply set_choose_L in H as [t Ht]. rewrite elem_of_filter in Ht. by exists t.
  - intros (t & Hw & Ht) E. assert (Hin : t ∈ filter (fun t => t <> Wildcard) (dom (pm_grants m) ∪ dom (pm_revokes m))) by by apply elem_of_filter. rewrite E in Hin. set_solver.
Qed.

Lemma enforced_revoke a m' t e act : Revoke (az_matrix a) t e act = (m', None) -> t <> "" -> e <> "" -> act <> "" ->
  (t <> Wildcard \/ Enforced a = true) -> Enforced (withMatrix a m') = true /\ pm_revokes m' = addRule (pm_revokes (az_matrix a)) t e act.
Proof.
  unfold Revoke, anyEmpty. intros H H1%String.eqb_neq H2%String.eqb_neq H3%String.eqb_neq Hw. rewrite H1, H2, H3 in H. cbn [orb] in H. destruct (refusesAction _ _); [done|]. injection H as <-.
  split; [|done]. unfold Enforced in *. cbn [az_matrix withMatrix].
  destruct (Teams (MkMatrix _ _ _)) eqn:E; [|done]. exfalso. revert E. apply Teams_nonempty. cbn [pm_grants pm_revokes].
  assert (Hd : dom (addRule (pm_revokes (az_matrix a)) t e act) = {[t]} ∪ dom (pm_revokes (az_matrix a))) by (unfold addRule; apply dom_insert_L).
  rewrite Hd. destruct Hw as [Hw|Hw]; [exists t; set_solver|]. assert (H : Teams (az_matrix a) <> []) by by destruct (Teams (az_matrix a)).
  apply Teams_nonempty in H as (x & Hx & Hin). exists x. set_solver.
Qed.

(** Nothing widens past a revoke. After an action is revoked for a team, or for
    every team while the matrix is in force, no member of the team is allowed it in
    that environment, whatever their role grants, whatever allowing policies say and
    although the matrix grants admin; and adding conditional policies never allows a
    request that was refused. *)
Theorem revoke_is_final (a : Authorizer) (t e act : string) (m' : PermissionMatrix) (subject env : string) (u : User)
    (Ha : azOk a) (Hrev : Revoke (az_matrix a) t e act = (m', None)) (Hne : t <> "" /\ e <> "" /\ act <> "")
    (Hw : t <> Wildcard \/ Enforced a = true)
    (Hu : registry_Lookup (az_registry a) (subjectOr a subject) = Some u) (Ht : t = u_Team u \/ t = Wildcard)
    (He : e = ResolveEnv (Some a) env \/ e = Wildcard) :
  (exists d, Decide (withMatrix a m') subject env act = Some d /\ d_Enforced d = true /\ d_Allowed d = false) /\
  (forall a' ps action, azOk a' -> Forall policyOk ps ->
     forall d d', Decide a' subject env action = Some d -> Decide (withPolicies a' (az_policies a' ++ ps)) subject env action = Some d' ->
     d_Allowed d' = true -> d_Allowed d = true).
Proof.
  split.
  - destruct Hne as (Hn1 & Hn2 & Hn3). destruct (enforced_revoke a m' t e act Hrev Hn1 Hn2 Hn3 Hw) as [Hen Er].
    destruct (decide_outcome (withMatrix a m') subject env act) as (d & Hd & H1 & _ & _ & _ & H2); [by destruct Ha|].
    exists d. split_and!; [done|by rewrite H1|]. destruct (d_Allowed d); [|done]. exfalso.
    destruct (proj1 H2 eq_refl) as [?|(He1 & _ & v & Hv & Ht1 & Hor & _)]; [congruence|]. cbn [withMatrix az_registry az_matrix] in *.
    change (subjectOr (withMatrix a m') subject) with (subjectOr a subject) in Hv.
    change (ResolveEnv (Some (withMatrix a m')) env) with (ResolveEnv (Some a) env) in *. rewrite Hu in Hv. injection Hv as <-.
    pose proof (lookup_addRule (pm_revokes (az_matrix a)) t e act (u_Team u) (ResolveEnv (Some a) env) Ht He) as Hl. rewrite <- Er in Hl.
    assert (Hany : anyEmpty (u_Team u) (ResolveEnv (Some a) env) act = false).
    { unfold anyEmpty. apply String.eqb_neq in Ht1, He1, Hn3. by rewrite Ht1, He1, Hn3. }
    destruct Hor as [Hal|(_ & Hrv & _)]; [unfold Allow in Hal|unfold Revoked in Hrv]; rewrite Hany, Hl in *; done.
  - intros a' ps action Ha' Hps d d' Hd Hd' Hall. destruct (decide_outcome a' subject env action Ha') as (d1 & E1 & _ & _ & _ & _ & H1).
    destruct (decide_outcome (withPolicies a' (az_policies a' ++ ps)) subject env action) as (d2 & E2 & _ & _ & _ & _ & H2).
    { destruct Ha'. split; [done|]. by apply Forall_app. }
    rewrite Hd in E1. rewrite Hd' in E2. injection E1 as <-. injection E2 as <-. apply H1. apply H2 in Hall as [?|Hall]; [by left|]. right.
    destruct Hall as (? & ? & v & ? & ? & ? & Hb). split_and!; [done..|]. exists v. split_and!; [done..|].
    unfold barred, firesWith in *. cbn [withPolicies az_policies] in Hb. rewrite existsb_app in Hb. by apply orb_false_iff in Hb as [? _].
Qed.

Lemma revoke_is_final_witness :
  let a := sampleAuthorizer in
  let m' := (Revoke (az_matrix a) "sre" "prod" "apply").1 in
  (d_Allowed <$> Decide a "ann" "prod" "apply") = Some true /\
  exists d, Decide (withMatrix a m') "ann" "prod" "apply" = Some d /\ d_Enforced d = true /\ d_Allowed d = false.
Proof.
  intros a m'. split; [by vm_compute|]. apply (revoke_is_final a "sre" "prod" "apply" m' "ann" "prod" (MkUser "ann" "sre" "lead")).
  - apply sampleAuthorizer_ok.
  - by vm_compute.
  - done.
  - by left.
  - by vm_compute.
  - by left.
  - by left.
Defined.

(** A matrix of wildcard teams only names no team: nothing is enforced, and a revoke for
    every team has no effect. *)
Example wildcard_matrix_not_enforced :
  match Load (FHolds []) (FHolds [MkTeamRule "*" [MkEnvPermission "dev" ["view"]]]) FMissing FMissing "" with
  | Some (inr a) =>
      (d_Allowed <$> Decide a "nobody" "prod" "apply") = Some true /\
      (d_Allowed <$> Decide (withMatrix a (Revoke (az_matrix a) "*" "*" "apply").1) "nobody" "prod" "apply") = Some true
  | _ => False
  end.
Proof. by vm_compute. Qed.
End Authz.
