(* ===== verification/AuthzGate.v ===== *)
(** * AuthzGate: the apply handler behind the authorizer

    Lifecycle.v leaves the policy's answer to the environment. Here that answer is the
    authorizer's (Authz.v): what an apply may do is bounded by the files of the data
    directory. *)

From Stdlib Require Import ZArith Lia.
From stdpp Require Import base gmap strings list sorting relations.
From S2P Require Import Prelude RunStatus Risk Dsl Plan Concur Rely Approval Canonical TraceChain AuditLog Dispatch Lifecycle Governance ApplyGate Access Authz.
Import Concur Rely Lifecycle ApplyGate Authz.
Import Governance(tableOk).
Open Scope string_scope.
Open Scope list_scope.

Module AuthzGate.
Local Open Scope levee_scope.
Local Open Scope Z_scope.

(** The environment answers a policy question with the authorizer's decision. *)
Definition judges (a : Authorizer) (orc : stmt -> ans) : Prop :=
  forall subject env action d, Decide a subject env action = Some d ->
    y_ok (orc (LDecide subject env action)) = d_Allowed d /\ y_id (orc (LDecide subject env action)) = d_Subject d /\
    y_env (orc (LDecide subject env action)) = d_Env d.

(** The same environment, with its policy answers taken from the authorizer. *)
Definition judgedBy (a : Authorizer) (orc : stmt -> ans) (s : stmt) : ans :=
  match s with
  | LDecide subject env action =>
      match Decide a subject env action with
      | Some d => MkAns None (d_Allowed d) None [] Approval.noAns TraceChain.noAns AuditLog.noAns 0 (d_Subject d) (d_Env d) None noOutcome
      | None => orc s
      end
  | _ => orc s
  end.

Lemma judgedBy_judges a orc : judges a (judgedBy a orc).
Proof. intros subject env action d H. cbn. by rewrite H. Qed.

Section composed.
Context (raw : string) (fuel : nat) (decodePlan : string -> option Plan.Plan) (VerifyHash : Plan.Plan -> string -> bool).
Context (a : Authorizer) (orc : stmt -> ans).

Lemma allowed_entitled s c env action rec : azOk a -> judges a orc -> Enforced a = true -> cs_authz s = Some rec ->
  allowed orc s c env action = true <-> entitled a (subjectOr a (x_subject c)) (ResolveEnv (Some a) env) action.
Proof.
  intros Ha Hj He Hs. unfold allowed. rewrite Hs. destruct (decide_outcome a (x_subject c) env action Ha) as (d & Hd & _ & _ & _ & _ & Hal).
  destruct (Hj _ _ _ _ Hd) as (-> & _ & _). rewrite Hal, He. naive_solver.
Qed.

End composed.

Import Governance(ex_plan, ex_decode, ex_verify, ex_orc, ex_row, ex_world, ex_table).

(** Ann leads a team that reaches production; Bob's team does not. *)
Definition ex_guarded : ChangeService := MkChangeService true true (Some Approval.NewService) true (Some true) false None 0.
Abbreviation ex_judged := (judgedBy sampleAuthorizer ex_orc).
Abbreviation ex_applyAs who := (ApplyChange "pass" 9 ex_decode ex_verify ex_guarded (MkCtx who who) "r1" false false 0).

End AuthzGate.
