(* ===== verification/Evidence.v ===== *)
(** * Evidence: step rows, the manual rollback and the resumed retry

    What the engine reads back from its own step rows, src/internal/wiring/run.go and
    persist.go: the execution ledger of a manual rollback, the hosts it reports, the
    rows an execution and a rollback persist, and the batches a resumed retry leaves
    out. A manual rollback drives the rollback manager of Rollback.v. Times are
    nanoseconds since the zero time of Go, which is 0; durations and captured output are
    not modelled. *)

From Stdlib Require Import ZArith Lia.
From stdpp Require Import base gmap strings list sorting.
From S2P Require Import Prelude Dsl Plan Concur Batch Rollback.
Import Plan Concur Rollback.
Open Scope string_scope.
Open Scope list_scope.

Module Evidence.

(** ** Rows *)

Definition StepStatusSuccess := "success".
Definition StepStatusFailed := "failed".
Definition StepStatusSkipped := "skipped".
Definition BatchStateCompleted := "completed".
Definition BatchStateFailed := "failed".
Definition BatchStateRolledBack := "rolled_back".

Record StepRow := MkStepRow {
  er_BatchID : string; er_Host : string; er_StepName : string; er_Action : string; er_Status : string; er_CompletedAt : option Z }.
Record BatchRow := MkBatchRow {
  eb_ID : string; eb_BatchNo : Z; eb_Status : string; eb_TotalHosts : Z; eb_Succeeded : Z; eb_Failed : Z }.

(** The rows of one run. *)
Record rows := MkRows { w_batches : list BatchRow; w_steps : list StepRow }.

(** ** The plan, indexed *)

Abbreviation index := (gmap string (gset string)).
Definition indexed (m : index) (k x : string) : bool := bool_decide (x ∈ (default ∅ (m !! k) : gset string)).

Definition undosOf (s : PlanStep) : gset string :=
  match ps_Rollback s with
  | None => ∅
  | Some rb => if String.eqb (Dsl.rb_Strategy rb) "snapshot" then {["snapshot:" +:+ ps_Name s]}
               else list_to_set (map Dsl.st_Name (Dsl.rb_Steps rb))
  end.
Definition addAll (m : index) (k : string) (xs : gset string) : index := <[k := default ∅ (m !! k) ∪ xs]> m.

Definition indexBatch (acc : index * index) (b : Batch) : index * index :=
  let undoNames := foldl (fun m s => addAll m (ps_Name s) (undosOf s)) acc.2 (b_Steps b) in
  let forward := foldl (fun m t => addAll m t (list_to_set (map ps_Name (b_Steps b)))) acc.1 (b_Targets b) in
  (forward, undoNames).
(** Forward step names per host, and per forward step the names its compensation
    records. *)
Definition indexPlanSteps (p : Plan) : index * index := foldl indexBatch (∅, ∅) (p_Batches p).

Definition collidesWithForward (name : string) (forward : index) : bool :=
  existsb (fun kv : string * gset string => bool_decide (name ∈ kv.2)) (map_to_list forward).
Definition refuseUndoNameCollisions (changeID : string) (forward undoNames : index) : option goerr :=
  match filter (fun name => collidesWithForward name forward = true) (concat (map (fun kv : string * gset string => elements kv.2) (map_to_list undoNames))) with
  | [] => None
  | name :: _ => Some (EText ("wiring: change " +:+ changeID +:+ " declares rollback step " +:+ name +:+ " whose name is also a forward step name"))
  end.

(** ** The ledger of a manual rollback *)

Abbreviation stamps := (gmap (string * string) Z).

Definition note (m : stamps) (host name : string) (at_ : option Z) : stamps :=
  match at_ with
  | None => m
  | Some t => if (t =? 0)%Z then m
              else match m !! (host, name) with
                   | Some cur => if (cur <? t)%Z then <[(host, name) := t]> m else m
                   | None => <[(host, name) := t]> m
                   end
  end.

Record evidence := MkEvidence { ev_ledger : ExecutionLedger; ev_forward : stamps; ev_undo : stamps }.

Definition readRow (forward : index) (e : evidence) (row : StepRow) : evidence :=
  let h := er_Host row in
  let n := er_StepName row in
  if negb (indexed forward h n) then
    if String.eqb (er_Status row) StepStatusSuccess
    then MkEvidence (ev_ledger e) (ev_forward e) (note (ev_undo e) h n (er_CompletedAt row)) else e
  else if String.eqb (er_Status row) StepStatusSuccess
    then MkEvidence (MarkRan (ev_ledger e) h n) (note (ev_forward e) h n (er_CompletedAt row)) (ev_undo e)
  else if String.eqb (er_Status row) StepStatusFailed
    then MkEvidence (MarkUnknown (ev_ledger e) h n) (note (ev_forward e) h n (er_CompletedAt row)) (ev_undo e)
  else e.
Definition readStepEvidence (rs : list StepRow) (forward : index) : evidence :=
  foldl (readRow forward) (MkEvidence NewExecutionLedger ∅ ∅) rs.

Definition undoSucceeded (undo : stamps) (host : string) (names : gset string) : bool :=
  existsb (fun u => bool_decide (is_Some (undo !! (host, u)))) (elements names).
Definition undoneAfter (undo : stamps) (host : string) (names : gset string) (at_ : Z) : bool :=
  existsb (fun u => match undo !! (host, u) with Some t => (at_ <? t)%Z | None => false end) (elements names).

(** The body of the last loop for one host and step; the visits commute. *)
Definition settleStep (undoNames : index) (e : evidence) (l : ExecutionLedger) (hs : string * string) : ExecutionLedger :=
  let '(host, step) := hs in
  let names := default ∅ (undoNames !! step) in
  if negb (Ran (Some l) host step) then l
  else match ev_forward e !! (host, step) with
       | None => if undoSucceeded (ev_undo e) host names then MarkCompensationUncertain l host step else l
       | Some at_ => if undoneAfter (ev_undo e) host names at_ then MarkCompensated l host step else l
       end.
Definition visits (forward : index) : list (string * string) :=
  concat (map (fun kv : string * gset string => map (pair kv.1) (elements kv.2)) (map_to_list forward)).

Definition ledgerFromStoredSteps (changeID : string) (listed : goerr + list StepRow) (p : Plan) : goerr + ExecutionLedger :=
  match listed with
  | inl e => inl (EWrap "wiring: list steps for rollback ledger" e)
  | inr rs =>
      let '(forward, undoNames) := indexPlanSteps p in
      match refuseUndoNameCollisions changeID forward undoNames with
      | Some e => inl e
      | None => let e := readStepEvidence rs forward in inr (foldl (settleStep undoNames e) (ev_ledger e) (visits forward))
      end
  end.

(** ** The hosts a rollback reports *)

Inductive stepClass := WouldRun | Benign | Gap.
Definition classify (sr : StepRollbackResult) : stepClass :=
  if DryRun sr then WouldRun
  else if sr_AlreadyCompensated sr || NotExecuted sr then Benign
  else if Skipped sr then Gap else WouldRun.
#[global] Instance stepClass_dec : EqDecision stepClass.
Proof. solve_decision. Defined.

Record buckets := MkBuckets { bk_compensated : list string; bk_skipped : list string; bk_gaps : list string }.
Definition appendNew (l : list string) (h : string) : list string := if inSet l h then l else l ++ [h].

Definition bucketTarget (bk : buckets) (tr : TargetRollbackResult) : buckets :=
  let cs := map classify (rt_StepResults tr) in
  let wouldRun := bool_decide (WouldRun ∈ cs) in
  let gap := bool_decide (Gap ∈ cs) in
  let h := rt_Target tr in
  let gaps := if gap then appendNew (bk_gaps bk) h else bk_gaps bk in
  if wouldRun then MkBuckets (appendNew (bk_compensated bk) h) (bk_skipped bk) gaps
  else MkBuckets (bk_compensated bk) (if gap then bk_skipped bk else appendNew (bk_skipped bk) h) gaps.
Definition rollbackHostBuckets (res : RollbackResult) : buckets :=
  foldl bucketTarget (MkBuckets [] [] []) (concat (map rb_TargetResults (BatchResults res))).

(** ** Persisting *)

(** What the store answers: an error per rejected row, and fresh ids. *)
Record StoreEnv := MkStoreEnv {
  se_batch : BatchRow -> option goerr; se_update : BatchRow -> option goerr; se_step : StepRow -> option goerr; se_id : list BatchRow -> string }.

Definition batchesByNo (l : list BatchRow) : gmap Z BatchRow := foldl (fun m b => <[eb_BatchNo b := b]> m) ∅ l.

Definition writeStep (env : StoreEnv) (acc : rows * list goerr) (r : StepRow) : rows * list goerr :=
  match se_step env r with
  | Some e => (acc.1, acc.2 ++ [EWrap "create step" e])
  | None => (MkRows (w_batches acc.1) (w_steps acc.1 ++ [r]), acc.2)
  end.

Definition rollbackRow (batchID target : string) (now : Z) (sr : StepRollbackResult) : StepRow :=
  MkStepRow batchID target (if String.eqb (RollbackStepName sr) "" then OrigStepName sr else RollbackStepName sr)
    (if String.eqb (sr_Module sr) "" then "" else sr_Module sr +:+ "." +:+ sr_Action sr)
    (if Skipped sr then StepStatusSkipped else match sr_Error sr with Some _ => StepStatusFailed | None => StepStatusSuccess end)
    (Some now).

Definition persistRollbackBatch (env : StoreEnv) (now : Z) (acc : gmap Z BatchRow * (rows * list goerr)) (br : BatchRollbackResult)
    : gmap Z BatchRow * (rows * list goerr) :=
  let '(byNo, (w, errs)) := acc in
  let batchNo := (rb_BatchIndex br + 1)%Z in
  let steps id := concat (map (fun tr => map (rollbackRow id (rt_Target tr) now) (rt_StepResults tr)) (rb_TargetResults br)) in
  match byNo !! batchNo with
  | Some row => (byNo, foldl (writeStep env) (w, errs) (steps (eb_ID row)))
  | None =>
      let row := MkBatchRow (se_id env (w_batches w)) batchNo BatchStateRolledBack (Z.of_nat (length (rb_TargetResults br))) 0 0 in
      match se_batch env row with
      | Some e => (byNo, (w, errs ++ [EWrap "create rollback batch row" e]))
      | None => (<[batchNo := row]> byNo, foldl (writeStep env) (MkRows (w_batches w ++ [row]) (w_steps w), errs) (steps (eb_ID row)))
      end
  end.
Definition persistRollbackResults (env : StoreEnv) (now : Z) (res : RollbackResult) (w : rows) : rows * list goerr :=
  (foldl (persistRollbackBatch env now) (batchesByNo (w_batches w), (w, [])) (BatchResults res)).2.

(** [errors.Join] of the collected errors. *)
Definition joinErrors (errs : list goerr) : option goerr :=
  match errs with [] => None | e :: es => Some (foldl (EWrap2 "") e es) end.

Definition stepAction (pb : Batch) (stepName : string) : string :=
  match filter (fun s => ps_Name s = stepName) (b_Steps pb) with s :: _ => ps_Module s +:+ "." +:+ ps_Action s | [] => "" end.

Definition forwardRow (batchID target : string) (now : Z) (pb : option Batch) (sr : Batch.StepResult) : StepRow :=
  MkStepRow batchID target (Batch.sr_StepName sr) (match pb with Some b => stepAction b (Batch.sr_StepName sr) | None => "" end)
    (match Batch.sr_Error sr with Some _ => StepStatusFailed | None => StepStatusSuccess end) (Some now).

Definition persistBatch (env : StoreEnv) (now : Z) (p : Plan) (acc : gmap Z BatchRow * (rows * list goerr)) (br : Batch.BatchResult)
    : gmap Z BatchRow * (rows * list goerr) :=
  let '(byNo, (w, errs)) := acc in
  let batchNo := (Batch.br_BatchIndex br + 1)%Z in
  let failed := Z.of_nat (length (filter (fun tr => Batch.tr_Error tr <> None) (Batch.br_TargetResults br))) in
  let total := Z.of_nat (length (Batch.br_TargetResults br)) in
  let status := match Batch.br_Error br with Some _ => BatchStateFailed | None => BatchStateCompleted end in
  let pb := list_find (fun b => b_Index b = Batch.br_BatchIndex br) (reverse (p_Batches p)) in
  let steps id := concat (map (fun tr => map (forwardRow id (Batch.tr_Target tr) now (snd <$> pb)) (Batch.tr_StepResults tr)) (Batch.br_TargetResults br)) in
  match byNo !! batchNo with
  | Some old =>
      let row := MkBatchRow (eb_ID old) batchNo status total (total - failed) failed in
      match se_update env row with
      | Some e => (byNo, (w, errs ++ [EWrap "update batch" e]))
      | None => (<[batchNo := row]> byNo,
                 foldl (writeStep env) (MkRows (map (fun b => if String.eqb (eb_ID b) (eb_ID row) then row else b) (w_batches w)) (w_steps w), errs) (steps (eb_ID row)))
      end
  | None =>
      let row := MkBatchRow (se_id env (w_batches w)) batchNo status total (total - failed) failed in
      match se_batch env row with
      | Some e => (byNo, (w, errs ++ [EWrap "create batch" e]))
      | None => (<[batchNo := row]> byNo, foldl (writeStep env) (MkRows (w_batches w ++ [row]) (w_steps w), errs) (steps (eb_ID row)))
      end
  end.
(** [nowRB] is the clock of the automatic rollback's rows, read after the others are
    written. *)
Definition persistClosureResults (env : StoreEnv) (now nowRB : Z) (p : Plan) (brs : list Batch.BatchResult) (rb : option RollbackResult) (w : rows)
    : rows * option goerr :=
  let '(w1, errs) := (foldl (persistBatch env now p) (batchesByNo (w_batches w), (w, [])) brs).2 in
  match rb with
  | None => (w1, joinErrors errs)
  | Some res => let '(w2, errs2) := persistRollbackResults env nowRB res w1 in
                (w2, joinErrors (errs ++ match joinErrors errs2 with Some e => [EWrap "auto-rollback evidence" e] | None => [] end))
  end.

(** ** The manual rollback *)

Definition ErrIncomplete := "rollback incomplete".

Record RollbackOutcome := MkOutcome { ro_RunID : string; ro_RolledBackHosts : list string; ro_SkippedHosts : list string; ro_Gaps : list string }.
Definition noOutcome : RollbackOutcome := MkOutcome "" [] [] [].
Definition outcomeOf (id : string) (b : buckets) : RollbackOutcome := MkOutcome id (bk_compensated b) (bk_skipped b) (bk_gaps b).

(** What surrounds a manual rollback: a free slot, the stored plan as loaded, the
    executor's channels, whether the snapshot store of the configured directory opens,
    the configured concurrency, the targets, the restore of the run's baseline, the
    store, the clock and the id it mints. *)
Record RollbackEnv := MkRollbackEnv {
  ve_slot : option goerr; ve_plan : goerr + Plan; ve_exec : option goerr; ve_snapshots : bool; ve_concurrency : Z;
  ve_targets : REnv; ve_restoreRun : list string -> option goerr; ve_list : option goerr; ve_batches : option goerr; ve_store : StoreEnv; ve_now : Z; ve_id : string }.

Definition manualManager (env : RollbackEnv) (changeID : string) (dryRun : bool) : Manager :=
  NewManager ([WithWhitelistAll; WithConcurrency (ve_concurrency env); WithStopOnError false]
    ++ (if dryRun then [WithDryRun true] else [])
    ++ (if ve_snapshots env then [WithSnapshotRestore true; WithRunID changeID] else [])).

Abbreviation history := (list (entry call (option goerr))).

Definition rollbackChange (env : RollbackEnv) (changeID : string) (dryRun : bool) (w : rows) (h : history)
    : RollbackOutcome * option goerr * rows * history :=
  match ve_slot env, ve_plan env, ve_exec env with
  | Some e, _, _ => (noOutcome, Some e, w, h)
  | None, inl e, _ => (noOutcome, Some e, w, h)
  | None, inr _, Some e => (noOutcome, Some e, w, h)
  | None, inr p, None =>
      match ledgerFromStoredSteps changeID (match ve_list env with Some e => inl e | None => inr (w_steps w) end) p with
      | inl e => (noOutcome, Some e, w, h)
      | inr ledger =>
          let '(res, h') := RollbackWithLedger (ve_targets env) (manualManager env changeID dryRun) (Some p) (negb dryRun) (Some ledger) h in
          let b := rollbackHostBuckets res in
          if dryRun then (outcomeOf "" b, None, w, h')
          else
            let baseline := match p_RunSnapshot p with
                            | Some _ => if ve_snapshots env then ve_restoreRun env (bk_compensated b) else None
                            | None => None
                            end in
            let cause := match rr_Error res, baseline with
                         | x, None => x
                         | None, Some e => Some (EWrap "wiring: manual rollback restored compensations but not the run baseline" e)
                         | Some x, Some e => Some (EWrap2 "" x (EWrap "wiring: manual rollback restored compensations but not the run baseline" e))
                         end in
            let success := Success res && bool_decide (baseline = None) in
            let '(w', persistErr) := match ve_batches env with
                                     | Some e => (w, Some (EWrap "wiring: list batches" e))
                                     | None => let '(w', errs) := persistRollbackResults (ve_store env) (ve_now env) res w in (w', joinErrors errs)
                                     end in
            let err := if negb success then
                         let cause := default (EText "partial rollback: some undo steps failed") cause in
                         Some (EWrap2 "" (ESentinel ErrIncomplete) (match persistErr with Some e => EWrap2 "" cause e | None => cause end))
                       else match persistErr with Some e => Some (EWrap "wiring: rollback succeeded but persisting evidence failed" e) | None => None end in
            (outcomeOf (ve_id env) b, err, w', h')
      end
  end.

(** ** The resumed retry *)

Definition planNeedsSnapshot (p : Plan) : bool :=
  existsb (fun b => existsb (fun s => match ps_Rollback s with Some rb => String.eqb (Dsl.rb_Strategy rb) "snapshot" | None => false end) (b_Steps b)) (p_Batches p).

Definition batchNoForID (noToID : gmap Z string) (id : string) : Z :=
  match filter (fun kv : Z * string => kv.2 = id) (map_to_list noToID) with (no, _) :: _ => no | [] => 0 end.

(** The steps that succeeded, by batch number, step and host. *)
Definition succeededSteps (noToID : gmap Z string) (steps : list StepRow) : list (Z * string * string) :=
  omap (fun s => let no := batchNoForID noToID (er_BatchID s) in
                 if (no =? 0)%Z then None else if negb (String.eqb (er_Status s) StepStatusSuccess) then None
                 else Some (no, er_StepName s, er_Host s)) steps.

Definition completable (isIdempotent : string -> bool) (done_ : list (Z * string * string)) (b : Batch) : bool :=
  match b_Steps b, b_Targets b with
  | [], _ | _, [] => false
  | steps, targets => forallb (fun s => isIdempotent (ps_Module s) &&
      forallb (fun host => bool_decide ((b_Index b + 1, ps_Name s, host)%Z ∈ done_)) targets) steps
  end.

(** The store returns at most [Limit] rows. *)
Definition completedIdempotentBatches (isIdempotent : string -> bool) (w : rows) (p : Plan) : gset Z :=
  let noToID := foldl (fun m b => <[eb_BatchNo b := eb_ID b]> m) ∅ (w_batches w) in
  let done_ := succeededSteps noToID (take (Z.to_nat 10000) (w_steps w)) in
  list_to_set (map (fun b => b_Index b + 1)%Z (filter (fun b => completable isIdempotent done_ b = true) (p_Batches p))).

Record resumeEvidence := MkResume { re_BatchNo : Z; re_Host : string; re_StepName : string; re_Action : string }.

Definition leavesOut (skip : gset Z) (b : Batch) : bool :=
  bool_decide ((b_Index b + 1)%Z ∈ skip) && negb (bool_decide (b_Steps b = [])) && negb (bool_decide (b_Targets b = [])).
Definition resumeRows (b : Batch) : list resumeEvidence :=
  s ← b_Steps b; host ← b_Targets b; [MkResume (b_Index b + 1) host (ps_Name s) (ps_Module s +:+ "." +:+ ps_Action s)].

Fixpoint resumeLoop (skip : gset Z) (batches : list Batch) (newIndex : Z) : list Batch * list resumeEvidence :=
  match batches with
  | [] => ([], [])
  | b :: rest =>
      if leavesOut skip b then let '(bs, ev) := resumeLoop skip rest newIndex in (bs, resumeRows b ++ ev)
      else let '(bs, ev) := resumeLoop skip rest (newIndex + 1) in (MkBatch newIndex (b_Targets b) (b_Steps b) (b_MaxConcurrency b) (b_Gate b) :: bs, ev)
  end.
Definition buildResumePlan (p : Plan) (skip : gset Z) : Plan * list resumeEvidence :=
  let '(bs, ev) := resumeLoop skip (p_Batches p) 0 in
  (MkPlan (p_ID p) (p_WorkflowName p) bs (foldl Z.add 0 (map (fun b => Z.of_nat (length (b_Targets b))) bs))%Z (p_CreatedAt p) (p_RiskScore p)
     (p_RiskFactors p) (p_ApprovalFloor p) (p_Approval p) (p_Rollback p) (p_Gate p) None, ev).

(** The plan [executePlan] runs. *)
Definition resumedPlan (isIdempotent : string -> bool) (listed : bool) (resumable : bool) (w : rows) (p : Plan) : Plan :=
  if resumable && listed then
    let skip := completedIdempotentBatches isIdempotent w p in
    if bool_decide (skip = ∅) then p else (buildResumePlan p skip).1
  else p.

(** ** What the rows say *)

(** A forward step of the plan on one of its targets; the undo names of a step. *)
Definition declares (p : Plan) (host step : string) : Prop :=
  exists b ps, b ∈ p_Batches p /\ host ∈ b_Targets b /\ ps ∈ b_Steps b /\ ps_Name ps = step.
Definition undoName (p : Plan) (step u : string) : Prop :=
  exists b ps, b ∈ p_Batches p /\ ps ∈ b_Steps b /\ ps_Name ps = step /\ u ∈ undosOf ps.

Lemma indexed_addAll m k xs k' x : indexed (addAll m k xs) k' x = true <-> indexed m k' x = true \/ (k' = k /\ x ∈ xs).
Proof.
  unfold indexed, addAll. rewrite !bool_decide_eq_true. destruct (decide (k' = k)) as [->|].
  - rewrite lookup_insert_eq. cbn [from_option id]. set_solver.
  - rewrite lookup_insert_ne by done. naive_solver.
Qed.

Lemma indexed_fold {A} (key : A -> string) (val : A -> gset string) l m k x :
  indexed (foldl (fun m a => addAll m (key a) (val a)) m l) k x = true <-> indexed m k x = true \/ exists a, a ∈ l /\ k = key a /\ x ∈ val a.
Proof.
  revert m. induction l as [|a l IH]; intros m; cbn [foldl]; [set_solver|]. rewrite IH, indexed_addAll. set_solver.
Qed.

Lemma indexPlan_spec p :
  (forall h s, indexed (indexPlanSteps p).1 h s = true <-> declares p h s) /\
  (forall s u, indexed (indexPlanSteps p).2 s u = true <-> undoName p s u).
Proof.
  unfold indexPlanSteps, declares, undoName. generalize (p_Batches p). intros bs.
  assert (H : forall acc,
    (forall h s, indexed (foldl indexBatch acc bs).1 h s = true <-> indexed acc.1 h s = true \/ exists b ps, b ∈ bs /\ h ∈ b_Targets b /\ ps ∈ b_Steps b /\ ps_Name ps = s) /\
    (forall s u, indexed (foldl indexBatch acc bs).2 s u = true <-> indexed acc.2 s u = true \/ exists b ps, b ∈ bs /\ ps ∈ b_Steps b /\ ps_Name ps = s /\ u ∈ undosOf ps)).
  { induction bs as [|b bs IH]; intros acc; cbn [foldl]; [split; set_solver|]. destruct (IH (indexBatch acc b)) as [H1 H2]. split.
    - intros h s. rewrite H1. cbn [indexBatch fst]. rewrite (indexed_fold (fun t => t) (fun _ => list_to_set (map ps_Name (b_Steps b)))).
      setoid_rewrite elem_of_list_to_set. setoid_rewrite list_elem_of_fmap. setoid_rewrite elem_of_cons. clear. naive_solver.
    - intros s u. rewrite H2. cbn [indexBatch snd]. rewrite (indexed_fold ps_Name undosOf). setoid_rewrite elem_of_cons. clear. naive_solver. }
  destruct (H (∅, ∅)) as [H1 H2]. assert (He : forall k x, indexed ∅ k x = false) by (intros k x; unfold indexed; rewrite lookup_empty; cbn [from_option id]; apply bool_decide_eq_false_2; set_solver).
  split; intros; [rewrite H1|rewrite H2]; cbn [fst snd]; rewrite He; (split; [intros [?|?]; [discriminate|assumption]|intros ?; by right]).
Qed.

(** The refusal: an undo name that is also a forward name. *)
Lemma collision_spec p changeID :
  refuseUndoNameCollisions changeID (indexPlanSteps p).1 (indexPlanSteps p).2 = None <-> forall s u h, undoName p s u -> ~ declares p h u.
Proof.
  destruct (indexPlan_spec p) as [Hf Hu]. destruct (indexPlanSteps p) as [forward undoNames]. cbn [fst snd] in *. unfold refuseUndoNameCollisions.
  assert (Hc : forall u, collidesWithForward u forward = true <-> exists h, declares p h u).
  { intros u. unfold collidesWithForward. rewrite existsb_elem. setoid_rewrite bool_decide_eq_true. setoid_rewrite <- Hf. unfold indexed. setoid_rewrite bool_decide_eq_true. split.
    - intros ([h x] & Hx%elem_of_map_to_list & Hin). exists h. by rewrite Hx.
    - intros (h & Hin). destruct (forward !! h) as [x|] eqn:E; cbn [from_option id] in Hin; [|set_solver]. exists (h, x). by rewrite elem_of_map_to_list. }
  assert (Hn : forall u, u ∈ concat (map (fun kv : string * gset string => elements kv.2) (map_to_list undoNames)) <-> exists s, undoName p s u).
  { intros u. setoid_rewrite <- Hu. unfold indexed. setoid_rewrite bool_decide_eq_true. split.
    - intros H. apply list_elem_of_In, in_concat in H as (l & Hl & Hin). apply list_elem_of_In in Hin. apply in_map_iff in Hl as ([s x] & <- & Hl%list_elem_of_In%elem_of_map_to_list).
      exists s. rewrite Hl. by apply elem_of_elements.
    - intros (s & Hin). destruct (undoNames !! s) as [x|] eqn:E; cbn [from_option id] in Hin; [|set_solver].
      apply list_elem_of_In, in_concat. exists (elements x). split; [|by apply list_elem_of_In, elem_of_elements].
      apply in_map_iff. exists (s, x). split; [done|]. by apply list_elem_of_In, elem_of_map_to_list. }
  destruct (filter _ _) as [|u l] eqn:E.
  - split; [|done]. intros _ s u h Hs Hd. assert (Hin : u ∈ filter (fun name => collidesWithForward name forward = true)
      (concat (map (fun kv : string * gset string => elements kv.2) (map_to_list undoNames)))); [|rewrite E in Hin; set_solver].
    apply list_elem_of_filter. split; [apply Hc; by eexists|apply Hn; by eexists].
  - split; [done|]. intros H. exfalso. assert (Hin : u ∈ filter (fun name => collidesWithForward name forward = true)
      (concat (map (fun kv : string * gset string => elements kv.2) (map_to_list undoNames)))) by (rewrite E; set_solver).
    apply list_elem_of_filter in Hin as [(h & Hd)%Hc (s & Hs)%Hn]. by eapply H.
Qed.

(** *** The evidence of the rows *)

(** A row of a forward step that was dispatched; a row of a compensation that succeeded. *)
Definition dispatched (p : Plan) (rs : list StepRow) (host step : string) (r : StepRow) : Prop :=
  r ∈ rs /\ er_Host r = host /\ er_StepName r = step /\ declares p host step /\ (er_Status r = StepStatusSuccess \/ er_Status r = StepStatusFailed).
Definition undoneBy (p : Plan) (rs : list StepRow) (host u : string) (r : StepRow) : Prop :=
  r ∈ rs /\ er_Host r = host /\ er_StepName r = u /\ ~ declares p host u /\ er_Status r = StepStatusSuccess.
Definition stamped (r : StepRow) (t : Z) : Prop := er_CompletedAt r = Some t /\ t <> 0%Z.

(** [t] is the latest stamp of the rows satisfying [P], if there is one. *)
Definition latest (P : StepRow -> Prop) (o : option Z) : Prop :=
  match o with
  | None => forall r t, P r -> ~ stamped r t
  | Some t => (exists r, P r /\ stamped r t) /\ forall r t', P r -> stamped r t' -> (t' <= t)%Z
  end.

Lemma latest_ext (P Q : StepRow -> Prop) o : (forall r, P r <-> Q r) -> latest P o -> latest Q o.
Proof. intros H. destruct o as [t|]; cbn; naive_solver. Qed.

Lemma note_latest m host name row (P : string -> string -> StepRow -> Prop) :
  (forall h n, latest (P h n) (m !! (h, n))) ->
  forall h n, latest (fun r => P h n r \/ (h = host /\ n = name /\ r = row)) (note m host name (er_CompletedAt row) !! (h, n)).
Proof.
  intros Hm h n. specialize (Hm h n). unfold note. destruct (er_CompletedAt row) as [t|] eqn:Et.
  2:{ destruct (m !! (h, n)) as [x|]; cbn in *; unfold stamped in *; naive_solver. }
  destruct (Z.eqb_spec t 0) as [->|Ht].
  { destruct (m !! (h, n)) as [x|]; cbn in *; unfold stamped in *; naive_solver. }
  destruct (decide ((h, n) = (host, name))) as [[= -> ->]|Hne].
  - destruct (m !! (host, name)) as [cur|] eqn:Em; cbn in Hm.
    + destruct (Z.ltb_spec cur t); [rewrite lookup_insert_eq|rewrite Em]; cbn.
      * split; [exists row; split; [by right|by split]|]. intros r t' [Hr|(_ & _ & ->)] [H1 H2]; [|assert (t' = t) by congruence; lia].
        destruct Hm as [_ Hm]. specialize (Hm r t' Hr ltac:(by split)). lia.
      * destruct Hm as [(r & Hr & Hs) Hm]. split; [exists r; split; [by left|done]|].
        intros r' t' [Hr'|(_ & _ & ->)] [H1 H2]; [by apply (Hm r')|]. assert (t' = t) by congruence. lia.
    + rewrite lookup_insert_eq. cbn. split; [exists row; split; [by right|by split]|].
      intros r t' [Hr|(_ & _ & ->)] [H1 H2]; [by destruct (Hm r t' Hr)|]. assert (t' = t) by congruence. lia.
  - assert (Hsame : (match m !! (host, name) with Some cur => if (cur <? t)%Z then <[(host, name) := t]> m else m | None => <[(host, name) := t]> m end) !! (h, n) = m !! (h, n)).
    { destruct (m !! (host, name)) as [cur|]; [destruct (cur <? t)%Z|]; rewrite ?lookup_insert_ne by done; done. }
    rewrite Hsame. eapply latest_ext; [|exact Hm]. intros r. split; [by left|]. intros [?|(-> & -> & _)]; [done|by destruct Hne].
Qed.

Lemma MarkRan_fields l h n :
  (forall h' n', marked (l_ran (MarkRan l h n)) h' n' = true <-> (h' = h /\ n' = n /\ h <> "" /\ n <> "") \/ marked (l_ran l) h' n' = true) /\
  l_unknown (MarkRan l h n) = l_unknown l /\ (l_compensated l = ∅ -> l_compensated (MarkRan l h n) = ∅) /\ l_uncertain (MarkRan l h n) = l_uncertain l.
Proof.
  unfold MarkRan. destruct (String.eqb_spec h ""), (String.eqb_spec n ""); cbn [orb l_ran l_unknown l_compensated l_uncertain].
  1-3: split_and!; [intros; naive_solver|done..].
  split_and!; [intros; rewrite marked_mark; naive_solver|done| |done]. intros H. by rewrite H, lookup_empty.
Qed.

Lemma MarkUnknown_fields l h n :
  (forall h' n', marked (l_ran (MarkUnknown l h n)) h' n' = true <-> (h' = h /\ n' = n /\ h <> "" /\ n <> "") \/ marked (l_ran l) h' n' = true) /\
  (forall h' n', marked (l_unknown (MarkUnknown l h n)) h' n' = true <-> (h' = h /\ n' = n /\ h <> "" /\ n <> "") \/ marked (l_unknown l) h' n' = true) /\
  (l_compensated l = ∅ -> l_compensated (MarkUnknown l h n) = ∅) /\ l_uncertain (MarkUnknown l h n) = l_uncertain l.
Proof.
  destruct (MarkRan_fields l h n) as (H1 & H2 & H3 & H4). unfold MarkUnknown. destruct (String.eqb_spec h ""), (String.eqb_spec n ""); cbn [orb].
  1-3: split_and!; [intros; naive_solver..|done|done].
  cbn [l_ran l_unknown l_compensated l_uncertain]. split_and!; [done| |done|done]. intros. rewrite marked_mark, H2. naive_solver.
Qed.

Record reads (p : Plan) (rs : list StepRow) (e : evidence) : Prop := MkReads {
  rd_ran : forall h s, marked (l_ran (ev_ledger e)) h s = true <-> h <> "" /\ s <> "" /\ exists r, dispatched p rs h s r;
  rd_unknown : forall h s, marked (l_unknown (ev_ledger e)) h s = true <-> h <> "" /\ s <> "" /\ exists r, dispatched p rs h s r /\ er_Status r = StepStatusFailed;
  rd_compensated : l_compensated (ev_ledger e) = ∅;
  rd_uncertain : l_uncertain (ev_ledger e) = ∅;
  rd_forward : forall h s, latest (dispatched p rs h s) (ev_forward e !! (h, s));
  rd_undo : forall h u, latest (undoneBy p rs h u) (ev_undo e !! (h, u)) }.

Lemma dispatched_snoc p rs row h s r :
  dispatched p (rs ++ [row]) h s r <-> dispatched p rs h s r \/ (dispatched p [row] h s r).
Proof. unfold dispatched. rewrite elem_of_app. tauto. Qed.
Lemma undoneBy_snoc p rs row h u r : undoneBy p (rs ++ [row]) h u r <-> undoneBy p rs h u r \/ undoneBy p [row] h u r.
Proof. unfold undoneBy. rewrite elem_of_app. tauto. Qed.

(** A row extends the evidence by what it adds. *)
Lemma reads_step p rs row e e' : reads p rs e ->
  (forall h s, marked (l_ran (ev_ledger e')) h s = true <-> (h <> "" /\ s <> "" /\ exists r, dispatched p [row] h s r) \/ marked (l_ran (ev_ledger e)) h s = true) ->
  (forall h s, marked (l_unknown (ev_ledger e')) h s = true <->
     (h <> "" /\ s <> "" /\ exists r, dispatched p [row] h s r /\ er_Status r = StepStatusFailed) \/ marked (l_unknown (ev_ledger e)) h s = true) ->
  l_compensated (ev_ledger e') = ∅ -> l_uncertain (ev_ledger e') = ∅ ->
  (forall h s, latest (fun r => dispatched p rs h s r \/ dispatched p [row] h s r) (ev_forward e' !! (h, s))) ->
  (forall h u, latest (fun r => undoneBy p rs h u r \/ undoneBy p [row] h u r) (ev_undo e' !! (h, u))) ->
  reads p (rs ++ [row]) e'.
Proof.
  intros [Hr Hu _ _ _ _] H1 H2 H3 H4 H5 H6. split; [| |done|done| |].
  - intros h s. rewrite H1, Hr. setoid_rewrite dispatched_snoc. clear. firstorder.
  - intros h s. rewrite H2, Hu. setoid_rewrite dispatched_snoc. clear. firstorder.
  - intros h s. eapply latest_ext; [|apply H5]. intros r. by rewrite dispatched_snoc.
  - intros h u. eapply latest_ext; [|apply H6]. intros r. by rewrite undoneBy_snoc.
Qed.

(** A row that says nothing of one kind. *)
Lemma latest_none (P N : string -> string -> StepRow -> Prop) (m : stamps) : (forall h n r, ~ N h n r) ->
  (forall h n, latest (P h n) (m !! (h, n))) -> forall h n, latest (fun r => P h n r \/ N h n r) (m !! (h, n)).
Proof. intros HN Hm h n. eapply latest_ext; [|apply Hm]. intros r. split; [by left|]. intros [?|H]; [done|by apply HN in H]. Qed.
Lemma latest_note (P N : string -> string -> StepRow -> Prop) (m : stamps) row : (forall h n r, N h n r <-> h = er_Host row /\ n = er_StepName row /\ r = row) ->
  (forall h n, latest (P h n) (m !! (h, n))) ->
  forall h n, latest (fun r => P h n r \/ N h n r) (note m (er_Host row) (er_StepName row) (er_CompletedAt row) !! (h, n)).
Proof. intros HN Hm h n. eapply latest_ext; [|by apply note_latest]. intros r. cbn. by rewrite HN. Qed.

Lemma marks_none (m : marks) (D : string -> string -> Prop) : (forall h s, ~ D h s) -> forall h s, marked m h s = true <-> (h <> "" /\ s <> "" /\ D h s) \/ marked m h s = true.
Proof. intros HD h s. split; [by right|]. intros [(_ & _ & H)|?]; [by apply HD in H|done]. Qed.
Lemma marks_one (m m' : marks) (D : string -> string -> Prop) host name : (forall h s, D h s <-> h = host /\ s = name) ->
  (forall h s, marked m' h s = true <-> (h = host /\ s = name /\ host <> "" /\ name <> "") \/ marked m h s = true) ->
  forall h s, marked m' h s = true <-> (h <> "" /\ s <> "" /\ D h s) \/ marked m h s = true.
Proof. intros HD Hm h s. rewrite Hm, HD. clear. naive_solver. Qed.

Lemma reads_row p rs e row : reads p rs e -> reads p (rs ++ [row]) (readRow (indexPlanSteps p).1 e row).
Proof.
  intros He. pose proof He as [_ _ Hc Hn Hf Hd]. destruct (indexPlan_spec p) as [Hi _]. specialize (Hi (er_Host row) (er_StepName row)).
  assert (Hone : forall h s r, dispatched p [row] h s r <-> h = er_Host row /\ s = er_StepName row /\ r = row /\ declares p (er_Host row) (er_StepName row) /\ (er_Status row = StepStatusSuccess \/ er_Status row = StepStatusFailed)).
  { intros h s r. unfold dispatched. rewrite list_elem_of_singleton. clear. naive_solver. }
  assert (Hone' : forall h u r, undoneBy p [row] h u r <-> h = er_Host row /\ u = er_StepName row /\ r = row /\ ~ declares p (er_Host row) (er_StepName row) /\ er_Status row = StepStatusSuccess).
  { intros h u r. unfold undoneBy. rewrite list_elem_of_singleton. clear. naive_solver. }
  unfold readRow. destruct (indexed _ _ _) eqn:Ei; cbn [negb]; [assert (Hdec : declares p (er_Host row) (er_StepName row)) by by apply Hi|
    assert (Hdec : ~ declares p (er_Host row) (er_StepName row)) by (intros Hx%Hi; congruence)]; clear Hi Ei.
  - destruct (String.eqb_spec (er_Status row) StepStatusSuccess) as [Hst|Hst]; [|destruct (String.eqb_spec (er_Status row) StepStatusFailed) as [Hsf|Hsf]].
    + destruct (MarkRan_fields (ev_ledger e) (er_Host row) (er_StepName row)) as (M1 & M2 & M3 & M4).
      apply (reads_step _ _ _ e); [done|..]; cbn [ev_ledger ev_forward ev_undo].
      * eapply marks_one; [|exact M1]. intros h s. setoid_rewrite Hone. naive_solver.
      * rewrite M2. apply marks_none. intros h s (r & Hx & Hy). apply Hone in Hx as (_ & _ & -> & _). by rewrite Hst in Hy.
      * by apply M3.
      * by rewrite M4.
      * apply latest_note; [|done]. intros h s r. rewrite Hone. naive_solver.
      * apply latest_none; [|done]. intros h u r Hx%Hone'. naive_solver.
    + destruct (MarkUnknown_fields (ev_ledger e) (er_Host row) (er_StepName row)) as (M1 & M2 & M3 & M4).
      apply (reads_step _ _ _ e); [done|..]; cbn [ev_ledger ev_forward ev_undo].
      * eapply marks_one; [|exact M1]. intros h s. setoid_rewrite Hone. naive_solver.
      * eapply marks_one; [|exact M2]. intros h s. setoid_rewrite Hone. naive_solver.
      * by apply M3.
      * by rewrite M4.
      * apply latest_note; [|done]. intros h s r. rewrite Hone. naive_solver.
      * apply latest_none; [|done]. intros h u r Hx%Hone'. naive_solver.
    + apply (reads_step _ _ _ e); [done| | |done|done| |].
      * apply marks_none. intros h s (r & Hx%Hone). naive_solver.
      * apply marks_none. intros h s (r & Hx%Hone & _). naive_solver.
      * apply latest_none; [|done]. intros h s r Hx%Hone. naive_solver.
      * apply latest_none; [|done]. intros h u r Hx%Hone'. naive_solver.
  - destruct (String.eqb_spec (er_Status row) StepStatusSuccess) as [Hst|Hst]; (apply (reads_step _ _ _ e); cbn [ev_ledger ev_forward ev_undo]; [done| | |done|done| |]).
    1, 5: apply marks_none; intros h s (r & Hx%Hone); naive_solver.
    1, 4: apply marks_none; intros h s (r & Hx%Hone & _); naive_solver.
    1, 3: apply latest_none; [|done]; intros h s r Hx%Hone; naive_solver.
    + apply latest_note; [|done]. intros h u r. rewrite Hone'. naive_solver.
    + apply latest_none; [|done]. intros h u r Hx%Hone'. naive_solver.
Qed.

Lemma readStepEvidence_spec p rs : reads p rs (readStepEvidence rs (indexPlanSteps p).1).
Proof.
  unfold readStepEvidence. induction rs as [|row rs IH] using rev_ind; [|rewrite foldl_app; by apply reads_row].
  assert (Hnil : forall h s r, ~ dispatched p [] h s r) by (intros h s r [H _]; set_solver).
  split; cbn; [| |done|done| |].
  - intros h s. rewrite marked_empty. split; [done|]. intros (_ & _ & r & H). by apply Hnil in H.
  - intros h s. rewrite marked_empty. split; [done|]. intros (_ & _ & r & H & _). by apply Hnil in H.
  - intros h s. rewrite lookup_empty. intros r t H. by apply Hnil in H.
  - intros h u. rewrite lookup_empty. intros r t [H _]. set_solver.
Qed.

(** *** Settling the compensations *)

(** A successful compensation of the step that is later than its last execution; one
    that cannot be ordered, for want of a stamp. *)
Definition undoneSince (undoNames : index) (e : evidence) (h s : string) : bool :=
  match ev_forward e !! (h, s) with Some t => undoneAfter (ev_undo e) h (default ∅ (undoNames !! s)) t | None => false end.
Definition undoneSometime (undoNames : index) (e : evidence) (h s : string) : bool :=
  match ev_forward e !! (h, s) with Some _ => false | None => undoSucceeded (ev_undo e) h (default ∅ (undoNames !! s)) end.

Definition addsTo (m m' : marks) (h0 s0 : string) (ran : bool) (D : bool) : Prop :=
  forall h s, h <> "" -> s <> "" -> marked m' h s = true <-> marked m h s = true \/ (h = h0 /\ s = s0 /\ ran = true /\ D = true).

Lemma settleStep_spec un e l h0 s0 :
  let l1 := settleStep un e l (h0, s0) in
  l_ran l1 = l_ran l /\ l_unknown l1 = l_unknown l /\
  addsTo (l_compensated l) (l_compensated l1) h0 s0 (marked (l_ran l) h0 s0) (undoneSince un e h0 s0) /\
  addsTo (l_uncertain l) (l_uncertain l1) h0 s0 (marked (l_ran l) h0 s0) (undoneSometime un e h0 s0).
Proof.
  cbn zeta. unfold settleStep, MarkCompensated, MarkCompensationUncertain. cbn [Ran].
  assert (Hkeep : forall (m : marks) ran D, ran && D = false -> addsTo m m h0 s0 ran D).
  { intros m ran D HD h s _ _. split; [by left|]. intros [?|(_ & _ & -> & ->)]; [done|]. done. }
  assert (Hadd : forall m : marks, addsTo m (mark m h0 s0) h0 s0 true true).
  { intros m h s _ _. rewrite marked_mark. naive_solver. }
  assert (Hempty : forall (m : marks) ran D, h0 = "" \/ s0 = "" -> addsTo m m h0 s0 ran D).
  { intros m ran D HE h s Hh Hn. split; [by left|]. intros [?|(-> & -> & _)]; [done|]. by destruct HE. }
  unfold undoneSince, undoneSometime. destruct (marked (l_ran l) h0 s0); cbn [negb]; [|split_and!; [done|done|by apply Hkeep|by apply Hkeep]].
  destruct (ev_forward e !! (h0, s0)) as [t|].
  - destruct (undoneAfter _ _ _ _); [|split_and!; [done|done|by apply Hkeep|by apply Hkeep]].
    destruct (String.eqb_spec h0 ""), (String.eqb_spec s0 ""); cbn [orb l_ran l_unknown l_compensated l_uncertain]; split_and!; try done.
    all: first [by apply Hadd|by apply Hkeep|apply Hempty; auto].
  - destruct (undoSucceeded _ _ _); [|split_and!; [done|done|by apply Hkeep|by apply Hkeep]].
    destruct (String.eqb_spec h0 ""), (String.eqb_spec s0 ""); cbn [orb l_ran l_unknown l_compensated l_uncertain]; split_and!; try done.
    all: first [by apply Hadd|by apply Hkeep|apply Hempty; auto].
Qed.

Lemma settle_fold un e vs l :
  let l' := foldl (settleStep un e) l vs in
  l_ran l' = l_ran l /\ l_unknown l' = l_unknown l /\
  (forall h s, h <> "" -> s <> "" -> marked (l_compensated l') h s = true <->
     marked (l_compensated l) h s = true \/ ((h, s) ∈ vs /\ marked (l_ran l) h s = true /\ undoneSince un e h s = true)) /\
  (forall h s, h <> "" -> s <> "" -> marked (l_uncertain l') h s = true <->
     marked (l_uncertain l) h s = true \/ ((h, s) ∈ vs /\ marked (l_ran l) h s = true /\ undoneSometime un e h s = true)).
Proof.
  revert l. induction vs as [|[h0 s0] vs IH]; intros l; cbn [foldl]; [split_and!; [done|done|set_solver|set_solver]|].
  destruct (IH (settleStep un e l (h0, s0))) as (H1 & H2 & H3 & H4). rewrite H1, H2. clear IH H1 H2.
  destruct (settleStep_spec un e l h0 s0) as (S1 & S2 & S3 & S4). rewrite S1, S2 in *. split_and!; [done|done|..]; intros h s Hh Hn.
  - rewrite H3, (S3 h s) by done. rewrite elem_of_cons. clear. naive_solver.
  - rewrite H4, (S4 h s) by done. rewrite elem_of_cons. clear. naive_solver.
Qed.

Lemma elem_of_visits forward h s : (h, s) ∈ visits forward <-> indexed forward h s = true.
Proof.
  unfold visits, indexed. rewrite bool_decide_eq_true. split.
  - intros H. apply list_elem_of_In, in_concat in H as (l & Hl & Hin). apply in_map_iff in Hl as ([k x] & <- & Hl%list_elem_of_In%elem_of_map_to_list).
    apply in_map_iff in Hin as (y & [= <- <-] & Hy%list_elem_of_In%elem_of_elements). cbn [fst snd] in *. by rewrite Hl.
  - intros H. destruct (forward !! h) as [x|] eqn:E; cbn [from_option id] in H; [|set_solver]. apply list_elem_of_In, in_concat.
    exists (map (pair h) (elements x)). split; [|by apply in_map, list_elem_of_In, elem_of_elements]. apply in_map_iff. exists (h, x). split; [done|]. by apply list_elem_of_In, elem_of_map_to_list.
Qed.

(** The times of the rows: compensated after every execution that is stamped. *)
Definition rowsUndone (p : Plan) (rs : list StepRow) (h s : string) : Prop :=
  (exists r t, dispatched p rs h s r /\ stamped r t) /\
  exists u r tu, undoName p s u /\ undoneBy p rs h u r /\ stamped r tu /\ forall r' t, dispatched p rs h s r' -> stamped r' t -> (t < tu)%Z.
Definition rowsUnordered (p : Plan) (rs : list StepRow) (h s : string) : Prop :=
  (forall r t, dispatched p rs h s r -> ~ stamped r t) /\ exists u r tu, undoName p s u /\ undoneBy p rs h u r /\ stamped r tu.

Lemma undone_rows p rs e h s : reads p rs e ->
  (undoneSince (indexPlanSteps p).2 e h s = true <-> rowsUndone p rs h s) /\ (undoneSometime (indexPlanSteps p).2 e h s = true <-> rowsUnordered p rs h s).
Proof.
  intros [_ _ _ _ Hf Hd]. destruct (indexPlan_spec p) as [_ Hu]. unfold undoneSince, undoneSometime, rowsUndone, rowsUnordered.
  assert (Hname : forall u, u ∈ elements (default ∅ ((indexPlanSteps p).2 !! s)) <-> undoName p s u).
  { intros u. rewrite elem_of_elements, <- Hu. unfold indexed. by rewrite bool_decide_eq_true. }
  specialize (Hf h s). destruct (ev_forward e !! (h, s)) as [t|]; cbn in Hf.
  - destruct Hf as [(r0 & Hr0 & Hs0) Hmax]. split; [|split; [done|]; intros [Hno _]; by destruct (Hno r0 t)].
    unfold undoneAfter. rewrite existsb_elem. split.
    + intros (u & Hin%Hname & Hlt). split; [by eexists _, _|]. specialize (Hd h u). destruct (ev_undo e !! (h, u)) as [tu|]; [|done].
      apply Z.ltb_lt in Hlt. destruct Hd as [(r & Hr & Hs) _]. exists u, r, tu. split_and!; [done|done|done|]. intros r' t' Hr' Hs'. specialize (Hmax r' t' Hr' Hs'). lia.
    + intros [_ (u & r & tu & Hn & Hr & Hs & Hlt)]. exists u. split; [by apply Hname|]. specialize (Hd h u). specialize (Hlt r0 t Hr0 Hs0).
      destruct (ev_undo e !! (h, u)) as [tu'|]; cbn in Hd; [|by destruct (Hd r tu)]. destruct Hd as [_ Hd]. specialize (Hd r tu Hr Hs). apply Z.ltb_lt. lia.
  - split; [split; [done|]; intros [(r & t & Hr & Hs) _]; by destruct (Hf r t)|]. unfold undoSucceeded. rewrite existsb_elem. split.
    + intros (u & Hin%Hname & [tu Hx]%bool_decide_eq_true). split; [done|]. specialize (Hd h u). rewrite Hx in Hd. destruct Hd as [(r & Hr & Hs) _]. by exists u, r, tu.
    + intros [_ (u & r & tu & Hn & Hr & Hs)]. exists u. split; [by apply Hname|]. apply bool_decide_eq_true. specialize (Hd h u).
      destruct (ev_undo e !! (h, u)); cbn in Hd; [done|by destruct (Hd r tu)].
Qed.

(** The ledger, from the rows. *)
Record ledgerOf (p : Plan) (rs : list StepRow) (l : ExecutionLedger) : Prop := MkLedgerOf {
  lo_ran : forall h s, Ran (Some l) h s = true <-> h <> "" /\ s <> "" /\ exists r, dispatched p rs h s r;
  lo_unknown : forall h s, SideEffectsUnknown (Some l) h s = true <-> h <> "" /\ s <> "" /\ exists r, dispatched p rs h s r /\ er_Status r = StepStatusFailed;
  lo_compensated : forall h s, Ran (Some l) h s = true -> AlreadyCompensated (Some l) h s = true <-> rowsUndone p rs h s;
  lo_uncertain : forall h s, Ran (Some l) h s = true -> CompensationUncertain (Some l) h s = true <-> rowsUnordered p rs h s }.

Lemma stored_ledger changeID p rs :
  match ledgerFromStoredSteps changeID (inr rs) p with
  | inl _ => exists s u h, undoName p s u /\ declares p h u
  | inr l => (forall s u h, undoName p s u -> ~ declares p h u) /\ ledgerOf p rs l
  end.
Proof.
  unfold ledgerFromStoredSteps. pose proof (collision_spec p changeID) as Hc. pose proof (readStepEvidence_spec p rs) as He.
  pose proof (fun h s => undone_rows p rs _ h s He) as Hu. destruct (indexPlan_spec p) as [Hi _].
  destruct (indexPlanSteps p) as [forward un] eqn:Ep. cbn [fst snd] in *. destruct (refuseUndoNameCollisions changeID forward un) as [x|] eqn:Er.
  - unfold refuseUndoNameCollisions in Er. destruct (filter _ _) as [|u l] eqn:Ef; [done|]. clear Er.
    assert (Hno : ~ (forall s u h, undoName p s u -> ~ declares p h u)) by (intros H%Hc; done).
    assert (Hin : u ∈ u :: l) by set_solver. rewrite <- Ef in Hin. apply list_elem_of_filter in Hin as [Hcol Hin].
    apply existsb_elem in Hcol as ([h x0] & Hx%elem_of_map_to_list & Hux%bool_decide_eq_true).
    apply list_elem_of_In, in_concat in Hin as (l' & Hl' & Hin). apply in_map_iff in Hl' as ([s x1] & <- & Hl'%list_elem_of_In%elem_of_map_to_list).
    apply list_elem_of_In, elem_of_elements in Hin. cbn [fst snd] in *. exists s, u, h. split.
    + destruct (indexPlan_spec p) as [_ Hn]. apply Hn. rewrite Ep. cbn [snd]. unfold indexed. rewrite Hl'. by apply bool_decide_eq_true.
    + apply Hi. unfold indexed. rewrite Hx. by apply bool_decide_eq_true.
  - split; [by apply Hc|]. destruct He as [Hr Hk Hcm Hun _ _]. destruct (settle_fold un (readStepEvidence rs forward) (visits forward) (ev_ledger (readStepEvidence rs forward))) as (F1 & F2 & F3 & F4).
    assert (Hv : forall h s, Ran (Some (foldl (settleStep un (readStepEvidence rs forward)) (ev_ledger (readStepEvidence rs forward)) (visits forward))) h s = true ->
      h <> "" /\ s <> "" /\ (h, s) ∈ visits forward /\ marked (l_ran (ev_ledger (readStepEvidence rs forward))) h s = true).
    { intros h s H. cbn [Ran] in H. rewrite F1 in H. pose proof H as (Hh & Hs & r & Hd)%Hr. split_and!; [done|done| |done]. apply elem_of_visits, Hi. apply Hd. }
    split.
    + intros h s. cbn [Ran]. rewrite F1. apply Hr.
    + intros h s. cbn [SideEffectsUnknown]. rewrite F2. apply Hk.
    + intros h s H. destruct (Hv h s H) as (Hh & Hs & Hvis & Hm). cbn [AlreadyCompensated]. rewrite F3 by done. rewrite Hcm, marked_empty.
      rewrite <- (proj1 (Hu h s)). split; [intros [?|(_ & _ & ?)]; done|by right].
    + intros h s H. destruct (Hv h s H) as (Hh & Hs & Hvis & Hm). cbn [CompensationUncertain]. rewrite F4 by done. rewrite Hun, marked_empty.
      rewrite <- (proj2 (Hu h s)). split; [intros [?|(_ & _ & ?)]; done|by right].
Qed.
End Evidence.
