(* ===== verification/Remedy.v ===== *)
(** * Remedy: what a manual rollback does, and what a second one does

    Theorems on the manual rollback and the resumed retry of Evidence.v: the preview
    names the hosts the rollback touches, a rollback that succeeded is not repeated, and
    what a resumed retry leaves out. *)

From Stdlib Require Import ZArith Lia.
From stdpp Require Import base gmap strings list sorting.
From S2P Require Import Prelude Dsl Plan Concur Batch Rollback Evidence.
Import Plan Concur Rollback Evidence.
Open Scope string_scope.
Open Scope list_scope.

Module Remedy.

(** ** The results of one step *)

Definition classesOf (m : Manager) (l : ExecutionLedger) (target : string) (ps : PlanStep) : list stepClass :=
  if AlreadyCompensated (Some l) target (ps_Name ps) then [Benign]
  else if negb (Ran (Some l) target (ps_Name ps)) then [Benign]
  else if CompensationUncertain (Some l) target (ps_Name ps) && negb (compensationRepeatable ps) then [Gap]
  else match ps_Rollback ps with
       | None => [Gap]
       | Some rb =>
           if String.eqb (Dsl.rb_Strategy rb) "snapshot"
           then [if m_snapshotRestore m && (m_dryRun m || negb (String.eqb (m_runID m) "")) then WouldRun else Gap]
           else map (fun s => if allows m (Dsl.st_Module s +:+ "." +:+ Dsl.st_Action s) then WouldRun else Gap) (Dsl.rb_Steps rb)
       end.

Lemma classify_withUnknown u sr : classify (withUnknown u sr) = classify sr.
Proof. done. Qed.

Lemma runs_undoStep_class m target orig s hasExec t sr : runs (executeRollbackStep m target orig s hasExec) t sr ->
  classify sr = (if allows m (Dsl.st_Module s +:+ "." +:+ Dsl.st_Action s) then WouldRun else Gap) /\ RollbackStepName sr = Dsl.st_Name s /\
  NotExecuted sr = false /\ sr_AlreadyCompensated sr = false.
Proof.
  unfold executeRollbackStep. destruct (allows m _); cbn [negb].
  - destruct hasExec; cbn [negb]; [inversion 1 as [|c k r t' a Hk]; subst; apply runs_ret_inv in Hk as [-> ->]; done|by intros [-> ->]%runs_ret_inv].
  - by intros [-> ->]%runs_ret_inv.
Qed.

Lemma runs_undoSteps_class m target orig unknown hasExec steps t srs : runs (undoSteps m target orig unknown hasExec steps) t srs ->
  map classify srs = map (fun s => if allows m (Dsl.st_Module s +:+ "." +:+ Dsl.st_Action s) then WouldRun else Gap) steps /\
  map RollbackStepName srs = map Dsl.st_Name steps /\ Forall (fun sr => NotExecuted sr = false /\ sr_AlreadyCompensated sr = false) srs.
Proof.
  revert t srs. induction steps as [|s steps IH]; intros t srs H; simpl in H; [by apply runs_ret_inv in H as [-> ->]|].
  apply runs_bind in H as (t1 & t2 & sr & -> & H1 & H). apply runs_bind in H as (t3 & t4 & srs' & -> & H2 & H). apply runs_ret_inv in H as [-> ->].
  destruct (IH _ _ H2) as (E1 & E2 & E3). destruct (runs_undoStep_class _ _ _ _ _ _ _ H1) as (C1 & C2 & C3).
  split_and!; [cbn; by rewrite classify_withUnknown, C1, E1|cbn; by rewrite C2, E2|by constructor].
Qed.

Lemma runs_restore_class m target ps t sr : runs (restoreSnapshotStep m target ps) t sr ->
  classify sr = (if m_snapshotRestore m && (m_dryRun m || negb (String.eqb (m_runID m) "")) then WouldRun else Gap) /\
  RollbackStepName sr = "snapshot:" +:+ ps_Name ps /\ NotExecuted sr = false /\ sr_AlreadyCompensated sr = false.
Proof.
  unfold restoreSnapshotStep. destruct (m_snapshotRestore m), (m_dryRun m), (String.eqb (m_runID m) ""); cbn [negb andb orb]; try by intros [-> ->]%runs_ret_inv.
  inversion 1 as [|c k r t' a Hk]; subst. by apply runs_ret_inv in Hk as [-> ->].
Qed.

(** A result that ran and returned no error. *)
Definition completed (sr : StepRollbackResult) : Prop := Skipped sr = false /\ sr_Error sr = None.

Record stepResults (m : Manager) (l : ExecutionLedger) (target : string) (ps : PlanStep) (srs : list StepRollbackResult) : Prop := MkStepResults {
  sp_class : map classify srs = classesOf m l target ps;
  sp_name : forall sr, sr ∈ srs -> (RollbackStepName sr = "" /\ Skipped sr = true) \/ RollbackStepName sr ∈ undosOf ps;
  sp_done : Forall settled srs -> Ran (Some l) target (ps_Name ps) = true -> AlreadyCompensated (Some l) target (ps_Name ps) = false ->
            forall u, u ∈ undosOf ps -> exists sr, sr ∈ srs /\ RollbackStepName sr = u /\ completed sr }.

Lemma settled_completed sr : settled sr -> NotExecuted sr = false -> sr_AlreadyCompensated sr = false -> completed sr.
Proof. intros [?|[?|?]]; [congruence|congruence|done]. Qed.

Lemma stepResults_skip m l target ps sr : Skipped sr = true -> RollbackStepName sr = "" -> [classify sr] = classesOf m l target ps ->
  (settled sr -> Ran (Some l) target (ps_Name ps) = false \/ AlreadyCompensated (Some l) target (ps_Name ps) = true \/ undosOf ps = ∅) ->
  stepResults m l target ps [sr].
Proof.
  intros Hs Hn Hc Hset. split; [done| |].
  - intros x ->%list_elem_of_singleton. by left.
  - intros [Hx _]%Forall_cons H1 H2 u Hu. destruct (Hset Hx) as [?|[?|E]]; [congruence|congruence|]. rewrite E in Hu. set_solver.
Qed.

Lemma runs_planStep_results m target ps hasExec l t srs :
  runs (rollbackPlanStep m target ps hasExec (Some l)) t srs -> stepResults m l target ps srs.
Proof.
  unfold rollbackPlanStep. cbn [andb]. destruct (AlreadyCompensated (Some l) target (ps_Name ps)) eqn:E1.
  { intros [-> ->]%runs_ret_inv. apply stepResults_skip; [done|done|unfold classesOf; by rewrite E1|]. intros _. by right; left. }
  destruct (Ran (Some l) target (ps_Name ps)) eqn:E2; cbn [negb].
  2:{ intros [-> ->]%runs_ret_inv. apply stepResults_skip; [done|done|unfold classesOf; by rewrite E1, E2|]. intros _. by left. }
  destruct (CompensationUncertain (Some l) target (ps_Name ps) && negb (compensationRepeatable ps)) eqn:E3.
  { intros [-> ->]%runs_ret_inv. apply stepResults_skip; [done|done|unfold classesOf; by rewrite E1, E2, E3|]. intros [?|[?|[? _]]]; done. }
  assert (Ec : classesOf m l target ps = match ps_Rollback ps with
    | None => [Gap]
    | Some rb => if String.eqb (Dsl.rb_Strategy rb) "snapshot" then [if m_snapshotRestore m && (m_dryRun m || negb (String.eqb (m_runID m) "")) then WouldRun else Gap]
                 else map (fun s => if allows m (Dsl.st_Module s +:+ "." +:+ Dsl.st_Action s) then WouldRun else Gap) (Dsl.rb_Steps rb) end).
  { unfold classesOf. by rewrite E1, E2, E3. }
  destruct (ps_Rollback ps) as [rb|] eqn:Erb.
  2:{ intros [-> ->]%runs_ret_inv. apply stepResults_skip; [done|done|by rewrite Ec|]. intros _. right. right. unfold undosOf. by rewrite Erb. }
  destruct (String.eqb (Dsl.rb_Strategy rb) "snapshot") eqn:Es.
  - intros H. apply runs_bind in H as (t1 & t2 & sr & -> & H1 & [-> ->]%runs_ret_inv). destruct (runs_restore_class _ _ _ _ _ H1) as (C1 & C2 & C3 & C4). split.
    + cbn. by rewrite classify_withUnknown, C1, Ec.
    + intros x ->%list_elem_of_singleton. right. unfold undosOf. rewrite Erb, Es. cbn. rewrite C2. set_solver.
    + intros [Hset _]%Forall_cons _ _ u. unfold undosOf. rewrite Erb, Es, elem_of_singleton. intros ->. eexists. split; [apply list_elem_of_singleton; done|].
      split; [done|]. by apply settled_completed.
  - intros H. destruct (runs_undoSteps_class _ _ _ _ _ _ _ _ H) as (C1 & C2 & C3). split.
    + by rewrite C1, Ec.
    + intros sr Hsr. right. unfold undosOf. rewrite Erb, Es, elem_of_list_to_set. change (RollbackStepName sr ∈ Dsl.st_Name <$> Dsl.rb_Steps rb).
      change (map ?f) with (fmap (M := list) f) in C2. rewrite <- C2. apply list_elem_of_fmap. by exists sr.
    + intros Hset _ _ u. unfold undosOf. rewrite Erb, Es, elem_of_list_to_set, <- C2. intros (sr & -> & Hsr)%list_elem_of_fmap. exists sr. split; [done|]. split; [done|].
      rewrite Forall_forall in Hset, C3. destruct (C3 sr Hsr). apply settled_completed; [by apply Hset|done..].
Qed.

(** ** The results of a rollback *)

Definition targetResults (m : Manager) (l : ExecutionLedger) (steps : list PlanStep) (target : string) (tr : TargetRollbackResult) : Prop :=
  rt_Target tr = target /\ exists parts, rt_StepResults tr = concat parts /\ Forall2 (stepResults m l target) (reverse steps) parts.

Lemma runs_steps_results m target steps hasExec l t srs : runs (rollbackSteps m target steps hasExec (Some l)) t srs ->
  exists parts, srs = concat parts /\ Forall2 (stepResults m l target) steps parts.
Proof.
  revert t srs. induction steps as [|ps steps IH]; intros t srs H; simpl in H; [apply runs_ret_inv in H as [-> ->]; by exists []|].
  apply runs_bind in H as (t1 & t2 & srs1 & -> & H1 & H). apply runs_bind in H as (t3 & t4 & srs2 & -> & H2 & H). apply runs_ret_inv in H as [-> ->].
  destruct (IH _ _ H2) as (parts & -> & Hp). exists (srs1 :: parts). split; [done|]. constructor; [by eapply runs_planStep_results|done].
Qed.

Lemma batch_results env m b hasExec l h :
  Forall2 (targetResults m l (b_Steps b)) (b_Targets b) (rb_TargetResults (rollbackBatch env m b hasExec (Some l) h).1).
Proof.
  destruct (rollbackBatch_spec env m b hasExec (Some l) h) as (seg & _ & _ & Hres). pose proof Hres as (Hlen & _ & _).
  apply Forall2_same_length_lookup_2; [unfold targetProgs in Hlen; by rewrite length_map in Hlen|].
  intros i tgt tr Ht Htr. destruct (batch_calls _ _ _ _ _ _ _ _ Hres Ht) as (tr' & Htr' & E & Hruns). rewrite Htr in Htr'. injection Htr' as <-.
  split; [done|]. by eapply runs_steps_results.
Qed.

Lemma loop_results env m bs hasExec l t h : m_stopOnError m = false ->
  Forall2 (fun b br => Forall2 (targetResults m l (b_Steps b)) (b_Targets b) (rb_TargetResults br)) bs (rollbackLoop env m bs hasExec (Some l) t h).1.1.
Proof.
  intros Hs. revert t h. induction bs as [|b bs IH]; intros t h; cbn [rollbackLoop]; [constructor|].
  pose proof (batch_results env m b hasExec l h) as Hb. destruct (rollbackBatch env m b hasExec (Some l) h) as [br h1]. cbn [fst] in Hb.
  rewrite Hs, andb_false_r. specialize (IH (tallyBatch true t br) h1). destruct (rollbackLoop env m bs hasExec (Some l) (tallyBatch true t br) h1) as [[brs t2] h2].
  by constructor.
Qed.

Lemma rollback_results env m p hasExec l h : m_stopOnError m = false ->
  Forall2 (fun b br => Forall2 (targetResults m l (b_Steps b)) (b_Targets b) (rb_TargetResults br)) (reverse (p_Batches p))
    (BatchResults (RollbackWithLedger env m (Some p) hasExec (Some l) h).1).
Proof.
  intros Hs. unfold RollbackWithLedger. pose proof (loop_results env m (reverse (p_Batches p)) hasExec l (MkTally 0 0 0 None) h Hs) as H.
  by destruct (rollbackLoop _ _ _ _ _ _ _) as [[brs t] h'].
Qed.

(** ** The buckets depend on the plan and the ledger only *)

Definition view (tr : TargetRollbackResult) : string * list stepClass := (rt_Target tr, map classify (rt_StepResults tr)).
Definition expected (m : Manager) (l : ExecutionLedger) (p : Plan) : list (string * list stepClass) :=
  concat (map (fun b => map (fun t => (t, concat (map (classesOf m l t) (reverse (b_Steps b))))) (b_Targets b)) (reverse (p_Batches p))).

Lemma targetResults_view m l steps t tr : targetResults m l steps t tr -> view tr = (t, concat (map (classesOf m l t) (reverse steps))).
Proof.
  intros (Ht & parts & Hsr & Hp). unfold view. rewrite Ht, Hsr. f_equal. clear Ht Hsr. induction Hp as [|ps srs steps' parts' Hps _ IH]; [done|].
  cbn. by rewrite map_app, IH, (sp_class _ _ _ _ _ Hps).
Qed.

Lemma views_expected env m p hasExec l h : m_stopOnError m = false ->
  map view (concat (map rb_TargetResults (BatchResults (RollbackWithLedger env m (Some p) hasExec (Some l) h).1))) = expected m l p.
Proof.
  intros Hs. pose proof (rollback_results env m p hasExec l h Hs) as H. unfold expected. generalize dependent (BatchResults (RollbackWithLedger env m (Some p) hasExec (Some l) h).1).
  intros brs H. induction H as [|b br bs brs Hb _ IH]; [done|]. cbn [map concat]. rewrite map_app, IH. f_equal.
  clear IH. induction Hb as [|t tr ts trs Ht _ IH]; [done|]. cbn [map]. by rewrite IH, (targetResults_view _ _ _ _ _ Ht).
Qed.

Definition bucketView (bk : buckets) (v : string * list stepClass) : buckets :=
  let gaps := if bool_decide (Gap ∈ v.2) then appendNew (bk_gaps bk) v.1 else bk_gaps bk in
  if bool_decide (WouldRun ∈ v.2) then MkBuckets (appendNew (bk_compensated bk) v.1) (bk_skipped bk) gaps
  else MkBuckets (bk_compensated bk) (if bool_decide (Gap ∈ v.2) then bk_skipped bk else appendNew (bk_skipped bk) v.1) gaps.

Lemma buckets_views res : rollbackHostBuckets res = foldl bucketView (MkBuckets [] [] []) (map view (concat (map rb_TargetResults (BatchResults res)))).
Proof.
  unfold rollbackHostBuckets. generalize (MkBuckets [] [] []). generalize (concat (map rb_TargetResults (BatchResults res))).
  intros trs. induction trs as [|tr trs IH]; intros bk; [done|]. cbn [foldl map]. by rewrite IH.
Qed.

Lemma classes_dry m m' l target ps :
  m_whitelistAll m = true -> m_whitelistAll m' = true -> m_snapshotRestore m = m_snapshotRestore m' -> (m_snapshotRestore m = true -> m_runID m <> "" /\ m_runID m' <> "") ->
  classesOf m l target ps = classesOf m' l target ps.
Proof.
  intros Hw Hw' Hs Hr. unfold classesOf, allows. rewrite Hw, Hw', <- Hs. destruct (m_snapshotRestore m); [|done].
  destruct (Hr eq_refl) as [H1%String.eqb_neq H2%String.eqb_neq]. rewrite H1, H2. by rewrite !orb_true_r.
Qed.

(** ** The preview *)

(** Two attempts at the same rollback: the same plan, rows and wiring; the targets, the
    clock and the store may answer differently. *)
Definition sameAttempt (e1 e2 : RollbackEnv) : Prop :=
  ve_slot e1 = ve_slot e2 /\ ve_plan e1 = ve_plan e2 /\ ve_exec e1 = ve_exec e2 /\ ve_snapshots e1 = ve_snapshots e2 /\ ve_list e1 = ve_list e2.

Lemma manual_fields env changeID dry :
  m_whitelistAll (manualManager env changeID dry) = true /\ m_stopOnError (manualManager env changeID dry) = false /\
  m_snapshotRestore (manualManager env changeID dry) = ve_snapshots env /\ m_dryRun (manualManager env changeID dry) = dry /\
  (ve_snapshots env = true -> m_runID (manualManager env changeID dry) = changeID).
Proof. unfold manualManager. destruct dry, (ve_snapshots env); by vm_compute. Qed.

Definition hosts (o : RollbackOutcome) : list string * list string * list string := (ro_RolledBackHosts o, ro_SkippedHosts o, ro_Gaps o).

(** The preview of a manual rollback is faithful. It calls nothing and writes
    nothing, and names exactly the hosts that the rollback itself will report as
    compensated, as skipped and as having a gap, in the same order, whatever the targets
    answer and however the pool schedules them; and what makes the one refuse to start
    makes the other. *)
Theorem preview_is_faithful (env1 env2 : RollbackEnv) (changeID : string) (w : rows) (h1 h2 : history) (He : sameAttempt env1 env2) (Hid : changeID <> "") :
  let '(o1, e1, w1, h1') := rollbackChange env1 changeID true w h1 in
  let '(o2, e2, w2, h2') := rollbackChange env2 changeID false w h2 in
  h1' = h1 /\ w1 = w /\ hosts o1 = hosts o2 /\ (forall x, e1 = Some x -> e2 = Some x /\ h2' = h2 /\ w2 = w).
Proof.
  destruct He as (Hs & Hp & Hx & Hsn & Hl). unfold rollbackChange. rewrite <- Hs, <- Hp, <- Hx, <- Hl.
  destruct (ve_slot env1) as [x|]; [naive_solver|]. destruct (ve_plan env1) as [x|p]; [naive_solver|]. destruct (ve_exec env1) as [x|]; [naive_solver|].
  destruct (ledgerFromStoredSteps _ _ p) as [x|l]; [naive_solver|]. cbn [negb].
  destruct (manual_fields env1 changeID true) as (A1 & A2 & A3 & A4 & A5). destruct (manual_fields env2 changeID false) as (B1 & B2 & B3 & B4 & B5).
  pose proof (rollback_preview_readonly (ve_targets env1) _ (Some p) (Some l) h1 A4) as Hro.
  pose proof (views_expected (ve_targets env1) _ p false l h1 A2) as V1. pose proof (views_expected (ve_targets env2) _ p true l h2 B2) as V2.
  assert (Hexp : expected (manualManager env1 changeID true) l p = expected (manualManager env2 changeID false) l p).
  { unfold expected. f_equal. apply map_ext. intros b. apply map_ext. intros t. f_equal. f_equal. apply map_ext. intros ps.
    apply classes_dry; [done|done|congruence|]. intros Hon. rewrite A3 in Hon. rewrite A5 by done. rewrite B5 by congruence. done. }
  destruct (RollbackWithLedger (ve_targets env1) _ _ _ _ h1) as [r1 h1']. destruct (RollbackWithLedger (ve_targets env2) _ _ _ _ h2) as [r2 h2'].
  cbn [fst snd] in *. assert (Hb : rollbackHostBuckets r1 = rollbackHostBuckets r2) by (rewrite !buckets_views; congruence).
  destruct (match ve_batches env2 with Some e => _ | None => _ end) as [w' pe]. split_and!; [done|done| |done]. unfold hosts, outcomeOf. cbn. by rewrite Hb.
Qed.

(** ** The rows a rollback leaves *)

Definition resultIn (res : RollbackResult) (target : string) (sr : StepRollbackResult) : Prop :=
  exists br tr, br ∈ BatchResults res /\ tr ∈ rb_TargetResults br /\ rt_Target tr = target /\ sr ∈ rt_StepResults tr.

Lemma writeSteps_spec env rs w errs w' : foldl (writeStep env) (w, errs) rs = (w', []) -> errs = [] /\ w' = MkRows (w_batches w) (w_steps w ++ rs).
Proof.
  revert w errs. induction rs as [|r rs IH]; intros w errs; cbn [foldl]; [intros [= <- ->]; rewrite app_nil_r; by destruct w|].
  unfold writeStep at 2. cbn [fst snd]. destruct (se_step env r); intros H%IH; destruct H as [E ->]; [by destruct errs|]. split; [done|]. cbn. by rewrite <- app_assoc.
Qed.

Definition rowsOf (now : Z) (brs : list BatchRollbackResult) (rs : list StepRow) : Prop :=
  (forall r, r ∈ rs -> exists br tr sr bid, br ∈ brs /\ tr ∈ rb_TargetResults br /\ sr ∈ rt_StepResults tr /\ r = rollbackRow bid (rt_Target tr) now sr) /\
  (forall br tr sr, br ∈ brs -> tr ∈ rb_TargetResults br -> sr ∈ rt_StepResults tr -> exists bid, rollbackRow bid (rt_Target tr) now sr ∈ rs).

Lemma rowsOf_batch now br bid :
  rowsOf now [br] (concat (map (fun tr => map (rollbackRow bid (rt_Target tr) now) (rt_StepResults tr)) (rb_TargetResults br))).
Proof.
  split.
  - intros r H. apply list_elem_of_In, in_concat in H as (l & Hl & Hin). apply in_map_iff in Hl as (tr & <- & Htr). apply in_map_iff in Hin as (sr & <- & Hsr).
    exists br, tr, sr, bid. split_and!; [set_solver|by apply list_elem_of_In|by apply list_elem_of_In|done].
  - intros br' tr sr ->%list_elem_of_singleton Htr Hsr. exists bid. apply list_elem_of_In, in_concat. eexists. split; [apply in_map_iff; by exists tr; split; [done|apply list_elem_of_In]|].
    by apply in_map, list_elem_of_In.
Qed.

Lemma rowsOf_app now brs1 brs2 rs1 rs2 : rowsOf now brs1 rs1 -> rowsOf now brs2 rs2 -> rowsOf now (brs1 ++ brs2) (rs1 ++ rs2).
Proof.
  intros [H1 H2] [H3 H4]. split.
  - intros r [Hr|Hr]%elem_of_app; [destruct (H1 r Hr) as (br & tr & sr & bid & ? & ? & ? & ?)|destruct (H3 r Hr) as (br & tr & sr & bid & ? & ? & ? & ?)];
      exists br, tr, sr, bid; split_and!; try done; apply elem_of_app; auto.
  - intros br tr sr [Hb|Hb]%elem_of_app Htr Hsr; [destruct (H2 br tr sr Hb Htr Hsr) as [bid ?]|destruct (H4 br tr sr Hb Htr Hsr) as [bid ?]]; exists bid; apply elem_of_app; auto.
Qed.

Lemma persist_rows env now res w w' : persistRollbackResults env now res w = (w', []) -> exists rs, w_steps w' = w_steps w ++ rs /\ rowsOf now (BatchResults res) rs.
Proof.
  unfold persistRollbackResults. assert (H : forall brs byNo w errs w', (foldl (persistRollbackBatch env now) (byNo, (w, errs)) brs).2 = (w', []) ->
    errs = [] /\ exists rs, w_steps w' = w_steps w ++ rs /\ rowsOf now brs rs); [|intros E; by apply H in E as [_ ?]].
  clear. intros brs. induction brs as [|br brs IH]; intros byNo w errs w'; cbn [foldl].
  { intros [= -> ->]. split; [done|]. exists []. rewrite app_nil_r. split; [done|]. split; [set_solver|]. intros br tr sr Hb. set_solver. }
  assert (Hgo : forall byNo w0 errs0 bid, w_steps w0 = w_steps w -> (errs0 = [] -> errs = []) ->
    (foldl (persistRollbackBatch env now) (byNo, foldl (writeStep env) (w0, errs0) (concat (map (fun tr => map (rollbackRow bid (rt_Target tr) now) (rt_StepResults tr)) (rb_TargetResults br)))) brs).2 = (w', []) ->
    errs = [] /\ exists rs, w_steps w' = w_steps w ++ rs /\ rowsOf now (br :: brs) rs).
  { intros b0 w0 errs0 bid Hw0 He. destruct (foldl (writeStep env) (w0, errs0) _) as [w1 errs1] eqn:E1. intros [-> (rs & Hrs & Hro)]%IH.
    apply writeSteps_spec in E1 as [E0 ->]. split; [by apply He|]. eexists. split; [rewrite Hrs; cbn [w_steps]; rewrite Hw0, <- app_assoc; done|].
    apply (rowsOf_app now [br] brs); [apply rowsOf_batch|done]. }
  unfold persistRollbackBatch at 2. destruct (byNo !! _) as [row|]; [by apply Hgo|]. destruct (se_batch env _) as [e|]; [|by apply Hgo].
  intros [H _]%IH. by destruct errs.
Qed.

(** ** A rollback that succeeded is not repeated *)

Lemma success_settled env m p hasExec l h : Success (RollbackWithLedger env m (Some p) hasExec (Some l) h).1 = true ->
  Forall (fun br => Forall settled (stepResultsOf br)) (BatchResults (RollbackWithLedger env m (Some p) hasExec (Some l) h).1).
Proof.
  unfold RollbackWithLedger. pose proof (rollbackLoop_tally env m (reverse (p_Batches p)) hasExec l (MkTally 0 0 0 None) h (Nat.le_refl _)) as Ht.
  destruct (rollbackLoop _ _ _ _ _ _ _) as [[brs ta] h']. cbn. intros [He%bool_decide_eq_true Hr%Nat.eqb_eq]%andb_true_iff. by destruct (Ht He Hr) as (_ & ? & _).
Qed.

(** The results of a step on a target, found among the results of the rollback. *)
Lemma results_of_step env m p hasExec l h b target ps : m_stopOnError m = false -> b ∈ p_Batches p -> target ∈ b_Targets b -> ps ∈ b_Steps b ->
  exists br tr srs, br ∈ BatchResults (RollbackWithLedger env m (Some p) hasExec (Some l) h).1 /\ tr ∈ rb_TargetResults br /\ rt_Target tr = target /\
    (forall sr, sr ∈ srs -> sr ∈ rt_StepResults tr) /\ stepResults m l target ps srs.
Proof.
  intros Hs Hb Ht Hps. pose proof (rollback_results env m p hasExec l h Hs) as H. rewrite <- elem_of_reverse in Hb.
  apply list_elem_of_lookup in Hb as [k Hk]. destruct (Forall2_lookup_l _ _ _ _ _ H Hk) as (br & Hbr & Htrs).
  apply list_elem_of_lookup in Ht as [i Hi]. destruct (Forall2_lookup_l _ _ _ _ _ Htrs Hi) as (tr & Htr & Ht & parts & Hsr & Hparts).
  rewrite <- elem_of_reverse in Hps. apply list_elem_of_lookup in Hps as [j Hj]. destruct (Forall2_lookup_l _ _ _ _ _ Hparts Hj) as (srs & Hsrs & Hstep).
  exists br, tr, srs. split_and!; [by eapply list_elem_of_lookup_2|by eapply list_elem_of_lookup_2|done| |done].
  intros sr Hin. rewrite Hsr. apply list_elem_of_In, in_concat. exists srs. split; [apply list_elem_of_In; by eapply list_elem_of_lookup_2|by apply list_elem_of_In].
Qed.

Lemma result_name env m p hasExec l h br tr sr : m_stopOnError m = false ->
  br ∈ BatchResults (RollbackWithLedger env m (Some p) hasExec (Some l) h).1 -> tr ∈ rb_TargetResults br -> sr ∈ rt_StepResults tr ->
  (RollbackStepName sr = "" /\ Skipped sr = true) \/ exists s, undoName p s (RollbackStepName sr).
Proof.
  intros Hs Hbr Htr Hsr. pose proof (rollback_results env m p hasExec l h Hs) as H.
  apply list_elem_of_lookup in Hbr as [k Hk]. destruct (Forall2_lookup_r _ _ _ _ _ H Hk) as (b & Hb & Htrs).
  apply list_elem_of_lookup in Htr as [i Hi]. destruct (Forall2_lookup_r _ _ _ _ _ Htrs Hi) as (t & Ht & _ & parts & Hcat & Hparts).
  rewrite Hcat in Hsr. apply list_elem_of_In, in_concat in Hsr as (srs & Hsrs & Hsr). apply list_elem_of_In, list_elem_of_lookup in Hsrs as [j Hj].
  destruct (Forall2_lookup_r _ _ _ _ _ Hparts Hj) as (ps & Hps & Hstep). apply list_elem_of_In in Hsr.
  destruct (sp_name _ _ _ _ _ Hstep sr Hsr) as [?|Hn]; [by left|]. right. exists (ps_Name ps), b, ps.
  pose proof (list_elem_of_lookup_2 _ _ _ Hps) as Hps'. pose proof (list_elem_of_lookup_2 _ _ _ Hb) as Hb'. rewrite elem_of_reverse in Hps'. rewrite elem_of_reverse in Hb'. by split_and!.
Qed.

Section repeated.
Context (p : Plan) (Hnamed : forall s u, undoName p s u -> u <> "") (Hnocol : forall s u h, undoName p s u -> ~ declares p h u).

(** The rows of a rollback never read as forward evidence. *)
Lemma rows_not_forward env m hasExec l h now rs rs0 host step r : m_stopOnError m = false ->
  rowsOf now (BatchResults (RollbackWithLedger env m (Some p) hasExec (Some l) h).1) rs ->
  dispatched p (rs0 ++ rs) host step r <-> dispatched p rs0 host step r.
Proof.
  intros Hs [Hrows _]. unfold dispatched. rewrite elem_of_app. split; [|tauto]. intros ([?|Hin] & Hh & Hn & Hd & Hst); [done|]. exfalso.
  destruct (Hrows r Hin) as (br & tr & sr & bid & Hbr & Htr & Hsr & ->). cbn [rollbackRow er_StepName er_Status] in *.
  destruct (result_name env m p hasExec l h br tr sr Hs Hbr Htr Hsr) as [[E Hsk]|(s & Hu)].
  - rewrite Hsk in Hst. by destruct Hst.
  - pose proof (Hnamed _ _ Hu) as Hne. apply String.eqb_neq in Hne. rewrite Hne in Hn. subst step. by apply (Hnocol _ _ host Hu).
Qed.

(** After a successful rollback, what ran is on record as compensated. *)
Lemma settled_rows env m hasExec l h now rs rs0 b target ps :
  m_stopOnError m = false -> now <> 0%Z -> ledgerOf p rs0 l -> Success (RollbackWithLedger env m (Some p) hasExec (Some l) h).1 = true ->
  rowsOf now (BatchResults (RollbackWithLedger env m (Some p) hasExec (Some l) h).1) rs ->
  (forall hh s r, dispatched p rs0 hh s r -> exists t, stamped r t /\ (t < now)%Z) ->
  b ∈ p_Batches p -> target ∈ b_Targets b -> ps ∈ b_Steps b -> Ran (Some l) target (ps_Name ps) = true ->
  undosOf ps = ∅ \/ rowsUndone p (rs0 ++ rs) target (ps_Name ps).
Proof.
  intros Hs Hnow Hl Hok Hrows Hold Hb Ht Hps Hran.
  pose proof (fun hh s r => rows_not_forward env m hasExec l h now rs rs0 hh s r Hs Hrows) as Hfwd. unfold rowsUndone. setoid_rewrite Hfwd.
  assert (Hex : exists r t, dispatched p rs0 target (ps_Name ps) r /\ stamped r t).
  { pose proof (proj1 (lo_ran _ _ _ Hl _ _) Hran) as (_ & _ & r & Hr). destruct (Hold _ _ _ Hr) as (t & Hst & _). by exists r, t. }
  destruct (AlreadyCompensated (Some l) target (ps_Name ps)) eqn:Ec.
  - right. split; [done|]. apply (lo_compensated _ _ _ Hl _ _ Hran) in Ec as [_ (u & r & tu & Hu & (Hin & Hx) & Hst & Hlt)]. exists u, r, tu.
    split_and!; [done| |done|done]. split; [apply elem_of_app; by left|done].
  - destruct (decide (undosOf ps = ∅)) as [E|E]; [by left|]. right. split; [done|]. apply set_choose_L in E as [u Hu].
    destruct (results_of_step env m p hasExec l h b target ps Hs Hb Ht Hps) as (br & tr & srs & Hbr & Htr & Htgt & Hsub & Hstep).
    assert (Hset : Forall settled srs).
    { pose proof (success_settled env m p hasExec l h Hok) as H. rewrite Forall_forall in H. specialize (H br Hbr). rewrite Forall_forall in H |- *. intros sr Hsr. apply H.
      unfold stepResultsOf. apply list_elem_of_In, in_concat. exists (rt_StepResults tr). split; [by apply in_map, list_elem_of_In|by apply list_elem_of_In, Hsub]. }
    destruct (sp_done _ _ _ _ _ Hstep Hset Hran Ec u Hu) as (sr & Hsr & Hname & Hsk & Herr).
    assert (Hun : undoName p (ps_Name ps) u) by by exists b, ps. destruct Hrows as [_ Hrows]. destruct (Hrows br tr sr Hbr Htr (Hsub _ Hsr)) as [bid Hin].
    exists u, (rollbackRow bid (rt_Target tr) now sr), now. pose proof (Hnamed _ _ Hun) as Hne. apply String.eqb_neq in Hne. split_and!; [done| |by split|].
    + split_and!; [apply elem_of_app; by right|done|cbn; by rewrite Hname, Hne|by eapply Hnocol|cbn; by rewrite Hsk, Herr].
    + intros r' t Hr' [E1 _]. destruct (Hold _ _ _ Hr') as (t' & [E2 _] & Hlt). congruence.
Qed.
End repeated.

(** C8: a manual rollback that succeeded is not repeated. Let every undo step be named
    and every forward row carry a time before the rollback's. If the rollback returns
    without error, then whenever it is asked for again, with nothing executed in between,
    it calls nothing on any target, in a preview or for real, whatever the targets and
    the store would have answered; so an undo that must not run twice does not. *)
Theorem rollback_not_repeated (p : Plan) (env1 env2 : RollbackEnv) (id1 id2 : string) (dry : bool) (w w1 w2 : rows) (h1 h1' h2 h2' : history)
    (o1 o2 : RollbackOutcome) (e2 : option goerr)
    (Hp1 : ve_plan env1 = inr p) (Hp2 : ve_plan env2 = inr p) (Hnamed : forall s u, undoName p s u -> u <> "")
    (Hold : forall host s r, dispatched p (w_steps w) host s r -> exists t, stamped r t /\ (t < ve_now env1)%Z) (Hnow : ve_now env1 <> 0%Z)
    (H1 : rollbackChange env1 id1 false w h1 = (o1, None, w1, h1')) (H2 : rollbackChange env2 id2 dry w1 h2 = (o2, e2, w2, h2')) :
  h2' = h2.
Proof.
  unfold rollbackChange in H1, H2. rewrite Hp1 in H1. rewrite Hp2 in H2. destruct (ve_slot env1); [done|]. destruct (ve_exec env1); [done|]. destruct (ve_list env1); [done|].
  destruct (ve_slot env2); [by injection H2|]. destruct (ve_exec env2); [by injection H2|]. destruct (ve_list env2); [by injection H2|].
  pose proof (stored_ledger id1 p (w_steps w)) as L1. destruct (ledgerFromStoredSteps id1 (inr (w_steps w)) p) as [|l1]; [done|]. destruct L1 as [Hnocol L1].
  pose proof (stored_ledger id2 p (w_steps w1)) as L2. destruct (ledgerFromStoredSteps id2 (inr (w_steps w1)) p) as [|l2]; [by injection H2|]. destruct L2 as [_ L2].
  destruct (manual_fields env1 id1 false) as (_ & B2 & _). set (m1 := manualManager env1 id1 false) in *. set (m2 := manualManager env2 id2 dry) in *. cbn [negb] in H1.
  destruct (RollbackWithLedger (ve_targets env1) m1 (Some p) true (Some l1) h1) as [r1 h1x] eqn:E1.
  assert (Hfirst : Success r1 = true /\ exists rs, w_steps w1 = w_steps w ++ rs /\ rowsOf (ve_now env1) (BatchResults r1) rs).
  { destruct (ve_batches env1); [by destruct (negb _)|]. destruct (persistRollbackResults (ve_store env1) (ve_now env1) r1 w) as [wx errs] eqn:Ep.
    destruct (Success r1 && _) eqn:Eok; cbn [negb] in H1; [|done]. destruct (joinErrors errs) eqn:Ej; [done|]. injection H1 as _ <- _.
    split; [by apply andb_true_iff in Eok as [? _]|]. destruct errs; [|done]. by apply persist_rows in Ep. }
  destruct Hfirst as (Hok & rs & Hw1 & Hrows). rewrite Hw1 in L2.
  assert (Hcalls : forall b target ps, b ∈ p_Batches p -> target ∈ b_Targets b -> ps ∈ b_Steps b -> callsOf m2 (negb dry) (Some l2) target ps = []).
  { intros b target ps Hb Ht Hps. unfold callsOf. destruct (due (Some l2) target ps) eqn:Ed; [|done]. cbn [negb].
    unfold due in Ed. apply andb_true_iff in Ed as [[Hna Hran2]%andb_true_iff _]. apply negb_true_iff in Hna.
    assert (Hran1 : Ran (Some l1) target (ps_Name ps) = true).
    { apply (lo_ran _ _ _ L1). apply (lo_ran _ _ _ L2) in Hran2 as (Hh & Hn & r & Hr). split_and!; [done|done|]. exists r.
      pose proof (rows_not_forward p Hnamed Hnocol (ve_targets env1) m1 true l1 h1 (ve_now env1) rs (w_steps w) target (ps_Name ps) r B2) as Hf. rewrite E1 in Hf. by apply Hf. }
    pose proof (settled_rows p Hnamed Hnocol (ve_targets env1) m1 true l1 h1 (ve_now env1) rs (w_steps w) b target ps B2 Hnow L1) as Hset. rewrite E1 in Hset.
    destruct (Hset Hok Hrows Hold Hb Ht Hps Hran1) as [E|E]; [|apply (lo_compensated _ _ _ L2 _ _ Hran2) in E; congruence].
    unfold undosOf in E. destruct (ps_Rollback ps) as [rb|]; [|done]. destruct (String.eqb (Dsl.rb_Strategy rb) "snapshot"); [set_solver|].
    destruct (Dsl.rb_Steps rb); [done|]. cbn in E. set_solver. }
  destruct (RollbackWithLedger (ve_targets env2) m2 (Some p) (negb dry) (Some l2) h2) as [r2 h2x] eqn:E2.
  assert (Hh : h2x = h2).
  { unfold RollbackWithLedger in E2. destruct (rollbackLoop _ _ _ _ _ _ h2) as [[brs ta] h'] eqn:El. injection E2 as _ <-.
    destruct (rollbackLoop_extends _ _ _ _ _ _ _ _ _ _ El) as [suffix Hs]. destruct suffix as [|[[i c] err] suffix]; [by rewrite Hs, app_nil_r|]. exfalso.
    destruct (rollbackLoop_event _ _ _ _ _ _ _ _ _ _ i c err El _ Hs ltac:(by left)) as (b & tgt & ps & Hb & Htgt & Hps & Hc).
    rewrite (Hcalls b tgt ps Hb) in Hc; [set_solver|by eapply list_elem_of_lookup_2|done]. }
  subst h2x. destruct dry; [by injection H2|]. destruct (match ve_batches env2 with Some e => _ | None => _ end) as [wx pe]. by injection H2.
Qed.

(** ** What a manual rollback compensates *)


(** ** Runs of a deployment *)

(** One host, one step with two undo steps, forward evidence at time 5. *)
Definition ex_undo (name : string) : Dsl.Step := undo name "pkg" "remove" false.
Definition ex_two : Plan := oneHostPlan [planStep "a" (undoSpec [ex_undo "undo-1"; ex_undo "undo-2"])].
Definition ex_store : StoreEnv := MkStoreEnv (fun _ => None) (fun _ => None) (fun _ => None) (fun l => "bat").
Definition ex_env (p : Plan) (answer : call -> option goerr) (now : Z) : RollbackEnv :=
  MkRollbackEnv None (inr p) None true 1 (MkREnv (fun _ c => answer c) (fun _ _ => 0)) (fun _ => None) None None ex_store now "rb".
Definition ex_ran : rows := MkRows [MkBatchRow "b1" 1 "completed" 1 1 0] [MkStepRow "b1" "h1" "a" "pkg.install" "success" (Some 5%Z)].
Definition ex_well (c : call) : option goerr := None.


Lemma preview_is_faithful_witness :
  let '(o1, e1, w1, h1) := rollbackChange (ex_env ex_two ex_well 9) "chg" true ex_ran [] in
  let '(o2, e2, w2, h2) := rollbackChange (ex_env ex_two ex_well 9) "chg" false ex_ran [] in
  h1 = [] /\ w1 = ex_ran /\ hosts o1 = hosts o2 /\ (forall x, e1 = Some x -> e2 = Some x /\ h2 = [] /\ w2 = ex_ran).
Proof. apply (preview_is_faithful (ex_env ex_two ex_well 9) (ex_env ex_two ex_well 9) "chg" ex_ran [] []); done. Defined.

Lemma ex_two_names s u : undoName ex_two s u -> u <> "".
Proof.
  intros (b & ps & ->%list_elem_of_singleton & ->%list_elem_of_singleton & _ & Hu). cbn in Hu. rewrite elem_of_union, elem_of_union, !elem_of_singleton, elem_of_empty in Hu.
  destruct Hu as [->|[->|[]]]; done.
Qed.

Lemma rollback_not_repeated_witness :
  (rollbackChange (ex_env ex_two ex_well 9) "chg" false ex_ran []).2 = [(0, CUndo "h1" (ex_undo "undo-1"), None); (0, CUndo "h1" (ex_undo "undo-2"), None)] /\
  (rollbackChange (ex_env ex_two ex_well 20) "chg" false (rollbackChange (ex_env ex_two ex_well 9) "chg" false ex_ran []).1.2 []).2 = [].
Proof.
  split; [by vm_compute|].
  set (w1 := (rollbackChange (ex_env ex_two ex_well 9) "chg" false ex_ran []).1.2).
  eapply (rollback_not_repeated ex_two (ex_env ex_two ex_well 9) (ex_env ex_two ex_well 20) "chg" "chg" false ex_ran w1
    (rollbackChange (ex_env ex_two ex_well 20) "chg" false w1 []).1.2 []
    (rollbackChange (ex_env ex_two ex_well 9) "chg" false ex_ran []).2 []).
  - done.
  - done.
  - exact ex_two_names.
  - intros host s r (->%list_elem_of_singleton & _). exists 5%Z. by split; [split|].
  - done.
  - by vm_compute.
  - by vm_compute.
Defined.

(** A step with two undo steps, the second of which fails: the rollback reports that it
    is incomplete; asked to finish, it finds the step compensated, calls nothing and
    reports success. The second undo is never run again. *)
Definition ex_second_fails (c : call) : option goerr :=
  match c with CUndo _ s => if String.eqb (Dsl.st_Name s) "undo-2" then Some (EText "boom") else None | _ => None end.
Example partial_undo_is_forgotten :
  let '(o1, e1, w1, h1) := rollbackChange (ex_env ex_two ex_second_fails 9) "chg" false ex_ran [] in
  let '(o2, e2, w2, h2) := rollbackChange (ex_env ex_two ex_well 20) "chg" false w1 [] in
  (exists x, e1 = Some x /\ errors_Is x ErrIncomplete = true) /\ e2 = None /\ h2 = [] /\ hosts o2 = ([], ["h1"], []).
Proof. vm_compute. split_and!; [eexists; split; reflexivity|done..]. Qed.

(** An undo step without a name is recorded under the name of the step it compensates,
    as one more execution of it: the rollback is repeated. *)
Example unnamed_undo_is_repeated :
  let p := oneHostPlan [planStep "a" (undoSpec [ex_undo ""])] in
  let '(o1, e1, w1, h1) := rollbackChange (ex_env p ex_well 9) "chg" false ex_ran [] in
  let '(o2, e2, w2, h2) := rollbackChange (ex_env p ex_well 20) "chg" false w1 [] in
  e1 = None /\ h1 = [(0, CUndo "h1" (ex_undo ""), None)] /\ e2 = None /\ h2 = h1.
Proof. by vm_compute. Qed.

(** ** The resumed retry *)

Lemma resumeLoop_spec skip bs n :
  let '(kept, ev) := resumeLoop skip bs n in
  map (fun b => (b_Targets b, b_Steps b, b_MaxConcurrency b, b_Gate b)) kept
    = map (fun b => (b_Targets b, b_Steps b, b_MaxConcurrency b, b_Gate b)) (filter (fun b => leavesOut skip b = false) bs) /\
  map b_Index kept = map (fun i => n + Z.of_nat i)%Z (seq 0 (length kept)) /\
  ev = concat (map resumeRows (filter (fun b => leavesOut skip b = true) bs)).
Proof.
  revert n. induction bs as [|b bs IH]; intros n; cbn [resumeLoop]; [done|]. rewrite !filter_cons. destruct (leavesOut skip b) eqn:E.
  - rewrite decide_False by done. rewrite decide_True by done. specialize (IH n). destruct (resumeLoop skip bs n) as [kept ev]. destruct IH as (H1 & H2 & ->). done.
  - rewrite decide_True by done. rewrite decide_False by done. specialize (IH (n + 1)%Z). destruct (resumeLoop skip bs (n + 1)) as [kept ev]. destruct IH as (H1 & H2 & ->).
    split_and!; [cbn; by rewrite H1| |done]. cbn [map length seq]. rewrite H2, Z.add_0_r. f_equal. rewrite <- seq_shift, map_map. apply map_ext. intros i. lia.
Qed.

(** The batch's success on a host is on record. *)
Definition recorded (w : rows) (no : Z) (step host : string) : Prop :=
  exists r b, r ∈ w_steps w /\ b ∈ w_batches w /\ eb_BatchNo b = no /\ er_BatchID r = eb_ID b /\ er_StepName r = step /\ er_Host r = host /\ er_Status r = StepStatusSuccess.

Lemma noToID_spec (bs : list BatchRow) no x : (foldl (fun m b => <[eb_BatchNo b := eb_ID b]> m) (∅ : gmap Z string) bs) !! no = Some x ->
  exists b, b ∈ bs /\ eb_BatchNo b = no /\ eb_ID b = x.
Proof.
  assert (H : forall m : gmap Z string, foldl (fun m b => <[eb_BatchNo b := eb_ID b]> m) m bs !! no = Some x -> (exists b, b ∈ bs /\ eb_BatchNo b = no /\ eb_ID b = x) \/ m !! no = Some x).
  { induction bs as [|b bs IH]; intros m; cbn [foldl]; [by right|]. intros [(b' & Hb & ?)|Hl]%IH; [left; exists b'; split; [by right|done]|].
    apply lookup_insert_Some in Hl as [[<- <-]|[_ ?]]; [left; exists b; split; [by left|done]|by right]. }
  intros [?|E]%H; [done|]. by rewrite lookup_empty in E.
Qed.

Lemma succeeded_recorded w no step host :
  (no, step, host) ∈ succeededSteps (foldl (fun m b => <[eb_BatchNo b := eb_ID b]> m) ∅ (w_batches w)) (take (Z.to_nat 10000) (w_steps w)) -> recorded w no step host.
Proof.
  intros (r & Hr & E)%list_elem_of_omap. unfold batchNoForID in E. destruct (filter _ _) as [|[k x] l] eqn:Ef; [done|].
  assert (Hk : (k, x) ∈ (k, x) :: l) by by left. rewrite <- Ef in Hk. apply list_elem_of_filter in Hk as [Ex Hk]. cbn in Ex.
  apply elem_of_map_to_list, noToID_spec in Hk as (b & Hb & Hno & Hid). destruct (k =? 0)%Z; [done|].
  destruct (String.eqb_spec (er_Status r) StepStatusSuccess) as [Hst|]; [|done]. cbn [negb] in E. injection E as <- <- <-. exists r, b.
  split_and!; [by eapply subseteq_take|done|done|congruence|done|done|done].
Qed.

(** C9: a resumed retry leaves out only batches on record as done. The batches it runs
    are the others, in order, with their targets, steps, concurrency and gates as they
    were, numbered from zero; each batch it leaves out has work, only modules that
    declare themselves idempotent, and for every step and target a successful row under
    that batch's number; and the skipped rows it writes are those steps on those
    targets. *)
Theorem resume_is_conservative (isIdempotent : string -> bool) (w : rows) (p : Plan) (Hix : NoDup (map b_Index (p_Batches p))) :
  let skip := completedIdempotentBatches isIdempotent w p in
  let '(q, ev) := buildResumePlan p skip in
  map (fun b => (b_Targets b, b_Steps b, b_MaxConcurrency b, b_Gate b)) (p_Batches q)
    = map (fun b => (b_Targets b, b_Steps b, b_MaxConcurrency b, b_Gate b)) (filter (fun b => leavesOut skip b = false) (p_Batches p)) /\
  map b_Index (p_Batches q) = map Z.of_nat (seq 0 (length (p_Batches q))) /\
  (forall b, b ∈ p_Batches p -> leavesOut skip b = true ->
     b_Steps b <> [] /\ b_Targets b <> [] /\
     forall s host, s ∈ b_Steps b -> host ∈ b_Targets b -> isIdempotent (ps_Module s) = true /\ recorded w (b_Index b + 1) (ps_Name s) host) /\
  (forall r, r ∈ ev <-> exists b s host, b ∈ p_Batches p /\ leavesOut skip b = true /\ s ∈ b_Steps b /\ host ∈ b_Targets b /\
     r = MkResume (b_Index b + 1) host (ps_Name s) (ps_Module s +:+ "." +:+ ps_Action s)).
Proof.
  intros skip. unfold buildResumePlan. pose proof (resumeLoop_spec skip (p_Batches p) 0) as H. destruct (resumeLoop skip (p_Batches p) 0) as [kept ev].
  destruct H as (H1 & H2 & ->). cbn [p_Batches]. split_and!; [done|done| |].
  - intros b Hb Hl. unfold leavesOut in Hl. apply andb_true_iff in Hl as [[Hin%bool_decide_eq_true Hs]%andb_true_iff Ht].
    apply negb_true_iff, bool_decide_eq_false in Hs, Ht. split_and!; [done|done|]. intros s host Hss Hh.
    apply elem_of_list_to_set, list_elem_of_fmap in Hin as (b' & Hix' & [Hc Hb']%list_elem_of_filter). cbn in Hix'.
    assert (b' = b) as ->. { apply list_elem_of_lookup in Hb as [i Hi], Hb' as [j Hj]. assert (i = j) as ->; [|congruence].
      eapply NoDup_lookup; [exact Hix|by rewrite list_lookup_fmap, Hi|rewrite list_lookup_fmap, Hj; cbn; f_equal; lia]. }
    unfold completable in Hc. destruct (b_Steps b) as [|s0 ss] eqn:Es; [done|]. destruct (b_Targets b) as [|t0 ts] eqn:Et; [done|].
    pose proof (proj1 (forallb_elem _ _) Hc s Hss) as [Hi Hall]%andb_true_iff. split; [done|].
    pose proof (proj1 (forallb_elem _ _) Hall host Hh) as Hd%bool_decide_eq_true. by apply succeeded_recorded.
  - intros r. unfold resumeRows. split.
    + intros H. apply list_elem_of_In, in_concat in H as (l & Hl & Hin). apply in_map_iff in Hl as (b & <- & [Hl Hb]%list_elem_of_In%list_elem_of_filter).
      apply list_elem_of_In in Hin. apply list_elem_of_bind in Hin as (s & Hin & Hs). apply list_elem_of_bind in Hin as (host & ->%list_elem_of_singleton & Hh). by exists b, s, host.
    + intros (b & s & host & Hb & Hl & Hs & Hh & ->). apply list_elem_of_In, in_concat. eexists. split; [apply in_map, list_elem_of_In, list_elem_of_filter; by split|].
      apply list_elem_of_In, list_elem_of_bind. exists s. split; [|done]. apply list_elem_of_bind. exists host. split; [by apply list_elem_of_singleton|done].
Qed.

Definition ex_waves : Plan :=
  MkPlan "id" "wf" [MkBatch 0 ["h1"] [planStep "a" (undoSpec [ex_undo "undo-1"])] 0 None; MkBatch 1 ["h2"] [planStep "a" (undoSpec [ex_undo "undo-1"])] 0 None]
    2 0 0 [] "" None None None None.

Lemma resume_is_conservative_witness :
  let skip := completedIdempotentBatches (String.eqb "pkg") ex_ran ex_waves in
  let '(q, ev) := buildResumePlan ex_waves skip in
  map b_Targets (p_Batches q) = [["h2"]] /\
  (forall b, b ∈ p_Batches ex_waves -> leavesOut skip b = true ->
     b_Steps b <> [] /\ b_Targets b <> [] /\
     forall s host, s ∈ b_Steps b -> host ∈ b_Targets b -> String.eqb "pkg" (ps_Module s) = true /\ recorded ex_ran (b_Index b + 1) (ps_Name s) host).
Proof.
  assert (Hix : NoDup (map b_Index (p_Batches ex_waves))) by (by apply (bool_decide_unpack _); vm_compute).
  pose proof (resume_is_conservative (String.eqb "pkg") ex_ran ex_waves Hix) as H. cbn zeta in H |- *.
  destruct (buildResumePlan ex_waves (completedIdempotentBatches (String.eqb "pkg") ex_ran ex_waves)) as [q ev] eqn:E.
  destruct H as (_ & _ & H & _). split; [|exact H]. vm_compute in E. by injection E as <- _.
Defined.

(** The first batch was applied and then rolled back, in an execution before the one that
    was interrupted: its successful row remains, and a resumed retry leaves the batch
    out although its undo is on record after it. *)
Example resume_skips_an_undone_batch :
  let '(o, e, w1, h1) := rollbackChange (ex_env ex_waves ex_well 9) "chg" false ex_ran [] in
  e = None /\ h1 = [(0, CUndo "h1" (ex_undo "undo-1"), None)] /\
  map b_Targets (p_Batches (resumedPlan (String.eqb "pkg") true true w1 ex_waves)) = [["h2"]].
Proof. by vm_compute. Qed.

(** The second batch, run alone by a resumed retry, is the first of the plan executed: its
    rows are filed under the first batch's row, which they overwrite. *)
Example resumed_rows_are_misfiled :
  let q := resumedPlan (String.eqb "pkg") true true ex_ran ex_waves in
  let brs := [Batch.MkBatchResult 0 [Batch.MkTargetResult "h2" [Batch.MkStepResult "a" (Some (EText "boom"))] (Some (EText "boom"))] (Some (EText "boom"))] in
  let '(w1, e) := persistClosureResults ex_store 20 21 q brs None ex_ran in
  e = None /\ w_batches w1 = [MkBatchRow "b1" 1 "failed" 1 0 1] /\
  w_steps w1 = [MkStepRow "b1" "h1" "a" "pkg.install" "success" (Some 5%Z); MkStepRow "b1" "h2" "a" "pkg.install" "failed" (Some 20%Z)].
Proof. by vm_compute. Qed.

(** A resumed retry does not carry the run's baseline. *)
Example resuming_drops_the_snapshot p skip : p_RunSnapshot (buildResumePlan p skip).1 = None.
Proof. unfold buildResumePlan. by destruct (resumeLoop _ _ _). Qed.
End Remedy.
