(* ===== verification/Sql.v ===== *)
(** * Sql: the relational engine behind the state store

    The statements the SQLite store issues, over the schema it creates
    (src/internal/state/schema.sql): rows are maps from column names to SQL
    values, a table is keyed by its primary key. INSERT, INSERT .. ON CONFLICT,
    UPDATE and DELETE are all or nothing and enforce what the schema declares:
    primary keys, UNIQUE constraints, foreign keys with their ON DELETE action
    (the driver sets PRAGMA foreign_keys and recursive_triggers), and the
    triggers that make [trace] and [audit] append-only and restrict
    [run_assignment.result]. A struct passed to the store is the row its fields
    are bound to, column by column; a nil pointer field is [Null]. Times are
    integers. Rows that tie under an ORDER BY come in a fixed order.

    The lemmas say that every statement keeps the declared constraints and that
    rows of the append-only tables survive with their content. *)

From Stdlib Require Import Lia.
From stdpp Require Import base gmap sets list strings sorting relations.
From S2P Require Import Prelude.
Open Scope string_scope.
Open Scope list_scope.

Module Sql.

Inductive value := Null | Int (n : Z) | Text (s : string).
#[global] Instance value_dec : EqDecision value.
Proof. solve_decision. Defined.

Abbreviation Row := (gmap string value).
Abbreviation table := (gmap string Row).
Abbreviation db := (gmap string table).

Definition col (x : Row) (c : string) : value := default Null (x !! c).
(** Scanning a text or an integer column into a Go variable. *)
Definition text (x : Row) (c : string) : string := match col x c with Text s => s | _ => "" end.
Definition int (x : Row) (c : string) : Z := match col x c with Int n => n | _ => 0 end.
Definition tbl (d : db) (T : string) : table := default ∅ (d !! T).

(** [a = b]: not true when either side is NULL. *)
Definition eqv (v w : value) : bool := bool_decide (v <> Null) && bool_decide (v = w).
(** The order of values: NULL, then integers, then text by bytes. *)
Definition lev (v w : value) : bool :=
  match v, w with
  | Null, _ => true
  | _, Null => false
  | Int a, Int b => (a <=? b)%Z
  | Int _, Text _ => true
  | Text _, Int _ => false
  | Text a, Text b => String.leb a b
  end.

(** The columns [cs] of [x] overwritten with those of [y]. *)
Definition assign (x y : Row) (cs : list string) : Row := foldr (fun c z => <[c := col y c]> z) x cs.
Definition pick (cs : list string) (y : Row) : Row := assign ∅ y cs.

(** ** The schema *)

Inductive action := Cascade | SetNull.
#[global] Instance action_dec : EqDecision action.
Proof. solve_decision. Defined.
Record fkey := MkFkey { fk_col : string; fk_parent : string; fk_action : action }.
#[global] Instance fkey_dec : EqDecision fkey.
Proof. solve_decision. Defined.

Record schema := MkSchema {
  sc_pk : string; sc_notnull : list string; sc_unique : list (list string); sc_fks : list fkey;
  sc_worm : list string;                       (* columns an UPDATE may not change; with any, no DELETE *)
  sc_domain : list (string * list string) }.   (* columns restricted to a set of texts *)

Definition plainTable : schema := MkSchema "id" [] [] [] [] [].

Definition traceWorm : list string := ["id"; "run_id"; "event"; "actor"; "detail"; "tenant_id"; "timestamp"].
Definition auditWorm : list string := ["id"; "run_id"; "action"; "actor"; "target"; "result"; "tenant_id"; "timestamp"].

Definition schemas : list (string * schema) :=
  [("runs", MkSchema "id" ["workflow_name"; "template_name"; "params"; "plan_hash"; "status"; "approval_status"; "approval_level"; "created_at";
      "updated_at"; "creator"; "incident_id"; "plan_json"; "tenant_id"; "priority"] [] [] [] []);
   ("batches", MkSchema "id" ["run_id"; "batch_no"; "status"; "total_hosts"; "succeeded"; "failed"; "tenant_id"]
      [["run_id"; "batch_no"]] [MkFkey "run_id" "runs" Cascade] [] []);
   ("steps", MkSchema "id" ["run_id"; "batch_id"; "host"; "step_name"; "action"; "status"; "stdout"; "stderr"; "duration_ms"; "tenant_id"]
      [] [MkFkey "run_id" "runs" Cascade; MkFkey "batch_id" "batches" Cascade] [] []);
   ("trace", MkSchema "id" ["run_id"; "event"; "actor"; "detail"; "prev_hash"; "curr_hash"; "timestamp"; "tenant_id"]
      [] [MkFkey "run_id" "runs" Cascade] traceWorm []);
   ("approvals", MkSchema "id" ["run_id"; "level"; "approver"; "status"; "comment"; "plan_hash"; "revision"; "tenant_id"]
      [] [MkFkey "run_id" "runs" Cascade] [] []);
   ("locks", MkSchema "id" ["scope"; "owner"; "ttl_seconds"; "acquired_at"; "expires_at"] [["scope"]] [] [] []);
   ("credentials", MkSchema "id" ["name"; "type"; "encrypted_data"; "created_at"; "tags"; "tenant_id"] [["name"]] [] [] []);
   ("audit", MkSchema "id" ["run_id"; "action"; "actor"; "target"; "result"; "timestamp"; "tenant_id"; "prev_hash"; "curr_hash"] [] [] auditWorm []);
   ("inventory_groups", MkSchema "id" ["name"; "created_at"; "tenant_id"] [["name"]] [] [] []);
   ("targets", MkSchema "id" ["hostname"; "port"; "channel_type"; "credential_ref"; "labels"; "status"; "reachable"; "created_at"; "tenant_id"]
      [["hostname"; "port"]] [MkFkey "group_id" "inventory_groups" SetNull] [] []);
   ("run_assignment", MkSchema "run_id" ["owner_node"; "epoch"; "state"; "result"; "assigned_at"; "updated_at"; "tenant_id"]
      [] [] [] [("result", [""; "completed"; "failed"; "rolled_back"])])].

Definition schemaOf (T : string) : schema :=
  match List.find (fun s => String.eqb s.1 T) schemas with Some s => s.2 | None => plainTable end.
(** The foreign keys that refer to a table, with the table they are in. *)
Definition children (T : string) : list (string * fkey) :=
  concat (map (fun s : string * schema => map (fun k => (s.1, k)) (filter (fun k => fk_parent k = T) (sc_fks s.2))) schemas).

(** ** Constraints *)

Inductive sqlerr :=
| UniqueFailed (T : string) (cs : list string)
| ForeignKeyFailed
| Aborted (msg : string)
| SyntaxError.

Definition sqlText (e : sqlerr) : string :=
  match e with
  | UniqueFailed T cs => "UNIQUE constraint failed: " +:+ String.concat ", " (map (fun c => T +:+ "." +:+ c) cs)
  | ForeignKeyFailed => "FOREIGN KEY constraint failed"
  | Aborted m => m
  | SyntaxError => "SQL logic error: syntax error"
  end.

(** Another row than [k] has the same values in [cs]. *)
Definition clash (t : table) (k : string) (x : Row) (cs : list string) : bool :=
  existsb (fun y : string * Row => negb (String.eqb y.1 k) && forallb (fun c => eqv (col x c) (col y.2 c)) cs) (map_to_list t).

Definition dangling (d : db) (x : Row) (fk : fkey) : bool :=
  match col x (fk_col fk) with
  | Null => false
  | Text p => bool_decide (tbl d (fk_parent fk) !! p = None)
  | Int _ => true
  end.

Definition outOfDomain (x : Row) (cd : string * list string) : bool := negb (inSet cd.2 (text x cd.1)).

Definition isNull (x : Row) (c : string) : bool := bool_decide (col x c = Null).

(** What the schema says about row [x] of key [k] in a state [d] that holds it. *)
Definition check (d : db) (T k : string) (x : Row) : option sqlerr :=
  let sc := schemaOf T in
  if existsb (isNull x) (sc_notnull sc) then Some (Aborted "NOT NULL constraint failed")
  else if existsb (outOfDomain x) (sc_domain sc) then Some (Aborted (T +:+ ".result is not an assignment result"))
  else match List.find (clash (tbl d T) k x) (sc_unique sc) with
       | Some cs => Some (UniqueFailed T cs)
       | None => if existsb (dangling d x) (sc_fks sc) then Some ForeignKeyFailed else None
       end.

Definition wormChanged (T : string) (old new : Row) : bool :=
  existsb (fun c => negb (bool_decide (col new c = col old c))) (sc_worm (schemaOf T)).
Definition appendOnly (T : string) : bool := match sc_worm (schemaOf T) with [] => false | _ => true end.

(** ** Statements *)

Definition put (d : db) (T k : string) (x : Row) : db := <[T := <[k := x]> (tbl d T)]> d.

Definition insert (d : db) (T : string) (x : Row) : sqlerr + db :=
  match col x (sc_pk (schemaOf T)) with
  | Text k =>
      if bool_decide (is_Some (tbl d T !! k)) then inl (UniqueFailed T [sc_pk (schemaOf T)])
      else match check (put d T k x) T k x with Some e => inl e | None => inr (put d T k x) end
  | _ => inl (Aborted "datatype mismatch")
  end.

(** UPDATE T SET .. WHERE ..: the rows affected and the new state. *)
Definition refuses (d : db) (T : string) (f : Row -> Row) (kx : string * Row) : option sqlerr :=
  if wormChanged T kx.2 (f kx.2) then Some (Aborted ("WORM violation: " +:+ T +:+ " content fields cannot be updated"))
  else check d T kx.1 (f kx.2).
Fixpoint firstError {A} (f : A -> option sqlerr) (l : list A) : option sqlerr :=
  match l with [] => None | a :: r => match f a with Some e => Some e | None => firstError f r end end.

Definition matching (p : Row -> bool) (t : table) : table := filter (fun kx : string * Row => p kx.2 = true) t.

Definition update (d : db) (T : string) (p : Row -> bool) (f : Row -> Row) : sqlerr + nat * db :=
  let hit := matching p (tbl d T) in
  let d' := <[T := (f <$> hit) ∪ tbl d T]> d in
  match firstError (refuses d' T f) (map_to_list hit) with
  | Some e => inl e
  | None => inr (size hit, d')
  end.

(** INSERT .. ON CONFLICT (pk) DO UPDATE SET cs = excluded.cs. *)
Definition upsert (d : db) (T : string) (x : Row) (cs : list string) : sqlerr + db :=
  match col x (sc_pk (schemaOf T)) with
  | Text k =>
      match tbl d T !! k with
      | None => insert d T x
      | Some old => match update d T (fun y => eqv (col y (sc_pk (schemaOf T))) (Text k)) (fun y => assign y x cs) with
                    | inl e => inl e
                    | inr r => inr r.2
                    end
      end
  | _ => inl (Aborted "datatype mismatch")
  end.

Definition refersTo (ks : gset string) (c : string) (x : Row) : bool :=
  match col x c with Text p => bool_decide (p ∈ ks) | _ => false end.

Definition nullRefs (ks : gset string) (c : string) (x : Row) : Row := if refersTo ks c x then <[c := Null]> x else x.

(** What the rows with keys [ks] take with them in one dependent table. *)
Definition dropChild (rm : db -> string -> gset string -> sqlerr + db) (ks : gset string) (acc : sqlerr + db) (ck : string * fkey) : sqlerr + db :=
  match acc with
  | inl e => inl e
  | inr d =>
      match fk_action ck.2 with
      | Cascade => rm d ck.1 (dom (matching (refersTo ks (fk_col ck.2)) (tbl d ck.1)))
      | SetNull => inr (<[ck.1 := nullRefs ks (fk_col ck.2) <$> tbl d ck.1]> d)
      end
  end.

(** The rows of [T] with keys [ks] go, their dependents with them. [fuel] is
    the depth of the foreign keys. *)
Fixpoint remove (fuel : nat) (d : db) (T : string) (ks : gset string) : sqlerr + db :=
  match fuel with
  | O => inr d
  | S n =>
      if bool_decide (ks = ∅) then inr d
      else if appendOnly T then inl (Aborted ("WORM violation: " +:+ T +:+ " records cannot be deleted"))
      else match foldl (dropChild (remove n) ks) (inr d) (children T) with
           | inl e => inl e
           | inr d' => inr (<[T := filter (fun kx : string * Row => kx.1 ∉ ks) (tbl d' T)]> d')
           end
  end.

(** Runs, their batches, the steps of those: three levels of tables. *)
Definition depth : nat := 3.
Definition delete (d : db) (T : string) (p : Row -> bool) : sqlerr + nat * db :=
  let ks := dom (matching p (tbl d T)) in
  match remove depth d T ks with inl e => inl e | inr d' => inr (size ks, d') end.

(** ** Queries *)

Fixpoint before (keys : list (string * bool)) (x y : Row) : bool :=
  match keys with
  | [] => true
  | (c, desc) :: r =>
      if bool_decide (col x c = col y c) then before r x y
      else if (desc : bool) then lev (col y c) (col x c) else lev (col x c) (col y c)
  end.

Definition ordered (keys : list (string * bool)) (x y : Row) : Prop := before keys x y = true.
#[global] Instance ordered_dec keys x y : Decision (ordered keys x y) := decide (before keys x y = true).
Definition select (d : db) (T : string) (p : Row -> bool) (keys : list (string * bool)) : list Row :=
  merge_sort (ordered keys) ((map_to_list (matching p (tbl d T))).*2).

Definition limited {A} (limit : Z) (l : list A) : list A := if (0 <? limit)%Z then take (Z.to_nat limit) l else l.
(** LIMIT and OFFSET; SQLite has no OFFSET without a LIMIT. *)
Definition paged {A} (limit offset : Z) (l : list A) : sqlerr + list A :=
  if (0 <? offset)%Z then if (0 <? limit)%Z then inr (limited limit (drop (Z.to_nat offset) l)) else inl SyntaxError
  else inr (limited limit l).

(** An optional equality of a filter: no condition when the value is empty. *)
Definition eqIf (c v : string) (x : Row) : bool := String.eqb v "" || eqv (col x c) (Text v).
Definition isText (c v : string) (x : Row) : bool := eqv (col x c) (Text v).
Definition all (ps : list (Row -> bool)) (x : Row) : bool := forallb (fun p => p x) ps.

(** ** Lemmas: lookups, columns, the schema *)

Lemma tbl_insert d T t : tbl (<[T := t]> d) T = t.
Proof. unfold tbl. by rewrite lookup_insert_eq. Qed.
Lemma tbl_insert_ne d T T' t : T <> T' -> tbl (<[T := t]> d) T' = tbl d T'.
Proof. intros. unfold tbl. by rewrite lookup_insert_ne. Qed.

Lemma col_insert x c v : col (<[c := v]> x) c = v.
Proof. unfold col. by rewrite lookup_insert_eq. Qed.
Lemma col_insert_ne x c c' v : c <> c' -> col (<[c := v]> x) c' = col x c'.
Proof. intros. unfold col. by rewrite lookup_insert_ne. Qed.
Lemma col_assign x y cs c : col (assign x y cs) c = if bool_decide (c ∈ cs) then col y c else col x c.
Proof.
  unfold assign. induction cs as [|c' cs IH]; cbn [foldr]; [rewrite bool_decide_eq_false_2; [done|set_solver]|].
  destruct (decide (c' = c)) as [->|Hne].
  - rewrite col_insert, bool_decide_eq_true_2; [done|set_solver].
  - rewrite col_insert_ne, IH by done. assert (bool_decide (c ∈ cs) = bool_decide (c ∈ c' :: cs)) as -> by (apply bool_decide_ext; set_solver). done.
Qed.
Lemma col_pick cs y c : col (pick cs y) c = if bool_decide (c ∈ cs) then col y c else Null.
Proof. unfold pick. rewrite col_assign. unfold col at 2. by rewrite lookup_empty. Qed.
Lemma col_text x c s : col x c = Text s -> text x c = s.
Proof. unfold text. by intros ->. Qed.

Lemma eqv_true v w : eqv v w = true <-> v <> Null /\ v = w.
Proof. unfold eqv. rewrite andb_true_iff, !bool_decide_eq_true. done. Qed.
Lemma eqv_sym v w : eqv v w = eqv w v.
Proof. apply eq_true_iff_eq. rewrite !eqv_true. naive_solver. Qed.
Lemma eqv_text v s : eqv v (Text s) = true <-> v = Text s.
Proof. rewrite eqv_true. naive_solver. Qed.

Lemma lev_total v w : lev v w = true \/ lev w v = true.
Proof. destruct v, w; cbn; auto; [lia|apply String.leb_total]. Qed.
Lemma lev_trans u v w : lev u v = true -> lev v w = true -> lev u w = true.
Proof.
  destruct u, v, w; cbn; try done; [lia|]. intros H1 H2. apply Is_true_true. apply Is_true_true in H1, H2. change (String.le s s1). by transitivity s0.
Qed.
Lemma lev_antisym v w : lev v w = true -> lev w v = true -> v = w.
Proof. destruct v, w; cbn; try done; intros H1 H2; f_equal; [lia|by apply String.leb_antisym]. Qed.
(** Ordering by one column. *)
Lemma ordered_one c x y : ordered [(c, false)] x y <-> lev (col x c) (col y c) = true.
Proof.
  unfold ordered. cbn. case_bool_decide as E; [|done]. rewrite E. split; [|done]. intros _. by destruct (lev_total (col y c) (col y c)).
Qed.

Lemma matching_lookup p t k x : matching p t !! k = Some x <-> t !! k = Some x /\ p x = true.
Proof. apply map_lookup_filter_Some. Qed.
Lemma matching_dom p t k : k ∈ dom (matching p t) <-> exists x, t !! k = Some x /\ p x = true.
Proof. rewrite elem_of_dom. unfold is_Some. by setoid_rewrite matching_lookup. Qed.

Lemma updated_lookup p (f : Row -> Row) t k :
  ((f <$> matching p t) ∪ t) !! k = (fun x => if p x then f x else x) <$> t !! k.
Proof.
  destruct (t !! k) as [x|] eqn:E; simpl.
  - destruct (p x) eqn:Ep.
    + apply lookup_union_Some_l. rewrite lookup_fmap, (proj2 (matching_lookup p t k x)) by done. done.
    + rewrite lookup_union_r; [done|]. rewrite lookup_fmap. destruct (matching p t !! k) eqn:Em; [|done].
      apply matching_lookup in Em as [? ?]. congruence.
  - apply lookup_union_None. split; [|done]. rewrite lookup_fmap. destruct (matching p t !! k) eqn:Em; [|done].
    apply matching_lookup in Em as [? ?]. congruence.
Qed.

Lemma noError {A} (f : A -> option sqlerr) l : firstError f l = None <-> forall a, a ∈ l -> f a = None.
Proof.
  induction l as [|a l IH]; simpl; [split; [set_solver|done]|]. destruct (f a) eqn:E.
  - split; [done|]. intros H. specialize (H a). set_solver.
  - rewrite IH. set_solver.
Qed.

Lemma schemaOf_cases T : schemaOf T = plainTable \/ (T, schemaOf T) ∈ schemas.
Proof.
  unfold schemaOf. destruct (List.find _ _) as [[T' sc]|] eqn:E; [|by left]. right.
  apply find_some in E as [Hin Heq]. apply String.eqb_eq in Heq. simpl in Heq. subst T'. by apply list_elem_of_In.
Qed.
Lemma children_complete C fk : fk ∈ sc_fks (schemaOf C) -> (C, fk) ∈ children (fk_parent fk).
Proof.
  intros Hin. destruct (schemaOf_cases C) as [E|E]; [rewrite E in Hin; set_solver|].
  unfold children. apply list_elem_of_In, in_concat. eexists. split.
  - apply in_map_iff. exists (C, schemaOf C). split; [reflexivity|]. by apply list_elem_of_In.
  - apply in_map_iff. exists fk. split; [done|]. by apply list_elem_of_In, list_elem_of_filter.
Qed.
(** Only targets have a column that is set to NULL when its parent goes. *)
Lemma children_schema T C fk : (C, fk) ∈ children T -> fk ∈ sc_fks (schemaOf C) /\ fk_parent fk = T.
Proof.
  unfold children. intros H. apply list_elem_of_In, in_concat in H as (l & Hl & Hin). apply in_map_iff in Hl as ([T' sc] & <- & Hs).
  apply in_map_iff in Hin as (fk' & [= -> ->] & Hin). apply list_elem_of_In, list_elem_of_filter in Hin as [? Hin].
  split; [|done]. simpl in Hs, Hin. destruct_or! Hs; simplify_eq; exact Hin || done.
Qed.
Lemma setnull_schema C fk : fk ∈ sc_fks (schemaOf C) -> fk_action fk = SetNull -> C = "targets" /\ fk_col fk = "group_id".
Proof.
  destruct (schemaOf_cases C) as [E|E]; [rewrite E; set_solver|]. generalize (schemaOf C) E. intros sc Hin.
  apply list_elem_of_In in Hin. simpl in Hin. destruct_or! Hin; simplify_eq; simpl; intros Hfk Ha; set_unfold in Hfk; destruct_or? Hfk; by subst.
Qed.

(** ** The declared constraints hold in every state *)

Definition refsOk (d : db) : Prop :=
  forall C fk k x, fk ∈ sc_fks (schemaOf C) -> tbl d C !! k = Some x -> dangling d x fk = false.
(** Keys are the primary key, no two rows agree on the columns of a UNIQUE
    constraint, restricted columns are in their domain, references resolve. *)
Record dbOk (d : db) : Prop := MkDbOk {
  ok_key : forall T k x, tbl d T !! k = Some x -> col x (sc_pk (schemaOf T)) = Text k;
  ok_unique : forall T k x cs, tbl d T !! k = Some x -> cs ∈ sc_unique (schemaOf T) -> clash (tbl d T) k x cs = false;
  ok_notnull : forall T k x c, tbl d T !! k = Some x -> c ∈ sc_notnull (schemaOf T) -> isNull x c = false;
  ok_domain : forall T k x cd, tbl d T !! k = Some x -> cd ∈ sc_domain (schemaOf T) -> outOfDomain x cd = false;
  ok_refs : refsOk d }.

Lemma clash_spec t k x cs :
  clash t k x cs = true <-> exists k' y, k' <> k /\ t !! k' = Some y /\ forall c, c ∈ cs -> eqv (col x c) (col y c) = true.
Proof.
  unfold clash. rewrite existsb_exists. split.
  - intros ([k' y] & Hin & Hb). apply andb_true_iff in Hb as [Hne Hall]. simpl in *. exists k', y.
    apply negb_true_iff, String.eqb_neq in Hne. split_and!; [done|by apply elem_of_map_to_list, list_elem_of_In|].
    intros c Hc. rewrite forallb_forall in Hall. by apply Hall, list_elem_of_In.
  - intros (k' & y & Hne & Hy & Hall). exists (k', y). split; [by apply list_elem_of_In, elem_of_map_to_list|].
    apply andb_true_iff. split; [by apply negb_true_iff, String.eqb_neq|]. apply forallb_forall. intros c Hc. by apply Hall, list_elem_of_In.
Qed.

Lemma existsb_none {A} (f : A -> bool) l : existsb f l = false <-> forall a, a ∈ l -> f a = false.
Proof.
  rewrite <- not_true_iff_false, existsb_exists. setoid_rewrite <- list_elem_of_In. split.
  - intros H a Ha. apply not_true_iff_false. intros E. apply H. by exists a.
  - intros H (a & Ha & E). rewrite H in E by done. done.
Qed.
Lemma find_none_all {A} (f : A -> bool) l : List.find f l = None <-> forall a, a ∈ l -> f a = false.
Proof.
  induction l as [|a l IH]; simpl; [split; [set_solver|done]|]. destruct (f a) eqn:E.
  - split; [done|]. intros H. rewrite H in E by left. done.
  - rewrite IH. split; intros H b Hb; [apply elem_of_cons in Hb as [->|Hb]; auto|apply H; by right].
Qed.

Lemma check_none d T k x :
  check d T k x = None <-> (forall c, c ∈ sc_notnull (schemaOf T) -> isNull x c = false) /\
                           (forall cd, cd ∈ sc_domain (schemaOf T) -> outOfDomain x cd = false) /\
                           (forall cs, cs ∈ sc_unique (schemaOf T) -> clash (tbl d T) k x cs = false) /\
                           (forall fk, fk ∈ sc_fks (schemaOf T) -> dangling d x fk = false).
Proof.
  unfold check. rewrite <- (existsb_none (isNull x)), <- (existsb_none (outOfDomain x)), <- (find_none_all (clash (tbl d T) k x)), <- (existsb_none (dangling d x)).
  destruct (existsb (isNull x) _); [split; [done|intros (? & _); done]|].
  destruct (existsb (outOfDomain x) _); [split; [done|intros (_ & ? & _); done]|].
  destruct (List.find _ _); [split; [done|intros (_ & _ & ? & _); done]|].
  destruct (existsb _ _); split; naive_solver.
Qed.

(** A reference that resolved still does when no key of the parent was lost. *)
Lemma dangling_mono d d' x fk :
  (forall k, is_Some (tbl d (fk_parent fk) !! k) -> is_Some (tbl d' (fk_parent fk) !! k)) -> dangling d x fk = false -> dangling d' x fk = false.
Proof.
  intros H. unfold dangling. destruct (col x (fk_col fk)) as [| |p]; [done..|]. rewrite !bool_decide_eq_false.
  intros Hp. apply not_eq_None_Some, H, not_eq_None_Some, Hp.
Qed.

(** Rows change in one table only, its keys are kept, and each row of the
    result is an old one or passes the check. *)
Lemma dbOk_table d T t :
  dbOk d ->
  (forall k, is_Some (tbl d T !! k) -> is_Some (t !! k)) ->
  (forall k x, t !! k = Some x -> col x (sc_pk (schemaOf T)) = Text k) ->
  (forall k x, t !! k = Some x -> tbl d T !! k = Some x \/ check (<[T := t]> d) T k x = None) ->
  dbOk (<[T := t]> d).
Proof.
  intros Hok Hdom Hkey Hrow.
  assert (Hd : forall T' k, is_Some (tbl d T' !! k) -> is_Some (tbl (<[T := t]> d) T' !! k)).
  { intros T' k. destruct (decide (T = T')) as [<-|Hne]; [by rewrite tbl_insert; apply Hdom|by rewrite tbl_insert_ne]. }
  split.
  - intros T' k x. destruct (decide (T = T')) as [<-|Hne]; [rewrite tbl_insert; apply Hkey|rewrite tbl_insert_ne by done; apply Hok].
  - intros T' k x cs. destruct (decide (T = T')) as [<-|Hne]; [|rewrite tbl_insert_ne by done; apply Hok]. rewrite tbl_insert.
    intros Hx Hcs. destruct (Hrow k x Hx) as [Hold|Hc]; [|apply check_none in Hc as (_ & _ & Hu & _); rewrite tbl_insert in Hu; auto].
    apply not_true_iff_false. rewrite clash_spec. intros (k' & y & Hne & Hy & Hall). destruct (Hrow k' y Hy) as [Hold'|Hc].
    + pose proof (ok_unique d Hok T k x cs Hold Hcs) as Hf. apply not_true_iff_false in Hf. apply Hf, clash_spec. eauto.
    + apply check_none in Hc as (_ & _ & Hu & _). specialize (Hu cs Hcs). rewrite tbl_insert in Hu. apply not_true_iff_false in Hu.
      apply Hu, clash_spec. exists k, x. split_and!; [done..|]. intros c Hc. rewrite eqv_sym. auto.
  - intros T' k x c. destruct (decide (T = T')) as [<-|Hne]; [|rewrite tbl_insert_ne by done; apply Hok]. rewrite tbl_insert.
    intros Hx Hcd. destruct (Hrow k x Hx) as [Hold|Hc]; [by eapply Hok|]. apply check_none in Hc as (Hc & _). auto.
  - intros T' k x cd. destruct (decide (T = T')) as [<-|Hne]; [|rewrite tbl_insert_ne by done; apply Hok]. rewrite tbl_insert.
    intros Hx Hcd. destruct (Hrow k x Hx) as [Hold|Hc]; [by eapply Hok|]. apply check_none in Hc as (_ & Hc & _). auto.
  - intros C fk k x Hfk Hx. destruct (decide (T = C)) as [<-|Hne].
    + rewrite tbl_insert in Hx. destruct (Hrow k x Hx) as [Hold|Hc]; [|by apply check_none in Hc as (_ & _ & _ & Hc); auto].
      eapply dangling_mono; [intros; by apply Hd|]. by eapply Hok.
    + rewrite tbl_insert_ne in Hx by done. eapply dangling_mono; [intros; by apply Hd|]. by eapply Hok.
Qed.

Lemma inserted_ok d T x d' : dbOk d -> insert d T x = inr d' -> dbOk d'.
Proof.
  intros Hok. unfold insert. destruct (col x _) as [| |k] eqn:Ek; [done..|]. case_bool_decide as Hn; [done|].
  destruct (check _ _ _ _) eqn:Hc; [done|]. intros [= <-]. unfold put in *. apply dbOk_table; [done|..].
  - intros k' Hk. destruct (decide (k = k')) as [->|]; [by rewrite lookup_insert_eq|by rewrite lookup_insert_ne].
  - intros k' y. rewrite lookup_insert_Some. intros [[<- <-]|[_ Hy]]; [done|by eapply ok_key].
  - intros k' y. rewrite lookup_insert_Some. intros [[<- <-]|[_ Hy]]; [by right|by left].
Qed.

Lemma update_lookup d T p f n d' T' k :
  update d T p f = inr (n, d') ->
  tbl d' T' !! k = if bool_decide (T' = T) then (fun x => if p x then f x else x) <$> tbl d T !! k else tbl d T' !! k.
Proof.
  unfold update. destruct (firstError _ _); [done|]. intros [= _ <-]. case_bool_decide as E.
  - subst T'. by rewrite tbl_insert, updated_lookup.
  - by rewrite tbl_insert_ne.
Qed.

Lemma update_refused d T p f n d' k x :
  update d T p f = inr (n, d') -> tbl d T !! k = Some x -> p x = true -> wormChanged T x (f x) = false /\ check d' T k (f x) = None.
Proof.
  unfold update. destruct (firstError _ _) eqn:E; [done|]. intros [= _ <-] Hx Hp.
  rewrite noError in E. specialize (E (k, x)). rewrite elem_of_map_to_list, matching_lookup in E. specialize (E (conj Hx Hp)).
  unfold refuses in E. simpl in E. by destruct (wormChanged _ _ _).
Qed.

Lemma update_ok d T p f n d' :
  dbOk d -> (forall x, p x = true -> col (f x) (sc_pk (schemaOf T)) = col x (sc_pk (schemaOf T))) ->
  update d T p f = inr (n, d') -> dbOk d'.
Proof.
  intros Hok Hpk Hu. pose proof Hu as Hu'. unfold update in Hu'. destruct (firstError _ _); [done|]. injection Hu' as _ <-.
  apply dbOk_table; [done|..].
  - intros k [x Hx]. rewrite updated_lookup, Hx. by eexists.
  - intros k x. rewrite updated_lookup. intros Hx. apply fmap_Some in Hx as (y & Hy & ->).
    pose proof (ok_key d Hok T k y Hy). destruct (p y) eqn:Ep; [by rewrite Hpk|done].
  - intros k x. rewrite updated_lookup. intros Hx. apply fmap_Some in Hx as (y & Hy & ->). destruct (p y) eqn:Ep; [right|by left].
    by eapply update_refused.
Qed.

(** *** Deletion *)

(** [x'] is [x], up to a group reference that was set to NULL. *)
Definition nulled (T : string) (x x' : Row) : Prop :=
  forall c, col x' c = col x c \/ (T = "targets" /\ c = "group_id" /\ col x' c = Null).
Definition shrinks (d d' : db) : Prop :=
  forall T k x', tbl d' T !! k = Some x' -> exists x, tbl d T !! k = Some x /\ nulled T x x'.

Lemma nulled_refl T x : nulled T x x.
Proof. intros c. by left. Qed.
Lemma nulled_trans T x y z : nulled T x y -> nulled T y z -> nulled T x z.
Proof. intros H1 H2 c. destruct (H2 c) as [->|?]; [apply H1|by right]. Qed.
#[export] Instance shrinks_preorder : PreOrder shrinks.
Proof.
  split; [intros d T k x Hx; exists x; by split; [|apply nulled_refl]|].
  intros d1 d2 d3 H1 H2 T k z Hz. destruct (H2 T k z Hz) as (y & Hy & ?). destruct (H1 T k y Hy) as (x & Hx & ?).
  exists x. split; [done|by eapply nulled_trans].
Qed.

Lemma shrinks_filter d T (ks : gset string) : shrinks d (<[T := filter (fun kx : string * Row => kx.1 ∉ ks) (tbl d T)]> d).
Proof.
  intros T' k x. destruct (decide (T = T')) as [<-|Hne].
  - rewrite tbl_insert, map_lookup_filter_Some. intros [? _]. exists x. split; [done|apply nulled_refl].
  - rewrite tbl_insert_ne by done. intros ?. exists x. split; [done|apply nulled_refl].
Qed.

Lemma refersTo_nullRefs ks c x : refersTo ks c (nullRefs ks c x) = false.
Proof. unfold nullRefs. destruct (refersTo ks c x) eqn:E; [|done]. unfold refersTo. by rewrite col_insert. Qed.
Lemma shrinks_null d C fk ks :
  fk ∈ sc_fks (schemaOf C) -> fk_action fk = SetNull -> shrinks d (<[C := nullRefs ks (fk_col fk) <$> tbl d C]> d).
Proof.
  intros Hfk Ha T k x. destruct (decide (C = T)) as [<-|Hne].
  - rewrite tbl_insert, lookup_fmap, fmap_Some. intros (y & Hy & ->). exists y. split; [done|]. intros c. unfold nullRefs.
    destruct (refersTo _ _ _); [|by left]. destruct (setnull_schema C fk Hfk Ha) as [-> Hc].
    destruct (decide (fk_col fk = c)) as [<-|]; [right; by rewrite col_insert|left; by rewrite col_insert_ne].
  - rewrite tbl_insert_ne by done. intros ?. exists x. split; [done|apply nulled_refl].
Qed.

Lemma refersTo_nulled T ks c x x' : nulled T x x' -> refersTo ks c x = false -> refersTo ks c x' = false.
Proof. intros Hn. unfold refersTo. destruct (Hn c) as [->|(_ & _ & ->)]; done. Qed.

(** Enough fuel for the tables that depend on [T]. *)
Fixpoint deep (n : nat) (T : string) : bool :=
  match n with
  | O => false
  | S n => forallb (fun ck : string * fkey => match fk_action ck.2 with Cascade => deep n ck.1 | SetNull => true end) (children T)
  end.
Lemma deep_enough T : deep depth T = true.
Proof.
  assert (H : children T = [] \/ T = "runs" \/ T = "batches" \/ T = "inventory_groups").
  { unfold children, schemas. simpl. rewrite !filter_cons, !filter_nil. repeat (case_decide; simpl in *; subst; [by auto|]). by left. }
  destruct H as [H|[->|[->| ->]]]; [|reflexivity..]. unfold depth. cbn [deep]. by rewrite H.
Qed.

(** The fold over the dependents, one at a time. *)
Lemma dropChild_ind (P : db -> list (string * fkey) -> Prop) rm ks d l d' :
  P d [] ->
  (forall d1 done_ ck d2, ck ∈ l -> P d1 done_ -> dropChild rm ks (inr d1) ck = inr d2 -> P d2 (ck :: done_)) ->
  foldl (dropChild rm ks) (inr d) l = inr d' -> exists done_, P d' done_ /\ forall ck, ck ∈ l -> ck ∈ done_.
Proof.
  intros H0 Hs. cut (forall r done_ d, (forall ck, ck ∈ r -> ck ∈ l) -> P d done_ -> foldl (dropChild rm ks) (inr d) r = inr d' ->
    exists done', P d' done' /\ (forall ck, ck ∈ done_ -> ck ∈ done') /\ forall ck, ck ∈ r -> ck ∈ done').
  { intros H Hf. destruct (H l [] d ltac:(done) H0 Hf) as (done' & ? & _ & ?). eauto. }
  assert (Hinl : forall r e, foldl (dropChild rm ks) (inl e) r = inl e) by (intros r e; by induction r).
  induction r as [|ck r IH]; intros done_ d1 Hin HP Hf; cbn [foldl] in Hf.
  - injection Hf as <-. exists done_. split_and!; [done..|set_solver].
  - destruct (dropChild rm ks (inr d1) ck) as [e|d2] eqn:E; [by rewrite Hinl in Hf|].
    destruct (IH (ck :: done_) d2) as (done' & ? & Hd & ?); [set_solver|eapply Hs; [|done..]; set_solver|done|].
    exists done'. split_and!; [done|set_solver..].
Qed.

Lemma remove_shrinks n d T ks d' : remove n d T ks = inr d' -> shrinks d d'.
Proof.
  revert d T ks d'. induction n as [|n IH]; intros d T ks d'; cbn [remove]; [by intros [= <-]|].
  case_bool_decide; [by intros [= <-]|]. destruct (appendOnly T); [done|].
  destruct (foldl _ _ _) as [|d1] eqn:E; [done|]. intros [= <-]. etrans; [|apply shrinks_filter].
  apply (dropChild_ind (fun d1 _ => shrinks d d1)) in E as (_ & ? & _); [done|done|].
  intros d2 _ [C fk] d3 Hin Hs Hc. etrans; [exact Hs|]. unfold dropChild in Hc. cbn [fst snd] in Hc. destruct (fk_action fk) eqn:Ha.
  - by eapply IH.
  - injection Hc as <-. apply shrinks_null; [|done]. by apply children_schema in Hin as [? _].
Qed.

Lemma remove_refs n d T ks d' :
  refsOk d -> deep n T = true -> remove n d T ks = inr d' -> refsOk d' /\ forall k, k ∈ ks -> tbl d' T !! k = None.
Proof.
  revert d T ks d'. induction n as [|n IH]; intros d T ks d' Hrefs Hdeep; [done|]. cbn [remove].
  case_bool_decide as Hks; [intros [= <-]; split; [done|by subst; set_solver]|]. destruct (appendOnly T); [done|].
  destruct (foldl _ _ _) as [|d1] eqn:E; [done|]. intros [= <-].
  apply (dropChild_ind (fun d1 l => refsOk d1 /\ forall ck k x, ck ∈ l -> tbl d1 ck.1 !! k = Some x -> refersTo ks (fk_col ck.2) x = false)) in E
    as (done_ & (Hr & Hno) & Hall); [|split; [done|set_solver]|].
  - split; [|intros k Hk; rewrite tbl_insert; apply map_lookup_filter_None; right; intros x _; set_solver].
    intros C fk k x Hfk Hx. assert (Hx1 : tbl d1 C !! k = Some x).
    { destruct (decide (T = C)) as [<-|Hne]; [rewrite tbl_insert, map_lookup_filter_Some in Hx; by destruct Hx|by rewrite tbl_insert_ne in Hx]. }
    pose proof (Hr C fk k x Hfk Hx1) as Hd. unfold dangling in *. destruct (col x (fk_col fk)) as [| |p] eqn:Ep; [done..|].
    apply bool_decide_eq_false in Hd. apply bool_decide_eq_false. destruct (decide (fk_parent fk = T)) as [HT|HT]; [|by rewrite tbl_insert_ne].
    rewrite HT in *. rewrite tbl_insert. apply not_eq_None_Some in Hd as [y Hy]. apply not_eq_None_Some. exists y.
    apply map_lookup_filter_Some. split; [done|]. simpl. pose proof (children_complete C fk Hfk) as Hc. rewrite HT in Hc.
    specialize (Hno (C, fk) k x (Hall _ Hc) Hx1). unfold refersTo in Hno. simpl in Hno. rewrite Ep in Hno. by apply bool_decide_eq_false in Hno.
  - intros d2 l [C fk] d3 Hin (Hr2 & Hno2) Hc. apply children_schema in Hin as Hsc. destruct Hsc as [Hfk HT].
    unfold dropChild in Hc. cbn [fst snd] in Hc. destruct (fk_action fk) eqn:Ha.
    + pose proof (remove_shrinks _ _ _ _ _ Hc) as Hsh. apply IH in Hc as [Hr3 Hgone]; [|done|].
      * split; [done|]. intros ck k x Hck Hx. destruct (Hsh _ _ _ Hx) as (y & Hy & Hn). eapply refersTo_nulled; [exact Hn|].
        apply elem_of_cons in Hck as [->|Hck]; [|by eapply Hno2]. cbn [fst snd] in *. apply not_true_iff_false. intros Hry.
        rewrite Hgone in Hx; [done|]. apply matching_dom. eauto.
      * cbn [deep] in Hdeep. rewrite forallb_forall in Hdeep. specialize (Hdeep (C, fk)). cbn [fst snd] in Hdeep. rewrite Ha in Hdeep.
        apply Hdeep, list_elem_of_In, Hin.
    + injection Hc as <-. pose proof (shrinks_null d2 C fk ks Hfk Ha) as Hsh. split.
      * intros C' fk' k x Hfk' Hx. destruct (Hsh _ _ _ Hx) as (y & Hy & Hn). pose proof (Hr2 C' fk' k y Hfk' Hy) as Hd.
        eapply dangling_mono; [|instantiate (1 := d2)].
        -- intros k' [z Hz]. destruct (decide (C = fk_parent fk')) as [->|]; [rewrite tbl_insert, lookup_fmap, Hz; by eexists|by rewrite tbl_insert_ne].
        -- unfold dangling in *. destruct (Hn (fk_col fk')) as [->|(_ & _ & ->)]; done.
      * intros ck k x Hck Hx. destruct (Hsh _ _ _ Hx) as (y & Hy & Hn). apply elem_of_cons in Hck as [->|Hck].
        -- cbn [fst snd] in *. rewrite tbl_insert, lookup_fmap, fmap_Some in Hx. destruct Hx as (z & _ & ->). apply refersTo_nullRefs.
        -- eapply refersTo_nulled; [exact Hn|]. by eapply Hno2.
Qed.

(** The columns that keys, UNIQUE constraints, domains and triggers look at are
    not set to NULL. *)
Lemma targets_columns :
  sc_pk (schemaOf "targets") <> "group_id" /\ (forall cs, cs ∈ sc_unique (schemaOf "targets") -> "group_id" ∉ cs) /\ sc_domain (schemaOf "targets") = [] /\
  "group_id" ∉ sc_notnull (schemaOf "targets").
Proof. split_and!; [done| |done|cbn; set_solver]. intros cs Hcs. apply list_elem_of_singleton in Hcs as ->. set_solver. Qed.

Lemma shrinks_ok d d' : dbOk d -> shrinks d d' -> refsOk d' -> dbOk d'.
Proof.
  intros Hok Hs Hr. destruct targets_columns as (Hpk & Hun & Hdo & Hnn). split; [| | | |done].
  - intros T k x' Hx. destruct (Hs _ _ _ Hx) as (x & Hx0 & Hn). destruct (Hn (sc_pk (schemaOf T))) as [->|(-> & ? & _)]; [by eapply ok_key|done].
  - intros T k x' cs Hx Hcs. destruct (Hs _ _ _ Hx) as (x & Hx0 & Hn). pose proof (ok_unique d Hok T k x cs Hx0 Hcs) as Hf.
    apply not_true_iff_false in Hf. apply not_true_iff_false. rewrite clash_spec in *. intros (k' & y' & Hne & Hy & Hall).
    destruct (Hs _ _ _ Hy) as (y & Hy0 & Hm). apply Hf. exists k', y. split_and!; [done..|]. intros c Hc. specialize (Hall c Hc).
    apply eqv_true in Hall as [Hnnull Heq]. destruct (Hn c) as [E1|(_ & _ & E1)]; [|congruence].
    destruct (Hm c) as [E2|(_ & _ & E2)]; [|congruence]. apply eqv_true. split; congruence.
  - intros T k x' c Hx Hc. destruct (Hs _ _ _ Hx) as (x & Hx0 & Hn). pose proof (ok_notnull d Hok T k x c Hx0 Hc) as Hf.
    unfold isNull in *. destruct (Hn c) as [->|(-> & -> & _)]; done.
  - intros T k x' cd Hx Hcd. destruct (Hs _ _ _ Hx) as (x & Hx0 & Hn). pose proof (ok_domain d Hok T k x cd Hx0 Hcd) as Hf.
    unfold outOfDomain, text in *. destruct (Hn cd.1) as [->|(-> & _)]; [done|]. rewrite Hdo in Hcd. set_solver.
Qed.

Lemma delete_ok d T p n d' : dbOk d -> delete d T p = inr (n, d') -> dbOk d'.
Proof.
  intros Hok. unfold delete. destruct (remove _ _ _ _) as [|d1] eqn:E; [done|]. intros [= _ <-].
  apply (shrinks_ok d); [done|by eapply remove_shrinks|]. eapply remove_refs; [|apply deep_enough|exact E]. apply Hok.
Qed.

(** ** Append-only rows stay *)

Lemma remove_keeps n d T ks d' E : appendOnly E = true -> remove n d T ks = inr d' -> tbl d' E = tbl d E.
Proof.
  intros HE. revert d T ks d'. induction n as [|n IH]; intros d T ks d'; cbn [remove]; [by intros [= <-]|].
  case_bool_decide; [by intros [= <-]|]. destruct (appendOnly T) eqn:HT; [done|]. assert (T <> E) by congruence.
  destruct (foldl _ _ _) as [|d1] eqn:Ef; [done|]. intros [= <-]. rewrite tbl_insert_ne by done.
  apply (dropChild_ind (fun d1 _ => tbl d1 E = tbl d E)) in Ef as (_ & ? & _); [done|done|].
  intros d2 _ [C fk] d3 Hin Hs Hc. unfold dropChild in Hc. cbn [fst snd] in Hc. destruct (fk_action fk) eqn:Ha.
  - rewrite <- Hs. by eapply IH.
  - injection Hc as <-. rewrite tbl_insert_ne; [done|]. apply children_schema in Hin as [Hfk _].
    destruct (setnull_schema C fk Hfk Ha) as [-> _]. by intros <-.
Qed.

(** A row of an append-only table is there with the protected columns. *)
Definition kept (d d' : db) : Prop :=
  forall E k x, appendOnly E = true -> tbl d E !! k = Some x ->
  exists y, tbl d' E !! k = Some y /\ forall c, c ∈ sc_worm (schemaOf E) -> col y c = col x c.
#[export] Instance kept_preorder : PreOrder kept.
Proof.
  split; [intros d E k x _ Hx; by exists x|]. intros d1 d2 d3 H1 H2 E k x HE Hx.
  destruct (H1 E k x HE Hx) as (y & Hy & Hc). destruct (H2 E k y HE Hy) as (z & Hz & Hc'). exists z. split; [done|].
  intros c Hin. rewrite Hc' by done. by apply Hc.
Qed.

Lemma insert_lookup d T x d' : insert d T x = inr d' ->
  exists k, col x (sc_pk (schemaOf T)) = Text k /\ tbl d T !! k = None /\ check d' T k x = None /\ d' = put d T k x.
Proof.
  unfold insert. destruct (col x _) as [| |k]; [done..|]. case_bool_decide as Hn; [done|]. destruct (check _ _ _ _) eqn:Hc; [done|].
  intros [= <-]. exists k. split_and!; [done| |done..]. by apply eq_None_not_Some.
Qed.
Lemma put_lookup d T k x T' k' : tbl (put d T k x) T' !! k' = if bool_decide (T' = T /\ k' = k) then Some x else tbl d T' !! k'.
Proof.
  unfold put. case_bool_decide as E; [destruct E as [-> ->]; by rewrite tbl_insert, lookup_insert_eq|].
  destruct (decide (T = T')) as [<-|]; [|by rewrite tbl_insert_ne]. rewrite tbl_insert, lookup_insert_ne by naive_solver. done.
Qed.

Lemma insert_kept d T x d' : insert d T x = inr d' -> kept d d'.
Proof.
  intros H. apply insert_lookup in H as (k & _ & Hn & _ & ->). intros E k' y _ Hy. exists y. rewrite put_lookup.
  case_bool_decide as HE; [destruct HE as [-> ->]; congruence|done].
Qed.
Lemma update_kept d T p f n d' : update d T p f = inr (n, d') -> kept d d'.
Proof.
  intros Hu E k x HE Hx. rewrite (update_lookup _ _ _ _ _ _ _ _ Hu). case_bool_decide as ET; [|by exists x]. subst E.
  rewrite Hx. simpl. eexists. split; [done|]. destruct (p x) eqn:Ep; [|done].
  destruct (update_refused _ _ _ _ _ _ _ _ Hu Hx Ep) as [Hw _]. unfold wormChanged in Hw. rewrite existsb_none in Hw.
  intros c Hc. specialize (Hw c Hc). by apply negb_false_iff, bool_decide_eq_true in Hw.
Qed.
Lemma delete_kept d T p n d' : delete d T p = inr (n, d') -> kept d d'.
Proof.
  unfold delete. destruct (remove _ _ _ _) as [|d1] eqn:Er; [done|]. intros [= _ <-] E k x HE Hx. exists x.
  split; [|done]. by rewrite (remove_keeps _ _ _ _ _ E HE Er).
Qed.

(** ** Statements as steps *)

Inductive sqlStep (d d' : db) : Prop :=
| StepInsert T x : insert d T x = inr d' -> sqlStep d d'
| StepUpdate T p f n : (forall x, p x = true -> col (f x) (sc_pk (schemaOf T)) = col x (sc_pk (schemaOf T))) -> update d T p f = inr (n, d') -> sqlStep d d'
| StepDelete T p n : delete d T p = inr (n, d') -> sqlStep d d'.

Lemma sqlStep_ok d d' : sqlStep d d' -> dbOk d -> dbOk d'.
Proof. intros [T x H|T p f n Hp H|T p n H] Hok; [by eapply inserted_ok|by eapply update_ok|by eapply delete_ok]. Qed.
Lemma sqlStep_kept d d' : sqlStep d d' -> kept d d'.
Proof. intros [T x H|T p f n Hp H|T p n H]; [by eapply insert_kept|by eapply update_kept|by eapply delete_kept]. Qed.

Lemma steps_ok d d' : rtc sqlStep d d' -> dbOk d -> dbOk d'.
Proof. induction 1; eauto using sqlStep_ok. Qed.
Lemma steps_kept d d' : rtc sqlStep d d' -> kept d d'.
Proof. induction 1 as [|d1 d2 d3 H _ IH]; [done|]. etrans; [by eapply sqlStep_kept|done]. Qed.

Lemma upsert_step d T x cs d' : sc_pk (schemaOf T) ∉ cs -> upsert d T x cs = inr d' -> sqlStep d d'.
Proof.
  intros Hpk. unfold upsert. destruct (col x _) as [| |k]; [done..|]. destruct (tbl d T !! k); [|by apply StepInsert].
  destruct (update _ _ _ _) as [|[n d1]] eqn:Hu; [done|]. intros [= <-]. eapply StepUpdate; [|exact Hu].
  intros y _. cbn beta. by rewrite col_assign, bool_decide_eq_false_2.
Qed.

Lemma empty_ok : dbOk ∅.
Proof. split; unfold refsOk, tbl; intros; match goal with H : default ∅ (∅ !! _) !! _ = Some _ |- _ => rewrite lookup_empty in H; simpl in H; by rewrite lookup_empty in H end. Qed.

End Sql.
