(* ===== verification/Store.v ===== *)
(** * Store: the SQLite state store, statement by statement

    One definition per method of [SQLiteStore] (src/internal/state/sqlite.go,
    inventory_sqlite.go, trend_sqlite.go with trend.go, tenant_purge.go), each the
    SQL statement the method issues, run by the engine of [Sql]. An operation
    maps a database to its Go result and the database after it; a failed
    statement leaves the database as it was. The wall clock a method reads is
    its [now] argument. [json_extract] is SQLite's function of that name, used
    by the label filter of targets. Locks, approvals, traces, audits, runs and
    assignments are also modelled, with typed rows and interference, by the
    components that use them; here all tables share one schema.

    The theorems: no sequence of store operations breaks a declared constraint
    or loses evidence, a tenant purge removes exactly the runs it may, and the
    trend counts every run of the window once. *)

From Stdlib Require Import Lia.
From stdpp Require Import base gmap sets list strings sorting relations.
From S2P Require Import Prelude RunStatus Condition Sql.
Import RunStatus Sql.
Open Scope string_scope.
Open Scope list_scope.

Module Store.

Definition op (A : Type) : Type := db -> (goerr + A) * db.

Definition sqlError (what : string) (e : sqlerr) : goerr := EWrap what (EText (sqlText e)).
Definition notFound (what : string) : goerr := EText (what +:+ ": not found").

(** ** The shapes the methods share *)

(** INSERT of a struct's columns. *)
Definition execInsert (what T : string) (cols : list string) (r : option Row) : op unit := fun d =>
  match r with
  | None => (inl (EText ("state: create " +:+ what +:+ ": nil " +:+ what)), d)
  | Some x => match insert d T (pick cols x) with
              | inl e => (inl (sqlError ("state: create " +:+ what) e), d)
              | inr d' => (inr tt, d')
              end
  end.

(** UPDATE .. WHERE, with the number of rows affected. *)
Definition execCount (what T : string) (p : Row -> bool) (f : Row -> Row) : op nat := fun d =>
  match update d T p f with
  | inl e => (inl (sqlError what e), d)
  | inr (n, d') => (inr n, d')
  end.
(** .. where no row affected is an error, *)
Definition execFound (what T : string) (p : Row -> bool) (f : Row -> Row) : op unit := fun d =>
  match execCount what T p f d with
  | (inl e, d') => (inl e, d')
  | (inr O, d') => (inl (notFound what), d')
  | (inr _, d') => (inr tt, d')
  end.
(** .. and where it is the answer of a compare-and-set. *)
Definition execIf (what T : string) (p : Row -> bool) (f : Row -> Row) : op bool := fun d =>
  match execCount what T p f d with
  | (inl e, d') => (inl e, d')
  | (inr n, d') => (inr (0 <? n)%nat, d')
  end.
(** UPDATE of a struct's columns by id. *)
Definition execUpdate (what T : string) (cols : list string) (r : option Row) : op unit :=
  match r with
  | None => fun d => (inl (EText ("state: update " +:+ what +:+ ": nil " +:+ what)), d)
  | Some x => execFound ("state: update " +:+ what) T (isText "id" (text x "id")) (fun y => assign y x cols)
  end.

Definition execDelete (what T : string) (p : Row -> bool) : op nat := fun d =>
  match delete d T p with
  | inl e => (inl (sqlError ("state: delete " +:+ what) e), d)
  | inr (n, d') => (inr n, d')
  end.
Definition void {A} (o : op A) : op unit := fun d => let '(r, d') := o d in (match r with inl e => inl e | inr _ => inr tt end, d').

(** SELECT .. WHERE of at most one row: [(nil, nil)] when there is none. *)
Definition queryRow (T : string) (p : Row -> bool) : op (option Row) := fun d => (inr (head (select d T p [])), d).
Definition query (T : string) (p : Row -> bool) (keys : list (string * bool)) (limit : Z) : op (list Row) := fun d =>
  (inr (limited limit (select d T p keys)), d).
Definition queryPage (what T : string) (p : Row -> bool) (keys : list (string * bool)) (limit offset : Z) : op (list Row) := fun d =>
  (match paged limit offset (select d T p keys) with inl e => inl (sqlError what e) | inr l => inr l end, d).

Definition asc (c : string) : string * bool := (c, false).
Definition desc (c : string) : string * bool := (c, true).
Definition byId (id : string) : Row -> bool := isText "id" id.
Definition setCol (c : string) (v : value) (x : Row) : Row := <[c := v]> x.

(** ** Runs *)

Definition runColumns : list string :=
  ["workflow_name"; "template_name"; "params"; "plan_hash"; "plan_json"; "status"; "approval_status"; "approval_level";
   "updated_at"; "creator"; "incident_id"; "tenant_id"; "priority"].

Definition CreateRun (run : option Row) : op unit := execInsert "run" "runs" ("id" :: "created_at" :: runColumns) run.
Definition GetRun (id : string) : op (option Row) := queryRow "runs" (byId id).
Definition UpdateRun (run : option Row) : op unit := execUpdate "run" "runs" runColumns run.

(** One transaction: the status read is that of the row overwritten. *)
Definition UpdateRunReturningPrevStatus (run : option Row) : op string := fun d =>
  match run with
  | None => (inl (EText "state: update run: nil run"), d)
  | Some r =>
      match select d "runs" (byId (text r "id")) [] with
      | [] => (inl (notFound "state: update run"), d)
      | old :: _ => match UpdateRun run d with
                    | (inl e, _) => (inl e, d)
                    | (inr _, d') => (inr (text old "status"), d')
                    end
      end
  end.

Definition UpdateRunStatusIf (id from to : string) (updatedAt : Z) : op bool :=
  execIf "state: update run status" "runs" (all [byId id; isText "status" from])
    (fun x => setCol "updated_at" (Int updatedAt) (setCol "status" (Text to) x)).
Definition UpdateRunApprovalStatusIf (id from to approvalStatus : string) (updatedAt : Z) : op bool :=
  execIf "state: update run approval status" "runs" (all [byId id; isText "status" from])
    (fun x => setCol "updated_at" (Int updatedAt) (setCol "approval_status" (Text approvalStatus) (setCol "status" (Text to) x))).
Definition UpdateRunPlan (id planJSON planHash : string) (updatedAt : Z) : op unit :=
  execFound "state: update run plan" "runs" (byId id)
    (fun x => setCol "updated_at" (Int updatedAt) (setCol "plan_hash" (Text planHash) (setCol "plan_json" (Text planJSON) x))).
Definition MarkNonTerminalSteps (runID marker : string) : op nat :=
  execCount "state: mark non-terminal steps" "steps"
    (all [isText "run_id" runID; fun x => isText "status" "running" x || isText "status" "pending" x]) (setCol "status" (Text marker)).

Record RunFilter := MkRunFilter {
  rf_Status : string; rf_WorkflowName : string; rf_TemplateName : string; rf_Creator : string; rf_IncidentID : string;
  rf_Limit : Z; rf_Offset : Z; rf_TenantID : string }.
Definition ListRuns (f : RunFilter) : op (list Row) :=
  queryPage "state: list runs" "runs"
    (all [eqIf "status" (rf_Status f); eqIf "workflow_name" (rf_WorkflowName f); eqIf "template_name" (rf_TemplateName f);
          eqIf "creator" (rf_Creator f); eqIf "incident_id" (rf_IncidentID f); eqIf "tenant_id" (rf_TenantID f)])
    [desc "created_at"] (rf_Limit f) (rf_Offset f).
Definition DeleteRun (id : string) : op unit := void (execDelete "run" "runs" (byId id)).

(** ** Batches and steps *)

Definition batchColumns : list string :=
  ["run_id"; "batch_no"; "status"; "total_hosts"; "succeeded"; "failed"; "started_at"; "completed_at"; "tenant_id"].
Definition CreateBatch (b : option Row) : op unit := execInsert "batch" "batches" ("id" :: batchColumns) b.
Definition GetBatch (id : string) : op (option Row) := queryRow "batches" (byId id).
Definition UpdateBatch (b : option Row) : op unit := execUpdate "batch" "batches" batchColumns b.
Record BatchFilter := MkBatchFilter { bf_RunID : string; bf_Status : string; bf_Limit : Z; bf_TenantID : string }.
Definition ListBatches (f : BatchFilter) : op (list Row) :=
  query "batches" (all [eqIf "run_id" (bf_RunID f); eqIf "status" (bf_Status f); eqIf "tenant_id" (bf_TenantID f)]) [asc "batch_no"] (bf_Limit f).
Definition DeleteBatch (id : string) : op unit := void (execDelete "batch" "batches" (byId id)).

Definition stepColumns : list string :=
  ["run_id"; "batch_id"; "host"; "step_name"; "action"; "status"; "exit_code"; "stdout"; "stderr"; "duration_ms"; "started_at";
   "completed_at"; "tenant_id"].
Definition CreateStep (s : option Row) : op unit := execInsert "step" "steps" ("id" :: stepColumns) s.
Definition GetStep (id : string) : op (option Row) := queryRow "steps" (byId id).
Definition UpdateStep (s : option Row) : op unit := execUpdate "step" "steps" stepColumns s.
Record StepFilter := MkStepFilter {
  sf_RunID : string; sf_BatchID : string; sf_Host : string; sf_Status : string; sf_Limit : Z; sf_TenantID : string }.
Definition ListSteps (f : StepFilter) : op (list Row) :=
  query "steps" (all [eqIf "run_id" (sf_RunID f); eqIf "batch_id" (sf_BatchID f); eqIf "host" (sf_Host f); eqIf "status" (sf_Status f);
                      eqIf "tenant_id" (sf_TenantID f)]) [asc "started_at"] (sf_Limit f).
Definition DeleteStep (id : string) : op unit := void (execDelete "step" "steps" (byId id)).

(** ** Traces *)

Definition ErrTraceExists := "state: trace already exists".
Definition isUniqueConstraint (e : sqlerr) : bool := match e with UniqueFailed _ _ => true | _ => false end.

Definition traceColumns : list string := ["run_id"; "event"; "actor"; "detail"; "prev_hash"; "curr_hash"; "timestamp"; "tenant_id"].
Definition CreateTrace (t : option Row) : op unit := fun d =>
  match t with
  | None => (inl (EText "state: create trace: nil trace"), d)
  | Some x => match insert d "trace" (pick ("id" :: traceColumns) x) with
              | inl e => (inl (if isUniqueConstraint e then EWrap "state: create trace" (ESentinel ErrTraceExists)
                               else sqlError "state: create trace" e), d)
              | inr d' => (inr tt, d')
              end
  end.
Definition GetTrace (id : string) : op (option Row) := queryRow "trace" (byId id).
Definition UpdateTrace (t : option Row) : op unit := execUpdate "trace" "trace" traceColumns t.
Definition UpdateTraceChecksum (id checksum : string) : op unit :=
  if String.eqb id "" then fun d => (inl (EText "state: update trace checksum: empty id"), d)
  else if String.eqb checksum "" then fun d => (inl (EText "state: update trace checksum: empty checksum"), d)
  else execFound "state: update trace checksum" "trace" (all [byId id; isText "curr_hash" ""]) (setCol "curr_hash" (Text checksum)).
Definition UpdateTraceChain (id prevHash currHash : string) : op unit :=
  execFound "state: update trace chain" "trace" (byId id) (fun x => setCol "curr_hash" (Text currHash) (setCol "prev_hash" (Text prevHash) x)).
Record TraceFilter := MkTraceFilter { tf_RunID : string; tf_Event : string; tf_Limit : Z; tf_Offset : Z; tf_TenantID : string }.
(** The offset is used only next to a limit. *)
Definition ListTraces (f : TraceFilter) : op (list Row) :=
  queryPage "state: list traces" "trace" (all [eqIf "run_id" (tf_RunID f); eqIf "event" (tf_Event f); eqIf "tenant_id" (tf_TenantID f)])
    [asc "timestamp"; asc "id"] (tf_Limit f) (if (0 <? tf_Limit f)%Z then tf_Offset f else 0).
Definition DeleteTrace (id : string) : op unit := void (execDelete "trace" "trace" (byId id)).

(** ** Approvals *)

Definition approvalColumns : list string :=
  ["run_id"; "level"; "approver"; "status"; "comment"; "timeout_at"; "acted_at"; "plan_hash"; "tenant_id"].
Definition CreateApproval (a : option Row) : op unit := execInsert "approval" "approvals" ("id" :: "revision" :: approvalColumns) a.
Definition GetApproval (id : string) : op (option Row) := queryRow "approvals" (byId id).
(** SET .., revision = revision + 1. *)
Definition bumpRevision (a y : Row) : Row := setCol "revision" (Int (int y "revision" + 1)) (assign y a approvalColumns).
Definition UpdateApproval (a : option Row) : op unit :=
  match a with
  | None => fun d => (inl (EText "state: update approval: nil approval"), d)
  | Some x => execFound "state: update approval" "approvals" (byId (text x "id")) (bumpRevision x)
  end.
Definition UpdateApprovalIfPending (a : option Row) : op bool :=
  match a with
  | None => fun d => (inl (EText "state: update approval if pending: nil approval"), d)
  | Some x => execIf "state: update approval if pending" "approvals"
                (all [byId (text x "id"); isText "status" "pending"; fun y => eqv (col y "revision") (col x "revision")]) (bumpRevision x)
  end.
Record ApprovalFilter := MkApprovalFilter { af_RunID : string; af_Level : string; af_Status : string; af_Limit : Z; af_TenantID : string }.
Definition ListApprovals (f : ApprovalFilter) : op (list Row) :=
  query "approvals" (all [eqIf "run_id" (af_RunID f); eqIf "level" (af_Level f); eqIf "status" (af_Status f); eqIf "tenant_id" (af_TenantID f)])
    [asc "timeout_at"] (af_Limit f).
Definition DeleteApproval (id : string) : op unit := void (execDelete "approval" "approvals" (byId id)).

(** ** Locks *)

Definition lockColumns : list string := ["scope"; "owner"; "ttl_seconds"; "acquired_at"; "expires_at"].
Definition CreateLock (l : option Row) : op unit := execInsert "lock" "locks" ("id" :: lockColumns) l.
Definition GetLock (id : string) : op (option Row) := queryRow "locks" (byId id).
Definition GetLockByScope (scope : string) : op (option Row) := queryRow "locks" (isText "scope" scope).
Definition UpdateLock (l : option Row) : op unit := execUpdate "lock" "locks" lockColumns l.
Definition intLe (c : string) (n : Z) (x : Row) : bool := match col x c with Int m => (m <=? n)%Z | _ => false end.
Definition intLt (c : string) (n : Z) (x : Row) : bool := match col x c with Int m => (m <? n)%Z | _ => false end.
Definition UpdateLockOwnedBy (id owner : string) (ttlSeconds now : Z) : op nat :=
  execCount "state: update lock owned by" "locks" (all [byId id; intLe "expires_at" now])
    (fun x => setCol "expires_at" (Int (now + wrap64 (ttlSeconds * 1000000000)))
                (setCol "acquired_at" (Int now) (setCol "ttl_seconds" (Int ttlSeconds) (setCol "owner" (Text owner) x)))).
Definition ListLocks : op (list Row) := query "locks" (all []) [asc "expires_at"] 0.
Definition DeleteLock (id : string) : op unit := void (execDelete "lock" "locks" (byId id)).
Definition DeleteLockByIDAndOwner (id owner : string) : op bool := fun d =>
  match execDelete "lock" "locks" (all [byId id; isText "owner" owner]) d with
  | (inl e, d') => (inl e, d')
  | (inr n, d') => (inr (0 <? n)%nat, d')
  end.
Definition DeleteExpiredLocks (now : Z) : op nat := execDelete "expired locks" "locks" (intLt "expires_at" now).

(** ** Credentials *)

Definition credentialColumns : list string := ["name"; "type"; "encrypted_data"; "created_at"; "rotated_at"; "tags"; "tenant_id"].
Definition CreateCredential (c : option Row) : op unit := execInsert "credential" "credentials" ("id" :: credentialColumns) c.
Definition GetCredential (id : string) : op (option Row) := queryRow "credentials" (byId id).
Definition GetCredentialByName (name : string) : op (option Row) := queryRow "credentials" (isText "name" name).
Definition UpdateCredential (c : option Row) : op unit := execUpdate "credential" "credentials" credentialColumns c.
Definition ListCredentials : op (list Row) := query "credentials" (all []) [asc "name"] 0.
Definition DeleteCredential (id : string) : op unit := void (execDelete "credential" "credentials" (byId id)).

(** ** Assignments *)

Definition AssignStatePending := "pending".
Definition AssignmentStateExecuting := "executing".
Definition assignResultOrder : list string := ["completed"; "failed"; "rolled_back"].
Definition isAssignResult (name : string) : bool := inSet assignResultOrder name.

Definition assignmentColumns : list string := ["run_id"; "owner_node"; "epoch"; "state"; "result"; "assigned_at"; "updated_at"; "tenant_id"].
Definition CreateAssignment (now : Z) (a : option Row) : op unit := fun d =>
  match a with
  | None => (inl (EText "state: create assignment: nil assignment"), d)
  | Some x => execInsert "assignment" "run_assignment" assignmentColumns
                (Some (setCol "updated_at" (Int now) (setCol "assigned_at" (Int now) x))) d
  end.
Definition ofRun (runID : string) : Row -> bool := isText "run_id" runID.
Definition atEpoch (epoch : Z) (x : Row) : bool := eqv (col x "epoch") (Int epoch).
Definition GetAssignment (runID : string) : op (option Row) := queryRow "run_assignment" (ofRun runID).
Definition UpdateAssignmentStateIf (now : Z) (runID : string) (epoch : Z) (expected next : string) : op bool :=
  execIf "state: update assignment" "run_assignment" (all [ofRun runID; atEpoch epoch; isText "state" expected])
    (fun x => setCol "updated_at" (Int now) (setCol "state" (Text next) x)).
Definition UpdateAssignmentState (now : Z) (runID next : string) : op bool :=
  execIf "state: update assignment" "run_assignment"
    (all [ofRun runID; fun x => isText "state" AssignStatePending x || isText "state" AssignmentStateExecuting x])
    (fun x => setCol "updated_at" (Int now) (setCol "state" (Text next) x)).
(** SET owner_node, epoch = epoch + 1, state = pending, result = '', updated_at. *)
Definition repoint (now : Z) (newNode : string) (x : Row) : Row :=
  setCol "updated_at" (Int now) (setCol "result" (Text "") (setCol "state" (Text AssignStatePending)
    (setCol "epoch" (Int (int x "epoch" + 1)) (setCol "owner_node" (Text newNode) x)))).
Definition Reassign (now : Z) (runID : string) (prevEpoch : Z) (newNode : string) : op bool :=
  execIf "state: reassign" "run_assignment" (all [ofRun runID; atEpoch prevEpoch]) (repoint now newNode).
Definition ReclaimAssignment (now : Z) (runID : string) (epoch : Z) (newNode : string) : op bool :=
  execIf "state: reclaim assignment" "run_assignment" (all [ofRun runID; atEpoch epoch; isText "state" AssignStatePending]) (repoint now newNode).
Record AssignmentFilter := MkAssignmentFilter {
  nf_RunID : string; nf_OwnerNode : string; nf_State : string; nf_ExcludeStates : list string; nf_Limit : Z; nf_TenantID : string }.
Definition ListAssignments (f : AssignmentFilter) : op (list Row) :=
  query "run_assignment" (all [eqIf "run_id" (nf_RunID f); eqIf "owner_node" (nf_OwnerNode f); eqIf "state" (nf_State f);
                               fun x => negb (inSet (nf_ExcludeStates f) (text x "state")); eqIf "tenant_id" (nf_TenantID f)])
    [asc "assigned_at"] (nf_Limit f).
Definition DeleteAssignment (runID : string) : op unit := void (execDelete "assignment" "run_assignment" (ofRun runID)).
Definition SetAssignmentResult (now : Z) (runID : string) (epoch : Z) (result : string) : op unit :=
  if negb (isAssignResult result) then fun d => (inl (EText ("state: set result: " +:+ result +:+ " is not an assignment result")), d)
  else void (execCount "state: set result" "run_assignment" (all [ofRun runID; atEpoch epoch])
               (fun x => setCol "updated_at" (Int now) (setCol "result" (Text result) x))).

(** Only PostgreSQL has the table; reading a missing table answers no rows. *)
Definition ListClusterNodes : op (list Row) := query "cluster_nodes" (all []) [asc "id"] 0.

(** SELECT state, owner_node, COUNT(all) .. GROUP BY, accumulated. *)
Record AssignmentSummary := MkAssignmentSummary { as_Counts : gmap string nat; as_NodeLoad : gmap string nat; as_TotalActive : nat }.
Definition bump (m : gmap string nat) (k : string) : gmap string nat := <[k := S (default 0 (m !! k))]> m.
Definition tallyAssignment (s : AssignmentSummary) (x : Row) : AssignmentSummary :=
  let st := text x "state" in
  let counts := bump (as_Counts s) st in
  if String.eqb st AssignStatePending || String.eqb st AssignmentStateExecuting
  then MkAssignmentSummary counts (bump (as_NodeLoad s) (text x "owner_node")) (S (as_TotalActive s))
  else MkAssignmentSummary counts (as_NodeLoad s) (as_TotalActive s).
Definition assignmentSummary : op AssignmentSummary := fun d =>
  (inr (foldl tallyAssignment (MkAssignmentSummary ∅ ∅ 0) (select d "run_assignment" (all []) [])), d).

Definition batchDoneStates : list string := ["completed"; "done"].
Record BatchSummary := MkBatchSummary { bs_Batches : list Row; bs_CurrentBatchNo : Z; bs_TotalBatches : nat; bs_DoneBatches : nat }.
Definition batchProgress : list string := ["batch_no"; "status"; "total_hosts"; "succeeded"; "failed"].
Definition isDone (x : Row) : bool := inSet batchDoneStates (text x "status").
(** [CurrentBatchNo] is set while it is 0, by the first batch that is not done. *)
Definition tallyBatch (s : BatchSummary) (x : Row) : BatchSummary :=
  MkBatchSummary (bs_Batches s ++ [pick batchProgress x])
    (if (bs_CurrentBatchNo s =? 0)%Z && negb (isDone x) then int x "batch_no" else bs_CurrentBatchNo s)
    (bs_TotalBatches s) (if isDone x then S (bs_DoneBatches s) else bs_DoneBatches s).
Definition batchSummary (runID : string) : op BatchSummary := fun d =>
  let s := foldl tallyBatch (MkBatchSummary [] 0 0 0) (select d "batches" (isText "run_id" runID) [asc "batch_no"]) in
  (inr (MkBatchSummary (bs_Batches s) (bs_CurrentBatchNo s) (length (bs_Batches s)) (bs_DoneBatches s)), d).

(** ** The audit log *)

Definition auditColumns : list string :=
  ["id"; "run_id"; "action"; "actor"; "target"; "result"; "timestamp"; "tenant_id"; "prev_hash"; "curr_hash"].
Definition CreateAudit (a : option Row) : op unit := execInsert "audit" "audit" auditColumns a.
Definition GetAudit (id : string) : op (option Row) := queryRow "audit" (byId id).
Definition UpdateAuditChain (id prevHash currHash : string) : op unit :=
  execFound "state: update audit chain" "audit" (byId id) (fun x => setCol "curr_hash" (Text currHash) (setCol "prev_hash" (Text prevHash) x)).
Record AuditFilter := MkAuditFilter {
  uf_RunID : string; uf_Action : string; uf_Actor : string; uf_Target : string; uf_Limit : Z; uf_Offset : Z; uf_TenantID : string }.
Definition ListAudits (f : AuditFilter) : op (list Row) :=
  queryPage "state: list audits" "audit"
    (all [eqIf "run_id" (uf_RunID f); eqIf "action" (uf_Action f); eqIf "actor" (uf_Actor f); eqIf "target" (uf_Target f);
          eqIf "tenant_id" (uf_TenantID f)]) [desc "timestamp"] (uf_Limit f) (uf_Offset f).
Definition DefaultAuditChainPageSize : Z := 1000.
(** The cursor is the (timestamp, id) of the last row read. *)
Definition after (cursor : option (Z * string)) (x : Row) : bool :=
  match cursor with
  | None => true
  | Some (ts, id) => (ts <? int x "timestamp")%Z || ((int x "timestamp" =? ts)%Z && negb (String.leb (text x "id") id))
  end.
Definition ListAuditChainPage (cursor : option (Z * string)) (limit : Z) (tenantID : string) : op (list Row) :=
  query "audit" (all [after cursor; eqIf "tenant_id" tenantID]) [asc "timestamp"; asc "id"]
    (if (limit <=? 0)%Z then DefaultAuditChainPageSize else limit).

(** ** Inventory *)

Definition groupColumns : list string := ["name"; "parent_id"; "tenant_id"].
(** A zero creation time is replaced by the clock. *)
Definition stampCreated (now : Z) (x : Row) : Row := if (int x "created_at" =? 0)%Z then setCol "created_at" (Int now) x else x.
Definition UpsertInventoryGroup (now : Z) (g : Row) : op unit := fun d =>
  match upsert d "inventory_groups" (pick ("id" :: "created_at" :: groupColumns) (stampCreated now g)) groupColumns with
  | inl e => (inl (sqlError "state: upsert inventory group" e), d)
  | inr d' => (inr tt, d')
  end.
(** A NULL parent reads as the empty string. *)
Definition scanGroup (x : Row) : Row := setCol "parent_id" (Text (text x "parent_id")) x.
Definition mapRow (f : Row -> Row) (o : op (option Row)) : op (option Row) := fun d =>
  let '(r, d') := o d in (match r with inl e => inl e | inr x => inr (f <$> x) end, d').
Definition mapRows (f : Row -> Row) (o : op (list Row)) : op (list Row) := fun d =>
  let '(r, d') := o d in (match r with inl e => inl e | inr l => inr (map f l) end, d').
Definition GetInventoryGroup (id : string) : op (option Row) := mapRow scanGroup (queryRow "inventory_groups" (byId id)).
Definition GetInventoryGroupByName (name : string) : op (option Row) := mapRow scanGroup (queryRow "inventory_groups" (isText "name" name)).
Definition ListInventoryGroups : op (list Row) := mapRows scanGroup (query "inventory_groups" (all []) [asc "name"] 0).
Definition DeleteInventoryGroup (id : string) : op unit := void (execDelete "inventory group" "inventory_groups" (byId id)).

Definition ErrDuplicateTarget := "state: target address already in use".
Definition targetColumns : list string :=
  ["hostname"; "port"; "channel_type"; "credential_ref"; "labels"; "group_id"; "status"; "reachable"; "last_checked_at"; "tenant_id"].
(** An empty group id is bound as NULL. *)
Definition bindGroup (t : Row) : Row := if String.eqb (text t "group_id") "" then setCol "group_id" Null t else t.
Definition UpsertTarget (now : Z) (t : Row) : op unit := fun d =>
  match upsert d "targets" (pick ("id" :: "created_at" :: targetColumns) (bindGroup (stampCreated now t))) targetColumns with
  | inl e => (inl (if Contains (sqlText e) "UNIQUE constraint failed: targets.hostname"
                   then EWrap "state: upsert target" (ESentinel ErrDuplicateTarget)
                   else sqlError "state: upsert target" e), d)
  | inr d' => (inr tt, d')
  end.
Definition scanTarget (x : Row) : Row := setCol "group_id" (Text (text x "group_id")) x.
Definition GetTarget (id : string) : op (option Row) := mapRow scanTarget (queryRow "targets" (byId id)).
Definition FindTargetByAddress (hostname : string) (port : Z) : op (option Row) :=
  mapRow scanTarget (queryRow "targets" (all [isText "hostname" hostname; fun x => eqv (col x "port") (Int port)])).
Definition UpdateTargetStatus (id status : string) : op unit :=
  execFound "state: update target status" "targets" (byId id) (setCol "status" (Text status)).
Definition SetTargetReachability (id : string) (reachable : bool) (at_ : Z) : op unit :=
  execFound "state: set target reachability" "targets" (byId id)
    (fun x => setCol "last_checked_at" (Int at_) (setCol "reachable" (Int (if reachable then 1 else 0)) x)).
Definition DeleteTarget (id : string) : op unit := void (execDelete "target" "targets" (byId id)).
Definition CountTargetsInGroup (groupID : string) : op nat := fun d => (inr (length (select d "targets" (isText "group_id" groupID) [])), d).

Section targets.
Context (json_extract : string -> string -> value).
Record TargetFilter := MkTargetFilter {
  gf_GroupID : string; gf_Status : string; gf_Labels : list (string * string); gf_Limit : Z; gf_Offset : Z; gf_TenantID : string }.
(** [gf_Labels] holds the JSON path of each label with its value. *)
Definition hasLabels (ls : list (string * string)) (x : Row) : bool :=
  forallb (fun l => eqv (json_extract (text x "labels") l.1) (Text l.2)) ls.
Definition ListTargets (f : TargetFilter) : op (list Row) :=
  mapRows scanTarget (queryPage "state: list targets" "targets"
    (all [eqIf "group_id" (gf_GroupID f); eqIf "status" (gf_Status f); hasLabels (gf_Labels f); eqIf "tenant_id" (gf_TenantID f)])
    [asc "hostname"; asc "port"] (gf_Limit f) (gf_Offset f)).
End targets.

(** ** The trend of run outcomes *)

Definition OutcomeSuccess := "success".
Definition OutcomeFailed := "failed".
Definition OutcomeRolledBack := "rolled_back".
Definition OutcomeActive := "active".
Definition OutcomeStopped := "stopped".
Definition OutcomeOf (status : string) : string :=
  if inSet [StatusCompleted] status then OutcomeSuccess
  else if inSet [StatusFailed; StatusInterrupted; StatusRollbackIncomplete] status then OutcomeFailed
  else if inSet [StatusRolledBack; StatusRolledBackPartial] status then OutcomeRolledBack
  else if inSet [StatusRunning; StatusApproved; StatusPaused; StatusPending; StatusPlanned; StatusDraft] status then OutcomeActive
  else if inSet [StatusCancelled; StatusRejected; StatusArchived] status then OutcomeStopped
  else OutcomeActive.

Record RunTrendFilter := MkRunTrendFilter { wf_Days : Z; wf_Env : string; wf_TenantID : string; wf_OffsetMinutes : Z; wf_Limit : Z }.
Definition DefaultRunTrendDays : Z := 14.
Definition DefaultRunTrendLimit : Z := 20000.
Definition MaxRunTrendDays : Z := 365.
(** A day is the number of its local midnight since the epoch; the bucket key
    the code formats is that date. *)
Record RunTrendBucket := MkBucket { tb_Day : Z; tb_Total : nat; tb_Outcomes : gmap string nat }.

Definition nsPerDay : Z := 86400 * 1000000000.
Definition nsPerMinute : Z := 60 * 1000000000.
Definition dayKey (t offsetMinutes : Z) : Z := ((t - offsetMinutes * nsPerMinute) / nsPerDay)%Z.
Definition startOfWindow (now days offsetMinutes : Z) : Z := ((dayKey now offsetMinutes - (days - 1)) * nsPerDay + offsetMinutes * nsPerMinute)%Z.
Definition clampDays (days : Z) : Z :=
  let d := if (days <=? 0)%Z then DefaultRunTrendDays else days in if (MaxRunTrendDays <? d)%Z then MaxRunTrendDays else d.

(** The limit is one more than the cap, so that hitting it shows. *)
Definition runTrendQuery (f : RunTrendFilter) (start : Z) : op (list Row * bool) := fun d =>
  let limit := if (wf_Limit f <=? 0)%Z then DefaultRunTrendLimit else wf_Limit f in
  let out := limited (limit + 1) (select d "runs"
    (all [fun x => negb (intLt "created_at" start x); eqIf "incident_id" (wf_Env f); eqIf "tenant_id" (wf_TenantID f)]) [desc "created_at"]) in
  let truncated := (0 <? wf_Limit f)%Z && (wf_Limit f <? Z.of_nat (length out))%Z in
  (inr (if truncated then take (Z.to_nat (wf_Limit f)) out else out, truncated), d).

Definition addTo (b : RunTrendBucket) (r : Row) : RunTrendBucket :=
  MkBucket (tb_Day b) (S (tb_Total b)) (bump (tb_Outcomes b) (OutcomeOf (text r "status"))).
Definition emptyBuckets (start days offsetMinutes : Z) : list RunTrendBucket :=
  map (fun i => MkBucket (dayKey (start + Z.of_nat i * nsPerDay) offsetMinutes) 0 ∅) (seq 0 (Z.to_nat days)).
Definition bucketRun (start offsetMinutes : Z) (bs : list RunTrendBucket) (r : Row) : list RunTrendBucket :=
  if (int r "created_at" <? start)%Z then bs
  else map (fun b => if (tb_Day b =? dayKey (int r "created_at") offsetMinutes)%Z then addTo b r else b) bs.
Definition BucketRuns (runs : list Row) (days offsetMinutes now : Z) : list RunTrendBucket :=
  let days := clampDays days in
  let start := startOfWindow now days offsetMinutes in
  foldl (bucketRun start offsetMinutes) (emptyBuckets start days offsetMinutes) runs.
Definition RunTrend (now : Z) (f : RunTrendFilter) : op (list RunTrendBucket * bool) := fun d =>
  let days := clampDays (wf_Days f) in
  match runTrendQuery f (startOfWindow now days (wf_OffsetMinutes f)) d with
  | (inl e, d') => (inl e, d')
  | (inr (runs, truncated), d') => (inr (BucketRuns runs days (wf_OffsetMinutes f) now, truncated), d')
  end.

(** ** Purging a deleted tenant *)

Record TenantPurgeReport := MkPurge {
  pr_RunsRemoved : nat; pr_ApprovalsRemoved : nat; pr_AssignmentsRemoved : nat; pr_RunsHeldTrace : nat; pr_RunsHeldActive : nat }.
Definition NothingRemoved (r : TenantPurgeReport) : bool :=
  (pr_RunsRemoved r =? 0)%nat && (pr_ApprovalsRemoved r =? 0)%nat && (pr_AssignmentsRemoved r =? 0)%nat.

Definition traceCount (d : db) (runID : string) : nat := length (select d "trace" (isText "run_id" runID) []).
(** The predicate of the count and the deletes. *)
Definition purgeable (d : db) (tenantID : string) (x : Row) : bool :=
  isText "tenant_id" tenantID x && inSet Terminal (text x "status") && (traceCount d (text x "id") =? 0)%nat.
Definition classifyRun (d : db) (acc : TenantPurgeReport * nat) (x : Row) : TenantPurgeReport * nat :=
  let '(MkPurge a b c held active, n) := acc in
  if negb (IsTerminal (text x "status")) then (MkPurge a b c held (S active), n)
  else if (0 <? traceCount d (text x "id"))%nat then (MkPurge a b c (S held) active, n)
  else (MkPurge a b c held active, S n).

(** The report so far is returned next to an error. *)
Definition PurgeTenantData (tenantID : string) (d : db) : TenantPurgeReport * option goerr * db :=
  if String.eqb (Condition.TrimSpace tenantID) "" then (MkPurge 0 0 0 0 0, Some (EText "state: tenant purge refuses an empty tenant id"), d)
  else
    let '(rep, n) := foldl (classifyRun d) (MkPurge 0 0 0 0 0, 0%nat) (select d "runs" (isText "tenant_id" tenantID) []) in
    if (n =? 0)%nat then (rep, None, d)
    else
      let going := map (fun x => text x "id") (select d "runs" (purgeable d tenantID) []) in
      let doomed x := inSet going (text x "run_id") in
      match delete d "run_assignment" doomed with
      | inl e => (rep, Some (sqlError "state: tenant purge assignments" e), d)
      | inr (assignments, d1) =>
          let rep := MkPurge 0 0 assignments (pr_RunsHeldTrace rep) (pr_RunsHeldActive rep) in
          let appr := length (select d1 "approvals" doomed []) in
          match delete d1 "runs" (purgeable d1 tenantID) with
          | inl e => (rep, Some (sqlError "state: tenant purge runs" e), d)
          | inr (removed, d2) => (MkPurge removed appr assignments (pr_RunsHeldTrace rep) (pr_RunsHeldActive rep), None, d2)
          end
      end.

(** ** The interface

    The methods of the [state.Store] interface (src/internal/state/store.go) and
    their results, as values, so that a property can range over all of them and
    a decorator can implement the same interface. *)

Inductive call :=
| DoCreateRun (run : option Row) | DoGetRun (id : string) | DoUpdateRun (run : option Row)
| DoUpdateRunStatusIf (id from to : string) (at_ : Z) | DoUpdateRunApprovalStatusIf (id from to status : string) (at_ : Z)
| DoUpdateRunPlan (id planJSON planHash : string) (at_ : Z) | DoMarkNonTerminalSteps (runID marker : string)
| DoListRuns (f : RunFilter) | DoRunTrend (now : Z) (f : RunTrendFilter) | DoDeleteRun (id : string)
| DoCreateBatch (b : option Row) | DoGetBatch (id : string) | DoUpdateBatch (b : option Row) | DoListBatches (f : BatchFilter) | DoDeleteBatch (id : string)
| DoCreateStep (s : option Row) | DoGetStep (id : string) | DoUpdateStep (s : option Row) | DoListSteps (f : StepFilter) | DoDeleteStep (id : string)
| DoCreateTrace (t : option Row) | DoGetTrace (id : string) | DoUpdateTrace (t : option Row) | DoUpdateTraceChain (id prevHash currHash : string)
| DoUpdateTraceChecksum (id checksum : string) | DoListTraces (f : TraceFilter) | DoDeleteTrace (id : string)
| DoCreateApproval (a : option Row) | DoGetApproval (id : string) | DoUpdateApproval (a : option Row) | DoUpdateApprovalIfPending (a : option Row)
| DoListApprovals (f : ApprovalFilter) | DoDeleteApproval (id : string)
| DoCreateLock (l : option Row) | DoGetLock (id : string) | DoGetLockByScope (scope : string) | DoUpdateLock (l : option Row)
| DoUpdateLockOwnedBy (id owner : string) (ttl now : Z) | DoListLocks | DoDeleteLock (id : string)
| DoDeleteLockByIDAndOwner (id owner : string) | DoDeleteExpiredLocks (now : Z)
| DoCreateCredential (c : option Row) | DoGetCredential (id : string) | DoGetCredentialByName (name : string)
| DoUpdateCredential (c : option Row) | DoListCredentials | DoDeleteCredential (id : string)
| DoCreateAudit (a : option Row) | DoGetAudit (id : string) | DoUpdateAuditChain (id prevHash currHash : string)
| DoListAudits (f : AuditFilter) | DoListAuditChainPage (cursor : option (Z * string)) (limit : Z) (tenantID : string)
| DoCreateAssignment (now : Z) (a : option Row) | DoGetAssignment (runID : string) | DoListAssignments (f : AssignmentFilter)
| DoDeleteAssignment (runID : string) | DoUpdateAssignmentStateIf (now : Z) (runID : string) (epoch : Z) (expected next : string)
| DoUpdateAssignmentState (now : Z) (runID next : string) | DoReassign (now : Z) (runID : string) (prevEpoch : Z) (newNode : string)
| DoReclaimAssignment (now : Z) (runID : string) (epoch : Z) (newNode : string) | DoSetAssignmentResult (now : Z) (runID : string) (epoch : Z) (result : string)
| DoListClusterNodes | DoAssignmentSummary | DoBatchSummary (runID : string)
| DoUpsertInventoryGroup (now : Z) (g : option Row) | DoGetInventoryGroup (id : string) | DoGetInventoryGroupByName (name : string)
| DoListInventoryGroups | DoDeleteInventoryGroup (id : string)
| DoUpsertTarget (now : Z) (t : option Row) | DoGetTarget (id : string) | DoFindTargetByAddress (hostname : string) (port : Z)
| DoListTargets (f : TargetFilter) | DoUpdateTargetStatus (id status : string) | DoSetTargetReachability (id : string) (reachable : bool) (at_ : Z)
| DoDeleteTarget (id : string) | DoCountTargetsInGroup (groupID : string).

Inductive answer :=
| Done | ABool (b : bool) | ACount (n : nat) | ARow (r : option Row) | ARows (l : list Row) | ATrend (b : list RunTrendBucket) (truncated : bool)
| AAssignments (s : AssignmentSummary) | ABatches (s : BatchSummary).

Definition ans {A} (f : A -> answer) (o : op A) : op answer := fun d => let '(r, d') := o d in (match r with inl e => inl e | inr a => inr (f a) end, d').
Definition done_ : op unit -> op answer := ans (fun _ => Done).
(** A nil struct the method dereferences. *)
Definition panics : op answer := fun d => (inl (EText "panic: nil pointer dereference"), d).

Section exec.
Context (json_extract : string -> string -> value).

Definition exec (c : call) : op answer :=
  match c with
  | DoCreateRun r => done_ (CreateRun r) | DoGetRun id => ans ARow (GetRun id) | DoUpdateRun r => done_ (UpdateRun r)
  | DoUpdateRunStatusIf id f t u => ans ABool (UpdateRunStatusIf id f t u)
  | DoUpdateRunApprovalStatusIf id f t a u => ans ABool (UpdateRunApprovalStatusIf id f t a u)
  | DoUpdateRunPlan id j h u => done_ (UpdateRunPlan id j h u)
  | DoMarkNonTerminalSteps id m => ans ACount (MarkNonTerminalSteps id m)
  | DoListRuns f => ans ARows (ListRuns f) | DoRunTrend now f => ans (fun x => ATrend x.1 x.2) (RunTrend now f) | DoDeleteRun id => done_ (DeleteRun id)
  | DoCreateBatch b => done_ (CreateBatch b) | DoGetBatch id => ans ARow (GetBatch id) | DoUpdateBatch b => done_ (UpdateBatch b)
  | DoListBatches f => ans ARows (ListBatches f) | DoDeleteBatch id => done_ (DeleteBatch id)
  | DoCreateStep b => done_ (CreateStep b) | DoGetStep id => ans ARow (GetStep id) | DoUpdateStep b => done_ (UpdateStep b)
  | DoListSteps f => ans ARows (ListSteps f) | DoDeleteStep id => done_ (DeleteStep id)
  | DoCreateTrace t => done_ (CreateTrace t) | DoGetTrace id => ans ARow (GetTrace id) | DoUpdateTrace t => done_ (UpdateTrace t)
  | DoUpdateTraceChain id p c => done_ (UpdateTraceChain id p c) | DoUpdateTraceChecksum id c => done_ (UpdateTraceChecksum id c)
  | DoListTraces f => ans ARows (ListTraces f) | DoDeleteTrace id => done_ (DeleteTrace id)
  | DoCreateApproval a => done_ (CreateApproval a) | DoGetApproval id => ans ARow (GetApproval id) | DoUpdateApproval a => done_ (UpdateApproval a)
  | DoUpdateApprovalIfPending a => ans ABool (UpdateApprovalIfPending a) | DoListApprovals f => ans ARows (ListApprovals f)
  | DoDeleteApproval id => done_ (DeleteApproval id)
  | DoCreateLock l => done_ (CreateLock l) | DoGetLock id => ans ARow (GetLock id) | DoGetLockByScope sc => ans ARow (GetLockByScope sc)
  | DoUpdateLock l => done_ (UpdateLock l) | DoUpdateLockOwnedBy id o t n => ans ACount (UpdateLockOwnedBy id o t n)
  | DoListLocks => ans ARows ListLocks | DoDeleteLock id => done_ (DeleteLock id)
  | DoDeleteLockByIDAndOwner id o => ans ABool (DeleteLockByIDAndOwner id o) | DoDeleteExpiredLocks n => ans ACount (DeleteExpiredLocks n)
  | DoCreateCredential c => done_ (CreateCredential c) | DoGetCredential id => ans ARow (GetCredential id)
  | DoGetCredentialByName n => ans ARow (GetCredentialByName n) | DoUpdateCredential c => done_ (UpdateCredential c)
  | DoListCredentials => ans ARows ListCredentials | DoDeleteCredential id => done_ (DeleteCredential id)
  | DoCreateAudit a => done_ (CreateAudit a) | DoGetAudit id => ans ARow (GetAudit id) | DoUpdateAuditChain id p c => done_ (UpdateAuditChain id p c)
  | DoListAudits f => ans ARows (ListAudits f) | DoListAuditChainPage a l t => ans ARows (ListAuditChainPage a l t)
  | DoCreateAssignment n a => done_ (CreateAssignment n a) | DoGetAssignment r => ans ARow (GetAssignment r)
  | DoListAssignments f => ans ARows (ListAssignments f) | DoDeleteAssignment r => done_ (DeleteAssignment r)
  | DoUpdateAssignmentStateIf n r e x y => ans ABool (UpdateAssignmentStateIf n r e x y)
  | DoUpdateAssignmentState n r x => ans ABool (UpdateAssignmentState n r x) | DoReassign n r e w => ans ABool (Reassign n r e w)
  | DoReclaimAssignment n r e w => ans ABool (ReclaimAssignment n r e w) | DoSetAssignmentResult n r e x => done_ (SetAssignmentResult n r e x)
  | DoListClusterNodes => ans ARows ListClusterNodes | DoAssignmentSummary => ans AAssignments assignmentSummary | DoBatchSummary r => ans ABatches (batchSummary r)
  | DoUpsertInventoryGroup n g => match g with Some x => done_ (UpsertInventoryGroup n x) | None => panics end
  | DoGetInventoryGroup id => ans ARow (GetInventoryGroup id) | DoGetInventoryGroupByName n => ans ARow (GetInventoryGroupByName n)
  | DoListInventoryGroups => ans ARows ListInventoryGroups | DoDeleteInventoryGroup id => done_ (DeleteInventoryGroup id)
  | DoUpsertTarget n t => match t with Some x => done_ (UpsertTarget n x) | None => panics end
  | DoGetTarget id => ans ARow (GetTarget id) | DoFindTargetByAddress h p => ans ARow (FindTargetByAddress h p)
  | DoListTargets f => ans ARows (ListTargets json_extract f) | DoUpdateTargetStatus id st => done_ (UpdateTargetStatus id st)
  | DoSetTargetReachability id r t => done_ (SetTargetReachability id r t) | DoDeleteTarget id => done_ (DeleteTarget id)
  | DoCountTargetsInGroup g => ans ACount (CountTargetsInGroup g)
  end.
End exec.

(** ** Every operation is a sequence of statements *)

Definition advances {A} (o : op A) : Prop := forall d, rtc sqlStep d (o d).2.

Definition keepsKey (T : string) (f : Row -> Row) : Prop := forall x, col (f x) (sc_pk (schemaOf T)) = col x (sc_pk (schemaOf T)).

Lemma keepsKey_assign T r cols : sc_pk (schemaOf T) ∉ cols -> keepsKey T (fun y => assign y r cols).
Proof. intros H x. by rewrite col_assign, bool_decide_eq_false_2. Qed.

Lemma execInsert_advances what T cols r : advances (execInsert what T cols r).
Proof.
  intros d. unfold execInsert. destruct r as [x|]; [|done]. destruct (insert _ _ _) eqn:E; [done|]. apply rtc_once. by eapply StepInsert.
Qed.
Lemma execCount_advances what T p f : keepsKey T f -> advances (execCount what T p f).
Proof.
  intros Hf d. unfold execCount. destruct (update _ _ _ _) as [|[n d']] eqn:E; [done|]. apply rtc_once. eapply StepUpdate; [|exact E]. by intros x _.
Qed.
Lemma execFound_advances what T p f : keepsKey T f -> advances (execFound what T p f).
Proof.
  intros Hf d. pose proof (execCount_advances what T p f Hf d) as H. unfold execFound. destruct (execCount _ _ _ _ _) as [[|[|n]] d']; done.
Qed.
Lemma execIf_advances what T p f : keepsKey T f -> advances (execIf what T p f).
Proof. intros Hf d. pose proof (execCount_advances what T p f Hf d) as H. unfold execIf. by destruct (execCount _ _ _ _ _) as [[|n] d']. Qed.
Lemma execUpdate_advances what T cols r : sc_pk (schemaOf T) ∉ cols -> advances (execUpdate what T cols r).
Proof. intros H. destruct r; [by apply execFound_advances, keepsKey_assign|]. by intros d. Qed.
Lemma execDelete_advances what T p : advances (execDelete what T p).
Proof. intros d. unfold execDelete. destruct (delete _ _ _) as [|[n d']] eqn:E; [done|]. apply rtc_once. by eapply StepDelete. Qed.
Lemma void_advances {A} (o : op A) : advances o -> advances (void o).
Proof. intros H d. unfold void. specialize (H d). by destruct (o d). Qed.
Lemma ans_advances {A} (f : A -> answer) (o : op A) : advances o -> advances (ans f o).
Proof. intros H d. unfold ans. specialize (H d). by destruct (o d). Qed.
Lemma mapRow_advances f o : advances o -> advances (mapRow f o).
Proof. intros H d. unfold mapRow. specialize (H d). by destruct (o d). Qed.
Lemma mapRows_advances f o : advances o -> advances (mapRows f o).
Proof. intros H d. unfold mapRows. specialize (H d). by destruct (o d). Qed.
Lemma queryRow_advances T p : advances (queryRow T p).
Proof. by intros d. Qed.
Lemma query_advances T p k l : advances (query T p k l).
Proof. by intros d. Qed.
Lemma queryPage_advances what T p k l o : advances (queryPage what T p k l o).
Proof. by intros d. Qed.

Create HintDb store.
#[export] Hint Resolve execInsert_advances execCount_advances execFound_advances execIf_advances execUpdate_advances execDelete_advances
  void_advances ans_advances mapRow_advances mapRows_advances queryRow_advances query_advances queryPage_advances : store.

(** The columns an UPDATE sets do not include the key. *)
Ltac keeps_key :=
  let x := fresh "x" in
  intros x; unfold bumpRevision, repoint, setCol; rewrite ?col_assign, ?col_insert_ne by done; rewrite ?col_assign;
  rewrite ?bool_decide_eq_false_2 by (cbn; set_solver); reflexivity.
#[export] Hint Extern 2 (keepsKey _ _) => keeps_key : store.
#[export] Hint Extern 2 (_ ∉ _) => cbn; set_solver : store.

Lemma upsertGroup_advances now g : advances (UpsertInventoryGroup now g).
Proof.
  intros d. unfold UpsertInventoryGroup. destruct (upsert _ _ _ _) eqn:E; [done|]. apply rtc_once. eapply upsert_step; [|exact E]. cbn; set_solver.
Qed.
Lemma upsertTarget_advances now t : advances (UpsertTarget now t).
Proof.
  intros d. unfold UpsertTarget. destruct (upsert _ _ _ _) eqn:E; [done|]. apply rtc_once. eapply upsert_step; [|exact E]. cbn; set_solver.
Qed.
Lemma createTrace_advances t : advances (CreateTrace t).
Proof. intros d. unfold CreateTrace. destruct t; [|done]. destruct (insert _ _ _) eqn:E; [done|]. apply rtc_once. by eapply StepInsert. Qed.
Lemma deleteOwned_advances id o : advances (DeleteLockByIDAndOwner id o).
Proof.
  intros d. unfold DeleteLockByIDAndOwner. pose proof (execDelete_advances "lock" "locks" (all [byId id; isText "owner" o]) d).
  by destruct (execDelete _ _ _ d) as [[|] ?].
Qed.
Lemma runTrend_advances now f : advances (RunTrend now f).
Proof. intros d. change (rtc sqlStep d d). done. Qed.
#[export] Hint Resolve upsertGroup_advances upsertTarget_advances createTrace_advances deleteOwned_advances runTrend_advances : store.

Lemma error_advances {A} e : advances (fun d => (inl e, d) : (goerr + A) * db).
Proof. by intros d. Qed.
#[export] Hint Resolve error_advances : store.
Lemma checksum_advances id c : advances (UpdateTraceChecksum id c).
Proof. unfold UpdateTraceChecksum. repeat case_match; auto with store. Qed.
Lemma updateApproval_advances a : advances (UpdateApproval a).
Proof. unfold UpdateApproval. destruct a; auto with store. Qed.
Lemma updateIfPending_advances a : advances (UpdateApprovalIfPending a).
Proof. unfold UpdateApprovalIfPending. destruct a; auto with store. Qed.
Lemma createAssignment_advances now a : advances (CreateAssignment now a).
Proof. intros d. unfold CreateAssignment. destruct a; [apply execInsert_advances|done]. Qed.
Lemma setResult_advances now r e x : advances (SetAssignmentResult now r e x).
Proof. unfold SetAssignmentResult. case_match; auto with store. Qed.
#[export] Hint Resolve checksum_advances updateApproval_advances updateIfPending_advances createAssignment_advances setResult_advances : store.

Lemma exec_advances je c : advances (exec je c).
Proof.
  destruct c; cbn [exec]; unfold done_; try (apply ans_advances);
    lazymatch goal with |- context [match ?o with Some _ => _ | None => _ end] => destruct o | _ => idtac end;
    try solve [by intros d];
    try solve [unfold DeleteRun, DeleteBatch, DeleteStep, DeleteTrace, DeleteApproval, DeleteLock, DeleteCredential, DeleteAssignment,
      DeleteInventoryGroup, DeleteTarget, DeleteExpiredLocks; eauto 4 with store].
Qed.

(** ** What every history of operations keeps *)

Section history.
Context (json_extract : string -> string -> value).

(** A call of the interface or a purge of a tenant. *)
Inductive event := Call (c : call) | Purge (tenantID : string).
Definition after_event (d : db) (e : event) : db :=
  match e with Call c => (exec json_extract c d).2 | Purge t => (PurgeTenantData t d).2 end.

Lemma purge_steps t d : rtc sqlStep d (PurgeTenantData t d).2.
Proof.
  unfold PurgeTenantData. case_match; [done|]. destruct (foldl _ _ _) as [rep n]. case_match; [done|]. cbv zeta.
  destruct (delete d _ _) as [|[k d1]] eqn:E1; [done|]. destruct (delete d1 _ _) as [|[m d2]] eqn:E2; [done|].
  eapply rtc_l; [by eapply StepDelete|]. apply rtc_once. by eapply StepDelete.
Qed.
Lemma event_steps d e : rtc sqlStep d (after_event d e).
Proof. destruct e; [apply exec_advances|apply purge_steps]. Qed.
Lemma history_steps es d : rtc sqlStep d (foldl after_event d es).
Proof. revert d. induction es as [|e es IH]; intros d; [done|]. cbn [foldl]. etrans; [apply event_steps|apply IH]. Qed.


(** C30: evidence outlives every sequence of store calls and tenant purges: a trace
    or audit row that is in the database stays, under its id, with its run,
    actor, event or action, detail or result, tenant and time unchanged, whatever
    is created, updated, deleted, cascaded or purged afterwards. Only the chain
    hashes may be written. *)
Theorem evidence_outlives es d T cs k x :
  T = "trace" /\ cs = traceWorm \/ T = "audit" /\ cs = auditWorm -> tbl d T !! k = Some x ->
  exists y, tbl (foldl after_event d es) T !! k = Some y /\ forall c, c ∈ cs -> col y c = col x c.
Proof.
  intros HT Hx. destruct (steps_kept _ _ (history_steps es d) T k x) as (y & Hy & Hc); [by destruct HT as [[-> _]|[-> _]]|done|].
  exists y. split; [done|]. intros c Hin. apply Hc. by destruct HT as [[-> ->]|[-> ->]].
Qed.
End history.

(** A trace survives the deletion of its run, which is refused, an overwrite and
    a purge of its tenant. *)
Definition sampleTrace : Row :=
  list_to_map ([("id", Text "t1"); ("run_id", Text "r1"); ("event", Text "run.started"); ("timestamp", Int 1); ("tenant_id", Text "acme")] ++
               map (fun c => (c, Text "")) ["actor"; "detail"; "prev_hash"; "curr_hash"]).
Definition sampleRow : Row :=
  list_to_map ([("id", Text "r1"); ("tenant_id", Text "acme"); ("status", Text "completed"); ("created_at", Int 1); ("updated_at", Int 1); ("priority", Int 0)] ++
               map (fun c => (c, Text "")) ["workflow_name"; "template_name"; "params"; "plan_hash"; "plan_json"; "approval_status"; "approval_level"; "creator"; "incident_id"]).
Definition sampleStart : db := put (put ∅ "runs" "r1" sampleRow) "trace" "t1" sampleTrace.
Lemma evidence_outlives_witness :
  exists y, tbl (foldl (after_event (fun _ _ => Null)) sampleStart
    [Call (DoDeleteRun "r1"); Call (DoUpdateTrace (Some (<["event" := Text "forged"]> sampleTrace))); Call (DoUpdateTraceChain "t1" "p" "c"); Purge "acme"]) "trace" !! "t1" = Some y /\
  forall c, c ∈ traceWorm -> col y c = col sampleTrace c.
Proof. apply (evidence_outlives (fun _ _ => Null)); [by left|]. unfold sampleStart. rewrite put_lookup. reflexivity. Defined.
Example trace_chained : text (default ∅ (tbl (foldl (after_event (fun _ _ => Null)) sampleStart
    [Call (DoDeleteRun "r1"); Call (DoUpdateTrace (Some (<["event" := Text "forged"]> sampleTrace))); Call (DoUpdateTraceChain "t1" "p" "c"); Purge "acme"]) "trace" !! "t1")) "curr_hash" = "c".
Proof. vm_compute. reflexivity. Qed.

End Store.
