(* ===== verification/Quota.v ===== *)
(** * Quota: tenants, their registry and their quotas

    The lifecycle of tenants (src/internal/tenant/tenant.go, manager.go), the
    quota manager (quota.go) with 64-bit counters, and the registry file the
    command line keeps between invocations (src/cmd/levee/cmd_tenant.go), as
    decoded records. Each operation runs under the manager's mutex and is one
    transition of the state. Identifiers from the random source and the clock
    are arguments; the order in which Go walks a map is the order of the list
    an operation is given or returns. *)

From Stdlib Require Import Ascii Lia.
From stdpp Require Import base gmap sets list strings.
From S2P Require Import Prelude Condition.
Open Scope string_scope.
Open Scope list_scope.

Module Quota.

(** ** Resources, quotas, usage *)

Definition ResourceTargets : Z := 0.
Definition ResourceConcurrentChanges : Z := 1.
Definition ResourceStorage : Z := 2.
Definition ResourceAPIRate : Z := 3.
Definition resource_String (r : Z) : string :=
  if (r =? ResourceTargets)%Z then "targets" else if (r =? ResourceConcurrentChanges)%Z then "concurrent_changes"
  else if (r =? ResourceStorage)%Z then "storage_mb" else if (r =? ResourceAPIRate)%Z then "api_rate_per_min" else "unknown".
Definition ParseResourceType (s : string) : goerr + Z :=
  if String.eqb s "targets" then inr ResourceTargets else if String.eqb s "concurrent_changes" then inr ResourceConcurrentChanges
  else if String.eqb s "storage_mb" then inr ResourceStorage else if String.eqb s "api_rate_per_min" then inr ResourceAPIRate
  else inl (EText ("tenant: unknown resource type " +:+ s)).

Definition ErrQuotaExceeded := "tenant: quota exceeded".
Definition ErrQuotaNotFound := "tenant: quota not found".
Definition ErrInvalidQuota := "tenant: invalid quota".
Definition ErrInvalidResource := "tenant: invalid resource".

Record Limits := MkQuota {
  q_TenantID : string; q_MaxTargets : Z; q_MaxConcurrentChanges : Z; q_MaxStorageMB : Z; q_MaxAPIRatePerMin : Z; q_CreatedAt : Z; q_UpdatedAt : Z }.

Definition invalidQuota (msg : string) : goerr := EWrap msg (ESentinel ErrInvalidQuota).
Definition quota_Validate (q : Limits) : option goerr :=
  if String.eqb (q_TenantID q) "" then Some (invalidQuota "empty tenant id")
  else if (q_MaxTargets q <? 0)%Z then Some (invalidQuota "max_targets is negative")
  else if (q_MaxConcurrentChanges q <? 0)%Z then Some (invalidQuota "max_concurrent_changes is negative")
  else if (q_MaxStorageMB q <? 0)%Z then Some (invalidQuota "max_storage_mb is negative")
  else if (q_MaxAPIRatePerMin q <? 0)%Z then Some (invalidQuota "max_api_rate_per_min is negative")
  else None.

Definition invalidResource (r : Z) : goerr := EWrap (resource_String r) (ESentinel ErrInvalidResource).
Definition LimitFor (q : Limits) (r : Z) : goerr + Z :=
  if (r =? ResourceTargets)%Z then inr (q_MaxTargets q) else if (r =? ResourceConcurrentChanges)%Z then inr (q_MaxConcurrentChanges q)
  else if (r =? ResourceStorage)%Z then inr (q_MaxStorageMB q) else if (r =? ResourceAPIRate)%Z then inr (q_MaxAPIRatePerMin q)
  else inl (invalidResource r).

Record Usage := MkUsage { us_TenantID : string; us_TargetCount : Z; us_ActiveChanges : Z; us_StorageUsedMB : Z; us_APIRequestsThisMin : Z }.
Definition noUsage (tenantID : string) : Usage := MkUsage tenantID 0 0 0 0.
Definition ValueFor (u : Usage) (r : Z) : goerr + Z :=
  if (r =? ResourceTargets)%Z then inr (us_TargetCount u) else if (r =? ResourceConcurrentChanges)%Z then inr (us_ActiveChanges u)
  else if (r =? ResourceStorage)%Z then inr (us_StorageUsedMB u) else if (r =? ResourceAPIRate)%Z then inr (us_APIRequestsThisMin u)
  else inl (invalidResource r).

Record QuotaManager := MkQM { qm_quotas : gmap string Limits; qm_usage : gmap string Usage }.
Definition NewQuotaManager : QuotaManager := MkQM ∅ ∅.

Definition SetQuota (qm : QuotaManager) (now : Z) (tenantID : string) (q : Limits) : QuotaManager * option goerr :=
  if String.eqb tenantID "" then (qm, Some (invalidQuota "empty tenant id"))
  else
    let q := MkQuota tenantID (q_MaxTargets q) (q_MaxConcurrentChanges q) (q_MaxStorageMB q) (q_MaxAPIRatePerMin q) (q_CreatedAt q) (q_UpdatedAt q) in
    match quota_Validate q with
    | Some e => (qm, Some e)
    | None =>
        let created := match qm_quotas qm !! tenantID with Some old => q_CreatedAt old | None => now end in
        (MkQM (<[tenantID := MkQuota tenantID (q_MaxTargets q) (q_MaxConcurrentChanges q) (q_MaxStorageMB q) (q_MaxAPIRatePerMin q) created now]> (qm_quotas qm))
              (match qm_usage qm !! tenantID with Some _ => qm_usage qm | None => <[tenantID := noUsage tenantID]> (qm_usage qm) end), None)
    end.
Definition GetQuota (qm : QuotaManager) (tenantID : string) : goerr + Limits :=
  match qm_quotas qm !! tenantID with Some q => inr q | None => inl (EWrap tenantID (ESentinel ErrQuotaNotFound)) end.
Definition GetUsage (qm : QuotaManager) (tenantID : string) : Usage := default (noUsage tenantID) (qm_usage qm !! tenantID).

Definition clampNonNeg (v : Z) : Z := if (v <? 0)%Z then 0 else v.
Definition applyDeltaLocked (u : Usage) (r delta : Z) : goerr + Usage :=
  let add v := clampNonNeg (wrap64 (v + delta)) in
  if (r =? ResourceTargets)%Z then inr (MkUsage (us_TenantID u) (add (us_TargetCount u)) (us_ActiveChanges u) (us_StorageUsedMB u) (us_APIRequestsThisMin u))
  else if (r =? ResourceConcurrentChanges)%Z then inr (MkUsage (us_TenantID u) (us_TargetCount u) (add (us_ActiveChanges u)) (us_StorageUsedMB u) (us_APIRequestsThisMin u))
  else if (r =? ResourceStorage)%Z then inr (MkUsage (us_TenantID u) (us_TargetCount u) (us_ActiveChanges u) (add (us_StorageUsedMB u)) (us_APIRequestsThisMin u))
  else if (r =? ResourceAPIRate)%Z then inr (MkUsage (us_TenantID u) (us_TargetCount u) (us_ActiveChanges u) (us_StorageUsedMB u) (add (us_APIRequestsThisMin u)))
  else inl (invalidResource r).

Definition withUsage (qm : QuotaManager) (t : string) (u : Usage) : QuotaManager := MkQM (qm_quotas qm) (<[t := u]> (qm_usage qm)).
Definition exceeded (r : Z) : goerr := EWrap (resource_String r) (ESentinel ErrQuotaExceeded).

(** [current + amount] is 64-bit addition; a limit of 0 is no limit. *)
Definition CheckAndReserve (qm : QuotaManager) (tenantID : string) (r amount : Z) : QuotaManager * option goerr :=
  if (amount <? 0)%Z then (qm, Some (invalidQuota "negative amount"))
  else if (amount =? 0)%Z then (qm, None)
  else match qm_quotas qm !! tenantID with
       | None => (qm, Some (EWrap tenantID (ESentinel ErrQuotaNotFound)))
       | Some q =>
           let u := GetUsage qm tenantID in
           let qm := withUsage qm tenantID u in
           match LimitFor q r, ValueFor u r with
           | inl e, _ | _, inl e => (qm, Some e)
           | inr limit, inr current =>
               if (0 <? limit)%Z && (limit <? wrap64 (current + amount))%Z then (qm, Some (exceeded r))
               else match applyDeltaLocked u r amount with
                    | inl e => (qm, Some e)
                    | inr u' => (withUsage qm tenantID u', None)
                    end
           end
       end.
Definition Release (qm : QuotaManager) (tenantID : string) (r amount : Z) : QuotaManager * option goerr :=
  if (amount <? 0)%Z then (qm, Some (invalidQuota "negative amount"))
  else if (amount =? 0)%Z then (qm, None)
  else match qm_usage qm !! tenantID with
       | None => (qm, None)
       | Some u => match applyDeltaLocked u r (- amount) with
                   | inl e => (qm, Some e)
                   | inr u' => (withUsage qm tenantID u', None)
                   end
       end.
Definition IsOverQuota (qm : QuotaManager) (tenantID : string) (r : Z) : bool :=
  match qm_quotas qm !! tenantID with
  | None => true
  | Some q =>
      match qm_usage qm !! tenantID with
      | None => false
      | Some u => match LimitFor q r, ValueFor u r with
                  | inr limit, inr current => negb (limit =? 0)%Z && (limit <=? current)%Z
                  | _, _ => false
                  end
      end
  end.
Definition ResetUsage (qm : QuotaManager) (tenantID : string) : QuotaManager := withUsage qm tenantID (noUsage tenantID).
Definition RemoveQuota (qm : QuotaManager) (tenantID : string) : QuotaManager :=
  MkQM (delete tenantID (qm_quotas qm)) (delete tenantID (qm_usage qm)).

(** ** Tenants *)

Inductive TenantStatus := TenantActive | TenantSuspended | TenantDeleted.
#[global] Instance TenantStatus_dec : EqDecision TenantStatus.
Proof. solve_decision. Defined.
Definition status_String (s : TenantStatus) : string :=
  match s with TenantActive => "active" | TenantSuspended => "suspended" | TenantDeleted => "deleted" end.

Definition ErrTenantNotFound := "tenant: not found".
Definition ErrTenantExists := "tenant: already exists".
Definition ErrTenantSuspended := "tenant: suspended".
Definition ErrTenantDeleted := "tenant: deleted".
Definition ErrInvalidTenant := "tenant: invalid".

Record Tenant := MkTenant {
  tn_ID : string; tn_Name : string; tn_DisplayName : string; tn_Namespace : string; tn_Status : TenantStatus; tn_SuspendReason : string;
  tn_CreatedAt : Z; tn_UpdatedAt : Z; tn_Labels : gmap string string }.

Definition NamespaceFor (name : string) : string := "tenant-" +:+ name.
Definition NewTenant (id : string) (now : Z) (name displayName : string) : Tenant :=
  MkTenant id name displayName (NamespaceFor name) TenantActive "" now now ∅.

(** ^[a-z0-9][a-z0-9-]{1,62}[a-z0-9]$ *)
Definition labelChar (c : ascii) : bool := Condition.between "a" "z" c || Condition.between "0" "9" c.
Definition namePattern (s : string) : bool :=
  let l := String.list_ascii_of_string s in
  (3 <=? length l)%nat && (length l <=? 64)%nat &&
  match head l, last l with Some a, Some b => labelChar a && labelChar b | _, _ => false end &&
  forallb (fun c => labelChar c || Ascii.eqb c "-") l.
Definition invalidTenant (msg : string) : goerr := EWrap msg (ESentinel ErrInvalidTenant).
Definition tenant_Validate (t : Tenant) : option goerr :=
  if String.eqb (tn_ID t) "" then Some (invalidTenant "empty id")
  else if String.eqb (tn_Name t) "" then Some (invalidTenant "empty name")
  else if negb (namePattern (tn_Name t)) then Some (invalidTenant "name must match the pattern")
  else if String.eqb (tn_Namespace t) "" then Some (invalidTenant "empty namespace")
  else if negb (String.eqb (tn_Namespace t) (NamespaceFor (tn_Name t))) then Some (invalidTenant "namespace does not match name")
  else None.
Definition IsOperational (t : Tenant) : bool := bool_decide (tn_Status t = TenantActive).

(** ** The manager *)

Record TenantManager := MkTM { tm_tenants : gmap string Tenant; tm_byName : gmap string string; tm_quotaMgr : QuotaManager }.
Definition NewTenantManager : TenantManager := MkTM ∅ ∅ NewQuotaManager.

Definition Create (tm : TenantManager) (id : string) (now : Z) (name displayName : string) (quota : Limits) : TenantManager * (goerr + Tenant) :=
  if String.eqb name "" then (tm, inl (invalidTenant "empty name"))
  else
    let t := NewTenant id now name displayName in
    match tenant_Validate t with
    | Some e => (tm, inl e)
    | None =>
        match tm_byName tm !! name with
        | Some _ => (tm, inl (EWrap "name already in use" (ESentinel ErrTenantExists)))
        | None =>
            match SetQuota (tm_quotaMgr tm) now id quota with
            | (_, Some e) => (tm, inl (EWrap "tenant: set initial quota" e))
            | (qm, None) => (MkTM (<[id := t]> (tm_tenants tm)) (<[name := id]> (tm_byName tm)) qm, inr t)
            end
        end
    end.

Definition Restore (tm : TenantManager) (now : Z) (t : Tenant) (quota : Limits) : TenantManager * option goerr :=
  match tenant_Validate t with
  | Some e => (tm, Some e)
  | None =>
      match tm_tenants tm !! tn_ID t with
      | Some _ => (tm, Some (EWrap "id" (ESentinel ErrTenantExists)))
      | None =>
          let held := match tm_byName tm !! tn_Name t with
                      | Some holder => negb (String.eqb holder (tn_ID t)) &&
                          match tm_tenants tm !! holder with Some prev => negb (bool_decide (tn_Status prev = TenantDeleted)) | None => false end
                      | None => false
                      end in
          if held then (tm, Some (EWrap "name already held" (ESentinel ErrTenantExists)))
          else match SetQuota (tm_quotaMgr tm) now (tn_ID t) quota with
               | (_, Some e) => (tm, Some (EWrap "tenant: restore quota" e))
               | (qm, None) =>
                   (MkTM (<[tn_ID t := t]> (tm_tenants tm))
                         (if bool_decide (tn_Status t = TenantDeleted) then tm_byName tm else <[tn_Name t := tn_ID t]> (tm_byName tm)) qm, None)
               end
      end
  end.

Definition tenantNotFound (id : string) : goerr := EWrap id (ESentinel ErrTenantNotFound).
Definition manager_Get (tm : TenantManager) (id : string) : goerr + Tenant :=
  match tm_tenants tm !! id with Some t => inr t | None => inl (tenantNotFound id) end.
Definition GetByName (tm : TenantManager) (name : string) : goerr + Tenant :=
  match tm_byName tm !! name with
  | None => inl (tenantNotFound name)
  | Some id => match tm_tenants tm !! id with Some t => inr t | None => inl (tenantNotFound name) end
  end.
(** In some order: Go walks the map. *)
Definition List_ (tm : TenantManager) : list Tenant := (map_to_list (tm_tenants tm)).*2.

Definition withTenant (tm : TenantManager) (id : string) (t : Tenant) : TenantManager := MkTM (<[id := t]> (tm_tenants tm)) (tm_byName tm) (tm_quotaMgr tm).
Definition setStatus (t : Tenant) (s : TenantStatus) (reason : string) (now : Z) : Tenant :=
  MkTenant (tn_ID t) (tn_Name t) (tn_DisplayName t) (tn_Namespace t) s reason (tn_CreatedAt t) now (tn_Labels t).

Definition Suspend (tm : TenantManager) (now : Z) (id reason : string) : TenantManager * option goerr :=
  match tm_tenants tm !! id with
  | None => (tm, Some (tenantNotFound id))
  | Some t =>
      match tn_Status t with
      | TenantDeleted => (tm, Some (EWrap "cannot suspend deleted tenant" (ESentinel ErrTenantDeleted)))
      | TenantSuspended =>
          if String.eqb reason "" || String.eqb reason (tn_SuspendReason t) then (tm, None)
          else (withTenant tm id (setStatus t TenantSuspended reason now), None)
      | TenantActive => (withTenant tm id (setStatus t TenantSuspended reason now), None)
      end
  end.
Definition Resume (tm : TenantManager) (now : Z) (id : string) : TenantManager * option goerr :=
  match tm_tenants tm !! id with
  | None => (tm, Some (tenantNotFound id))
  | Some t =>
      match tn_Status t with
      | TenantDeleted => (tm, Some (EWrap "cannot resume deleted tenant" (ESentinel ErrTenantDeleted)))
      | TenantActive => (tm, None)
      | TenantSuspended => (withTenant tm id (setStatus t TenantActive "" now), None)
      end
  end.
Definition Delete (tm : TenantManager) (now : Z) (id : string) : TenantManager * option goerr :=
  match tm_tenants tm !! id with
  | None => (tm, Some (tenantNotFound id))
  | Some t =>
      if bool_decide (tn_Status t = TenantDeleted) then (tm, None)
      else (MkTM (<[id := setStatus t TenantDeleted (tn_SuspendReason t) now]> (tm_tenants tm)) (delete (tn_Name t) (tm_byName tm))
                 (RemoveQuota (tm_quotaMgr tm) id), None)
  end.
Definition UpdateQuota (tm : TenantManager) (now : Z) (id : string) (q : Limits) : TenantManager * option goerr :=
  match tm_tenants tm !! id with
  | None => (tm, Some (tenantNotFound id))
  | Some t =>
      if bool_decide (tn_Status t = TenantDeleted) then (tm, Some (EWrap "cannot update quota for deleted tenant" (ESentinel ErrTenantDeleted)))
      else match SetQuota (tm_quotaMgr tm) now id q with
           | (_, Some e) => (tm, Some (EWrap "tenant: update quota" e))
           | (qm, None) => (MkTM (tm_tenants tm) (tm_byName tm) qm, None)
           end
  end.
Definition CheckQuota (tm : TenantManager) (id : string) (r amount : Z) : option goerr :=
  match tm_tenants tm !! id with
  | None => Some (tenantNotFound id)
  | Some t =>
      match tn_Status t with
      | TenantSuspended => Some (EWrap id (ESentinel ErrTenantSuspended))
      | TenantDeleted => Some (EWrap id (ESentinel ErrTenantDeleted))
      | TenantActive =>
          match GetQuota (tm_quotaMgr tm) id with
          | inl e => Some e
          | inr q =>
              match LimitFor q r, ValueFor (GetUsage (tm_quotaMgr tm) id) r with
              | inl e, _ => Some e
              | inr limit, v =>
                  if (limit =? 0)%Z then None
                  else match v with
                       | inl e => Some e
                       | inr current => if (limit <? wrap64 (current + amount))%Z then Some (exceeded r) else None
                       end
              end
          end
      end
  end.
Definition Count (tm : TenantManager) : nat := size (tm_tenants tm).

(** ** The registry file *)

Record tenantRecord := MkRecord {
  rec_ID : string; rec_Name : string; rec_DisplayName : string; rec_Namespace : string; rec_Status : string; rec_SuspendReason : string;
  rec_CreatedAt : Z; rec_UpdatedAt : Z; rec_Labels : gmap string string;
  rec_MaxTargets : Z; rec_MaxConcurrentChanges : Z; rec_MaxStorageMB : Z; rec_MaxAPIRatePerMin : Z }.

(** [strings.ToLower], on ASCII letters. *)
Definition lowerChar (c : ascii) : ascii := if Condition.between "A" "Z" c then ascii_of_nat (nat_of_ascii c + 32) else c.
Definition toLower (s : string) : string := String.string_of_list_ascii (map lowerChar (String.list_ascii_of_string s)).
Definition ParseTenantStatus (s : string) : goerr + TenantStatus :=
  let target := toLower (Condition.TrimSpace s) in
  match List.find (fun st => String.eqb (status_String st) target) [TenantActive; TenantSuspended; TenantDeleted] with
  | Some st => inr st
  | None => inl (EText ("tenant: unknown status " +:+ s))
  end.

(** A record that cannot be restored is skipped with a warning. *)
Fixpoint registryToManager (now : Z) (recs : list tenantRecord) (tm : TenantManager) : goerr + TenantManager :=
  match recs with
  | [] => inr tm
  | rec :: rest =>
      match ParseTenantStatus (rec_Status rec) with
      | inl e => inl (EWrap "tenant" e)
      | inr status =>
          let ns := if String.eqb (rec_Namespace rec) "" then NamespaceFor (rec_Name rec) else rec_Namespace rec in
          let t := MkTenant (rec_ID rec) (rec_Name rec) (rec_DisplayName rec) ns status (rec_SuspendReason rec) (rec_CreatedAt rec) (rec_UpdatedAt rec) (rec_Labels rec) in
          let q := MkQuota "" (rec_MaxTargets rec) (rec_MaxConcurrentChanges rec) (rec_MaxStorageMB rec) (rec_MaxAPIRatePerMin rec) 0 0 in
          registryToManager now rest (Restore tm now t q).1
      end
  end.
Definition recordOf (tm : TenantManager) (t : Tenant) : tenantRecord :=
  let q := match GetQuota (tm_quotaMgr tm) (tn_ID t) with inr q => q | inl _ => MkQuota "" 0 0 0 0 0 0 end in
  MkRecord (tn_ID t) (tn_Name t) (tn_DisplayName t) (tn_Namespace t) (status_String (tn_Status t)) (tn_SuspendReason t)
    (tn_CreatedAt t) (tn_UpdatedAt t) (tn_Labels t) (q_MaxTargets q) (q_MaxConcurrentChanges q) (q_MaxStorageMB q) (q_MaxAPIRatePerMin q).
(** [tenants] is what [List] returned, in the order the map was walked. *)
Definition managerToRegistry (tm : TenantManager) (tenants : list Tenant) : list tenantRecord := map (recordOf tm) tenants.

(** ** Quotas bound usage *)

Inductive quotaOp := Reserve (t : string) (r n : Z) | Free (t : string) (r n : Z) | Reset (t : string).
Definition runQuota (qm : QuotaManager) (o : quotaOp) : QuotaManager :=
  match o with
  | Reserve t r n => (CheckAndReserve qm t r n).1
  | Free t r n => (Release qm t r n).1
  | Reset t => ResetUsage qm t
  end.
(** Amounts far enough from the end of the 64-bit range. *)
Definition modest (n : Z) : Prop := (n < 2 ^ 62)%Z.
Definition modestOp (o : quotaOp) : Prop := match o with Reserve _ _ n | Free _ _ n => modest n | Reset _ => True end.

Definition used (qm : QuotaManager) (t : string) (r : Z) : Z := match ValueFor (GetUsage qm t) r with inr v => v | inl _ => 0 end.

Lemma withUsage_get qm t u t' : GetUsage (withUsage qm t u) t' = if bool_decide (t' = t) then u else GetUsage qm t'.
Proof.
  unfold GetUsage, withUsage. cbn [qm_usage]. case_bool_decide as E; [subst; by rewrite lookup_insert_eq|by rewrite lookup_insert_ne].
Qed.
Lemma withUsage_used qm t u t' r : t' <> t -> used (withUsage qm t u) t' r = used qm t' r.
Proof. intros. unfold used. by rewrite withUsage_get, bool_decide_eq_false_2. Qed.
Lemma withUsage_same qm t t' r : used (withUsage qm t (GetUsage qm t)) t' r = used qm t' r.
Proof. unfold used. rewrite withUsage_get. case_bool_decide; by subst. Qed.
Lemma quotas_same qm o : qm_quotas (runQuota qm o) = qm_quotas qm.
Proof. destruct o; cbn [runQuota]; unfold CheckAndReserve, Release, ResetUsage, withUsage; repeat case_match; done. Qed.

(** The counter of one resource moves by the delta, the others stay. *)
Lemma applyDelta_value u r delta u' r' :
  applyDeltaLocked u r delta = inr u' ->
  match ValueFor u' r' with inr v => v | inl _ => 0%Z end =
  if (r' =? r)%Z then clampNonNeg (wrap64 (match ValueFor u r with inr v => v | inl _ => 0%Z end + delta))
  else match ValueFor u r' with inr v => v | inl _ => 0%Z end.
Proof.
  unfold applyDeltaLocked, ValueFor, ResourceTargets, ResourceConcurrentChanges, ResourceStorage, ResourceAPIRate.
  destruct (Z.eqb_spec r 0), (Z.eqb_spec r 1), (Z.eqb_spec r 2), (Z.eqb_spec r 3); try lia; try discriminate; intros [= <-]; subst r; cbn;
    destruct (Z.eqb_spec r' 0), (Z.eqb_spec r' 1), (Z.eqb_spec r' 2), (Z.eqb_spec r' 3); subst; try lia; done.
Qed.

Lemma limit_value q u r limit : LimitFor q r = inr limit -> exists v, ValueFor u r = inr v /\ exists f, forall delta, applyDeltaLocked u r delta = inr (f delta).
Proof. unfold LimitFor, ValueFor, applyDeltaLocked. repeat case_match; try done; intros _; eexists; split; [done|eexists; intros; done..]. Qed.

Lemma reserve_spec qm t q r limit n :
  qm_quotas qm !! t = Some q -> LimitFor q r = inr limit -> (0 < limit < 2 ^ 62)%Z -> (0 < n)%Z -> modest n -> (0 <= used qm t r <= limit)%Z ->
  let '(qm', e) := CheckAndReserve qm t r n in
  if (used qm t r + n <=? limit)%Z then e = None /\ used qm' t r = (used qm t r + n)%Z
  else e = Some (exceeded r) /\ used qm' t r = used qm t r.
Proof.
  intros Hq Hl Hlim Hn Hm Hu. unfold CheckAndReserve. rewrite (proj2 (Z.ltb_ge n 0)), (proj2 (Z.eqb_neq n 0)), Hq, Hl by lia. cbv zeta.
  destruct (limit_value q (GetUsage qm t) r limit Hl) as (v & Hv & f & Hf). rewrite Hv.
  assert (Eu : used qm t r = v) by (unfold used; by rewrite Hv). rewrite Eu in *. unfold modest in Hm.
  rewrite wrap64_id by lia. rewrite (proj2 (Z.ltb_lt 0 limit)) by lia. cbn [andb].
  destruct (Z.leb_spec (v + n) limit).
  - rewrite (proj2 (Z.ltb_ge limit (v + n))) by lia. rewrite Hf. split; [done|]. unfold used. rewrite withUsage_get, bool_decide_eq_true_2 by done.
    rewrite (applyDelta_value _ _ _ _ r (Hf n)), Z.eqb_refl, Hv, wrap64_id by lia. unfold clampNonNeg. by rewrite (proj2 (Z.ltb_ge (v + n) 0)) by lia.
  - rewrite (proj2 (Z.ltb_lt limit (v + n))) by lia. split; [done|]. rewrite withUsage_same. done.
Qed.

Lemma reserve_other qm t r n t' r' : (t', r') <> (t, r) -> used (CheckAndReserve qm t r n).1 t' r' = used qm t' r'.
Proof.
  intros Hne. unfold CheckAndReserve. case_match; [done|]. case_match; [done|]. case_match; [|done]. cbv zeta.
  destruct (LimitFor _ r); [apply withUsage_same|]. destruct (ValueFor _ r); [apply withUsage_same|]. case_match; [apply withUsage_same|].
  destruct (applyDeltaLocked _ _ _) as [|u'] eqn:E; [apply withUsage_same|]. cbn [fst].
  destruct (decide (t' = t)) as [->|]; [|by rewrite withUsage_used, withUsage_same].
  unfold used. rewrite withUsage_get, bool_decide_eq_true_2 by done. rewrite (applyDelta_value _ _ _ _ r' E).
  rewrite (proj2 (Z.eqb_neq r' r)); [done|]. naive_solver.
Qed.
Lemma release_other qm t r n t' r' : (t', r') <> (t, r) -> used (Release qm t r n).1 t' r' = used qm t' r'.
Proof.
  intros Hne. unfold Release. case_match; [done|]. case_match; [done|]. destruct (qm_usage qm !! t) as [u|] eqn:Eu; [|done].
  destruct (applyDeltaLocked _ _ _) as [|u'] eqn:E; [done|]. cbn [fst]. destruct (decide (t' = t)) as [->|]; [|by rewrite withUsage_used].
  unfold used. rewrite withUsage_get, bool_decide_eq_true_2 by done. rewrite (applyDelta_value _ _ _ _ r' E).
  rewrite (proj2 (Z.eqb_neq r' r)) by naive_solver. unfold GetUsage. by rewrite Eu.
Qed.
(** A release never makes the counter negative and never raises it. *)
Lemma release_spec qm t r n : modest n -> (0 <= used qm t r <= 2 ^ 62)%Z ->
  (0 <= used (Release qm t r n).1 t r <= used qm t r)%Z.
Proof.
  unfold modest. intros Hm Hu. unfold Release. destruct (Z.ltb_spec n 0); [cbn [fst]; lia|]. destruct (Z.eqb_spec n 0); [cbn [fst]; lia|].
  destruct (qm_usage qm !! t) as [u|] eqn:Eu; [|cbn [fst]; lia]. destruct (applyDeltaLocked u r (- n)) as [|u'] eqn:E; [cbn [fst]; lia|]. cbn [fst].
  assert (Hg : GetUsage qm t = u) by (unfold GetUsage; by rewrite Eu). unfold used in *. rewrite withUsage_get, bool_decide_eq_true_2 by done.
  rewrite (applyDelta_value _ _ _ _ r E), Z.eqb_refl. rewrite Hg in *. rewrite wrap64_id by lia.
  unfold clampNonNeg. destruct (Z.ltb_spec (match ValueFor u r with inl _ => 0 | inr v => v end + - n) 0); lia.
Qed.

Lemma within_step qm o t q r limit :
  qm_quotas qm !! t = Some q -> LimitFor q r = inr limit -> (0 < limit < 2 ^ 62)%Z -> modestOp o -> (0 <= used qm t r <= limit)%Z ->
  (0 <= used (runQuota qm o) t r <= limit)%Z.
Proof.
  intros Hq Hl Hlim Hm Hu. destruct o as [t' r' n|t' r' n|t']; cbn [runQuota].
  - destruct (decide ((t, r) = (t', r'))) as [[= <- <-]|Hne]; [|by rewrite reserve_other].
    destruct (Z.ltb_spec 0 n).
    + pose proof (reserve_spec qm t q r limit n Hq Hl Hlim ltac:(lia) Hm Hu) as H'. destruct (CheckAndReserve qm t r n) as [qm' e].
      destruct (Z.leb_spec (used qm t r + n) limit); destruct H' as [_ H']; simpl; lia.
    + unfold CheckAndReserve. destruct (Z.ltb_spec n 0); [done|]. rewrite (proj2 (Z.eqb_eq n 0)) by lia. done.
  - destruct (decide ((t, r) = (t', r'))) as [[= <- <-]|Hne]; [|by rewrite release_other].
    pose proof (release_spec qm t r n Hm). lia.
  - unfold ResetUsage. destruct (decide (t = t')) as [<-|]; [|by rewrite withUsage_used].
    unfold used. rewrite withUsage_get, bool_decide_eq_true_2 by done. unfold ValueFor, noUsage. repeat case_match; simplify_eq; cbn; lia.
Qed.

(** C28: a configured quota bounds usage. In every interleaving of reservations,
    releases and resets, by any tenants and for any resources, the usage of a
    tenant with a limit stays between 0 and that limit, its quota stays
    installed, and a reservation afterwards is granted exactly when the usage
    plus the amount is within the limit: then the usage grows by the amount,
    otherwise it is refused as exceeded and the usage stays. Amounts and limit
    are below 2^62; a reservation that overflows 64 bits is granted and resets
    the usage to 0 (huge_reservation_wraps). *)
Theorem quota_bounds qm ops t q r limit n :
  qm_quotas qm !! t = Some q -> LimitFor q r = inr limit -> (0 < limit < 2 ^ 62)%Z -> (0 <= used qm t r <= limit)%Z ->
  Forall modestOp ops -> (0 < n)%Z -> modest n ->
  let qm' := foldl runQuota qm ops in
  qm_quotas qm' !! t = Some q /\ (0 <= used qm' t r <= limit)%Z /\
  let '(qm2, e) := CheckAndReserve qm' t r n in
  if (used qm' t r + n <=? limit)%Z then e = None /\ used qm2 t r = (used qm' t r + n)%Z
  else (exists e', e = Some e' /\ errors_Is e' ErrQuotaExceeded = true) /\ used qm2 t r = used qm' t r.
Proof.
  intros Hq Hl Hlim Hu Hops Hn Hm. cbv zeta.
  assert (H : qm_quotas (foldl runQuota qm ops) !! t = Some q /\ (0 <= used (foldl runQuota qm ops) t r <= limit)%Z).
  { clear Hn Hm n. revert qm Hq Hu. induction Hops as [|o ops Ho _ IH]; intros qm Hq Hu; [done|]. cbn [foldl]. apply IH.
    - by rewrite quotas_same.
    - by eapply within_step. }
  destruct H as [Hq' Hu']. split; [done|split; [done|]]. pose proof (reserve_spec _ _ _ _ _ n Hq' Hl Hlim Hn Hm Hu') as Hs.
  destruct (CheckAndReserve _ _ _ _) as [qm2 e]. destruct (_ <=? _)%Z; [done|]. destruct Hs as [-> ?]. split; [|done]. eexists. split; [done|].
  cbn. by rewrite bool_decide_eq_true_2.
Qed.

Definition sampleQM : QuotaManager := (SetQuota NewQuotaManager 5 "acme" (MkQuota "" 3 2 0 0 0 0)).1.
Lemma quota_bounds_witness :
  let qm' := foldl runQuota sampleQM [Reserve "acme" 0 2; Reserve "other" 0 9; Free "acme" 0 1; Reserve "acme" 1 1] in
  used qm' "acme" 0 = 1%Z /\ (CheckAndReserve qm' "acme" 0 2).2 = None /\ used (CheckAndReserve qm' "acme" 0 2).1 "acme" 0 = 3%Z.
Proof.
  cbv zeta. split; [reflexivity|].
  destruct (quota_bounds sampleQM [Reserve "acme" 0 2; Reserve "other" 0 9; Free "acme" 0 1; Reserve "acme" 1 1] "acme"
    (MkQuota "acme" 3 2 0 0 5 5) 0 3 2 eq_refl eq_refl ltac:(lia) ltac:(vm_compute; split; discriminate)
    ltac:(repeat constructor; unfold modestOp, modest; lia) ltac:(lia) ltac:(unfold modest; lia)) as (_ & _ & H).
  destruct (CheckAndReserve _ _ _ 2) as [qm2 e]. exact H.
Defined.

(** A reservation near the end of the 64-bit range wraps: it is granted and the
    usage is zero afterwards. *)
Example huge_reservation_wraps :
  let qm := (CheckAndReserve sampleQM "acme" ResourceTargets 2).1 in
  used qm "acme" ResourceTargets = 2%Z /\
  let '(qm', e) := CheckAndReserve qm "acme" ResourceTargets (2 ^ 63 - 1) in e = None /\ used qm' "acme" ResourceTargets = 0%Z.
Proof. vm_compute. done. Qed.

(** ** The registry of tenants *)

Definition live (t : Tenant) : Prop := tn_Status t <> TenantDeleted.
Record tmOk (tm : TenantManager) : Prop := MkTmOk {
  tm_ids : forall id t, tm_tenants tm !! id = Some t -> tn_ID t = id /\ tenant_Validate t = None;
  tm_names : forall n id, tm_byName tm !! n = Some id <-> exists t, tm_tenants tm !! id = Some t /\ tn_Name t = n /\ live t;
  tm_valid : forall id q, qm_quotas (tm_quotaMgr tm) !! id = Some q -> quota_Validate q = None;
  tm_limited : forall id t, tm_tenants tm !! id = Some t -> live t -> is_Some (qm_quotas (tm_quotaMgr tm) !! id) }.

(** The operations of the manager. A minted id is new: it is drawn from the
    cryptographic random source. *)
Inductive tmStep (tm : TenantManager) : TenantManager -> Prop :=
| StepCreate id now name display q : tm_tenants tm !! id = None -> tmStep tm (Create tm id now name display q).1
| StepRestore now t q : tmStep tm (Restore tm now t q).1
| StepSuspend now id reason : tmStep tm (Suspend tm now id reason).1
| StepResume now id : tmStep tm (Resume tm now id).1
| StepDelete now id : tmStep tm (Delete tm now id).1
| StepUpdateQuota now id q : tmStep tm (UpdateQuota tm now id q).1
| StepUsage o : tmStep tm (MkTM (tm_tenants tm) (tm_byName tm) (runQuota (tm_quotaMgr tm) o)).

Lemma setQuota_spec qm now id q qm' : SetQuota qm now id q = (qm', None) ->
  exists q', qm_quotas qm' = <[id := q']> (qm_quotas qm) /\ quota_Validate q' = None /\ forall r, LimitFor q' r = LimitFor q r.
Proof.
  unfold SetQuota. case_match; [done|]. cbv zeta. case_match eqn:Hv; [done|]. intros [= <-]. cbn [qm_quotas]. eexists. split; [done|].
  split; [|done]. revert Hv. unfold quota_Validate. done.
Qed.

Lemma newTenant_ok id now n d : tenant_Validate (NewTenant id now n d) = None -> id <> "".
Proof. unfold tenant_Validate, NewTenant. cbn. by destruct (String.eqb_spec id ""). Qed.

(** A new tenant under a new id, whose name nobody holds if it is live. *)
Lemma add_ok tm t qm' :
  tmOk tm -> tm_tenants tm !! tn_ID t = None -> tenant_Validate t = None -> (live t -> tm_byName tm !! tn_Name t = None) ->
  (exists q', qm_quotas qm' = <[tn_ID t := q']> (qm_quotas (tm_quotaMgr tm)) /\ quota_Validate q' = None) ->
  tmOk (MkTM (<[tn_ID t := t]> (tm_tenants tm)) (if bool_decide (tn_Status t = TenantDeleted) then tm_byName tm else <[tn_Name t := tn_ID t]> (tm_byName tm)) qm').
Proof.
  intros Hok Hnew Hv Hname (q' & Hq & Hqv). split; cbn [tm_tenants tm_byName tm_quotaMgr].
  - intros id u. rewrite lookup_insert_Some. intros [[<- <-]|[_ Hu]]; [done|by apply Hok].
  - intros n id. assert (Hold : (exists u, <[tn_ID t := t]> (tm_tenants tm) !! id = Some u /\ tn_Name u = n /\ live u) <->
      (id = tn_ID t /\ tn_Name t = n /\ live t) \/ (exists u, tm_tenants tm !! id = Some u /\ tn_Name u = n /\ live u)).
    { setoid_rewrite lookup_insert_Some. split.
      - intros (u & [[<- <-]|[Hne Hu]] & ? & ?); [by left|right; eauto].
      - intros [(-> & ? & ?)|(u & Hu & ? & ?)]; [by exists t; auto|]. exists u. split; [right|done]. split; [|done]. intros <-. congruence. }
    rewrite Hold, <- (tm_names tm Hok). case_bool_decide as Hd.
    + split; [by right|]. intros [(_ & _ & Hl)|?]; [by destruct Hl|done].
    + rewrite lookup_insert_Some. split; [naive_solver|]. intros [(-> & <- & _)|Hn]; [by left|]. right. split; [|done].
      intros <-. rewrite Hname in Hn by done. done.
  - intros id q. rewrite Hq, lookup_insert_Some. intros [[<- <-]|[_ ?]]; [done|by eapply Hok].
  - intros id u Hu Hl. rewrite Hq, lookup_insert_is_Some. apply lookup_insert_Some in Hu as [[<- _]|[Hne Hu]]; [by left|right; split; [done|by eapply Hok]].
Qed.

(** A change of one tenant's status between live ones. *)
Lemma status_ok tm id t s reason now : tmOk tm -> tm_tenants tm !! id = Some t -> live t -> s <> TenantDeleted -> tmOk (withTenant tm id (setStatus t s reason now)).
Proof.
  intros Hok Ht Hl Hs. destruct (tm_ids tm Hok id t Ht) as [Hid Hv]. split; cbn [withTenant tm_tenants tm_byName tm_quotaMgr].
  - intros id' u. rewrite lookup_insert_Some. intros [[<- <-]|[_ Hu]]; [by split|by apply Hok].
  - intros n id'. rewrite (tm_names tm Hok). split.
    + intros (u & Hu & Hn & Hlu). destruct (decide (id = id')) as [<-|]; [|exists u; by rewrite lookup_insert_ne].
      exists (setStatus t s reason now). rewrite lookup_insert_eq. simplify_eq. by split_and!.
    + intros (u & Hu & Hn & Hlu). apply lookup_insert_Some in Hu as [[<- <-]|[_ Hu]]; [exists t; by split_and!|eauto].
  - intros id' q. apply Hok.
  - intros id' u Hu Hlu. apply lookup_insert_Some in Hu as [[<- <-]|[_ Hu]]; [by eapply Hok|by eapply Hok].
Qed.

Lemma delete_tenant_ok tm now id : tmOk tm -> tmOk (Delete tm now id).1.
Proof.
  intros Hok. unfold Delete. destruct (tm_tenants tm !! id) as [t|] eqn:Ht; [|done]. case_bool_decide as Hd; [done|]. cbn [fst].
  destruct (tm_ids tm Hok id t Ht) as [Hid Hv].
  assert (Hbn : tm_byName tm !! tn_Name t = Some id) by (apply (tm_names tm Hok); eauto).
  split; cbn [tm_tenants tm_byName tm_quotaMgr RemoveQuota qm_quotas].
  - intros id' u. rewrite lookup_insert_Some. intros [[<- <-]|[_ Hu]]; [by split|by apply Hok].
  - intros n id'. rewrite lookup_delete_Some, (tm_names tm Hok). split.
    + intros (Hne & u & Hu & Hn & Hl). exists u. rewrite lookup_insert_ne; [done|]. intros <-. simplify_eq.
    + intros (u & Hu & Hn & Hl). apply lookup_insert_Some in Hu as [[<- <-]|[Hne Hu]]; [by destruct Hl|]. split; [|eauto].
      intros E. subst n. assert (Hb : tm_byName tm !! tn_Name u = Some id') by (apply (tm_names tm Hok); eauto). congruence.
  - intros id' q. rewrite lookup_delete_Some. intros [_ ?]. by eapply Hok.
  - intros id' u Hu Hl. apply lookup_insert_Some in Hu as [[<- <-]|[Hne Hu]]; [by destruct Hl|]. rewrite lookup_delete_ne by done. by eapply Hok.
Qed.

Lemma held_live tm n : tmOk tm -> forall h, tm_byName tm !! n = Some h -> exists p, tm_tenants tm !! h = Some p /\ tn_Status p <> TenantDeleted /\ tn_Name p = n.
Proof. intros Hok h Hh. apply (tm_names tm Hok) in Hh as (p & ? & ? & ?). eauto. Qed.

(** What a successful restore requires and does. *)
Lemma restore_cases tm now t q : tmOk tm ->
  (Restore tm now t q).1 = tm \/
  (tenant_Validate t = None /\ tm_tenants tm !! tn_ID t = None /\ tm_byName tm !! tn_Name t = None /\
   exists qm' q', qm_quotas qm' = <[tn_ID t := q']> (qm_quotas (tm_quotaMgr tm)) /\ quota_Validate q' = None /\ (forall r, LimitFor q' r = LimitFor q r) /\
   (Restore tm now t q).1 = MkTM (<[tn_ID t := t]> (tm_tenants tm)) (if bool_decide (tn_Status t = TenantDeleted) then tm_byName tm else <[tn_Name t := tn_ID t]> (tm_byName tm)) qm').
Proof.
  intros Hok. unfold Restore. destruct (tenant_Validate t) eqn:Hv; [by left|]. destruct (tm_tenants tm !! tn_ID t) eqn:Ht; [by left|]. cbv zeta.
  destruct (tm_byName tm !! tn_Name t) as [h|] eqn:Hn.
  - destruct (held_live tm _ Hok h Hn) as (p & Hp & Hs & _). assert (h <> tn_ID t) by congruence.
    rewrite (proj2 (String.eqb_neq _ _)), Hp, bool_decide_eq_false_2 by done. by left.
  - destruct (SetQuota _ _ _ _) as [qm' [e|]] eqn:Hq; [by left|]. right. apply setQuota_spec in Hq as (q' & ? & ? & ?). split_and!; [done..|]. exists qm', q'. by split_and!.
Qed.

Lemma tmStep_ok tm tm' : tmStep tm tm' -> tmOk tm -> tmOk tm'.
Proof.
  intros Hstep Hok. destruct Hstep as [id now name display q Hnew|now t q|now id reason|now id|now id|now id q|o].
  - unfold Create. case_match; [done|]. cbv zeta. destruct (tenant_Validate _) eqn:Hv; [done|]. destruct (tm_byName tm !! name) eqn:Hn; [done|].
    destruct (SetQuota _ _ _ _) as [qm' [e|]] eqn:Hq; [done|]. apply setQuota_spec in Hq as (q' & Hq & Hqv & _). cbn [fst].
    apply (add_ok tm (NewTenant id now name display) qm'); eauto.
  - destruct (restore_cases tm now t q Hok) as [->|(Hv & Ht & Hn & qm' & q' & Hq & Hqv & _ & ->)]; [done|]. apply add_ok; eauto.
  - unfold Suspend. destruct (tm_tenants tm !! id) as [t|] eqn:Ht; [|done]. destruct (tn_Status t) eqn:Hs; [| |done].
    + apply status_ok; try done. unfold live. congruence.
    + case_match; [done|]. apply status_ok; try done. unfold live. congruence.
  - unfold Resume. destruct (tm_tenants tm !! id) as [t|] eqn:Ht; [|done]. destruct (tn_Status t) eqn:Hs; [done| |done].
    apply status_ok; try done. unfold live. congruence.
  - by apply delete_tenant_ok.
  - unfold UpdateQuota. destruct (tm_tenants tm !! id) as [t|] eqn:Ht; [|done]. case_bool_decide as Hd; [done|].
    destruct (SetQuota _ _ _ _) as [qm' [e|]] eqn:Hq; [done|]. apply setQuota_spec in Hq as (q' & Hq & Hqv & _). cbn [fst].
    split; cbn [tm_tenants tm_byName tm_quotaMgr]; [apply Hok|apply Hok| |].
    + intros id' q1. rewrite Hq, lookup_insert_Some. intros [[<- <-]|[_ ?]]; [done|by eapply Hok].
    + intros id' u Hu Hl. rewrite Hq, lookup_insert_is_Some. destruct (decide (id = id')); [by left|right; split; [done|by eapply Hok]].
  - split; cbn [tm_tenants tm_byName tm_quotaMgr]; rewrite ?quotas_same; apply Hok.
Qed.

(** Records stay, under their name; those of deleted tenants do not change. *)
Definition retained (tm tm' : TenantManager) : Prop :=
  forall id t, tm_tenants tm !! id = Some t -> exists t', tm_tenants tm' !! id = Some t' /\ tn_Name t' = tn_Name t /\ (tn_Status t = TenantDeleted -> t' = t).
#[export] Instance retained_preorder : PreOrder retained.
Proof.
  split; [intros tm id t Ht; by exists t|]. intros tm1 tm2 tm3 H1 H2 id t Ht. destruct (H1 id t Ht) as (t2 & Ht2 & Hn2 & Hd2).
  destruct (H2 id t2 Ht2) as (t3 & Ht3 & Hn3 & Hd3). exists t3. split_and!; [done|congruence|]. intros Hd. rewrite (Hd2 Hd) in *. auto.
Qed.
Lemma retained_insert tm id t bn qm :
  (forall old, tm_tenants tm !! id = Some old -> tn_Name t = tn_Name old /\ live old) -> retained tm (MkTM (<[id := t]> (tm_tenants tm)) bn qm).
Proof.
  intros H id' u Hu. cbn [tm_tenants]. destruct (decide (id = id')) as [<-|]; [|exists u; by rewrite lookup_insert_ne].
  destruct (H u Hu) as [Hn Hl]. exists t. rewrite lookup_insert_eq. split_and!; [done..|]. by intros ?.
Qed.

Lemma tmStep_retained tm tm' : tmStep tm tm' -> tmOk tm -> retained tm tm'.
Proof.
  intros Hstep Hok. destruct Hstep as [id now name display q Hnew|now t q|now id reason|now id|now id|now id q|o].
  - unfold Create. case_match; [done|]. cbv zeta. destruct (tenant_Validate _); [done|]. destruct (tm_byName tm !! name); [done|].
    destruct (SetQuota _ _ _ _) as [qm' [e|]]; [done|]. apply retained_insert. intros old Ho. congruence.
  - destruct (restore_cases tm now t q Hok) as [->|(_ & Ht & _ & qm' & q' & _ & _ & _ & ->)]; [done|]. apply retained_insert. intros old Ho. congruence.
  - unfold Suspend. destruct (tm_tenants tm !! id) as [t|] eqn:Ht; [|done]. destruct (tn_Status t) eqn:Hs; [| |done].
    + apply retained_insert. intros old Ho. simplify_eq. split; [done|]. unfold live. congruence.
    + case_match; [done|]. apply retained_insert. intros old Ho. simplify_eq. split; [done|]. unfold live. congruence.
  - unfold Resume. destruct (tm_tenants tm !! id) as [t|] eqn:Ht; [|done]. destruct (tn_Status t) eqn:Hs; [done| |done].
    apply retained_insert. intros old Ho. simplify_eq. split; [done|]. unfold live. congruence.
  - unfold Delete. destruct (tm_tenants tm !! id) as [t|] eqn:Ht; [|done]. case_bool_decide; [done|]. apply retained_insert.
    intros old Ho. by simplify_eq.
  - unfold UpdateQuota. repeat case_match; try done; intros id1 u Hu; by exists u.
  - intros id u Hu; by exists u.
Qed.

Lemma tmSteps_ok tm tm' : rtc tmStep tm tm' -> tmOk tm -> tmOk tm' /\ retained tm tm'.
Proof.
  induction 1 as [|tm1 tm2 tm3 H _ IH]; intros Hok; [done|]. destruct (IH (tmStep_ok _ _ H Hok)) as [? ?]. split; [done|].
  etrans; [by eapply tmStep_retained|done].
Qed.
Lemma newManager_ok : tmOk NewTenantManager.
Proof. split; cbn; try done. intros n id. split; [done|]. intros (t & Ht & _). done. Qed.

(** The registry of tenants stays consistent under every sequence of creations
    (with minted identifiers), restores, suspensions, resumptions, deletions,
    quota changes and reservations: a name resolves exactly to the live tenant
    that bears it, so no two live tenants share a name; every live tenant has a
    valid quota; and no later operation removes or renames a tenant's record,
    nor changes the record of a deleted tenant at all - a deletion is final,
    while its name becomes free for a new identity. *)
Theorem registry_lifecycle tm tm' :
  rtc tmStep NewTenantManager tm -> rtc tmStep tm tm' ->
  (forall n id, tm_byName tm !! n = Some id <-> exists t, tm_tenants tm !! id = Some t /\ tn_Name t = n /\ live t) /\
  (forall id id' t t', tm_tenants tm !! id = Some t -> tm_tenants tm !! id' = Some t' -> live t -> live t' -> tn_Name t = tn_Name t' -> id = id') /\
  (forall id t, tm_tenants tm !! id = Some t -> live t -> exists q, GetQuota (tm_quotaMgr tm) id = inr q /\ quota_Validate q = None) /\
  (forall id t, tm_tenants tm !! id = Some t -> exists t', tm_tenants tm' !! id = Some t' /\ tn_Name t' = tn_Name t /\ (tn_Status t = TenantDeleted -> t' = t)).
Proof.
  intros H1 H2. destruct (tmSteps_ok _ _ H1 newManager_ok) as [Hok _]. destruct (tmSteps_ok _ _ H2 Hok) as [_ Hr]. split_and!.
  - apply Hok.
  - intros id id' t t' Ht Ht' Hl Hl' Hn. assert (E : tm_byName tm !! tn_Name t = Some id) by (apply (tm_names tm Hok); eauto).
    assert (E' : tm_byName tm !! tn_Name t = Some id') by (apply (tm_names tm Hok); eauto). congruence.
  - intros id t Ht Hl. destruct (tm_limited tm Hok id t Ht Hl) as [q Hq]. exists q. unfold GetQuota. rewrite Hq. split; [done|]. by eapply Hok.
  - done.
Qed.

Definition sampleLimits : Limits := MkQuota "" 5 1 0 0 0 0.
Definition sampleTM : TenantManager := (Delete (Create NewTenantManager "tenant-1" 1 "acme" "Acme" sampleLimits).1 2 "tenant-1").1.
Definition sampleTM2 : TenantManager := (Create sampleTM "tenant-2" 3 "acme" "Acme again" sampleLimits).1.
Lemma registry_lifecycle_witness :
  (exists t', tm_tenants sampleTM2 !! "tenant-1" = Some t' /\ tn_Status t' = TenantDeleted) /\ tm_byName sampleTM2 !! "acme" = Some "tenant-2" /\
  forall id t, tm_tenants sampleTM !! id = Some t -> exists t', tm_tenants sampleTM2 !! id = Some t' /\ tn_Name t' = tn_Name t /\ (tn_Status t = TenantDeleted -> t' = t).
Proof.
  split; [eexists; split; vm_compute; reflexivity|]. split; [vm_compute; reflexivity|].
  apply (registry_lifecycle sampleTM sampleTM2).
  - eapply rtc_l; [apply (StepCreate _ "tenant-1" 1 "acme" "Acme" sampleLimits); reflexivity|]. apply rtc_once. apply (StepDelete _ 2 "tenant-1").
  - apply rtc_once. apply (StepCreate _ "tenant-2" 3 "acme" "Acme again" sampleLimits). vm_compute. reflexivity.
Defined.

(** *** The registry file *)

Lemma parse_status s : ParseTenantStatus (status_String s) = inr s.
Proof. by destruct s. Qed.
Lemma limits_valid q id t0 t1 : quota_Validate q = None -> id <> "" ->
  quota_Validate (MkQuota id (q_MaxTargets q) (q_MaxConcurrentChanges q) (q_MaxStorageMB q) (q_MaxAPIRatePerMin q) t0 t1) = None.
Proof. intros Hv Hid. revert Hv. unfold quota_Validate. cbn. rewrite (proj2 (String.eqb_neq id "")) by done. by destruct (String.eqb _ _). Qed.

(** The quota a record carries: the installed one, or no limits. *)
Definition fileQuota (tm : TenantManager) (id : string) : Limits :=
  match GetQuota (tm_quotaMgr tm) id with inr q => q | inl _ => MkQuota "" 0 0 0 0 0 0 end.

Definition asRead (q : Limits) : Limits := MkQuota "" (q_MaxTargets q) (q_MaxConcurrentChanges q) (q_MaxStorageMB q) (q_MaxAPIRatePerMin q) 0 0.

Lemma restore_ok tm0 tm now t : tmOk tm -> tm_tenants tm !! tn_ID t = Some t -> tmOk tm0 -> tm_tenants tm0 !! tn_ID t = None -> tm_byName tm0 !! tn_Name t = None ->
  let q := fileQuota tm (tn_ID t) in
  exists qm' q', qm_quotas qm' = <[tn_ID t := q']> (qm_quotas (tm_quotaMgr tm0)) /\ (forall r, LimitFor q' r = LimitFor q r) /\
  (Restore tm0 now t (asRead q)).1 =
  MkTM (<[tn_ID t := t]> (tm_tenants tm0)) (if bool_decide (tn_Status t = TenantDeleted) then tm_byName tm0 else <[tn_Name t := tn_ID t]> (tm_byName tm0)) qm'.
Proof.
  intros Hok Ht Hok0 Hnew Hname q. destruct (tm_ids tm Hok _ _ Ht) as [_ Hv]. unfold Restore. rewrite Hv, Hnew, Hname. cbv zeta.
  assert (Hid : tn_ID t <> "") by (revert Hv; unfold tenant_Validate; by destruct (String.eqb_spec (tn_ID t) "")).
  assert (Hq : forall id, id <> "" -> quota_Validate (MkQuota id (q_MaxTargets q) (q_MaxConcurrentChanges q) (q_MaxStorageMB q) (q_MaxAPIRatePerMin q) 0 0) = None).
  { intros id Hi. subst q. unfold fileQuota, GetQuota. destruct (qm_quotas (tm_quotaMgr tm) !! tn_ID t) as [q|] eqn:E.
    - apply limits_valid; [by eapply Hok|done].
    - unfold quota_Validate. cbn. by rewrite (proj2 (String.eqb_neq id "")). }
  destruct (SetQuota _ _ _ _) as [qm' [e|]] eqn:Hs.
  - unfold SetQuota in Hs. rewrite (proj2 (String.eqb_neq _ _) Hid) in Hs. cbn in Hs. by rewrite Hq in Hs.
  - apply setQuota_spec in Hs as (q' & ? & _ & Hl). exists qm', q'. split_and!; [done| |done]. intros r. rewrite Hl. done.
Qed.

(** Every deleted tenant is before the live one of the same name. *)
Definition deletedFirst (l : list Tenant) : Prop :=
  forall l1 t l2 u, l = l1 ++ t :: l2 -> u ∈ l1 -> tn_Name u = tn_Name t -> live u -> live t.

Lemma reload_tenants tm now l : tmOk tm -> forall tm0,
  tmOk tm0 -> (forall t, t ∈ l -> tm_tenants tm !! tn_ID t = Some t) -> (forall t, t ∈ l -> tm_tenants tm0 !! tn_ID t = None) ->
  (forall id t, tm_tenants tm0 !! id = Some t -> tm_tenants tm !! id = Some t) -> NoDup (map tn_ID l) ->
  (forall t u, t ∈ l -> tm_byName tm0 !! tn_Name t = Some u -> live t) -> deletedFirst l ->
  exists tm', registryToManager now (managerToRegistry tm l) tm0 = inr tm' /\ tmOk tm' /\
  (forall id t, tm_tenants tm' !! id = Some t <-> tm_tenants tm0 !! id = Some t \/ (t ∈ l /\ tn_ID t = id)) /\
  (forall id, tm_tenants tm0 !! id <> None -> qm_quotas (tm_quotaMgr tm') !! id = qm_quotas (tm_quotaMgr tm0) !! id) /\
  (forall t, t ∈ l -> exists q', qm_quotas (tm_quotaMgr tm') !! tn_ID t = Some q' /\ forall r, LimitFor q' r = LimitFor (fileQuota tm (tn_ID t)) r).
Proof.
  intros Hok. induction l as [|t l IH]; intros tm0 Hok0 Hin Hnew Hsub Hnd Hheld Hord; cbn [managerToRegistry map registryToManager].
  { exists tm0. split_and!; [done..| | |]; set_solver. }
  apply NoDup_cons in Hnd as [Ht0 Hnd]. pose proof (Hin t ltac:(left)) as Ht. pose proof (Hnew t ltac:(left)) as Hn0.
  destruct (tm_ids tm Hok _ _ Ht) as [_ Hv].
  assert (Hns : (if String.eqb (tn_Namespace t) "" then NamespaceFor (tn_Name t) else tn_Namespace t) = tn_Namespace t).
  { revert Hv. unfold tenant_Validate. repeat case_match; done. }
  cbn [recordOf rec_Status rec_Namespace rec_Name rec_ID rec_DisplayName rec_SuspendReason rec_CreatedAt rec_UpdatedAt rec_Labels
       rec_MaxTargets rec_MaxConcurrentChanges rec_MaxStorageMB rec_MaxAPIRatePerMin].
  rewrite parse_status, Hns. fold (fileQuota tm (tn_ID t)). fold (asRead (fileQuota tm (tn_ID t))).
  assert (Hname : tm_byName tm0 !! tn_Name t = None).
  { destruct (tm_byName tm0 !! tn_Name t) as [h|] eqn:Eh; [|done]. pose proof (Hheld t h ltac:(left) Eh) as Hl.
    apply (tm_names tm0 Hok0) in Eh as (p & Hp & Hpn & Hpl). pose proof (Hsub _ _ Hp) as Hp'.
    assert (E : tm_byName tm !! tn_Name t = Some h) by (apply (tm_names tm Hok); eauto).
    assert (E' : tm_byName tm !! tn_Name t = Some (tn_ID t)) by (apply (tm_names tm Hok); eauto). congruence. }
  destruct (restore_ok tm0 tm now t Hok Ht Hok0 Hn0 Hname) as (qm' & q' & Hq & Hlim & Hres). cbv zeta in Hres.
  replace (MkTenant (tn_ID t) (tn_Name t) (tn_DisplayName t) (tn_Namespace t) (tn_Status t) (tn_SuspendReason t) (tn_CreatedAt t) (tn_UpdatedAt t) (tn_Labels t)) with t by (by destruct t).
  pose proof (tmStep_ok _ _ (StepRestore tm0 now t (asRead (fileQuota tm (tn_ID t)))) Hok0) as Hok1. rewrite Hres in Hok1 |- *. set (tm1 := MkTM _ _ _) in *.
  destruct (IH tm1 Hok1) as (tm' & Hr & Hok' & Htn & Hkeep & Hlims).
  - intros u Hu. apply Hin. by right.
  - intros u Hu. cbn [tm1 tm_tenants]. rewrite lookup_insert_ne; [apply Hnew; by right|]. intros E. apply Ht0. rewrite E. by apply (list_elem_of_fmap_2 tn_ID).
  - intros id u. cbn [tm1 tm_tenants]. rewrite lookup_insert_Some. intros [[<- <-]|[_ ?]]; [done|by apply Hsub].
  - done.
  - intros u h Hu. cbn [tm1 tm_byName]. case_bool_decide as Hd; [by apply Hheld; right|]. rewrite lookup_insert_Some. intros [[Hn _]|[_ Hh]]; [|by eapply Hheld; [right|]].
    apply list_elem_of_split in Hu as (l1 & l2 & ->). eapply (Hord (t :: l1) u l2 t); [done|by left|done|done].
  - intros l1 u l2 w E Hw. eapply (Hord (t :: l1) u l2 w); [by rewrite E|by right].
  - exists tm'. split_and!; [exact Hr|done| | |].
    + intros id u. rewrite Htn. cbn [tm1 tm_tenants]. rewrite lookup_insert_Some, elem_of_cons. split.
      * intros [[[<- <-]|[_ ?]]|[? ?]]; [right; by split; [left|]|by left|right; by split; [right|]].
      * intros [Hu|[[->|Hu] <-]]; [left; right; split; [|done]; intros <-; congruence|by left; left|by right].
    + intros id Hid. rewrite Hkeep; cbn [tm1 tm_tenants tm_quotaMgr].
      * rewrite Hq, lookup_insert_ne; [done|]. intros <-. done.
      * rewrite lookup_insert_ne; [done|]. intros <-. done.
    + intros u Hu. apply elem_of_cons in Hu as [->|Hu]; [|by apply Hlims]. exists q'. split; [|done].
      rewrite Hkeep; cbn [tm1 tm_tenants tm_quotaMgr]; [by rewrite Hq, lookup_insert_eq|by rewrite lookup_insert_eq].
Qed.

Lemma option_eq_iff {A} (x y : option A) : (forall a, x = Some a <-> y = Some a) -> x = y.
Proof. destruct x as [a|], y as [b|]; intros H; [by apply H|by destruct (H a) as [->]|by destruct (H b) as [_ ->]|done]. Qed.

(** Saving the registry of tenants and loading it back gives the same tenants
    under the same identifiers, the same resolution of names and, for every live
    tenant, the same limits, for every reachable registry and every order in
    which the tenants are written, provided a deleted tenant is written before
    the live one that reuses its name. The order is that of a Go map walk: in
    the other order the deleted tenant is dropped
    (reload_drops_a_deleted_tenant). *)
Theorem registry_roundtrip tm now l :
  rtc tmStep NewTenantManager tm -> l ≡ₚ List_ tm -> deletedFirst l ->
  exists tm', registryToManager now (managerToRegistry tm l) NewTenantManager = inr tm' /\
  tm_tenants tm' = tm_tenants tm /\ tm_byName tm' = tm_byName tm /\
  forall id t, tm_tenants tm !! id = Some t -> live t ->
  exists q q', GetQuota (tm_quotaMgr tm) id = inr q /\ GetQuota (tm_quotaMgr tm') id = inr q' /\ forall r, LimitFor q' r = LimitFor q r.
Proof.
  intros Hr Hp Hord. destruct (tmSteps_ok _ _ Hr newManager_ok) as [Hok _].
  assert (Hl : forall t, t ∈ l <-> tm_tenants tm !! tn_ID t = Some t).
  { intros t. rewrite Hp. unfold List_. rewrite list_elem_of_fmap. split.
    - intros ([id u] & -> & Hu). apply elem_of_map_to_list in Hu. simpl. by destruct (tm_ids tm Hok _ _ Hu) as [-> _].
    - intros Ht. exists (tn_ID t, t). split; [done|]. by apply elem_of_map_to_list. }
  assert (Hnd : NoDup (map tn_ID l)).
  { apply (NoDup_fmap_2_strong tn_ID).
    - intros x y Hx%Hl Hy%Hl E. rewrite E in Hx. congruence.
    - rewrite Hp. apply (NoDup_fmap_1 tn_ID). unfold List_. rewrite <- list_fmap_compose.
      erewrite (list_fmap_ext _ fst); [apply NoDup_fst_map_to_list|]. intros k [id u] Hu. apply list_elem_of_lookup_2, elem_of_map_to_list in Hu.
      simpl. by destruct (tm_ids tm Hok _ _ Hu) as [-> _]. }
  destruct (reload_tenants tm now l Hok NewTenantManager newManager_ok) as (tm' & Hload & Hok' & Htn & _ & Hlim); [by intros; apply Hl|done|done|done|done|done|].
  assert (Ht : tm_tenants tm' = tm_tenants tm).
  { apply map_eq. intros id. apply option_eq_iff. intros t. rewrite Htn. split.
    - intros [Hn|[Hin <-]]; [done|by apply Hl].
    - intros Hs. right. destruct (tm_ids tm Hok _ _ Hs) as [<- _]. by split; [apply Hl|]. }
  exists tm'. split_and!; [done..| |].
  - apply map_eq. intros n. apply option_eq_iff. intros id. by rewrite (tm_names tm' Hok'), (tm_names tm Hok), Ht.
  - intros id t Hs Hlive. destruct (tm_ids tm Hok _ _ Hs) as [<- _]. destruct (Hlim t (proj2 (Hl t) Hs)) as (q' & Hq' & Hall).
    destruct (tm_limited tm Hok _ _ Hs Hlive) as [q Hq]. exists q, q'. unfold GetQuota. rewrite Hq, Hq'. split_and!; [done..|].
    intros r. rewrite Hall. unfold fileQuota, GetQuota. by rewrite Hq.
Qed.

Definition sampleDeleted : Tenant := MkTenant "tenant-1" "acme" "Acme" "tenant-acme" TenantDeleted "" 1 2 ∅.
Definition sampleLive : Tenant := MkTenant "tenant-2" "acme" "Acme again" "tenant-acme" TenantActive "" 3 3 ∅.
Lemma sample_reachable : rtc tmStep NewTenantManager sampleTM2.
Proof.
  eapply rtc_l; [apply (StepCreate _ "tenant-1" 1 "acme" "Acme" sampleLimits); reflexivity|].
  eapply rtc_l; [apply (StepDelete _ 2 "tenant-1")|].
  apply rtc_once. apply (StepCreate _ "tenant-2" 3 "acme" "Acme again" sampleLimits). vm_compute. reflexivity.
Defined.
Lemma registry_roundtrip_witness :
  [sampleDeleted; sampleLive] ≡ₚ List_ sampleTM2 /\
  exists tm', registryToManager 9 (managerToRegistry sampleTM2 [sampleDeleted; sampleLive]) NewTenantManager = inr tm' /\ tm_tenants tm' = tm_tenants sampleTM2.
Proof.
  assert (Hp : [sampleDeleted; sampleLive] ≡ₚ List_ sampleTM2).
  { first [exact (Permutation_refl [sampleDeleted; sampleLive])|exact (perm_swap sampleLive sampleDeleted [])]. }
  split; [exact Hp|].
  destruct (registry_roundtrip sampleTM2 9 [sampleDeleted; sampleLive] sample_reachable Hp) as (tm' & H1 & H2 & _); [|exists tm'; exact (conj H1 H2)].
  intros l1 t l2 u E Hu Hn Hl. destruct l1 as [|a [|b l1]]; [inversion Hu| |destruct l1; discriminate]. injection E as <- <- _. intros H. discriminate H.
Defined.

(** Written live tenant first - the order of a map walk is random - the deleted
    tenant is not restored: the name is held. The next save loses it. *)
Example reload_drops_a_deleted_tenant :
  [sampleLive; sampleDeleted] ≡ₚ List_ sampleTM2 /\
  match registryToManager 9 (managerToRegistry sampleTM2 [sampleLive; sampleDeleted]) NewTenantManager with
  | inr tm' => tm_tenants tm' !! "tenant-1" = None /\ tm_tenants tm' !! "tenant-2" = Some sampleLive
  | inl _ => False
  end.
Proof.
  split; [first [exact (Permutation_refl [sampleLive; sampleDeleted])|exact (perm_swap sampleDeleted sampleLive [])]|].
  vm_compute. done.
Qed.

End Quota.
