(* ===== verification/Tenant.v ===== *)
(** * Tenant: the tenant-enforcing store

    [TenantStore] (src/internal/tenant/store.go) over the store of [Store], method
    by method: the tenant of a call is resolved from its context (context.go),
    reads are filtered or checked on the way out, creations are stamped, changes
    are preceded by a check of ownership, and runs are counted against a quota.
    A method is a program over the database and the quota manager that may fail.
    Each base call is one statement; a method's own checks and its write are not
    one transaction in the code, and no other caller is interleaved here. *)

From Stdlib Require Import Lia.
From stdpp Require Import base gmap sets list strings sorting relations.
From S2P Require Import Prelude Sql Store Quota.
Import Sql.
Open Scope string_scope.
Open Scope list_scope.

Module Tenant.

Record world := MkWorld { w_db : db; w_qm : option Quota.QuotaManager }.
Definition M (A : Type) : Type := world -> (goerr + A) * world.
Definition ret {A} (a : A) : M A := fun w => (inr a, w).
Definition fail {A} (e : goerr) : M A := fun w => (inl e, w).
Definition bind {A B} (m : M A) (k : A -> M B) : M B := fun w => match m w with (inl e, w') => (inl e, w') | (inr a, w') => k a w' end.
Definition base {A} (o : Store.op A) : M A := fun w => let '(r, d) := o (w_db w) in (r, MkWorld d (w_qm w)).
Notation "'let*' x := m 'in' k" := (bind m (fun x => k)) (at level 10, x name, m at level 100, k at level 200).

(** ** Which tenant a call runs as *)

Definition ErrCrossTenantAccess := "tenant: cross-tenant access denied".
Definition ErrIsolationViolation := "tenant: isolation violation".
Definition DefaultTenantID := "default".

(** What [ContextWithTenant] bound, if anything. *)
Definition context : Type := option string.
Definition TenantFromContext (ctx : context) : goerr + string :=
  match ctx with
  | None => inl (EWrap "no tenant in context" (ESentinel Quota.ErrTenantNotFound))
  | Some id => if String.eqb id "" then inl (EWrap "empty tenant id in context" (ESentinel Quota.ErrTenantNotFound)) else inr id
  end.
Definition ContextWithTenant (_ : context) (tenantID : string) : context := Some tenantID.

(** A nil resolver is a disabled one. *)
Definition Resolver : Type := option bool.
Definition Enabled (r : Resolver) : bool := default false r.
Definition Resolve (r : Resolver) (ctx : context) : goerr + string := if Enabled r then TenantFromContext ctx else inr DefaultTenantID.
Definition Scope (r : Resolver) (ctx : context) : goerr + context * string :=
  match Resolve r ctx with inl e => inl e | inr id => inr (ContextWithTenant ctx id, id) end.

Record TenantStore := MkTenantStore { ts_ready : bool; ts_res : Resolver }.
Definition NewTenantStore (res : Resolver) : TenantStore := MkTenantStore true res.

Definition owner (x : Row) : string := text x "tenant_id".
Definition stamp (tid : string) (x : Row) : Row := <["tenant_id" := Text tid]> x.
Definition crossTenant (what : string) : goerr := EWrap what (ESentinel ErrCrossTenantAccess).
Definition violation (what : string) : goerr := EWrap what (ESentinel ErrIsolationViolation).

Section store.
Context (json_extract : string -> string -> value) (s : TenantStore) (ctx : context).

Definition notReady : M unit := if ts_ready s then ret tt else fail (EText "tenant: store not initialised").
Definition scope : M string :=
  let* _ := notReady in match Scope (ts_res s) ctx with inl e => fail e | inr (_, tid) => ret tid end.

Definition ownRunTenant (tid runID : string) : M unit :=
  if String.eqb runID "" then ret tt
  else let* run := base (Store.GetRun runID) in
       match run with
       | None => fail (violation "run not found")
       | Some r => if negb (String.eqb (owner r) tid) then fail (crossTenant "run belongs to another tenant") else ret tt
       end.
Definition ownRunByID (tid id : string) : M (option Row) :=
  let* run := base (Store.GetRun id) in
  match run with
  | None => ret None
  | Some r => if negb (String.eqb (owner r) tid) then fail (crossTenant "run belongs to another tenant") else ret (Some r)
  end.
Definition ownRunByIDRequires (tid id : string) : M unit :=
  let* run := ownRunByID tid id in match run with None => fail (violation "run not found") | Some _ => ret tt end.

(** ** The shapes of the methods *)

(** A nil argument is refused. *)
Definition nonNil {A} (what : string) (r : option Row) (k : Row -> M A) : M A :=
  match r with None => fail (EText ("tenant: nil " +:+ what)) | Some x => k x end.
(** Another tenant's row reads as absent. *)
Definition owned (tid : string) (r : option Row) : option Row :=
  match r with Some x => if negb (String.eqb (owner x) tid) then None else Some x | None => None end.
Definition getOwned (get : Store.op (option Row)) : M (option Row) :=
  let* tid := scope in let* r := base get in ret (owned tid r).
(** A child row is stamped once its run is the caller's. *)
Definition underRun {A} (what : string) (r : option Row) (put : option Row -> Store.op A) : M A :=
  let* tid := scope in
  nonNil what r (fun x => let* _ := ownRunTenant tid (text x "run_id") in base (put (Some (stamp tid x)))).
(** A change of a stored row, unless the row is another tenant's. *)
Definition ifOwned {A} (what : string) (get : Store.op (option Row)) (act : Store.op A) : M A :=
  let* tid := scope in
  let* r := base get in
  match r with
  | Some x => if negb (String.eqb (owner x) tid) then fail (crossTenant (what +:+ " belongs to another tenant")) else base act
  | None => base act
  end.
Definition listScoped {A} (list_ : string -> Store.op A) : M A := let* tid := scope in base (list_ tid).
Definition filterOwned (list_ : Store.op (list Row)) : M (list Row) :=
  let* tid := scope in let* l := base list_ in ret (List.filter (fun x => String.eqb (owner x) tid) l).
Definition pass {A} (o : Store.op A) : M A := let* _ := scope in base o.

(** ** Runs *)

Definition CreateRun (run : option Row) : M unit :=
  let* _ := notReady in
  nonNil "run" run (fun r =>
    let* tid := scope in
    fun w =>
      match w_qm w with
      | None => base (Store.CreateRun (Some (stamp tid r))) w
      | Some qm =>
          match Quota.CheckAndReserve qm tid Quota.ResourceConcurrentChanges 1 with
          | (qm', Some e) => (inl (EWrap "tenant: reserve concurrent change" e), MkWorld (w_db w) (Some qm'))
          | (qm', None) =>
              match base (Store.CreateRun (Some (stamp tid r))) (MkWorld (w_db w) (Some qm')) with
              | (inl e, w') => (inl e, MkWorld (w_db w') (Some (Quota.Release qm' tid Quota.ResourceConcurrentChanges 1).1))
              | ok => ok
              end
          end
      end).
Definition GetRun (id : string) : M (option Row) := getOwned (Store.GetRun id).
Definition UpdateRun (run : option Row) : M unit :=
  let* tid := scope in
  nonNil "run" run (fun r => let* _ := ownRunByIDRequires tid (text r "id") in base (Store.UpdateRun (Some (stamp tid r)))).
Definition UpdateRunStatusIf (id from to : string) (at_ : Z) : M bool :=
  let* tid := scope in let* _ := ownRunByID tid id in base (Store.UpdateRunStatusIf id from to at_).
Definition UpdateRunApprovalStatusIf (id from to status : string) (at_ : Z) : M bool :=
  let* tid := scope in let* _ := ownRunByID tid id in base (Store.UpdateRunApprovalStatusIf id from to status at_).
Definition UpdateRunPlan (id planJSON planHash : string) (at_ : Z) : M unit :=
  let* tid := scope in let* _ := ownRunByID tid id in base (Store.UpdateRunPlan id planJSON planHash at_).
Definition MarkNonTerminalSteps (runID marker : string) : M nat :=
  let* tid := scope in let* _ := ownRunTenant tid runID in base (Store.MarkNonTerminalSteps runID marker).
Definition ListRuns (f : Store.RunFilter) : M (list Row) :=
  listScoped (fun tid => Store.ListRuns (Store.MkRunFilter (Store.rf_Status f) (Store.rf_WorkflowName f) (Store.rf_TemplateName f) (Store.rf_Creator f)
    (Store.rf_IncidentID f) (Store.rf_Limit f) (Store.rf_Offset f) tid)).
Definition RunTrend (now : Z) (f : Store.RunTrendFilter) : M (list Store.RunTrendBucket * bool) :=
  listScoped (fun tid => Store.RunTrend now (Store.MkRunTrendFilter (Store.wf_Days f) (Store.wf_Env f) tid (Store.wf_OffsetMinutes f) (Store.wf_Limit f))).
Definition DeleteRun (id : string) : M unit :=
  let* tid := scope in
  let* _ := ownRunByIDRequires tid id in
  let* _ := base (Store.DeleteRun id) in
  fun w => (inr tt, MkWorld (w_db w) ((fun qm => (Quota.Release qm tid Quota.ResourceConcurrentChanges 1).1) <$> w_qm w)).

(** ** Batches, steps, traces, approvals *)

Definition CreateBatch (b : option Row) : M unit := underRun "batch" b Store.CreateBatch.
Definition GetBatch (id : string) : M (option Row) := getOwned (Store.GetBatch id).
Definition UpdateBatch (b : option Row) : M unit :=
  let* tid := scope in
  nonNil "batch" b (fun x =>
    if negb (String.eqb (owner x) "") && negb (String.eqb (owner x) tid) then fail (crossTenant "batch belongs to another tenant")
    else let* _ := ownRunTenant tid (text x "run_id") in base (Store.UpdateBatch (Some (stamp tid x)))).
Definition ListBatches (f : Store.BatchFilter) : M (list Row) :=
  listScoped (fun tid => Store.ListBatches (Store.MkBatchFilter (Store.bf_RunID f) (Store.bf_Status f) (Store.bf_Limit f) tid)).
Definition DeleteBatch (id : string) : M unit := ifOwned "batch" (Store.GetBatch id) (Store.DeleteBatch id).

Definition CreateStep (st : option Row) : M unit := underRun "step" st Store.CreateStep.
Definition GetStep (id : string) : M (option Row) := getOwned (Store.GetStep id).
Definition UpdateStep (st : option Row) : M unit := underRun "step" st Store.UpdateStep.
Definition ListSteps (f : Store.StepFilter) : M (list Row) :=
  listScoped (fun tid => Store.ListSteps (Store.MkStepFilter (Store.sf_RunID f) (Store.sf_BatchID f) (Store.sf_Host f) (Store.sf_Status f) (Store.sf_Limit f) tid)).
Definition DeleteStep (id : string) : M unit := ifOwned "step" (Store.GetStep id) (Store.DeleteStep id).

Definition CreateTrace (tr : option Row) : M unit := underRun "trace" tr Store.CreateTrace.
Definition GetTrace (id : string) : M (option Row) := getOwned (Store.GetTrace id).
Definition UpdateTrace (tr : option Row) : M unit := underRun "trace" tr Store.UpdateTrace.
Definition UpdateTraceChain (id prevHash currHash : string) : M unit := ifOwned "trace" (Store.GetTrace id) (Store.UpdateTraceChain id prevHash currHash).
Definition UpdateTraceChecksum (id checksum : string) : M unit := ifOwned "trace" (Store.GetTrace id) (Store.UpdateTraceChecksum id checksum).
Definition ListTraces (f : Store.TraceFilter) : M (list Row) :=
  listScoped (fun tid => Store.ListTraces (Store.MkTraceFilter (Store.tf_RunID f) (Store.tf_Event f) (Store.tf_Limit f) (Store.tf_Offset f) tid)).
Definition DeleteTrace (id : string) : M unit := ifOwned "trace" (Store.GetTrace id) (Store.DeleteTrace id).

Definition CreateApproval (a : option Row) : M unit := underRun "approval" a Store.CreateApproval.
Definition GetApproval (id : string) : M (option Row) := getOwned (Store.GetApproval id).
Definition UpdateApproval (a : option Row) : M unit := underRun "approval" a Store.UpdateApproval.
Definition UpdateApprovalIfPending (a : option Row) : M bool := underRun "approval" a Store.UpdateApprovalIfPending.
Definition ListApprovals (f : Store.ApprovalFilter) : M (list Row) :=
  listScoped (fun tid => Store.ListApprovals (Store.MkApprovalFilter (Store.af_RunID f) (Store.af_Level f) (Store.af_Status f) (Store.af_Limit f) tid)).
Definition DeleteApproval (id : string) : M unit := ifOwned "approval" (Store.GetApproval id) (Store.DeleteApproval id).

(** ** Locks are global: a lock guards one physical host *)

Definition CreateLock (l : option Row) : M unit := let* _ := notReady in pass (Store.CreateLock l).
Definition GetLock (id : string) : M (option Row) := pass (Store.GetLock id).
Definition GetLockByScope (sc : string) : M (option Row) := pass (Store.GetLockByScope sc).
Definition UpdateLock (l : option Row) : M unit := pass (Store.UpdateLock l).
Definition UpdateLockOwnedBy (id owner_ : string) (ttl now : Z) : M nat := pass (Store.UpdateLockOwnedBy id owner_ ttl now).
Definition ListLocks : M (list Row) := pass Store.ListLocks.
Definition DeleteLock (id : string) : M unit := pass (Store.DeleteLock id).
Definition DeleteLockByIDAndOwner (id owner_ : string) : M bool := pass (Store.DeleteLockByIDAndOwner id owner_).
Definition DeleteExpiredLocks (now : Z) : M nat := pass (Store.DeleteExpiredLocks now).

(** ** Credentials and the audit log *)

Definition CreateCredential (c : option Row) : M unit :=
  let* tid := scope in nonNil "credential" c (fun x => base (Store.CreateCredential (Some (stamp tid x)))).
Definition GetCredential (id : string) : M (option Row) := getOwned (Store.GetCredential id).
Definition GetCredentialByName (name : string) : M (option Row) := getOwned (Store.GetCredentialByName name).
Definition UpdateCredential (c : option Row) : M unit :=
  let* tid := scope in
  nonNil "credential" c (fun x =>
    let* existing := base (Store.GetCredential (text x "id")) in
    match existing with
    | Some y => if negb (String.eqb (owner y) tid) then fail (crossTenant "credential belongs to another tenant")
                else base (Store.UpdateCredential (Some (stamp tid x)))
    | None => base (Store.UpdateCredential (Some (stamp tid x)))
    end).
Definition ListCredentials : M (list Row) := filterOwned Store.ListCredentials.
Definition DeleteCredential (id : string) : M unit := ifOwned "credential" (Store.GetCredential id) (Store.DeleteCredential id).

Definition CreateAudit (a : option Row) : M unit := underRun "audit" a Store.CreateAudit.
Definition GetAudit (id : string) : M (option Row) := getOwned (Store.GetAudit id).
Definition UpdateAuditChain (id prevHash currHash : string) : M unit := ifOwned "audit" (Store.GetAudit id) (Store.UpdateAuditChain id prevHash currHash).
Definition ListAudits (f : Store.AuditFilter) : M (list Row) :=
  listScoped (fun tid => Store.ListAudits (Store.MkAuditFilter (Store.uf_RunID f) (Store.uf_Action f) (Store.uf_Actor f) (Store.uf_Target f)
    (Store.uf_Limit f) (Store.uf_Offset f) tid)).
(** The tenant the caller names is ignored. *)
Definition ListAuditChainPage (cursor : option (Z * string)) (limit : Z) (_ : string) : M (list Row) :=
  listScoped (fun tid => Store.ListAuditChainPage cursor limit tid).

(** ** Assignments *)

Definition CreateAssignment (now : Z) (a : option Row) : M unit := underRun "assignment" a (Store.CreateAssignment now).
Definition GetAssignment (runID : string) : M (option Row) := getOwned (Store.GetAssignment runID).
Definition ListAssignments (f : Store.AssignmentFilter) : M (list Row) :=
  listScoped (fun tid => Store.ListAssignments (Store.MkAssignmentFilter (Store.nf_RunID f) (Store.nf_OwnerNode f) (Store.nf_State f)
    (Store.nf_ExcludeStates f) (Store.nf_Limit f) tid)).
Definition DeleteAssignment (runID : string) : M unit := ifOwned "assignment" (Store.GetAssignment runID) (Store.DeleteAssignment runID).
Definition assignmentOwned (runID tid : string) : M unit :=
  let* a := base (Store.GetAssignment runID) in
  match a with
  | None => ret tt
  | Some x => if negb (String.eqb (owner x) tid) then fail (crossTenant "assignment belongs to another tenant") else ret tt
  end.
Definition UpdateAssignmentStateIf (now : Z) (runID : string) (epoch : Z) (expected next : string) : M bool :=
  let* tid := scope in let* _ := assignmentOwned runID tid in base (Store.UpdateAssignmentStateIf now runID epoch expected next).
Definition UpdateAssignmentState (now : Z) (runID next : string) : M bool :=
  let* tid := scope in let* _ := assignmentOwned runID tid in base (Store.UpdateAssignmentState now runID next).
Definition Reassign (now : Z) (runID : string) (prevEpoch : Z) (newNode : string) : M bool :=
  let* tid := scope in let* _ := assignmentOwned runID tid in base (Store.Reassign now runID prevEpoch newNode).
Definition ReclaimAssignment (now : Z) (runID : string) (epoch : Z) (newNode : string) : M bool :=
  let* tid := scope in let* _ := assignmentOwned runID tid in base (Store.ReclaimAssignment now runID epoch newNode).
Definition SetAssignmentResult (now : Z) (runID : string) (epoch : Z) (result : string) : M unit :=
  let* tid := scope in let* _ := assignmentOwned runID tid in base (Store.SetAssignmentResult now runID epoch result).
Definition ListClusterNodes : M (list Row) := pass Store.ListClusterNodes.
Definition AssignmentSummary : M Store.AssignmentSummary := pass Store.assignmentSummary.
Definition BatchSummary (runID : string) : M Store.BatchSummary :=
  let* tid := scope in let* _ := ownRunTenant tid runID in base (Store.batchSummary runID).

(** ** Inventory *)

(** A row of another tenant, or one the caller says is another tenant's, is
    refused; a row without a tenant is adopted. *)
Definition upsertOwned (what tid : string) (x : Row) (get : Store.op (option Row)) (put : Row -> Store.op unit) : M unit :=
  if negb (String.eqb (owner x) "") && negb (String.eqb (owner x) tid) then fail (crossTenant (what +:+ " belongs to another tenant"))
  else let* existing := base get in
       match existing with
       | Some y => if negb (String.eqb (owner y) "") && negb (String.eqb (owner y) tid) then fail (crossTenant (what +:+ " belongs to another tenant"))
                   else base (put (stamp tid x))
       | None => base (put (stamp tid x))
       end.
Definition UpsertInventoryGroup (now : Z) (g : option Row) : M unit :=
  let* tid := scope in nonNil "inventory group" g (fun x => upsertOwned "group" tid x (Store.GetInventoryGroup (text x "id")) (Store.UpsertInventoryGroup now)).
Definition GetInventoryGroup (id : string) : M (option Row) := getOwned (Store.GetInventoryGroup id).
Definition GetInventoryGroupByName (name : string) : M (option Row) := getOwned (Store.GetInventoryGroupByName name).
Definition ListInventoryGroups : M (list Row) := filterOwned Store.ListInventoryGroups.
Definition DeleteInventoryGroup (id : string) : M unit := ifOwned "group" (Store.GetInventoryGroup id) (Store.DeleteInventoryGroup id).

Definition UpsertTarget (now : Z) (t : option Row) : M unit :=
  let* tid := scope in nonNil "target" t (fun x => upsertOwned "target" tid x (Store.GetTarget (text x "id")) (Store.UpsertTarget now)).
Definition GetTarget (id : string) : M (option Row) := getOwned (Store.GetTarget id).
Definition FindTargetByAddress (hostname : string) (port : Z) : M (option Row) := getOwned (Store.FindTargetByAddress hostname port).
Definition scopedTargets (f : Store.TargetFilter) (tid : string) : Store.TargetFilter :=
  Store.MkTargetFilter (Store.gf_GroupID f) (Store.gf_Status f) (Store.gf_Labels f) (Store.gf_Limit f) (Store.gf_Offset f) tid.
Definition ListTargets (f : Store.TargetFilter) : M (list Row) := listScoped (fun tid => Store.ListTargets json_extract (scopedTargets f tid)).
Definition UpdateTargetStatus (id status : string) : M unit := ifOwned "target" (Store.GetTarget id) (Store.UpdateTargetStatus id status).
Definition SetTargetReachability (id : string) (reachable : bool) (at_ : Z) : M unit :=
  ifOwned "target" (Store.GetTarget id) (Store.SetTargetReachability id reachable at_).
Definition DeleteTarget (id : string) : M unit := ifOwned "target" (Store.GetTarget id) (Store.DeleteTarget id).
Definition CountTargetsInGroup (groupID : string) : M nat :=
  let* tid := scope in
  let* g := base (Store.GetInventoryGroup groupID) in
  match owned tid g with
  | None => ret 0
  | Some _ =>
      let* n := base (Store.CountTargetsInGroup groupID) in
      if (n =? 0)%nat then ret 0
      else let* targets := base (Store.ListTargets json_extract (Store.MkTargetFilter groupID "" [] 0 0 tid)) in ret (length targets)
  end.

(** ** The interface, as implemented by the tenant store *)

Definition ans {A} (f : A -> Store.answer) (m : M A) : M Store.answer := let* a := m in ret (f a).
Definition done_ : M unit -> M Store.answer := ans (fun _ => Store.Done).

Definition exec (c : Store.call) : M Store.answer :=
  match c with
  | Store.DoCreateRun r => done_ (CreateRun r) | Store.DoGetRun id => ans Store.ARow (GetRun id) | Store.DoUpdateRun r => done_ (UpdateRun r)
  | Store.DoUpdateRunStatusIf id f t u => ans Store.ABool (UpdateRunStatusIf id f t u)
  | Store.DoUpdateRunApprovalStatusIf id f t a u => ans Store.ABool (UpdateRunApprovalStatusIf id f t a u)
  | Store.DoUpdateRunPlan id j h u => done_ (UpdateRunPlan id j h u)
  | Store.DoMarkNonTerminalSteps id m => ans Store.ACount (MarkNonTerminalSteps id m)
  | Store.DoListRuns f => ans Store.ARows (ListRuns f) | Store.DoRunTrend now f => ans (fun x => Store.ATrend x.1 x.2) (RunTrend now f)
  | Store.DoDeleteRun id => done_ (DeleteRun id)
  | Store.DoCreateBatch b => done_ (CreateBatch b) | Store.DoGetBatch id => ans Store.ARow (GetBatch id) | Store.DoUpdateBatch b => done_ (UpdateBatch b)
  | Store.DoListBatches f => ans Store.ARows (ListBatches f) | Store.DoDeleteBatch id => done_ (DeleteBatch id)
  | Store.DoCreateStep b => done_ (CreateStep b) | Store.DoGetStep id => ans Store.ARow (GetStep id) | Store.DoUpdateStep b => done_ (UpdateStep b)
  | Store.DoListSteps f => ans Store.ARows (ListSteps f) | Store.DoDeleteStep id => done_ (DeleteStep id)
  | Store.DoCreateTrace t => done_ (CreateTrace t) | Store.DoGetTrace id => ans Store.ARow (GetTrace id) | Store.DoUpdateTrace t => done_ (UpdateTrace t)
  | Store.DoUpdateTraceChain id p c => done_ (UpdateTraceChain id p c) | Store.DoUpdateTraceChecksum id c => done_ (UpdateTraceChecksum id c)
  | Store.DoListTraces f => ans Store.ARows (ListTraces f) | Store.DoDeleteTrace id => done_ (DeleteTrace id)
  | Store.DoCreateApproval a => done_ (CreateApproval a) | Store.DoGetApproval id => ans Store.ARow (GetApproval id)
  | Store.DoUpdateApproval a => done_ (UpdateApproval a) | Store.DoUpdateApprovalIfPending a => ans Store.ABool (UpdateApprovalIfPending a)
  | Store.DoListApprovals f => ans Store.ARows (ListApprovals f) | Store.DoDeleteApproval id => done_ (DeleteApproval id)
  | Store.DoCreateLock l => done_ (CreateLock l) | Store.DoGetLock id => ans Store.ARow (GetLock id) | Store.DoGetLockByScope sc => ans Store.ARow (GetLockByScope sc)
  | Store.DoUpdateLock l => done_ (UpdateLock l) | Store.DoUpdateLockOwnedBy id o t n => ans Store.ACount (UpdateLockOwnedBy id o t n)
  | Store.DoListLocks => ans Store.ARows ListLocks | Store.DoDeleteLock id => done_ (DeleteLock id)
  | Store.DoDeleteLockByIDAndOwner id o => ans Store.ABool (DeleteLockByIDAndOwner id o) | Store.DoDeleteExpiredLocks n => ans Store.ACount (DeleteExpiredLocks n)
  | Store.DoCreateCredential c => done_ (CreateCredential c) | Store.DoGetCredential id => ans Store.ARow (GetCredential id)
  | Store.DoGetCredentialByName n => ans Store.ARow (GetCredentialByName n) | Store.DoUpdateCredential c => done_ (UpdateCredential c)
  | Store.DoListCredentials => ans Store.ARows ListCredentials | Store.DoDeleteCredential id => done_ (DeleteCredential id)
  | Store.DoCreateAudit a => done_ (CreateAudit a) | Store.DoGetAudit id => ans Store.ARow (GetAudit id)
  | Store.DoUpdateAuditChain id p c => done_ (UpdateAuditChain id p c)
  | Store.DoListAudits f => ans Store.ARows (ListAudits f) | Store.DoListAuditChainPage a l t => ans Store.ARows (ListAuditChainPage a l t)
  | Store.DoCreateAssignment n a => done_ (CreateAssignment n a) | Store.DoGetAssignment r => ans Store.ARow (GetAssignment r)
  | Store.DoListAssignments f => ans Store.ARows (ListAssignments f) | Store.DoDeleteAssignment r => done_ (DeleteAssignment r)
  | Store.DoUpdateAssignmentStateIf n r e x y => ans Store.ABool (UpdateAssignmentStateIf n r e x y)
  | Store.DoUpdateAssignmentState n r x => ans Store.ABool (UpdateAssignmentState n r x) | Store.DoReassign n r e w => ans Store.ABool (Reassign n r e w)
  | Store.DoReclaimAssignment n r e w => ans Store.ABool (ReclaimAssignment n r e w)
  | Store.DoSetAssignmentResult n r e x => done_ (SetAssignmentResult n r e x)
  | Store.DoListClusterNodes => ans Store.ARows ListClusterNodes | Store.DoAssignmentSummary => ans Store.AAssignments AssignmentSummary | Store.DoBatchSummary r => ans Store.ABatches (BatchSummary r)
  | Store.DoUpsertInventoryGroup n g => done_ (UpsertInventoryGroup n g)
  | Store.DoGetInventoryGroup id => ans Store.ARow (GetInventoryGroup id) | Store.DoGetInventoryGroupByName n => ans Store.ARow (GetInventoryGroupByName n)
  | Store.DoListInventoryGroups => ans Store.ARows ListInventoryGroups | Store.DoDeleteInventoryGroup id => done_ (DeleteInventoryGroup id)
  | Store.DoUpsertTarget n t => done_ (UpsertTarget n t)
  | Store.DoGetTarget id => ans Store.ARow (GetTarget id) | Store.DoFindTargetByAddress h p => ans Store.ARow (FindTargetByAddress h p)
  | Store.DoListTargets f => ans Store.ARows (ListTargets f) | Store.DoUpdateTargetStatus id st => done_ (UpdateTargetStatus id st)
  | Store.DoSetTargetReachability id r t => done_ (SetTargetReachability id r t) | Store.DoDeleteTarget id => done_ (DeleteTarget id)
  | Store.DoCountTargetsInGroup g => ans Store.ACount (CountTargetsInGroup g)
  end.

End store.
End Tenant.
