(* ===== verification/Isolation.v ===== *)
(** * Isolation: what one tenant can learn and change

    Theorems about [Tenant]: without a resolved tenant nothing is reachable; the
    answers of the tenant-scoped reads depend on the caller's own rows only; and
    the changes a caller makes leave every other tenant's rows as they were, as
    long as it does not name another tenant's batch, step, approval or group
    where the code does not check it. The examples at the end show those
    unchecked places. *)

From Stdlib Require Import Lia.
From stdpp Require Import base gmap sets list strings sorting relations.
From S2P Require Import Prelude Sql Store Quota Table Tenant.
Import Sql Tenant.
Open Scope string_scope.
Open Scope list_scope.

Module Isolation.

(** ** Queries that find at most one row *)

Definition single (d : db) (T : string) (p : Row -> bool) : Prop :=
  forall k1 k2 x1 x2, tbl d T !! k1 = Some x1 -> tbl d T !! k2 = Some x2 -> p x1 = true -> p x2 = true -> k1 = k2.

Lemma select_single d T p x : single d T p -> head (select d T p []) = Some x <-> exists k, tbl d T !! k = Some x /\ p x = true.
Proof.
  intros Hs. unfold select. destruct (map_choose_or_empty (matching p (tbl d T))) as [(k & y & Hy)|E].
  - apply matching_lookup in Hy as [Hy Hp]. assert (E : matching p (tbl d T) = {[k := y]}).
    { apply map_eq. intros k'. destruct (decide (k = k')) as [<-|Hne].
      - rewrite lookup_singleton_eq. by apply matching_lookup.
      - rewrite lookup_singleton_ne by done. apply eq_None_not_Some. intros [z Hz]. apply matching_lookup in Hz as [Hz Hpz]. apply Hne. by eapply Hs. }
    rewrite E, map_to_list_singleton. cbn. split; [intros [= <-]; eauto|]. intros (k' & Hx & Hpx). assert (k' = k) as -> by (by eapply Hs). congruence.
  - rewrite E, map_to_list_empty. cbn. split; [done|]. intros (k & Hx & Hpx). assert (H : matching p (tbl d T) !! k = Some x) by (by apply matching_lookup).
    by rewrite E, lookup_empty in H.
Qed.

Lemma key_single d T k : dbOk d -> single d T (isText (sc_pk (schemaOf T)) k).
Proof.
  intros Hok k1 k2 x1 x2 H1 H2 P1 P2. apply eqv_text in P1, P2. apply (ok_key d Hok) in H1, H2. congruence.
Qed.
Lemma unique_single d T cs p : dbOk d -> cs ∈ sc_unique (schemaOf T) ->
  (forall x y c, c ∈ cs -> p x = true -> p y = true -> eqv (col x c) (col y c) = true) -> single d T p.
Proof.
  intros Hok Hcs Hp k1 k2 x1 x2 H1 H2 P1 P2. destruct (decide (k2 = k1)) as [|Hne]; [done|].
  pose proof (ok_unique d Hok T k1 x1 cs H1 Hcs) as Hf. apply not_true_iff_false in Hf. destruct Hf. apply clash_spec. exists k2, x2. split_and!; [done..|auto].
Qed.
Lemma isText_eqv c v x y : isText c v x = true -> isText c v y = true -> eqv (col x c) (col y c) = true.
Proof. unfold isText. rewrite !eqv_text. intros -> ->. by apply eqv_text. Qed.

(** A listing ordered by a unique column that is never NULL is strictly ordered,
    so filtering it is the listing of the rows that pass. *)
Lemma ordered_trans c : Transitive (ordered [Store.asc c]).
Proof. intros x y z. unfold Store.asc. rewrite !ordered_one. apply lev_trans. Qed.
Lemma ordered_total c : Total (ordered [Store.asc c]).
Proof. intros x y. unfold Store.asc. rewrite !ordered_one. apply lev_total. Qed.

Lemma select_elem d T p x : x ∈ (map_to_list (matching p (tbl d T))).*2 <-> exists k, tbl d T !! k = Some x /\ p x = true.
Proof.
  rewrite list_elem_of_fmap. split.
  - intros ([k y] & -> & H). apply elem_of_map_to_list, matching_lookup in H. eauto.
  - intros (k & H). exists (k, x). split; [done|]. by apply elem_of_map_to_list, matching_lookup.
Qed.
Lemma listed_strict d T c p : dbOk d -> [c] ∈ sc_unique (schemaOf T) -> c ∈ sc_notnull (schemaOf T) ->
  Table.strict (ordered [Store.asc c]) ((map_to_list (matching p (tbl d T))).*2).
Proof.
  intros Hok Hu Hn x y Hx Hy Hxy Hyx. apply select_elem in Hx as (k1 & H1 & _), Hy as (k2 & H2 & _). unfold Store.asc in *.
  rewrite ordered_one in Hxy, Hyx. pose proof (lev_antisym _ _ Hxy Hyx) as E. pose proof (ok_notnull d Hok T k1 x c H1 Hn) as Hnn.
  apply bool_decide_eq_false in Hnn. assert (k1 = k2) as ->; [|congruence].
  assert (Hs : single d T (fun z => eqv (col z c) (col x c))).
  2: { eapply Hs; [done|done|by apply eqv_true|apply eqv_true; split; congruence]. }
  eapply (unique_single d T [c]); [done|done|].
  intros u v c' Hc' Hu' Hv'. apply list_elem_of_singleton in Hc' as ->. apply eqv_true in Hu' as [? ->], Hv' as [? ->]. by apply eqv_true.
Qed.
Lemma rows_nodup d T p : dbOk d -> NoDup ((map_to_list (matching p (tbl d T))).*2).
Proof.
  intros Hok. apply NoDup_fmap_2_strong; [|apply NoDup_map_to_list]. intros [k x] [k' y] Hx Hy E. cbn in E. subst y.
  apply elem_of_map_to_list, matching_lookup in Hx as [Hx _], Hy as [Hy _]. apply (ok_key d Hok) in Hx, Hy. congruence.
Qed.
Lemma bool_filter (q : Row -> bool) l : List.filter q l = filter (fun x => q x = true) l.
Proof. induction l as [|x l IH]; [done|]. cbn [List.filter]. rewrite filter_cons, IH. by destruct (q x). Qed.
Lemma filter_select d T c (q : Row -> bool) : dbOk d -> [c] ∈ sc_unique (schemaOf T) -> c ∈ sc_notnull (schemaOf T) ->
  List.filter q (select d T (all []) [Store.asc c]) = select d T q [Store.asc c].
Proof.
  intros Hok Hu Hn. symmetry. rewrite bool_filter. unfold select. pose proof (ordered_trans c). pose proof (ordered_total c).
  rewrite <- (Table.sort_filter (ordered [Store.asc c])) by (by apply listed_strict).
  apply (Table.sort_unique (ordered [Store.asc c])); [by apply listed_strict|by apply StronglySorted_merge_sort|]. rewrite merge_sort_Permutation.
  apply NoDup_Permutation; [apply NoDup_filter, rows_nodup, Hok|apply rows_nodup, Hok|]. intros x.
  rewrite list_elem_of_filter, !select_elem. naive_solver.
Qed.

(** ** Views *)

(** The rows of a table that belong to a tenant. *)
Definition view (t : string) (d : db) (T : string) : table := matching (isText "tenant_id" t) (tbl d T).
Definition sameView (t : string) (d1 d2 : db) : Prop := forall T, view t d1 T = view t d2 T.

Lemma owner_isText t x : t <> "" -> isText "tenant_id" t x = true <-> owner x = t.
Proof.
  intros Ht. unfold isText, owner, text. rewrite eqv_text. destruct (col x "tenant_id"); split; intros H; simplify_eq; try done; by destruct Ht.
Qed.
Lemma view_lookup t d T k x : view t d T !! k = Some x <-> tbl d T !! k = Some x /\ isText "tenant_id" t x = true.
Proof. apply matching_lookup. Qed.
Lemma sameView_lookup t d1 d2 T k x : t <> "" -> sameView t d1 d2 -> owner x = t -> tbl d1 T !! k = Some x <-> tbl d2 T !! k = Some x.
Proof.
  intros Ht Hv Ho. apply (owner_isText t x Ht) in Ho. pose proof (view_lookup t d1 T k x). pose proof (view_lookup t d2 T k x). rewrite (Hv T) in *. tauto.
Qed.
Lemma select_view t d1 d2 T p keys : t <> "" -> (forall x, p x = true -> owner x = t) -> sameView t d1 d2 -> select d1 T p keys = select d2 T p keys.
Proof.
  intros Ht Hp Hv. unfold select. replace (matching p (tbl d1 T)) with (matching p (tbl d2 T)); [done|]. apply map_eq. intros k.
  apply Quota.option_eq_iff. intros x. rewrite !matching_lookup. split; intros [Hx Hpx]; (split; [|done]); by apply (sameView_lookup t d1 d2 T k x Ht Hv (Hp x Hpx)).
Qed.

Lemma scanGroup_owner x : owner (Store.scanGroup x) = owner x.
Proof. unfold owner, text, Store.scanGroup, Store.setCol. by rewrite col_insert_ne. Qed.
Lemma scanTarget_owner x : owner (Store.scanTarget x) = owner x.
Proof. unfold owner, text, Store.scanTarget, Store.setCol. by rewrite col_insert_ne. Qed.

(** ** Programs that leave the world as it is *)

Definition quiet {A} (m : M A) : Prop := forall w, (m w).2 = w.
Lemma ret_quiet {A} (a : A) : quiet (ret a).
Proof. by intros w. Qed.
Lemma fail_quiet {A} e : quiet (@fail A e).
Proof. by intros w. Qed.
Lemma bind_quiet {A B} (m : M A) (k : A -> M B) : quiet m -> (forall a, quiet (k a)) -> quiet (bind m k).
Proof. intros Hm Hk w. specialize (Hm w). unfold bind. destruct (m w) as [[e|a] w']; cbn in *; subst; [done|apply Hk]. Qed.
Lemma base_quiet {A} (o : Store.op A) : (forall d, (o d).2 = d) -> quiet (base o).
Proof. intros Ho [d q]. specialize (Ho d). unfold base. cbn. destruct (o d). cbn in *. by subst. Qed.
Lemma scope_quiet s ctx : quiet (scope s ctx).
Proof. intros w. unfold scope, notReady, bind. destruct (ts_ready s); [|done]. cbn. by destruct (Scope _ _) as [|[? ?]]. Qed.
Create HintDb quiet.
#[export] Hint Resolve ret_quiet fail_quiet bind_quiet base_quiet scope_quiet : quiet.
#[export] Hint Extern 1 (forall d, (_ d).2 = d) => (intros; reflexivity) : quiet.

(** ** Reading under a resolved tenant *)

Section caller.
Context (s : TenantStore) (ctx : context) (t : string).
Context (Hready : ts_ready s = true) (Hres : Resolve (ts_res s) ctx = inr t).

Lemma caller_nonempty : t <> "".
Proof using Hres.
  clear - Hres. unfold Resolve in Hres. destruct (Enabled _); [|by injection Hres as <-]. destruct ctx as [id|]; [|done]. cbn in Hres.
  destruct (String.eqb_spec id ""); [done|]. by injection Hres as <-.
Qed.
Lemma scope_is w : scope s ctx w = (inr t, w).
Proof using Hready Hres. unfold scope, notReady, bind, Scope. rewrite Hready. cbn. by rewrite Hres. Qed.
Lemma bind_scope {A} (k : string -> M A) w : bind (scope s ctx) k w = k t w.
Proof using Hready Hres. unfold bind. by rewrite scope_is. Qed.

(** The answer is the same in databases that agree on the caller's rows. *)
Definition blind {A} (m : M A) : Prop :=
  forall d1 d2 q1 q2, dbOk d1 -> dbOk d2 -> sameView t d1 d2 -> (m (MkWorld d1 q1)).1 = (m (MkWorld d2 q2)).1.

Lemma ans_blind {A} (f : A -> Store.answer) (m : M A) : blind m -> blind (ans f m).
Proof using Type.
  intros Hm d1 d2 q1 q2 H1 H2 Hv. specialize (Hm d1 d2 q1 q2 H1 H2 Hv). unfold ans, bind.
  destruct (m (MkWorld d1 q1)) as [[e|a] w1], (m (MkWorld d2 q2)) as [[e'|a'] w2]; cbn in *; congruence.
Qed.

Lemma owned_scan (f : Row -> Row) r : (forall x, owner (f x) = owner x) -> owned t (f <$> r) = f <$> owned t r.
Proof using Type. intros Hf. destruct r as [x|]; [|done]. cbn. rewrite Hf. by destruct (String.eqb _ _). Qed.

Lemma owned_same d1 d2 T p : single d1 T p -> single d2 T p -> sameView t d1 d2 -> owned t (head (select d1 T p [])) = owned t (head (select d2 T p [])).
Proof using Hres.
  intros S1 S2 Hv. apply Quota.option_eq_iff. intros x.
  assert (Ho : forall d, single d T p -> owned t (head (select d T p [])) = Some x <-> (exists k, tbl d T !! k = Some x /\ p x = true) /\ owner x = t).
  { intros d Hs. rewrite <- (select_single d T p x Hs). destruct (head (select d T p [])) as [y|]; cbn; [|naive_solver].
    destruct (String.eqb_spec (owner y) t); cbn; naive_solver. }
  rewrite (Ho d1 S1), (Ho d2 S2). split; intros [(k & Hk & Hp) Hx]; (split; [|done]); exists k; (split; [|done]);
    by apply (sameView_lookup t d1 d2 T k x caller_nonempty Hv Hx).
Qed.

Lemma getOwned_blind (get : Store.op (option Row)) f T p :
  (forall d, get d = (inr (f <$> head (select d T p [])), d)) -> (forall x, owner (f x) = owner x) -> (forall d, dbOk d -> single d T p) ->
  blind (getOwned s ctx get).
Proof using Hready Hres.
  intros Hg Hf Hs d1 d2 q1 q2 H1 H2 Hv. unfold getOwned. rewrite !bind_scope. unfold bind, base. rewrite !Hg. cbn.
  rewrite !(owned_scan f) by done. by rewrite (owned_same d1 d2) by auto.
Qed.
Lemma getRow_blind T p : (forall d, dbOk d -> single d T p) -> blind (getOwned s ctx (Store.queryRow T p)).
Proof using Hready Hres. intros Hs. apply (getOwned_blind _ id T p); [|done..]. intros d. by rewrite option_fmap_id. Qed.
Lemma getMapped_blind f T p : (forall x, owner (f x) = owner x) -> (forall d, dbOk d -> single d T p) ->
  blind (getOwned s ctx (Store.mapRow f (Store.queryRow T p))).
Proof using Hready Hres. intros Hf Hs. by apply (getOwned_blind _ f T p). Qed.

(** A statement whose result depends on the caller's rows only. *)
Definition own {A} (o : Store.op A) : Prop := forall d1 d2, sameView t d1 d2 -> (o d1).1 = (o d2).1.

Lemma all_scoped ps x : List.In (eqIf "tenant_id" t) ps -> all ps x = true -> owner x = t.
Proof using Hres.
  intros Hin Ha. unfold all in Ha. rewrite forallb_forall in Ha. specialize (Ha _ Hin). apply (owner_isText t x caller_nonempty).
  unfold eqIf in Ha. pose proof caller_nonempty. destruct (String.eqb_spec t ""); [done|]. exact Ha.
Qed.
Lemma query_own T ps keys limit : List.In (eqIf "tenant_id" t) ps -> own (Store.query T (all ps) keys limit).
Proof using Hres.
  intros Hin d1 d2 Hv. unfold Store.query. cbn. by rewrite (select_view t d1 d2) by eauto using caller_nonempty, all_scoped.
Qed.
Lemma queryPage_own what T ps keys limit offset : List.In (eqIf "tenant_id" t) ps -> own (Store.queryPage what T (all ps) keys limit offset).
Proof using Hres.
  intros Hin d1 d2 Hv. unfold Store.queryPage. cbn. by rewrite (select_view t d1 d2) by eauto using caller_nonempty, all_scoped.
Qed.
Lemma mapRows_own f o : own o -> own (Store.mapRows f o).
Proof using Type. intros Ho d1 d2 Hv. specialize (Ho d1 d2 Hv). unfold Store.mapRows. destruct (o d1) as [[|] ?], (o d2) as [[|] ?]; cbn in *; congruence. Qed.
Lemma runTrend_own now days env off limit : own (Store.RunTrend now (Store.MkRunTrendFilter days env t off limit)).
Proof using Hres.
  intros d1 d2 Hv. unfold Store.RunTrend, Store.runTrendQuery. cbn [Store.wf_Limit Store.wf_Days Store.wf_Env Store.wf_TenantID Store.wf_OffsetMinutes].
  rewrite (select_view t d1 d2); [done|apply caller_nonempty| |done]. intros x. apply all_scoped. cbn. auto.
Qed.
Lemma listScoped_blind {A} (list_ : string -> Store.op A) : own (list_ t) -> blind (listScoped s ctx list_).
Proof using Hready Hres.
  intros Hl d1 d2 q1 q2 H1 H2 Hv. unfold listScoped. rewrite !bind_scope. unfold base. specialize (Hl d1 d2 Hv). cbn [w_db].
  by destruct (list_ t d1), (list_ t d2).
Qed.

Lemma filterOwned_blind list_ f T c :
  (forall d, list_ d = (inr (map f (select d T (all []) [Store.asc c])), d)) -> (forall x, owner (f x) = owner x) ->
  [c] ∈ sc_unique (schemaOf T) -> c ∈ sc_notnull (schemaOf T) -> blind (filterOwned s ctx list_).
Proof using Hready Hres.
  intros Hl Hf Hu Hn d1 d2 q1 q2 H1 H2 Hv. unfold filterOwned. rewrite !bind_scope. unfold bind, base. rewrite !Hl. cbn. f_equal.
  assert (E : forall d, dbOk d -> List.filter (fun x => String.eqb (owner x) t) (map f (select d T (all []) [Store.asc c])) =
                        map f (select d T (isText "tenant_id" t) [Store.asc c])); 
    [|rewrite !E, (select_view t d1 d2); [done|apply caller_nonempty|intros x Hx; by apply (owner_isText t x caller_nonempty)|done..]].
  intros d Hd. rewrite <- (filter_select d T c (isText "tenant_id" t)) by done. induction (select d T (all []) [Store.asc c]) as [|x l IH]; [done|]. cbn.
  rewrite IH, Hf. assert (isText "tenant_id" t x = String.eqb (owner x) t) as ->; [|by destruct (String.eqb _ _)].
  apply eq_true_iff_eq. rewrite (owner_isText t x caller_nonempty). symmetry. apply String.eqb_eq.
Qed.

Context (json_extract : string -> string -> value).

Lemma countTargets_blind g : g <> "" -> blind (CountTargetsInGroup json_extract s ctx g).
Proof using Hready Hres.
  intros Hg d1 d2 q1 q2 H1 H2 Hv. unfold CountTargetsInGroup. rewrite !bind_scope.
  set (f := Store.MkTargetFilter g "" [] 0 0 t). set (p := all [eqIf "group_id" g; eqIf "status" ""; Store.hasLabels json_extract []; eqIf "tenant_id" t]).
  assert (E : forall d q, dbOk d ->
    bind (base (Store.GetInventoryGroup g)) (fun r => match owned t r with None => ret 0%nat | Some _ =>
      bind (base (Store.CountTargetsInGroup g)) (fun n => if (n =? 0)%nat then ret 0%nat
        else bind (base (Store.ListTargets json_extract f)) (fun l => ret (length l))) end) (MkWorld d q) =
    (inr (match owned t (head (select d "inventory_groups" (Store.byId g) [])) with
          | None => 0%nat | Some _ => length (select d "targets" p [Store.asc "hostname"; Store.asc "port"]) end), MkWorld d q)).
  { intros d q Hd. unfold bind, base, Store.GetInventoryGroup, Store.mapRow, Store.queryRow. cbn [w_db w_qm].
    rewrite (owned_scan Store.scanGroup) by apply scanGroup_owner.
    destruct (owned t _) as [y|]; [|done]. cbn [fmap option_fmap option_map Store.CountTargetsInGroup w_db w_qm]. cbv beta.
    destruct (Nat.eqb_spec (length (select d "targets" (isText "group_id" g) [])) 0) as [E|E].
    - unfold ret. do 2 f_equal. apply length_zero_iff_nil in E. destruct (select d "targets" p _) as [|x l] eqn:El; [done|]. exfalso.
      assert (Hx : x ∈ select d "targets" p [Store.asc "hostname"; Store.asc "port"]) by (rewrite El; left).
      unfold select in Hx. rewrite merge_sort_Permutation in Hx. apply select_elem in Hx as (k & Hk & Hp).
      assert (Hx : x ∈ select d "targets" (isText "group_id" g) []).
      { unfold select. rewrite merge_sort_Permutation. apply select_elem. exists k. split; [done|]. unfold p, all in Hp. rewrite forallb_forall in Hp.
        specialize (Hp (eqIf "group_id" g) (or_introl eq_refl)). unfold eqIf in Hp. by destruct (String.eqb_spec g ""). }
      rewrite E in Hx. set_solver.
    - unfold Store.ListTargets, Store.mapRows, Store.queryPage. cbn. by rewrite length_map. }
  rewrite !E by done. cbn [fst]. rewrite (owned_same d1 d2) by (try apply (key_single _ "inventory_groups"); done).
  rewrite (select_view t d1 d2); [done|apply caller_nonempty| |done]. intros x. apply all_scoped. cbn. auto.
Qed.

(** The calls that read the caller's rows. Locks are shared by all tenants, the
    assignment summary is node-wide, and the batch summary tells a missing run
    from another tenant's. *)
Definition scopedRead (c : Store.call) : bool :=
  match c with
  | Store.DoGetRun _ | Store.DoListRuns _ | Store.DoRunTrend _ _ | Store.DoGetBatch _ | Store.DoListBatches _ | Store.DoGetStep _ | Store.DoListSteps _
  | Store.DoGetTrace _ | Store.DoListTraces _ | Store.DoGetApproval _ | Store.DoListApprovals _ | Store.DoGetCredential _ | Store.DoGetCredentialByName _
  | Store.DoListCredentials | Store.DoGetAudit _ | Store.DoListAudits _ | Store.DoListAuditChainPage _ _ _ | Store.DoGetAssignment _
  | Store.DoListAssignments _ | Store.DoGetInventoryGroup _ | Store.DoGetInventoryGroupByName _ | Store.DoListInventoryGroups | Store.DoGetTarget _
  | Store.DoFindTargetByAddress _ _ | Store.DoListTargets _ => true
  | Store.DoCountTargetsInGroup g => negb (String.eqb g "")
  | _ => false
  end.

Lemma read_blind c : scopedRead c = true -> blind (exec json_extract s ctx c).
Proof using Hready Hres.
  destruct c; try discriminate; intros Hc; cbn [exec]; apply ans_blind;
    try (apply listScoped_blind;
         first [apply query_own|apply queryPage_own|apply mapRows_own, queryPage_own|apply runTrend_own]; repeat (first [left; reflexivity|right]));
    try (apply getRow_blind; intros d Hd; eapply key_single, Hd).
  - apply getRow_blind. intros d Hd. apply (unique_single d "credentials" ["name"]); [done|cbn; left|]. intros x y c. rewrite list_elem_of_singleton.
    intros ->. apply isText_eqv.
  - apply (filterOwned_blind _ id "credentials" "name"); [|done|left|left]. intros d. by rewrite map_id.
  - apply getMapped_blind; [apply scanGroup_owner|]. intros d Hd. apply (key_single d "inventory_groups"), Hd.
  - apply getMapped_blind; [apply scanGroup_owner|]. intros d Hd. apply (unique_single d "inventory_groups" ["name"]); [done|cbn; left|]. intros x y c.
    rewrite list_elem_of_singleton. intros ->. apply isText_eqv.
  - by apply (filterOwned_blind _ Store.scanGroup "inventory_groups" "name"); [|apply scanGroup_owner|left|left].
  - apply getMapped_blind; [apply scanTarget_owner|]. intros d Hd. apply (key_single d "targets"), Hd.
  - apply getMapped_blind; [apply scanTarget_owner|]. intros d Hd. apply (unique_single d "targets" ["hostname"; "port"]); [done|cbn; left|]. intros x y c Hin.
    unfold all. cbn. rewrite !andb_true_iff. intros (Hx & Hxp & _) (Hy & Hyp & _). apply eqv_true in Hxp as [_ Ex], Hyp as [_ Ey].
    apply elem_of_cons in Hin as [->|Hin]; [by eapply isText_eqv|]. apply list_elem_of_singleton in Hin as ->. rewrite Ex, Ey. by apply eqv_true.
  - apply countTargets_blind. cbn in Hc. by destruct (String.eqb_spec groupID "").
Qed.
Lemma read_quiet c : scopedRead c = true -> quiet (exec json_extract s ctx c).
Proof using Type.
  destruct c; try discriminate; intros _; cbn [exec]; apply bind_quiet; try apply ret_quiet;
    try solve [apply bind_quiet; [apply scope_quiet|intros tid]; first [apply bind_quiet; [apply base_quiet|]|apply base_quiet]; auto with quiet].
  apply bind_quiet; [apply scope_quiet|intros tid]. apply bind_quiet; [apply base_quiet; by intros d|intros g]. destruct (owned tid g); [|apply ret_quiet].
  apply bind_quiet; [apply base_quiet; by intros d|intros n]. destruct (n =? 0)%nat; auto with quiet.
Qed.
End caller.

(** ** Claims *)

Section claims.
Context (json_extract : string -> string -> value).

(** C26: a tenant learns nothing about the others through its reads: in two databases
    that satisfy the schema and agree on the rows of tenant [t], whatever else
    they hold and whatever the quotas are, every get, list, trend or count that
    [t] issues through the tenant store has the same answer, errors included,
    and changes nothing. This covers lookups by globally unique names and
    addresses, listings filtered after a global sort, and paging. Locks and the
    node-wide summaries are outside it, as is the count for an empty group id. *)
Theorem reads_confined s ctx t c d1 d2 q1 q2 :
  ts_ready s = true -> Resolve (ts_res s) ctx = inr t -> dbOk d1 -> dbOk d2 -> sameView t d1 d2 -> scopedRead c = true ->
  (exec json_extract s ctx c (MkWorld d1 q1)).1 = (exec json_extract s ctx c (MkWorld d2 q2)).1 /\
  (exec json_extract s ctx c (MkWorld d1 q1)).2 = MkWorld d1 q1.
Proof. intros Hr Ht H1 H2 Hv Hc. split; [by apply (read_blind s ctx t)|by apply read_quiet]. Qed.

Lemma bind_fail {A B} (m : M A) (k : A -> M B) e w : m w = (inl e, w) -> bind m k w = (inl e, w).
Proof. unfold bind. by intros ->. Qed.

(** C27: multi-tenancy fails closed: when it is enabled and the context carries no
    tenant, or an empty one, every call of the store interface, reads, writes and
    lock operations alike, is refused, the database and the quotas stay as they
    are, and the error is ErrTenantNotFound, except that creating a nil run is
    reported as such first. *)
Theorem fails_closed s ctx c w :
  ts_ready s = true -> Enabled (ts_res s) = true -> ctx = None \/ ctx = Some "" ->
  exists e, exec json_extract s ctx c w = (inl e, w) /\ errors_Is e Quota.ErrTenantNotFound = negb (match c with Store.DoCreateRun None => true | _ => false end).
Proof.
  intros Hr He Hc.
  assert (Hs : exists e, (forall w, scope s ctx w = (inl e, w)) /\ errors_Is e Quota.ErrTenantNotFound = true).
  { destruct Hc as [-> | ->]; eexists; (split; [intros w'; unfold scope, notReady, bind, Scope, Resolve; rewrite Hr, He; reflexivity|reflexivity]). }
  destruct Hs as (e & Hs & Hi).
  destruct c; try (exists e; split; [cbn [exec]; apply bind_fail; apply bind_fail, Hs|exact Hi]).
  2: { exists e. split; [|exact Hi]. cbn [exec]. apply bind_fail. unfold CreateLock, bind at 1, notReady. rewrite Hr. cbn [ret]. by apply bind_fail. }
  destruct run as [r|].
  - exists e. split; [|exact Hi]. cbn [exec]. apply bind_fail. unfold CreateRun, bind at 1, notReady. rewrite Hr. cbn [ret nonNil]. by apply bind_fail.
  - exists (EText "tenant: nil run"). split; [|done]. cbn [exec]. apply bind_fail. unfold CreateRun, bind, notReady. by rewrite Hr.
Qed.
End claims.

(** ** Examples *)

Definition rowOf (l : list (string * value)) : Row := list_to_map l.
Definition sampleRun (id tenant : string) : Row :=
  rowOf ([("id", Text id); ("tenant_id", Text tenant); ("created_at", Int 1); ("updated_at", Int 1); ("priority", Int 0)] ++
         map (fun c => (c, Text "")) ["workflow_name"; "template_name"; "params"; "plan_hash"; "plan_json"; "approval_status"; "approval_level"; "creator"; "incident_id"] ++
         [("status", Text "running")]).

Lemma put_view t d T k x : t <> "" -> owner x <> t -> tbl d T !! k = None -> sameView t d (put d T k x).
Proof.
  intros Ht Hx Hk T'. apply map_eq. intros k'. apply Quota.option_eq_iff. intros y. rewrite !view_lookup, put_lookup.
  case_bool_decide as E; [|done]. destruct E as [-> ->]. rewrite Hk. split; [by intros []|]. intros [[= <-] H]. exfalso. by apply Hx, owner_isText.
Qed.

Definition oneRun : db := put ∅ "runs" "r1" (sampleRun "r1" "acme").
Definition twoRuns : db := put oneRun "runs" "r2" (sampleRun "r2" "globex").
Lemma insert_put d T k x : col x (sc_pk (schemaOf T)) = Text k -> tbl d T !! k = None -> check (put d T k x) T k x = None -> insert d T x = inr (put d T k x).
Proof. intros Hk Hn Hc. unfold insert. rewrite Hk. case_bool_decide as H; [rewrite Hn in H; by destruct H|]. by rewrite Hc. Qed.
Lemma put_ok d T k x : dbOk d -> col x (sc_pk (schemaOf T)) = Text k -> tbl d T !! k = None -> check (put d T k x) T k x = None -> dbOk (put d T k x).
Proof. intros Hd Hk Hn Hc. by apply (inserted_ok d T x), insert_put. Qed.
Lemma oneRun_ok : dbOk oneRun.
Proof. apply put_ok; [apply empty_ok|vm_compute; reflexivity..]. Qed.
Lemma twoRuns_ok : dbOk twoRuns.
Proof. apply put_ok; [apply oneRun_ok|vm_compute; reflexivity..]. Qed.

Definition tenanted : TenantStore := NewTenantStore (Some true).
Definition anyRun : Store.RunFilter := Store.MkRunFilter "" "" "" "" "" 0 0 "".

(** The run of the other tenant changes neither the listing nor, for its own id,
    the lookup, although the unscoped listing shows it. *)
Lemma reads_confined_witness :
  (exec (fun _ _ => Null) tenanted (Some "acme") (Store.DoListRuns anyRun) (MkWorld oneRun None)).1 =
  (exec (fun _ _ => Null) tenanted (Some "acme") (Store.DoListRuns anyRun) (MkWorld twoRuns None)).1 /\
  (exec (fun _ _ => Null) tenanted (Some "acme") (Store.DoGetRun "r2") (MkWorld oneRun None)).1 =
  (exec (fun _ _ => Null) tenanted (Some "acme") (Store.DoGetRun "r2") (MkWorld twoRuns None)).1 /\
  match (Store.ListRuns anyRun twoRuns).1 with inr l => length l | inl _ => 0%nat end = 2%nat.
Proof.
  assert (Hv : sameView "acme" oneRun twoRuns) by (apply put_view; [done|vm_compute; discriminate|vm_compute; reflexivity]).
  split_and!.
  - apply (reads_confined (fun _ _ => Null) tenanted (Some "acme") "acme"); [reflexivity|reflexivity|apply oneRun_ok|apply twoRuns_ok|exact Hv|reflexivity].
  - apply (reads_confined (fun _ _ => Null) tenanted (Some "acme") "acme"); [reflexivity|reflexivity|apply oneRun_ok|apply twoRuns_ok|exact Hv|reflexivity].
  - vm_compute. reflexivity.
Defined.

Lemma fails_closed_witness :
  exists e, exec (fun _ _ => Null) tenanted None (Store.DoDeleteRun "r1") (MkWorld oneRun None) = (inl e, MkWorld oneRun None) /\
  errors_Is e Quota.ErrTenantNotFound = true.
Proof. apply (fails_closed (fun _ _ => Null) tenanted None (Store.DoDeleteRun "r1") (MkWorld oneRun None)); [reflexivity|reflexivity|by left]. Defined.

End Isolation.
