(* ===== verification/Confine.v ===== *)
(** * Confine: what a tenant's changes can touch

    Theorems about the writes of [Tenant]. A database is sealed when every row
    has an owner (locks have none), references stay within one tenant and no run
    has an empty id. Statements that touch rows of one tenant only keep a sealed
    database sealed and leave every other row as it was, cascades included; the
    methods of the tenant store issue such statements, as long as the caller does
    not name another tenant's batch, step, approval or group where the code does
    not look (the condition [wellScoped]). The examples at the end show what
    happens where it does. *)

From Stdlib Require Import Lia.
From stdpp Require Import base gmap sets list strings sorting relations.
From S2P Require Import Prelude Sql Store Quota Table Tenant Isolation.
Import Sql Tenant Isolation.
Open Scope string_scope.
Open Scope list_scope.

Module Confine.

(** The owner the rows a tenant writes have. *)
Definition ownerIn (T t : string) : string := if String.eqb T "locks" then "" else t.

Record sealed (d : db) : Prop := MkSealed {
  sl_ok : dbOk d;
  sl_owned : forall T k x, tbl d T !! k = Some x -> owner x = "" <-> T = "locks";
  sl_within : forall C fk k x p y, fk ∈ sc_fks (schemaOf C) -> tbl d C !! k = Some x -> col x (fk_col fk) = Text p ->
    tbl d (fk_parent fk) !! p = Some y -> owner y = owner x;
  sl_named : tbl d "runs" !! "" = None }.

(** Rows outside [t]'s are the same. *)
Definition spares (t : string) (d d' : db) : Prop :=
  forall T k x, T <> "locks" -> owner x <> t -> tbl d T !! k = Some x <-> tbl d' T !! k = Some x.
#[export] Instance spares_preorder t : PreOrder (spares t).
Proof. split; [done|]. intros d1 d2 d3 H1 H2 T k x HT Hx. rewrite (H1 T k x HT Hx). by apply H2. Qed.

Definition confined (t : string) (d d' : db) : Prop := spares t d d' /\ sealed d'.
Lemma confined_refl t d : sealed d -> confined t d d.
Proof. done. Qed.

Lemma fks_cases C fk : fk ∈ sc_fks (schemaOf C) ->
  C <> "locks" /\ fk_parent fk <> "locks" /\ fk_parent fk <> C /\ fk_col fk <> sc_pk (schemaOf C) /\ fk_col fk <> "tenant_id".
Proof.
  destruct (schemaOf_cases C) as [E|E]; [rewrite E; set_solver|]. generalize (schemaOf C) E. intros sc Hin.
  apply list_elem_of_In in Hin. simpl in Hin. destruct_or! Hin; simplify_eq; simpl; intros Hfk; set_unfold in Hfk; destruct_or? Hfk; by subst.
Qed.

(** The references of a row lead to rows of [t]. *)
Definition refsTo (t : string) (d : db) (T : string) (x : Row) : Prop :=
  forall fk p y, fk ∈ sc_fks (schemaOf T) -> col x (fk_col fk) = Text p -> tbl d (fk_parent fk) !! p = Some y -> owner y = t.

Lemma insert_confined t d T x d' : t <> "" -> sealed d -> insert d T x = inr d' ->
  owner x = ownerIn T t -> refsTo t d T x -> (T = "runs" -> col x "id" <> Text "") -> confined t d d'.
Proof.
  intros Ht Hs Hi Ho Hr Hid. pose proof (inserted_ok d T x d' (sl_ok d Hs) Hi) as Hok. apply insert_lookup in Hi as (k & Hk & Hn & _ & ->).
  unfold ownerIn in Ho. split.
  - intros T' k' y HT Hy. rewrite put_lookup. case_bool_decide as E; [|done]. destruct E as [-> ->]. rewrite Hn. split; [done|]. intros [= <-].
    destruct (String.eqb_spec T "locks"); done.
  - split; [done|..].
    + intros T' k' y. rewrite put_lookup. case_bool_decide as E; [|apply sl_owned, Hs]. destruct E as [-> ->]. intros [= <-]. rewrite Ho.
      destruct (String.eqb_spec T "locks"); naive_solver.
    + intros C fk k' y p z Hfk. destruct (fks_cases C fk Hfk) as (HC & HP & HPC & _). rewrite !put_lookup. intros Hy Hc Hz.
      destruct (decide (C = T /\ k' = k)) as [E1|E1]; [rewrite bool_decide_eq_true_2 in Hy by done|rewrite bool_decide_eq_false_2 in Hy by done].
      * destruct E1 as [-> ->]. injection Hy as <-. rewrite bool_decide_eq_false_2 in Hz by (by intros [? _]). rewrite Ho.
        destruct (String.eqb_spec T "locks"); [done|]. by eapply Hr.
      * case_bool_decide as E2; [|by eapply sl_within]. destruct E2 as [E2 ->]. injection Hz as <-. exfalso.
        pose proof (ok_refs d (sl_ok d Hs) C fk k' y Hfk Hy) as Hd. unfold dangling in Hd. rewrite Hc, E2 in Hd. by apply bool_decide_eq_false in Hd.
    + rewrite put_lookup. case_bool_decide as E; [|apply Hs]. destruct E as [<- <-]. exfalso. by apply (Hid eq_refl).
Qed.

Lemma update_confined t d T p f n d' : t <> "" -> sealed d -> update d T p f = inr (n, d') ->
  (forall x, p x = true -> col (f x) (sc_pk (schemaOf T)) = col x (sc_pk (schemaOf T))) ->
  (forall k x, tbl d T !! k = Some x -> p x = true -> wormChanged T x (f x) = false ->
     owner x = ownerIn T t /\ owner (f x) = ownerIn T t /\ refsTo t d T (f x)) -> confined t d d'.
Proof.
  intros Ht Hs Hu Hpk Hf. pose proof (update_ok d T p f n d' (sl_ok d Hs) Hpk Hu) as Hok.
  assert (HL : forall T' k y, tbl d' T' !! k = Some y -> tbl d T' !! k = Some y \/
    exists x, T' = T /\ tbl d T !! k = Some x /\ y = f x /\ p x = true /\ owner x = ownerIn T t /\ owner (f x) = ownerIn T t /\ refsTo t d T (f x)).
  { intros T' k y. rewrite (update_lookup _ _ _ _ _ _ _ _ Hu). case_bool_decide as E; [subst T'|by left]. intros Hy. apply fmap_Some in Hy as (x & Hx & ->).
    destruct (p x) eqn:Ep; [right|by left]. exists x. split_and!; [done..| | |]; by apply (Hf k x Hx Ep), (update_refused _ _ _ _ _ _ _ _ Hu Hx Ep). }
  assert (HB : forall T' k, tbl d T' !! k = None -> tbl d' T' !! k = None).
  { intros T' k Hk. rewrite (update_lookup _ _ _ _ _ _ _ _ Hu). case_bool_decide as E; [subst T'|done]. by rewrite Hk. }
  split.
  - intros T' k y HT Hy. split.
    + intros Hd. rewrite (update_lookup _ _ _ _ _ _ _ _ Hu). case_bool_decide as E; [subst T'|done]. rewrite Hd. cbn. destruct (p y) eqn:Ep; [|done].
      destruct (Hf k y Hd Ep) as (Ho & _); [by eapply update_refused|]. unfold ownerIn in Ho. destruct (String.eqb_spec T "locks"); done.
    + intros Hd. destruct (HL T' k y Hd) as [|(x & -> & Hx & -> & Hp & _ & Ho & _)]; [done|]. unfold ownerIn in Ho. by destruct (String.eqb_spec T "locks").
  - split; [done|..].
    + intros T' k y Hy. destruct (HL T' k y Hy) as [|(x & -> & Hx & -> & Hp & _ & -> & _)]; [by eapply sl_owned|]. unfold ownerIn.
      destruct (String.eqb_spec T "locks"); naive_solver.
    + assert (HO : forall T' k y, tbl d' T' !! k = Some y -> exists x, tbl d T' !! k = Some x /\ owner x = owner y).
      { intros T' k y Hy. destruct (HL T' k y Hy) as [|(x & -> & Hx & -> & Hp & Ho & Ho' & _)]; [eauto|]. exists x. by rewrite Ho, Ho'. }
      intros C fk k y q z Hfk Hy Hc Hz. destruct (HO _ _ _ Hz) as (z0 & Hz0 & <-). destruct (fks_cases C fk Hfk) as (HC & _).
      destruct (HL C k y Hy) as [Hy'|(x & -> & Hx & -> & Hp & _ & Ho & Hr)]; [by eapply sl_within|]. rewrite Ho. unfold ownerIn.
      destruct (String.eqb_spec T "locks"); [done|]. by eapply Hr.
    + apply HB, Hs.
Qed.

(** *** Deletion: a cascade stays within the tenant *)

Lemma nulled_owner T x x' : nulled T x x' -> owner x' = owner x.
Proof. intros H. unfold owner, text. destruct (H "tenant_id") as [->|(_ & H' & _)]; done. Qed.
Lemma referrer_owner t d0 d1 C fk ks k x : sealed d0 -> shrinks d0 d1 -> fk ∈ sc_fks (schemaOf C) ->
  (forall k y, k ∈ ks -> tbl d0 (fk_parent fk) !! k = Some y -> owner y = ownerIn (fk_parent fk) t) ->
  tbl d1 C !! k = Some x -> refersTo ks (fk_col fk) x = true -> owner x = t.
Proof.
  intros Hs Hd Hfk Hks Hx Hr. destruct (Hd _ _ _ Hx) as (x0 & Hx0 & Hn). rewrite (nulled_owner C x0 x Hn). unfold refersTo in Hr.
  destruct (col x (fk_col fk)) as [| |p] eqn:Ec; [done..|]. apply bool_decide_eq_true in Hr.
  assert (Ec0 : col x0 (fk_col fk) = Text p) by (destruct (Hn (fk_col fk)) as [?|(_ & _ & ?)]; congruence).
  pose proof (ok_refs d0 (sl_ok d0 Hs) C fk k x0 Hfk Hx0) as Hd0. unfold dangling in Hd0. rewrite Ec0 in Hd0. apply bool_decide_eq_false in Hd0.
  destruct (tbl d0 (fk_parent fk) !! p) as [y|] eqn:Ey; [|done]. rewrite <- (sl_within d0 Hs C fk k x0 p y) by done. rewrite (Hks p y) by done.
  destruct (fks_cases C fk Hfk) as (_ & HP & _). unfold ownerIn. by destruct (String.eqb_spec (fk_parent fk) "locks").
Qed.

Lemma nullRefs_spares t d C fk ks : fk ∈ sc_fks (schemaOf C) ->
  (forall k x, tbl d C !! k = Some x -> refersTo ks (fk_col fk) x = true -> owner x = t) ->
  spares t d (<[C := nullRefs ks (fk_col fk) <$> tbl d C]> d).
Proof.
  intros Hfk Ho T k x HT Hx. destruct (decide (C = T)) as [<-|]; [|by rewrite tbl_insert_ne]. rewrite tbl_insert, lookup_fmap.
  destruct (tbl d C !! k) as [y|] eqn:Ey; [|done]. cbn. unfold nullRefs. destruct (refersTo _ _ y) eqn:Er; [|done]. pose proof (Ho k y Ey Er) as Hy.
  split; [intros [= ->]; done|]. intros [= <-]. exfalso. apply Hx. unfold owner, text in *. rewrite col_insert_ne; [done|]. by apply (fks_cases C).
Qed.

Lemma remove_spares t n d0 d T ks d' : sealed d0 -> shrinks d0 d ->
  (forall k x, k ∈ ks -> tbl d0 T !! k = Some x -> owner x = ownerIn T t) -> remove n d T ks = inr d' -> spares t d d'.
Proof.
  intros Hs. revert d T ks d'. induction n as [|n IH]; intros d T ks d' Hd Hks; cbn [remove]; [by intros [= <-]|].
  case_bool_decide; [by intros [= <-]|]. destruct (appendOnly T); [done|]. destruct (foldl _ _ _) as [|d1] eqn:Ef; [done|]. intros [= <-].
  apply (dropChild_ind (fun d1 _ => spares t d d1 /\ shrinks d0 d1)) in Ef as (_ & (Hsp & Hsh) & _); [|done|].
  - etrans; [exact Hsp|]. intros T' k x HT Hx. destruct (decide (T = T')) as [<-|]; [|by rewrite tbl_insert_ne]. rewrite tbl_insert, map_lookup_filter_Some. cbn.
    split; [|by intros []]. intros Hk. split; [done|]. intros Hin. destruct (Hsh _ _ _ Hk) as (x0 & Hx0 & Hn). apply Hx.
    rewrite (nulled_owner T x0 x Hn), (Hks k x0 Hin Hx0). unfold ownerIn. by destruct (String.eqb_spec T "locks").
  - intros d2 _ [C fk] d3 Hin [Hsp Hsh] Hc. apply children_schema in Hin as [Hfk HP]. unfold dropChild in Hc. cbn [fst snd] in Hc.
    assert (Ho : forall k x, tbl d2 C !! k = Some x -> refersTo ks (fk_col fk) x = true -> owner x = t).
    { intros k x. eapply referrer_owner; [done..|]. intros k' y. rewrite HP. apply Hks. }
    destruct (fk_action fk) eqn:Ha.
    + split; [|etrans; [exact Hsh|by eapply remove_shrinks]]. etrans; [exact Hsp|]. eapply IH; [exact Hsh| |exact Hc]. intros k x0 Hk Hx0.
      apply matching_dom in Hk as (x & Hx & Hr). pose proof (Ho k x Hx Hr) as Hox. destruct (Hsh _ _ _ Hx) as (x1 & Hx1 & Hn).
      rewrite Hx0 in Hx1. injection Hx1 as <-. rewrite <- (nulled_owner _ _ _ Hn), Hox. unfold ownerIn. destruct (fks_cases C fk Hfk) as (HC & _).
      by destruct (String.eqb_spec C "locks").
    + injection Hc as <-. split; [etrans; [exact Hsp|by apply nullRefs_spares]|]. etrans; [exact Hsh|by apply shrinks_null].
Qed.

Lemma delete_confined t d T p n d' : sealed d -> delete d T p = inr (n, d') ->
  (forall k x, tbl d T !! k = Some x -> p x = true -> owner x = ownerIn T t) -> confined t d d'.
Proof.
  intros Hs Hdel Hp. pose proof (delete_ok d T p n d' (sl_ok d Hs) Hdel) as Hok. unfold delete in Hdel.
  destruct (remove _ _ _ _) as [|d1] eqn:Er; [done|]. injection Hdel as _ <-. pose proof (remove_shrinks _ _ _ _ _ Er) as Hsh. split.
  - eapply remove_spares; [exact Hs|reflexivity| |exact Er]. intros k x Hk Hx. apply matching_dom in Hk as (y & Hy & Hpy). rewrite Hx in Hy. injection Hy as <-. eauto.
  - split; [done|..].
    + intros T' k x Hx. destruct (Hsh _ _ _ Hx) as (x0 & Hx0 & Hn). rewrite (nulled_owner _ _ _ Hn). by eapply sl_owned.
    + intros C fk k x q y Hfk Hx Hc Hy. destruct (Hsh _ _ _ Hx) as (x0 & Hx0 & Hn), (Hsh _ _ _ Hy) as (y0 & Hy0 & Hm).
      rewrite (nulled_owner _ _ _ Hn), (nulled_owner _ _ _ Hm). eapply (sl_within d Hs C fk); [done..| |done].
      destruct (Hn (fk_col fk)) as [?|(_ & _ & ?)]; congruence.
    + destruct (tbl d1 "runs" !! "") as [x|] eqn:Ex; [|done]. destruct (Hsh _ _ _ Ex) as (x0 & Hx0 & _). by rewrite (sl_named d Hs) in Hx0.
Qed.

(** ** Statements of the store *)

Definition keepsRefs (T : string) (f : Row -> Row) : Prop :=
  forall x c, c ∈ "tenant_id" :: sc_pk (schemaOf T) :: map fk_col (sc_fks (schemaOf T)) -> col (f x) c = col x c.

(** The rows a condition selects are [t]'s. *)
Definition hits (t : string) (d : db) (T : string) (p : Row -> bool) : Prop :=
  forall k x, tbl d T !! k = Some x -> p x = true -> owner x = ownerIn T t.
Definition rowOwn (t : string) (d : db) (T id : string) : Prop := forall y, tbl d T !! id = Some y -> owner y = ownerIn T t.

Lemma hits_key t d T p id : dbOk d -> rowOwn t d T id -> (forall x, p x = true -> isText (sc_pk (schemaOf T)) id x = true) -> hits t d T p.
Proof.
  intros Hok Ho Hp k x Hx Hpx. specialize (Hp x Hpx). apply eqv_text in Hp. pose proof (ok_key d Hok T k x Hx) as Hk. rewrite Hp in Hk.
  injection Hk as <-. by apply Ho.
Qed.

Lemma refsTo_ext t d T x y : (forall fk, fk ∈ sc_fks (schemaOf T) -> col y (fk_col fk) = col x (fk_col fk)) -> refsTo t d T x -> refsTo t d T y.
Proof. intros E H fk p z Hfk. rewrite E by done. by apply H. Qed.

Section statements.
Context (t : string) (d : db) (Ht : t <> "") (Hs : sealed d).

Lemma within_owned T k x : tbl d T !! k = Some x -> owner x = ownerIn T t -> refsTo t d T x.
Proof using Hs.
  intros Hx Ho fk p y Hfk Hc Hy. rewrite (sl_within d Hs T fk k x p y) by done. rewrite Ho. destruct (fks_cases T fk Hfk) as (HT & _). unfold ownerIn.
  by destruct (String.eqb_spec T "locks").
Qed.

Lemma execInsert_confined what T cols x : owner (pick cols x) = ownerIn T t -> refsTo t d T (pick cols x) ->
  (T = "runs" -> col (pick cols x) "id" <> Text "") -> confined t d (Store.execInsert what T cols (Some x) d).2.
Proof using Ht Hs. intros Ho Hr Hid. unfold Store.execInsert. destruct (insert _ _ _) eqn:E; [done|]. by eapply insert_confined. Qed.

Lemma execCount_confined what T p f : (forall x, p x = true -> col (f x) (sc_pk (schemaOf T)) = col x (sc_pk (schemaOf T))) ->
  (forall k x, tbl d T !! k = Some x -> p x = true -> wormChanged T x (f x) = false ->
     owner x = ownerIn T t /\ owner (f x) = ownerIn T t /\ refsTo t d T (f x)) -> confined t d (Store.execCount what T p f d).2.
Proof using Ht Hs. intros Hpk Hf. unfold Store.execCount. destruct (update _ _ _ _) as [|[n d']] eqn:E; [done|]. by eapply update_confined. Qed.
Lemma sets_confined what T p f : keepsRefs T f -> hits t d T p -> confined t d (Store.execCount what T p f d).2.
Proof using Ht Hs.
  intros Hf Hh. apply execCount_confined; [intros x _; apply Hf; set_solver|]. intros k x Hx Hp _. pose proof (Hh k x Hx Hp) as Ho.
  assert (Ho' : owner (f x) = owner x) by (unfold owner, text; by rewrite Hf by set_solver). rewrite Ho'. split_and!; [done..|].
  eapply refsTo_ext; [|by eapply within_owned]. intros fk Hfk. apply Hf. rewrite !elem_of_cons, list_elem_of_fmap. eauto.
Qed.

Lemma execFound_state what T p f : (Store.execFound what T p f d).2 = (Store.execCount what T p f d).2.
Proof using Type. unfold Store.execFound. by destruct (Store.execCount what T p f d) as [[|[|n]] d']. Qed.
Lemma execIf_state what T p f : (Store.execIf what T p f d).2 = (Store.execCount what T p f d).2.
Proof using Type. unfold Store.execIf. by destruct (Store.execCount what T p f d) as [[|n] d']. Qed.
Lemma void_state {A} (o : Store.op A) : (Store.void o d).2 = (o d).2.
Proof using Type. unfold Store.void. by destruct (o d). Qed.
Lemma ans_state {A} (f : A -> Store.answer) (o : Store.op A) : (Store.ans f o d).2 = (o d).2.
Proof using Type. unfold Store.ans. by destruct (o d). Qed.

Lemma execDelete_confined what T p : hits t d T p -> confined t d (Store.execDelete what T p d).2.
Proof using Hs. intros Hh. unfold Store.execDelete. destruct (delete _ _ _) as [|[n d']] eqn:E; [done|]. by eapply delete_confined. Qed.

(** UPDATE of a struct whose tenant is [t]; other columns may be set as well. *)
Lemma assign_confined what T p cols x f : "tenant_id" ∈ cols -> sc_pk (schemaOf T) ∉ cols -> T <> "locks" ->
  (forall fk, fk ∈ sc_fks (schemaOf T) -> fk_col fk ∈ cols) -> refsTo t d T x -> ("tenant_id" ∈ sc_worm (schemaOf T) \/ hits t d T p) ->
  (forall y c, c ∈ "tenant_id" :: sc_pk (schemaOf T) :: map fk_col (sc_fks (schemaOf T)) -> col (f y) c = col (assign y (stamp t x) cols) c) ->
  confined t d (Store.execCount what T p f d).2.
Proof using Ht Hs.
  intros Hin Hpk HT Hfks Hr Hh Hf.
  assert (Ho : forall y, owner (f y) = t).
  { intros y. unfold owner, text. rewrite Hf by set_solver. unfold stamp. by rewrite col_assign, bool_decide_eq_true_2, col_insert by done. }
  assert (HO : ownerIn T t = t) by (unfold ownerIn; by destruct (String.eqb_spec T "locks")).
  apply execCount_confined; [intros y _; rewrite Hf by set_solver; by rewrite col_assign, bool_decide_eq_false_2|].
  intros k y Hy Hp Hw. rewrite HO. split_and!; [|apply Ho|].
  - destruct Hh as [Hworm|Hh]; [|rewrite <- HO; by eapply Hh]. unfold wormChanged in Hw. rewrite existsb_none in Hw. specialize (Hw _ Hworm).
    apply negb_false_iff, bool_decide_eq_true in Hw. rewrite <- (Ho y). unfold owner, text. by rewrite Hw.
  - eapply refsTo_ext; [|exact Hr]. intros fk Hfk. rewrite Hf by (rewrite !elem_of_cons, list_elem_of_fmap; eauto).
    rewrite col_assign, bool_decide_eq_true_2 by auto. unfold stamp. apply col_insert_ne. intros E. symmetry in E. by apply (fks_cases T fk Hfk) in E.
Qed.
Lemma execUpdate_confined what T cols x : sc_pk (schemaOf T) = "id" -> "tenant_id" ∈ cols -> "id" ∉ cols -> T <> "locks" ->
  (forall fk, fk ∈ sc_fks (schemaOf T) -> fk_col fk ∈ cols) -> refsTo t d T x -> ("tenant_id" ∈ sc_worm (schemaOf T) \/ rowOwn t d T (text x "id")) ->
  confined t d (Store.execUpdate what T cols (Some (stamp t x)) d).2.
Proof using Ht Hs.
  intros Hpk Hin Hid HT Hfks Hr Hh. unfold Store.execUpdate. rewrite execFound_state. apply (assign_confined _ _ _ cols x); try done; [by rewrite Hpk|].
  destruct Hh as [?|Hh]; [by left|right]. apply (hits_key t d T _ (text x "id") (sl_ok d Hs) Hh). intros y. rewrite Hpk. unfold text, stamp.
  by rewrite col_insert_ne.
Qed.
Lemma upsert_confined T x cols d' : upsert d T x cols = inr d' -> T <> "locks" -> T <> "runs" -> owner x = t -> refsTo t d T x ->
  rowOwn t d T (text x (sc_pk (schemaOf T))) -> "tenant_id" ∈ cols -> sc_pk (schemaOf T) ∉ cols -> (forall fk, fk ∈ sc_fks (schemaOf T) -> fk_col fk ∈ cols) ->
  confined t d d'.
Proof using Ht Hs.
  intros Hu HT HT' Ho Hr Hown Hin Hpk Hfks. assert (HO : ownerIn T t = t) by (unfold ownerIn; by destruct (String.eqb_spec T "locks")).
  unfold upsert in Hu. unfold text in Hown. destruct (col x (sc_pk (schemaOf T))) as [| |k] eqn:Ek; [done..|].
  destruct (tbl d T !! k) as [old|] eqn:Eo; [|by apply (insert_confined t d T x); rewrite ?HO].
  destruct (update _ _ _ _) as [|[n d1]] eqn:E; [done|]. injection Hu as <-.
  eapply (update_confined t d T); [done|done|exact E|intros y _; cbv beta; by rewrite col_assign, bool_decide_eq_false_2|]. cbv beta. intros k' y Hy Hp _. rewrite HO. split_and!.
  - rewrite <- HO. by apply (hits_key t d T _ k (sl_ok d Hs) Hown (fun z Hz => Hz) k' y Hy).
  - unfold owner, text. rewrite col_assign, bool_decide_eq_true_2 by done. exact Ho.
  - eapply refsTo_ext; [|exact Hr]. intros fk Hfk. by rewrite col_assign, bool_decide_eq_true_2 by auto.
Qed.

Lemma hits_locks p : hits t d "locks" p.
Proof using Hs. intros k x Hx _. by apply (sl_owned d Hs "locks" k x Hx). Qed.

Lemma stamped_insert what T cols x : "tenant_id" ∈ cols -> T <> "locks" -> refsTo t d T x -> (T = "runs" -> col x "id" <> Text "") ->
  (forall fk, fk ∈ sc_fks (schemaOf T) -> fk_col fk ∈ cols) -> confined t d (Store.execInsert what T cols (Some (stamp t x)) d).2.
Proof using Ht Hs.
  intros Hin HT Hr Hid Hfks. apply execInsert_confined.
  - unfold owner, text, stamp, ownerIn. rewrite col_pick, bool_decide_eq_true_2, col_insert by done. by destruct (String.eqb_spec T "locks").
  - eapply refsTo_ext; [|exact Hr]. intros fk Hfk. rewrite col_pick, bool_decide_eq_true_2 by auto. unfold stamp.
    apply col_insert_ne. intros E. symmetry in E. by apply (fks_cases T fk Hfk) in E.
  - intros HT'. specialize (Hid HT'). rewrite col_pick. case_bool_decide; [|done]. unfold stamp. by rewrite col_insert_ne.
Qed.

(** The run a row names is [t]'s, or no run is named. *)
Definition runOwn (r : string) : Prop := r = "" \/ rowOwn t d "runs" r.
Lemma refs_run x fk p y : runOwn (text x "run_id") -> fk_col fk = "run_id" -> fk_parent fk = "runs" ->
  col x (fk_col fk) = Text p -> tbl d (fk_parent fk) !! p = Some y -> owner y = t.
Proof using Hs.
  intros Hr -> -> Hc Hy. unfold text in Hr. rewrite Hc in Hr. destruct Hr as [->|Hr]; [by rewrite (sl_named d Hs) in Hy|]. by apply Hr.
Qed.
Lemma hits_run T p r : runOwn r -> MkFkey "run_id" "runs" Cascade ∈ sc_fks (schemaOf T) -> (forall x, p x = true -> isText "run_id" r x = true) -> hits t d T p.
Proof using Hs.
  intros Hr Hfk Hp k x Hx Hpx. apply Hp, eqv_text in Hpx. pose proof (ok_refs d (sl_ok d Hs) T _ k x Hfk Hx) as Hd. unfold dangling in Hd.
  cbn [fk_col fk_parent] in Hd. rewrite Hpx in Hd. apply bool_decide_eq_false in Hd. destruct (tbl d "runs" !! r) as [y|] eqn:Ey; [|done].
  rewrite <- (sl_within d Hs T _ k x r y Hfk Hx Hpx Ey). destruct (fks_cases T _ Hfk) as (HT & _). unfold ownerIn. destruct (String.eqb_spec T "locks"); [done|].
  destruct Hr as [->|Hr]; [by rewrite (sl_named d Hs) in Ey|by apply Hr].
Qed.
Lemma refsTo_run T x : (forall fk, fk ∈ sc_fks (schemaOf T) -> fk_col fk = "run_id" /\ fk_parent fk = "runs") -> runOwn (text x "run_id") -> refsTo t d T x.
Proof using Hs. intros HT Hr fk p y Hfk. destruct (HT fk Hfk). by apply refs_run. Qed.
End statements.

(** ** The methods of the tenant store *)

Lemma get_key d T id : dbOk d -> head (select d T (isText (sc_pk (schemaOf T)) id) []) = tbl d T !! id.
Proof.
  intros Hok. apply Quota.option_eq_iff. intros x. rewrite select_single by (by apply key_single). split.
  - intros (k & Hk & Hp). apply eqv_text in Hp. rewrite (ok_key d Hok T k x Hk) in Hp. by injection Hp as <-.
  - intros Hx. exists id. split; [done|]. apply eqv_text. by apply (ok_key d Hok).
Qed.

(** A call from [w] confined to [t]. *)
Definition keepsTo {A} (t : string) (m : M A) (w : world) : Prop := confined t (w_db w) (w_db (m w).2).
(** A check that changes nothing and succeeds only if [P]. *)
Definition guards {A} (m : M A) (w : world) (P : Prop) : Prop := (m w).2 = w /\ forall a, (m w).1 = inr a -> P.

Lemma ans_keeps {A} t (f : A -> Store.answer) m w : keepsTo t m w -> keepsTo t (ans f m) w.
Proof. unfold keepsTo, ans, bind. by destruct (m w) as [[|] ?]. Qed.
Lemma base_keeps {A} t (o : Store.op A) w : confined t (w_db w) (o (w_db w)).2 -> keepsTo t (base o) w.
Proof. unfold keepsTo, base. by destruct (o (w_db w)). Qed.
Lemma quiet_keeps {A} t (m : M A) w : sealed (w_db w) -> quiet m -> keepsTo t m w.
Proof. intros Hs Hm. unfold keepsTo. by rewrite Hm. Qed.
Lemma guards_keeps {A B} t (m : M A) (k : A -> M B) w P :
  sealed (w_db w) -> guards m w P -> (P -> forall a, keepsTo t (k a) w) -> keepsTo t (bind m k) w.
Proof. intros Hs [Hm Hp] Hk. unfold keepsTo, bind in *. destruct (m w) as [[e|a] w']; cbn in *; subst; [done|]. by eapply Hk, (Hp a). Qed.

Section caller.
Context (s : TenantStore) (ctx : context) (t : string) (w : world).
Context (Hready : ts_ready s = true) (Hres : Resolve (ts_res s) ctx = inr t) (Hs : sealed (w_db w)).

Lemma scoped_keeps {A} (k : string -> M A) : keepsTo t (k t) w -> keepsTo t (bind (scope s ctx) k) w.
Proof using Hready Hres. intros H. unfold keepsTo. by rewrite (bind_scope s ctx t). Qed.
Lemma fail_keeps {A} e : keepsTo t (@fail A e) w.
Proof using Hs. by apply quiet_keeps, fail_quiet. Qed.

Lemma rowOwn_some T id x : tbl (w_db w) T !! id = Some x -> owner x = ownerIn T t -> rowOwn t (w_db w) T id.
Proof using Type. intros Hx Ho y Hy. congruence. Qed.
Lemma rowOwn_none T id : tbl (w_db w) T !! id = None -> rowOwn t (w_db w) T id.
Proof using Type. intros Hx y Hy. congruence. Qed.

Lemma base_row T id : base (Store.queryRow T (isText (sc_pk (schemaOf T)) id)) w = (inr (tbl (w_db w) T !! id), w).
Proof using Hs. unfold base, Store.queryRow. cbv beta zeta iota. rewrite get_key by apply Hs. by destruct w. Qed.
Lemma base_mapped f T id : base (Store.mapRow f (Store.queryRow T (isText (sc_pk (schemaOf T)) id))) w = (inr (f <$> tbl (w_db w) T !! id), w).
Proof using Hs. unfold base, Store.mapRow, Store.queryRow. cbv beta zeta iota. rewrite get_key by apply Hs. by destruct w. Qed.

Lemma owner_other x : String.eqb (owner x) t = true -> owner x = t.
Proof using Type. by apply String.eqb_eq. Qed.

Lemma ownRunByID_guards id : guards (ownRunByID t id) w (rowOwn t (w_db w) "runs" id).
Proof using Hs.
  unfold guards, ownRunByID, bind. rewrite (base_row "runs" id : base (Store.GetRun id) w = _). destruct (tbl (w_db w) "runs" !! id) as [r|] eqn:E; cbn.
  - destruct (String.eqb_spec (owner r) t) as [Ho|]; cbn; split; try done. intros _ _. by apply (rowOwn_some "runs" id r).
  - split; [done|]. intros _ _. by apply rowOwn_none.
Qed.
Lemma ownRunByIDRequires_guards id : guards (ownRunByIDRequires t id) w (rowOwn t (w_db w) "runs" id).
Proof using Hs.
  destruct (ownRunByID_guards id) as [Hq Hp]. unfold guards, ownRunByIDRequires, bind. destruct (ownRunByID t id w) as [[e|[r|]] w']; cbn in *; subst; split; naive_solver.
Qed.
Lemma ownRunTenant_guards id : guards (ownRunTenant t id) w (runOwn t (w_db w) id).
Proof using Hs.
  unfold ownRunTenant. destruct (String.eqb_spec id ""); [split; [done|]; intros; by left|].
  unfold guards, bind. rewrite (base_row "runs" id : base (Store.GetRun id) w = _). destruct (tbl (w_db w) "runs" !! id) as [r|] eqn:E; cbn; [|done].
  destruct (String.eqb_spec (owner r) t) as [Ho|]; cbn; split; try done. intros _ _. right. by apply (rowOwn_some "runs" id r).
Qed.
Lemma assignmentOwned_guards id : guards (assignmentOwned id t) w (rowOwn t (w_db w) "run_assignment" id).
Proof using Hs.
  unfold guards, assignmentOwned, bind. rewrite (base_row "run_assignment" id : base (Store.GetAssignment id) w = _). destruct (tbl (w_db w) "run_assignment" !! id) as [r|] eqn:E; cbn.
  - destruct (String.eqb_spec (owner r) t) as [Ho|]; cbn; split; try done. intros _ _. by apply (rowOwn_some "run_assignment" id r).
  - split; [done|]. intros _ _. by apply rowOwn_none.
Qed.

Lemma ifOwned_keeps {A} what get (act : Store.op A) f T id : T <> "locks" ->
  base get w = (inr (f <$> tbl (w_db w) T !! id), w) -> (forall x, owner (f x) = owner x) ->
  (rowOwn t (w_db w) T id -> confined t (w_db w) (act (w_db w)).2) -> keepsTo t (ifOwned s ctx what get act) w.
Proof using Hready Hres Hs.
  intros HT Hg Hf Ha. apply scoped_keeps. unfold keepsTo, bind. rewrite Hg. destruct (tbl (w_db w) T !! id) as [x|] eqn:E; cbn.
  - rewrite Hf. destruct (String.eqb_spec (owner x) t) as [Ho|]; cbn; [|done]. apply base_keeps, Ha, (rowOwn_some T id x); [done|].
    unfold ownerIn. by destruct (String.eqb_spec T "locks").
  - by apply base_keeps, Ha, rowOwn_none.
Qed.
Lemma ifOwned_row {A} what (act : Store.op A) T id : T <> "locks" ->
  (rowOwn t (w_db w) T id -> confined t (w_db w) (act (w_db w)).2) ->
  keepsTo t (ifOwned s ctx what (Store.queryRow T (isText (sc_pk (schemaOf T)) id)) act) w.
Proof using Hready Hres Hs. intros HT. apply (ifOwned_keeps what _ act (fun x => x)); [done| |done]. rewrite base_row. by rewrite option_fmap_id. Qed.
Lemma ifOwned_mapped {A} what (act : Store.op A) f T id : T <> "locks" -> (forall x, owner (f x) = owner x) ->
  (rowOwn t (w_db w) T id -> confined t (w_db w) (act (w_db w)).2) ->
  keepsTo t (ifOwned s ctx what (Store.mapRow f (Store.queryRow T (isText (sc_pk (schemaOf T)) id))) act) w.
Proof using Hready Hres Hs. intros HT Hf. apply (ifOwned_keeps what _ act f); [done|apply base_mapped|done]. Qed.

Lemma underRun_keeps {A} what r (put : option Row -> Store.op A) :
  (forall x, r = Some x -> runOwn t (w_db w) (text x "run_id") -> confined t (w_db w) (put (Some (stamp t x)) (w_db w)).2) ->
  keepsTo t (underRun s ctx what r put) w.
Proof using Hready Hres Hs.
  intros Hp. apply scoped_keeps. destruct r as [x|]; [|apply fail_keeps]. eapply guards_keeps; [done|apply ownRunTenant_guards|]. intros Hr _.
  by apply base_keeps, Hp.
Qed.

Lemma upsertOwned_keeps what x f T id put : T <> "locks" -> (forall y, owner (f y) = owner y) ->
  (rowOwn t (w_db w) T id -> confined t (w_db w) (put (stamp t x) (w_db w)).2) ->
  keepsTo t (upsertOwned what t x (Store.mapRow f (Store.queryRow T (isText (sc_pk (schemaOf T)) id))) put) w.
Proof using Hs.
  intros HT Hf Hp. unfold upsertOwned. case_match; [apply fail_keeps|]. unfold keepsTo, bind. rewrite base_mapped.
  destruct (tbl (w_db w) T !! id) as [y|] eqn:E; cbn; [|by apply base_keeps, Hp, rowOwn_none]. rewrite Hf.
  pose proof (sl_owned _ Hs T id y E) as Hn. destruct (String.eqb_spec (owner y) "") as [Ho|]; [by destruct HT; apply Hn|].
  destruct (String.eqb_spec (owner y) t) as [Ho|]; cbn; [|done]. apply base_keeps, Hp, (rowOwn_some T id y); [done|].
  unfold ownerIn. by destruct (String.eqb_spec T "locks").
Qed.

Lemma caller_named : t <> "".
Proof using Hres. by eapply caller_nonempty. Qed.
Lemma db_set what T p f id : keepsRefs T f -> (forall x, p x = true -> isText (sc_pk (schemaOf T)) id x = true) -> rowOwn t (w_db w) T id ->
  confined t (w_db w) (Store.execCount what T p f (w_db w)).2.
Proof using Hres Hs. intros Hf Hp Ho. apply sets_confined; [apply caller_named|done|done|]. eapply hits_key; [apply Hs|done|done]. Qed.
Lemma db_delete what T p id : (forall x, p x = true -> isText (sc_pk (schemaOf T)) id x = true) -> rowOwn t (w_db w) T id ->
  confined t (w_db w) (Store.execDelete what T p (w_db w)).2.
Proof using Hs. intros Hp Ho. apply execDelete_confined; [done|]. eapply hits_key; [apply Hs|done|done]. Qed.
End caller.

(** What the code leaves to the caller: the row updated by id, and the batch or
    group a row is put under, are the caller's own or do not exist. *)
Definition wellScoped (t : string) (d : db) (c : Store.call) : Prop :=
  match c with
  | Store.DoCreateRun (Some r) => col r "id" <> Text ""
  | Store.DoUpdateBatch (Some b) => rowOwn t d "batches" (text b "id")
  | Store.DoCreateStep (Some x) => rowOwn t d "batches" (text x "batch_id")
  | Store.DoUpdateStep (Some x) => rowOwn t d "steps" (text x "id") /\ rowOwn t d "batches" (text x "batch_id")
  | Store.DoUpdateApproval (Some a) | Store.DoUpdateApprovalIfPending (Some a) => rowOwn t d "approvals" (text a "id")
  | Store.DoUpsertTarget _ (Some x) => rowOwn t d "inventory_groups" (text x "group_id")
  | _ => True
  end.

Ltac keeps_refs :=
  let x := fresh "x" in let c := fresh "c" in let H := fresh "H" in
  intros x c H; simpl in H; unfold Store.repoint, Store.bumpRevision, Store.setCol;
  repeat (apply elem_of_cons in H as [->|H]; [rewrite ?col_insert_ne by done; rewrite ?col_assign, ?bool_decide_eq_false_2 by set_solver; reflexivity|]);
  set_solver.
Ltac selects_key := let x := fresh "x" in let H := fresh "H" in
  intros x H; unfold all in H; cbn [forallb] in H; rewrite ?andb_true_iff in H; exact H || apply H.

Section methods.
Context (je : string -> string -> value) (s : TenantStore) (ctx : context) (t : string) (w : world).
Context (Hready : ts_ready s = true) (Hres : Resolve (ts_res s) ctx = inr t) (Hs : sealed (w_db w)).

(** The steps the methods share: resolving the tenant, a check before the
    statement, and the statement on the row the check was about. *)
Ltac scoped := apply (scoped_keeps s ctx); [done..|].
Ltac guarded L := scoped; eapply guards_keeps; [done|by apply L|]; intros Ho _; apply base_keeps.
Ltac set_row := eapply (db_set s ctx); [done|done|keeps_refs|selects_key|eassumption].
Ltac delete_row := eapply db_delete; [done|selects_key|eassumption].
Ltac columns := cbn; set_solver.
(** The foreign keys of a table are among the columns a method writes. *)
Ltac fk_cols := intros fk Hfk; simpl in Hfk; set_unfold in Hfk; destruct_or? Hfk; subst; cbn; set_solver.
Ltac only_run := intros fk Hfk; simpl in Hfk; set_unfold in Hfk; destruct_or? Hfk; by subst.
Ltac no_fks := intros fk p y Hfk; cbn in Hfk; set_solver.

Lemma run_calls c : wellScoped t (w_db w) c ->
  match c with
  | Store.DoCreateRun _ | Store.DoUpdateRun _ | Store.DoUpdateRunStatusIf _ _ _ _ | Store.DoUpdateRunApprovalStatusIf _ _ _ _ _
  | Store.DoUpdateRunPlan _ _ _ _ | Store.DoMarkNonTerminalSteps _ _ | Store.DoDeleteRun _ => keepsTo t (exec je s ctx c) w
  | _ => True
  end.
Proof using Hready Hres Hs.
  pose proof (caller_named s ctx t Hres) as Ht.
  intros Hw. destruct c; try exact I; cbn [exec]; apply ans_keeps.
  - destruct run as [r|]; unfold CreateRun, notReady; rewrite Hready; [|by apply quiet_keeps].
    apply (guards_keeps t _ _ w True); [done|done|]. intros _ _. cbn [nonNil]. scoped.
    assert (Hb : confined t (w_db w) (Store.CreateRun (Some (stamp t r)) (w_db w)).2).
    { apply stamped_insert; [done|done|cbn; set_solver|done|no_fks|intros _; exact Hw|intros fk Hfk; cbn in Hfk; set_solver]. }
    unfold keepsTo. destruct (w_qm w) as [qm|]; [|by apply base_keeps]. destruct (Quota.CheckAndReserve _ _ _ _) as [qm' [e|]]; [done|].
    unfold base. cbn [w_db w_qm]. destruct (Store.CreateRun (Some (stamp t r)) (w_db w)) as [[e|[]] d']; exact Hb.
  - scoped. destruct run as [r|]; [|by apply fail_keeps].
    eapply guards_keeps; [done|by apply ownRunByIDRequires_guards|]. intros Ho _. apply base_keeps, execUpdate_confined; [done|done|done|cbn; set_solver|cbn; set_solver|done| | |by right].
    + intros fk Hfk; cbn in Hfk; set_solver.
    + intros fk p y Hfk; cbn in Hfk; set_solver.
  - guarded ownRunByID_guards. unfold Store.UpdateRunStatusIf.
    rewrite execIf_state. set_row.
  - guarded ownRunByID_guards. unfold Store.UpdateRunApprovalStatusIf.
    rewrite execIf_state. set_row.
  - guarded ownRunByID_guards. unfold Store.UpdateRunPlan.
    rewrite execFound_state. set_row.
  - scoped. eapply guards_keeps; [done|by apply ownRunTenant_guards|]. intros Ho _. apply base_keeps, sets_confined; [done|done|keeps_refs|].
    by eapply (hits_run t (w_db w) Hs "steps" _ runID); [|left|selects_key].
  - scoped. eapply guards_keeps; [done|by apply ownRunByIDRequires_guards|]. intros Ho _. unfold keepsTo, bind, base.
    assert (Hb : confined t (w_db w) (Store.DeleteRun id (w_db w)).2).
    { unfold Store.DeleteRun. rewrite void_state. delete_row. }
    destruct (Store.DeleteRun id (w_db w)) as [[e|[]] d']; exact Hb.
Qed.

Lemma refs_step x : runOwn t (w_db w) (text x "run_id") -> rowOwn t (w_db w) "batches" (text x "batch_id") -> refsTo t (w_db w) "steps" x.
Proof using Hs.
  intros Hr Hb fk p y Hfk. simpl in Hfk. set_unfold in Hfk. destruct_or? Hfk; subst; [by apply refs_run|]. cbn. intros Hc Hy.
  apply Hb. unfold text. by rewrite Hc.
Qed.
Lemma createTrace_state r d : (Store.CreateTrace (Some r) d).2 = (Store.execInsert "trace" "trace" ("id" :: Store.traceColumns) (Some r) d).2.
Proof using Type. unfold Store.CreateTrace, Store.execInsert. by destruct (insert _ _ _). Qed.

Lemma batch_step_calls c : wellScoped t (w_db w) c ->
  match c with
  | Store.DoCreateBatch _ | Store.DoUpdateBatch _ | Store.DoDeleteBatch _ | Store.DoCreateStep _ | Store.DoUpdateStep _ | Store.DoDeleteStep _ =>
      keepsTo t (exec je s ctx c) w
  | _ => True
  end.
Proof using Hready Hres Hs.
  pose proof (caller_named s ctx t Hres) as Ht. intros Hw. destruct c; try exact I; cbn [exec]; apply ans_keeps.
  - apply underRun_keeps; [done..|]. intros x -> Hr. apply stamped_insert; [done|done|columns|done|by apply refsTo_run; [|only_run|]|done|fk_cols].
  - scoped. destruct b as [x|]; [|by apply fail_keeps]. cbn [nonNil]. case_match; [by apply fail_keeps|].
    eapply guards_keeps; [done|by apply ownRunTenant_guards|]. intros Hr _.
    apply base_keeps, execUpdate_confined; [done|done|done|columns|columns|done|fk_cols|by apply refsTo_run; [|only_run|]|right; exact Hw].
  - apply (ifOwned_row s ctx t w Hready Hres Hs "batch" _ "batches"); [done|]. intros Ho. unfold Store.DeleteBatch. rewrite void_state. delete_row.
  - apply underRun_keeps; [done..|]. intros x -> Hr. apply stamped_insert; [done|done|cbn; set_solver|done|by apply refs_step|done|fk_cols].
  - apply underRun_keeps; [done..|]. intros x -> Hr. destruct Hw as [Hown Hb]. apply execUpdate_confined; [done|done|done|columns|columns|done|fk_cols|by apply refs_step|right; exact Hown].
  - apply (ifOwned_row s ctx t w Hready Hres Hs "step" _ "steps"); [done|]. intros Ho. unfold Store.DeleteStep. rewrite void_state. delete_row.
Qed.

Lemma evidence_calls c :
  match c with
  | Store.DoCreateTrace _ | Store.DoUpdateTrace _ | Store.DoUpdateTraceChain _ _ _ | Store.DoUpdateTraceChecksum _ _ | Store.DoDeleteTrace _
  | Store.DoCreateAudit _ | Store.DoUpdateAuditChain _ _ _ => keepsTo t (exec je s ctx c) w
  | _ => True
  end.
Proof using Hready Hres Hs.
  pose proof (caller_named s ctx t Hres) as Ht. destruct c; try exact I; cbn [exec]; apply ans_keeps.
  - apply underRun_keeps; [done..|]. intros x -> Hr. rewrite createTrace_state.
    apply stamped_insert; [done|done|columns|done|by apply refsTo_run; [|only_run|]|done|fk_cols].
  - apply underRun_keeps; [done..|]. intros x -> Hr.
    apply execUpdate_confined; [done|done|done|columns|columns|done|fk_cols|by apply refsTo_run; [|only_run|]|left; cbn; set_solver].
  - apply (ifOwned_row s ctx t w Hready Hres Hs "trace" _ "trace"); [done|]. intros Ho. unfold Store.UpdateTraceChain. rewrite execFound_state.
    set_row.
  - apply (ifOwned_row s ctx t w Hready Hres Hs "trace" _ "trace"); [done|]. intros Ho. unfold Store.UpdateTraceChecksum. case_match; [done|]. case_match; [done|].
    rewrite execFound_state. set_row.
  - apply (ifOwned_row s ctx t w Hready Hres Hs "trace" _ "trace"); [done|]. intros Ho. unfold Store.DeleteTrace. rewrite void_state. delete_row.
  - apply underRun_keeps; [done..|]. intros x -> Hr. apply stamped_insert; [done|done|columns|done|by apply refsTo_run; [|only_run|]|done|fk_cols].
  - apply (ifOwned_row s ctx t w Hready Hres Hs "audit" _ "audit"); [done|]. intros Ho. unfold Store.UpdateAuditChain. rewrite execFound_state.
    set_row.
Qed.

Lemma approval_calls c : wellScoped t (w_db w) c ->
  match c with
  | Store.DoCreateApproval _ | Store.DoUpdateApproval _ | Store.DoUpdateApprovalIfPending _ | Store.DoDeleteApproval _ => keepsTo t (exec je s ctx c) w
  | _ => True
  end.
Proof using Hready Hres Hs.
  pose proof (caller_named s ctx t Hres) as Ht. intros Hw.
  assert (Hbump : forall what p x, runOwn t (w_db w) (text x "run_id") -> rowOwn t (w_db w) "approvals" (text x "id") ->
    (forall y, p y = true -> isText "id" (text x "id") y = true) -> confined t (w_db w) (Store.execCount what "approvals" p (Store.bumpRevision (stamp t x)) (w_db w)).2).
  { intros what p x Hr Ho Hp. apply (assign_confined t (w_db w) Ht Hs what "approvals" p Store.approvalColumns x); [columns|columns|done|fk_cols| | |].
    - apply refsTo_run; [done|only_run|done].
    - right. by eapply (hits_key _ _ "approvals"); [apply Hs|exact Ho|].
    - intros y c' Hc'. unfold Store.bumpRevision, Store.setCol. apply col_insert_ne. simpl in Hc'. set_unfold in Hc'. destruct_or? Hc'; by subst. }
  assert (Hid : forall x, text (stamp t x) "id" = text x "id") by (intros x; unfold text, stamp; by rewrite col_insert_ne).
  destruct c; try exact I; cbn [exec]; apply ans_keeps.
  - apply underRun_keeps; [done..|]. intros x -> Hr. apply stamped_insert; [done|done|columns|done|by apply refsTo_run; [|only_run|]|done|fk_cols].
  - apply underRun_keeps; [done..|]. intros x -> Hr. unfold Store.UpdateApproval. rewrite execFound_state. apply Hbump; [done|done|]. rewrite Hid. selects_key.
  - apply underRun_keeps; [done..|]. intros x -> Hr. unfold Store.UpdateApprovalIfPending. rewrite execIf_state. apply Hbump; [done|done|]. rewrite Hid. selects_key.
  - apply (ifOwned_row s ctx t w Hready Hres Hs "approval" _ "approvals"); [done|]. intros Ho. unfold Store.DeleteApproval. rewrite void_state.
    delete_row.
Qed.

Lemma lock_calls c :
  match c with
  | Store.DoCreateLock _ | Store.DoUpdateLock _ | Store.DoUpdateLockOwnedBy _ _ _ _ | Store.DoDeleteLock _ | Store.DoDeleteLockByIDAndOwner _ _
  | Store.DoDeleteExpiredLocks _ => keepsTo t (exec je s ctx c) w
  | _ => True
  end.
Proof using Hready Hres Hs.
  pose proof (caller_named s ctx t Hres) as Ht. destruct c; try exact I; cbn [exec]; apply ans_keeps.
  - unfold CreateLock, notReady. rewrite Hready. apply (guards_keeps t _ _ w True); [done|done|]. intros _ _. scoped. apply base_keeps.
    destruct l as [x|]; [|done]. apply execInsert_confined; [done|done| |no_fks|done].
    unfold owner, text. by rewrite col_pick, bool_decide_eq_false_2 by (cbn; set_solver).
  - scoped. apply base_keeps. destruct l as [x|]; [|done]. unfold Store.UpdateLock, Store.execUpdate. rewrite execFound_state.
    apply sets_confined; [done|done| |by apply hits_locks]. intros y c Hc. simpl in Hc.
    rewrite col_assign, bool_decide_eq_false_2; [done|]. unfold Store.lockColumns. set_solver.
  - scoped. apply base_keeps, sets_confined; [done|done|keeps_refs|by apply hits_locks].
  - scoped. apply base_keeps. unfold Store.DeleteLock. rewrite void_state. by apply execDelete_confined, hits_locks.
  - scoped. apply base_keeps. unfold Store.DeleteLockByIDAndOwner.
    pose proof (execDelete_confined t (w_db w) Hs "lock" "locks" _ (hits_locks t (w_db w) Hs (all [Store.byId id; isText "owner" owner0]))) as Hb.
    by destruct (Store.execDelete _ _ _ _) as [[e|n] d'].
  - scoped. by apply base_keeps, execDelete_confined, hits_locks.
Qed.

Lemma credential_calls c :
  match c with
  | Store.DoCreateCredential _ | Store.DoUpdateCredential _ | Store.DoDeleteCredential _ => keepsTo t (exec je s ctx c) w
  | _ => True
  end.
Proof using Hready Hres Hs.
  pose proof (caller_named s ctx t Hres) as Ht. destruct c; try exact I; cbn [exec]; apply ans_keeps.
  - scoped. destruct c as [x|]; [|by apply fail_keeps].
    apply base_keeps, stamped_insert; [done|done|cbn; set_solver|done|no_fks|done|fk_cols].
  - scoped. destruct c as [x|]; [|by apply fail_keeps]. cbn [nonNil]. unfold keepsTo, bind.
    rewrite (base_row w Hs "credentials" (text x "id") : base (Store.GetCredential (text x "id")) w = _).
    assert (Hb : rowOwn t (w_db w) "credentials" (text x "id") -> confined t (w_db w) (Store.UpdateCredential (Some (stamp t x)) (w_db w)).2).
    { intros Ho. apply execUpdate_confined; [done|done|done|columns|columns|done|fk_cols|no_fks|by right]. }
    destruct (tbl (w_db w) "credentials" !! text x "id") as [y|] eqn:E; [|by apply base_keeps, Hb, rowOwn_none].
    destruct (String.eqb_spec (owner y) t) as [Ho|]; cbn; [|done]. by eapply base_keeps, Hb, rowOwn_some.
  - apply (ifOwned_row s ctx t w Hready Hres Hs "credential" _ "credentials"); [done|]. intros Ho. unfold Store.DeleteCredential. rewrite void_state.
    delete_row.
Qed.

Lemma assignment_calls c :
  match c with
  | Store.DoCreateAssignment _ _ | Store.DoDeleteAssignment _ | Store.DoUpdateAssignmentStateIf _ _ _ _ _ | Store.DoUpdateAssignmentState _ _ _
  | Store.DoReassign _ _ _ _ | Store.DoReclaimAssignment _ _ _ _ | Store.DoSetAssignmentResult _ _ _ _ => keepsTo t (exec je s ctx c) w
  | _ => True
  end.
Proof using Hready Hres Hs.
  pose proof (caller_named s ctx t Hres) as Ht. destruct c; try exact I; cbn [exec]; apply ans_keeps.
  - apply underRun_keeps; [done..|]. intros x -> Hr. unfold Store.CreateAssignment. apply execInsert_confined; [done|done| |no_fks|done].
    unfold owner, text, Store.setCol, stamp. by rewrite col_pick, bool_decide_eq_true_2, !col_insert_ne, col_insert by (done || cbn; set_solver).
  - apply (ifOwned_row s ctx t w Hready Hres Hs "assignment" _ "run_assignment"); [done|]. intros Ho. unfold Store.DeleteAssignment. rewrite void_state.
    delete_row.
  - guarded assignmentOwned_guards. unfold Store.UpdateAssignmentStateIf.
    rewrite execIf_state. set_row.
  - guarded assignmentOwned_guards. unfold Store.UpdateAssignmentState.
    rewrite execIf_state. set_row.
  - guarded assignmentOwned_guards. unfold Store.Reassign.
    rewrite execIf_state. set_row.
  - guarded assignmentOwned_guards. unfold Store.ReclaimAssignment.
    rewrite execIf_state. set_row.
  - guarded assignmentOwned_guards. unfold Store.SetAssignmentResult.
    case_match; [done|]. rewrite void_state. set_row.
Qed.

Lemma stampCreated_col now x c : c <> "created_at" -> col (Store.stampCreated now x) c = col x c.
Proof using Type. intros Hc. unfold Store.stampCreated, Store.setCol. case_match; [by rewrite col_insert_ne|done]. Qed.
Lemma bindGroup_col x c : c <> "group_id" -> col (Store.bindGroup x) c = col x c.
Proof using Type. intros Hc. unfold Store.bindGroup, Store.setCol. case_match; [by rewrite col_insert_ne|done]. Qed.
Lemma upsertGroup_confined now x : rowOwn t (w_db w) "inventory_groups" (text x "id") ->
  confined t (w_db w) (Store.UpsertInventoryGroup now (stamp t x) (w_db w)).2.
Proof using je Hready Hres Hs.
  pose proof (caller_named s ctx t Hres) as Ht. intros Ho. unfold Store.UpsertInventoryGroup. destruct (upsert _ _ _ _) as [|d'] eqn:E; [done|].
  eapply (upsert_confined t (w_db w) Ht Hs); [exact E|done|done| |no_fks| |columns|columns|fk_cols].
  - unfold owner, text. rewrite col_pick, bool_decide_eq_true_2, stampCreated_col by (done || columns). unfold stamp. by rewrite col_insert.
  - change (sc_pk (schemaOf "inventory_groups")) with "id". unfold text. rewrite col_pick, bool_decide_eq_true_2, stampCreated_col by (done || columns).
    unfold stamp. by rewrite col_insert_ne.
Qed.
Lemma upsertTarget_confined now x : rowOwn t (w_db w) "targets" (text x "id") -> rowOwn t (w_db w) "inventory_groups" (text x "group_id") ->
  confined t (w_db w) (Store.UpsertTarget now (stamp t x) (w_db w)).2.
Proof using je Hready Hres Hs.
  pose proof (caller_named s ctx t Hres) as Ht. intros Ho Hg. unfold Store.UpsertTarget. destruct (upsert _ _ _ _) as [|d'] eqn:E; [done|].
  eapply (upsert_confined t (w_db w) Ht Hs); [exact E|done|done| | | |columns|columns|fk_cols].
  - unfold owner, text. rewrite col_pick, bool_decide_eq_true_2, bindGroup_col, stampCreated_col by (done || columns). unfold stamp. by rewrite col_insert.
  - intros fk p y Hfk. simpl in Hfk. set_unfold in Hfk. destruct_or? Hfk; subst. cbn [fk_col fk_parent].
    rewrite col_pick, bool_decide_eq_true_2 by columns. intros Hc Hy. apply Hg. unfold Store.bindGroup, Store.setCol in Hc. case_match; [by rewrite col_insert in Hc|].
    rewrite stampCreated_col in Hc by done. unfold stamp in Hc. rewrite col_insert_ne in Hc by done. unfold text. by rewrite Hc.
  - change (sc_pk (schemaOf "targets")) with "id". unfold text. rewrite col_pick, bool_decide_eq_true_2, bindGroup_col, stampCreated_col by (done || columns).
    unfold stamp. by rewrite col_insert_ne.
Qed.

Lemma inventory_calls c : wellScoped t (w_db w) c ->
  match c with
  | Store.DoUpsertInventoryGroup _ _ | Store.DoDeleteInventoryGroup _ | Store.DoUpsertTarget _ _ | Store.DoUpdateTargetStatus _ _
  | Store.DoSetTargetReachability _ _ _ | Store.DoDeleteTarget _ => keepsTo t (exec je s ctx c) w
  | _ => True
  end.
Proof using Hready Hres Hs.
  intros Hw. destruct c; try exact I; cbn [exec]; apply ans_keeps.
  - scoped. destruct g as [x|]; [|by apply fail_keeps]. apply (upsertOwned_keeps t w Hs "group" x Store.scanGroup "inventory_groups"); [done|apply scanGroup_owner|].
    apply upsertGroup_confined.
  - apply (ifOwned_mapped s ctx t w Hready Hres Hs "group" _ _ "inventory_groups"); [done|apply scanGroup_owner|]. intros Ho. unfold Store.DeleteInventoryGroup.
    rewrite void_state. delete_row.
  - scoped. destruct t0 as [x|]; [|by apply fail_keeps]. apply (upsertOwned_keeps t w Hs "target" x Store.scanTarget "targets"); [done|apply scanTarget_owner|].
    intros Ho. by apply upsertTarget_confined.
  - apply (ifOwned_mapped s ctx t w Hready Hres Hs "target" _ _ "targets"); [done|apply scanTarget_owner|]. intros Ho. unfold Store.UpdateTargetStatus.
    rewrite execFound_state. set_row.
  - apply (ifOwned_mapped s ctx t w Hready Hres Hs "target" _ _ "targets"); [done|apply scanTarget_owner|]. intros Ho. unfold Store.SetTargetReachability.
    rewrite execFound_state. set_row.
  - apply (ifOwned_mapped s ctx t w Hready Hres Hs "target" _ _ "targets"); [done|apply scanTarget_owner|]. intros Ho. unfold Store.DeleteTarget.
    rewrite void_state. delete_row.
Qed.

Lemma other_reads c :
  match c with
  | Store.DoGetLock _ | Store.DoGetLockByScope _ | Store.DoListLocks | Store.DoListClusterNodes | Store.DoAssignmentSummary | Store.DoBatchSummary _ | Store.DoCountTargetsInGroup _ =>
      quiet (exec je s ctx c)
  | _ => True
  end.
Proof using Type.
  destruct c; try exact I; cbn [exec]; (apply bind_quiet; [|intros; apply ret_quiet]); (apply bind_quiet; [apply scope_quiet|intros tid]); try solve [by apply base_quiet].
  - apply bind_quiet; [|intros; by apply base_quiet]. unfold ownRunTenant. case_match; [apply ret_quiet|]. apply bind_quiet; [by apply base_quiet|].
    intros [r|]; [case_match|]; auto with quiet.
  - apply bind_quiet; [by apply base_quiet|]. intros g. destruct (owned tid g); [|apply ret_quiet].
    apply bind_quiet; [by apply base_quiet|intros n]. destruct (n =? 0)%nat; auto with quiet.
Qed.

Lemma call_keeps c : wellScoped t (w_db w) c -> keepsTo t (exec je s ctx c) w.
Proof using Hready Hres Hs.
  intros Hw. pose proof (run_calls c Hw) as H1. pose proof (batch_step_calls c Hw) as H2. pose proof (evidence_calls c) as H3.
  pose proof (approval_calls c Hw) as H4. pose proof (lock_calls c) as H5. pose proof (credential_calls c) as H6. pose proof (assignment_calls c) as H7.
  pose proof (inventory_calls c Hw) as H8. pose proof (other_reads c) as H9. pose proof (read_quiet s ctx je c) as H10.
  destruct c; first [exact H1|exact H2|exact H3|exact H4|exact H5|exact H6|exact H7|exact H8|by apply quiet_keeps|by apply quiet_keeps, H10].
Qed.
End methods.

(** ** Claims *)

Section claims.
Context (json_extract : string -> string -> value).

(** A call by a tenant other than [u], with its own store, context and clock. *)
Inductive foreign (u : string) (w w' : world) : Prop :=
| Foreign s ctx t c : ts_ready s = true -> Resolve (ts_res s) ctx = inr t -> t <> u -> wellScoped t (w_db w) c ->
    w' = (exec json_extract s ctx c w).2 -> foreign u w w'.

Lemma spares_view t u d d' : u <> "" -> t <> u -> sealed d -> sealed d' -> spares t d d' -> sameView u d d'.
Proof.
  intros Hu Htu H1 H2 Hs T. apply map_eq. intros k. apply Quota.option_eq_iff. intros x. rewrite !view_lookup, (owner_isText u x Hu).
  destruct (decide (T = "locks")) as [->|HT]; [|split; intros [Hx Ho]; (split; [|done]); apply (Hs T k x HT); congruence].
  split; intros [Hx Ho]; [apply (sl_owned d H1) in Hx|apply (sl_owned d' H2) in Hx]; destruct Hu; rewrite <- Ho; by apply Hx.
Qed.
Lemma foreign_keeps u w w' : u <> "" -> foreign u w w' -> sealed (w_db w) -> sealed (w_db w') /\ sameView u (w_db w) (w_db w').
Proof.
  intros Hu [s ctx t c Hr Ht Hne Hw ->] Hs. destruct (call_keeps json_extract s ctx t w Hr Ht Hs c Hw) as [Hsp Hs']. split; [done|]. by eapply spares_view.
Qed.

End claims.

(** ** Examples *)

Lemma empty_sealed : sealed ∅.
Proof.
  assert (E : forall T k, tbl ∅ T !! k = None) by (intros T k; unfold tbl; by rewrite lookup_empty).
  split; [apply empty_ok|..|apply E]; intros *; rewrite E; done.
Qed.
Lemma run_sealed t d id : t <> "" -> id <> "" -> sealed d -> tbl d "runs" !! id = None ->
  check (put d "runs" id (sampleRun id t)) "runs" id (sampleRun id t) = None -> sealed (put d "runs" id (sampleRun id t)).
Proof.
  intros Ht Hid Hs Hn Hc. eapply (insert_confined t d "runs" (sampleRun id t)); [done|done|by apply insert_put|reflexivity| |].
  - intros fk p y Hfk. by apply not_elem_of_nil in Hfk.
  - intros _ E. change (Text id = Text "") in E. by injection E.
Qed.
Lemma twoRuns_sealed : sealed twoRuns.
Proof. apply run_sealed; [done|done|apply run_sealed; [done|done|apply empty_sealed|vm_compute; reflexivity..]|vm_compute; reflexivity..]. Qed.


(** Where the code does not look. [acme] updates an approval by its id, under a
    run of its own: the stored row is [globex]'s, and becomes [acme]'s. *)
Definition sampleApproval (id run tenant : string) : Row :=
  rowOf ([("id", Text id); ("run_id", Text run); ("tenant_id", Text tenant); ("revision", Int 0); ("status", Text "approved")] ++
         map (fun c => (c, Text "")) ["level"; "approver"; "comment"; "plan_hash"]).
Definition withApproval : db := put twoRuns "approvals" "a2" (sampleApproval "a2" "r2" "globex").
Definition answers (tenant : string) (c : Store.call) (d : db) : goerr + Store.answer :=
  (exec (fun _ _ => Null) tenanted (Some tenant) c (MkWorld d None)).1.
Definition sees (tenant : string) (c : Store.call) (d : db) : bool :=
  match answers tenant c d with inr (Store.ARow (Some _)) => true | _ => false end.
Example approval_taken_over :
  let w' := (exec (fun _ _ => Null) tenanted (Some "acme") (Store.DoUpdateApproval (Some (sampleApproval "a2" "r1" "acme"))) (MkWorld withApproval None)).2 in
  (sees "globex" (Store.DoGetApproval "a2") withApproval, sees "globex" (Store.DoGetApproval "a2") (w_db w'), sees "acme" (Store.DoGetApproval "a2") (w_db w')) =
  (true, false, true).
Proof. vm_compute. reflexivity. Qed.

(** Reading another tenant's run by id answers nothing, but summarising its
    batches answers differently from a run that does not exist. *)
Example summary_tells_apart :
  sees "acme" (Store.DoGetRun "r2") twoRuns = sees "acme" (Store.DoGetRun "r9") twoRuns /\
  answers "acme" (Store.DoBatchSummary "r2") twoRuns = inl (crossTenant "run belongs to another tenant") /\
  answers "acme" (Store.DoBatchSummary "r9") twoRuns = inl (violation "run not found").
Proof. split_and!; vm_compute; reflexivity. Qed.

End Confine.
