(* ===== verification/PgStore.v ===== *)
(** * PgStore: the PostgreSQL state store and its agreement with the SQLite one

    One definition per method of [PGStore] (src/internal/state/pgstore.go,
    pgstore_support.go, inventory_pg.go, trend_pg.go), over the same relational
    engine and schema as [Store] (pgschema.sql declares the same tables, keys,
    references, domains and append-only triggers). What differs from SQLite is
    modelled: placeholders are numbered and must match the bound arguments,
    OFFSET needs no LIMIT, NULLs sort last, text sorts by the collation of the
    database, driver errors have other texts. [collate] is that collation,
    [contains] the jsonb containment of one label. Instants are integers in the
    resolution of the column; NOW() is the [now] argument.

    The theorem says where the two stores can be swapped; the examples at the end
    show where they cannot. *)

From Stdlib Require Import Lia.
From stdpp Require Import base gmap sets list strings sorting relations.
From S2P Require Import Prelude RunStatus Condition Sql Store Quota Isolation.
Import Sql Store.
Open Scope string_scope.
Open Scope list_scope.

Module PgStore.

(** ** Errors *)

Definition pgText (e : sqlerr) : string :=
  match e with
  | UniqueFailed T cs => "ERROR: duplicate key value violates unique constraint " +:+ T +:+ "_" +:+ String.concat "_" cs +:+ "_key (SQLSTATE 23505)"
  | ForeignKeyFailed => "ERROR: insert or update violates foreign key constraint (SQLSTATE 23503)"
  | Aborted m => "ERROR: " +:+ m
  | SyntaxError => "ERROR: syntax error (SQLSTATE 42601)"
  end.
Definition pgError (what : string) (e : sqlerr) : goerr := EWrap what (EText (pgText e)).

(** ** Statements by key *)

Definition execInsert (what T : string) (cols : list string) (r : option Row) : op unit := fun d =>
  match r with
  | None => (inl (EText ("state: create " +:+ what +:+ ": nil " +:+ what)), d)
  | Some x => match insert d T (pick cols x) with
              | inl e => (inl (pgError ("state: create " +:+ what) e), d)
              | inr d' => (inr tt, d')
              end
  end.
Definition execCount (what T : string) (p : Row -> bool) (f : Row -> Row) : op nat := fun d =>
  match update d T p f with
  | inl e => (inl (pgError what e), d)
  | inr (n, d') => (inr n, d')
  end.
Definition execFound (what T : string) (p : Row -> bool) (f : Row -> Row) : op unit := fun d =>
  match execCount what T p f d with
  | (inl e, d') => (inl e, d')
  | (inr O, d') => (inl (notFound what), d')
  | (inr _, d') => (inr tt, d')
  end.
Definition execIf (what T : string) (p : Row -> bool) (f : Row -> Row) : op bool := fun d =>
  match execCount what T p f d with
  | (inl e, d') => (inl e, d')
  | (inr n, d') => (inr (0 <? n)%nat, d')
  end.
Definition execUpdate (what T : string) (cols : list string) (r : option Row) : op unit :=
  match r with
  | None => fun d => (inl (EText ("state: update " +:+ what +:+ ": nil " +:+ what)), d)
  | Some x => execFound ("state: update " +:+ what) T (isText "id" (text x "id")) (fun y => assign y x cols)
  end.
Definition execDelete (what T : string) (p : Row -> bool) : op nat := fun d =>
  match delete d T p with
  | inl e => (inl (pgError ("state: delete " +:+ what) e), d)
  | inr (n, d') => (inr n, d')
  end.

(** ** Queries with numbered placeholders *)

Inductive arg := AVal (v : value) | APair (k v : string).
Inductive cond :=
| CEq (c : string) (i : nat) | CNotIn (c : string) (slots : list nat) | CContains (c : string) (i : nat)
| CFrom (c : string) (i : nat) | CAfter (ts ts' id : nat).
Record stmt := MkStmt { st_where : list cond; st_args : list arg; st_limit : option nat; st_offset : option nat }.

Definition slotsOf (c : cond) : list nat :=
  match c with CEq _ i | CContains _ i | CFrom _ i => [i] | CNotIn _ l => l | CAfter i j k => [i; j; k] end.
Definition slots (st : stmt) : list nat :=
  concat (map slotsOf (st_where st)) ++ option_list (st_limit st) ++ option_list (st_offset st).
(** The server wants as many arguments as the highest placeholder. *)
Definition bindOk (st : stmt) : bool :=
  forallb (fun i => 0 <? i)%nat (slots st) && (foldr max 0 (slots st) =? length (st_args st))%nat.

Definition bound (args : list arg) (i : nat) : option arg := args !! pred i.
Definition boundVal (args : list arg) (i : nat) : value := match bound args i with Some (AVal v) => v | _ => Null end.

Section backend.
Context (collate : string -> string -> bool) (contains : string -> string * string -> bool).

(** The order of values: NULL last. *)
Definition lev (v w : value) : bool :=
  match v, w with
  | _, Null => true
  | Null, _ => false
  | Int a, Int b => (a <=? b)%Z
  | Int _, Text _ => true
  | Text _, Int _ => false
  | Text a, Text b => collate a b
  end.
Fixpoint before (keys : list (string * bool)) (x y : Row) : bool :=
  match keys with
  | [] => true
  | (c, desc) :: r =>
      if bool_decide (col x c = col y c) then before r x y
      else if (desc : bool) then lev (col y c) (col x c) else lev (col x c) (col y c)
  end.
Definition ordered (keys : list (string * bool)) (x y : Row) : Prop := before keys x y = true.
#[global] Instance ordered_dec keys x y : Decision (ordered keys x y) := decide (before keys x y = true).
Definition select (d : db) (T : string) (p : Row -> bool) (keys : list (string * bool)) : list Row :=
  merge_sort (ordered keys) ((map_to_list (matching p (tbl d T))).*2).

Definition holds (args : list arg) (x : Row) (c : cond) : bool :=
  match c with
  | CEq c i => eqv (col x c) (boundVal args i)
  | CNotIn c l => negb (existsb (fun i => match boundVal args i with Text s => String.eqb s (text x c) | _ => false end) l)
  | CContains c i => match bound args i with Some (APair k v) => contains (text x c) (k, v) | _ => false end
  | CFrom c i => match boundVal args i with Int n => negb (intLt c n x) | _ => false end
  | CAfter i j k =>
      match boundVal args i, boundVal args j, boundVal args k with
      | Int t, Int t', Text id => (t <? int x "timestamp")%Z || ((int x "timestamp" =? t')%Z && negb (collate (text x "id") id))
      | _, _, _ => false
      end
  end.

Definition limitOf (args : list arg) (o : option nat) : Z := match o with Some i => match boundVal args i with Int n => n | _ => 0 end | None => 0 end.
Definition page (st : stmt) (l : list Row) : list Row :=
  limited (limitOf (st_args st) (st_limit st)) (drop (Z.to_nat (limitOf (st_args st) (st_offset st))) l).
Definition query (what T : string) (st : stmt) (keys : list (string * bool)) : op (list Row) := fun d =>
  if bindOk st then (inr (page st (select d T (fun x => forallb (holds (st_args st) x) (st_where st)) keys)), d)
  else (inl (EWrap what (EText "ERROR: bind message supplies the wrong number of parameters (SQLSTATE 08P01)")), d).
Definition queryRow (T : string) (p : Row -> bool) : op (option Row) := fun d => (inr (head (select d T p [])), d).
Definition queryAll (T : string) (keys : list (string * bool)) : op (list Row) := fun d => (inr (select d T (all []) keys), d).

(** Clauses are collected with their arguments; an empty filter field adds none. *)
Definition push (acc : list (nat -> cond) * list arg) (cv : string * string) : list (nat -> cond) * list arg :=
  if String.eqb cv.2 "" then acc else (acc.1 ++ [CEq cv.1], acc.2 ++ [AVal (Text cv.2)]).
Definition pgJoinPlaceholders (clauses : list (nat -> cond)) : list cond := imap (fun i c => c (S i)) clauses.
(** LIMIT and OFFSET are numbered by the length of the argument list. *)
Definition pageArgs (args : list arg) (limit offset : Z) : list arg * option nat * option nat :=
  let '(args, lim) := if (0 <? limit)%Z then (args ++ [AVal (Int limit)], Some (S (length args))) else (args, None) in
  let '(args, off) := if (0 <? offset)%Z then (args ++ [AVal (Int offset)], Some (S (length args))) else (args, None) in
  (args, lim, off).
Definition built (fs : list (string * string)) (limit offset : Z) : stmt :=
  let '(clauses, args) := foldl push ([], []) fs in
  let '(args, lim, off) := pageArgs args limit offset in
  MkStmt (pgJoinPlaceholders clauses) args lim off.

(** The other style: the next number is counted next to the arguments. *)
Record builder := MkBuilder { b_clauses : list cond; b_args : list arg; b_idx : nat }.
Definition addEq (b : builder) (c v : string) : builder :=
  if String.eqb v "" then b else MkBuilder (b_clauses b ++ [CEq c (S (b_idx b))]) (b_args b ++ [AVal (Text v)]) (S (b_idx b)).
Definition addNotIn (b : builder) (c : string) (vs : list string) : builder :=
  match vs with
  | [] => b
  | _ => MkBuilder (b_clauses b ++ [CNotIn c (seq (S (b_idx b)) (length vs))]) (b_args b ++ map (fun v => AVal (Text v)) vs) (b_idx b + length vs)
  end.
Definition addContains (c : string) (b : builder) (kv : string * string) : builder :=
  MkBuilder (b_clauses b ++ [CContains c (S (b_idx b))]) (b_args b ++ [APair kv.1 kv.2]) (S (b_idx b)).
Definition finish (b : builder) (limit offset : Z) : stmt :=
  let '(args, idx, lim) := if (0 <? limit)%Z then (b_args b ++ [AVal (Int limit)], S (b_idx b), Some (S (b_idx b))) else (b_args b, b_idx b, None) in
  let '(args, off) := if (0 <? offset)%Z then (args ++ [AVal (Int offset)], Some (S idx)) else (args, None) in
  MkStmt (b_clauses b) args lim off.

(** ** Runs *)

Definition CreateRun (run : option Row) : op unit := execInsert "run" "runs" ("id" :: "created_at" :: runColumns) run.
Definition GetRun (id : string) : op (option Row) := queryRow "runs" (byId id).
Definition UpdateRun (run : option Row) : op unit := execUpdate "run" "runs" runColumns run.
(** SELECT .. FOR UPDATE and UPDATE in one transaction. *)
Definition UpdateRunReturningPrevStatus (run : option Row) : op string := fun d =>
  match run with
  | None => (inl (EText "state: update run: nil run"), d)
  | Some r =>
      match select d "runs" (byId (text r "id")) [] with
      | [] => (inl (notFound "state: update run"), d)
      | old :: _ => match execCount "state: update run" "runs" (byId (text r "id")) (fun y => assign y r runColumns) d with
                    | (inl e, _) => (inl e, d)
                    | (inr _, d') => (inr (text old "status"), d')
                    end
      end
  end.
Definition UpdateRunStatusIf (id from to : string) (updatedAt : Z) : op bool :=
  execIf "state: update run status" "runs" (all [byId id; isText "status" from])
    (fun x => setCol "updated_at" (Int updatedAt) (setCol "status" (Text to) x)).
Definition UpdateRunApprovalStatusIf (id from to approvalStatus : string) (updatedAt : Z) : op bool :=
  execIf "state: update run approval status" "runs" (all [byId id; isText "status" from])
    (fun x => setCol "updated_at" (Int updatedAt) (setCol "approval_status" (Text approvalStatus) (setCol "status" (Text to) x))).
Definition UpdateRunPlan (id planJSON planHash : string) (updatedAt : Z) : op unit :=
  execFound "state: update run plan" "runs" (byId id)
    (fun x => setCol "updated_at" (Int updatedAt) (setCol "plan_hash" (Text planHash) (setCol "plan_json" (Text planJSON) x))).
Definition MarkNonTerminalSteps (runID marker : string) : op nat :=
  execCount "state: mark non-terminal steps" "steps"
    (all [isText "run_id" runID; fun x => isText "status" "running" x || isText "status" "pending" x]) (setCol "status" (Text marker)).
Definition ListRuns (f : RunFilter) : op (list Row) :=
  query "state: list runs" "runs"
    (built [("status", rf_Status f); ("workflow_name", rf_WorkflowName f); ("template_name", rf_TemplateName f); ("creator", rf_Creator f);
            ("incident_id", rf_IncidentID f); ("tenant_id", rf_TenantID f)] (rf_Limit f) (rf_Offset f)) [desc "created_at"].
Definition DeleteRun (id : string) : op unit := void (execDelete "run" "runs" (byId id)).

(** ** Batches and steps *)

Definition CreateBatch (b : option Row) : op unit := execInsert "batch" "batches" ("id" :: batchColumns) b.
Definition GetBatch (id : string) : op (option Row) := queryRow "batches" (byId id).
Definition UpdateBatch (b : option Row) : op unit := execUpdate "batch" "batches" batchColumns b.
Definition ListBatches (f : BatchFilter) : op (list Row) :=
  query "state: list batches" "batches"
    (built [("run_id", bf_RunID f); ("status", bf_Status f); ("tenant_id", bf_TenantID f)] (bf_Limit f) 0) [asc "batch_no"].
Definition DeleteBatch (id : string) : op unit := void (execDelete "batch" "batches" (byId id)).

Definition CreateStep (s : option Row) : op unit := execInsert "step" "steps" ("id" :: stepColumns) s.
Definition GetStep (id : string) : op (option Row) := queryRow "steps" (byId id).
Definition UpdateStep (s : option Row) : op unit := execUpdate "step" "steps" stepColumns s.
Definition ListSteps (f : StepFilter) : op (list Row) :=
  query "state: list steps" "steps"
    (built [("run_id", sf_RunID f); ("batch_id", sf_BatchID f); ("host", sf_Host f); ("status", sf_Status f); ("tenant_id", sf_TenantID f)] (sf_Limit f) 0)
    [asc "started_at"].
Definition DeleteStep (id : string) : op unit := void (execDelete "step" "steps" (byId id)).

(** ** Traces *)

Definition CreateTrace (t : option Row) : op unit := fun d =>
  match t with
  | None => (inl (EText "state: create trace: nil trace"), d)
  | Some x => match insert d "trace" (pick ("id" :: traceColumns) x) with
              | inl e => (inl (if isUniqueConstraint e then EWrap "state: create trace" (ESentinel ErrTraceExists)
                               else pgError "state: create trace" e), d)
              | inr d' => (inr tt, d')
              end
  end.
Definition GetTrace (id : string) : op (option Row) := queryRow "trace" (byId id).
Definition UpdateTrace (t : option Row) : op unit := execUpdate "trace" "trace" traceColumns t.
Definition UpdateTraceChecksum (id checksum : string) : op unit :=
  if String.eqb id "" then fun d => (inl (EText "state: update trace checksum: empty id"), d)
  else if String.eqb checksum "" then fun d => (inl (EText "state: update trace checksum: empty checksum"), d)
  else execFound "state: update trace checksum" "trace" (all [byId id; isText "curr_hash" ""]) (setCol "curr_hash" (Text checksum)).
Definition UpdateTraceChain (id prevHash currHash : string) : op unit :=
  execFound "state: update trace chain" "trace" (byId id) (fun x => setCol "curr_hash" (Text currHash) (setCol "prev_hash" (Text prevHash) x)).
Definition ListTraces (f : TraceFilter) : op (list Row) :=
  query "state: list traces" "trace"
    (built [("run_id", tf_RunID f); ("event", tf_Event f); ("tenant_id", tf_TenantID f)] (tf_Limit f) (tf_Offset f)) [asc "timestamp"; asc "id"].
Definition DeleteTrace (id : string) : op unit := void (execDelete "trace" "trace" (byId id)).

(** ** Approvals *)

Definition CreateApproval (a : option Row) : op unit := execInsert "approval" "approvals" ("id" :: "revision" :: approvalColumns) a.
Definition GetApproval (id : string) : op (option Row) := queryRow "approvals" (byId id).
Definition UpdateApproval (a : option Row) : op unit :=
  match a with
  | None => fun d => (inl (EText "state: update approval: nil approval"), d)
  | Some x => execFound "state: update approval" "approvals" (byId (text x "id")) (bumpRevision x)
  end.
Definition UpdateApprovalIfPending (a : option Row) : op bool :=
  match a with
  | None => fun d => (inl (EText "state: update approval if pending: nil approval"), d)
  | Some x => execIf "state: update approval if pending" "approvals"
                (all [byId (text x "id"); isText "status" "pending"; fun y => eqv (col y "revision") (col x "revision")]) (bumpRevision x)
  end.
Definition ListApprovals (f : ApprovalFilter) : op (list Row) :=
  query "state: list approvals" "approvals"
    (built [("run_id", af_RunID f); ("level", af_Level f); ("status", af_Status f); ("tenant_id", af_TenantID f)] (af_Limit f) 0) [asc "timeout_at"].
Definition DeleteApproval (id : string) : op unit := void (execDelete "approval" "approvals" (byId id)).

(** ** Locks *)

Definition CreateLock (l : option Row) : op unit := execInsert "lock" "locks" ("id" :: lockColumns) l.
Definition GetLock (id : string) : op (option Row) := queryRow "locks" (byId id).
Definition GetLockByScope (scope : string) : op (option Row) := queryRow "locks" (isText "scope" scope).
Definition UpdateLock (l : option Row) : op unit := execUpdate "lock" "locks" lockColumns l.
Definition UpdateLockOwnedBy (id owner : string) (ttlSeconds now : Z) : op nat :=
  execCount "state: update lock owned by" "locks" (all [byId id; intLe "expires_at" now])
    (fun x => setCol "expires_at" (Int (now + wrap64 (ttlSeconds * 1000000000)))
                (setCol "acquired_at" (Int now) (setCol "ttl_seconds" (Int ttlSeconds) (setCol "owner" (Text owner) x)))).
Definition ListLocks : op (list Row) := queryAll "locks" [asc "expires_at"].
Definition DeleteLock (id : string) : op unit := void (execDelete "lock" "locks" (byId id)).
Definition DeleteLockByIDAndOwner (id owner : string) : op bool := fun d =>
  match execDelete "lock" "locks" (all [byId id; isText "owner" owner]) d with
  | (inl e, d') => (inl e, d')
  | (inr n, d') => (inr (0 <? n)%nat, d')
  end.
Definition DeleteExpiredLocks (now : Z) : op nat := execDelete "expired locks" "locks" (intLt "expires_at" now).

(** ** Credentials *)

Definition CreateCredential (c : option Row) : op unit := execInsert "credential" "credentials" ("id" :: credentialColumns) c.
Definition GetCredential (id : string) : op (option Row) := queryRow "credentials" (byId id).
Definition GetCredentialByName (name : string) : op (option Row) := queryRow "credentials" (isText "name" name).
Definition UpdateCredential (c : option Row) : op unit := execUpdate "credential" "credentials" credentialColumns c.
Definition ListCredentials : op (list Row) := queryAll "credentials" [asc "name"].
Definition DeleteCredential (id : string) : op unit := void (execDelete "credential" "credentials" (byId id)).

(** ** Assignments *)

Definition CreateAssignment (now : Z) (a : option Row) : op unit := fun d =>
  match a with
  | None => (inl (EText "state: create assignment: nil assignment"), d)
  | Some x => execInsert "assignment" "run_assignment" assignmentColumns
                (Some (setCol "updated_at" (Int now) (setCol "assigned_at" (Int now) x))) d
  end.
Definition GetAssignment (runID : string) : op (option Row) := queryRow "run_assignment" (ofRun runID).
Definition UpdateAssignmentStateIf (now : Z) (runID : string) (epoch : Z) (expected next : string) : op bool :=
  execIf "state: update assignment" "run_assignment" (all [ofRun runID; atEpoch epoch; isText "state" expected])
    (fun x => setCol "updated_at" (Int now) (setCol "state" (Text next) x)).
Definition UpdateAssignmentState (now : Z) (runID next : string) : op bool :=
  execIf "state: update assignment" "run_assignment"
    (all [ofRun runID; fun x => isText "state" AssignStatePending x || isText "state" AssignmentStateExecuting x])
    (fun x => setCol "updated_at" (Int now) (setCol "state" (Text next) x)).
Definition Reassign (now : Z) (runID : string) (prevEpoch : Z) (newNode : string) : op bool :=
  execIf "state: reassign" "run_assignment" (all [ofRun runID; atEpoch prevEpoch]) (repoint now newNode).
Definition ReclaimAssignment (now : Z) (runID : string) (epoch : Z) (newNode : string) : op bool :=
  execIf "state: reclaim assignment" "run_assignment" (all [ofRun runID; atEpoch epoch; isText "state" AssignStatePending]) (repoint now newNode).
Definition ListAssignments (f : AssignmentFilter) : op (list Row) :=
  let b := addEq (addEq (addEq (MkBuilder [] [] 0) "run_id" (nf_RunID f)) "owner_node" (nf_OwnerNode f)) "state" (nf_State f) in
  let b := addEq (addNotIn b "state" (nf_ExcludeStates f)) "tenant_id" (nf_TenantID f) in
  query "state: list assignments" "run_assignment" (finish b (nf_Limit f) 0) [asc "assigned_at"].
Definition DeleteAssignment (runID : string) : op unit := void (execDelete "assignment" "run_assignment" (ofRun runID)).
Definition SetAssignmentResult (now : Z) (runID : string) (epoch : Z) (result : string) : op unit :=
  if negb (isAssignResult result) then fun d => (inl (EText ("state: set result: " +:+ result +:+ " is not an assignment result")), d)
  else void (execCount "state: set result" "run_assignment" (all [ofRun runID; atEpoch epoch])
               (fun x => setCol "updated_at" (Int now) (setCol "result" (Text result) x))).
Definition ListClusterNodes : op (list Row) := queryAll "cluster_nodes" [asc "id"].
Definition assignmentSummary : op Store.AssignmentSummary := fun d =>
  (inr (foldl tallyAssignment (MkAssignmentSummary ∅ ∅ 0) (select d "run_assignment" (all []) [])), d).
Definition batchSummary (runID : string) : op Store.BatchSummary := fun d =>
  let s := foldl tallyBatch (MkBatchSummary [] 0 0 0) (select d "batches" (isText "run_id" runID) [asc "batch_no"]) in
  (inr (MkBatchSummary (bs_Batches s) (bs_CurrentBatchNo s) (length (bs_Batches s)) (bs_DoneBatches s)), d).

(** ** The audit log *)

Definition CreateAudit (a : option Row) : op unit := execInsert "audit" "audit" auditColumns a.
Definition GetAudit (id : string) : op (option Row) := queryRow "audit" (byId id).
Definition UpdateAuditChain (id prevHash currHash : string) : op unit :=
  execFound "state: update audit chain" "audit" (byId id) (fun x => setCol "curr_hash" (Text currHash) (setCol "prev_hash" (Text prevHash) x)).
Definition ListAudits (f : AuditFilter) : op (list Row) :=
  query "state: list audits" "audit"
    (built [("run_id", uf_RunID f); ("action", uf_Action f); ("actor", uf_Actor f); ("target", uf_Target f); ("tenant_id", uf_TenantID f)]
       (uf_Limit f) (uf_Offset f)) [desc "timestamp"].
(** The cursor's time is bound once and referenced twice. *)
Definition ListAuditChainPage (cursor : option (Z * string)) (limit : Z) (tenantID : string) : op (list Row) :=
  let '(clauses, args) :=
    match cursor with
    | Some (ts, id) => ([CAfter 1 1 2], [AVal (Int ts); AVal (Text id)])
    | None => ([], [])
    end in
  let '(clauses, args) :=
    if String.eqb tenantID "" then (clauses, args)
    else (clauses ++ [CEq "tenant_id" (S (length args))], args ++ [AVal (Text tenantID)]) in
  let args := args ++ [AVal (Int (if (limit <=? 0)%Z then DefaultAuditChainPageSize else limit))] in
  query "state: list audit chain page" "audit" (MkStmt clauses args (Some (length args)) None) [asc "timestamp"; asc "id"].

(** ** Inventory *)

Definition UpsertInventoryGroup (now : Z) (g : Row) : op unit := fun d =>
  match upsert d "inventory_groups" (pick ("id" :: "created_at" :: groupColumns) (stampCreated now g)) groupColumns with
  | inl e => (inl (pgError "state: upsert inventory group" e), d)
  | inr d' => (inr tt, d')
  end.
Definition GetInventoryGroup (id : string) : op (option Row) := mapRow scanGroup (queryRow "inventory_groups" (byId id)).
Definition GetInventoryGroupByName (name : string) : op (option Row) := mapRow scanGroup (queryRow "inventory_groups" (isText "name" name)).
Definition ListInventoryGroups : op (list Row) := mapRows scanGroup (queryAll "inventory_groups" [asc "name"]).
Definition DeleteInventoryGroup (id : string) : op unit := void (execDelete "inventory group" "inventory_groups" (byId id)).

(** Any duplicate key is taken for the address. *)
Definition UpsertTarget (now : Z) (t : Row) : op unit := fun d =>
  match upsert d "targets" (pick ("id" :: "created_at" :: targetColumns) (bindGroup (stampCreated now t))) targetColumns with
  | inl e => (inl (if Contains (pgText e) "targets_hostname_port_key" || Contains (pgText e) "duplicate key value violates unique constraint"
                   then EWrap "state: upsert target" (ESentinel ErrDuplicateTarget)
                   else pgError "state: upsert target" e), d)
  | inr d' => (inr tt, d')
  end.
Definition scanTargetPG (x : Row) : Row := setCol "group_id" (Text (text x "group_id")) x.
Definition GetTarget (id : string) : op (option Row) := mapRow scanTargetPG (queryRow "targets" (byId id)).
Definition FindTargetByAddress (hostname : string) (port : Z) : op (option Row) :=
  mapRow scanTargetPG (queryRow "targets" (all [isText "hostname" hostname; fun x => eqv (col x "port") (Int port)])).
Definition ListTargets (f : TargetFilter) : op (list Row) :=
  let b := addEq (addEq (MkBuilder [] [] 0) "group_id" (gf_GroupID f)) "status" (gf_Status f) in
  let b := addEq (foldl (addContains "labels") b (gf_Labels f)) "tenant_id" (gf_TenantID f) in
  mapRows scanTargetPG (query "state: list targets" "targets" (finish b (gf_Limit f) (gf_Offset f)) [asc "hostname"; asc "port"]).
Definition UpdateTargetStatus (id status : string) : op unit :=
  execFound "state: update target status" "targets" (byId id) (setCol "status" (Text status)).
Definition SetTargetReachability (id : string) (reachable : bool) (at_ : Z) : op unit :=
  execFound "state: set target reachability" "targets" (byId id)
    (fun x => setCol "last_checked_at" (Int at_) (setCol "reachable" (Int (if reachable then 1 else 0)) x)).
Definition DeleteTarget (id : string) : op unit := void (execDelete "target" "targets" (byId id)).
Definition CountTargetsInGroup (groupID : string) : op nat := fun d => (inr (length (select d "targets" (isText "group_id" groupID) [])), d).

(** ** The trend of run outcomes *)

Definition runTrendQuery (f : RunTrendFilter) (start : Z) : op (list Row * bool) := fun d =>
  let '(clauses, args) := ([CFrom "created_at" 1], [AVal (Int start)]) in
  let '(clauses, args) :=
    if String.eqb (wf_Env f) "" then (clauses, args) else (clauses ++ [CEq "incident_id" 2], args ++ [AVal (Text (wf_Env f))]) in
  let '(clauses, args) :=
    if String.eqb (wf_TenantID f) "" then (clauses, args)
    else (clauses ++ [CEq "tenant_id" (S (length args))], args ++ [AVal (Text (wf_TenantID f))]) in
  let limit := if (wf_Limit f <=? 0)%Z then DefaultRunTrendLimit else wf_Limit f in
  let st := MkStmt clauses (args ++ [AVal (Int (limit + 1))]) (Some (S (length args))) None in
  match query "state: run trend" "runs" st [desc "created_at"] d with
  | (inl e, d') => (inl e, d')
  | (inr out, d') =>
      let truncated := (0 <? wf_Limit f)%Z && (wf_Limit f <? Z.of_nat (length out))%Z in
      (inr (if truncated then take (Z.to_nat (wf_Limit f)) out else out, truncated), d')
  end.
Definition RunTrend (now : Z) (f : RunTrendFilter) : op (list RunTrendBucket * bool) := fun d =>
  let days := clampDays (wf_Days f) in
  match runTrendQuery f (startOfWindow now days (wf_OffsetMinutes f)) d with
  | (inl e, d') => (inl e, d')
  | (inr (runs, truncated), d') => (inr (BucketRuns runs days (wf_OffsetMinutes f) now, truncated), d')
  end.

(** ** The interface *)

Definition exec (c : call) : op answer :=
  match c with
  | DoCreateRun r => done_ (CreateRun r) | DoGetRun id => ans ARow (GetRun id) | DoUpdateRun r => done_ (UpdateRun r)
  | DoUpdateRunStatusIf id f t u => ans ABool (UpdateRunStatusIf id f t u)
  | DoUpdateRunApprovalStatusIf id f t a u => ans ABool (UpdateRunApprovalStatusIf id f t a u)
  | DoUpdateRunPlan id j h u => done_ (UpdateRunPlan id j h u)
  | DoMarkNonTerminalSteps id m => ans ACount (MarkNonTerminalSteps id m)
  | DoListRuns f => ans ARows (ListRuns f) | DoRunTrend now f => ans (fun x => ATrend x.1 x.2) (RunTrend now f) | DoDeleteRun id => done_ (DeleteRun id)
  | DoCreateBatch b => done_ (CreateBatch b) | DoGetBatch id => ans ARow (GetBatch id) | DoUpdateBatch b => done_ (UpdateBatch b)
  | DoListBatches f => ans ARows (ListBatches f) | DoDeleteBatch id => done_ (DeleteBatch id)
  | DoCreateStep b => done_ (CreateStep b) | DoGetStep id => ans ARow (GetStep id) | DoUpdateStep b => done_ (UpdateStep b)
  | DoListSteps f => ans ARows (ListSteps f) | DoDeleteStep id => done_ (DeleteStep id)
  | DoCreateTrace t => done_ (CreateTrace t) | DoGetTrace id => ans ARow (GetTrace id) | DoUpdateTrace t => done_ (UpdateTrace t)
  | DoUpdateTraceChain id p c => done_ (UpdateTraceChain id p c) | DoUpdateTraceChecksum id c => done_ (UpdateTraceChecksum id c)
  | DoListTraces f => ans ARows (ListTraces f) | DoDeleteTrace id => done_ (DeleteTrace id)
  | DoCreateApproval a => done_ (CreateApproval a) | DoGetApproval id => ans ARow (GetApproval id) | DoUpdateApproval a => done_ (UpdateApproval a)
  | DoUpdateApprovalIfPending a => ans ABool (UpdateApprovalIfPending a) | DoListApprovals f => ans ARows (ListApprovals f)
  | DoDeleteApproval id => done_ (DeleteApproval id)
  | DoCreateLock l => done_ (CreateLock l) | DoGetLock id => ans ARow (GetLock id) | DoGetLockByScope sc => ans ARow (GetLockByScope sc)
  | DoUpdateLock l => done_ (UpdateLock l) | DoUpdateLockOwnedBy id o t n => ans ACount (UpdateLockOwnedBy id o t n)
  | DoListLocks => ans ARows ListLocks | DoDeleteLock id => done_ (DeleteLock id)
  | DoDeleteLockByIDAndOwner id o => ans ABool (DeleteLockByIDAndOwner id o) | DoDeleteExpiredLocks n => ans ACount (DeleteExpiredLocks n)
  | DoCreateCredential c => done_ (CreateCredential c) | DoGetCredential id => ans ARow (GetCredential id)
  | DoGetCredentialByName n => ans ARow (GetCredentialByName n) | DoUpdateCredential c => done_ (UpdateCredential c)
  | DoListCredentials => ans ARows ListCredentials | DoDeleteCredential id => done_ (DeleteCredential id)
  | DoCreateAudit a => done_ (CreateAudit a) | DoGetAudit id => ans ARow (GetAudit id) | DoUpdateAuditChain id p c => done_ (UpdateAuditChain id p c)
  | DoListAudits f => ans ARows (ListAudits f) | DoListAuditChainPage a l t => ans ARows (ListAuditChainPage a l t)
  | DoCreateAssignment n a => done_ (CreateAssignment n a) | DoGetAssignment r => ans ARow (GetAssignment r)
  | DoListAssignments f => ans ARows (ListAssignments f) | DoDeleteAssignment r => done_ (DeleteAssignment r)
  | DoUpdateAssignmentStateIf n r e x y => ans ABool (UpdateAssignmentStateIf n r e x y)
  | DoUpdateAssignmentState n r x => ans ABool (UpdateAssignmentState n r x) | DoReassign n r e w => ans ABool (Reassign n r e w)
  | DoReclaimAssignment n r e w => ans ABool (ReclaimAssignment n r e w) | DoSetAssignmentResult n r e x => done_ (SetAssignmentResult n r e x)
  | DoListClusterNodes => ans ARows ListClusterNodes | DoAssignmentSummary => ans AAssignments assignmentSummary
  | DoBatchSummary r => ans ABatches (batchSummary r)
  | DoUpsertInventoryGroup n g => match g with Some x => done_ (UpsertInventoryGroup n x) | None => panics end
  | DoGetInventoryGroup id => ans ARow (GetInventoryGroup id) | DoGetInventoryGroupByName n => ans ARow (GetInventoryGroupByName n)
  | DoListInventoryGroups => ans ARows ListInventoryGroups | DoDeleteInventoryGroup id => done_ (DeleteInventoryGroup id)
  | DoUpsertTarget n t => match t with Some x => done_ (UpsertTarget n x) | None => panics end
  | DoGetTarget id => ans ARow (GetTarget id) | DoFindTargetByAddress h p => ans ARow (FindTargetByAddress h p)
  | DoListTargets f => ans ARows (ListTargets f) | DoUpdateTargetStatus id st => done_ (UpdateTargetStatus id st)
  | DoSetTargetReachability id r t => done_ (SetTargetReachability id r t) | DoDeleteTarget id => done_ (DeleteTarget id)
  | DoCountTargetsInGroup g => ans ACount (CountTargetsInGroup g)
  end.

(** ** The statements bind what they mean *)

(** Numbers and arguments agree, and the clauses say [P] whatever is appended to
    the arguments. *)
Definition good (b : builder) (P : Row -> bool) : Prop :=
  b_idx b = length (b_args b) /\ concat (map slotsOf (b_clauses b)) = seq 1 (b_idx b) /\
  forall more x, forallb (holds (b_args b ++ more) x) (b_clauses b) = P x.

Lemma bound_mid l1 a l2 : bound (l1 ++ a :: l2) (S (length l1)) = Some a.
Proof using Type. unfold bound. cbn [pred]. by rewrite list_lookup_middle. Qed.

Lemma good_nil : good (MkBuilder [] [] 0) (all []).
Proof using Type. done. Qed.
Lemma good_cond b P c a Q : good b P -> slotsOf c = [S (b_idx b)] ->
  (forall more x, holds (b_args b ++ a :: more) x c = Q x) -> good (MkBuilder (b_clauses b ++ [c]) (b_args b ++ [a]) (S (b_idx b))) (fun x => P x && Q x).
Proof using Type.
  intros (Hi & Hs & Hh) Hc HQ. split_and!; cbn [b_idx b_args b_clauses].
  - rewrite length_app. cbn. lia.
  - rewrite map_app, concat_app, Hs. cbn [map concat]. rewrite Hc, app_nil_r. by rewrite seq_S.
  - intros more x. rewrite forallb_app. cbn [forallb]. rewrite <- app_assoc. cbn [app]. by rewrite Hh, HQ, andb_true_r.
Qed.
Lemma good_eq b P c v : good b P -> good (addEq b c v) (fun x => P x && eqIf c v x).
Proof using Type.
  intros Hg. unfold addEq, eqIf. destruct (String.eqb v ""); cbn [orb].
  - destruct Hg as (Hi & Hs & Hh). split_and!; [done..|]. intros more x. by rewrite Hh, andb_true_r.
  - apply good_cond; [done|done|]. destruct Hg as (Hi & _). intros more x. cbn [holds]. unfold boundVal. rewrite Hi, bound_mid. done.
Qed.
Lemma good_contains b P c kv : good b P -> good (addContains c b kv) (fun x => P x && contains (text x c) kv).
Proof using Type.
  intros Hg. apply good_cond; [done|done|]. destruct Hg as (Hi & _). intros more x. cbn [holds]. rewrite Hi, bound_mid. by destruct kv.
Qed.
Lemma bound_run l1 vs l2 i v : vs !! i = Some v -> bound (l1 ++ vs ++ l2) (S (length l1) + i) = Some v.
Proof using Type.
  intros Hv. unfold bound. cbn [pred plus]. rewrite lookup_app_r by lia. replace (length l1 + i - length l1) with i by lia.
  rewrite lookup_app_l; [done|]. by eapply lookup_lt_Some.
Qed.
Lemma notIn_holds l1 vs l2 x c :
  existsb (fun i => match boundVal (l1 ++ map (fun v => AVal (Text v)) vs ++ l2) i with Text s => String.eqb s (text x c) | _ => false end) (seq (S (length l1)) (length vs)) =
  inSet vs (text x c).
Proof using Type.
  revert l1. induction vs as [|v vs IH]; intros l1; [done|]. cbn [length seq existsb map app]. unfold boundVal at 1. rewrite bound_mid.
  assert (E : l1 ++ AVal (Text v) :: map (fun v => AVal (Text v)) vs ++ l2 = (l1 ++ [AVal (Text v)]) ++ map (fun v => AVal (Text v)) vs ++ l2) by (by rewrite <- app_assoc).
  rewrite E. specialize (IH (l1 ++ [AVal (Text v)])). rewrite length_app in IH. cbn [length] in IH. rewrite Nat.add_1_r in IH. rewrite IH.
  unfold inSet. cbn [existsb]. by rewrite String.eqb_sym.
Qed.
Lemma good_notIn b P c vs : good b P -> good (addNotIn b c vs) (fun x => P x && negb (inSet vs (text x c))).
Proof using Type.
  intros (Hi & Hs & Hh). destruct vs as [|v vs]; [split_and!; [done..|]; intros more x; rewrite Hh; cbn; by rewrite andb_true_r|].
  set (l := v :: vs). unfold addNotIn. change (match l with [] => b | _ => ?z end) with z. split_and!; cbn [b_idx b_args b_clauses].
  - rewrite length_app, length_map. lia.
  - rewrite map_app, concat_app, Hs. cbn [map concat slotsOf]. rewrite app_nil_r. by rewrite <- seq_app.
  - intros more x. rewrite forallb_app. cbn [forallb]. rewrite <- app_assoc, Hh, andb_true_r. cbn [holds]. by rewrite Hi, notIn_holds.
Qed.

Lemma max_seq n : foldr max 0 (seq 1 n) = n.
Proof using Type.
  cut (forall a, foldr max 0 (seq (S a) n) = if (n =? 0)%nat then 0 else a + n); [intros H; rewrite H; by destruct n|].
  induction n as [|n IH]; intros a; [done|]. cbn [seq foldr]. rewrite IH. destruct n; cbn; lia.
Qed.
Lemma finish_slots b P limit offset : good b P -> slots (finish b limit offset) = seq 1 (length (st_args (finish b limit offset))).
Proof using Type.
  intros (Hi & Hs & _). unfold finish, slots. destruct (0 <? limit)%Z, (0 <? offset)%Z; cbn [st_where st_args st_limit st_offset option_list];
    rewrite Hs, Hi, ?length_app; cbn [length app]; rewrite ?app_nil_r, ?Nat.add_1_r, ?seq_S; cbn [Nat.add]; rewrite <- ?app_assoc; reflexivity.
Qed.
Lemma finish_binds b P limit offset : good b P -> bindOk (finish b limit offset) = true.
Proof using Type.
  intros Hg. unfold bindOk. rewrite (finish_slots b P) by done. rewrite max_seq, Nat.eqb_refl, andb_true_r. apply forallb_forall. intros i Hi.
  apply in_seq in Hi. apply Nat.ltb_lt. lia.
Qed.
Definition offsetBy (offset : Z) : nat := if (0 <? offset)%Z then Z.to_nat offset else 0.
Lemma finish_page b P limit offset l : good b P -> page (finish b limit offset) l = limited limit (drop (offsetBy offset) l).
Proof using Type.
  intros (Hi & _). unfold page, finish, limitOf, boundVal, offsetBy. destruct (Z.ltb_spec 0 limit) as [Hl|Hl], (Z.ltb_spec 0 offset) as [Ho|Ho]; cbn [st_args st_limit st_offset].
  - rewrite Hi. rewrite <- app_assoc. cbn [app]. rewrite bound_mid.
    replace (S (S (length (b_args b)))) with (S (length (b_args b ++ [AVal (Int limit)]))) by (rewrite length_app; cbn; lia).
    replace (b_args b ++ [AVal (Int limit); AVal (Int offset)]) with ((b_args b ++ [AVal (Int limit)]) ++ [AVal (Int offset)]) by (by rewrite <- app_assoc).
    by rewrite bound_mid.
  - by rewrite Hi, bound_mid.
  - rewrite Hi, bound_mid. unfold limited. replace (0 <? limit)%Z with false; [done|]. symmetry. by apply Z.ltb_ge.
  - unfold limited. replace (0 <? limit)%Z with false; [done|]. symmetry. by apply Z.ltb_ge.
Qed.

Lemma matching_ext (p q : Row -> bool) t : (forall x, p x = q x) -> matching p t = matching q t.
Proof using Type. intros H. apply map_eq. intros k. apply Quota.option_eq_iff. intros x. rewrite !matching_lookup. by rewrite H. Qed.
Lemma select_ext d T (p q : Row -> bool) keys : (forall x, p x = q x) -> select d T p keys = select d T q keys.
Proof using Type. intros H. unfold select. by rewrite (matching_ext p q). Qed.
Lemma finish_where b limit offset : st_where (finish b limit offset) = b_clauses b.
Proof using Type. unfold finish. by destruct (0 <? limit)%Z, (0 <? offset)%Z. Qed.
Lemma finish_args b limit offset : exists more, st_args (finish b limit offset) = b_args b ++ more.
Proof using Type.
  unfold finish. destruct (0 <? limit)%Z, (0 <? offset)%Z; cbn; rewrite <- ?app_assoc; eauto. exists []. by rewrite app_nil_r.
Qed.
Lemma query_good what T b P keys limit offset d : good b P ->
  query what T (finish b limit offset) keys d = (inr (limited limit (drop (offsetBy offset) (select d T P keys))), d).
Proof using Type.
  intros Hg. unfold query. rewrite (finish_binds b P), (finish_page b P), finish_where by done. do 4 f_equal. apply select_ext. intros x.
  destruct (finish_args b limit offset) as [more ->]. by apply Hg.
Qed.

(** The first style of numbering is the second. *)
Lemma push_builder acc cv : length acc.1 = length acc.2 ->
  length (push acc cv).1 = length (push acc cv).2 /\
  MkBuilder (pgJoinPlaceholders (push acc cv).1) (push acc cv).2 (length (push acc cv).2) =
  addEq (MkBuilder (pgJoinPlaceholders acc.1) acc.2 (length acc.2)) cv.1 cv.2.
Proof using Type.
  intros Hl. unfold push, addEq. destruct (String.eqb cv.2 ""); [done|]. cbn [fst snd b_clauses b_args b_idx]. rewrite !length_app. cbn [length]. split; [lia|].
  unfold pgJoinPlaceholders. rewrite imap_app. cbn [imap]. f_equal; [|lia]. do 2 f_equal. rewrite Nat.add_0_r. by rewrite Hl.
Qed.
Lemma built_finish fs limit offset :
  built fs limit offset = finish (foldl (fun b cv => addEq b cv.1 cv.2) (MkBuilder [] [] 0) fs) limit offset.
Proof using Type.
  assert (H : forall acc, length acc.1 = length acc.2 ->
    MkBuilder (pgJoinPlaceholders (foldl push acc fs).1) (foldl push acc fs).2 (length (foldl push acc fs).2) =
    foldl (fun b cv => addEq b cv.1 cv.2) (MkBuilder (pgJoinPlaceholders acc.1) acc.2 (length acc.2)) fs).
  { induction fs as [|cv fs IH]; intros acc Hl; [done|]. cbn [foldl]. destruct (push_builder acc cv Hl) as [Hl' E]. by rewrite IH, E. }
  specialize (H ([], []) eq_refl). change (pgJoinPlaceholders ([], [] : list arg).1) with (@nil cond) in H. cbn [snd length] in H. rewrite <- H.
  unfold built, pageArgs, finish. destruct (foldl push ([], []) fs) as [cs args]. cbn [fst snd b_args b_idx b_clauses].
  destruct (0 <? limit)%Z, (0 <? offset)%Z; cbn; rewrite ?length_app, ?Nat.add_1_r; reflexivity.
Qed.
Lemma good_filters fs b P : good b P -> good (foldl (fun b cv => addEq b cv.1 cv.2) b fs) (fun x => P x && all (map (fun cv => eqIf cv.1 cv.2) fs) x).
Proof using Type.
  revert b P. induction fs as [|cv fs IH]; intros b P Hg; cbn [foldl map].
  - destruct Hg as (? & ? & Hh). split_and!; [done..|]. intros more x. rewrite Hh. unfold all. by rewrite andb_true_r.
  - destruct (IH _ _ (good_eq b P cv.1 cv.2 Hg)) as (? & ? & Hh). split_and!; [done..|]. intros more x. rewrite Hh. unfold all. cbn [forallb]. by rewrite andb_assoc.
Qed.
Lemma query_built what T fs keys limit offset d :
  query what T (built fs limit offset) keys d =
  (inr (limited limit (drop (offsetBy offset) (select d T (all (map (fun cv => eqIf cv.1 cv.2) fs)) keys))), d).
Proof using Type.
  rewrite built_finish, (query_good _ _ _ (fun x => all [] x && all (map (fun cv => eqIf cv.1 cv.2) fs) x)) by apply good_filters, good_nil. done.
Qed.
End backend.

(** ** Sorting by relations that agree on the rows *)

Section sorting.
Context {A : Type} (R R' : relation A) `{!forall x y, Decision (R x y)} `{!forall x y, Decision (R' x y)} (S : A -> Prop).
Context (HR : forall x y, S x -> S y -> R x y <-> R' x y).

Lemma merge_ext l1 l2 : Forall S l1 -> Forall S l2 -> list_merge R l1 l2 = list_merge R' l1 l2 /\ Forall S (list_merge R l1 l2).
Proof using HR.
  intros H1. revert l2. induction H1 as [|x1 l1 Hx1 H1 IH1]; intros l2 H2; [by destruct l2|].
  induction H2 as [|x2 l2 Hx2 H2 IH2]; [cbn; by auto|]. cbn [list_merge]. destruct IH2 as [E2 F2]. destruct (IH1 (x2 :: l2)) as [E1 F1]; [by constructor|].
  destruct (decide (R x1 x2)) as [Hr|Hr], (decide (R' x1 x2)) as [Hr'|Hr']; try (exfalso; by apply HR in Hr || (apply HR in Hr'; auto)).
  - split; [by f_equal|by constructor].
  - split; [f_equal; exact E2|by constructor].
Qed.
Definition within (st : list (option (list A))) : Prop := Forall (fun o => match o with Some l => Forall S l | None => True end) st.
Lemma push_ext st l : within st -> Forall S l -> merge_list_to_stack R st l = merge_list_to_stack R' st l /\ within (merge_list_to_stack R st l).
Proof using HR.
  intros Hst. revert l. induction Hst as [|[l'|] st Hl' Hst IH]; intros l Hl; cbn.
  - split; [done|]. by repeat constructor.
  - destruct (merge_ext l' l Hl' Hl) as [<- F]. destruct (IH _ F) as [<- F']. split; [done|]. by constructor.
  - split; [done|]. by constructor.
Qed.
Lemma stack_ext st : within st -> merge_stack R st = merge_stack R' st /\ Forall S (merge_stack R st).
Proof using HR.
  induction 1 as [|[l|] st Hl Hst IH]; cbn; [done| |done]. destruct IH as [E F]. rewrite <- E. by apply merge_ext.
Qed.
Lemma merge_sort_ext l : Forall S l -> merge_sort R l = merge_sort R' l.
Proof using HR.
  unfold merge_sort. cut (forall st, within st -> Forall S l -> merge_sort_aux R st l = merge_sort_aux R' st l); [intros HH; apply HH; constructor|].
  induction l as [|x l IH]; intros st Hst Hl; cbn; [by apply stack_ext|]. apply Forall_cons in Hl as [Hx Hl].
  destruct (push_ext st [x] Hst) as [E F]; [by constructor|]. rewrite <- E. by apply IH.
Qed.
End sorting.

(** ** Agreement with the SQLite store *)

(** Same database after, same answer; errors are of the same kind. *)
Definition sameAnswer {A} (r1 r2 : goerr + A) : Prop :=
  match r1, r2 with
  | inr a, inr b => a = b
  | inl e, inl e' => forall k, k ∈ [ErrTraceExists; ErrDuplicateTarget] -> errors_Is e k = errors_Is e' k
  | _, _ => False
  end.
Definition agrees {A} (r1 r2 : (goerr + A) * db) : Prop := r1.2 = r2.2 /\ sameAnswer r1.1 r2.1.
Lemma agrees_refl {A} (r : (goerr + A) * db) : agrees r r.
Proof. split; [done|]. unfold sameAnswer. by destruct r.1. Qed.
Lemma agrees_eq {A} (r1 r2 : (goerr + A) * db) : r1 = r2 -> agrees r1 r2.
Proof. intros ->. apply agrees_refl. Qed.

Lemma insert_agrees what T cols r d : agrees (execInsert what T cols r d) (Store.execInsert what T cols r d).
Proof. unfold execInsert, Store.execInsert. destruct r; [|apply agrees_refl]. by destruct (insert _ _ _). Qed.
Lemma count_agrees what T p f d : agrees (execCount what T p f d) (Store.execCount what T p f d).
Proof. unfold execCount, Store.execCount. by destruct (update _ _ _ _) as [|[n d']]. Qed.
Lemma found_agrees what T p f d : agrees (execFound what T p f d) (Store.execFound what T p f d).
Proof.
  unfold execFound, Store.execFound, execCount, Store.execCount. destruct (update _ _ _ _) as [|[[|n] d']]; [done|apply agrees_refl|apply agrees_refl].
Qed.
Lemma if_agrees what T p f d : agrees (execIf what T p f d) (Store.execIf what T p f d).
Proof. unfold execIf, Store.execIf, execCount, Store.execCount. by destruct (update _ _ _ _) as [|[n d']]. Qed.
Lemma update_agrees what T cols r d : agrees (execUpdate what T cols r d) (Store.execUpdate what T cols r d).
Proof. unfold execUpdate, Store.execUpdate. destruct r; [apply found_agrees|apply agrees_refl]. Qed.
Lemma delete_agrees what T p d : agrees (execDelete what T p d) (Store.execDelete what T p d).
Proof. unfold execDelete, Store.execDelete. by destruct (delete _ _ _) as [|[n d']]. Qed.
Lemma void_agrees {A} (o o' : op A) d : agrees (o d) (o' d) -> agrees (void o d) (void o' d).
Proof. unfold void, agrees, sameAnswer. destruct (o d) as [[|] ?], (o' d) as [[|] ?]; cbn; naive_solver. Qed.
Lemma ans_agrees {A} (f : A -> answer) (o o' : op A) d : agrees (o d) (o' d) -> agrees (ans f o d) (ans f o' d).
Proof. unfold ans, agrees, sameAnswer. destruct (o d) as [[|] ?], (o' d) as [[|] ?]; cbn; naive_solver. Qed.
Lemma mapRow_agrees f o o' d : agrees (o d) (o' d) -> agrees (mapRow f o d) (mapRow f o' d).
Proof. unfold mapRow, agrees, sameAnswer. destruct (o d) as [[|] ?], (o' d) as [[|] ?]; cbn; naive_solver. Qed.
Lemma mapRows_agrees f o o' d : agrees (o d) (o' d) -> agrees (mapRows f o d) (mapRows f o' d).
Proof. unfold mapRows, agrees, sameAnswer. destruct (o d) as [[|] ?], (o' d) as [[|] ?]; cbn; naive_solver. Qed.

Create HintDb pg.
#[export] Hint Resolve agrees_refl insert_agrees count_agrees found_agrees if_agrees update_agrees delete_agrees void_agrees ans_agrees mapRow_agrees mapRows_agrees : pg.

(** What an upsert of a target can fail with. *)
Definition targetErrors : list sqlerr :=
  [UniqueFailed "targets" ["hostname"; "port"]; ForeignKeyFailed; Aborted "NOT NULL constraint failed"; Aborted "datatype mismatch"].
Lemma check_targets d k x e : check d "targets" k x = Some e -> e ∈ targetErrors.
Proof.
  unfold check. destruct (existsb _ _); [intros [= <-]; set_solver|]. change (sc_domain (schemaOf "targets")) with (@nil (string * list string)). cbn [existsb].
  change (sc_unique (schemaOf "targets")) with [["hostname"; "port"]]. cbn [List.find]. destruct (clash _ _ _ _); [intros [= <-]; set_solver|].
  destruct (existsb _ _); [intros [= <-]; set_solver|done].
Qed.
Lemma firstError_some {A} (f : A -> option sqlerr) l e : firstError f l = Some e -> exists a, f a = Some e.
Proof. induction l as [|a l IH]; [done|]. cbn. destruct (f a) eqn:E; [intros [= <-]; eauto|done]. Qed.
Lemma upsert_targets d x cs e : upsert d "targets" x cs = inl e -> e ∈ targetErrors.
Proof.
  unfold upsert. destruct (col x _) as [| |k] eqn:Ek; [intros [= <-]; set_solver..|]. destruct (tbl d "targets" !! k) as [old|] eqn:Eo.
  - destruct (update _ _ _ _) as [e'|] eqn:Eu; [|done]. intros [= <-]. unfold update in Eu. destruct (firstError _ _) as [e2|] eqn:Ef; [|done]. injection Eu as <-.
    apply firstError_some in Ef as ([k' y] & Ef). unfold refuses in Ef. cbn [fst snd] in Ef.
    change (wormChanged "targets" y (assign y x cs)) with false in Ef. cbv iota in Ef. by eapply check_targets.
  - unfold insert. rewrite Ek, Eo. case_bool_decide as H; [by destruct H|]. destruct (check _ _ _ _) as [e'|] eqn:Ec; [|done]. intros [= <-]. by eapply check_targets.
Qed.
Lemma upsertTarget_agrees now t d : agrees (UpsertTarget now t d) (Store.UpsertTarget now t d).
Proof.
  unfold UpsertTarget, Store.UpsertTarget. destruct (upsert _ _ _ _) as [e|d'] eqn:E; [|apply agrees_refl]. apply upsert_targets in E.
  unfold targetErrors in E. split; [done|]. cbn [fst]. intros k _. set_unfold in E. destruct_or! E; subst; by vm_compute.
Qed.
Lemma upsertGroup_agrees now g d : agrees (UpsertInventoryGroup now g d) (Store.UpsertInventoryGroup now g d).
Proof. unfold UpsertInventoryGroup, Store.UpsertInventoryGroup. by destruct (upsert _ _ _ _). Qed.
Lemma createTrace_agrees t d : agrees (CreateTrace t d) (Store.CreateTrace t d).
Proof.
  unfold CreateTrace, Store.CreateTrace. destruct t; [|apply agrees_refl]. destruct (insert _ _ _) as [e|]; [|apply agrees_refl]. by destruct e.
Qed.
Lemma deleteOwned_agrees id o d : agrees (DeleteLockByIDAndOwner id o d) (Store.DeleteLockByIDAndOwner id o d).
Proof.
  unfold DeleteLockByIDAndOwner, Store.DeleteLockByIDAndOwner, execDelete, Store.execDelete. by destruct (delete _ _ _) as [|[n d']].
Qed.
#[export] Hint Resolve upsertTarget_agrees upsertGroup_agrees createTrace_agrees deleteOwned_agrees : pg.

Lemma sqlselect_ext d T (p q : Row -> bool) keys : (forall x, p x = q x) -> Sql.select d T p keys = Sql.select d T q keys.
Proof. intros H. unfold Sql.select. by rewrite (matching_ext p q). Qed.

Section agreement.
Context (collate : string -> string -> bool) (contains : string -> string * string -> bool) (json_extract : string -> string -> value).
(** A database with the "C" collation, and jsonb containment of one string label
    as equality of the label. *)
Context (Hcollate : forall a b, collate a b = String.leb a b).
Context (Hlabel : forall labels kv, contains labels kv = eqv (json_extract labels kv.1) (Text kv.2)).

Lemma lev_same v w : v <> Null -> w <> Null -> lev collate v w = Sql.lev v w.
Proof using Hcollate. destruct v, w; cbn; done || (intros; apply Hcollate). Qed.
Lemma before_same keys x y : (forall c, c ∈ map fst keys -> col x c <> Null /\ col y c <> Null) -> before collate keys x y = Sql.before keys x y.
Proof using Hcollate.
  induction keys as [|[c desc] keys IH]; intros H; [done|]. cbn [before Sql.before]. destruct (H c) as [Hx Hy]; [left|]. rewrite IH by (intros; apply H; by right).
  by rewrite !lev_same.
Qed.
Lemma select_same d T p keys : (forall c k x, c ∈ map fst keys -> tbl d T !! k = Some x -> p x = true -> col x c <> Null) ->
  select collate d T p keys = Sql.select d T p keys.
Proof using Hcollate.
  intros H. unfold select, Sql.select. apply (merge_sort_ext _ _ (fun x => forall c, c ∈ map fst keys -> col x c <> Null)).
  - intros x y Hx Hy. unfold ordered, Sql.ordered. rewrite before_same; [done|]. intros c Hc. split; auto.
  - apply Forall_forall. intros x Hx. apply Isolation.select_elem in Hx as (k & Hk & Hp). intros c Hc. by eapply H.
Qed.
Lemma notnull_keys d T p keys : dbOk d -> (forall c, c ∈ map fst keys -> c ∈ sc_pk (schemaOf T) :: sc_notnull (schemaOf T)) ->
  select collate d T p keys = Sql.select d T p keys.
Proof using Hcollate.
  intros Hok Hk. apply select_same. intros c k x Hc Hx _. apply Hk in Hc. apply elem_of_cons in Hc as [->|Hc].
  - by rewrite (ok_key d Hok T k x Hx).
  - pose proof (ok_notnull d Hok T k x c Hx Hc) as Hn. by apply bool_decide_eq_false in Hn.
Qed.
Lemma row_agrees T p d : agrees (queryRow collate T p d) (Store.queryRow T p d).
Proof using Hcollate. unfold queryRow, Store.queryRow. rewrite select_same; [apply agrees_refl|]. intros c k x Hc. by apply not_elem_of_nil in Hc. Qed.
Lemma all_agrees T keys d : dbOk d -> (forall c, c ∈ map fst keys -> c ∈ sc_pk (schemaOf T) :: sc_notnull (schemaOf T)) ->
  agrees (queryAll collate T keys d) (Store.query T (all []) keys 0 d).
Proof using Hcollate. intros Hok Hk. unfold queryAll, Store.query. rewrite notnull_keys by done. apply agrees_refl. Qed.

(** A listing, with the rows ordered alike. *)
Lemma built_agrees what T fs keys limit d : select collate d T (all (map (fun cv => eqIf cv.1 cv.2) fs)) keys = Sql.select d T (all (map (fun cv => eqIf cv.1 cv.2) fs)) keys ->
  agrees (query collate contains what T (built fs limit 0) keys d) (Store.query T (all (map (fun cv => eqIf cv.1 cv.2) fs)) keys limit d).
Proof using Type. intros E. rewrite query_built, E. apply agrees_refl. Qed.
Definition pageable (limit offset : Z) : Prop := (offset <= 0)%Z \/ (0 < limit)%Z.
Lemma paged_same {A} limit offset (l : list A) : pageable limit offset -> paged limit offset l = inr (limited limit (drop (offsetBy offset) l)).
Proof using Type.
  intros Hp. unfold paged, offsetBy. destruct (Z.ltb_spec 0 offset); [|done]. destruct (Z.ltb_spec 0 limit); [done|]. destruct Hp; lia.
Qed.
Lemma page_agrees what what' T fs keys limit offset d : pageable limit offset ->
  select collate d T (all (map (fun cv => eqIf cv.1 cv.2) fs)) keys = Sql.select d T (all (map (fun cv => eqIf cv.1 cv.2) fs)) keys ->
  agrees (query collate contains what T (built fs limit offset) keys d) (Store.queryPage what' T (all (map (fun cv => eqIf cv.1 cv.2) fs)) keys limit offset d).
Proof using Type. intros Hp E. rewrite query_built, E. unfold Store.queryPage. rewrite paged_same by done. apply agrees_refl. Qed.

Lemma assignments_agree f d : dbOk d -> agrees (ListAssignments collate contains f d) (Store.ListAssignments f d).
Proof using Hcollate Hlabel.
  intros Hok. unfold ListAssignments, Store.ListAssignments, Store.query.
  rewrite (query_good collate contains _ _ _ _ _ _ _ _ (good_eq _ _ _ _ _ _ (good_notIn _ _ _ _ _ _ (good_eq _ _ _ _ _ _ (good_eq _ _ _ _ _ _ (good_eq _ _ _ _ _ _ (good_nil _ _))))))).
  rewrite notnull_keys by (done || (cbn; set_solver)). apply agrees_eq. cbn [drop offsetBy Z.ltb Z.compare]. do 3 f_equal. apply sqlselect_ext. intros x.
  unfold all. cbn [forallb]. by rewrite !andb_assoc, andb_true_r.
Qed.
Lemma good_labels b P ls : good collate contains b P -> good collate contains (foldl (addContains "labels") b ls) (fun x => P x && hasLabels json_extract ls x).
Proof using Hlabel.
  revert b P. induction ls as [|kv ls IH]; intros b P Hg; cbn [foldl].
  - destruct Hg as (? & ? & Hh). split_and!; [done..|]. intros more x. rewrite Hh. cbn. by rewrite andb_true_r.
  - destruct (IH _ _ (good_contains _ _ b P "labels" kv Hg)) as (? & ? & Hh). split_and!; [done..|]. intros more x. rewrite Hh, Hlabel. unfold hasLabels. cbn [forallb].
    by rewrite andb_assoc.
Qed.
Lemma targets_agree f d : dbOk d -> pageable (gf_Limit f) (gf_Offset f) -> agrees (ListTargets collate contains f d) (Store.ListTargets json_extract f d).
Proof using Hcollate Hlabel.
  intros Hok Hp. apply mapRows_agrees. unfold Store.queryPage. rewrite paged_same by done.
  rewrite (query_good collate contains _ _ _ _ _ _ _ _ (good_eq _ _ _ _ _ _ (good_labels _ _ _ (good_eq _ _ _ _ _ _ (good_eq _ _ _ _ _ _ (good_nil _ _)))))).
  rewrite notnull_keys by (done || (cbn; set_solver)). apply agrees_eq. do 4 f_equal. apply sqlselect_ext. intros x.
  unfold all. cbn [forallb]. by rewrite !andb_assoc, andb_true_r.
Qed.
Lemma chain_agrees cursor limit tid d : dbOk d -> agrees (ListAuditChainPage collate contains cursor limit tid d) (Store.ListAuditChainPage cursor limit tid d).
Proof using Hcollate Hlabel.
  intros Hok. unfold ListAuditChainPage, Store.ListAuditChainPage, Store.query, query, page, eqIf.
  set (n := if (limit <=? 0)%Z then DefaultAuditChainPageSize else limit). assert (Hn : (0 < n)%Z) by (unfold n, DefaultAuditChainPageSize; destruct (Z.leb_spec limit 0); lia).
  destruct cursor as [[ts id]|], (String.eqb tid ""); cbn -[notnull_keys limited]; rewrite notnull_keys by (done || (cbn; set_solver)); apply agrees_eq; do 3 f_equal; apply sqlselect_ext;
    intros x; cbn; rewrite ?Hcollate; reflexivity.
Qed.
Lemma trendQuery_agrees f start d : dbOk d -> runTrendQuery collate contains f start d = Store.runTrendQuery f start d.
Proof using Hcollate Hlabel.
  intros Hok. unfold runTrendQuery, Store.runTrendQuery, query, page, eqIf.
  destruct (String.eqb (wf_Env f) ""), (String.eqb (wf_TenantID f) ""); cbn -[notnull_keys limited Z.add]; rewrite notnull_keys by (done || (cbn; set_solver));
    erewrite (sqlselect_ext d "runs"); try reflexivity; intros x; cbn; rewrite ?andb_true_r; reflexivity.
Qed.
Lemma trend_agrees now f d : dbOk d -> agrees (RunTrend collate contains now f d) (Store.RunTrend now f d).
Proof using Hcollate Hlabel. intros Hok. apply agrees_eq. unfold RunTrend, Store.RunTrend. by rewrite trendQuery_agrees. Qed.

(** Where the two answer alike: no OFFSET without LIMIT, and no NULL in the column
    a listing is ordered by. *)
Definition portable (c : call) (d : db) : Prop :=
  match c with
  | DoListRuns f => pageable (rf_Limit f) (rf_Offset f)
  | DoListAudits f => pageable (uf_Limit f) (uf_Offset f)
  | DoListTraces f => pageable (tf_Limit f) (tf_Offset f)
  | DoListTargets f => pageable (gf_Limit f) (gf_Offset f)
  | DoListSteps f => forall k x, tbl d "steps" !! k = Some x ->
      all [eqIf "run_id" (sf_RunID f); eqIf "batch_id" (sf_BatchID f); eqIf "host" (sf_Host f); eqIf "status" (sf_Status f); eqIf "tenant_id" (sf_TenantID f)] x = true ->
      col x "started_at" <> Null
  | DoListApprovals f => forall k x, tbl d "approvals" !! k = Some x ->
      all [eqIf "run_id" (af_RunID f); eqIf "level" (af_Level f); eqIf "status" (af_Status f); eqIf "tenant_id" (af_TenantID f)] x = true ->
      col x "timeout_at" <> Null
  | _ => True
  end.

Lemma traces_agree f d : dbOk d -> pageable (tf_Limit f) (tf_Offset f) -> agrees (ListTraces collate contains f d) (Store.ListTraces f d).
Proof using Hcollate Hlabel.
  intros Hok Hp. unfold ListTraces, Store.ListTraces.
  assert (E : query collate contains "state: list traces" "trace" (built [("run_id", tf_RunID f); ("event", tf_Event f); ("tenant_id", tf_TenantID f)] (tf_Limit f) (tf_Offset f))
     [asc "timestamp"; asc "id"] d = query collate contains "state: list traces" "trace" (built [("run_id", tf_RunID f); ("event", tf_Event f); ("tenant_id", tf_TenantID f)]
     (tf_Limit f) (if (0 <? tf_Limit f)%Z then tf_Offset f else 0)) [asc "timestamp"; asc "id"] d).
  { rewrite !query_built. destruct (Z.ltb_spec 0 (tf_Limit f)); [done|]. unfold offsetBy. destruct (Z.ltb_spec 0 (tf_Offset f)); [destruct Hp; lia|done]. }
  rewrite E. apply (page_agrees _ _ _ [("run_id", tf_RunID f); ("event", tf_Event f); ("tenant_id", tf_TenantID f)]).
  - destruct (Z.ltb_spec 0 (tf_Limit f)); [by right|by left].
  - apply notnull_keys; [done|cbn; set_solver].
Qed.

Lemma call_agrees c d : dbOk d -> portable c d -> agrees (exec collate contains c d) (Store.exec json_extract c d).
Proof using Hcollate Hlabel.
  intros Hok Hp. pose proof row_agrees as Hrow.
  destruct c; cbn [exec Store.exec]; try (apply ans_agrees);
    try solve [apply insert_agrees|apply update_agrees|apply if_agrees|apply found_agrees|apply count_agrees|apply delete_agrees|apply void_agrees, delete_agrees
              |apply createTrace_agrees|apply deleteOwned_agrees];
    try solve [apply Hrow|apply mapRow_agrees, Hrow|by apply assignments_agree|by apply targets_agree|by apply traces_agree|by apply chain_agrees|by apply trend_agrees];
    try solve [apply all_agrees; [done|cbn; set_solver]].
  - apply (page_agrees _ _ _ [("status", rf_Status f); ("workflow_name", rf_WorkflowName f); ("template_name", rf_TemplateName f); ("creator", rf_Creator f);
      ("incident_id", rf_IncidentID f); ("tenant_id", rf_TenantID f)]); [done|apply notnull_keys; [done|cbn; set_solver]].
  - apply (built_agrees _ _ [("run_id", bf_RunID f); ("status", bf_Status f); ("tenant_id", bf_TenantID f)]). apply notnull_keys; [done|cbn; set_solver].
  - apply (built_agrees _ _ [("run_id", sf_RunID f); ("batch_id", sf_BatchID f); ("host", sf_Host f); ("status", sf_Status f); ("tenant_id", sf_TenantID f)]).
    apply select_same. intros c k x Hc. apply list_elem_of_singleton in Hc as ->. apply Hp.
  - unfold UpdateTraceChecksum, Store.UpdateTraceChecksum. repeat (case_match; [apply agrees_refl|]). apply found_agrees.
  - destruct a; [apply found_agrees|apply agrees_refl].
  - destruct a; [apply if_agrees|apply agrees_refl].
  - apply (built_agrees _ _ [("run_id", af_RunID f); ("level", af_Level f); ("status", af_Status f); ("tenant_id", af_TenantID f)]).
    apply select_same. intros c k x Hc. apply list_elem_of_singleton in Hc as ->. apply Hp.
  - apply (page_agrees _ _ _ [("run_id", uf_RunID f); ("action", uf_Action f); ("actor", uf_Actor f); ("target", uf_Target f); ("tenant_id", uf_TenantID f)]);
      [done|apply notnull_keys; [done|cbn; set_solver]].
  - destruct a; [apply insert_agrees|apply agrees_refl].
  - unfold SetAssignmentResult, Store.SetAssignmentResult. case_match; [apply agrees_refl|]. apply void_agrees, count_agrees.
  - apply agrees_eq. unfold assignmentSummary, Store.assignmentSummary. by rewrite notnull_keys by (done || (cbn; set_solver)).
  - apply agrees_eq. unfold batchSummary, Store.batchSummary. by rewrite notnull_keys by (done || (cbn; set_solver)).
  - destruct g; [apply ans_agrees, upsertGroup_agrees|apply agrees_refl].
  - apply mapRows_agrees, all_agrees; [done|cbn; set_solver].
  - destruct t; [apply ans_agrees, upsertTarget_agrees|apply agrees_refl].
  - apply agrees_eq. unfold CountTargetsInGroup, Store.CountTargetsInGroup. by rewrite notnull_keys by (done || (cbn; set_solver)).
Qed.

(** A sequence of calls, with the answers. *)
Definition runCalls (ex : call -> op answer) (cs : list call) (d : db) : list (goerr + answer) * db :=
  foldl (fun acc c => let '(r, d') := ex c acc.2 in (acc.1 ++ [r], d')) ([], d) cs.
Fixpoint portableAll (cs : list call) (d : db) : Prop :=
  match cs with [] => True | c :: r => portable c d /\ portableAll r (Store.exec json_extract c d).2 end.

End agreement.

(** ** Examples *)

Definition sampleBatch (id run : string) : Row :=
  Isolation.rowOf [("id", Text id); ("run_id", Text run); ("batch_no", Int 1); ("status", Text "running"); ("total_hosts", Int 2); ("succeeded", Int 0); ("failed", Int 0);
    ("tenant_id", Text "acme")].
Definition sampleStep (id : string) (started : value) : Row :=
  Isolation.rowOf ([("id", Text id); ("run_id", Text "r1"); ("batch_id", Text "b1"); ("tenant_id", Text "acme"); ("duration_ms", Int 0); ("started_at", started)] ++
    map (fun c => (c, Text "")) ["host"; "step_name"; "action"; "status"; "stdout"; "stderr"]).
Definition withSteps : db :=
  put (put (put Isolation.oneRun "batches" "b1" (sampleBatch "b1" "r1")) "steps" "s1" (sampleStep "s1" (Int 5))) "steps" "s2" (sampleStep "s2" Null).
Definition noLabels : string -> string * string -> bool := fun _ _ => false.
Definition firstStep : StepFilter := MkStepFilter "r1" "" "" "" 1 "".
Definition idsOf (r : goerr + list Row) : list string := match r with inr l => map (fun x => text x "id") l | inl _ => [] end.


(** The step that has not started comes first on SQLite and last on PostgreSQL. *)
Example step_order_differs :
  idsOf (Store.ListSteps firstStep withSteps).1 = ["s2"] /\ idsOf (ListSteps String.leb noLabels firstStep withSteps).1 = ["s1"].
Proof. split; vm_compute; reflexivity. Qed.

(** An offset without a limit: SQLite refuses it, PostgreSQL applies it. *)
Example offset_differs :
  idsOf (Store.ListRuns (MkRunFilter "" "" "" "" "" 0 1 "") Isolation.twoRuns).1 = [] /\
  length (idsOf (ListRuns String.leb noLabels (MkRunFilter "" "" "" "" "" 0 1 "") Isolation.twoRuns).1) = 1%nat.
Proof. split; vm_compute; reflexivity. Qed.

(** ** The tenant of a legacy run

    The backfill of [runs.tenant_id] from an incident id of the form
    tenant:<id>|<incident>, in the two migration ladders. *)
Definition tagged (incident : string) : bool := String.prefix "tenant:" incident.
Definition afterTag (incident : string) : string := String.substring 7 (String.length incident - 7) incident.
Definition orDefault (t : string) : string := if String.eqb t "" then "default" else t.
(** SQLite compares LIKE without case. *)
Definition legacyTenant (incident : string) : string :=
  orDefault (if tagged (Quota.toLower incident)
             then match String.index 0 "|" (afterTag incident) with Some n => String.substring 0 n (afterTag incident) | None => afterTag incident end
             else "").
(** split_part(incident_id, '|', 1). *)
Definition legacyTenantPG (incident : string) : string :=
  orDefault (if tagged incident
             then match String.index 0 "|" incident with Some n => String.substring 0 n incident | None => afterTag incident end
             else "").
Example backfill_keeps_the_tag :
  legacyTenant "tenant:acme|INC-1" = "acme" /\ legacyTenantPG "tenant:acme|INC-1" = "tenant:acme" /\
  legacyTenant "tenant:acme" = legacyTenantPG "tenant:acme" /\ legacyTenant "INC-1" = legacyTenantPG "INC-1".
Proof. repeat split. Qed.

End PgStore.
