(* ===== verification/GoStd.v ===== *)
(** * GoStd: the parts of Go's library the calendar reads

    [strconv.Atoi], [strings.Split] and [strings.Fields], [sort.SearchInts],
    and UTC time: an instant is a number of nanoseconds since
    1970-01-01T00:00:00Z, the fields of a date follow from the proleptic
    Gregorian calendar. A [time.Duration] is a 64-bit number of nanoseconds;
    [Sub] saturates. *)

From Stdlib Require Import Lia Ascii String.
From stdpp Require Import base sets list strings sorting.
From S2P Require Import Prelude Condition.
Open Scope string_scope.
Open Scope list_scope.
Open Scope Z_scope.

Module GoStd.

(** ** Text *)

Definition digitOf (c : ascii) : option Z :=
  if Condition.between "0" "9" c then Some (Z.of_nat (nat_of_ascii c) - 48) else None.
Fixpoint digits (acc : Z) (s : string) : option Z :=
  match s with
  | EmptyString => Some acc
  | String c r => match digitOf c with Some d => digits (10 * acc + d) r | None => None end
  end.
(** [None]: a syntax or a range error. *)
Definition Atoi (s : string) : option Z :=
  let '(neg, r) := match s with
                   | String c r => if Ascii.eqb c "-" then (true, r) else if Ascii.eqb c "+" then (false, r) else (false, s)
                   | EmptyString => (false, s)
                   end in
  match r with
  | EmptyString => None
  | _ => match digits 0 r with
         | Some n => let v := if neg : bool then - n else n in if (- 2 ^ 63 <=? v) && (v <? 2 ^ 63) then Some v else None
         | None => None
         end
  end.

(** [s[:i]] and [s[i+1:]] for the first [c] at [i]. *)
Fixpoint cut (c : ascii) (s : string) : option (string * string) :=
  match s with
  | EmptyString => None
  | String x r => if Ascii.eqb x c then Some ("", r)
                  else match cut c r with Some (a, b) => Some (String x a, b) | None => None end
  end.
(** [strings.Split] on one character. *)
Fixpoint Split (c : ascii) (s : string) : list string :=
  match s with
  | EmptyString => [""]
  | String x r =>
      if Ascii.eqb x c then "" :: Split c r
      else match Split c r with p :: ps => String x p :: ps | [] => [String x ""] end
  end.

(** [strings.Fields]: maximal runs without white space. *)
Definition spaceAt (s : string) : option string := head (omap (fun p => Condition.stripPrefix p s) Condition.spaceRunes).
Definition flush (cur : string) (l : list string) : list string := if String.eqb cur "" then l else cur :: l.
Fixpoint fieldsLoop (fuel : nat) (cur s : string) : list string :=
  match fuel with
  | O => flush cur []
  | S n => match spaceAt s, s with
           | Some r, _ => flush cur (fieldsLoop n "" r)
           | None, EmptyString => flush cur []
           | None, String c r => fieldsLoop n (cur +:+ String c "") r
           end
  end.
Definition Fields (s : string) : list string := fieldsLoop (S (String.length s)) "" s.

(** ** Sorted integers *)

Definition sortInts : list Z -> list Z := merge_sort Z.le.
Definition sortStrings : list string -> list string := merge_sort String.le.

(** The loop of [sort.SearchInts]: [i] and [j] close in on the first index
    whose element is not below [x]. *)
Fixpoint searchLoop (fuel : nat) (xs : list Z) (x : Z) (i j : nat) : nat :=
  match fuel with
  | O => i
  | S n => if (i <? j)%nat
           then let h := Nat.div2 (i + j) in
                if (default 0 (xs !! h) <? x) then searchLoop n xs x (S h) j else searchLoop n xs x i h
           else i
  end.
Definition SearchInts (xs : list Z) (x : Z) : nat := searchLoop (length xs) xs x 0 (length xs).

(** ** Time *)

Definition second : Z := 1000000000.
Definition minute : Z := 60 * second.
Definition hour : Z := 60 * minute.
Definition day : Z := 24 * hour.
Definition zeroTime : Z := - 62135596800 * second.
Definition maxDuration : Z := 2 ^ 63 - 1.
Definition minDuration : Z := - 2 ^ 63.

Definition Sub (t u : Z) : Z := Z.max minDuration (Z.min maxDuration (t - u)).
(** The zero time is a whole number of minutes from the epoch. *)
Definition TruncateMinute (t : Z) : Z := t - t mod minute.

Definition Minute (t : Z) : Z := (t / minute) mod 60.
Definition Hour (t : Z) : Z := (t / hour) mod 24.
Definition dayNumber (t : Z) : Z := t / day.
(** Sunday is 0; 1970-01-01 was a Thursday. *)
Definition Weekday (t : Z) : Z := (dayNumber t + 4) mod 7.

(** Days since 0000-03-01, in eras of 400 years. *)
Definition eraDay (n : Z) : Z := (n + 719468) mod 146097.
Definition era (n : Z) : Z := (n + 719468) / 146097.
Definition yearOfEra (e : Z) : Z := (e - e / 1460 + e / 36524 - e / 146096) / 365.
Definition dayOfYear (e : Z) : Z := e - (365 * yearOfEra e + yearOfEra e / 4 - yearOfEra e / 100).
Definition monthIndex (doy : Z) : Z := (5 * doy + 2) / 153.
Definition MonthOf (n : Z) : Z := let m := monthIndex (dayOfYear (eraDay n)) in if m <? 10 then m + 3 else m - 9.
Definition DayOf (n : Z) : Z := let y := dayOfYear (eraDay n) in y - (153 * monthIndex y + 2) / 5 + 1.
Definition YearOf (n : Z) : Z := yearOfEra (eraDay n) + 400 * era n + (if MonthOf n <=? 2 then 1 else 0).
Definition Month (t : Z) : Z := MonthOf (dayNumber t).
Definition Day (t : Z) : Z := DayOf (dayNumber t).

(** The other direction: the day number of a date. *)
Definition dateNumber (y m d : Z) : Z :=
  let y := if m <=? 2 then y - 1 else y in
  let yoe := y mod 400 in
  let mp := if 2 <? m then m - 3 else m + 9 in
  let doy := (153 * mp + 2) / 5 + d - 1 in
  146097 * (y / 400) + 365 * yoe + yoe / 4 - yoe / 100 + doy - 719468.

Example dates_of_the_record :
  let day y m d := let n := dateNumber y m d in (YearOf n, MonthOf n, DayOf n, Weekday (n * day)) in
  dateNumber 1970 1 1 = 0 /\ day 2024 2 29 = (2024, 2, 29, 4) /\ day 2100 3 1 = (2100, 3, 1, 1) /\ day 1969 12 31 = (1969, 12, 31, 3).
Proof. by vm_compute. Qed.

(** ** Lemmas: numbers and text *)

Lemma between_digit (c : ascii) : Condition.between "0" "9" c = true -> 48 <= Z.of_nat (nat_of_ascii c) <= 57.
Proof. unfold Condition.between. intros H. apply andb_true_iff in H as [H1%Nat.leb_le H2%Nat.leb_le]. change (nat_of_ascii "0") with 48%nat in H1. change (nat_of_ascii "9") with 57%nat in H2. lia. Qed.

Lemma cut_append c s a b : cut c s = Some (a, b) -> s = a +:+ String c b.
Proof.
  revert a. induction s as [|x s IH]; intros a H; [done|]. cbn in H. destruct (Ascii.eqb_spec x c) as [->|]; [by simplify_eq|].
  destruct (cut c s) as [[a' b']|] eqn:E; [|done]. simplify_eq. by rewrite Condition.append_cons, <- (IH _ eq_refl).
Qed.

(** ** Lemmas: binary search *)

Section search.
Context (xs : list Z) (x : Z) (Hs : StronglySorted Z.le xs).

(** Everything before [i] is below [x], nothing from [j] on is. *)
Definition bracketed (i j : nat) : Prop :=
  (i <= j <= length xs)%nat /\ (forall k y, xs !! k = Some y -> (k < i)%nat -> y < x) /\ (forall k y, xs !! k = Some y -> (j <= k)%nat -> x <= y).

Lemma searchLoop_bracketed fuel i j :
  (j - i <= fuel)%nat -> bracketed i j -> bracketed (searchLoop fuel xs x i j) (searchLoop fuel xs x i j).
Proof using Hs.
  revert i j. induction fuel as [|n IH]; intros i j Hf (Hij & Hlo & Hhi); cbn [searchLoop].
  - assert (i = j) as <- by lia. done.
  - destruct (Nat.ltb_spec i j) as [Hlt|Hge]; [|assert (i = j) as <- by lia; done].
    assert ((i <= Nat.div2 (i + j) < j)%nat) as Hh by (rewrite Nat.div2_div; split; [apply Nat.div_le_lower_bound|apply Nat.Div0.div_lt_upper_bound]; lia).
    destruct (xs !! Nat.div2 (i + j)) as [z|] eqn:Hz; [|apply lookup_ge_None in Hz; lia]. simpl.
    assert (forall k k' y y', xs !! k = Some y -> xs !! k' = Some y' -> (k <= k')%nat -> y <= y') as Hmono.
    { intros k k' y y' Hy Hy' Hk. destruct (decide (k = k')) as [->|]; [simplify_eq; lia|].
      apply (StronglySorted_app_1_elem_of Z.le (take k' xs) (drop k' xs)).
      - by rewrite take_drop.
      - apply list_elem_of_lookup. exists k. rewrite lookup_take_lt by lia. done.
      - apply list_elem_of_lookup. exists O. rewrite lookup_drop. by rewrite Nat.add_0_r. }
    destruct (Z.ltb_spec z x) as [Hzx|Hzx]; apply IH; try lia.
    + split; [lia|]. split; [|done]. intros k y Hy Hk. assert (k <= Nat.div2 (i + j))%nat by lia. specialize (Hmono _ _ _ _ Hy Hz). lia.
    + split; [lia|]. split; [done|]. intros k y Hy Hk. specialize (Hmono _ _ _ _ Hz Hy). lia.
Qed.

Lemma SearchInts_spec : bracketed (SearchInts xs x) (SearchInts xs x).
Proof using Hs.
  apply searchLoop_bracketed; [lia|]. split; [lia|]. split; [lia|]. intros k y Hy%lookup_lt_Some Hk. lia.
Qed.
End search.

(** ** Lemmas: dates *)

Lemma eraDay_range n : 0 <= eraDay n < 146097.
Proof. apply Z.mod_pos_bound. lia. Qed.

Lemma dayOfYear_range e : 0 <= e < 146097 -> 0 <= yearOfEra e <= 399 /\ 0 <= dayOfYear e <= 365.
Proof.
  intros He. unfold dayOfYear, yearOfEra. Z.to_euclidean_division_equations. lia.
Qed.

Lemma date_range n : 1 <= MonthOf n <= 12 /\ 1 <= DayOf n <= 31 /\ (MonthOf n = 2 -> DayOf n <= 29).
Proof.
  unfold MonthOf, DayOf, monthIndex. destruct (dayOfYear_range (eraDay n) (eraDay_range n)) as [_ H].
  generalize dependent (dayOfYear (eraDay n)). intros y H. destruct (Z.ltb_spec ((5 * y + 2) / 153) 10); Z.to_euclidean_division_equations; lia.
Qed.

(** The date of a day number names that day. *)
Lemma date_roundtrip n : dateNumber (YearOf n) (MonthOf n) (DayOf n) = n.
Proof.
  destruct (dayOfYear_range (eraDay n) (eraDay_range n)) as [Hy Hd].
  assert (n + 719468 = 146097 * era n + eraDay n) as Hn by (unfold era, eraDay; apply Z.div_mod; lia).
  assert (eraDay n = dayOfYear (eraDay n) + (365 * yearOfEra (eraDay n) + yearOfEra (eraDay n) / 4 - yearOfEra (eraDay n) / 100)) as He
    by (unfold dayOfYear; lia).
  unfold dateNumber, YearOf, DayOf, MonthOf, monthIndex in *.
  generalize dependent (dayOfYear (eraDay n)). generalize dependent (yearOfEra (eraDay n)). generalize dependent (eraDay n). generalize dependent (era n).
  intros a e Hn y Hy d Hd He. set (m := (5 * d + 2) / 153).
  assert (0 <= m <= 11) as Hm by (subst m; Z.to_euclidean_division_equations; lia).
  assert (forall k, k = y + 400 * a -> k mod 400 = y /\ k / 400 = a) as Hk by (intros k ->; Z.to_euclidean_division_equations; lia).
  destruct (Z.ltb_spec m 10).
  - destruct (Z.leb_spec (m + 3) 2); [lia|]. destruct (Z.ltb_spec 2 (m + 3)); [|lia].
    destruct (Hk (y + 400 * a + 0)) as [-> ->]; [lia|]. replace (m + 3 - 3) with m by lia. lia.
  - destruct (Z.leb_spec (m - 9) 2); [|lia]. destruct (Z.ltb_spec 2 (m - 9)); [lia|].
    destruct (Hk (y + 400 * a + 1 - 1)) as [-> ->]; [lia|]. replace (m - 9 + 9) with m by lia. lia.
Qed.
End GoStd.
