(* ===== verification/Cron.v ===== *)
(** * Cron: recurring windows of the change calendar

    src/internal/calendar/recur.go: the five-field cron parser, the search for
    the next occurrence and the expansion of a recurring window. A field's loop
    [for v := lo; v <= hi; v += step] is bounded only by the text, and its
    counter wraps; [fuel] is the number of iterations granted, and [None] a
    loop that has not ended by then. A field with values in range ends within
    60 iterations, the widest range there is. The search of [NextOccurrence]
    has a deadline of five years of 365 days, 2,628,000 minutes, which is its
    fuel.

    The theorems: a parsed field holds exactly the values its text denotes;
    the next occurrence is the first minute after the given instant on which
    the schedule fires, and the search fails exactly if there is none before
    the deadline; an expansion lists the occurrences of a range. *)

From Stdlib Require Import Lia Ascii String.
From stdpp Require Import base sets list strings sorting pretty.
From S2P Require Import Prelude Condition GoStd.
Import GoStd.
Open Scope string_scope.
Open Scope list_scope.
Open Scope Z_scope.

Module Cron.

(** calendar.go: [Window]. *)
Record Window := MkWindow {
  w_ID : string; w_Name : string; w_StartTime : Z; w_EndTime : Z; w_TargetLabels : list string; w_IsFrozen : bool;
  w_RepeatRule : string; w_CronExpr : string; w_CreatedAt : Z; w_UpdatedAt : Z }.

Record CronSchedule := MkSchedule {
  cs_minute : list Z; cs_hour : list Z; cs_dom : list Z; cs_month : list Z; cs_dow : list Z;
  cs_domRestricted : bool; cs_dowRestricted : bool; cs_original : string }.
Definition String_ (c : CronSchedule) : string := cs_original c.

(** ** Parsing *)

Fixpoint countUp (fuel : nat) (v hi step : Z) : option (list Z) :=
  if v <=? hi then match fuel with O => None | S n => cons v <$> countUp n (wrap64 (v + step)) hi step end else Some [].

Definition parseStep (part : string) : goerr + string * Z :=
  match cut "/" part with
  | None => inr (part, 1)
  | Some (rangePart, t) =>
      match Atoi t with
      | None => inl (EText "invalid step")
      | Some s => if s <=? 0 then inl (EText "step must be > 0") else inr (rangePart, s)
      end
  end.
Definition parseRange (rangePart : string) (min max : Z) : goerr + Z * Z :=
  if String.eqb rangePart "*" then inr (min, max)
  else match cut "-" rangePart with
       | Some (x, y) =>
           match Atoi x with
           | None => inl (EText "invalid range start")
           | Some a => match Atoi y with
                       | None => inl (EText "invalid range end")
                       | Some b => if b <? a then inl (EText "range start > end") else inr (a, b)
                       end
           end
       | None => match Atoi rangePart with None => inl (EText "invalid value") | Some n => inr (n, n) end
       end.
Definition parseFieldPart (fuel : nat) (part : string) (min max : Z) : option (goerr + list Z) :=
  match parseStep part with
  | inl e => Some (inl e)
  | inr (rangePart, step) =>
      match parseRange rangePart min max with
      | inl e => Some (inl e)
      | inr (lo, hi) => match countUp fuel lo hi step with Some out => Some (inr out) | None => None end
      end
  end.

(** The inner loop: a value out of range is an error, a repeated one is skipped. *)
Fixpoint addValues (vals : list Z) (min max : Z) (result : list Z) : goerr + list Z :=
  match vals with
  | [] => inr result
  | v :: vs => if (v <? min) || (max <? v) then inl (EText "value out of range")
               else addValues vs min max (if bool_decide (v ∈ result) then result else result ++ [v])
  end.
Fixpoint parseParts (fuel : nat) (parts : list string) (min max : Z) (result : list Z) : option (goerr + list Z) :=
  match parts with
  | [] => Some (inr result)
  | p :: ps =>
      match parseFieldPart fuel p min max with
      | None => None
      | Some (inl e) => Some (inl e)
      | Some (inr vals) => match addValues vals min max result with
                           | inl e => Some (inl e)
                           | inr result => parseParts fuel ps min max result
                           end
      end
  end.
Definition parseField (fuel : nat) (field : string) (min max : Z) : option (goerr + list Z) :=
  if String.eqb field "" then Some (inl (EText "empty field"))
  else match parseParts fuel (Split "," field) min max [] with
       | Some (inr []) => Some (inl (EText "field produced no values"))
       | Some (inr result) => Some (inr (sortInts result))
       | x => x
       end.

(** 7 is Sunday too. *)
Definition sunday (d : Z) : Z := if d =? 7 then 0 else d.
Fixpoint dedupe (l seen : list Z) : list Z :=
  match l with
  | [] => []
  | d :: l => if bool_decide (sunday d ∈ seen) then dedupe l seen else sunday d :: dedupe l (sunday d :: seen)
  end.
Definition normaliseDow (dow : list Z) : list Z := sortInts (dedupe dow []).

Notation "'try!' x <- m ; k" := (match m with None => None | Some (inl e) => Some (inl e) | Some (inr x) => k end)
  (at level 10, x name, m at level 100, k at level 200, only parsing).

Definition inField (name : string) (r : option (goerr + list Z)) : option (goerr + list Z) :=
  match r with Some (inl e) => Some (inl (EWrap name e)) | _ => r end.
Definition ParseCron (fuel : nat) (expr : string) : option (goerr + CronSchedule) :=
  match Fields expr with
  | [f0; f1; f2; f3; f4] =>
      try! minute <- inField "minute field" (parseField fuel f0 0 59);
      try! hour <- inField "hour field" (parseField fuel f1 0 23);
      try! dom <- inField "day-of-month field" (parseField fuel f2 1 31);
      try! month <- inField "month field" (parseField fuel f3 1 12);
      try! dow <- inField "day-of-week field" (parseField fuel f4 0 7);
      Some (inr (MkSchedule minute hour dom month (normaliseDow dow) (negb (String.eqb f2 "*")) (negb (String.eqb f4 "*")) expr))
  | _ => Some (inl (EText "calendar: cron: expected 5 fields"))
  end.

(** ** Occurrences *)

Definition contains (xs : list Z) (v : Z) : bool :=
  let idx := SearchInts xs v in (idx <? length xs)%nat && (default 0 (xs !! idx) =? v).

Definition matches (c : CronSchedule) (t : Z) : bool :=
  if negb (contains (cs_minute c) (Minute t)) then false
  else if negb (contains (cs_hour c) (Hour t)) then false
  else if negb (contains (cs_month c) (Month t)) then false
  else let domMatch := contains (cs_dom c) (Day t) in
       let dowMatch := contains (cs_dow c) (Weekday t) in
       if cs_domRestricted c && cs_dowRestricted c then (if negb domMatch && negb dowMatch then false else true)
       else if cs_domRestricted c then (if negb domMatch then false else true)
       else if cs_dowRestricted c then (if negb dowMatch then false else true)
       else true.

Definition fiveYears : Z := 5 * 365 * 24 * hour.
Definition searchFuel : nat := Z.to_nat (5 * 365 * 24 * 60).

Fixpoint search (fuel : nat) (c : CronSchedule) (t deadline : Z) : option Z :=
  match fuel with
  | O => None
  | S n => if t <? deadline then if matches c t then Some t else search n c (t + minute) deadline else None
  end.
Definition NextOccurrence (schedule : option CronSchedule) (after : Z) : goerr + Z :=
  match schedule with
  | None => inl (EText "calendar: next occurrence: nil schedule")
  | Some c => match search searchFuel c (TruncateMinute (after + minute)) (after + fiveYears) with
              | Some t => inr t
              | None => inl (EText "calendar: next occurrence: no match within 5 years")
              end
  end.

(** ** Expansion *)

Definition instance (base : Window) (i : Z) (start dur : Z) : Window :=
  MkWindow (w_ID base +:+ "#" +:+ pretty i) (w_Name base) start (start + dur) (w_TargetLabels base) (w_IsFrozen base)
    (w_RepeatRule base) (w_CronExpr base) (w_CreatedAt base) (w_UpdatedAt base).

(** The loop for [i], with [left] iterations to go. *)
Fixpoint expandLoop (left : nat) (base : Window) (c : CronSchedule) (i cursor from to dur : Z) : list Window :=
  match left with
  | O => []
  | S n =>
      match NextOccurrence (Some c) cursor with
      | inl _ => []
      | inr next =>
          if negb (next <? to) then []
          else (if negb (next + dur <? from) && (next <? to) then [instance base i next dur] else [])
                 ++ expandLoop n base c (i + 1) next from to dur
      end
  end.

Definition slot (w : Window) : Z := let dur := Sub (w_EndTime w) (w_StartTime w) in if dur <=? 0 then hour else dur.
Definition maxInstances : nat := 1000.
Definition ExpandWindow (fuel : nat) (base : option Window) (from to : Z) : option (goerr + list Window) :=
  match base with
  | None => Some (inl (EText "calendar: expand window: nil base"))
  | Some base =>
      if negb (from <? to) then Some (inl (EText "calendar: expand window: from must be before to"))
      else if String.eqb (w_CronExpr base) "" then
        Some (inr (if (w_EndTime base <? from) || (to <? w_StartTime base) then [] else [base]))
      else match ParseCron fuel (w_CronExpr base) with
           | None => None
           | Some (inl e) => Some (inl (EWrap "calendar: expand window" e))
           | Some (inr c) => Some (inr (expandLoop maxInstances base c 1 (TruncateMinute (from - slot base)) from to (slot base)))
           end
  end.

(** ** Examples *)

Definition at_ (y m d h mi : Z) : Z := dateNumber y m d * day + h * hour + mi * minute.

Example parses_a_working_week :
  ParseCron 60 " */20  9-17  *  1,6-7  1-5 " =
  Some (inr (MkSchedule [0; 20; 40] [9; 10; 11; 12; 13; 14; 15; 16; 17] (map Z.of_nat (seq 1 31)) [1; 6; 7] [1; 2; 3; 4; 5] false true
    " */20  9-17  *  1,6-7  1-5 ")).
Proof. by vm_compute. Qed.

Definition nextOf (expr : string) (after : Z) : option Z :=
  match ParseCron 60 expr with Some (inr c) => match NextOccurrence (Some c) after with inr t => Some t | inl _ => None end | _ => None end.

Example next_of_a_working_week : nextOf "30 2 * * 1" (at_ 2026 3 15 23 50) = Some (at_ 2026 3 16 2 30).
Proof. by vm_compute. Qed.

(** ** What a schedule says *)

Definition denotes (part : string) (min max v : Z) : Prop :=
  exists rangePart step lo hi, parseStep part = inr (rangePart, step) /\ parseRange rangePart min max = inr (lo, hi)
    /\ lo <= v <= hi /\ (v - lo) mod step = 0.
Definition denotesField (field : string) (min max v : Z) : Prop := exists p, p ∈ Split "," field /\ denotes p min max v.

(** The instant [t] as five fields describe it. Two restricted day fields are
    alternatives; a field of a single star restricts nothing. *)
Definition dayWritten (f2 f4 : string) (t : Z) : Prop :=
  let dom := denotesField f2 1 31 (Day t) in
  let dow := exists d, sunday d = Weekday t /\ denotesField f4 0 7 d in
  if String.eqb f2 "*" then (if String.eqb f4 "*" then True else dow)
  else if String.eqb f4 "*" then dom else dom \/ dow.
Definition written (expr : string) (t : Z) : Prop :=
  match Fields expr with
  | [f0; f1; f2; f3; f4] =>
      denotesField f0 0 59 (Minute t) /\ denotesField f1 0 23 (Hour t) /\ denotesField f3 1 12 (Month t) /\ dayWritten f2 f4 t
  | _ => False
  end.

(** ** Fields hold what they denote *)

Lemma countUp_bounded fuel lo hi step out M :
  countUp fuel lo hi step = Some out -> 0 < step < 2 ^ 63 -> - 2 ^ 63 <= lo < 2 ^ 63 -> 0 <= M < 2 ^ 63 ->
  Forall (fun v => 0 <= v <= M) out ->
  (forall v, v ∈ out <-> lo <= v <= hi /\ (v - lo) mod step = 0) /\ (out = [] \/ lo + Z.of_nat (length out) - 1 <= M).
Proof.
  intros Hc Hstep Hlo HM. revert lo out Hc Hlo. induction fuel as [|n IH]; intros lo out Hc Hlo Hout; cbn [countUp] in Hc.
  - destruct (Z.leb_spec lo hi); [done|]. simplify_eq. split; [|by left]. intros v. rewrite elem_of_nil. lia.
  - destruct (Z.leb_spec lo hi); [|simplify_eq; split; [|by left]; intros v; rewrite elem_of_nil; lia].
    destruct (countUp n (wrap64 (lo + step)) hi step) as [r|] eqn:E; [|done]. simplify_eq/=.
    apply Forall_cons in Hout as [Hv Hr].
    destruct (Z.lt_ge_cases (lo + step) (2 ^ 63)) as [Hsmall|Hbig].
    + rewrite wrap64_id in E by lia. destruct (IH _ _ E) as [Hin Hlen]; [lia|done|]. split.
      * intros v. rewrite elem_of_cons, Hin. replace (v - (lo + step)) with (v - lo + (-1) * step) by lia. rewrite Z.mod_add by lia.
        split; [intros [->|[? ?]]; [rewrite Z.sub_diag, Z.mod_0_l by lia; lia|lia]|].
        intros [Hb Hm]. destruct (decide (v = lo)); [by left|right]. split; [|done].
        apply Z.mod_divide in Hm as [k Hk]; [|lia]. clear -Hk Hb n0 Hstep. assert (0 < k) by nia. nia.
      * right. destruct Hlen as [->|?]; cbn [length]; lia.
    + exfalso. assert (wrap64 (lo + step) = lo + step - 2 ^ 64) as Hw.
      { unfold wrap64. replace (lo + step + 2 ^ 63) with (lo + step - 2 ^ 63 + 1 * 2 ^ 64) by lia. rewrite Z.mod_add, Z.mod_small; lia. }
      rewrite Hw in E. destruct n as [|n]; cbn [countUp] in E.
      * destruct (Z.leb_spec (lo + step - 2 ^ 64) hi); [done|lia].
      * destruct (Z.leb_spec (lo + step - 2 ^ 64) hi); [|lia]. destruct (countUp n _ hi step); simplify_eq/=.
        apply Forall_cons in Hr as [? _]. lia.
Qed.

Lemma Atoi_range s v : Atoi s = Some v -> - 2 ^ 63 <= v < 2 ^ 63.
Proof.
  unfold Atoi. destruct (match s with String c r => _ | EmptyString => _ end) as [neg r]. destruct r; [done|].
  destruct (digits 0 _); [|done]. cbv zeta. destruct (_ && _) eqn:E; [|done]. intros [= <-]. boolp. lia.
Qed.

Lemma parseStep_range part r s : parseStep part = inr (r, s) -> 0 < s < 2 ^ 63.
Proof.
  unfold parseStep. destruct (cut "/" part) as [[? t]|]; [|intros [= <- <-]; lia].
  destruct (Atoi t) as [v|] eqn:E; [|done]. apply Atoi_range in E. destruct (Z.leb_spec v 0); [done|]. intros [= <- <-]. lia.
Qed.
Lemma parseRange_range r min max lo hi :
  - 2 ^ 63 <= min < 2 ^ 63 -> parseRange r min max = inr (lo, hi) -> - 2 ^ 63 <= lo < 2 ^ 63.
Proof.
  unfold parseRange. intros Hmin. destruct (String.eqb r "*"); [intros [= <- <-]; lia|].
  destruct (cut "-" r) as [[x y]|].
  - destruct (Atoi x) as [a|] eqn:E; [|done]. destruct (Atoi y); [|done]. destruct (_ <? _); [done|]. intros [= <- <-]. by apply Atoi_range in E.
  - destruct (Atoi r) as [a|] eqn:E; [|done]. intros [= <- <-]. by apply Atoi_range in E.
Qed.

Lemma addValues_spec vals min max acc r :
  addValues vals min max acc = inr r ->
  Forall (fun v => min <= v <= max) vals /\ (forall v, v ∈ r <-> v ∈ acc \/ v ∈ vals) /\ (NoDup acc -> NoDup r).
Proof.
  revert acc. induction vals as [|v vals IH]; intros acc H; cbn [addValues] in H; [simplify_eq; set_solver|].
  destruct ((v <? min) || (max <? v)) eqn:E; [done|]. boolp. apply IH in H as (Hf & Hin & Hnd). repeat split.
  - constructor; [lia|done].
  - rewrite Hin. destruct (decide (v ∈ acc)); [rewrite bool_decide_eq_true_2 by done|rewrite bool_decide_eq_false_2 by done]; set_solver.
  - rewrite Hin. destruct (decide (v ∈ acc)); [rewrite bool_decide_eq_true_2 by done|rewrite bool_decide_eq_false_2 by done]; set_solver.
  - intros Ha. apply Hnd. destruct (decide (v ∈ acc)); [by rewrite bool_decide_eq_true_2|rewrite bool_decide_eq_false_2 by done].
    apply NoDup_app. split; [done|]. split; [set_solver|apply NoDup_singleton].
Qed.

Section fields.
Context (min max : Z) (Hmm : 0 <= min <= max /\ max < 2 ^ 63).

Lemma parseFieldPart_spec fuel part vals :
  parseFieldPart fuel part min max = Some (inr vals) -> Forall (fun v => min <= v <= max) vals ->
  (forall v, v ∈ vals <-> denotes part min max v) /\ Z.of_nat (length vals) <= max - min + 1.
Proof using Hmm.
  unfold parseFieldPart. destruct (parseStep part) as [|[r step]] eqn:Es; [done|].
  destruct (parseRange r min max) as [|[lo hi]] eqn:Er; [done|]. destruct (countUp fuel lo hi step) as [out|] eqn:E; [|done].
  intros [= ->] Hall. destruct (countUp_bounded _ _ _ _ _ max E) as [Hin Hlen].
  - by eapply parseStep_range.
  - eapply parseRange_range, Er. lia.
  - lia.
  - eapply Forall_impl; [done|]. intros v. cbn. lia.
  - split.
    + intros v. rewrite Hin. unfold denotes. split; [intros ?; by exists r, step, lo, hi|].
      intros (r' & s' & lo' & hi' & Hs' & Hr' & Hv). rewrite Es in Hs'. injection Hs' as <- <-. rewrite Er in Hr'. by injection Hr' as <- <-.
    + destruct vals as [|v vals]; [cbn; lia|]. destruct Hlen as [?|Hlen]; [done|].
      assert (v ∈ v :: vals) as Hv by left. apply Hin in Hv as [Hv _].
      assert (lo ∈ v :: vals) as Hlo by (apply Hin; rewrite Z.sub_diag, Zmod_0_l; lia).
      rewrite Forall_forall in Hall. specialize (Hall _ Hlo). lia.
Qed.

Lemma parseParts_spec fuel parts acc r :
  parseParts fuel parts min max acc = Some (inr r) ->
  (forall v, v ∈ r <-> v ∈ acc \/ exists p, p ∈ parts /\ denotes p min max v) /\ (NoDup acc -> NoDup r).
Proof using Hmm.
  revert acc. induction parts as [|p parts IH]; intros acc H; cbn [parseParts] in H; [simplify_eq; set_solver|].
  destruct (parseFieldPart fuel p min max) as [[|vals]|] eqn:E; [done| |done].
  destruct (addValues vals min max acc) as [|acc'] eqn:Ea; [done|].
  apply addValues_spec in Ea as (Hf & Hin & Hnd). apply parseFieldPart_spec in E as [Hv _]; [|done].
  apply IH in H as [Hr Hnd']. split; [|by auto]. intros v. rewrite Hr, Hin, Hv. set_solver.
Qed.

Lemma parseField_spec fuel field r :
  parseField fuel field min max = Some (inr r) ->
  StronglySorted Z.le r /\ NoDup r /\ r ≠ [] /\ (forall v, v ∈ r <-> denotesField field min max v).
Proof using Hmm.
  unfold parseField. destruct (String.eqb field ""); [done|].
  destruct (parseParts fuel (Split "," field) min max []) as [[|[|v l]]|] eqn:E; [done|done| |done].
  intros [= <-]. apply parseParts_spec in E as [Hin Hnd]. unfold sortInts.
  assert (merge_sort Z.le (v :: l) ≡ₚ v :: l) as Hp by apply merge_sort_Permutation.
  split; [apply StronglySorted_merge_sort; apply _|]. split; [rewrite Hp; apply Hnd, NoDup_nil_2|]. split.
  - intros Hn. rewrite Hn in Hp. apply Permutation_nil in Hp. done.
  - intros u. rewrite Hp, Hin. unfold denotesField. set_solver.
Qed.
End fields.

(** ** A schedule fires as written *)

Lemma contains_spec xs v : StronglySorted Z.le xs -> contains xs v = true <-> v ∈ xs.
Proof.
  intros Hs. unfold contains. destruct (SearchInts_spec xs v Hs) as (Hle & Hlo & Hhi). set (i := SearchInts xs v) in *. cbv zeta. split.
  - intros H. apply andb_true_iff in H as [Hi%Nat.ltb_lt He]. destruct (lookup_lt_is_Some_2 xs i Hi) as [y Hy].
    rewrite Hy in He. simpl in He. boolp. subst y. by eapply list_elem_of_lookup_2.
  - intros (k & Hk)%list_elem_of_lookup_1. pose proof (lookup_lt_Some _ _ _ Hk) as Hlen.
    destruct (Nat.lt_ge_cases k i) as [Hki|Hki]; [specialize (Hlo _ _ Hk Hki); lia|].
    destruct (lookup_lt_is_Some_2 xs i ltac:(lia)) as [y Hy]. pose proof (Hhi _ _ Hy (Nat.le_refl _)) as Hvy.
    apply andb_true_iff. split; [apply Nat.ltb_lt; lia|]. rewrite Hy. simpl. apply Z.eqb_eq.
    destruct (decide (k = i)) as [->|]; [by simplify_eq|]. apply Z.le_antisymm; [|done].
    apply (StronglySorted_app_1_elem_of Z.le (take k xs) (drop k xs)); [by rewrite take_drop| |].
    + apply list_elem_of_lookup. exists i. rewrite lookup_take_lt by lia. done.
    + apply list_elem_of_lookup. exists O. by rewrite lookup_drop, Nat.add_0_r.
Qed.

Lemma dedupe_spec l seen v : v ∈ dedupe l seen <-> (v ∉ seen) /\ exists d, d ∈ l /\ sunday d = v.
Proof.
  revert seen. induction l as [|d l IH]; intros seen; cbn [dedupe]; [set_solver|].
  destruct (decide (sunday d ∈ seen)) as [Hin|Hin]; [rewrite bool_decide_eq_true_2 by done|rewrite bool_decide_eq_false_2 by done].
  - rewrite IH. set_solver.
  - rewrite elem_of_cons, IH. split; [set_solver|]. intros (Hv & d' & [->|Hd']%elem_of_cons & <-); [by left|].
    destruct (decide (sunday d' = sunday d)); [by left|right]. set_solver.
Qed.
Lemma normaliseDow_spec l v : v ∈ normaliseDow l <-> exists d, d ∈ l /\ sunday d = v.
Proof. unfold normaliseDow, sortInts. rewrite merge_sort_Permutation, dedupe_spec. set_solver. Qed.

Lemma inField_ok name r l : inField name r = Some (inr l) <-> r = Some (inr l).
Proof. destruct r as [[|]|]; cbn; split; congruence. Qed.

Lemma ParseCron_inv fuel expr c :
  ParseCron fuel expr = Some (inr c) ->
  exists f0 f1 f2 f3 f4 dow, Fields expr = [f0; f1; f2; f3; f4]
    /\ parseField fuel f0 0 59 = Some (inr (cs_minute c)) /\ parseField fuel f1 0 23 = Some (inr (cs_hour c))
    /\ parseField fuel f2 1 31 = Some (inr (cs_dom c)) /\ parseField fuel f3 1 12 = Some (inr (cs_month c))
    /\ parseField fuel f4 0 7 = Some (inr dow) /\ cs_dow c = normaliseDow dow
    /\ cs_domRestricted c = negb (String.eqb f2 "*") /\ cs_dowRestricted c = negb (String.eqb f4 "*") /\ cs_original c = expr.
Proof.
  unfold ParseCron. destruct (Fields expr) as [|f0 [|f1 [|f2 [|f3 [|f4 [|]]]]]]; try done. intros H.
  repeat match type of H with
  | match inField ?n ?r with _ => _ end = _ =>
      let E := fresh "E" in destruct (inField n r) as [[|]|] eqn:E; [done| |done]; apply inField_ok in E
  end.
  simplify_eq/=. by eauto 20.
Qed.

Lemma matches_written fuel expr c t : ParseCron fuel expr = Some (inr c) -> matches c t = true <-> written expr t.
Proof.
  intros (f0 & f1 & f2 & f3 & f4 & dow & HF & H0 & H1 & H2 & H3 & H4 & Hdow & Hr & Hr' & _)%ParseCron_inv.
  unfold written. rewrite HF.
  apply parseField_spec in H0 as (S0 & _ & _ & M0); [|lia]. apply parseField_spec in H1 as (S1 & _ & _ & M1); [|lia].
  apply parseField_spec in H2 as (S2 & _ & _ & M2); [|lia]. apply parseField_spec in H3 as (S3 & _ & _ & M3); [|lia].
  apply parseField_spec in H4 as (_ & _ & _ & M4); [|lia].
  assert (StronglySorted Z.le (cs_dow c)) as S4 by (rewrite Hdow; apply StronglySorted_merge_sort; apply _).
  assert (contains (cs_dow c) (Weekday t) = true <-> exists d, sunday d = Weekday t /\ denotesField f4 0 7 d) as Hw.
  { rewrite contains_spec by done. rewrite Hdow, normaliseDow_spec. setoid_rewrite M4. naive_solver. }
  assert (contains (cs_dom c) (Day t) = true <-> denotesField f2 1 31 (Day t)) as Hd by (by rewrite contains_spec, M2).
  rewrite <- M0, <- M1, <- M3, <- !contains_spec by done. unfold dayWritten. cbv zeta.
  unfold matches. cbv zeta. rewrite Hr, Hr'.
  destruct (contains (cs_minute c) _), (contains (cs_hour c) _), (contains (cs_month c) _); cbn [negb];
    try (split; [done|by intros (? & ? & ? & ?)]).
  destruct (String.eqb f2 "*"), (String.eqb f4 "*"); cbn [negb andb]; rewrite <- ?Hw, <- ?Hd;
    destruct (contains (cs_dom c) (Day t)), (contains (cs_dow c) (Weekday t)); clear; cbn; intuition congruence.
Qed.

(** ** The search *)

Definition aligned (t : Z) : Prop := t mod minute = 0.

Lemma minute_pos : 0 < minute.
Proof. reflexivity. Qed.
Lemma truncate_aligned t : aligned (TruncateMinute t).
Proof. unfold aligned, TruncateMinute. rewrite Zminus_mod_idemp_r, Z.sub_diag. done. Qed.
Lemma truncate_bounds t : TruncateMinute t <= t < TruncateMinute t + minute.
Proof. unfold TruncateMinute. pose proof (Z.mod_pos_bound t minute minute_pos). lia. Qed.
Lemma aligned_next t u : aligned t -> aligned u -> t < u -> t + minute <= u.
Proof.
  unfold aligned. intros Ht Hu Hlt. pose proof minute_pos.
  apply Z.mod_divide in Ht as [a ->]; [|done]. apply Z.mod_divide in Hu as [b ->]; [|done].
  assert (a < b) by (apply (Z.mul_lt_mono_pos_r minute); lia). nia.
Qed.
Lemma aligned_step t : aligned t -> aligned (t + minute).
Proof. unfold aligned. intros H. rewrite Zplus_mod, Z_mod_same_full, H. done. Qed.

(** [t] is the first instant from [a] on at which [c] fires. *)
Definition firstFrom (c : CronSchedule) (a t : Z) : Prop :=
  a <= t /\ aligned t /\ matches c t = true /\ (forall u, a <= u < t -> aligned u -> matches c u = false).

Lemma search_spec fuel c a deadline :
  aligned a -> deadline - a <= Z.of_nat fuel * minute ->
  match search fuel c a deadline with
  | Some t => t < deadline /\ firstFrom c a t
  | None => forall u, a <= u < deadline -> aligned u -> matches c u = false
  end.
Proof.
  pose proof minute_pos as Hm. revert a. induction fuel as [|n IH]; intros a Ha Hf; cbn [search]; [lia|].
  destruct (Z.ltb_spec a deadline); [|lia]. destruct (matches c a) eqn:E.
  - split; [done|]. repeat split; [lia|done|done|lia].
  - specialize (IH (a + minute) (aligned_step _ Ha) ltac:(lia)). destruct (search n c (a + minute) deadline) as [t|].
    + destruct IH as (Hd & Hat & Hal & Ht & Hu). split; [done|]. repeat split; [lia|done|done|].
      intros u Hu' Hua. destruct (decide (u = a)) as [->|]; [done|]. apply Hu; [|done]. pose proof (aligned_next a u Ha Hua ltac:(lia)). lia.
    + intros u Hu Hua. destruct (decide (u = a)) as [->|]; [done|]. apply IH; [|done]. pose proof (aligned_next a u Ha Hua ltac:(lia)). lia.
Qed.

(** [t] is the first minute after [after] at which [P] holds. *)
Definition firstAfter (P : Z -> Prop) (after t : Z) : Prop :=
  after < t /\ aligned t /\ P t /\ (forall u, after < u < t -> aligned u -> ~ P u).

Lemma firstAfter_unique P after t u : firstAfter P after t -> firstAfter P after u -> t = u.
Proof.
  intros (Ht & Hta & HPt & Hft) (Hu & Hua & HPu & Hfu). destruct (Z.lt_trichotomy t u) as [?|[?|?]]; [|done|]; exfalso;
    [apply (Hfu t); [lia|done..]|apply (Hft u); [lia|done..]].
Qed.

Lemma next_from c after :
  match NextOccurrence (Some c) after with
  | inr t => t < after + fiveYears /\ firstAfter (fun u => matches c u = true) after t
  | inl _ => forall u, after < u < after + fiveYears -> aligned u -> matches c u = false
  end.
Proof.
  unfold NextOccurrence. pose proof (truncate_bounds (after + minute)) as Hb. pose proof (truncate_aligned (after + minute)) as Ha.
  assert (forall u, aligned u -> after < u -> TruncateMinute (after + minute) <= u) as Hfirst.
  { intros u Hu Hau. destruct (Z.le_gt_cases (TruncateMinute (after + minute)) u); [done|]. pose proof (aligned_next u _ Hu Ha ltac:(lia)). lia. }
  assert (fiveYears = Z.of_nat searchFuel * minute) as Hfuel by (unfold searchFuel; rewrite Z2Nat.id; done).
  generalize dependent searchFuel. intros fuel Hfuel. pose proof (search_spec fuel c _ (after + fiveYears) Ha ltac:(lia)) as Hs.
  destruct (search fuel c (TruncateMinute (after + minute)) (after + fiveYears)) as [t|].
  - destruct Hs as (Hd & Hat & Hal & Ht & Hu). split; [done|]. repeat split; [lia|done|done|].
    intros u Hu' Hua. rewrite Hu; [done| |done]. split; [apply Hfirst; [done|lia]|lia].
  - intros u Hu Hua. apply Hs; [|done]. split; [apply Hfirst; [done|lia]|lia].
Qed.

(** C23: the next occurrence of a schedule that parses is the first minute after
    the given instant that the five fields, as written, describe; the search
    returns for every schedule, and fails exactly if no minute of the next five
    years is described. *)
Theorem next_occurrence_exact fuel expr c after :
  ParseCron fuel expr = Some (inr c) ->
  (forall t, NextOccurrence (Some c) after = inr t <-> t < after + fiveYears /\ firstAfter (written expr) after t)
  /\ ((exists e, NextOccurrence (Some c) after = inl e) <-> forall t, after < t < after + fiveYears -> aligned t -> ~ written expr t).
Proof.
  intros Hp. pose proof (fun t => matches_written _ _ _ t Hp) as Hw. pose proof (next_from c after) as Hn.
  assert (forall t, firstAfter (fun u => matches c u = true) after t <-> firstAfter (written expr) after t) as Hf.
  { intros t. unfold firstAfter. rewrite Hw. by setoid_rewrite Hw. }
  destruct (NextOccurrence (Some c) after) as [e|t] eqn:E.
  - assert (forall t, after < t < after + fiveYears -> aligned t -> ~ written expr t) as Hnone.
    { intros u Hu Hua. rewrite <- Hw, Hn; done. }
    split; [|split; [done|by eauto]]. intros t. split; [done|]. intros (Hd & Ha & Hal & Ht & _). exfalso. by eapply Hnone, Ht.
  - destruct Hn as [Hd Ht]. apply Hf in Ht. split.
    + intros u. split; [by intros [= <-]|]. intros [_ Hu]. f_equal. by eapply firstAfter_unique.
    + split; [by intros [? ?]|]. intros Hnone. exfalso. destruct Ht as (Ha & Hal & Ht & _). by eapply Hnone, Ht.
Qed.

Lemma next_occurrence_exact_witness :
  (exists c, ParseCron 60 "30 2 * * 1" = Some (inr c) /\ firstAfter (written "30 2 * * 1") (at_ 2026 3 15 23 50) (at_ 2026 3 16 2 30)).
Proof.
  destruct (ParseCron 60 "30 2 * * 1") as [[e|c]|] eqn:E; [by vm_compute in E| |by vm_compute in E]. exists c. split; [done|].
  apply (proj1 (next_occurrence_exact 60 "30 2 * * 1" c (at_ 2026 3 15 23 50) E) (at_ 2026 3 16 2 30)).
  vm_compute in E. injection E as <-. by vm_compute.
Defined.

(** ** How long parsing takes *)

Lemma countUp_enough n m lo hi step out :
  countUp n lo hi step = Some out -> (length out <= m)%nat -> countUp m lo hi step = Some out.
Proof.
  revert m lo out. induction n as [|n IH]; intros m lo out H Hm; cbn [countUp] in H.
  - destruct (lo <=? hi) eqn:E; [done|]. simplify_eq. destruct m; cbn [countUp]; by rewrite E.
  - destruct (lo <=? hi) eqn:E; [|simplify_eq; destruct m; cbn [countUp]; by rewrite E].
    destruct (countUp n _ hi step) as [r|] eqn:Er; simplify_eq/=. destruct m as [|m]; [lia|]. cbn [countUp]. rewrite E.
    rewrite (IH m _ _ Er); [done|lia].
Qed.

Lemma parseParts_enough n m parts min max acc r :
  0 <= min <= max /\ max < 2 ^ 63 -> max - min + 1 <= Z.of_nat m ->
  parseParts n parts min max acc = Some (inr r) -> parseParts m parts min max acc = Some (inr r).
Proof.
  intros Hmm Hm. revert acc. induction parts as [|p parts IH]; intros acc H; [done|]. cbn [parseParts] in H |- *.
  destruct (parseFieldPart n p min max) as [[|vals]|] eqn:E; [done| |done].
  destruct (addValues vals min max acc) as [|acc'] eqn:Ea; [done|].
  assert (parseFieldPart m p min max = Some (inr vals)) as ->; [|rewrite Ea; by apply IH].
  apply addValues_spec in Ea as (Hf & _). destruct (parseFieldPart_spec _ _ Hmm _ _ _ E Hf) as [_ Hlen].
  unfold parseFieldPart in *. destruct (parseStep p) as [|[? step]]; [done|]. destruct (parseRange _ min max) as [|[lo hi]]; [done|].
  destruct (countUp n lo hi step) as [out|] eqn:Ec; [|done]. simplify_eq. rewrite (countUp_enough _ m _ _ _ _ Ec); [done|lia].
Qed.

Lemma parseField_enough n m field min max r :
  0 <= min <= max /\ max < 2 ^ 63 -> max - min + 1 <= Z.of_nat m ->
  parseField n field min max = Some (inr r) -> parseField m field min max = Some (inr r).
Proof.
  intros Hmm Hm. unfold parseField. destruct (String.eqb field ""); [done|].
  destruct (parseParts n _ min max []) as [[|l]|] eqn:E; [done| |done]. by rewrite (parseParts_enough _ m _ _ _ _ _ Hmm Hm E).
Qed.

(** Sixty iterations per range decide every expression that is accepted at all. *)
Lemma sixty_iterations n expr c : ParseCron n expr = Some (inr c) -> ParseCron 60 expr = Some (inr c).
Proof.
  intros (f0 & f1 & f2 & f3 & f4 & dow & HF & H0 & H1 & H2 & H3 & H4 & Hdow & Hr & Hr' & Ho)%ParseCron_inv.
  unfold ParseCron. rewrite HF. destruct c; simplify_eq/=.
  rewrite (parseField_enough n 60 f0 0 59 _ ltac:(lia) ltac:(lia) H0), (parseField_enough n 60 f1 0 23 _ ltac:(lia) ltac:(lia) H1),
    (parseField_enough n 60 f2 1 31 _ ltac:(lia) ltac:(lia) H2), (parseField_enough n 60 f3 1 12 _ ltac:(lia) ltac:(lia) H3),
    (parseField_enough n 60 f4 0 7 _ ltac:(lia) ltac:(lia) H4). done.
Qed.

(** The range check comes after the loop: a range up to the largest integer
    never ends, however many iterations are granted. *)
Lemma endless_range fuel : parseFieldPart fuel "0-9223372036854775807" 0 59 = None.
Proof.
  assert (forall v, countUp fuel (wrap64 v) (2 ^ 63 - 1) 1 = None) as H.
  { induction fuel as [|n IH]; intros v; cbn [countUp]; pose proof (wrap64_range v); destruct (Z.leb_spec (wrap64 v) (2 ^ 63 - 1)); [done|lia| |lia].
    by rewrite IH. }
  unfold parseFieldPart. change (parseStep _) with (inr (A := goerr) ("0-9223372036854775807", 1)). cbv beta iota.
  change (parseRange _ 0 59) with (inr (A := goerr) (0, 2 ^ 63 - 1)). cbv beta iota. change (countUp fuel 0) with (countUp fuel (wrap64 0)).
  by rewrite H.
Qed.

(** The thirtieth of February is never reached. *)
Lemma february_thirtieth after :
  exists c e, ParseCron 60 "0 0 30 2 *" = Some (inr c) /\ NextOccurrence (Some c) after = inl e.
Proof.
  pose proof (next_from (MkSchedule [0] [0] [30] [2] [0; 1; 2; 3; 4; 5; 6] true false "0 0 30 2 *") after) as Hn.
  exists (MkSchedule [0] [0] [30] [2] [0; 1; 2; 3; 4; 5; 6] true false "0 0 30 2 *").
  destruct (NextOccurrence _ after) as [e|t]; [exists e; split; [by vm_compute|done]|].
  exfalso. destruct Hn as (_ & _ & _ & Ht & _). destruct (date_range (dayNumber t)) as (_ & _ & Hd).
  unfold matches in Ht. cbn [cs_minute cs_hour cs_month cs_dom cs_dow cs_domRestricted cs_dowRestricted andb] in Ht.
  destruct (contains [2] (Month t)) eqn:Em; [|by repeat case_match].
  destruct (contains [30] (Day t)) eqn:Ed; [|by repeat case_match].
  apply contains_spec in Em; [|by repeat constructor]. apply contains_spec in Ed; [|by repeat constructor].
  apply list_elem_of_singleton in Em, Ed. unfold Month, Day in *. lia.
Qed.

(** ** Expansion *)

(** The minutes after [a] and before [b], for [a] on a minute. *)
Definition minutes (a b : Z) : list Z := (fun k => a + k * minute) <$> seqZ 1 ((b - a - 1) / minute).

Lemma elem_of_minutes a b t : aligned a -> t ∈ minutes a b <-> a < t < b /\ aligned t.
Proof.
  intros Ha. pose proof minute_pos. unfold minutes. rewrite list_elem_of_fmap. setoid_rewrite elem_of_seqZ. split.
  - intros (k & -> & Hk). assert (k * minute <= b - a - 1) by (transitivity ((b - a - 1) / minute * minute); [nia|]; rewrite Z.mul_comm; by apply Z.mul_div_le).
    split; [nia|]. unfold aligned in *. by rewrite Z.mod_add.
  - intros [Ht Hal]. unfold aligned in *. apply Z.mod_divide in Ha as [x ->]; [|done]. apply Z.mod_divide in Hal as [y ->]; [|done].
    exists (y - x). split; [lia|]. assert (x < y) by nia.
    assert (y - x <= (b - x * minute - 1) / minute) by (apply Z.div_le_lower_bound; nia). lia.
Qed.

Lemma minutes_split a t b : aligned a -> aligned t -> a < t < b -> minutes a b = minutes a t ++ t :: minutes t b.
Proof.
  intros Ha Ht Hlt. pose proof minute_pos as Hm. unfold aligned in *.
  apply Z.mod_divide in Ha as [x ->]; [|done]. apply Z.mod_divide in Ht as [y ->]; [|done]. set (j := y - x). assert (0 < j) by (subst j; nia).
  unfold minutes. replace (y * minute - x * minute - 1) with (minute - 1 + (j - 1) * minute) by (subst j; lia).
  rewrite Z.div_add, (Z.div_small (minute - 1)) by lia.
  replace (b - x * minute - 1) with (b - y * minute - 1 + j * minute) by (subst j; lia). rewrite Z.div_add by lia.
  assert (0 <= (b - y * minute - 1) / minute) by (apply Z.div_pos; lia). set (n := (b - y * minute - 1) / minute) in *.
  replace (n + j) with (0 + (j - 1) + (1 + n)) by lia. rewrite seqZ_app, fmap_app by lia. f_equal.
  rewrite seqZ_cons by lia. rewrite fmap_cons. f_equal; [subst j; lia|].
  replace (Z.succ (1 + (0 + (j - 1)))) with (j + 1) by lia. replace (Z.pred (1 + n)) with n by lia.
  rewrite <- (fmap_add_seqZ j 1 n), <- list_fmap_compose. apply list_fmap_ext. intros _ k _. cbn. subst j. lia.
Qed.

(** The instants between two others at which a schedule fires, in order. *)
Definition occurrences (c : CronSchedule) (a b : Z) : list Z := filter (fun t => matches c t = true) (minutes a b).

Lemma occurrences_next c a b :
  aligned a -> b <= a + fiveYears ->
  occurrences c a b = match NextOccurrence (Some c) a with
                      | inr t => if t <? b then t :: occurrences c t b else []
                      | inl _ => []
                      end.
Proof.
  intros Ha Hb. unfold occurrences. pose proof (next_from c a) as Hn.
  assert (forall d, (forall u, a < u < d -> aligned u -> matches c u = false) -> filter (fun t => matches c t = true) (minutes a d) = []) as Hnil.
  { intros d Hd. apply elem_of_nil_inv. intros u [Hc Hu]%list_elem_of_filter. apply elem_of_minutes in Hu as [Hu Hua]; [|done]. by rewrite (Hd u Hu Hua) in Hc. }
  destruct (NextOccurrence (Some c) a) as [e|t].
  - apply Hnil. intros u Hu. apply Hn. lia.
  - destruct Hn as (Hd & Hat & Hal & Ht & Hu).
    assert (forall u, a < u < t -> aligned u -> matches c u = false) as Hu' by (intros u ? ?; apply not_true_is_false; by apply Hu).
    destruct (Z.ltb_spec t b).
    + rewrite (minutes_split a t b), filter_app, (Hnil t Hu'), filter_cons_True by done. done.
    + apply Hnil. intros u Hub. apply Hu'. lia.
Qed.

Lemma expandLoop_spec left base c i cursor from to :
  aligned cursor -> to <= cursor + fiveYears -> from < cursor + minute + slot base ->
  expandLoop left base c i cursor from to (slot base) =
    imap (fun k t => instance base (i + Z.of_nat k) t (slot base)) (take left (occurrences c cursor to)).
Proof.
  revert i cursor. induction left as [|n IH]; intros i cursor Ha Hto Hfrom; [done|].
  rewrite occurrences_next by done. cbn [expandLoop]. pose proof (next_from c cursor) as Hn.
  destruct (NextOccurrence (Some c) cursor) as [e|t]; [done|]. destruct Hn as (_ & Hat & Hal & _).
  destruct (Z.ltb_spec t to); [|done]. cbn [negb andb]. pose proof (aligned_next _ _ Ha Hal Hat).
  destruct (Z.ltb_spec (t + slot base) from); [lia|]. cbn [negb andb]. cbn [take imap]. rewrite (IH (i + 1) t Hal) by lia.
  rewrite Z.add_0_r. cbn. f_equal. apply imap_ext. intros k u _. cbn. f_equal. lia.
Qed.

Lemma slot_pos w : 0 < slot w <= maxDuration.
Proof. unfold slot, Sub. cbv zeta. destruct (Z.leb_spec (Z.max minDuration (Z.min maxDuration (w_EndTime w - w_StartTime w))) 0); [done|]. unfold minDuration, maxDuration in *. lia. Qed.

(** Expanding a recurring window lists its occurrences up to the cap. *)
Lemma expand_exact fuel base c from to :
  ParseCron fuel (w_CronExpr base) = Some (inr c) -> w_CronExpr base ≠ "" -> from < to ->
  to <= TruncateMinute (from - slot base) + fiveYears ->
  ExpandWindow fuel (Some base) from to =
    Some (inr (imap (fun k t => instance base (1 + Z.of_nat k) t (slot base))
                 (take maxInstances (occurrences c (TruncateMinute (from - slot base)) to)))).
Proof.
  intros Hp Hne Hlt Hto. unfold ExpandWindow. destruct (Z.ltb_spec from to); [|lia]. cbn [negb].
  rewrite (proj2 (String.eqb_neq _ _) Hne), Hp. do 2 f_equal. apply expandLoop_spec; [apply truncate_aligned|done|].
  pose proof (truncate_bounds (from - slot base)). lia.
Qed.
End Cron.
