(* ===== verification/Calendar.v ===== *)
(** * Calendar: the change calendar and its gates

    src/internal/calendar/calendar.go and conflict.go, and the gate the engine
    puts in front of plans and executions, src/internal/wiring/calendar_gate.go.

    [CalendarStore] is the interface the service is written against, with its
    laws; [Store] is the implementation over [calendar_windows] in either
    dialect. A statement is its placeholders and its argument list: PostgreSQL
    reads [$n] by number, SQLite reads [?] in order. The label column holds the
    JSON of the list, which decodes to the list for labels in UTF-8; the
    columns of time compare as instants. [st_fault] is what the driver answers
    instead of running a statement. The wall clock is the argument [clock].

    The theorems: a recorded freeze refuses every change it covers until it is
    updated or deleted, and a calendar that cannot be read refuses too; the
    conflicts reported are those of the definition. *)

From Stdlib Require Import Lia Ascii String.
From stdpp Require Import base gmap sets list strings sorting.
From S2P Require Import Prelude Condition Dsl GoStd Cron.
Import GoStd Cron.
Open Scope string_scope.
Open Scope list_scope.
Open Scope Z_scope.

Module Calendar.

Inductive Dialect := DialectUnknown | DialectSQLite | DialectPostgres.
Definition dialect_String (d : Dialect) : string :=
  match d with DialectSQLite => "sqlite" | DialectPostgres => "postgres" | DialectUnknown => "unknown" end.

Record WindowFilter := MkFilter { f_Name : string; f_IsFrozen : option bool; f_OnlyActive : bool; f_Now : Z; f_Limit : Z }.
Definition noFilter : WindowFilter := MkFilter "" None false zeroTime 0.

(** What a filter selects; the zero [Now] stands for the clock. *)
Definition active (w : Window) (at_ : Z) : bool := (w_StartTime w <=? at_) && (at_ <? w_EndTime w).
Definition nowOf (f : WindowFilter) (clock : Z) : Z := if f_Now f =? zeroTime then clock else f_Now f.
Definition selects (f : WindowFilter) (clock : Z) (w : Window) : bool :=
  (String.eqb (f_Name f) "" || String.eqb (w_Name w) (f_Name f))
  && match f_IsFrozen f with None => true | Some b => Bool.eqb (w_IsFrozen w) b end
  && (negb (f_OnlyActive f) || active w (nowOf f clock)).

(** ** The store interface *)

Class CalendarStore (S : Type) := {
  CreateWindow_ : option Window -> S -> option goerr * S;
  GetWindow_ : string -> S -> goerr + option Window;
  ListWindows_ : WindowFilter -> Z -> S -> goerr + list Window;
  UpdateWindow_ : option Window -> S -> option goerr * S;
  DeleteWindow_ : string -> S -> option goerr * S }.

(** Its laws, over the windows a state holds. *)
Class CalendarLaws (S : Type) `{CalendarStore S} := {
  sound : S -> Prop;
  holds : S -> list Window;
  law_ids : forall s, sound s -> NoDup (map w_ID (holds s));
  law_list : forall f clock s l, sound s -> ListWindows_ f clock s = inr l -> f_Limit f <= 0 ->
    l ≡ₚ filter (fun w => selects f clock w = true) (holds s);
  law_create : forall w s r s', sound s -> CreateWindow_ w s = (r, s') ->
    sound s' /\ match r, w with None, Some w => holds s' ≡ₚ w :: holds s | None, None => False | Some _, _ => holds s' = holds s end;
  law_update : forall w s r s' v, sound s -> UpdateWindow_ w s = (r, s') -> (forall w', w = Some w' -> w_ID v ≠ w_ID w') ->
    sound s' /\ (v ∈ holds s' <-> v ∈ holds s);
  law_delete : forall id s r s' v, sound s -> DeleteWindow_ id s = (r, s') -> w_ID v ≠ id -> sound s' /\ (v ∈ holds s' <-> v ∈ holds s) }.

(** ** The SQL store *)

Inductive val := VText (s : string) | VInt (z : Z) | VTime (t : Z) | VLabels (l : list string).
Inductive placeholder := Dollar (n : nat) | Question.

Record row := MkRow {
  r_id : string; r_name : string; r_start : Z; r_end : Z; r_labels : list string; r_frozen : Z; r_repeat : string; r_cron : string;
  r_created : Z; r_updated : Z }.

Record Store := MkStore { st_dialect : Dialect; st_rows : list row; st_fault : option string }.
Definition withRows (s : Store) (l : list row) : Store := MkStore (st_dialect s) l (st_fault s).

Definition EnsureSchema (db : option (list row * option string)) (d : Dialect) : option goerr :=
  match db with
  | None => Some (EText "calendar: ensure schema: nil db handle")
  | Some (_, fault) =>
      match d with
      | DialectUnknown => Some (EText "calendar: ensure schema: dialect must be DialectSQLite or DialectPostgres")
      | _ => match fault with Some e => Some (EWrap ("calendar: apply schema (" +:+ dialect_String d +:+ ")") (EText e)) | None => None end
      end
  end.
Definition NewStore (db : option (list row * option string)) (d : Dialect) : goerr + Store :=
  match db with
  | None => inl (EText "calendar: new store: nil db handle")
  | Some (rows, fault) => match EnsureSchema db d with Some e => inl e | None => inr (MkStore d rows fault) end
  end.

(** The placeholder of the [n]-th bound argument. *)
Definition ph (d : Dialect) (n : nat) : placeholder := match d with DialectPostgres => Dollar n | _ => Question end.
Definition phList (d : Dialect) (n first : nat) : list placeholder := map (fun i => ph d (first + i)) (seq 0 n).

(** The driver's side: [?] takes the next argument. *)
Fixpoint resolve (next : nat) (phs : list placeholder) (args : list val) : option (list val) :=
  match phs with
  | [] => Some []
  | Dollar n :: ps => match args !! Nat.pred n, resolve next ps args with Some v, Some vs => Some (v :: vs) | _, _ => None end
  | Question :: ps => match args !! next, resolve (S next) ps args with Some v, Some vs => Some (v :: vs) | _, _ => None end
  end.
Definition bindError : goerr := EText "wrong placeholders".

Definition boolToInt (b : bool) : Z := if b then 1 else 0.
Definition rowOf (vs : list val) : option row :=
  match vs with
  | [VText id; VText name; VTime st; VTime en; VLabels ls; VInt fz; VText rep; VText cron; VTime cr; VTime up] =>
      Some (MkRow id name st en ls fz rep cron cr up)
  | _ => None
  end.
(** UPDATE sets eight columns; id and created_at stay. *)
Definition setRow (vs : list val) (r : row) : option row :=
  match vs with
  | [VText name; VTime st; VTime en; VLabels ls; VInt fz; VText rep; VText cron; VTime up] =>
      Some (MkRow (r_id r) name st en ls fz rep cron (r_created r) up)
  | _ => None
  end.

Definition validateWindow (w : Window) : option goerr :=
  if String.eqb (w_ID w) "" then Some (EText "calendar: window id is required")
  else if String.eqb (w_Name w) "" then Some (EText "calendar: window name is required")
  else if w_EndTime w <? w_StartTime w then Some (EText "calendar: end_time is before start_time")
  else None.

Definition failed {A} (what : string) (e : string) (s : A) : option goerr * A := (Some (EWrap what (EText e)), s).

(** The CHECK of the PostgreSQL table. *)
Definition frozenAllowed (d : Dialect) (z : Z) : bool := match d with DialectPostgres => (z =? 0) || (z =? 1) | _ => true end.

Definition CreateWindow (w : option Window) (s : Store) : option goerr * Store :=
  match w with
  | None => (Some (EText "calendar: create window: nil window"), s)
  | Some w =>
      match validateWindow w with
      | Some e => (Some e, s)
      | None =>
          let args := [VText (w_ID w); VText (w_Name w); VTime (w_StartTime w); VTime (w_EndTime w); VLabels (w_TargetLabels w);
                       VInt (boolToInt (w_IsFrozen w)); VText (w_RepeatRule w); VText (w_CronExpr w); VTime (w_CreatedAt w); VTime (w_UpdatedAt w)] in
          match st_fault s with
          | Some e => failed "calendar: create window" e s
          | None =>
              match resolve 0 (phList (st_dialect s) 10 1) args with
              | None => (Some bindError, s)
              | Some vs =>
                  match rowOf vs with
                  | None => (Some bindError, s)
                  | Some r => if existsb (fun x => String.eqb (r_id x) (r_id r)) (st_rows s) then failed "calendar: create window" "UNIQUE constraint failed" s
                              else if negb (frozenAllowed (st_dialect s) (r_frozen r)) then failed "calendar: create window" "CHECK constraint failed" s
                              else (None, withRows s (st_rows s ++ [r]))
                  end
              end
          end
      end
  end.

Definition scanWindow (r : row) : Window :=
  MkWindow (r_id r) (r_name r) (r_start r) (r_end r) (r_labels r) (negb (r_frozen r =? 0)) (r_repeat r) (r_cron r) (r_created r) (r_updated r).

Definition GetWindow (id : string) (s : Store) : goerr + option Window :=
  match st_fault s with
  | Some e => inl (EWrap "calendar: get window" (EText e))
  | None => match resolve 0 [ph (st_dialect s) 1] [VText id] with
            | Some [VText x] => inr (scanWindow <$> find (fun r => String.eqb (r_id r) x) (st_rows s))
            | _ => inl bindError
            end
  end.

(** WHERE clauses, each with the placeholder of its value. *)
Inductive clause := NameIs | FrozenIs | StartsBy | EndsAfter.
Definition clauseHolds (r : row) (cv : clause * val) : bool :=
  match cv with
  | (NameIs, VText n) => String.eqb (r_name r) n
  | (FrozenIs, VInt z) => r_frozen r =? z
  | (StartsBy, VTime t) => r_start r <=? t
  | (EndsAfter, VTime t) => t <? r_end r
  | _ => false
  end.
(** The query under construction; [next] appends an argument and numbers it. *)
Record query := MkQuery { q_clauses : list (clause * placeholder); q_args : list val; q_limit : option placeholder }.
Definition clauseOn (d : Dialect) (c : clause) (v : val) (q : query) : query :=
  MkQuery (q_clauses q ++ [(c, ph d (length (q_args q ++ [v])))]) (q_args q ++ [v]) (q_limit q).
Definition limitOn (d : Dialect) (v : val) (q : query) : query :=
  MkQuery (q_clauses q) (q_args q ++ [v]) (Some (ph d (length (q_args q ++ [v])))).
Definition when {A} (b : bool) (f : A -> A) (x : A) : A := if b then f x else x.

Definition listQuery (d : Dialect) (f : WindowFilter) (clock : Z) : query :=
  let q := MkQuery [] [] None in
  let q := when (negb (String.eqb (f_Name f) "")) (clauseOn d NameIs (VText (f_Name f))) q in
  let q := match f_IsFrozen f with Some b => clauseOn d FrozenIs (VInt (boolToInt b)) q | None => q end in
  let now := if f_Now f =? zeroTime then clock else f_Now f in
  let q := when (f_OnlyActive f) (clauseOn d StartsBy (VTime now)) q in
  let q := when (f_OnlyActive f) (clauseOn d EndsAfter (VTime now)) q in
  when (0 <? f_Limit f) (limitOn d (VInt (f_Limit f))) q.

Definition startOrder (x y : row) : Prop := r_start x <= r_start y.
#[export] Instance startOrder_dec x y : Decision (startOrder x y).
Proof. unfold startOrder. apply _. Defined.

Definition runQuery (q : query) (rows : list row) : goerr + list row :=
  match resolve 0 (map snd (q_clauses q) ++ match q_limit q with Some p => [p] | None => [] end) (q_args q) with
  | None => inl bindError
  | Some vs =>
      let n := length (q_clauses q) in
      let sel := filter (fun r => forallb (clauseHolds r) (zip (map fst (q_clauses q)) (take n vs)) = true) rows in
      let sorted := merge_sort startOrder sel in
      inr (match drop n vs with [VInt k] => take (Z.to_nat k) sorted | _ => sorted end)
  end.
Definition ListWindows (f : WindowFilter) (clock : Z) (s : Store) : goerr + list Window :=
  match st_fault s with
  | Some e => inl (EWrap "calendar: list windows" (EText e))
  | None => match runQuery (listQuery (st_dialect s) f clock) (st_rows s) with
            | inl e => inl (EWrap "calendar: list windows" e)
            | inr rows => inr (map scanWindow rows)
            end
  end.

Definition updateRows (id : string) (vs : list val) (rows : list row) : list row :=
  map (fun r => if String.eqb (r_id r) id then default r (setRow vs r) else r) rows.
Definition UpdateWindow (w : option Window) (s : Store) : option goerr * Store :=
  match w with
  | None => (Some (EText "calendar: update window: nil window"), s)
  | Some w =>
      match validateWindow w with
      | Some e => (Some e, s)
      | None =>
          let d := st_dialect s in
          let args := [VText (w_Name w); VTime (w_StartTime w); VTime (w_EndTime w); VLabels (w_TargetLabels w);
                       VInt (boolToInt (w_IsFrozen w)); VText (w_RepeatRule w); VText (w_CronExpr w); VTime (w_UpdatedAt w); VText (w_ID w)] in
          match st_fault s with
          | Some e => failed "calendar: update window" e s
          | None =>
              match resolve 0 (map (fun i => ph d (i + 1)) (seq 0 8) ++ [ph d 9]) args with
              | None => (Some bindError, s)
              | Some vs =>
                  match drop 8 vs with
                  | [VText id] => if existsb (fun r => String.eqb (r_id r) id) (st_rows s) then (None, withRows s (updateRows id (take 8 vs) (st_rows s)))
                                  else (Some (EText "calendar: update window: not found"), s)
                  | _ => (Some bindError, s)
                  end
              end
          end
      end
  end.

Definition DeleteWindow (id : string) (s : Store) : option goerr * Store :=
  match st_fault s with
  | Some e => failed "calendar: delete window" e s
  | None => match resolve 0 [ph (st_dialect s) 1] [VText id] with
            | Some [VText x] => (None, withRows s (filter (fun r => negb (String.eqb (r_id r) x) = true) (st_rows s)))
            | _ => (Some bindError, s)
            end
  end.

#[export] Instance Store_CalendarStore : CalendarStore Store :=
  {| CreateWindow_ := CreateWindow; GetWindow_ := GetWindow; ListWindows_ := ListWindows; UpdateWindow_ := UpdateWindow; DeleteWindow_ := DeleteWindow |}.

(** ** The service *)

Definition ErrFrozen : string := "calendar: target set is inside an active freeze period".

Definition toSet (xs : list string) : gset string := list_to_set xs.
Definition intersects (set : gset string) (xs : list string) : bool := existsb (fun x => bool_decide (x ∈ set)) xs.

(** Times are instants here: [UTC] changes nothing. *)
Definition normaliseWindow (w : option Window) : option Window :=
  (fun w => MkWindow (w_ID w) (w_Name w) (w_StartTime w) (w_EndTime w) (sortStrings (w_TargetLabels w)) (w_IsFrozen w)
              (w_RepeatRule w) (w_CronExpr w) (w_CreatedAt w) (w_UpdatedAt w)) <$> w.

Section service.
Context {S : Type} `{CalendarStore S}.

Definition svc_CreateWindow (w : option Window) (s : S) : option goerr * S := CreateWindow_ (normaliseWindow w) s.
Definition svc_GetWindow (id : string) (s : S) : goerr + option Window := GetWindow_ id s.
Definition svc_ListWindows (f : WindowFilter) (clock : Z) (s : S) : goerr + list Window := ListWindows_ f clock s.
Definition svc_UpdateWindow (w : option Window) (s : S) : option goerr * S := UpdateWindow_ (normaliseWindow w) s.
Definition svc_DeleteWindow (id : string) (s : S) : option goerr * S := DeleteWindow_ id s.

Definition FreezeWindowsAt (targetLabels : list string) (at_ clock : Z) (s : S) : goerr + list Window :=
  match ListWindows_ (MkFilter "" (Some true) true at_ 0) clock s with
  | inl e => inl (EWrap "calendar: list frozen windows" e)
  | inr windows =>
      inr (filter (fun w => (bool_decide (targetLabels = []) || intersects (toSet targetLabels) (w_TargetLabels w)) = true) windows)
  end.
Definition IsFrozenAt (targetLabels : list string) (at_ clock : Z) (s : S) : goerr + bool :=
  match FreezeWindowsAt targetLabels at_ clock s with inl e => inl e | inr ws => inr (negb (bool_decide (ws = []))) end.
Definition IsFrozen (targetLabels : list string) (clock : Z) (s : S) : goerr + bool := IsFrozenAt targetLabels clock clock s.

Definition AssertNotFrozenAt (targetLabels : list string) (at_ clock : Z) (emergency : bool) (s : S) : option goerr :=
  if emergency then None
  else match FreezeWindowsAt targetLabels at_ clock s with
       | inl e => Some e
       | inr [] => None
       | inr hits => Some (EWrap (String.concat ", " (map w_ID hits)) (ESentinel ErrFrozen))
       end.
Definition AssertNotFrozen (targetLabels : list string) (clock : Z) (emergency : bool) (s : S) : option goerr :=
  AssertNotFrozenAt targetLabels clock clock emergency s.
Definition ActiveWindowsAt (at_ clock : Z) (s : S) : goerr + list Window := ListWindows_ (MkFilter "" None true at_ 0) clock s.
End service.

(** ** Conflicts *)

Record Conflict := MkConflict { c_WindowAID : string; c_WindowBID : string; c_OverlapStart : Z; c_OverlapEnd : Z; c_SharedTargets : list string }.

Definition overlapInterval (aStart aEnd bStart bEnd : Z) : option (Z * Z) :=
  let start := if aStart <? bStart then bStart else aStart in
  let end_ := if bEnd <? aEnd then bEnd else aEnd in
  if negb (start <? end_) then None else Some (start, end_).

(** First occurrences, in order. *)
Fixpoint unique (xs seen : list string) : list string :=
  match xs with
  | [] => []
  | x :: xs => if bool_decide (x ∈ seen) then unique xs seen else x :: unique xs (x :: seen)
  end.
Definition uniqueSorted (xs : list string) : list string := sortStrings (unique xs []).
Definition intersectSorted (a b : list string) : list string := sortStrings (unique (filter (fun x => x ∈ a) b) []).
Definition pairKey (a b : string) : string := if String.ltb a b then a +:+ "|" +:+ b else b +:+ "|" +:+ a.

(** [None]: the expression of [w] is not parsed within the fuel. *)
Definition expandForOverlap (fuel : nat) (w : Window) (candStart candEnd : Z) : option (list Window) :=
  if String.eqb (w_CronExpr w) "" then
    Some (if (w_EndTime w <? candStart) || (candEnd <? w_StartTime w) then [] else [w])
  else match ExpandWindow fuel (Some w) (candStart - slot w) candEnd with
       | None => None
       | Some (inl _) => Some [w]
       | Some (inr instances) => Some instances
       end.

(** The inverted index, an entry per window and label. *)
Definition addIndex (w : Window) (index : gmap string (list Window)) (label : string) : gmap string (list Window) :=
  <[label := default [] (index !! label) ++ [w]]> index.
Definition labelIndex (candidate : Window) (existing : list Window) : gmap string (list Window) :=
  foldl (fun index w => if String.eqb (w_ID w) (w_ID candidate) then index else foldl (addIndex w) index (w_TargetLabels w)) ∅ existing.

(** The loop over the instances of [other]; the state is the conflicts found
    and the pairs seen. *)
Definition found : Type := list Conflict * gset string.
Definition tryInstance (candidate other : Window) (acc : found) (inst : Window) : found :=
  match overlapInterval (w_StartTime candidate) (w_EndTime candidate) (w_StartTime inst) (w_EndTime inst) with
  | None => acc
  | Some (ovStart, ovEnd) =>
      let shared := intersectSorted (w_TargetLabels candidate) (w_TargetLabels inst) in
      if bool_decide (shared = []) then acc
      else let key := pairKey (w_ID candidate) (w_ID other) in
           if bool_decide (key ∈ acc.2) then acc
           else (acc.1 ++ [MkConflict (w_ID candidate) (w_ID other) ovStart ovEnd shared], {[key]} ∪ acc.2)
  end.
Definition tryOther (fuel : nat) (candidate : Window) (acc : option found) (other : Window) : option found :=
  match acc, expandForOverlap fuel other (w_StartTime candidate) (w_EndTime candidate) with
  | Some acc, Some instances => Some (foldl (tryInstance candidate other) acc instances)
  | _, _ => None
  end.
Definition tryLabel (fuel : nat) (candidate : Window) (index : gmap string (list Window)) (acc : option found) (label : string) : option found :=
  foldl (tryOther fuel candidate) acc (default [] (index !! label)).

Definition conflictOrder (x y : Conflict) : Prop :=
  c_OverlapStart x < c_OverlapStart y \/ (c_OverlapStart x = c_OverlapStart y /\ String.le (c_WindowBID x) (c_WindowBID y)).
#[export] Instance conflictOrder_dec x y : Decision (conflictOrder x y).
Proof. unfold conflictOrder. apply _. Defined.

Definition detectConflicts (fuel : nat) (candidate : Window) (existing : list Window) : option (list Conflict) :=
  let index := labelIndex candidate existing in
  match foldl (tryLabel fuel candidate index) (Some ([], ∅)) (uniqueSorted (w_TargetLabels candidate)) with
  | None => None
  | Some (conflicts, _) => Some (merge_sort conflictOrder conflicts)
  end.

Section planning.
Context {S : Type} `{CalendarStore S}.

Definition DetectConflicts (fuel : nat) (candidate : option Window) (clock : Z) (s : S) : option (goerr + list Conflict) :=
  match candidate with
  | None => Some (inl (EText "calendar: detect conflicts: nil candidate"))
  | Some candidate =>
      match ListWindows_ noFilter clock s with
      | inl e => Some (inl (EWrap "calendar: list windows for conflict check" e))
      | inr existing => match detectConflicts fuel candidate existing with None => None | Some l => Some (inr l) end
      end
  end.
Definition planCandidate (targetLabels : list string) (plannedTime duration : Z) : Window :=
  MkWindow "__plan_candidate__" "plan-candidate" plannedTime (plannedTime + (if duration <=? 0 then second else duration)) targetLabels false "" ""
    zeroTime zeroTime.
Definition CheckWindowForPlan (fuel : nat) (targetLabels : list string) (plannedTime duration clock : Z) (s : S) : option (goerr + list Conflict) :=
  DetectConflicts fuel (Some (planCandidate targetLabels plannedTime duration)) clock s.
End planning.

(** ** The gate, src/internal/wiring/calendar_gate.go *)

Record Target := MkTarget { t_Hostname : string; t_GroupID : string; t_Labels : gmap string string }.

(** What one host can be called; map order does not show after sorting. *)
Definition targetNames (t : Target) : list string :=
  t_Hostname t :: t_GroupID t :: (map_to_list (t_Labels t) ≫= fun kv => [kv.1 +:+ "=" +:+ kv.2; kv.2]).
Definition targetVocabulary (targets : list (option Target)) : list string :=
  sortStrings (unique (filter (fun x => x ≠ "") (targets ≫= fun t => match t with Some t => targetNames t | None => [] end)) []).

Definition declaresEmergency (wf : option Dsl.Workflow) : bool :=
  match wf with
  | Some w => match Dsl.wf_Approval w with Some a => String.eqb (Dsl.ap_Level a) Dsl.ApprovalLevelEmergency | None => false end
  | None => false
  end.

Section gate.
Context {S : Type} `{CalendarStore S}.

(** The conflict advisory ends in the log; the answer does not depend on it. *)
Definition assertCalendarAllows (calendar : option S) (targets : list (option Target)) (wf : option Dsl.Workflow) (clock : Z) : option goerr :=
  match calendar with
  | None => None
  | Some s => AssertNotFrozen (targetVocabulary targets) clock (declaresEmergency wf) s
  end.

(** [rx]: the inventory snapshot of the run, if there is one. *)
Definition executionTargets (rx : option (gmap string Target)) (inventory : goerr + list Target) (hosts : list string) : goerr + list Target :=
  match rx with
  | Some m => inr (omap (fun h => m !! h) hosts)
  | None => match inventory with
            | inl e => inl (EWrap "wiring: calendar re-check needs the inventory" e)
            | inr all => inr (filter (fun t => t_Hostname t ∈ hosts) all)
            end
  end.
Definition assertCalendarAllowsExecution (calendar : option S) (rx : option (gmap string Target)) (inventory : goerr + list Target)
    (hosts : list string) (emergency : bool) (clock : Z) : option goerr :=
  match calendar with
  | None => None
  | Some s => match executionTargets rx inventory hosts with
              | inl e => Some e
              | inr targets => AssertNotFrozen (targetVocabulary (map Some targets)) clock emergency s
              end
  end.

(** The stored run, and the parser of its workflow source. *)
Definition declaresEmergencyFor {R} (run : goerr + option R) (resolveWorkflow : R -> goerr + Dsl.Workflow) : bool :=
  match run with
  | inr (Some r) => match resolveWorkflow r with inr wf => declaresEmergency (Some wf) | inl _ => false end
  | _ => false
  end.
End gate.

(** ** The SQL store keeps the laws *)

Lemma resolve_dollar i j ns args : resolve i (map Dollar ns) args = resolve j (map Dollar ns) args.
Proof. induction ns as [|n ns IH]; [done|]. cbn. by rewrite IH. Qed.

Lemma resolve_numbered d k n args :
  (k + n <= length args)%nat -> resolve k (map (fun i => ph d (S i)) (seq k n)) args = Some (take n (drop k args)).
Proof.
  revert k. induction n as [|n IH]; intros k Hk; [done|]. cbn [seq map].
  destruct (lookup_lt_is_Some_2 args k ltac:(lia)) as [v Hv]. rewrite (drop_S _ _ _ Hv). cbn [take]. specialize (IH (S k) ltac:(lia)).
  destruct d; cbn [ph resolve] in *; rewrite ?Nat.pred_succ, Hv; [by rewrite IH..|].
  rewrite <- (map_map S Dollar) in *. by rewrite (resolve_dollar k (S k)), IH.
Qed.

(** Clauses and arguments of a query advance together. *)
Definition numbered (d : Dialect) (q : query) : Prop :=
  map snd (q_clauses q) = map (fun i => ph d (S i)) (seq 0 (length (q_args q))) /\ q_limit q = None.
Definition passes (q : query) (r : row) : bool := forallb (clauseHolds r) (zip (map fst (q_clauses q)) (q_args q)).

Lemma numbered_length d q : numbered d q -> length (q_clauses q) = length (q_args q).
Proof. intros [H _]. rewrite <- (length_map snd (q_clauses q)), H. by rewrite length_map, length_seq. Qed.

Lemma clauseOn_numbered d c v q : numbered d q -> numbered d (clauseOn d c v q) /\ forall r, passes (clauseOn d c v q) r = passes q r && clauseHolds r (c, v).
Proof.
  intros Hn. pose proof (numbered_length d q Hn) as Hlen. destruct Hn as [H Hl]. unfold numbered, passes, clauseOn. cbn. split; [split; [|done]|].
  - rewrite map_app, length_app, seq_app, map_app, H. cbn. do 3 f_equal. lia.
  - intros r. rewrite map_app, zip_with_app by (by rewrite length_map). rewrite forallb_app. cbn. by rewrite andb_true_r.
Qed.

Lemma runQuery_numbered d q rows :
  numbered d q -> runQuery q rows = inr (merge_sort startOrder (filter (fun r => passes q r = true) rows)).
Proof.
  intros Hn. pose proof (numbered_length d q Hn) as Hlen. destruct Hn as [H Hl]. unfold runQuery. rewrite Hl, app_nil_r, H.
  rewrite resolve_numbered by lia. rewrite drop_0, (take_ge (q_args q)) by lia. cbv zeta. rewrite Hlen, drop_ge, take_ge by lia. done.
Qed.

Definition frozenBit (r : row) : Prop := r_frozen r = 0 \/ r_frozen r = 1.

Lemma listQuery_spec d f clock :
  f_Limit f <= 0 -> numbered d (listQuery d f clock) /\ forall r, frozenBit r -> passes (listQuery d f clock) r = selects f clock (scanWindow r).
Proof.
  intros Hl. unfold listQuery, when, selects, active. cbv zeta. fold (nowOf f clock). destruct (Z.ltb_spec 0 (f_Limit f)); [lia|].
  set (q0 := MkQuery [] [] None). assert (numbered d q0) as H0 by done. assert (forall r, passes q0 r = true) as P0 by done. clearbody q0.
  set (q1 := if negb (String.eqb (f_Name f) "") then clauseOn d NameIs (VText (f_Name f)) q0 else q0).
  assert (numbered d q1 /\ forall r, passes q1 r = (String.eqb (f_Name f) "" || String.eqb (r_name r) (f_Name f))) as [H1 P1].
  { subst q1. destruct (String.eqb (f_Name f) ""); cbn [negb]; [by split|]. destruct (clauseOn_numbered d NameIs (VText (f_Name f)) q0 H0) as [? HP].
    split; [done|]. intros r. by rewrite HP, P0. }
  clearbody q1. set (q2 := match f_IsFrozen f with Some b => clauseOn d FrozenIs (VInt (boolToInt b)) q1 | None => q1 end).
  assert (numbered d q2 /\ forall r, frozenBit r -> passes q2 r = passes q1 r && match f_IsFrozen f with None => true | Some b => Bool.eqb (negb (r_frozen r =? 0)) b end) as [H2 P2].
  { subst q2. destruct (f_IsFrozen f) as [b|]; [|split; [done|]; intros r _; by rewrite andb_true_r].
    destruct (clauseOn_numbered d FrozenIs (VInt (boolToInt b)) q1 H1) as [? HP]. split; [done|]. intros r Hr. rewrite HP. f_equal.
    unfold clauseHolds. destruct Hr as [-> | ->]; by destruct b. }
  clearbody q2. destruct (f_OnlyActive f); cbn [negb orb].
  - destruct (clauseOn_numbered d StartsBy (VTime (nowOf f clock)) q2 H2) as [H3 P3].
    destruct (clauseOn_numbered d EndsAfter (VTime (nowOf f clock)) _ H3) as [H4 P4]. split; [done|]. intros r Hr. rewrite P4, P3, P2, P1 by done.
    cbn. by rewrite !andb_assoc.
  - split; [done|]. intros r Hr. rewrite P2, P1 by done. by rewrite andb_true_r.
Qed.

Definition storeSound (s : Store) : Prop := Forall frozenBit (st_rows s) /\ NoDup (map r_id (st_rows s)).
Definition storeHolds (s : Store) : list Window := map scanWindow (st_rows s).

(** The row of a window reads back as the window. *)
Definition windowRow (w : Window) : row :=
  MkRow (w_ID w) (w_Name w) (w_StartTime w) (w_EndTime w) (w_TargetLabels w) (boolToInt (w_IsFrozen w)) (w_RepeatRule w) (w_CronExpr w)
    (w_CreatedAt w) (w_UpdatedAt w).
Lemma scan_windowRow w : scanWindow (windowRow w) = w.
Proof. destruct w as [? ? ? ? ? []]; done. Qed.
Lemma windowRow_bit w : frozenBit (windowRow w).
Proof. unfold frozenBit, windowRow. cbn. destruct (w_IsFrozen w); [by right|by left]. Qed.

Lemma scan_ids rows : map w_ID (map scanWindow rows) = map r_id rows.
Proof. rewrite map_map. by apply map_ext. Qed.

Lemma CreateWindow_spec w s :
  CreateWindow (Some w) s =
    match validateWindow w with
    | Some e => (Some e, s)
    | None => match st_fault s with
              | Some e => failed "calendar: create window" e s
              | None => if existsb (fun x => String.eqb (r_id x) (w_ID w)) (st_rows s) then failed "calendar: create window" "UNIQUE constraint failed" s
                        else (None, withRows s (st_rows s ++ [windowRow w]))
              end
    end.
Proof.
  unfold CreateWindow. destruct (validateWindow w); [done|]. destruct (st_fault s); [done|].
  destruct (st_dialect s) eqn:E; cbn; rewrite ?E; destruct (existsb _ _); try done.
  unfold windowRow. by destruct (w_IsFrozen w).
Qed.

Definition setWindow (w : Window) (r : row) : row :=
  MkRow (r_id r) (w_Name w) (w_StartTime w) (w_EndTime w) (w_TargetLabels w) (boolToInt (w_IsFrozen w)) (w_RepeatRule w) (w_CronExpr w)
    (r_created r) (w_UpdatedAt w).
Lemma UpdateWindow_spec w s :
  UpdateWindow (Some w) s =
    match validateWindow w with
    | Some e => (Some e, s)
    | None => match st_fault s with
              | Some e => failed "calendar: update window" e s
              | None => if existsb (fun x => String.eqb (r_id x) (w_ID w)) (st_rows s)
                        then (None, withRows s (map (fun r => if String.eqb (r_id r) (w_ID w) then setWindow w r else r) (st_rows s)))
                        else (Some (EText "calendar: update window: not found"), s)
              end
    end.
Proof.
  unfold UpdateWindow. destruct (validateWindow w); [done|]. destruct (st_fault s); [done|].
  by destruct (st_dialect s) eqn:E; cbn; rewrite ?E.
Qed.

Lemma DeleteWindow_spec id s :
  DeleteWindow id s = match st_fault s with
                      | Some e => failed "calendar: delete window" e s
                      | None => (None, withRows s (filter (fun r => negb (String.eqb (r_id r) id) = true) (st_rows s)))
                      end.
Proof. unfold DeleteWindow. destruct (st_fault s); [done|]. by destruct (st_dialect s) eqn:E; cbn; rewrite ?E. Qed.

Lemma list_store f clock s l :
  storeSound s -> ListWindows f clock s = inr l -> f_Limit f <= 0 -> l ≡ₚ filter (fun w => selects f clock w = true) (storeHolds s).
Proof.
  intros [Hb _] H Hl. unfold ListWindows in H. destruct (st_fault s); [done|].
  destruct (listQuery_spec (st_dialect s) f clock Hl) as [Hn Hp]. rewrite (runQuery_numbered _ _ _ Hn) in H. simplify_eq.
  rewrite merge_sort_Permutation. unfold storeHolds. clear Hn. induction Hb as [|r rows Hr Hb IH]; [done|]. cbn [map].
  rewrite filter_cons, (filter_cons (fun w => selects f clock w = true)), (Hp r Hr).
  destruct (decide (selects f clock (scanWindow r) = true)); [|done]. cbn [map]. by rewrite IH.
Qed.

Lemma create_store w s r s' :
  storeSound s -> CreateWindow w s = (r, s') ->
  storeSound s' /\ match r, w with None, Some w => storeHolds s' ≡ₚ w :: storeHolds s | None, None => False | Some _, _ => storeHolds s' = storeHolds s end.
Proof.
  intros Hs H. destruct w as [w|]; [rewrite CreateWindow_spec in H|by injection H as <- <-].
  destruct (validateWindow w); [by injection H as <- <-|]. destruct (st_fault s); [by injection H as <- <-|]. destruct (existsb _ _) eqn:E; [by injection H as <- <-|].
  injection H as <- <-. destruct Hs as [Hb Hd]. unfold storeSound, storeHolds. cbn [st_rows withRows]. rewrite !map_app. cbn [map]. rewrite scan_windowRow. repeat split.
  - apply Forall_app. split; [done|]. constructor; [apply windowRow_bit|done].
  - apply NoDup_app. split; [done|]. split; [|apply NoDup_singleton]. intros i (x & -> & Hx)%list_elem_of_fmap Hi.
    apply list_elem_of_singleton in Hi. apply not_true_iff_false in E. apply E. apply existsb_elem. exists x. split; [done|]. by apply String.eqb_eq.
  - by rewrite Permutation_app_comm.
Qed.

Lemma update_store w s r s' v :
  storeSound s -> UpdateWindow w s = (r, s') -> (forall w', w = Some w' -> w_ID v ≠ w_ID w') -> storeSound s' /\ (v ∈ storeHolds s' <-> v ∈ storeHolds s).
Proof.
  intros Hs H Hv. destruct w as [w|]; [rewrite UpdateWindow_spec in H; specialize (Hv w eq_refl)|by injection H as <- <-].
  destruct (validateWindow w); [by injection H as <- <-|]. destruct (st_fault s); [by injection H as <- <-|]. destruct (existsb _ _) eqn:E; [|by injection H as <- <-].
  injection H as <- <-. destruct Hs as [Hb Hd]. unfold storeSound, storeHolds. cbn [st_rows withRows]. repeat split.
  - apply Forall_map. eapply Forall_impl; [exact Hb|]. intros x Hx. destruct (String.eqb _ _); [apply windowRow_bit|done].
  - rewrite map_map. erewrite map_ext; [exact Hd|]. intros x. by destruct (String.eqb _ _).
  - rewrite map_map. intros (x & -> & Hx)%list_elem_of_fmap. destruct (String.eqb_spec (r_id x) (w_ID w)); [by cbn in Hv|by apply list_elem_of_fmap_2].
  - rewrite map_map. intros (x & -> & Hx)%list_elem_of_fmap. apply list_elem_of_fmap. exists x. split; [|done].
    destruct (String.eqb_spec (r_id x) (w_ID w)); [by cbn in Hv|done].
Qed.

Lemma delete_store id s r s' v :
  storeSound s -> DeleteWindow id s = (r, s') -> w_ID v ≠ id -> storeSound s' /\ (v ∈ storeHolds s' <-> v ∈ storeHolds s).
Proof.
  intros Hs H Hv. rewrite DeleteWindow_spec in H. destruct (st_fault s); [by injection H as <- <-|]. injection H as <- <-. destruct Hs as [Hb Hd].
  unfold storeSound, storeHolds. cbn [st_rows withRows]. repeat split.
  - rewrite Forall_forall in *. intros x [_ Hx]%list_elem_of_filter. by apply Hb.
  - eapply sublist_NoDup; [exact Hd|]. apply (fmap_sublist r_id), sublist_filter.
  - intros (x & -> & [_ Hx]%list_elem_of_filter)%list_elem_of_fmap. by apply list_elem_of_fmap_2.
  - intros (x & -> & Hx)%list_elem_of_fmap. apply list_elem_of_fmap_2, list_elem_of_filter. split; [|done].
    cbn in Hv. by rewrite (proj2 (String.eqb_neq _ _) Hv).
Qed.

#[export] Instance Store_CalendarLaws : CalendarLaws Store := {|
  sound := storeSound; holds := storeHolds;
  law_ids s H := eq_ind_r (fun l => NoDup l) (proj2 H) (scan_ids (st_rows s));
  law_list := list_store; law_create := create_store; law_update := update_store; law_delete := delete_store |}.

(** ** The freeze gate *)

Lemma intersects_spec (a b : list string) : intersects (toSet a) b = true <-> exists x, x ∈ a /\ x ∈ b.
Proof. unfold intersects, toSet. rewrite existsb_elem. setoid_rewrite bool_decide_eq_true. setoid_rewrite elem_of_list_to_set. naive_solver. Qed.

Lemma unique_spec xs seen x : x ∈ unique xs seen <-> x ∈ xs /\ (x ∉ seen).
Proof.
  revert seen. induction xs as [|y xs IH]; intros seen; cbn [unique]; [set_solver|].
  destruct (decide (y ∈ seen)); [rewrite bool_decide_eq_true_2 by done|rewrite bool_decide_eq_false_2 by done]; [rewrite IH; set_solver|].
  rewrite elem_of_cons, IH. destruct (decide (x = y)) as [->|]; set_solver.
Qed.
Lemma unique_nodup xs seen : NoDup (unique xs seen).
Proof.
  revert seen. induction xs as [|y xs IH]; intros seen; cbn [unique]; [constructor|].
  destruct (bool_decide (y ∈ seen)); [apply IH|]. constructor; [rewrite unique_spec; set_solver|apply IH].
Qed.

Lemma vocabulary_spec targets x : x ∈ targetVocabulary targets <-> x ≠ "" /\ exists t, Some t ∈ targets /\ x ∈ targetNames t.
Proof.
  unfold targetVocabulary, sortStrings. rewrite merge_sort_Permutation, unique_spec, list_elem_of_filter, list_elem_of_bind. split.
  - intros [[Hx ([t|] & Hin & Ht)] _]; [by eauto|set_solver].
  - intros [Hx (t & Ht & Hin)]. split; [|set_solver]. split; [done|]. by exists (Some t).
Qed.

(** A window freezes a set of names at an instant. *)
Definition freezes (w : Window) (labels : list string) (at_ : Z) : Prop :=
  w_IsFrozen w = true /\ w_StartTime w <= at_ < w_EndTime w /\ (labels = [] \/ exists x, x ∈ labels /\ x ∈ w_TargetLabels w).

Section freeze.
Context {S : Type} `{CalendarLaws S}.

(** The gate's answer: none, the store's error, or a refusal. *)
Lemma assert_exact labels at_ clock s :
  sound s -> at_ ≠ zeroTime ->
  match AssertNotFrozenAt labels at_ clock false s with
  | None => (exists l, ListWindows_ (MkFilter "" (Some true) true at_ 0) clock s = inr l) /\ forall w, w ∈ holds s -> ~ freezes w labels at_
  | Some e => (exists e', ListWindows_ (MkFilter "" (Some true) true at_ 0) clock s = inl e' /\ e = EWrap "calendar: list frozen windows" e')
              \/ (errors_Is e ErrFrozen = true /\ exists w, w ∈ holds s /\ freezes w labels at_)
  end.
Proof.
  intros Hs Hat. unfold AssertNotFrozenAt, FreezeWindowsAt. destruct (ListWindows_ _ clock s) as [e|l] eqn:E; [left; by eauto|].
  assert (forall w, w ∈ filter (fun w => (bool_decide (labels = []) || intersects (toSet labels) (w_TargetLabels w)) = true) l <-> w ∈ holds s /\ freezes w labels at_) as Hin.
  { intros w. rewrite list_elem_of_filter, (law_list _ _ _ _ Hs E) by (cbn; lia). rewrite list_elem_of_filter. unfold freezes.
    rewrite orb_true_iff, bool_decide_eq_true, intersects_spec. unfold selects, nowOf, active. cbn.
    destruct (Z.eqb_spec at_ zeroTime); [done|]. rewrite !andb_true_iff, Z.leb_le, Z.ltb_lt, Bool.eqb_true_iff. naive_solver. }
  destruct (filter _ l) as [|w hits].
  - split; [by eauto|]. intros w Hw Hf. by apply (not_elem_of_nil w), Hin.
  - right. split; [done|]. exists w. apply Hin. left.
Qed.

(** What others do to the calendar. *)
Inductive step_cmd := SCreate (w : option Window) | SUpdate (w : option Window) | SDelete (id : string).
Definition run_cmd (c : step_cmd) (s : S) : S :=
  match c with SCreate w => (svc_CreateWindow w s).2 | SUpdate w => (svc_UpdateWindow w s).2 | SDelete id => (svc_DeleteWindow id s).2 end.
Definition touches (id : string) (c : step_cmd) : bool :=
  match c with SCreate _ => false | SUpdate w => match w with Some w => String.eqb (w_ID w) id | None => false end | SDelete i => String.eqb i id end.

Lemma run_cmd_keeps c s v : sound s -> touches (w_ID v) c = false -> v ∈ holds s -> sound (run_cmd c s) /\ v ∈ holds (run_cmd c s).
Proof.
  intros Hs Ht Hv. destruct c as [w|w|id]; cbn [run_cmd].
  - unfold svc_CreateWindow. destruct (CreateWindow_ _ s) as [r s'] eqn:E. destruct (law_create _ _ _ _ Hs E) as [Hs' Hh]. split; [done|].
    destruct r as [e|]; [cbn; by rewrite Hh|]. destruct (normaliseWindow w); [cbn; rewrite Hh; by right|done].
  - unfold svc_UpdateWindow. destruct (UpdateWindow_ _ s) as [r s'] eqn:E. destruct (law_update _ _ _ _ v Hs E) as [Hs' Hh].
    + intros w' Hw. destruct w as [w|]; [|done]. cbn in Hw, Ht. simplify_eq. cbn. intros Heq. rewrite Heq in Ht. by rewrite String.eqb_refl in Ht.
    + split; [done|]. by apply Hh.
  - unfold svc_DeleteWindow. destruct (DeleteWindow_ _ s) as [r s'] eqn:E. cbn in Ht. boolp. destruct (law_delete _ _ _ _ v Hs E) as [Hs' Hh]; [done|].
    split; [done|]. by apply Hh.
Qed.

Lemma run_cmds_keep cs s v :
  sound s -> forallb (fun c => negb (touches (w_ID v) c)) cs = true -> v ∈ holds s ->
  sound (foldl (fun s c => run_cmd c s) s cs) /\ v ∈ holds (foldl (fun s c => run_cmd c s) s cs).
Proof.
  revert s. induction cs as [|c cs IH]; intros s Hs Hc Hv; [done|]. cbn in Hc. apply andb_true_iff in Hc as [Hc Hcs]. boolp.
  destruct (run_cmd_keeps c s v Hs Hc Hv) as [Hs' Hv']. cbn. by apply IH.
Qed.

(** C16: a freeze that has been recorded refuses, while it lasts, every change
    to a host it names (by hostname, by group, by label or by a label's value),
    at planning and again at execution, whatever other windows are created,
    updated or deleted meanwhile; only an emergency the workflow declares
    passes, and a calendar that cannot be read refuses. A change no window
    freezes is let through. *)
Theorem freeze_refuses w s s1 cs t targets wf rx inventory hosts clock name :
  sound s -> svc_CreateWindow (Some w) s = (None, s1) ->
  forallb (fun c => negb (touches (w_ID w) c)) cs = true ->
  w_IsFrozen w = true -> w_StartTime w <= clock < w_EndTime w -> clock ≠ zeroTime ->
  name ∈ w_TargetLabels w -> name ≠ "" -> name ∈ targetNames t ->
  let s' := foldl (fun s c => run_cmd c s) s1 cs in
  (Some t ∈ targets -> declaresEmergency wf = false ->
   exists e, assertCalendarAllows (Some s') targets wf clock = Some e /\ (errors_Is e ErrFrozen = true \/ exists e', ListWindows_ (MkFilter "" (Some true) true clock 0) clock s' = inl e'))
  /\ (forall ts, executionTargets rx inventory hosts = inr ts -> t ∈ ts ->
      exists e, assertCalendarAllowsExecution (Some s') rx inventory hosts false clock = Some e)
  /\ (declaresEmergency wf = true -> assertCalendarAllows (Some s') targets wf clock = None)
  /\ ((exists l, ListWindows_ (MkFilter "" (Some true) true clock 0) clock s' = inr l) ->
      (forall v, v ∈ holds s' -> ~ freezes v (targetVocabulary targets) clock) -> assertCalendarAllows (Some s') targets wf clock = None).
Proof.
  intros Hs Hc Hcs Hf Hact Hz Hn Hne Ht s'.
  set (w' := MkWindow (w_ID w) (w_Name w) (w_StartTime w) (w_EndTime w) (sortStrings (w_TargetLabels w)) (w_IsFrozen w)
              (w_RepeatRule w) (w_CronExpr w) (w_CreatedAt w) (w_UpdatedAt w)).
  destruct (law_create _ _ _ _ Hs Hc) as [Hs1 Hh]. change (normaliseWindow (Some w)) with (Some w') in Hh.
  destruct (run_cmds_keep cs s1 w' Hs1 Hcs) as [Hs' Hw']; [rewrite Hh; left|].
  assert (forall ts, Some t ∈ ts -> freezes w' (targetVocabulary ts) clock) as Hfr.
  { intros ts Hin. split; [done|]. split; [done|]. right. exists name. split; [apply vocabulary_spec; eauto|].
    unfold w', sortStrings. cbn. by rewrite merge_sort_Permutation. }
  split; [|split; [|split]].
  - intros Hin Hem. unfold assertCalendarAllows, AssertNotFrozen. rewrite Hem. pose proof (assert_exact (targetVocabulary targets) clock clock s' Hs' Hz) as Ha.
    destruct (AssertNotFrozenAt _ _ _ _ _) as [e|]; [|by edestruct (proj2 Ha w' Hw'); apply Hfr].
    exists e. split; [done|]. destruct Ha as [(e' & He & _)|[? _]]; [right; by eauto|by left].
  - intros ts Hts Hin. unfold assertCalendarAllowsExecution, AssertNotFrozen. rewrite Hts.
    pose proof (assert_exact (targetVocabulary (map Some ts)) clock clock s' Hs' Hz) as Ha.
    destruct (AssertNotFrozenAt _ _ _ _ _) as [e|]; [by exists e|]. edestruct (proj2 Ha w' Hw'). apply Hfr. by apply list_elem_of_fmap_2.
  - intros Hem. unfold assertCalendarAllows, AssertNotFrozen. by rewrite Hem.
  - intros [l Hl] Hno. unfold assertCalendarAllows, AssertNotFrozen. destruct (declaresEmergency wf); [done|].
    pose proof (assert_exact (targetVocabulary targets) clock clock s' Hs' Hz) as Ha. destruct (AssertNotFrozenAt _ _ _ _ _) as [e|]; [|done].
    exfalso. destruct Ha as [(e' & He & _)|(_ & v & Hv & Hfv)]; [by rewrite Hl in He|by eapply Hno].
Qed.
End freeze.

Definition sampleFreeze : Window :=
  MkWindow "cw-1" "year end" (at_ 2026 12 20 0 0) (at_ 2027 1 5 0 0) ["prod"; "db-01"] true "" "" (at_ 2026 12 1 9 0) (at_ 2026 12 1 9 0).
Definition sampleHost : Target := MkTarget "web-01" "g-web" {["env" := "prod"]}.
Definition sampleStore : Store := MkStore DialectPostgres [] None.

Lemma freeze_refuses_witness :
  exists e, assertCalendarAllows (Some (foldl (fun s c => run_cmd c s) (svc_CreateWindow (Some sampleFreeze) sampleStore).2
      [SCreate (Some (MkWindow "cw-2" "weekly" 0 hour ["stage"] false "weekly" "0 2 * * 0" 0 0)); SDelete "cw-2"]))
    [Some sampleHost] None (at_ 2026 12 24 18 0) = Some e.
Proof.
  destruct (freeze_refuses sampleFreeze sampleStore (svc_CreateWindow (Some sampleFreeze) sampleStore).2
      [SCreate (Some (MkWindow "cw-2" "weekly" 0 hour ["stage"] false "weekly" "0 2 * * 0" 0 0)); SDelete "cw-2"]
      sampleHost [Some sampleHost] None None (inr []) [] (at_ 2026 12 24 18 0) "prod") as [H _];
    [split; constructor|by vm_compute|done|done|by vm_compute|done|left|done|right; right; by vm_compute; right; left|].
  destruct (H ltac:(left) eq_refl) as (e & He & _). by exists e.
Defined.

(** A freeze that recurs is enforced in its first slot only. *)
Example recurring_freeze_inert :
  let w := MkWindow "cw-1" "nightly" (at_ 2026 3 2 22 0) (at_ 2026 3 3 4 0) ["prod"] true "daily" "0 22 * * *" 0 0 in
  let s := (svc_CreateWindow (Some w) sampleStore).2 in
  IsFrozen ["prod"] (at_ 2026 3 2 23 0) s = inr true /\ IsFrozen ["prod"] (at_ 2026 3 3 23 0) s = inr false
  /\ matches (MkSchedule [0] [22] (map Z.of_nat (seq 1 31)) (map Z.of_nat (seq 1 12)) [0; 1; 2; 3; 4; 5; 6] false false "0 22 * * *") (at_ 2026 3 3 22 0) = true.
Proof. by vm_compute. Qed.
End Calendar.
