(* ===== verification/Conflict.v ===== *)
(** * Conflict: what the conflict report of the calendar means

    The conflicts [detectConflicts] (src/internal/calendar/conflict.go, modelled
    in Calendar) finds by index, expansion and pair keys are those of a direct
    definition: another window shares a label with the candidate and one of its
    slots overlaps it. At the end, what the report misses. *)

From Stdlib Require Import Lia Ascii String.
From stdpp Require Import base gmap sets list strings sorting.
From S2P Require Import Prelude Condition GoStd Cron Calendar.
Import GoStd Cron Calendar.
Open Scope string_scope.
Open Scope list_scope.
Open Scope Z_scope.

Module Conflict.

(** ** The definition *)

(** The intervals a window stands for: its own, or one per occurrence. An
    expression that does not parse counts as none. *)
Definition slotOf (fuel : nat) (w : Window) (a b : Z) : Prop :=
  if String.eqb (w_CronExpr w) "" then a = w_StartTime w /\ b = w_EndTime w
  else match ParseCron fuel (w_CronExpr w) with
       | Some (inr _) => aligned a /\ written (w_CronExpr w) a /\ b = a + slot w
       | Some (inl _) => a = w_StartTime w /\ b = w_EndTime w
       | None => False
       end.
Definition overlap (candidate : Window) (a b : Z) : Prop := Z.max (w_StartTime candidate) a < Z.min (w_EndTime candidate) b.
Definition sharing (candidate w : Window) : Prop := exists x, x ∈ w_TargetLabels candidate /\ x ∈ w_TargetLabels w.
Definition conflicting (fuel : nat) (candidate w : Window) : Prop :=
  w_ID w ≠ w_ID candidate /\ sharing candidate w /\ exists a b, slotOf fuel w a b /\ overlap candidate a b.

(** The expansion of a recurring window stays within its limits: 1000
    occurrences from two slots before the candidate on, within five years. *)
Definition expandable (fuel : nat) (candidate w : Window) : Prop :=
  forall c, w_CronExpr w ≠ "" -> ParseCron fuel (w_CronExpr w) = Some (inr c) ->
  let cursor := TruncateMinute (w_StartTime candidate - slot w - slot w) in
  w_EndTime candidate <= cursor + fiveYears /\ (length (occurrences c cursor (w_EndTime candidate)) <= maxInstances)%nat.

(** ** Pair keys *)

Definition plainID (s : string) : Prop := Condition.span (fun c => negb (Ascii.eqb c "|")) s = (s, "").

Lemma plain_cons c s : plainID (String c s) -> c ≠ "|"%char /\ plainID s.
Proof.
  unfold plainID. cbn [Condition.span]. destruct (Ascii.eqb_spec c "|") as [->|Hc]; cbn [negb]; [done|].
  destruct (Condition.span _ s) as [x y]. intros [= -> ->]. done.
Qed.

(** A plain identifier before a bar is found again in front of the same text. *)
Lemma bar_split c o x y : plainID c -> c +:+ String "|" x = o +:+ String "|" y -> (o = c /\ x = y) \/ exists z, o = c +:+ String "|" z.
Proof.
  revert o. induction c as [|a c IH]; intros o Hc H.
  - destruct o as [|b o]; rewrite ?Condition.append_cons in H; cbn in H; [left; by simplify_eq|]. right. injection H as <- ->. by exists o.
  - apply plain_cons in Hc as [Ha Hc]. destruct o as [|b o]; rewrite !Condition.append_cons in H; [by injection H|].
    injection H as <- H. destruct (IH o Hc H) as [[-> ->]|[z ->]]; [by left|right; by exists z].
Qed.

Lemma ltb_append c x z : String.ltb c (c +:+ String x z) = true.
Proof.
  unfold String.ltb. induction c as [|a c IH]; [done|]. rewrite Condition.append_cons. cbn [String.compare].
  unfold Ascii.compare. by rewrite N.compare_refl.
Qed.

Lemma append_inj_l (c x y : string) : c +:+ x = c +:+ y -> x = y.
Proof. induction c as [|a c IH]; [done|]. rewrite !Condition.append_cons. intros [= H]. by apply IH. Qed.
Lemma append_inj_r (x y c : string) : x +:+ c = y +:+ c -> x = y.
Proof.
  intros H. assert (String.length x = String.length y) as Hl by (apply (f_equal String.length) in H; rewrite !Condition.length_append in H; lia).
  revert y H Hl. induction x as [|a x IH]; intros [|b y] H Hl; try done. rewrite !Condition.append_cons in H. injection H as <- H. f_equal. apply IH; [done|]. cbn in Hl. lia.
Qed.

Lemma pairKey_inj c o1 o2 : plainID c -> o1 ≠ c -> o2 ≠ c -> pairKey c o1 = pairKey c o2 -> o1 = o2.
Proof.
  intros Hc H1 H2. unfold pairKey.
  change ("|" +:+ o1) with (String "|" o1). change ("|" +:+ o2) with (String "|" o2). change ("|" +:+ c) with (String "|" c).
  assert (forall a b, String.ltb c a = true -> String.ltb c b = false -> b ≠ c -> c +:+ String "|" a = b +:+ String "|" c -> False) as Hmix.
  { intros a b Ha Hb Hne H. destruct (bar_split _ _ _ _ Hc H) as [[-> _]|[z ->]]; [done|].
    by rewrite ltb_append in Hb. }
  destruct (String.ltb c o1) eqn:E1, (String.ltb c o2) eqn:E2; intros H.
  - apply append_inj_l in H. by injection H.
  - exfalso. by eapply (Hmix o1 o2).
  - exfalso. by eapply (Hmix o2 o1).
  - by apply append_inj_r in H.
Qed.

(** ** The index *)

Lemma addIndex_spec w ls index label v :
  v ∈ default [] (foldl (addIndex w) index ls !! label) <-> v ∈ default [] (index !! label) \/ (v = w /\ label ∈ ls).
Proof.
  revert index. induction ls as [|l ls IH]; intros index; cbn [foldl]; [set_solver|]. rewrite IH. unfold addIndex.
  destruct (decide (label = l)) as [->|Hne]; [rewrite lookup_insert_eq|rewrite lookup_insert_ne by done]; simpl; set_solver.
Qed.

Lemma labelIndex_spec candidate existing label v :
  v ∈ default [] (labelIndex candidate existing !! label) <-> v ∈ existing /\ w_ID v ≠ w_ID candidate /\ label ∈ w_TargetLabels v.
Proof.
  unfold labelIndex. assert (forall index, v ∈ default [] (foldl (fun index w => if String.eqb (w_ID w) (w_ID candidate) then index else foldl (addIndex w) index (w_TargetLabels w)) index existing !! label)
    <-> v ∈ default [] (index !! label) \/ (v ∈ existing /\ w_ID v ≠ w_ID candidate /\ label ∈ w_TargetLabels v)) as H.
  { induction existing as [|w ws IH]; intros index; cbn [foldl]; [set_solver|]. rewrite IH, elem_of_cons.
    destruct (String.eqb_spec (w_ID w) (w_ID candidate)); [naive_solver|]. rewrite addIndex_spec. naive_solver. }
  rewrite H, lookup_empty. simpl. set_solver.
Qed.

(** ** The loop over instances *)

(** The conflict one instance of [other] gives. *)
Definition conflictOf (candidate other inst : Window) : option Conflict :=
  match overlapInterval (w_StartTime candidate) (w_EndTime candidate) (w_StartTime inst) (w_EndTime inst) with
  | None => None
  | Some (a, b) => let shared := intersectSorted (w_TargetLabels candidate) (w_TargetLabels inst) in
                   if bool_decide (shared = []) then None else Some (MkConflict (w_ID candidate) (w_ID other) a b shared)
  end.
Definition keyOf (candidate other : Window) : string := pairKey (w_ID candidate) (w_ID other).
Definition record (key : string) (c : Conflict) (acc : found) : found := (acc.1 ++ [c], {[key]} ∪ acc.2).

Lemma tryInstances candidate other acc insts :
  foldl (tryInstance candidate other) acc insts =
    match head (omap (conflictOf candidate other) insts) with
    | Some c => if bool_decide (keyOf candidate other ∈ acc.2) then acc else record (keyOf candidate other) c acc
    | None => acc
    end.
Proof.
  assert (forall acc inst, tryInstance candidate other acc inst =
    match conflictOf candidate other inst with Some c => if bool_decide (keyOf candidate other ∈ acc.2) then acc else record (keyOf candidate other) c acc | None => acc end) as Hone.
  { intros a inst. unfold tryInstance, conflictOf. destruct (overlapInterval _ _ _ _) as [[x y]|]; [|done]. cbv zeta. by destruct (bool_decide (intersectSorted _ _ = [])). }
  revert acc. induction insts as [|i insts IH]; intros acc; [done|]. cbn [foldl]. rewrite IH, Hone. cbn [omap list_omap].
  destruct (conflictOf candidate other i) as [c|] eqn:E; simpl; [|done].
  destruct (decide (keyOf candidate other ∈ acc.2)) as [Hk|Hk].
  - rewrite (bool_decide_eq_true_2 _ Hk). by destruct (head _); rewrite ?(bool_decide_eq_true_2 _ Hk).
  - rewrite (bool_decide_eq_false_2 _ Hk). destruct (head _); [|done]. rewrite bool_decide_eq_true_2 by (unfold record; set_solver). done.
Qed.

(** ** The loop over windows *)

Section loop.
Context (fuel : nat) (candidate : Window).

Definition firstConflict (other : Window) : option Conflict :=
  match expandForOverlap fuel other (w_StartTime candidate) (w_EndTime candidate) with
  | Some insts => head (omap (conflictOf candidate other) insts)
  | None => None
  end.

(** What has been found after [done_] windows. *)
Definition tally (done_ : list Window) (acc : found) : Prop :=
  (forall c, c ∈ acc.1 -> exists o, o ∈ done_ /\ firstConflict o = Some c) /\
  (forall o c, o ∈ done_ -> firstConflict o = Some c -> keyOf candidate o ∈ acc.2) /\
  acc.2 = list_to_set (map (fun c => pairKey (w_ID candidate) (c_WindowBID c)) acc.1) /\
  NoDup (map (fun c => pairKey (w_ID candidate) (c_WindowBID c)) acc.1).

Lemma firstConflict_id o c : firstConflict o = Some c -> c_WindowAID c = w_ID candidate /\ c_WindowBID c = w_ID o.
Proof.
  unfold firstConflict. destruct (expandForOverlap _ _ _ _) as [insts|]; [|done]. induction insts as [|i insts IH]; [done|]. cbn [omap list_omap].
  destruct (conflictOf candidate o i) as [c'|] eqn:E; [|done]. simpl. intros [= ->]. unfold conflictOf in E.
  destruct (overlapInterval _ _ _ _) as [[? ?]|]; [|done]. destruct (bool_decide _); [done|]. by simplify_eq.
Qed.

Lemma tryOther_tally done_ acc o acc' : tally done_ acc -> tryOther fuel candidate (Some acc) o = Some acc' -> tally (done_ ++ [o]) acc'.
Proof.
  intros (Ha & Hb & Hc & Hd). unfold tryOther. destruct (expandForOverlap fuel o _ _) as [insts|] eqn:E; [|done]. intros [= <-].
  rewrite tryInstances. assert (firstConflict o = head (omap (conflictOf candidate o) insts)) as Hf by (unfold firstConflict; by rewrite E).
  rewrite <- Hf. destruct (firstConflict o) as [c|] eqn:Ec.
  - destruct (decide (keyOf candidate o ∈ acc.2)) as [Hk|Hk]; [rewrite bool_decide_eq_true_2 by done|rewrite bool_decide_eq_false_2 by done].
    + split; [|split; [|done]]; [intros c' Hc'; destruct (Ha c' Hc') as (o' & ? & ?); exists o'; set_solver|].
      intros o' c' [Ho| ->%list_elem_of_singleton]%elem_of_app Hc'; [by eapply Hb|done].
    + destruct (firstConflict_id _ _ Ec) as [_ Hid]. unfold record, tally. cbn [fst snd]. repeat split.
      * intros c' [Hc'| ->%list_elem_of_singleton]%elem_of_app; [destruct (Ha c' Hc') as (o' & ? & ?); exists o'; set_solver|exists o; set_solver].
      * intros o' c' [Ho| ->%list_elem_of_singleton]%elem_of_app Hc'; [|set_solver]. specialize (Hb _ _ Ho Hc'). set_solver.
      * rewrite map_app, list_to_set_app_L, <- Hc. cbn. rewrite Hid. unfold keyOf. set_solver.
      * rewrite map_app. apply NoDup_app. split; [done|]. split; [|apply NoDup_singleton]. intros k Hk' ->%list_elem_of_singleton.
        apply Hk. rewrite Hc. apply elem_of_list_to_set. unfold keyOf. by rewrite Hid in Hk'.
  - split; [|split; [|done]]; [intros c' Hc'; destruct (Ha c' Hc') as (o' & ? & ?); exists o'; set_solver|].
    intros o' c' [Ho| ->%list_elem_of_singleton]%elem_of_app Hc'; [by eapply Hb|congruence].
Qed.

Lemma tryOthers_tally done_ os acc :
  tally done_ acc -> (forall o, o ∈ os -> expandForOverlap fuel o (w_StartTime candidate) (w_EndTime candidate) ≠ None) ->
  exists acc', foldl (tryOther fuel candidate) (Some acc) os = Some acc' /\ tally (done_ ++ os) acc'.
Proof.
  revert done_ acc. induction os as [|o os IH]; intros done_ acc Ht Hex; [exists acc; by rewrite app_nil_r|].
  destruct (tryOther fuel candidate (Some acc) o) as [acc1|] eqn:E.
  - destruct (IH (done_ ++ [o]) acc1) as (acc' & Hacc & Ht'); [by eapply tryOther_tally|set_solver|]. exists acc'. rewrite <- app_assoc in Ht'. cbn [foldl].
    by rewrite E.
  - exfalso. unfold tryOther in E. destruct (expandForOverlap fuel o _ _) eqn:Ee; [done|]. by eapply (Hex o); [left|].
Qed.

Lemma tryLabels_flat index ls acc :
  foldl (tryLabel fuel candidate index) acc ls = foldl (tryOther fuel candidate) acc (ls ≫= fun l => default [] (index !! l)).
Proof. revert acc. induction ls as [|l ls IH]; intros acc; [done|]. cbn [foldl mbind list_bind]. by rewrite IH, foldl_app. Qed.
End loop.

(** ** Expansion gives the slots *)

Lemma overlapInterval_spec a b c d x y :
  overlapInterval a b c d = Some (x, y) <-> x = Z.max a c /\ y = Z.min b d /\ x < y.
Proof.
  unfold overlapInterval. cbv zeta. destruct (Z.ltb_spec a c), (Z.ltb_spec d b); destruct (Z.ltb_spec (if true then c else a) 0);
    repeat match goal with |- context [?u <? ?v] => destruct (Z.ltb_spec u v) end; cbn [negb]; (split; [intros [= <- <-]; lia|intros (-> & -> & ?); try lia; do 2 f_equal; lia]) ||
    (split; [done|lia]).
Qed.

Lemma expand_slots fuel candidate w :
  w_StartTime candidate <= w_EndTime candidate -> ParseCron fuel (w_CronExpr w) ≠ None -> expandable fuel candidate w ->
  exists insts, expandForOverlap fuel w (w_StartTime candidate) (w_EndTime candidate) = Some insts
    /\ (forall i, i ∈ insts -> w_TargetLabels i = w_TargetLabels w /\ slotOf fuel w (w_StartTime i) (w_EndTime i))
    /\ (forall a b, slotOf fuel w a b -> overlap candidate a b -> exists i, i ∈ insts /\ w_StartTime i = a /\ w_EndTime i = b).
Proof.
  intros Hle Hp He. unfold expandForOverlap, slotOf, overlap. destruct (String.eqb_spec (w_CronExpr w) "") as [Hc|Hc].
  - eexists. split; [done|]. destruct ((w_EndTime w <? w_StartTime candidate) || (w_EndTime candidate <? w_StartTime w)) eqn:E.
    + split; [set_solver|]. intros a b [-> ->] Ho. exfalso. apply orb_true_iff in E as [E|E]; boolp; lia.
    + split; [intros i ->%list_elem_of_singleton; done|]. intros a b [-> ->] _. exists w. split; [left|done].
  - destruct (ParseCron fuel (w_CronExpr w)) as [[e|c]|] eqn:E; [| |done].
    + exists [w]. unfold ExpandWindow. pose proof (slot_pos w). destruct (Z.ltb_spec (w_StartTime candidate - slot w) (w_EndTime candidate)); [|lia]. cbn [negb].
      rewrite (proj2 (String.eqb_neq _ _) Hc), E. split; [done|]. split; [intros i ->%list_elem_of_singleton; done|]. intros a b [-> ->] _. exists w. split; [left|done].
    + destruct (He c Hc E) as [Hd Hn]. cbv zeta in *. pose proof (slot_pos w) as Hs. rewrite (expand_exact fuel w c) by (done || lia).
      eexists. split; [done|]. set (cursor := TruncateMinute (w_StartTime candidate - slot w - slot w)) in *.
      pose proof (truncate_aligned (w_StartTime candidate - slot w - slot w)) as Hal. pose proof (truncate_bounds (w_StartTime candidate - slot w - slot w)) as Hb.
      fold cursor in Hal, Hb. rewrite take_ge by done.
      assert (forall t, t ∈ occurrences c cursor (w_EndTime candidate) <-> cursor < t < w_EndTime candidate /\ aligned t /\ written (w_CronExpr w) t) as Hin.
      { intros t. unfold occurrences. rewrite list_elem_of_filter, elem_of_minutes, (matches_written _ _ _ _ E) by done. naive_solver. }
      split.
      * intros i (k & Hi)%list_elem_of_lookup_1. rewrite list_lookup_imap in Hi. apply fmap_Some in Hi as (t & Ht & ->). cbn.
        apply list_elem_of_lookup_2, Hin in Ht. naive_solver.
      * intros a b (Ha & Hw & ->) Ho. assert (a ∈ occurrences c cursor (w_EndTime candidate)) as (k & Hk)%list_elem_of_lookup_1 by (apply Hin; split; [lia|done]).
        eexists. split; [apply (list_elem_of_lookup_2 _ k); rewrite list_lookup_imap, Hk; done|done].
Qed.

Lemma head_omap_Some {A B} (f : A -> option B) l y : head (omap f l) = Some y -> exists x, x ∈ l /\ f x = Some y.
Proof.
  induction l as [|x l IH]; [done|]. cbn [omap list_omap]. destruct (f x) as [z|] eqn:E; simpl; [intros [= ->]; exists x; set_solver|].
  intros H. destruct (IH H) as (x' & ? & ?). exists x'. set_solver.
Qed.
Lemma head_omap_None {A B} (f : A -> option B) l x : head (omap f l) = None -> x ∈ l -> f x = None.
Proof.
  induction l as [|z l IH]; [set_solver|]. cbn [omap list_omap]. destruct (f z) as [y|] eqn:E; [done|]. intros H [->|Hx]%elem_of_cons; auto.
Qed.

Lemma ids_inj (l : list Window) x y : NoDup (map w_ID l) -> x ∈ l -> y ∈ l -> w_ID x = w_ID y -> x = y.
Proof.
  induction l as [|z l IH]; [set_solver|]. cbn [map]. intros [Hz Hl]%NoDup_cons Hx Hy He.
  apply elem_of_cons in Hx as [->|Hx], Hy as [->|Hy]; [done| | |by apply IH]; destruct Hz; [rewrite He|rewrite <- He]; by apply list_elem_of_fmap_2.
Qed.

Lemma intersectSorted_spec a b x : x ∈ intersectSorted a b <-> x ∈ a /\ x ∈ b.
Proof. unfold intersectSorted, sortStrings. rewrite merge_sort_Permutation, unique_spec, list_elem_of_filter. set_solver. Qed.

(** A conflict as reported: the pair, the shared labels in order, and the
    overlap with one of the other window's slots. *)
Definition reports (fuel : nat) (candidate w : Window) (c : Conflict) : Prop :=
  c_WindowAID c = w_ID candidate /\ c_WindowBID c = w_ID w /\ c_SharedTargets c = intersectSorted (w_TargetLabels candidate) (w_TargetLabels w)
  /\ exists a b, slotOf fuel w a b /\ overlap candidate a b /\ c_OverlapStart c = Z.max (w_StartTime candidate) a /\ c_OverlapEnd c = Z.min (w_EndTime candidate) b.

Lemma firstConflict_spec fuel candidate w :
  w_StartTime candidate <= w_EndTime candidate -> ParseCron fuel (w_CronExpr w) ≠ None -> expandable fuel candidate w -> sharing candidate w ->
  match firstConflict fuel candidate w with
  | Some c => reports fuel candidate w c
  | None => forall a b, slotOf fuel w a b -> ~ overlap candidate a b
  end.
Proof.
  intros Hle Hp He (x & Hx & Hx'). destruct (expand_slots fuel candidate w Hle Hp He) as (insts & Hex & Hsound & Hall).
  unfold firstConflict. rewrite Hex. assert (intersectSorted (w_TargetLabels candidate) (w_TargetLabels w) ≠ []) as Hsh.
  { intros Hnil. apply (not_elem_of_nil x). rewrite <- Hnil. by apply intersectSorted_spec. }
  destruct (head (omap (conflictOf candidate w) insts)) as [c|] eqn:E.
  - apply head_omap_Some in E as (i & Hi & Hc). destruct (Hsound i Hi) as [Hl Hs]. unfold conflictOf in Hc. rewrite Hl in Hc.
    destruct (overlapInterval _ _ _ _) as [[a b]|] eqn:Eo; [|done]. apply overlapInterval_spec in Eo as (-> & -> & Ho). cbv zeta in Hc.
    rewrite bool_decide_eq_false_2 in Hc by done. injection Hc as <-. unfold reports. cbn. repeat split. by exists (w_StartTime i), (w_EndTime i).
  - intros a b Hs Ho. destruct (Hall a b Hs Ho) as (i & Hi & <- & <-). apply (head_omap_None _ _ _ E) in Hi as Hc. unfold conflictOf in Hc.
    destruct (Hsound i Hi) as [Hl _]. rewrite Hl in Hc.
    rewrite (proj2 (overlapInterval_spec _ _ _ _ _ _) (conj eq_refl (conj eq_refl Ho))) in Hc. cbv zeta in Hc. by rewrite bool_decide_eq_false_2 in Hc.
Qed.

#[local] Instance conflictOrder_trans : Transitive conflictOrder.
Proof. intros x y z. unfold conflictOrder. intros [?|[? H1]] [?|[? H2]]; [left; lia|left; lia|left; lia|right; split; [lia|by etrans]]. Qed.
#[local] Instance conflictOrder_total : Total conflictOrder.
Proof.
  intros x y. unfold conflictOrder. destruct (Z.lt_trichotomy (c_OverlapStart x) (c_OverlapStart y)) as [?|[?|?]]; [by left; left| |by right; left].
  destruct (total String.le (c_WindowBID x) (c_WindowBID y)); [left; right; done|right; right; done].
Qed.


Definition sampleCandidate : Window := planCandidate ["prod"; "eu"] (at_ 2026 3 16 2 0) (2 * hour).
Definition sampleWeekly : Window :=
  MkWindow "cw-1" "weekly" (at_ 2026 1 5 3 0) (at_ 2026 1 5 4 0) ["eu"; "stage"] false "weekly" "0 3 * * 1" 0 0.


Example weekly_conflict :
  detectConflicts 60 sampleCandidate [sampleWeekly] =
    Some [MkConflict "__plan_candidate__" "cw-1" (at_ 2026 3 16 3 0) (at_ 2026 3 16 4 0) ["eu"]].
Proof. by vm_compute. Qed.

(** ** What the report misses *)

(** Two windows whose identifiers hold bars can share a pair key: the second
    is not reported. *)
Example pair_keys_collide :
  let at_id i := MkWindow i "w" 0 hour ["prod"] false "" "" 0 0 in
  pairKey "a|b|a" "b|a" = pairKey "a|b|a" "a|b"
  /\ (map c_WindowBID <$> detectConflicts 60 (at_id "a|b|a") [at_id "b|a"; at_id "a|b"]) = Some ["b|a"].
Proof. by vm_compute. Qed.

(** A window that recurs every minute with a slot of a day: the thousand
    occurrences expanded all end before the candidate starts. *)
Definition everyMinute : CronSchedule :=
  MkSchedule (map Z.of_nat (seq 0 60)) (map Z.of_nat (seq 0 24)) (map Z.of_nat (seq 1 31)) (map Z.of_nat (seq 1 12)) [0; 1; 2; 3; 4; 5; 6] false false "* * * * *".

Lemma upto_spec a n v : contains (map Z.of_nat (seq a n)) v = true <-> Z.of_nat a <= v < Z.of_nat (a + n).
Proof.
  rewrite contains_spec.
  - rewrite list_elem_of_fmap. setoid_rewrite elem_of_seq. split; [intros (k & -> & ?); lia|]. intros ?. exists (Z.to_nat v). lia.
  - apply StronglySorted_fmap with (R1 := le); [intros; lia|]. revert a. induction n as [|n IH]; intros a; [constructor|]. cbn. constructor; [done|].
    apply Forall_forall. intros x Hx%elem_of_seq. lia.
Qed.

Lemma everyMinute_matches t : matches everyMinute t = true.
Proof.
  unfold matches, everyMinute. cbn [cs_minute cs_hour cs_month cs_dom cs_dow cs_domRestricted cs_dowRestricted andb].
  destruct (date_range (dayNumber t)) as (Hm & _).
  rewrite !(proj2 (upto_spec _ _ _)); [done| | |]; unfold Minute, Hour, Month; [lia|pose proof (Z.mod_pos_bound (t / hour) 24); lia|pose proof (Z.mod_pos_bound (t / minute) 60); lia].
Qed.

Lemma everyMinute_next a : aligned a -> NextOccurrence (Some everyMinute) a = inr (a + minute).
Proof.
  intros Ha. pose proof (next_from everyMinute a) as Hn. pose proof minute_pos. pose proof (aligned_step _ Ha).
  destruct (NextOccurrence (Some everyMinute) a) as [e|t].
  - exfalso. assert (matches everyMinute (a + minute) = false) as Hf by (apply Hn; [split; [lia|]; unfold fiveYears, hour, minute, second; lia|done]).
    by rewrite everyMinute_matches in Hf.
  - destruct Hn as (_ & Hat & Hal & _ & Hu). f_equal. apply Z.le_antisymm; [|by apply aligned_next].
    destruct (Z.le_gt_cases t (a + minute)); [done|]. exfalso. apply (Hu (a + minute)); [lia|done|apply everyMinute_matches].
Qed.

Lemma everyMinute_ends n base i cursor from to dur w :
  aligned cursor -> w ∈ expandLoop n base everyMinute i cursor from to dur -> w_EndTime w <= cursor + Z.of_nat n * minute + dur.
Proof.
  pose proof minute_pos. revert i cursor. induction n as [|n IH]; intros i cursor Ha Hw; cbn [expandLoop] in Hw; [set_solver|].
  rewrite everyMinute_next in Hw by done. destruct (negb (cursor + minute <? to)); [set_solver|].
  apply elem_of_app in Hw as [Hw|Hw]; [|specialize (IH _ _ (aligned_step _ Ha) Hw); lia].
  destruct (negb _ && _); [|set_solver]. apply list_elem_of_singleton in Hw as ->. cbn. nia.
Qed.

Definition dense : Window := MkWindow "cw-1" "dense" 0 day ["prod"] false "" "* * * * *" 0 0.
Definition denseCandidate (start : Z) : Window := planCandidate ["prod"] start 0.

Example dense_window_missed start :
  aligned start -> conflicting 60 (denseCandidate start) dense /\ detectConflicts 60 (denseCandidate start) [dense] = Some [].
Proof.
  intros Hs. assert (ParseCron 60 "* * * * *" = Some (inr everyMinute)) as Hp by (by vm_compute). assert (slot dense = day) as Hd by done. split.
  - split; [done|]. split; [exists "prod"; split; left|]. exists start, (start + day). unfold slotOf. cbn [w_CronExpr dense]. rewrite Hp. split.
    + change (String.eqb "* * * * *" "") with false. cbn iota. split; [done|]. split; [|by rewrite Hd]. apply (matches_written _ _ _ _ Hp), everyMinute_matches.
    + unfold overlap, denseCandidate, planCandidate. cbn. unfold day, hour, minute, second. lia.
  - assert (exists insts, expandForOverlap 60 dense start (start + second) = Some insts /\ forall i, i ∈ insts -> w_EndTime i <= start) as (insts & He & Hi).
    { unfold expandForOverlap, ExpandWindow. cbn [w_CronExpr dense]. change (String.eqb "* * * * *" "") with false. cbn iota. rewrite Hp, Hd.
      destruct (Z.ltb_spec (start - day) (start + second)) as [_|Hf]; [|exfalso; unfold day, hour, minute, second in Hf; lia]. cbn [negb].
      eexists. split; [done|]. intros i Hi. apply everyMinute_ends in Hi; [|apply truncate_aligned].
      pose proof (truncate_bounds (start - day - day)) as Hb. unfold maxInstances in Hi. unfold day, hour, minute, second in *. lia. }
    assert (foldl (tryInstance (denseCandidate start) dense) ([], ∅) insts = ([], ∅)) as Hf.
    { rewrite tryInstances. destruct (head (omap _ insts)) as [c|] eqn:E; [|done]. exfalso. apply head_omap_Some in E as (i & Hin & Hc).
      specialize (Hi i Hin). unfold conflictOf in Hc. destruct (overlapInterval _ _ _ _) as [[a b]|] eqn:Eo; [|done].
      apply overlapInterval_spec in Eo as (-> & -> & Ho). cbn in Ho. lia. }
    unfold detectConflicts. cbv zeta. change (uniqueSorted _) with ["prod"]. cbn [foldl]. unfold tryLabel.
    change (default [] (labelIndex (denseCandidate start) [dense] !! "prod")) with [dense]. cbn [foldl]. unfold tryOther.
    change (w_StartTime (denseCandidate start)) with start. change (w_EndTime (denseCandidate start)) with (start + second). rewrite He, Hf. done.
Qed.
End Conflict.
