(* ===== verification/Json.v ===== *)
(** * Json: what [json.Marshal] writes

    The output of Go's encoding/json for the values the plan hash is taken of:
    literals, numbers as their text, strings with the default escapes
    (including [<], [>], [&] and the line separators), arrays and objects.
    A byte that is not UTF-8 is written as the replacement character. The
    theorem of the file: on text in UTF-8 the writing determines the value. *)

From Stdlib Require Import Lia Ascii String.
From stdpp Require Import base sets list strings.
From S2P Require Import Prelude Condition.
Open Scope string_scope.
Open Scope list_scope.

Module Json.

(** ** UTF-8 *)

Definition code (c : ascii) : nat := nat_of_ascii c.
Definition within (lo hi : nat) (c : ascii) : bool := (lo <=? code c)%nat && (code c <=? hi)%nat.
Definition cont : ascii -> bool := within 128 191.

(** The width of the rune at the start of [s]; 0 if there is none. *)
Definition width (s : string) : nat :=
  match s with
  | EmptyString => 0
  | String a r =>
      if (code a <? 128)%nat then 1
      else match r with
           | EmptyString => 0
           | String b r =>
               if within 194 223 a then if cont b then 2 else 0
               else match r with
                    | EmptyString => 0
                    | String c r =>
                        let second3 := if (code a =? 224)%nat then within 160 191 b else if (code a =? 237)%nat then within 128 159 b else cont b in
                        if within 224 239 a then if second3 && cont c then 3 else 0
                        else match r with
                             | EmptyString => 0
                             | String d _ =>
                                 let second4 := if (code a =? 240)%nat then within 144 191 b else if (code a =? 244)%nat then within 128 143 b else cont b in
                                 if within 240 244 a then if second4 && cont c && cont d then 4 else 0 else 0
                             end
                    end
           end
  end.

(** ** Strings *)

Definition quote : ascii := ascii_of_nat 34.
Definition backslash : ascii := ascii_of_nat 92.
Definition hexChar (n : nat) : ascii := ascii_of_nat (if (n <? 10)%nat then 48 + n else 87 + n).
Definition escaped (c : ascii) : string := String backslash (String c "").
Definition unicode (hi lo : string) : string := String backslash ("u" +:+ hi +:+ lo).
Definition lowByte (c : ascii) : string := String (hexChar (code c / 16)) (String (hexChar (code c mod 16)) "").

(** One ASCII byte. *)
Definition escByte (c : ascii) : string :=
  if Ascii.eqb c quote || Ascii.eqb c backslash then escaped c
  else if (code c =? 8)%nat then escaped "b"
  else if (code c =? 12)%nat then escaped "f"
  else if (code c =? 10)%nat then escaped "n"
  else if (code c =? 13)%nat then escaped "r"
  else if (code c =? 9)%nat then escaped "t"
  else if (code c <? 32)%nat || Ascii.eqb c "<" || Ascii.eqb c ">" || Ascii.eqb c "&" then unicode "00" (lowByte c)
  else String c "".

(** U+2028 and U+2029. *)
Definition lineSep (s : string) : option string :=
  match s with
  | String a (String b (String c _)) =>
      if (code a =? 226)%nat && (code b =? 128)%nat then
        if (code c =? 168)%nat then Some (unicode "20" "28") else if (code c =? 169)%nat then Some (unicode "20" "29") else None
      else None
  | _ => None
  end.

(** Within a rune of several bytes the rest is copied, or dropped if the rune
    was escaped. *)
Inductive mode := Copy (n : nat) | Drop (n : nat).
Fixpoint esc (m : mode) (s : string) : string :=
  match s with
  | EmptyString => ""
  | String c r =>
      match m with
      | Copy (S k) => String c (esc (Copy k) r)
      | Drop (S k) => esc (Drop k) r
      | _ => match width s with
             | O => unicode "ff" "fd" +:+ esc (Copy 0) r
             | 1 => escByte c +:+ esc (Copy 0) r
             | S k => match lineSep s with
                      | Some e => e +:+ esc (Drop k) r
                      | None => String c (esc (Copy k) r)
                      end
             end
      end
  end.
Definition quoted (s : string) : string := String quote (esc (Copy 0) s +:+ String quote "").

(** Text that is UTF-8 throughout, [n] bytes into a rune. *)
Fixpoint valid (n : nat) (s : string) : bool :=
  match s with
  | EmptyString => (n =? 0)%nat
  | String c r => match n with
                  | S k => (128 <=? code c)%nat && valid k r
                  | O => match width s with O => false | S k => valid k r end
                  end
  end.
Definition utf8 (s : string) : bool := valid 0 s.

(** ** Values *)

Inductive json := JNull | JBool (b : bool) | JNum (text : string) | JStr (s : string) | JArr (l : list json) | JObj (l : list (string * json)).

(** The rest of a sequence, up to the closing [e]. *)
Fixpoint rest (e : string) (l : list string) : string :=
  match l with [] => e | x :: l => "," +:+ x +:+ rest e l end.
Definition sequence (o e : string) (l : list string) : string :=
  match l with [] => o +:+ e | x :: l => o +:+ x +:+ rest e l end.

Fixpoint marshal (j : json) : string :=
  match j with
  | JNull => "null"
  | JBool b => if b then "true" else "false"
  | JNum t => t
  | JStr s => quoted s
  | JArr l => sequence "[" "]" (map marshal l)
  | JObj l => sequence "{" "}" (map (fun kv => quoted kv.1 +:+ ":" +:+ marshal kv.2) l)
  end.

Example marshal_sample :
  marshal (JObj [("a<b", JArr [JNum "1"; JNull; JBool true]); ("s", JStr (String quote "x"))]) =
    "{" +:+ String quote "a\u003cb" +:+ String quote ":[1,null,true]," +:+ String quote "s" +:+ String quote ":" +:+ String quote "\" +:+ String quote "x" +:+ String quote "}".
Proof. by vm_compute. Qed.

(** ** Reading strings back *)

Definition hexVal (c : ascii) : option nat :=
  if within 48 57 c then Some (code c - 48)%nat else if within 97 102 c then Some (code c - 87)%nat else None.
Definition push (p : string) (r : option (string * string)) : option (string * string) :=
  match r with Some (s, t) => Some (p +:+ s, t) | None => None end.
(** What four hexadecimal digits stand for, as bytes. *)
Definition unescape4 (h : string) : option string :=
  if String.eqb h "2028" then Some (string_of_list_ascii (map ascii_of_nat [226; 128; 168]%nat))
  else if String.eqb h "2029" then Some (string_of_list_ascii (map ascii_of_nat [226; 128; 169]%nat))
  else match h with
       | String _ (String _ (String x (String y ""))) =>
           match hexVal x, hexVal y with Some a, Some b => Some (String (ascii_of_nat (16 * a + b)) "") | _, _ => None end
       | _ => None
       end.
Definition unescape1 (e : ascii) : ascii :=
  if Ascii.eqb e "b" then ascii_of_nat 8 else if Ascii.eqb e "f" then ascii_of_nat 12 else if Ascii.eqb e "n" then ascii_of_nat 10
  else if Ascii.eqb e "r" then ascii_of_nat 13 else if Ascii.eqb e "t" then ascii_of_nat 9 else e.
(** The text up to the closing quote, and what follows it. *)
Fixpoint unquote (s : string) : option (string * string) :=
  match s with
  | EmptyString => None
  | String c r =>
      if Ascii.eqb c quote then Some ("", r)
      else if Ascii.eqb c backslash then
        match r with
        | String e r' =>
            if Ascii.eqb e "u" then
              match r' with
              | String a (String b (String x (String y r''))) =>
                  match unescape4 (String a (String b (String x (String y "")))) with
                  | Some p => push p (unquote r'')
                  | None => None
                  end
              | _ => None
              end
            else push (String (unescape1 e) "") (unquote r')
        | EmptyString => None
        end
      else push (String c "") (unquote r)
  end.

Lemma unquote_byte c r : (code c <? 128)%nat = true -> unquote (escByte c +:+ r) = push (String c "") (unquote r).
Proof. destruct c as [[] [] [] [] [] [] [] []]; intros H; (done || (exfalso; revert H; by vm_compute)). Qed.

Lemma unquote_high c r : (128 <=? code c)%nat = true -> unquote (String c r) = push (String c "") (unquote r).
Proof.
  intros H. cbn [unquote]. destruct (Ascii.eqb_spec c quote) as [->|]; [done|]. destruct (Ascii.eqb_spec c backslash) as [->|]; done.
Qed.

Fixpoint dropBytes (n : nat) (s : string) : string :=
  match n, s with S n, String _ r => dropBytes n r | _, _ => s end.

Lemma push_push p q r : push p (push q r) = push (p +:+ q) r.
Proof. destruct r as [[a b]|]; [|done]. cbn. by rewrite Condition.append_assoc. Qed.

Lemma lineSep_bytes s e : lineSep s = Some e ->
  width s = 3%nat /\ exists p r, s = p +:+ r /\ String.length p = 3%nat /\ dropBytes 2 (dropBytes 1 s) = r /\ forall k, unquote (e +:+ k) = push p (unquote k).
Proof.
  destruct s as [|a [|b [|c r]]]; try done. cbn [lineSep]. destruct (Nat.eqb_spec (code a) 226) as [Ha|]; [|done].
  destruct (Nat.eqb_spec (code b) 128) as [Hb|]; [|done]. cbn [andb].
  assert (a = ascii_of_nat 226) as -> by (by rewrite <- (ascii_nat_embedding a); f_equal). assert (b = ascii_of_nat 128) as -> by (by rewrite <- (ascii_nat_embedding b); f_equal).
  destruct (Nat.eqb_spec (code c) 168) as [Hc|]; [|destruct (Nat.eqb_spec (code c) 169) as [Hc|]; [|done]]; intros [= <-].
  - assert (c = ascii_of_nat 168) as -> by (by rewrite <- (ascii_nat_embedding c); f_equal). split; [done|].
    exists (string_of_list_ascii (map ascii_of_nat [226; 128; 168]%nat)), r. done.
  - assert (c = ascii_of_nat 169) as -> by (by rewrite <- (ascii_nat_embedding c); f_equal). split; [done|].
    exists (string_of_list_ascii (map ascii_of_nat [226; 128; 169]%nat)), r. done.
Qed.

Lemma width_one c r : width (String c r) = 1%nat -> (code c <? 128)%nat = true.
Proof.
  cbn [width]. destruct (code c <? 128)%nat; [done|]. cbv zeta. repeat case_match; done.
Qed.
Lemma width_high c r k : width (String c r) = S (S k) -> (128 <=? code c)%nat = true.
Proof. cbn [width]. destruct (Nat.ltb_spec (code c) 128); [done|]. intros _. by apply Nat.leb_le. Qed.

Definition bytesIn (m : mode) : nat := match m with Copy n | Drop n => n end.
Definition kept (m : mode) (s : string) : string := match m with Copy _ => s | Drop n => dropBytes n s end.

Lemma unquote_esc m s r : valid (bytesIn m) s = true -> unquote (esc m s +:+ String quote r) = Some (kept m s, r).
Proof.
  revert m. induction s as [|c s IH]; intros m Hv; [by destruct m as [[|]|[|]]|].
  assert (valid 0 (String c s) = true -> unquote (esc (Copy 0) (String c s) +:+ String quote r) = Some (String c s, r)) as Hzero.
  { clear Hv. intros Hv. cbn [valid] in Hv. cbn [esc]. destruct (width (String c s)) as [|[|k]] eqn:Ew; [done| |].
    - rewrite Condition.append_assoc, unquote_byte by (by eapply width_one). rewrite (IH (Copy 0)) by done. done.
    - destruct (lineSep (String c s)) as [e|] eqn:El.
      + apply lineSep_bytes in El as (Hw & p & q & Hs & Hp & Hd & Hun). rewrite Ew in Hw. injection Hw as ->.
        rewrite Condition.append_assoc, Hun, (IH (Drop 2)) by done. cbn [kept push]. cbn [dropBytes] in Hd. cbn [dropBytes]. by rewrite Hd, <- Hs.
      + rewrite Condition.append_cons, unquote_high by (by eapply width_high). rewrite (IH (Copy (S k))) by done. done. }
  destruct m as [[|k]|[|k]]; [by apply Hzero| |by apply Hzero|].
  - cbn [valid bytesIn] in Hv. apply andb_true_iff in Hv as [Hc Hv]. cbn [esc]. rewrite Condition.append_cons, unquote_high by done. by rewrite (IH (Copy k)).
  - cbn [valid bytesIn] in Hv. apply andb_true_iff in Hv as [Hc Hv]. cbn [esc]. rewrite (IH (Drop k)) by done. done.
Qed.

Lemma quoted_inj s s' r r' : utf8 s = true -> utf8 s' = true -> quoted s +:+ r = quoted s' +:+ r' -> s = s' /\ r = r'.
Proof.
  unfold quoted. rewrite !Condition.append_cons, !Condition.append_assoc.
  change (String quote "" +:+ r) with (String quote r). change (String quote "" +:+ r') with (String quote r'). intros Hs Hs' [= H].
  pose proof (unquote_esc (Copy 0) s r Hs) as E. rewrite H in E. rewrite (unquote_esc (Copy 0) s' r' Hs') in E. cbn in E. by simplify_eq.
Qed.

(** ** Writing determines the value *)

Definition numChar (c : ascii) : bool := within 48 57 c || Condition.oneOf ["-"; "+"; "."; "e"; "E"]%char c.
(** Text that can stand for a number: it starts with a digit or a sign. *)
Definition number (t : string) : bool :=
  match t with
  | String c r => (within 48 57 c || Ascii.eqb c "-") && forallb numChar (list_ascii_of_string r)
  | EmptyString => false
  end.

Fixpoint wf (j : json) : bool :=
  match j with
  | JNull | JBool _ => true
  | JNum t => number t
  | JStr s => utf8 s
  | JArr l => forallb wf l
  | JObj l => forallb (fun kv => utf8 kv.1 && wf kv.2) l
  end.

(** Induction through arrays and objects. *)
Section json_ind.
Context (P : json -> Prop) (Hnull : P JNull) (Hbool : forall b, P (JBool b)) (Hnum : forall t, P (JNum t)) (Hstr : forall s, P (JStr s))
  (Harr : forall l, Forall P l -> P (JArr l)) (Hobj : forall l, Forall (fun kv => P kv.2) l -> P (JObj l)).
Fixpoint json_nested (j : json) : P j :=
  match j with
  | JNull => Hnull
  | JBool b => Hbool b
  | JNum t => Hnum t
  | JStr s => Hstr s
  | JArr l => Harr l ((fix go l := match l return Forall P l with [] => Forall_nil_2 P | x :: l => Forall_cons_2 P x l (json_nested x) (go l) end) l)
  | JObj l => Hobj l ((fix go l := match l return Forall (fun kv => P kv.2) l with
                                  | [] => Forall_nil_2 _ | x :: l => Forall_cons_2 (fun kv => P kv.2) x l (json_nested x.2) (go l) end) l)
  end.
End json_ind.

(** What can follow a value. *)
Definition delim (r : string) : Prop := match r with EmptyString => True | String c _ => c = ","%char \/ c = "]"%char \/ c = "}"%char end.

Lemma delim_number c r : delim (String c r) -> numChar c = false.
Proof. by intros [->|[->| ->]]. Qed.

Lemma number_inj t t' r r' : number t = true -> number t' = true -> delim r -> delim r' -> t +:+ r = t' +:+ r' -> t = t' /\ r = r'.
Proof.
  assert (forall t t', forallb numChar (list_ascii_of_string t) = true -> forallb numChar (list_ascii_of_string t') = true -> delim r -> delim r' ->
    t +:+ r = t' +:+ r' -> t = t' /\ r = r') as Hgen.
  { clear t t'. induction t as [|c t IH]; intros t' Ht Ht' Hr Hr' H.
    - destruct t' as [|c t']; [done|]. rewrite Condition.append_cons in H. change ("" +:+ r) with r in H. subst r. apply delim_number in Hr. cbn in Ht'. rewrite Hr in Ht'. done.
    - destruct t' as [|c' t']; [rewrite Condition.append_cons in H; change ("" +:+ r') with r' in H; subst r'; apply delim_number in Hr'; cbn in Ht; by rewrite Hr' in Ht|].
      rewrite !Condition.append_cons in H. injection H as <- H. cbn in Ht, Ht'. apply andb_true_iff in Ht as [_ Ht], Ht' as [_ Ht'].
      by destruct (IH t' Ht Ht' Hr Hr' H) as [-> ->]. }
  intros Ht Ht'. apply Hgen.
  - destruct t as [|c t]; [done|]. cbn in *. apply andb_true_iff in Ht as [Hc Ht]. rewrite Ht, andb_true_r. unfold numChar.
    apply orb_true_iff in Hc as [->|Hc]; [done|]. apply Ascii.eqb_eq in Hc as ->. done.
  - destruct t' as [|c t']; [done|]. cbn in *. apply andb_true_iff in Ht' as [Hc Ht']. rewrite Ht', andb_true_r. unfold numChar.
    apply orb_true_iff in Hc as [->|Hc]; [done|]. apply Ascii.eqb_eq in Hc as ->. done.
Qed.

(** The first character tells the kinds of value apart. *)
Inductive kind := KWord | KNum | KStr | KArr | KObj.
Definition kindOf (j : json) : kind := match j with JNull | JBool _ => KWord | JNum _ => KNum | JStr _ => KStr | JArr _ => KArr | JObj _ => KObj end.
Definition starts (c : ascii) : option kind :=
  if Ascii.eqb c quote then Some KStr else if Ascii.eqb c "[" then Some KArr else if Ascii.eqb c "{" then Some KObj
  else if Ascii.eqb c "n" || Ascii.eqb c "t" || Ascii.eqb c "f" then Some KWord
  else if within 48 57 c || Ascii.eqb c "-" then Some KNum else None.

Lemma marshal_starts j : wf j = true -> exists c t, marshal j = String c t /\ starts c = Some (kindOf j).
Proof.
  destruct j as [|b|t|s|l|l]; cbn [wf marshal]; intros Hw.
  - by eexists _, _.
  - destruct b; by eexists _, _.
  - destruct t as [|c t]; [done|]. exists c, t. split; [done|]. cbn in Hw. apply andb_true_iff in Hw as [Hc _]. unfold starts. cbn [kindOf].
    destruct (Ascii.eqb_spec c quote) as [->|]; [done|]. destruct (Ascii.eqb_spec c "[") as [->|]; [done|]. destruct (Ascii.eqb_spec c "{") as [->|]; [done|].
    destruct (Ascii.eqb_spec c "n") as [->|]; [done|]. destruct (Ascii.eqb_spec c "t") as [->|]; [done|]. destruct (Ascii.eqb_spec c "f") as [->|]; [done|].
    cbn [orb]. by rewrite Hc.
  - by eexists _, _.
  - destruct l; by eexists _, _.
  - destruct l; by eexists _, _.
Qed.

(** Elements that can be read one at a time give sequences that can. *)
Section sequences.
Context {A : Type} (put : A -> string) (ok : A -> bool) (o e : ascii) (He : e = "]"%char \/ e = "}"%char).
Definition readable (x : A) : Prop :=
  forall y r r', ok x = true -> ok y = true -> delim r -> delim r' -> put x +:+ r = put y +:+ r' -> x = y /\ r = r'.
Context (Hhead : forall x c t, ok x = true -> put x = String c t -> c ≠ e) (Hne : forall x, ok x = true -> put x ≠ "").

Lemma rest_delim l r : delim (rest (String e "") l +:+ r).
Proof using He. destruct l; cbn; [by right|by left]. Qed.

Lemma rest_inj l l' r r' :
  Forall readable l -> forallb ok l = true -> forallb ok l' = true ->
  rest (String e "") (map put l) +:+ r = rest (String e "") (map put l') +:+ r' -> l = l' /\ r = r'.
Proof using He.
  intros Hl. revert l' r r'. induction Hl as [|x l Hx Hl IH]; intros l' r r' Hok Hok' H.
  - destruct l' as [|y l']; cbn in H; [by injection H|]. exfalso. injection H as H. destruct He; congruence.
  - destruct l' as [|y l']; cbn in H; [exfalso; injection H as H; destruct He; congruence|]. injection H as H. rewrite !Condition.append_assoc in H.
    cbn in Hok, Hok'. apply andb_true_iff in Hok as [Hox Hok], Hok' as [Hoy Hok'].
    destruct (Hx _ _ _ Hox Hoy (rest_delim _ _) (rest_delim _ _) H) as [-> H']. by destruct (IH _ _ _ Hok Hok' H') as [-> ->].
Qed.

Lemma sequence_inj l l' r r' :
  Forall readable l -> forallb ok l = true -> forallb ok l' = true ->
  sequence (String o "") (String e "") (map put l) +:+ r = sequence (String o "") (String e "") (map put l') +:+ r' -> l = l' /\ r = r'.
Proof using He Hhead Hne.
  intros Hl Hok Hok' H. destruct l as [|x l], l' as [|y l']; cbn in H; injection H as H; [done| | |].
  - exfalso. cbn in Hok'. apply andb_true_iff in Hok' as [Hy _]. destruct (put y) as [|c t] eqn:E; [by eapply Hne|].
    rewrite !Condition.append_cons in H. injection H as <- _. by eapply Hhead.
  - exfalso. cbn in Hok. apply andb_true_iff in Hok as [Hx _]. destruct (put x) as [|c t] eqn:E; [by eapply Hne|].
    rewrite !Condition.append_cons in H. injection H as -> _. by eapply Hhead.
  - rewrite !Condition.append_assoc in H. cbn in Hok, Hok'. apply andb_true_iff in Hok as [Hox Hok], Hok' as [Hoy Hok']. apply Forall_cons in Hl as [Hx Hl].
    destruct (Hx _ _ _ Hox Hoy (rest_delim _ _) (rest_delim _ _) H) as [-> H']. by destruct (rest_inj _ _ _ _ Hl Hok Hok' H') as [-> ->].
Qed.
End sequences.

Lemma same_kind x y r r' : wf x = true -> wf y = true -> marshal x +:+ r = marshal y +:+ r' -> kindOf x = kindOf y.
Proof.
  intros Hx Hy H. destruct (marshal_starts _ Hx) as (c & t1 & E1 & S1), (marshal_starts _ Hy) as (c' & t2 & E2 & S2).
  rewrite E1, E2, !Condition.append_cons in H. injection H as -> _. rewrite S1 in S2. by injection S2.
Qed.

Lemma pair_read kv : readable marshal wf kv.2 -> readable (fun kv : string * json => quoted kv.1 +:+ ":" +:+ marshal kv.2) (fun kv => utf8 kv.1 && wf kv.2) kv.
Proof.
  destruct kv as [k v]. cbn [fst snd]. intros Hv [k' v'] r r' Hx Hy Hr Hr' H. cbn [fst snd] in *. apply andb_true_iff in Hx as [Hk Hx], Hy as [Hk' Hy].
  rewrite !Condition.append_assoc in H. apply quoted_inj in H as [-> H]; [|done|done]. injection H as H.
  by destruct (Hv v' r r' Hx Hy Hr Hr' H) as [-> ->].
Qed.

Lemma starts_open c k : starts c = Some k -> c ≠ "]"%char /\ c ≠ "}"%char.
Proof. intros H. split; by intros ->. Qed.

Lemma marshal_read j : readable marshal wf j.
Proof.
  induction j as [|b|t|s|l IH|l IH] using json_nested; intros y r r' Hx Hy Hr Hr' H; pose proof (same_kind _ _ _ _ Hx Hy H) as Hk;
    destruct y as [|b'|t'|s'|l'|l']; try done; cbn [marshal wf] in *.
  - by injection H.
  - by destruct b'.
  - by destruct b.
  - destruct b, b'; try done; (split; [done|by injection H]).
  - by destruct (number_inj _ _ _ _ Hx Hy Hr Hr' H) as [-> ->].
  - by destruct (quoted_inj _ _ _ _ Hx Hy H) as [-> ->].
  - apply (sequence_inj marshal wf) in H as [-> ->]; [done|by left| | |done|done|done].
    + intros x c t Hw E. destruct (marshal_starts x Hw) as (c' & t' & E' & S'). rewrite E in E'. injection E' as <- <-. by destruct (starts_open _ _ S').
    + intros x Hw E. destruct (marshal_starts x Hw) as (c' & t' & E' & _). by rewrite E in E'.
  - apply (sequence_inj (fun kv => quoted kv.1 +:+ ":" +:+ marshal kv.2) (fun kv => utf8 kv.1 && wf kv.2)) in H as [-> ->]; [done|by right| | | |done|done].
    + intros x c t _ E. unfold quoted in E. rewrite Condition.append_cons in E. by injection E as <- _.
    + intros x _ E. unfold quoted in E. by rewrite Condition.append_cons in E.
    + eapply Forall_impl; [exact IH|]. intros kv. apply pair_read.
Qed.

Lemma marshal_inj j j' : wf j = true -> wf j' = true -> marshal j = marshal j' -> j = j'.
Proof. intros H H' E. destruct (marshal_read j j' "" "" H H' I I) as [-> _]; [|done]. by rewrite !Condition.append_empty. Qed.

(** Bytes that are not UTF-8 are all written alike. *)
Example invalid_bytes_collide : quoted (String (ascii_of_nat 255) "") = quoted (String (ascii_of_nat 254) "").
Proof. by vm_compute. Qed.
End Json.
