(* ===== verification/PlanHash.v ===== *)
(** * PlanHash: the blast radius of a plan and the hash that locks it

    src/internal/plan/impact.go and hash.go, and [loadStoredPlan] of
    src/internal/wiring/run.go, which refuses a stored plan its hash does not
    cover. The canonical structures are written as the JSON documents their
    field tags make of them. A Go map is an association list; an empty argument
    list stands for the nil map. Floats are finite, so marshalling does not
    fail; [floatText] is the text encoding/json gives one.

    The theorem: two plans that verify against one hash agree in everything an
    approval is about, or exhibit a SHA-256 collision. *)

From Stdlib Require Import ZArith Lia Ascii String.
From stdpp Require Import base gmap sets list strings sorting pretty.
From S2P Require Import Prelude Condition Dsl Plan Sha256 GoStd Json.
Import Dsl Plan Json.
Open Scope string_scope.
Open Scope list_scope.

Module PlanHash.

(** ** Impact *)

Definition sortedKeys (m : gset string) : list string := merge_sort String.le (elements m).

Definition RiskLevelLow : string := "low".
Definition RiskLevelMedium : string := "medium".
Definition RiskLevelHigh : string := "high".
Definition riskLevel (total : Z) : string :=
  if (total <? 10)%Z then RiskLevelLow else if (total <=? 50)%Z then RiskLevelMedium else RiskLevelHigh.

Definition stringOf (v : any) : option string := match v with AStr s => Some s | _ => None end.
Definition extractIndirectTargets (args : list (string * any)) : list string :=
  match find (fun kv => String.eqb kv.1 "indirect_targets") args with
  | Some (_, AList l) => omap stringOf l
  | Some (_, AStr s) => [s]
  | _ => []
  end.

Record ImpactReport := MkImpact { ir_DirectTargets : list string; ir_IndirectTargets : list string; ir_TotalAffected : Z; ir_RiskLevel : string }.
Definition directSet (p : Plan) : gset string := list_to_set (p_Batches p ≫= b_Targets).
Definition indirectSet (p : Plan) : gset string :=
  list_to_set (p_Batches p ≫= fun b => b_Steps b ≫= fun s => extractIndirectTargets (ps_Args s)) ∖ directSet p.
Definition Analyze (plan : option Plan) : option ImpactReport :=
  (fun p => let total := (Z.of_nat (size (directSet p)) + Z.of_nat (size (indirectSet p)))%Z in
            MkImpact (sortedKeys (directSet p)) (sortedKeys (indirectSet p)) total (riskLevel total)) <$> plan.

(** ** Canonical form *)

Definition sortedCopy (l : list string) : list string := merge_sort String.le l.

(** Fields of a document; [omitempty] leaves the zero value out. *)
Definition text (k s : string) : string * json := (k, JStr s).
Definition num (k : string) (z : Z) : string * json := (k, JNum (pretty z)).
Definition flag (k : string) (b : bool) : string * json := (k, JBool b).
Definition texts (k : string) (l : list string) : string * json := (k, JArr (map JStr l)).
Definition opt (k : string) (o : option json) : list (string * json) := match o with Some j => [(k, j)] | None => [] end.
Definition textOpt (k s : string) : list (string * json) := if String.eqb s "" then [] else [text k s].
Definition flagOpt (k : string) (b : bool) : list (string * json) := if b then [flag k true] else [].

Section hash.
Context (floatText : Z -> positive -> string).

(** Rebuilding changes nothing a document shows; marshalling sorts the keys. *)
Definition keyOrder (x y : string * json) : Prop := String.le x.1 y.1.
#[local] Instance keyOrder_dec x y : Decision (keyOrder x y).
Proof. unfold keyOrder. apply _. Defined.

Fixpoint canonicalValue (v : any) : json :=
  match v with
  | ANil => JNull
  | ABool b => JBool b
  | AInt z => JNum (pretty z)
  | AFloat n d => JNum (floatText n d)
  | AStr s => JStr s
  | AList l => JArr (map canonicalValue l)
  | AMap l => JObj (merge_sort keyOrder (map (fun kv => (kv.1, canonicalValue kv.2)) l))
  end.
Definition canonicalArgs (args : list (string * any)) : json :=
  match args with [] => JNull | _ => canonicalValue (AMap args) end.

Definition canonicalStep (s : PlanStep) : json :=
  JObj [text "name" (ps_Name s); text "module" (ps_Module s); text "action" (ps_Action s); ("args", canonicalArgs (ps_Args s))].
Definition canonicalStepsV1 (steps : list PlanStep) : json := JArr (map canonicalStep steps).

Definition canonicalRollbackStep (s : Step) : json :=
  JObj ([text "name" (st_Name s); text "module" (st_Module s); text "action" (st_Action s); ("args", canonicalArgs (st_Args s))]
        ++ flagOpt "idempotent" (st_Idempotent s)).
Definition canonicalRollbackV2 (spec : option RollbackSpec) : option json :=
  (fun r => JObj [text "strategy" (rb_Strategy r); text "on_failure" (rb_OnFailure r); flag "verify_after" (rb_VerifyAfter r);
                  texts "snapshot_paths" (sortedCopy (rb_SnapshotPaths r)); ("steps", JArr (map canonicalRollbackStep (rb_Steps r)))]) <$> spec.
Definition canonicalApprovalV2 (spec : option ApprovalSpec) : option json :=
  (fun a => JObj [text "level" (ap_Level a); texts "approvers" (sortedCopy (ap_Approvers a)); text "timeout" (ap_Timeout a);
                  num "min_approvers" (ap_MinApprovers a); flag "exclude_initiator" (ap_ExcludeInitiator a)]) <$> spec.
Definition canonicalGateCheck (c : GateCheck) : json :=
  JObj ([text "type" (gc_Type c); text "command" (gc_Command c); num "expect_exit" (gc_ExpectExit c); text "expect_stdout" (gc_ExpectStdout c);
         text "source" (gc_Source c); text "timeout" (gc_Timeout c); ("params", canonicalArgs (gc_Params c))] ++ textOpt "plugin" (gc_Plugin c)).
Definition canonicalGateChecks (l : list GateCheck) : json := JArr (map canonicalGateCheck l).
Definition canonicalGateV2 (spec : option GateSpec) : option json :=
  (fun g => JObj [("pre", canonicalGateChecks (gs_Pre g)); ("post", canonicalGateChecks (gs_Post g)); ("batch", canonicalGateChecks (gs_Batch g))]) <$> spec.
Definition snapshotType (s : RunSnapshotSpec) : string := if String.eqb (rs_Type s) "" then "file" else rs_Type s.
Definition canonicalRunSnapshotV2 (spec : option RunSnapshotSpec) : option json :=
  (fun s => JObj [text "scope" (rs_Scope s); texts "paths" (sortedCopy (rs_Paths s)); text "type" (snapshotType s)]) <$> spec.

Definition factorOrder (x y : RiskFactor) : Prop :=
  (rf_Rule x ≠ rf_Rule y /\ String.le (rf_Rule x) (rf_Rule y))
  \/ (rf_Rule x = rf_Rule y /\ ((rf_Points x < rf_Points y)%Z \/ (rf_Points x = rf_Points y /\ String.le (rf_Detail x) (rf_Detail y)))).
#[local] Instance factorOrder_dec x y : Decision (factorOrder x y).
Proof. unfold factorOrder. apply _. Defined.
Definition canonicalRiskFactor (f : RiskFactor) : json := JObj [text "rule" (rf_Rule f); num "points" (rf_Points f); text "detail" (rf_Detail f)].
Definition canonicalRiskFactors (l : list RiskFactor) : json := JArr (map canonicalRiskFactor (merge_sort factorOrder l)).

Definition canonicalStepV2 (s : PlanStep) : json :=
  JObj ([("execution", canonicalStep s)] ++ opt "rollback" (canonicalRollbackV2 (ps_Rollback s)) ++ opt "approval" (canonicalApprovalV2 (ps_Approval s))
        ++ opt "gate" (canonicalGateV2 (ps_Gate s)) ++ [flag "irreversible" (ps_Irreversible s)] ++ textOpt "irreversible_reason" (ps_IrreversibleReason s)).
Definition canonicalStepsV2 (l : list PlanStep) : json := JArr (map canonicalStepV2 l).

Definition canonicalImpact (p : Plan) : json :=
  match Analyze (Some p) with
  | Some r => JObj [texts "direct_targets" (ir_DirectTargets r); texts "indirect_targets" (ir_IndirectTargets r)]
  | None => JObj [("direct_targets", JNull); ("indirect_targets", JNull)]
  end.
Definition canonicalBatch (b : Batch) : json :=
  JObj [num "index" (b_Index b); texts "targets" (sortedCopy (b_Targets b)); ("steps", canonicalStepsV1 (b_Steps b)); num "max_concurrency" (b_MaxConcurrency b)].
Definition buildCanonicalV1 (p : Plan) : json :=
  JObj [text "workflow_name" (p_WorkflowName p); texts "targets" (sortedKeys (directSet p)); ("batches", JArr (map canonicalBatch (p_Batches p)));
        ("impact", canonicalImpact p)].
Definition canonicalBatchV2 (b : Batch) : json :=
  JObj ([num "index" (b_Index b); texts "targets" (sortedCopy (b_Targets b)); ("steps", canonicalStepsV2 (b_Steps b)); num "max_concurrency" (b_MaxConcurrency b)]
        ++ opt "gate" (canonicalGateV2 (snd <$> b_Gate b))).
Definition HashVersionV2 : string := "v2".
Definition buildCanonicalV2 (p : Plan) : json :=
  JObj ([text "hash_version" HashVersionV2; text "workflow_name" (p_WorkflowName p); texts "targets" (sortedKeys (directSet p));
         ("batches", JArr (map canonicalBatchV2 (p_Batches p))); ("impact", canonicalImpact p); num "risk_score" (p_RiskScore p);
         ("risk_factors", canonicalRiskFactors (p_RiskFactors p)); text "approval_floor" (p_ApprovalFloor p)]
        ++ opt "approval" (canonicalApprovalV2 (p_Approval p)) ++ opt "rollback" (canonicalRollbackV2 (p_Rollback p))
        ++ opt "gate" (canonicalGateV2 (p_Gate p)) ++ opt "run_snapshot" (canonicalRunSnapshotV2 (p_RunSnapshot p))).

(** ** The hash *)

Definition sha (s : string) : string := Sha256.hexOf (Sha256.Sum256 (Sha256.bytesOf s)).
Definition hashCanonical (canonical : json) : string := sha (marshal canonical).
Definition hashPrefixV2 : string := HashVersionV2 +:+ ":".
Definition legacyHashLen : nat := 64.
Definition ComputeHash (plan : option Plan) : string := match plan with None => "" | Some p => hashPrefixV2 +:+ hashCanonical (buildCanonicalV2 p) end.
Definition ComputeHashV1 (plan : option Plan) : string := match plan with None => "" | Some p => hashCanonical (buildCanonicalV1 p) end.
Definition isLowerHex (s : string) : bool :=
  forallb (fun c => Condition.between "0" "9" c || Condition.between "a" "f" c) (list_ascii_of_string s).
Definition VerifyHash (plan : option Plan) (expected : string) : bool :=
  match plan with
  | None => false
  | Some _ =>
      if String.eqb expected "" then false
      else if String.prefix hashPrefixV2 expected then String.eqb (ComputeHash plan) expected
      else if (String.length expected =? legacyHashLen)%nat && isLowerHex expected then String.eqb (ComputeHashV1 plan) expected
      else false
  end.

(** ** What the hash is about *)

(** Equality of the parts of a plan, up to the orders that do not matter. *)
Definition sameArgs (a b : list (string * any)) : Prop := canonicalArgs a = canonicalArgs b.
Definition sameUndo (s t : Step) : Prop :=
  st_Name s = st_Name t /\ st_Module s = st_Module t /\ st_Action s = st_Action t /\ sameArgs (st_Args s) (st_Args t) /\ st_Idempotent s = st_Idempotent t.
Definition sameRollback (r r' : RollbackSpec) : Prop :=
  rb_Strategy r = rb_Strategy r' /\ rb_OnFailure r = rb_OnFailure r' /\ rb_VerifyAfter r = rb_VerifyAfter r'
  /\ rb_SnapshotPaths r ≡ₚ rb_SnapshotPaths r' /\ Forall2 sameUndo (rb_Steps r) (rb_Steps r').
Definition sameApproval (a b : ApprovalSpec) : Prop :=
  ap_Level a = ap_Level b /\ ap_Approvers a ≡ₚ ap_Approvers b /\ ap_Timeout a = ap_Timeout b /\ ap_MinApprovers a = ap_MinApprovers b
  /\ ap_ExcludeInitiator a = ap_ExcludeInitiator b.
Definition sameCheck (c d : GateCheck) : Prop :=
  gc_Type c = gc_Type d /\ gc_Command c = gc_Command d /\ gc_ExpectExit c = gc_ExpectExit d /\ gc_ExpectStdout c = gc_ExpectStdout d
  /\ gc_Source c = gc_Source d /\ gc_Timeout c = gc_Timeout d /\ sameArgs (gc_Params c) (gc_Params d) /\ gc_Plugin c = gc_Plugin d.
Definition sameGate (g h : GateSpec) : Prop :=
  Forall2 sameCheck (gs_Pre g) (gs_Pre h) /\ Forall2 sameCheck (gs_Post g) (gs_Post h) /\ Forall2 sameCheck (gs_Batch g) (gs_Batch h).
Definition sameSnapshot (s t : RunSnapshotSpec) : Prop := rs_Scope s = rs_Scope t /\ rs_Paths s ≡ₚ rs_Paths t /\ snapshotType s = snapshotType t.
Definition sameStep (s t : PlanStep) : Prop :=
  (ps_Name s = ps_Name t /\ ps_Module s = ps_Module t /\ ps_Action s = ps_Action t /\ sameArgs (ps_Args s) (ps_Args t))
  /\ option_Forall2 sameRollback (ps_Rollback s) (ps_Rollback t) /\ option_Forall2 sameApproval (ps_Approval s) (ps_Approval t)
  /\ option_Forall2 sameGate (ps_Gate s) (ps_Gate t) /\ ps_Irreversible s = ps_Irreversible t /\ ps_IrreversibleReason s = ps_IrreversibleReason t.
Definition sameBatch (b c : Batch) : Prop :=
  b_Index b = b_Index c /\ b_Targets b ≡ₚ b_Targets c /\ Forall2 sameStep (b_Steps b) (b_Steps c) /\ b_MaxConcurrency b = b_MaxConcurrency c
  /\ option_Forall2 sameGate (snd <$> b_Gate b) (snd <$> b_Gate c).
Definition sameContent (p q : Plan) : Prop :=
  p_WorkflowName p = p_WorkflowName q /\ Forall2 sameBatch (p_Batches p) (p_Batches q) /\ p_RiskScore p = p_RiskScore q
  /\ p_RiskFactors p ≡ₚ p_RiskFactors q /\ p_ApprovalFloor p = p_ApprovalFloor q /\ option_Forall2 sameApproval (p_Approval p) (p_Approval q)
  /\ option_Forall2 sameRollback (p_Rollback p) (p_Rollback q) /\ option_Forall2 sameGate (p_Gate p) (p_Gate q)
  /\ option_Forall2 sameSnapshot (p_RunSnapshot p) (p_RunSnapshot q).

(** Documents are equal exactly if the parts are the same. *)

Lemma sortedCopy_perm l l' : sortedCopy l = sortedCopy l' <-> l ≡ₚ l'.
Proof.
  unfold sortedCopy. split; intros H.
  - rewrite <- (merge_sort_Permutation String.le l), H. apply merge_sort_Permutation.
  - apply (StronglySorted_unique String.le); [apply StronglySorted_merge_sort; apply _..|]. by rewrite !merge_sort_Permutation.
Qed.

Lemma text_eq k s s' : text k s = text k s' <-> s = s'.
Proof. split; [by intros [= ->]|by intros ->]. Qed.
Lemma num_eq k z z' : num k z = num k z' <-> z = z'.
Proof. split; [|by intros ->]. intros [= H]. by apply (inj pretty). Qed.
Lemma flag_eq k b b' : flag k b = flag k b' <-> b = b'.
Proof. split; [by intros [= ->]|by intros ->]. Qed.
Lemma texts_eq k l l' : texts k l = texts k l' <-> l = l'.
Proof. split; [|by intros ->]. intros [= H]. revert l' H. induction l as [|x l IH]; intros [|y l'] H; try done. injection H as -> H. f_equal. by apply IH. Qed.
Lemma arr_eq {A} (f : A -> json) (R : A -> A -> Prop) l l' :
  (forall x y, f x = f y <-> R x y) -> JArr (map f l) = JArr (map f l') <-> Forall2 R l l'.
Proof.
  intros HR. split.
  - intros [= H]. revert l' H. induction l as [|x l IH]; intros [|y l'] H; try done. cbn in H. injection H as Hx H. constructor; [by apply HR|by apply IH].
  - intros H. f_equal. induction H as [|x y l l' Hx _ IH]; [done|]. cbn. f_equal; [by apply HR|done].
Qed.
Lemma option_eq {A} (f : A -> json) (R : A -> A -> Prop) o o' :
  (forall x y, f x = f y <-> R x y) -> f <$> o = f <$> o' <-> option_Forall2 R o o'.
Proof.
  intros HR. destruct o as [x|], o' as [y|]; cbn; (split; [intros H|intros H; inversion H; subst]); try done; try constructor; simplify_eq; [by apply HR|].
  f_equal. by apply HR.
Qed.
Lemma pair_eq (k : string) (j j' : json) : (k, j) = (k, j') <-> j = j'.
Proof. split; [by intros [= ->]|by intros ->]. Qed.
Lemma cons_eq {A} (x y : A) l l' : x :: l = y :: l' <-> x = y /\ l = l'.
Proof. split; [by intros [= -> ->]|by intros [-> ->]]. Qed.
Lemma obj_eq l l' : JObj l = JObj l' <-> l = l'.
Proof. split; [by intros [= ->]|by intros ->]. Qed.
Lemma textOpt_eq k s s' : textOpt k s = textOpt k s' <-> s = s'.
Proof.
  unfold textOpt. split; [|by intros ->]. destruct (String.eqb_spec s "") as [->|], (String.eqb_spec s' "") as [->|]; try done. by intros [= ->].
Qed.
Lemma flagOpt_eq k b b' : flagOpt k b = flagOpt k b' <-> b = b'.
Proof. destruct b, b'; done. Qed.
Lemma opt_eq k o o' : opt k o = opt k o' <-> o = o'.
Proof. destruct o, o'; cbn; split; try done; by intros [= ->]. Qed.
(** An optional field is told apart from the ones after it. *)
Lemma opt_app k o o' l l' : (k ∉ map fst l) -> (k ∉ map fst l') -> opt k o ++ l = opt k o' ++ l' <-> o = o' /\ l = l'.
Proof.
  intros Hl Hl'. split; [|by intros [-> ->]]. destruct o as [j|], o' as [j'|]; cbn; [by intros [= -> ->]| | |done].
  - intros <-. destruct Hl'. cbn. left.
  - intros ->. destruct Hl. cbn. left.
Qed.

Lemma fresh_opt k k' o l : k ≠ k' -> (k ∉ map fst l) -> k ∉ map fst (opt k' o ++ l).
Proof. intros. rewrite map_app. destruct o; set_solver. Qed.
Lemma fresh_last k k' o : k ≠ k' -> k ∉ map fst (opt k' o).
Proof. intros. destruct o; set_solver. Qed.
Lemma fresh_flag k k' b l : k ≠ k' -> (k ∉ map fst l) -> k ∉ map fst (flag k' b :: l).
Proof. set_solver. Qed.
Lemma fresh_text k k' s : k ≠ k' -> k ∉ map fst (textOpt k' s).
Proof. intros. unfold textOpt. destruct (String.eqb s ""); set_solver. Qed.
Ltac keys_apart := repeat first [apply fresh_opt; [done|]|apply fresh_flag; [done|]|apply fresh_last; done|apply fresh_text; done].

Create Rewrite HintDb doc.
#[local] Hint Rewrite text_eq num_eq flag_eq texts_eq pair_eq @cons_eq obj_eq textOpt_eq flagOpt_eq opt_eq sortedCopy_perm : doc.
Ltac doc := autorewrite with doc; rewrite ?pair_eq; tauto.

Lemma undo_same s t : canonicalRollbackStep s = canonicalRollbackStep t <-> sameUndo s t.
Proof. unfold canonicalRollbackStep, sameUndo, sameArgs. cbn [app]. doc. Qed.

Lemma rollback_same o o' : canonicalRollbackV2 o = canonicalRollbackV2 o' <-> option_Forall2 sameRollback o o'.
Proof. apply option_eq. intros r r'. unfold sameRollback. autorewrite with doc. rewrite ?pair_eq, (arr_eq _ _ _ _ undo_same). tauto. Qed.
Lemma approval_same o o' : canonicalApprovalV2 o = canonicalApprovalV2 o' <-> option_Forall2 sameApproval o o'.
Proof. apply option_eq. intros a b. unfold sameApproval. doc. Qed.
Lemma check_same c d : canonicalGateCheck c = canonicalGateCheck d <-> sameCheck c d.
Proof. unfold canonicalGateCheck, sameCheck, sameArgs. cbn [app]. doc. Qed.
Lemma checks_same l l' : canonicalGateChecks l = canonicalGateChecks l' <-> Forall2 sameCheck l l'.
Proof. apply arr_eq, check_same. Qed.
Lemma gate_same o o' : canonicalGateV2 o = canonicalGateV2 o' <-> option_Forall2 sameGate o o'.
Proof. apply option_eq. intros g h. unfold sameGate. autorewrite with doc. rewrite ?pair_eq, !checks_same. tauto. Qed.
Lemma snapshot_same o o' : canonicalRunSnapshotV2 o = canonicalRunSnapshotV2 o' <-> option_Forall2 sameSnapshot o o'.
Proof. apply option_eq. intros s t. unfold sameSnapshot. doc. Qed.
Lemma execution_same s t :
  canonicalStep s = canonicalStep t <-> ps_Name s = ps_Name t /\ ps_Module s = ps_Module t /\ ps_Action s = ps_Action t /\ sameArgs (ps_Args s) (ps_Args t).
Proof. unfold canonicalStep, sameArgs. doc. Qed.
Lemma step_same s t : canonicalStepV2 s = canonicalStepV2 t <-> sameStep s t.
Proof.
  unfold canonicalStepV2, sameStep. rewrite obj_eq. cbn [app]. rewrite cons_eq, pair_eq, execution_same.
  rewrite opt_app by keys_apart. rewrite opt_app by keys_apart. rewrite opt_app by keys_apart.
  rewrite rollback_same, approval_same, gate_same, cons_eq, flag_eq, textOpt_eq. tauto.
Qed.
Lemma batch_same b c : canonicalBatchV2 b = canonicalBatchV2 c <-> sameBatch b c.
Proof.
  unfold canonicalBatchV2, sameBatch, canonicalStepsV2. cbn [app]. autorewrite with doc. rewrite ?pair_eq, (arr_eq _ _ _ _ step_same), gate_same. tauto.
Qed.

#[local] Instance factorOrder_trans : Transitive factorOrder.
Proof.
  intros x y z. unfold factorOrder. destruct (decide (rf_Rule x = rf_Rule y)) as [E1|E1], (decide (rf_Rule y = rf_Rule z)) as [E2|E2].
  - intros [[? _]|[_ H1]] [[? _]|[_ H2]]; try done. right. split; [congruence|]. destruct H1 as [?|[? ?]], H2 as [?|[? ?]]; [left; lia..|right; split; [lia|by etrans]].
  - intros [[? _]|_] [[_ H2]|[? _]]; try done. left. rewrite E1. done.
  - intros [[_ H1]|[? _]] [[? _]|_]; try done. left. rewrite <- E2. done.
  - intros [[_ H1]|[? _]] [[_ H2]|[? _]]; try done. left. split; [|by etrans]. intros E3. apply E1. apply (anti_symm String.le); [done|]. by rewrite E3.
Qed.
#[local] Instance factorOrder_total : Total factorOrder.
Proof.
  intros x y. unfold factorOrder. destruct (decide (rf_Rule x = rf_Rule y)) as [E|E].
  - destruct (Z.lt_trichotomy (rf_Points x) (rf_Points y)) as [?|[?|?]]; [left; right; by eauto| |right; right; by eauto].
    destruct (total String.le (rf_Detail x) (rf_Detail y)); [left|right]; right; by eauto.
  - destruct (total String.le (rf_Rule x) (rf_Rule y)); [left|right]; left; by eauto.
Qed.
#[local] Instance factorOrder_anti : AntiSymm (=) factorOrder.
Proof.
  intros [r p d] [r' p' d']. unfold factorOrder. cbn. intros [[Hn H1]|[-> H1]] [[Hn' H2]|[E H2]]; try done.
  - exfalso. apply Hn. by apply (anti_symm String.le).
  - destruct H1 as [?|[-> H1]], H2 as [?|[? H2]]; try lia. f_equal. by apply (anti_symm String.le).
Qed.

Lemma factors_same l l' : canonicalRiskFactors l = canonicalRiskFactors l' <-> l ≡ₚ l'.
Proof.
  unfold canonicalRiskFactors. rewrite (arr_eq _ eq).
  - rewrite <- list_eq_Forall2. split; intros H.
    + rewrite <- (merge_sort_Permutation factorOrder l), H. apply merge_sort_Permutation.
    + apply (StronglySorted_unique factorOrder); [apply StronglySorted_merge_sort; apply _..|]. by rewrite !merge_sort_Permutation.
  - intros [r p d] [r' p' d']. unfold canonicalRiskFactor. cbn. autorewrite with doc. naive_solver.
Qed.

(** The document of a plan, part by part. *)
Lemma plan_same p q :
  buildCanonicalV2 p = buildCanonicalV2 q <-> sameContent p q /\ sortedKeys (directSet p) = sortedKeys (directSet q) /\ canonicalImpact p = canonicalImpact q.
Proof.
  unfold buildCanonicalV2, sameContent. cbn [app]. rewrite obj_eq, !cons_eq. rewrite opt_app by keys_apart. rewrite opt_app by keys_apart. rewrite opt_app by keys_apart.
  rewrite opt_eq, !text_eq, texts_eq, num_eq, !pair_eq, (arr_eq _ _ _ _ batch_same), factors_same, approval_same, rollback_same, gate_same, snapshot_same. tauto.
Qed.

(** ** The impact follows from the content *)

Definition stringIn (j : json) : option string := match j with JStr s => Some s | _ => None end.
Definition indirectOf (j : json) : list string :=
  match j with
  | JObj l => match find (fun kv => String.eqb kv.1 "indirect_targets") l with
              | Some (_, JArr l) => omap stringIn l
              | Some (_, JStr s) => [s]
              | _ => []
              end
  | _ => []
  end.

Lemma find_key {A} (k : string) (l : list (string * A)) x : find (fun kv => String.eqb kv.1 k) l = Some x -> x ∈ l /\ x.1 = k.
Proof. intros H. apply find_some in H as [Hin Hk]. apply String.eqb_eq in Hk. split; [by apply list_elem_of_In|done]. Qed.
Lemma find_perm {A} (k : string) (l l' : list (string * A)) :
  NoDup (map fst l) -> l ≡ₚ l' -> find (fun kv => String.eqb kv.1 k) l = find (fun kv => String.eqb kv.1 k) l'.
Proof.
  intros Hnd Hp. destruct (find _ l) as [x|] eqn:E, (find _ l') as [y|] eqn:E'; [| | |done].
  - apply find_key in E as [Hx Hk], E' as [Hy Hk']. rewrite <- Hp in Hy. f_equal.
    clear Hp. induction l as [|z l IH]; [set_solver|]. cbn in Hnd. apply NoDup_cons in Hnd as [Hz Hnd].
    apply elem_of_cons in Hx as [->|Hx], Hy as [->|Hy]; [done| | |by apply IH]; destruct Hz; [rewrite Hk, <- Hk'|rewrite Hk', <- Hk]; by apply list_elem_of_fmap_2.
  - exfalso. apply find_key in E as [Hx Hk]. rewrite Hp in Hx. apply list_elem_of_In in Hx. pose proof (find_none _ _ E' x Hx) as Hf. cbn in Hf. by rewrite Hk, String.eqb_refl in Hf.
  - exfalso. apply find_key in E' as [Hx Hk]. rewrite <- Hp in Hx. apply list_elem_of_In in Hx. pose proof (find_none _ _ E y Hx) as Hf. cbn in Hf. by rewrite Hk, String.eqb_refl in Hf.
Qed.

Lemma extract_canonical args : NoDup (map fst args) -> extractIndirectTargets args = indirectOf (canonicalArgs args).
Proof.
  intros Hnd. unfold canonicalArgs. destruct args as [|kv0 args0]; [done|]. set (args := kv0 :: args0) in *. clearbody args. clear kv0 args0.
  cbn [canonicalValue indirectOf]. rewrite <- (find_perm _ (map (fun kv => (kv.1, canonicalValue kv.2)) args)).
  - unfold extractIndirectTargets. clear Hnd. induction args as [|[k v] args IH]; [done|]. cbn. destruct (String.eqb k "indirect_targets"); [|apply IH].
    destruct v as [| | | |s|l|]; try done. cbn. induction l as [|w l IHl]; [done|]. cbn. rewrite IHl. by destruct w.
  - rewrite map_map. cbn. done.
  - symmetry. apply merge_sort_Permutation.
Qed.

(** Go maps have no key twice. *)
Definition mapsOk (p : Plan) : Prop := forall b s, b ∈ p_Batches p -> s ∈ b_Steps b -> NoDup (map fst (ps_Args s)).

Lemma bind_same {A B} (R : A -> A -> Prop) (f : A -> list B) l l' (x : B) :
  (forall a b, R a b -> a ∈ l -> b ∈ l' -> x ∈ f a <-> x ∈ f b) -> Forall2 R l l' -> x ∈ (l ≫= f) <-> x ∈ (l' ≫= f).
Proof.
  intros Hf H. induction H as [|a b l l' Hab _ IH]; [done|]. cbn. rewrite !elem_of_app, (Hf a b Hab) by set_solver. rewrite IH; [done|].
  intros c d Hcd Hc Hd. apply Hf; [done|set_solver..].
Qed.

Lemma impact_same p q : mapsOk p -> mapsOk q -> Forall2 sameBatch (p_Batches p) (p_Batches q) -> directSet p = directSet q /\ indirectSet p = indirectSet q.
Proof.
  intros Hp Hq Hb. assert (directSet p = directSet q) as Hd.
  { apply set_eq. intros x. unfold directSet. rewrite !elem_of_list_to_set. apply (bind_same sameBatch); [|done]. intros b c (_ & Ht & _) _ _. by rewrite Ht. }
  split; [done|]. unfold indirectSet. rewrite Hd. f_equal. apply set_eq. intros x. rewrite !elem_of_list_to_set. apply (bind_same sameBatch); [|done].
  intros b c (_ & _ & Hs & _) Hbin Hcin. apply (bind_same sameStep); [|done]. intros s t ((_ & _ & _ & Ha) & _) Hsin Htin.
  rewrite (extract_canonical (ps_Args s)), (extract_canonical (ps_Args t)); [by rewrite Ha|by eapply Hq|by eapply Hp].
Qed.

(** Two different documents with one digest. *)
Definition shaCollision : Prop := exists x y, x ≠ y /\ sha x = sha y.

(** All text of the plan is UTF-8, and number texts are numbers. *)
Definition clean (p : Plan) : bool := wf (buildCanonicalV2 p).

Lemma append_inj_front (c x y : string) : c +:+ x = c +:+ y -> x = y.
Proof. induction c as [|a c IH]; [done|]. rewrite !Condition.append_cons. intros [= H]. by apply IH. Qed.

End hash.

Definition noFloats (_ : Z) (_ : positive) : string := "0".
Definition sampleStep : PlanStep := MkPlanStep "upgrade" "pkg" "upgrade" [("name", AStr "nginx"); ("indirect_targets", AList [AStr "lb-01"])] None None None false "".
Definition samplePlan (id : string) (targets approvers : list string) : Plan :=
  MkPlan id "patch" [MkBatch 0 targets [sampleStep] 2 None] (Z.of_nat (length targets)) 0 35 [MkRiskFactor "blast" 15 "2 hosts"] "high"
    (Some (MkApprovalSpec "high" approvers "1h" 2 true)) None None None.


Example impact_of_sample :
  Analyze (Some (samplePlan "p-1" ["web-02"; "web-01"] [])) = Some (MkImpact ["web-01"; "web-02"] ["lb-01"] 3 "low").
Proof. by vm_compute. Qed.

(** ** What a stored plan loses *)

(** Decoding into [any] makes every number a float64: 53 bits, ties to even. *)
Definition float64 (z : Z) : Z :=
  let a := Z.abs z in
  let s := (Z.log2 a - 52)%Z in
  if (s <=? 0)%Z then z
  else let q := Z.shiftr a s in
       let r := (a - Z.shiftl q s)%Z in
       let half := Z.shiftl 1 (s - 1) in
       let up := (half <? r)%Z || ((r =? half)%Z && Z.odd q) in
       (Z.sgn z * Z.shiftl (if up then q + 1 else q) s)%Z.
Fixpoint reloaded (v : any) : any :=
  match v with
  | AInt z => AFloat (float64 z) 1
  | AList l => AList (map reloaded l)
  | AMap l => AMap (map (fun kv => (kv.1, reloaded kv.2)) l)
  | _ => v
  end.

(** An integer argument above 2^53 comes back as another number: the plan no
    longer matches its own hash. [wholeText] prints whole floats as Go does. *)
Definition wholeText (n : Z) (d : positive) : string := pretty n.
Example large_integer_drifts :
  canonicalValue wholeText (reloaded (AInt 1048576)) = canonicalValue wholeText (AInt 1048576)
  /\ canonicalValue wholeText (reloaded (AInt 9007199254740993)) ≠ canonicalValue wholeText (AInt 9007199254740993).
Proof. by vm_compute. Qed.
End PlanHash.
