(* ===== verification/Validator.v ===== *)
(** * Validator: which documents are accepted, and what acceptance buys

    The structural validator of src/internal/dsl/validator.go with the run-level
    baseline rules of run_snapshot.go, and the type checker (typechecker.go,
    types.go) that the compiler runs after it. The rollback scope, the dependency
    order, the irreversibility vocabulary and the change window it consults are
    those of Dsl and ChangeWindow. An issue is its code and field; messages are
    for people.

    The theorem ties the front end to the planner: a document that validates is
    one the plan generator accepts, for every target list within the declared
    bounds. *)

From Stdlib Require Import ZArith Lia Ascii String.
From stdpp Require Import base gmap sets list strings pretty.
From S2P Require Import Prelude Condition Dsl Plan ChangeWindow.
Import Dsl.
Open Scope string_scope.
Open Scope list_scope.
Open Scope Z_scope.

Module Validator.

(** ** Documents *)

Record InputParam := MkInputParam { ip_Name : string; ip_Type : string; ip_Default : any; ip_Required : bool; ip_Validate : string }.

(** A workflow with the two blocks the planner does not read. *)
Record Document := MkDocument { d_wf : Workflow; d_Inputs : list InputParam; d_Window : ChangeWindow.Window }.

Definition issue : Type := string * string.
Definition issueOf (v : ValidationError) : issue := (ve_Code v, ve_Field v).
Definition windowIssue (v : ChangeWindow.ValidationError) : issue := (ChangeWindow.ve_Code v, ChangeWindow.ve_Field v).

Definition codeRequiredField := "LE002".
Definition codeBatchStrategy := "LE034".
Definition codePercentRange := "LE031".
Definition codeApprovalLevel := "LE044".
Definition codeMissingTarget := "LE092".
Definition codeMissingStep := "LE093".
Definition codeActionFormat := "LE101".
Definition codeFixedStepNonPositive := "LE102".
Definition codeIrreversibleNotWhitelisted := "LE082".
Definition allowedInputTypes : list string := ["string"; "int"; "duration"; "bool"].
Definition BatchStrategies : list string := [BatchStrategyPercent; BatchStrategyFixed; BatchStrategySerial; BatchStrategyOnePerTarget].
Definition IsBatchStrategy (s : string) : bool := inSet BatchStrategies s.

(** The issue of every element a loop objects to, in order. *)
Definition each {A} (f : nat -> A -> list issue) (l : list A) : list issue := concat (imap f l).
Definition at_ (field : string) (i : nat) : string := field +:+ "[" +:+ pretty i +:+ "]".

(** ** The checks *)

Definition validateInputs (inputs : list InputParam) : list issue :=
  each (fun i p => if String.eqb (ip_Type p) "" then []
                   else if inSet allowedInputTypes (ip_Type p) then [] else [(codeEnumIllegal, at_ "input" i +:+ ".type")]) inputs.
Definition validateTargets (targets : list TargetGroup) : list issue :=
  each (fun i t => match tg_Hosts t with
                   | [] => if String.eqb (tg_Query t) "" then [(codeRequiredField, at_ "target" i)] else []
                   | _ => []
                   end) targets.
Definition validateSteps (steps : list Step) : list issue :=
  each (fun i s =>
          (if String.eqb (st_Name s) "" then [(codeRequiredField, at_ "steps" i +:+ ".name")] else [])
          ++ (if String.eqb (st_Module s) "" && String.eqb (st_Action s) "" then [(codeRequiredField, at_ "steps" i +:+ ".action")]
              else if String.eqb (st_Module s) "" || String.eqb (st_Action s) "" then [(codeActionFormat, at_ "steps" i +:+ ".action")]
              else [])) steps.
Definition validateApproval (a : option ApprovalSpec) : list issue :=
  match a with
  | None => []
  | Some a => if String.eqb (ap_Level a) "" then []
              else if IsApprovalLevel (ap_Level a) then [] else [(codeApprovalLevel, "approval.level")]
  end.
Definition validateBatches (b : BatchConfig) : list issue :=
  if String.eqb (bc_Strategy b) "" then []
  else if negb (IsBatchStrategy (bc_Strategy b)) then [(codeBatchStrategy, "batches.strategy")]
  else if String.eqb (bc_Strategy b) BatchStrategyPercent then
    each (fun i step => if (step <? 1) || (100 <? step) then [(codePercentRange, at_ "batches.steps" i)] else []) (bc_Steps b)
  else if String.eqb (bc_Strategy b) BatchStrategyFixed then
    each (fun i step => if step <=? 0 then [(codeFixedStepNonPositive, at_ "batches.steps" i)] else []) (bc_Steps b)
  else [].

(** [strings.Cut] at the first dot, both parts present. *)
Fixpoint hasDot (s : string) : bool :=
  match s with EmptyString => false | String c r => Ascii.eqb c "." || hasDot r end.
Definition splitWhitelistKey (key : string) : option (string * string) :=
  let '(module, action) := Plan.Cut key in
  if negb (hasDot key) || String.eqb module "" || String.eqb action "" then None else Some (module, action).
Definition allowedKeys (keys : list string) : list string :=
  omap (fun key => match splitWhitelistKey key with Some (m, a) => Some (m +:+ "." +:+ a) | None => None end) keys.
Definition stepKey (s : Step) : string := st_Module s +:+ "." +:+ st_Action s.
Definition judgedIrreversible (policy : PluginActionPolicy) (s : Step) : bool :=
  st_Irreversible s || IsInherentIrreversible (st_Module s) (st_Action s) || JudgesIrreversible policy (st_Module s) (st_Action s).
Definition validateIrreversibleWhitelist (policy : PluginActionPolicy) (wf : Workflow) : list issue :=
  each (fun i key => match splitWhitelistKey key with Some _ => [] | None => [(codeActionFormat, at_ "allow_irreversible" i)] end) (wf_AllowIrreversible wf)
  ++ each (fun i s => if negb (judgedIrreversible policy s) then []
                      else if inSet (allowedKeys (wf_AllowIrreversible wf)) (stepKey s) then []
                      else [(codeIrreversibleNotWhitelisted, at_ "steps" i +:+ ".action")]) (wf_Steps wf).

(** The run-level baseline. *)
Definition codeRunSnapshotScope := "LE098".
Definition codeRunSnapshotNoPaths := "LE099".
Definition codeRunSnapshotType := "LE100".
Definition codeRunSnapshotPathForm := "LE101".
Definition RunSnapshotScopeRun := "run".
Definition RunSnapshotTypes : list string := ["file"; "config"].
Definition absolute (p : string) : bool := match p with String c _ => Ascii.eqb c "/" | EmptyString => false end.
Definition ValidateRunSnapshot (spec : option RunSnapshotSpec) (field : string) : list issue :=
  match spec with
  | None => []
  | Some s =>
      (if String.eqb (rs_Scope s) RunSnapshotScopeRun then [] else [(codeRunSnapshotScope, field +:+ ".scope")])
      ++ match rs_Paths s with [] => [(codeRunSnapshotNoPaths, field +:+ ".paths")] | _ => [] end
      ++ each (fun i p => if String.eqb (Condition.TrimSpace p) "" then [(codeRunSnapshotNoPaths, at_ (field +:+ ".paths") i)]
                          else if absolute p then [] else [(codeRunSnapshotPathForm, at_ (field +:+ ".paths") i)]) (rs_Paths s)
      ++ (if negb (String.eqb (rs_Type s) "") && negb (inSet RunSnapshotTypes (rs_Type s)) then [(codeRunSnapshotType, field +:+ ".type")] else [])
  end.

Section zones.
(** The time-zone database the window consults. *)
Context (LoadLocation : string -> option ChangeWindow.Location).
Definition Validate (policy : PluginActionPolicy) (d : option Document) : list issue :=
  match d with
  | None => [(codeRequiredField, "workflow")]
  | Some d =>
      let wf := d_wf d in
      (if String.eqb (wf_Name wf) "" then [(codeRequiredField, "name")] else [])
      ++ match wf_Targets wf with [] => [(codeMissingTarget, "target")] | _ => [] end
      ++ match wf_Steps wf with [] => [(codeMissingStep, "steps")] | _ => [] end
      ++ validateInputs (d_Inputs d) ++ validateTargets (wf_Targets wf) ++ validateSteps (wf_Steps wf)
      ++ map issueOf (OrderStepsByDependsOn (wf_Steps wf)).2
      ++ validateApproval (wf_Approval wf) ++ validateBatches (wf_Batches wf)
      ++ map issueOf (ValidateRunLevelRollback (wf_Rollback wf) "rollback")
      ++ map windowIssue (ChangeWindow.Check_ LoadLocation (d_Window d))
      ++ ValidateRunSnapshot (wf_Snapshot wf) "snapshot"
      ++ validateIrreversibleWhitelist policy wf
  end.
Definition ValidateStrict (policy : PluginActionPolicy) (d : option Document) : option issue := head (Validate policy d).

(** ** What the validator means *)

Definition sizes_in_range (b : BatchConfig) : Prop :=
  (bc_Strategy b = BatchStrategyPercent -> Forall (fun s => 1 <= s <= 100) (bc_Steps b))
  /\ (bc_Strategy b = BatchStrategyFixed -> Forall (fun s => 0 < s) (bc_Steps b)).
Definition baseline_sound (s : RunSnapshotSpec) : Prop :=
  rs_Scope s = "run" /\ rs_Paths s <> [] /\ rs_Type s ∈ ["" ; "file"; "config"]
  /\ Forall (fun p => Condition.TrimSpace p <> "" /\ absolute p = true) (rs_Paths s).
Record well_formed (policy : PluginActionPolicy) (d : Document) : Prop := MkWellFormed {
  wfd_name : wf_Name (d_wf d) <> "";
  wfd_targets : wf_Targets (d_wf d) <> [];
  wfd_steps : wf_Steps (d_wf d) <> [];
  wfd_inputs : Forall (fun p => ip_Type p ∈ "" :: allowedInputTypes) (d_Inputs d);
  wfd_groups : Forall (fun t => tg_Hosts t <> [] \/ tg_Query t <> "") (wf_Targets (d_wf d));
  wfd_actions : Forall (fun s => st_Name s <> "" /\ st_Module s <> "" /\ st_Action s <> "") (wf_Steps (d_wf d));
  wfd_order : (OrderStepsByDependsOn (wf_Steps (d_wf d))).2 = [];
  wfd_approval : forall a, wf_Approval (d_wf d) = Some a -> ap_Level a ∈ "" :: ApprovalLevels;
  wfd_strategy : Plan.strategy_known (wf_Batches (d_wf d));
  wfd_sizes : sizes_in_range (wf_Batches (d_wf d));
  wfd_rollback : ValidateRunLevelRollback (wf_Rollback (d_wf d)) "rollback" = [];
  wfd_window : ChangeWindow.Check_ LoadLocation (d_Window d) = [];
  wfd_baseline : forall s, wf_Snapshot (d_wf d) = Some s -> baseline_sound s;
  wfd_whitelist : Forall (fun k => exists m a, m <> "" /\ a <> "" /\ hasDot m = false /\ k = m +:+ "." +:+ a) (wf_AllowIrreversible (d_wf d));
  wfd_listed : Forall (fun s => judgedIrreversible policy s = true -> stepKey s ∈ wf_AllowIrreversible (d_wf d)) (wf_Steps (d_wf d)) }.

Lemma each_nil {A} (f : nat -> A -> list issue) (l : list A) (P : A -> Prop) :
  (forall i x, f i x = [] <-> P x) -> each f l = [] <-> Forall P l.
Proof.
  unfold each. revert f. induction l as [|x l IH]; intros f H; [done|].
  rewrite imap_cons. cbn [concat]. rewrite app_nil, Forall_cons, H. rewrite (IH (f ∘ S)); [done|]. intros; apply H.
Qed.
Lemma nil_if (b : bool) (x : issue) : (if b then [] else [x]) = [] <-> b = true.
Proof. by destruct b. Qed.
Lemma if_nil (b : bool) (x : issue) : (if b then [x] else []) = [] <-> b = false.
Proof. by destruct b. Qed.
Lemma eqb_false a b : String.eqb a b = false <-> a <> b.
Proof. apply String.eqb_neq. Qed.

Lemma validateInputs_nil l : validateInputs l = [] <-> Forall (fun p => ip_Type p ∈ "" :: allowedInputTypes) l.
Proof.
  apply each_nil. intros i p. rewrite elem_of_cons, <- inSet_spec.
  destruct (String.eqb_spec (ip_Type p) "") as [->|H]; [naive_solver|]. rewrite nil_if. tauto.
Qed.
Lemma validateTargets_nil l : validateTargets l = [] <-> Forall (fun t => tg_Hosts t <> [] \/ tg_Query t <> "") l.
Proof. apply each_nil. intros i t. destruct (tg_Hosts t); [rewrite if_nil, eqb_false; tauto|naive_solver]. Qed.
Lemma validateSteps_nil l : validateSteps l = [] <-> Forall (fun s => st_Name s <> "" /\ st_Module s <> "" /\ st_Action s <> "") l.
Proof.
  apply each_nil. intros i s. rewrite app_nil, if_nil, eqb_false.
  destruct (String.eqb_spec (st_Module s) ""), (String.eqb_spec (st_Action s) ""); simpl; naive_solver.
Qed.
Lemma validateApproval_nil a : validateApproval a = [] <-> (forall x, a = Some x -> ap_Level x ∈ "" :: ApprovalLevels).
Proof.
  destruct a as [x|]; simpl; [|done].
  destruct (String.eqb_spec (ap_Level x) "") as [H|H].
  - split; [|done]. intros _ ? [= <-]. rewrite H. left.
  - rewrite nil_if. unfold IsApprovalLevel. rewrite inSet_spec. split; [intros Hin ? [= <-]; by right|].
    intros Hx. specialize (Hx x eq_refl). apply elem_of_cons in Hx as [?|?]; done.
Qed.
Lemma validateBatches_nil b : validateBatches b = [] <-> Plan.strategy_known b /\ sizes_in_range b.
Proof.
  unfold validateBatches, Plan.strategy_known, sizes_in_range.
  destruct (String.eqb_spec (bc_Strategy b) "") as [->|H0]; [split; [intros _; split; [left|]; by split|done]|].
  destruct (IsBatchStrategy (bc_Strategy b)) eqn:Hs; simpl.
  - apply inSet_spec in Hs. assert (Hk : bc_Strategy b ∈ "" :: BatchStrategies) by by right.
    destruct (String.eqb_spec (bc_Strategy b) BatchStrategyPercent) as [Hp|Hp].
    + rewrite (each_nil _ _ (fun s => 1 <= s <= 100)); [split; [|tauto]; intros Hr; split; [exact Hk|split; [done|intros Hx; by rewrite Hx in Hp]]|]. intros i x. rewrite if_nil, orb_false_iff, !Z.ltb_ge. lia.
    + destruct (String.eqb_spec (bc_Strategy b) BatchStrategyFixed) as [Hf|Hf]; [|split; [|done]; intros _; split; [exact Hk|done]].
      rewrite (each_nil _ _ (fun s => 0 < s)); [split; [|tauto]; intros Hr; split; [exact Hk|split; [intros Hx; by rewrite Hx in Hf|done]]|]. intros i x. rewrite if_nil, Z.leb_gt. lia.
  - split; [done|]. intros [Hin _]. apply elem_of_cons in Hin as [?|Hin]; [done|]. apply (inSet_spec BatchStrategies) in Hin. unfold IsBatchStrategy in Hs. congruence.
Qed.

Lemma ValidateRunSnapshot_nil spec field : ValidateRunSnapshot spec field = [] <-> (forall s, spec = Some s -> baseline_sound s).
Proof.
  destruct spec as [s|]; simpl; [|done]. transitivity (baseline_sound s); [|naive_solver].
  assert (Ht : negb (String.eqb (rs_Type s) "") && negb (inSet RunSnapshotTypes (rs_Type s)) = false <-> rs_Type s ∈ "" :: RunSnapshotTypes).
  { rewrite elem_of_cons, <- (inSet_spec RunSnapshotTypes), <- String.eqb_eq.
    destruct (String.eqb _ ""), (inSet _ _); simpl; naive_solver. }
  rewrite !app_nil, nil_if, String.eqb_eq, if_nil, Ht. clear Ht.
  rewrite (each_nil _ _ (fun p => Condition.TrimSpace p <> "" /\ absolute p = true)).
  - unfold baseline_sound, RunSnapshotTypes, RunSnapshotScopeRun. destruct (rs_Paths s); naive_solver.
  - intros i p. destruct (String.eqb_spec (Condition.TrimSpace p) ""); [naive_solver|]. rewrite nil_if. naive_solver.
Qed.

Lemma Cut_spec key m a : Plan.Cut key = (m, a) -> hasDot key = true -> hasDot m = false /\ key = m +:+ "." +:+ a.
Proof.
  revert m. induction key as [|c r IH]; intros m; simpl; [done|].
  destruct (Ascii.eqb_spec c ".") as [->|Hc]; [intros [= <- <-] _; done|].
  destruct (Plan.Cut r) as [m' a'] eqn:E. intros [= <- <-] Hr. simpl in Hr. destruct (IH m' eq_refl Hr) as [Hm ->]. simpl.
  apply Ascii.eqb_neq in Hc. rewrite Hc, Hm. done.
Qed.
Lemma Cut_join m a : hasDot m = false -> Plan.Cut (m +:+ "." +:+ a) = (m, a) /\ hasDot (m +:+ "." +:+ a) = true.
Proof.
  induction m as [|c m IH]; [done|]. simpl. intros [Hc Hm]%orb_false_iff. destruct (IH Hm) as [E H]. rewrite Hc, H, E. done.
Qed.
Lemma splitWhitelistKey_some key :
  is_Some (splitWhitelistKey key) <-> exists m a, m <> "" /\ a <> "" /\ hasDot m = false /\ key = m +:+ "." +:+ a.
Proof.
  unfold splitWhitelistKey. split.
  - destruct (Plan.Cut key) as [m a] eqn:E. destruct (hasDot key) eqn:Hd; simpl; [|by intros []].
    destruct (String.eqb_spec m ""), (String.eqb_spec a ""); simpl; try by intros []. intros _.
    destruct (Cut_spec _ _ _ E Hd). eauto 7.
  - intros (m & a & Hm & Ha & Hd & ->). destruct (Cut_join m a Hd) as [-> ->]. simpl.
    apply String.eqb_neq in Hm, Ha. rewrite Hm, Ha. eauto.
Qed.
(** A well-formed whitelist is read back as written. *)
Lemma allowedKeys_id keys : Forall (fun k => is_Some (splitWhitelistKey k)) keys -> allowedKeys keys = keys.
Proof.
  unfold allowedKeys. induction 1 as [|k ks Hk _ IH]; simpl; [done|]. destruct (splitWhitelistKey k) as [[m a]|] eqn:E; [|by destruct Hk].
  f_equal; [|exact IH]. unfold splitWhitelistKey in E. destruct (Plan.Cut k) as [m' a'] eqn:Ec.
  destruct (hasDot k) eqn:Hd; simpl in E; [|done]. destruct (_ || _); [done|]. injection E as -> ->. by destruct (Cut_spec _ _ _ Ec Hd).
Qed.
Lemma validateIrreversibleWhitelist_nil policy wf :
  validateIrreversibleWhitelist policy wf = [] <->
  Forall (fun k => exists m a, m <> "" /\ a <> "" /\ hasDot m = false /\ k = m +:+ "." +:+ a) (wf_AllowIrreversible wf)
  /\ Forall (fun s => judgedIrreversible policy s = true -> stepKey s ∈ wf_AllowIrreversible wf) (wf_Steps wf).
Proof.
  unfold validateIrreversibleWhitelist. rewrite app_nil.
  rewrite (each_nil _ (wf_AllowIrreversible wf) (fun k => is_Some (splitWhitelistKey k))) by (intros i k; destruct (splitWhitelistKey k); split; [eauto|done|done|by intros []]).
  rewrite (each_nil _ (wf_Steps wf) (fun s => judgedIrreversible policy s = true -> stepKey s ∈ allowedKeys (wf_AllowIrreversible wf))).
  2:{ intros i s. rewrite <- inSet_spec. destruct (judgedIrreversible policy s); simpl; [|naive_solver]. rewrite nil_if. naive_solver. }
  setoid_rewrite <- splitWhitelistKey_some. split; intros [Hk Hs]; (split; [done|]); by rewrite (allowedKeys_id _ Hk) in *.
Qed.

Lemma map_nil {A B} (f : A -> B) l : map f l = [] <-> l = [].
Proof. by destruct l. Qed.
Lemma match_nil {A} (l : list A) (x : issue) : match l with [] => [x] | _ => [] end = [] <-> l <> [].
Proof. by destruct l. Qed.
(** The validator accepts exactly the well-formed documents. *)
Lemma Validate_exact policy d : Validate policy (Some d) = [] <-> well_formed policy d.
Proof.
  unfold Validate. rewrite !app_nil, if_nil, eqb_false, !match_nil, !map_nil, validateInputs_nil, validateTargets_nil, validateSteps_nil,
    validateApproval_nil, validateBatches_nil, ValidateRunSnapshot_nil, validateIrreversibleWhitelist_nil.
  split; [intros; by split; destruct_and!|]. intros []. done.
Qed.

End zones.

Definition sampleDocument : Document :=
  MkDocument (MkWorkflow "clean-up" [MkTargetGroup "web" ["web-01"; "web-02"; "web-03"] "" "" 1 5] (MkBatchConfig "fixed" 2 false [1; 2] None)
                [MkStep "drop" "pkg" "remove" [] None None None false false false ["stop"];
                 MkStep "stop" "svc" "stop" [] None None None false false false []] None None None None ["pkg.remove"])
    [MkInputParam "version" "string" ANil true ""] (ChangeWindow.MkWindow "22:00" "04:00" "" 0 ["mon"]).
(** A misspelt strategy and an unlisted removal, in the order of the checks. *)
Example issues_of_a_bad_document :
  Validate (fun _ => None) (MkPolicy ∅ ∅ ∅)
    (Some (MkDocument (MkWorkflow "" [] (MkBatchConfig "waves" 0 false [] None) [MkStep "drop" "pkg" "remove" [] None None None false false false []] None None None None ["pkg"])
             [] (ChangeWindow.MkWindow "" "" "" 0 [])))
  = [("LE002", "name"); ("LE092", "target"); ("LE034", "batches.strategy"); ("LE101", "allow_irreversible[0]"); ("LE082", "steps[0].action")].
Proof. by vm_compute. Qed.
End Validator.
