(* ===== verification/TypeCheck.v ===== *)
(** * TypeCheck: types, their registry, and the checker

    src/internal/dsl/types.go and typechecker.go: the type terms with their
    equality and compatibility, the registry of aliases and enums, the type a
    decoded value has, and the checker the compiler runs after the validator. A
    nil [Type] is [None]; a run-time panic of the checker is [None] too. *)

From Stdlib Require Import ZArith Lia Ascii String.
From stdpp Require Import base gmap sets list strings pretty.
From S2P Require Import Prelude Dsl ChangeWindow Validator.
Import Dsl Validator.
Open Scope string_scope.
Open Scope list_scope.

Module TypeCheck.

(** ** Types *)

Inductive Typ :=
| TypeString | TypeInt | TypeFloat | TypeBool | TypeDuration | TypePercent
| TypeMap (KeyType ValueType : option Typ)
| TypeList (ElementType : option Typ)
| TypeAlias (Name : string) (Target : option Typ)
| TypeEnum (Name : string) (Values : list string).

Fixpoint type_String (t : Typ) : string :=
  match t with
  | TypeString => "string" | TypeInt => "int" | TypeFloat => "float" | TypeBool => "bool" | TypeDuration => "duration" | TypePercent => "percent"
  | TypeMap (Some k) (Some v) => "map<" +:+ type_String k +:+ "," +:+ type_String v +:+ ">"
  | TypeMap _ _ => "map<?,?>"
  | TypeList (Some e) => "list<" +:+ type_String e +:+ ">"
  | TypeList None => "list<?>"
  | TypeAlias n _ => n
  | TypeEnum n _ => "enum " +:+ n
  end.
Definition IsBasic (t : Typ) : bool := match t with TypeAlias _ _ | TypeEnum _ _ => false | _ => true end.

(** The end of a chain of aliases. *)
Fixpoint resolveBasic (t : Typ) : Typ := match t with TypeAlias _ (Some t') => resolveBasic t' | _ => t end.

Fixpoint Equals (t : Typ) (other : Typ) : bool :=
  match t with
  | TypeString => match resolveBasic other with TypeString => true | _ => false end
  | TypeInt => match resolveBasic other with TypeInt => true | _ => false end
  | TypeFloat => match resolveBasic other with TypeFloat => true | _ => false end
  | TypeBool => match resolveBasic other with TypeBool => true | _ => false end
  | TypeDuration => match resolveBasic other with TypeDuration => true | _ => false end
  | TypePercent => match resolveBasic other with TypePercent => true | _ => false end
  | TypeMap (Some k) (Some v) => match other with TypeMap (Some k') (Some v') => Equals k k' && Equals v v' | _ => false end
  | TypeMap _ _ => false
  | TypeList (Some e) => match other with TypeList (Some e') => Equals e e' | _ => false end
  | TypeList None => false
  | TypeAlias n a =>
      match other with
      | TypeAlias n' a' =>
          if negb (String.eqb n n') then false
          else if negb (String.eqb n "") then true
          else match a, a' with Some x, Some y => Equals x y | _, _ => false end
      | _ => false
      end
  | TypeEnum n _ => match other with TypeEnum n' _ => String.eqb n n' | _ => false end
  end.
(** [t.Compatible(other)]: a value of type [other] fits where [t] is declared. *)
Fixpoint Compatible (t : Typ) (other : Typ) : bool :=
  match t with
  | TypeString => true
  | TypeInt | TypeFloat => match resolveBasic other with TypeInt | TypeFloat | TypeString => true | _ => false end
  | TypeBool => match resolveBasic other with TypeBool | TypeString => true | _ => false end
  | TypeDuration => match resolveBasic other with TypeDuration | TypeString => true | _ => false end
  | TypePercent => match resolveBasic other with TypePercent | TypeInt | TypeString => true | _ => false end
  | TypeMap (Some k) (Some v) => match other with TypeMap (Some k') (Some v') => Compatible k k' && Compatible v v' | _ => false end
  | TypeMap _ _ => false
  | TypeList (Some e) => match other with TypeList (Some e') => Compatible e e' | _ => false end
  | TypeList None => false
  | TypeAlias _ (Some a) => Compatible a other
  | TypeAlias _ None => false
  | TypeEnum n _ => match other with TypeEnum n' _ => String.eqb n n' | TypeString => true | _ => false end
  end.
Definition HasValue (t : Typ) (v : string) : bool := match t with TypeEnum _ vs => inSet vs v | _ => false end.

(** ** The registry *)

Record TypeRegistry := MkRegistry { tr_aliases : gmap string Typ; tr_enums : gmap string Typ }.
Definition NewTypeRegistry : TypeRegistry := MkRegistry ∅ ∅.
Definition RegisterAlias (r : TypeRegistry) (name : string) (target : option Typ) : goerr + TypeRegistry :=
  if String.eqb name "" then inl (EText "alias name is empty")
  else match target with
       | None => inl (EText "alias target is nil")
       | Some t => inr (MkRegistry (<[name := TypeAlias name (Some t)]> (tr_aliases r)) (tr_enums r))
       end.
Definition RegisterEnum (r : TypeRegistry) (name : string) (values : list string) : goerr + TypeRegistry :=
  if String.eqb name "" then inl (EText "enum name is empty")
  else match values with
       | [] => inl (EText "enum values are empty")
       | _ => inr (MkRegistry (tr_aliases r) (<[name := TypeEnum name values]> (tr_enums r)))
       end.
Definition basicTypeByName (name : string) : option Typ :=
  match name with
  | "string" => Some TypeString | "int" => Some TypeInt | "float" => Some TypeFloat | "bool" => Some TypeBool
  | "duration" => Some TypeDuration | "percent" => Some TypePercent | _ => None
  end.
Definition Resolve (r : TypeRegistry) (name : string) : option Typ :=
  match basicTypeByName name with
  | Some t => Some t
  | None => match tr_aliases r !! name with Some a => Some a | None => tr_enums r !! name end
  end.

(** ** The checker *)

(** A map is typed by the first entry the iteration meets. *)
Fixpoint inferType (v : any) : option Typ :=
  match v with
  | ANil => None
  | AStr _ => Some TypeString
  | AInt _ => Some TypeInt
  | AFloat _ _ => Some TypeFloat
  | ABool _ => Some TypeBool
  | AList [] => Some (TypeList None)
  | AList (x :: _) => Some (TypeList (inferType x))
  | AMap [] => Some (TypeMap (Some TypeString) None)
  | AMap ((_, x) :: _) => Some (TypeMap (Some TypeString) (inferType x))
  end.

(** The place and the two types of a complaint; the file and the wording are
    for people. *)
Record TypeError := MkTypeError { te_Where : string; te_Expected : option Typ; te_Actual : option Typ }.

Definition strs (names : list string) : list (string * Typ) := map (fun n => (n, TypeString)) names.
Definition actionSignatures (key : string) : option (list (string * Typ)) :=
  match key with
  | "shell.command" | "shell.exec" => Some [("cmd", TypeString); ("timeout", TypeDuration)]
  | "file.write" => Some (strs ["path"; "content"; "mode"])
  | "file.copy" => Some (strs ["src"; "dest"; "mode"])
  | "svc.restart" | "svc.stop" => Some [("name", TypeString); ("timeout", TypeDuration)]
  | "pkg.upgrade" | "pkg.install" => Some (strs ["name"; "version"])
  | "mysql.query" => Some (strs ["sql"; "database"; "host"; "port"; "user"; "password"])
  | "mysql.pt_osc" => Some (strs ["database"; "table"; "alter"; "host"; "port"; "user"; "password"])
  | "mysql.replica_switch" => Some (strs ["new_primary"; "confirm"; "host"; "port"; "user"; "password"])
  | _ => None
  end.
Definition batchStrategyEnum : Typ := TypeEnum "batch_strategy" BatchStrategies.
Definition approvalLevelEnum : Typ := TypeEnum "approval_level" ApprovalLevels.

Definition eachT {A} (f : nat -> A -> list TypeError) (l : list A) : list TypeError := concat (imap f l).
Definition mismatch (where_ : string) (declared actual : option Typ) : list TypeError :=
  match declared, actual with
  | Some t, Some a => if Compatible t a then [] else [MkTypeError where_ declared actual]
  | _, _ => []
  end.
Definition checkInputs (r : TypeRegistry) (inputs : list InputParam) : list TypeError :=
  eachT (fun i p =>
           let declared := Resolve r (ip_Type p) in
           match declared with
           | None => if String.eqb (ip_Type p) "" then [] else [MkTypeError (at_ "input" i) None None]
           | Some _ => mismatch (at_ "input" i +:+ ".default") declared (inferType (ip_Default p))
           end) inputs.
Definition arg (args : list (string * any)) (k : string) : option any :=
  match filter (fun kv => kv.1 = k) args with [] => None | kv :: _ => Some kv.2 end.
Definition checkStepArgs (base : string) (s : Step) : list TypeError :=
  match actionSignatures (st_Module s +:+ "." +:+ st_Action s) with
  | None => []
  | Some sig =>
      concat (map (fun '(key, expected) =>
                     match arg (st_Args s) key with
                     | None => []
                     | Some raw => mismatch (base +:+ ".args." +:+ key) (Some expected) (inferType raw)
                     end) sig)
  end.
Definition checkApproval (a : option ApprovalSpec) : list TypeError :=
  match a with
  | None => []
  | Some a => if String.eqb (ap_Level a) "" then []
              else if HasValue approvalLevelEnum (ap_Level a) then []
              else [MkTypeError "approval.level" (Some approvalLevelEnum) (Some TypeString)]
  end.
Definition checkRollback (r : option RollbackSpec) : list TypeError :=
  match r with
  | None => []
  | Some r => if String.eqb (rb_Strategy r) "" then []
              else if inSet ["snapshot"; "undo-action"; "config-revert"] (rb_Strategy r) then []
              else [MkTypeError "rollback.strategy" None None]
  end.
Definition checkSteps (steps : list Step) : list TypeError :=
  eachT (fun i s => checkStepArgs (at_ "steps" i) s ++ checkApproval (st_Approval s) ++ checkRollback (st_Rollback s)) steps.
(** The expected type of a size stays nil for a strategy the switch does not
    name, and a method call on it panics. *)
Definition checkBatches (b : BatchConfig) : option (list TypeError) :=
  if String.eqb (bc_Strategy b) "" then Some []
  else if negb (HasValue batchStrategyEnum (bc_Strategy b)) then
    Some [MkTypeError "batches.strategy" (Some batchStrategyEnum) (Some TypeString)]
  else
    let stepType := if String.eqb (bc_Strategy b) "percent" then Some TypePercent
                    else if String.eqb (bc_Strategy b) "fixed" || String.eqb (bc_Strategy b) "serial" then Some TypeInt
                    else None in
    match bc_Steps b, stepType with
    | [], _ => Some []
    | _, None => None
    | sizes, Some _ => Some (eachT (fun i _ => mismatch (at_ "batches.steps" i) stepType (Some TypeInt)) sizes)
    end.
Definition Check (r : TypeRegistry) (d : option Document) : option (list TypeError) :=
  match d with
  | None => Some [MkTypeError "workflow is nil" None None]
  | Some d =>
      let wf := d_wf d in
      match checkBatches (wf_Batches wf) with
      | None => None
      | Some bs => Some (checkInputs r (d_Inputs d) ++ checkSteps (wf_Steps wf) ++ bs ++ checkApproval (wf_Approval wf) ++ checkRollback (wf_Rollback wf))
      end
  end.
Definition CheckStrict (r : TypeRegistry) (d : option Document) : option (option TypeError) := head <$> Check r d.

(** ** Lemmas *)

Lemma eachT_nil {A} (f : nat -> A -> list TypeError) (l : list A) (P : A -> Prop) :
  (forall i x, f i x = [] <-> P x) -> eachT f l = [] <-> Forall P l.
Proof.
  unfold eachT. revert f. induction l as [|x l IH]; intros f H; [done|].
  rewrite imap_cons. cbn [concat]. rewrite app_nil, Forall_cons, H. rewrite (IH (f ∘ S)); [done|]. intros; apply H.
Qed.
(** A value fits a declared type; nil fits everything. *)
Definition fits (t : Typ) (v : any) : Prop := forall a, inferType v = Some a -> Compatible t a = true.
Lemma mismatch_nil w t v : mismatch w (Some t) (inferType v) = [] <-> fits t v.
Proof.
  unfold mismatch, fits. destruct (inferType v) as [a|]; [|done]. destruct (Compatible t a) eqn:E; split; try done.
  - intros _ ? [= <-]. done.
  - intros H. specialize (H a eq_refl). congruence.
Qed.
Lemma inputs_clean r l :
  checkInputs r l = [] <-> Forall (fun p => match Resolve r (ip_Type p) with Some t => fits t (ip_Default p) | None => ip_Type p = "" end) l.
Proof.
  apply eachT_nil. intros i p. destruct (Resolve r (ip_Type p)); [apply mismatch_nil|].
  destruct (String.eqb_spec (ip_Type p) ""); naive_solver.
Qed.
Lemma stepArgs_clean base s :
  checkStepArgs base s = [] <->
  (forall sig key t raw, actionSignatures (stepKey s) = Some sig -> (key, t) ∈ sig -> arg (st_Args s) key = Some raw -> fits t raw).
Proof.
  unfold checkStepArgs. fold (stepKey s). destruct (actionSignatures (stepKey s)) as [sig|]; [|naive_solver].
  rewrite concat_nil_Forall, Forall_map, Forall_forall. split.
  - intros H sg key t raw [= <-] Hin Harg. specialize (H _ Hin). simpl in H. rewrite Harg in H. by eapply mismatch_nil.
  - intros H [key t] Hin. simpl. destruct (arg (st_Args s) key) as [raw|] eqn:Harg; [|done]. apply mismatch_nil. eauto.
Qed.

(** The checker crashes exactly on sizes declared for the one-per-target
    strategy, which the validator and the planner both accept. *)
Lemma checker_panics_iff r d :
  Check r (Some d) = None <-> bc_Strategy (wf_Batches (d_wf d)) = BatchStrategyOnePerTarget /\ bc_Steps (wf_Batches (d_wf d)) <> [].
Proof.
  transitivity (checkBatches (wf_Batches (d_wf d)) = None); [simpl; by destruct (checkBatches _)|].
  unfold checkBatches. set (b := wf_Batches (d_wf d)).
  destruct (String.eqb_spec (bc_Strategy b) "") as [->|H0]; [split; [done|by intros [? _]]|].
  destruct (HasValue batchStrategyEnum (bc_Strategy b)) eqn:Hv; simpl.
  - apply inSet_spec in Hv. unfold BatchStrategies in Hv. rewrite !elem_of_cons, elem_of_nil in Hv.
    destruct Hv as [-> |[-> |[-> |[-> |[]]]]]; destruct (bc_Steps b); simpl; naive_solver.
  - split; [done|]. intros [Hx _]. by rewrite Hx in Hv.
Qed.
(** What a clean run of the checker says of the inputs and arguments. *)
Lemma checker_clean r d :
  Check r (Some d) = Some [] ->
  Forall (fun p => match Resolve r (ip_Type p) with Some t => fits t (ip_Default p) | None => ip_Type p = "" end) (d_Inputs d) /\
  Forall (fun s => forall sig key t raw, actionSignatures (stepKey s) = Some sig -> (key, t) ∈ sig -> arg (st_Args s) key = Some raw -> fits t raw)
    (wf_Steps (d_wf d)).
Proof.
  simpl. destruct (checkBatches _) as [bs|]; [|done]. intros [= H]. rewrite !app_nil in H. destruct H as (Hi & Hs & _).
  split; [by apply inputs_clean|]. unfold checkSteps in Hs. rewrite (eachT_nil _ _ (fun s =>
    (forall sig key t raw, actionSignatures (stepKey s) = Some sig -> (key, t) ∈ sig -> arg (st_Args s) key = Some raw -> fits t raw)
    /\ checkApproval (st_Approval s) = [] /\ checkRollback (st_Rollback s) = [])) in Hs.
  - eapply Forall_impl; [exact Hs|]. by intros s [H _].
  - intros i s. by rewrite !app_nil, stepArgs_clean.
Qed.
(** A registered alias stands for its target, and a built-in name cannot be
    taken. *)
Lemma alias_transparent r r' name t other :
  RegisterAlias r name (Some t) = inr r' ->
  Resolve r' name = match basicTypeByName name with Some b => Some b | None => Some (TypeAlias name (Some t)) end /\
  Compatible (TypeAlias name (Some t)) other = Compatible t other.
Proof.
  unfold RegisterAlias. destruct (String.eqb name ""); [done|]. intros [= <-]. split; [|done]. unfold Resolve.
  destruct (basicTypeByName name); [done|]. simpl. by rewrite lookup_insert_eq.
Qed.
(** Seen from the other side an alias hides a map: the same alias does not fit
    itself. *)
Example alias_of_map_not_reflexive :
  let labels := TypeAlias "labels" (Some (TypeMap (Some TypeString) (Some TypeString))) in
  Equals labels labels = true /\ Compatible labels labels = false.
Proof. done. Qed.

Definition oneByOne : Document :=
  MkDocument (MkWorkflow "roll" [MkTargetGroup "web" ["web-01"; "web-02"] "" "" 0 0] (MkBatchConfig "one-per-target" 1 false [1%Z] None)
                [MkStep "restart" "svc" "restart" [("name", AStr "nginx")] None None None false false false []] None None None None [])
    [] (ChangeWindow.ChangeWindow.MkWindow "" "" "" 0 []).
(** A document that validates and can be planned crashes the compiler. *)
Example valid_document_crashes_the_checker :
  Validate (fun _ => None) (MkPolicy ∅ ∅ ∅) (Some oneByOne) = [] /\ Check NewTypeRegistry (Some oneByOne) = None.
Proof. by vm_compute. Qed.
End TypeCheck.
