(* ===== verification/Inputs.v ===== *)
(** * Inputs: values take the place of references

    src/internal/dsl/inputs.go, with the reference scan of compile_warnings.go
    that decides whether it runs at all: declared parameters get their value
    from the run or their default, are checked against their type, and replace
    the references in step arguments, gate checks and snapshot paths. The two
    regular expressions are matched by hand; the argument maps are lists in the
    order of the iteration, which decides only which error comes first. The
    document is rebuilt where the code writes into it: a caller that gets an
    error drops it.

    The theorem: once resolution runs and succeeds, no reference is left
    anywhere on its surface, and it changes nothing else. *)

From Stdlib Require Import ZArith Lia Ascii String.
From stdpp Require Import base gmap sets list strings pretty.
From S2P Require Import Prelude Condition Risk GoStd Dsl Verify ChangeWindow Validator TypeCheck.
Import ChangeWindow Dsl Validator TypeCheck.
Open Scope string_scope.
Open Scope list_scope.
Open Scope Z_scope.

Module Inputs.

(** ** The two patterns *)

Definition isSpace (c : ascii) : bool := inSet [" "; String (ascii_of_nat 9) ""; String (ascii_of_nat 10) ""; String (ascii_of_nat 12) ""; String (ascii_of_nat 13) ""] (String c "").
Fixpoint skipSpace (s : string) : string := match s with String c r => if isSpace c then skipSpace r else s | EmptyString => s end.
Definition identStart (c : ascii) : bool := Condition.between "a" "z" c || Condition.between "A" "Z" c || Ascii.eqb c "_".
Definition identPart (c : ascii) : bool := identStart c || Condition.between "0" "9" c.
Fixpoint takeIdent (s : string) : string * string :=
  match s with
  | String c r => if identPart c then let '(n, r') := takeIdent r in (String c n, r') else (EmptyString, s)
  | EmptyString => (EmptyString, s)
  end.
(** [inputRefRe] at the start of [s]: the name and what follows. *)
Definition matchRef (s : string) : option (string * string) :=
  match Condition.stripPrefix "{{" s with
  | None => None
  | Some s =>
      match Condition.stripPrefix "input." (skipSpace s) with
      | None => None
      | Some s =>
          match skipSpace s with
          | String c r =>
              if identStart c then
                let '(n, rest) := takeIdent r in
                match Condition.stripPrefix "}}" (skipSpace rest) with Some rest => Some (String c n, rest) | None => None end
              else None
          | EmptyString => None
          end
      end
  end.
(** The text cut into references and other bytes, leftmost match first. *)
Fixpoint cut (fuel : nat) (s : string) : list (ascii + string) :=
  match fuel, s with
  | S n, String c r => match matchRef s with Some (name, rest) => inr name :: cut n rest | None => inl c :: cut n r end
  | _, _ => []
  end.
Definition tokens (s : string) : list (ascii + string) := cut (String.length s) s.

(** The run of bytes before the first closing brace, and the rest from it. *)
Fixpoint upToBrace (s : string) : string * string :=
  match s with
  | String c r => if Ascii.eqb c "}" then (EmptyString, s) else let '(a, b) := upToBrace r in (String c a, b)
  | EmptyString => (EmptyString, s)
  end.
(** [leftoverInputRe]. *)
Definition braced (s : string) : bool :=
  match Condition.stripPrefix "{{" s with
  | None => false
  | Some body => let '(run, rest) := upToBrace body in
                 Risk.Contains run "input." && match Condition.stripPrefix "}}" rest with Some _ => true | None => false end
  end.
Fixpoint leftover (s : string) : bool := match s with String _ r => braced s || leftover r | EmptyString => false end.
(** [inputRefPattern]. *)
Fixpoint opensRef (s : string) : bool :=
  match Condition.stripPrefix "{{" s with
  | Some r => match Condition.stripPrefix "input." (skipSpace r) with Some _ => true | None => match s with String _ r => opensRef r | EmptyString => false end end
  | None => match s with String _ r => opensRef r | EmptyString => false end
  end.

(** ** Substitution *)

Definition ErrInputMissing : string := "dsl: input has no value and no default".
Definition ErrInputUndeclared : string := "dsl: reference to an undeclared input".
Definition ErrInputType : string := "dsl: input value does not match its declared type".

Definition undeclared (values : gmap string string) (t : ascii + string) : option string :=
  match t with inr n => match values !! n with None => Some n | Some _ => None end | inl _ => None end.
Definition spell (values : gmap string string) (t : ascii + string) : string :=
  match t with inl c => String c "" | inr n => default "" (values !! n) end.
Definition concatS (l : list string) : string := foldr String.append "" l.
Definition substituteInputRefs (values : gmap string string) (s : string) : goerr + string :=
  if String.eqb s "" || negb (Risk.Contains s "input.") then inr s
  else match omap (undeclared values) (tokens s) with
       | n :: _ => inl (EWrap n (ESentinel ErrInputUndeclared))
       | [] => let out := concatS (map (spell values) (tokens s)) in
               if leftover out then inl (EWrap out (ESentinel ErrInputUndeclared)) else inr out
       end.

Section values.
Context (values : gmap string string).

(** A loop that writes each element back and stops at the first error. *)
Fixpoint eachOf {A} (f : A -> goerr + A) (l : list A) : goerr + list A :=
  match l with
  | [] => inr []
  | x :: r => match f x with
              | inl e => inl e
              | inr y => match eachOf f r with inl e => inl e | inr ys => inr (y :: ys) end
              end
  end.
Definition seqE {A B} (m : goerr + A) (k : A -> goerr + B) : goerr + B := match m with inl e => inl e | inr a => k a end.
Notation "'let?' x := m 'in' k" := (seqE m (fun x => k)) (at level 10, x name, m at level 100, k at level 200).

Fixpoint substituteAny (v : any) : goerr + any :=
  match v with
  | AStr s => let? s' := substituteInputRefs values s in inr (AStr s')
  | AMap m => let? m' := eachOf (fun '(k, x) => let? x' := substituteAny x in inr (k, x')) m in inr (AMap m')
  | AList l => let? l' := eachOf substituteAny l in inr (AList l')
  | _ => inr v
  end.
Definition substituteArgMap (args : list (string * any)) : goerr + list (string * any) :=
  eachOf (fun '(k, x) => let? x' := substituteAny x in inr (k, x')) args.
Definition substituteStrings (l : list string) : goerr + list string := eachOf (substituteInputRefs values) l.
Definition substituteCheck (c : GateCheck) : goerr + GateCheck :=
  let? command := substituteInputRefs values (gc_Command c) in
  let? stdout := substituteInputRefs values (gc_ExpectStdout c) in
  let? timeout := substituteInputRefs values (gc_Timeout c) in
  let? params := substituteArgMap (gc_Params c) in
  inr (MkGateCheck (gc_Type c) command (gc_ExpectExit c) stdout (gc_Source c) timeout (gc_Plugin c) params).
Definition substituteGateInputs (g : GateSpec) : goerr + GateSpec :=
  let? pre := eachOf substituteCheck (gs_Pre g) in
  let? post := eachOf substituteCheck (gs_Post g) in
  let? batch := eachOf substituteCheck (gs_Batch g) in
  inr (MkGateSpec pre post batch).
Definition optionally {A} (f : A -> goerr + A) (o : option A) : goerr + option A :=
  match o with None => inr None | Some x => let? y := f x in inr (Some y) end.

(** An undo step: its own arguments and gate, not its rollback block. *)
Definition substituteUndo (s : Step) : goerr + Step :=
  let? args := substituteArgMap (st_Args s) in
  let? gate := optionally substituteGateInputs (st_Gate s) in
  inr (MkStep (st_Name s) (st_Module s) (st_Action s) args (st_Rollback s) (st_Approval s) gate (st_Idempotent s) (st_Irreversible s)
         (st_RequiresReboot s) (st_DependsOn s)).
Definition substituteUndoBlock (r : RollbackSpec) : goerr + RollbackSpec :=
  let? paths := substituteStrings (rb_SnapshotPaths r) in
  let? steps := eachOf substituteUndo (rb_Steps r) in
  inr (MkRollbackSpec steps (rb_Strategy r) (rb_OnFailure r) (rb_VerifyAfter r) paths).
Definition substituteStepInputs (s : Step) : goerr + Step :=
  let? args := substituteArgMap (st_Args s) in
  let? gate := optionally substituteGateInputs (st_Gate s) in
  let? rollback := optionally substituteUndoBlock (st_Rollback s) in
  inr (MkStep (st_Name s) (st_Module s) (st_Action s) args rollback (st_Approval s) gate (st_Idempotent s) (st_Irreversible s)
         (st_RequiresReboot s) (st_DependsOn s)).
Definition substituteRunBlock (r : RollbackSpec) : goerr + RollbackSpec :=
  let? paths := substituteStrings (rb_SnapshotPaths r) in
  inr (MkRollbackSpec (rb_Steps r) (rb_Strategy r) (rb_OnFailure r) (rb_VerifyAfter r) paths).
Definition substituteWorkflowInputs (wf : Workflow) : goerr + Workflow :=
  let? steps := eachOf substituteStepInputs (wf_Steps wf) in
  let? gate := optionally substituteGateInputs (wf_Gate wf) in
  let? batchGate := optionally (fun '(addr, g) => let? g' := substituteGateInputs g in inr (addr, g')) (bc_Gate (wf_Batches wf)) in
  let? rollback := optionally substituteRunBlock (wf_Rollback wf) in
  let b := wf_Batches wf in
  inr (MkWorkflow (wf_Name wf) (wf_Targets wf) (MkBatchConfig (bc_Strategy b) (bc_MaxConcurrency b) (bc_Serial b) (bc_Steps b) batchGate)
         steps rollback (wf_Approval wf) gate (wf_Snapshot wf) (wf_AllowIrreversible wf)).
End values.

(** ** Resolution *)

Fixpoint valueReferencesInputs (v : any) : bool :=
  match v with
  | AStr s => opensRef s
  | AMap m => existsb (fun '(_, x) => valueReferencesInputs x) m
  | AList l => existsb valueReferencesInputs l
  | _ => false
  end.
Definition argsReferenceInputs (args : list (string * any)) : bool := existsb (fun '(_, x) => valueReferencesInputs x) args.
Fixpoint stepReferencesInputs (s : Step) : bool :=
  argsReferenceInputs (st_Args s) || match st_Rollback s with Some r => undoReferencesInputs r | None => false end
with undoReferencesInputs (r : RollbackSpec) : bool :=
  match r with MkRollbackSpec steps _ _ _ _ => existsb stepReferencesInputs steps end.
Definition referencesInputs (wf : Workflow) : bool := existsb stepReferencesInputs (wf_Steps wf).

Section resolve.
(** [strconv.ParseFloat] as a test, and [Sprintf] of a composite or float
    default. *)
Context (parsesFloat : string -> bool) (sprint : any -> string).

Definition ParseBool (s : string) : bool := inSet ["1"; "t"; "T"; "true"; "TRUE"; "True"; "0"; "f"; "F"; "false"; "FALSE"; "False"] s.
Definition hasPrefix (p s : string) : bool := match Condition.stripPrefix p s with Some _ => true | None => false end.
Definition checkInputType (registry : TypeRegistry) (p : InputParam) (raw : string) : option goerr :=
  let v := Condition.TrimSpace raw in
  let typ := Condition.TrimSpace (ip_Type p) in
  let bad := Some (EWrap (ip_Name p) (ESentinel ErrInputType)) in
  let test (b : bool) := if b then None else bad in
  if hasPrefix "map<" typ || hasPrefix "list<" typ then bad
  else match Resolve registry (ip_Type p) with
       | None => None
       | Some declared =>
           match resolveBasic declared with
           | TypeString => None
           | TypeInt => test (bool_decide (is_Some (GoStd.Atoi v)))
           | TypeFloat => test (parsesFloat v)
           | TypeBool => test (ParseBool v)
           | TypeDuration => test (bool_decide (is_Some (Verify.ParseDuration v)))
           | TypePercent => test (match GoStd.Atoi v with Some n => (0 <=? n) && (n <=? 100) | None => false end)
           | _ => match declared with TypeEnum _ _ => test (HasValue declared v) | _ => None end
           end
       end.
Definition sprintDefault (v : any) : string :=
  match v with AStr s => s | AInt z => pretty z | ABool b => if b then "true" else "false" | _ => sprint v end.

(** The loop over the declarations. *)
Fixpoint resolveValues (inputs : list InputParam) (values : gmap string string) (resolved : gmap string string) : goerr + gmap string string :=
  match inputs with
  | [] => inr resolved
  | p :: rest =>
      if String.eqb (ip_Name p) "" then resolveValues rest values resolved
      else
        match match values !! ip_Name p with
              | Some raw => inr raw
              | None => match ip_Default p with ANil => inl (EWrap (ip_Name p) (ESentinel ErrInputMissing)) | v => inr (sprintDefault v) end
              end with
        | inl e => inl e
        | inr raw => match checkInputType NewTypeRegistry p raw with
                     | Some e => inl e
                     | None => resolveValues rest values (<[ip_Name p := raw]> resolved)
                     end
        end
  end.
Definition ResolveInputs (d : option Document) (values : gmap string string) : goerr + Document :=
  match d with
  | None => inl (EText "dsl: resolve inputs: nil workflow")
  | Some d =>
      if bool_decide (d_Inputs d = []) && negb (referencesInputs (d_wf d)) then inr d
      else match resolveValues (d_Inputs d) values ∅ with
           | inl e => inl e
           | inr resolved => match substituteWorkflowInputs resolved (d_wf d) with
                             | inl e => inl e
                             | inr wf => inr (MkDocument wf (d_Inputs d) (d_Window d))
                             end
           end
  end.
End resolve.

(** ** The surface *)

Fixpoint anyStrings (v : any) : list string :=
  match v with
  | AStr s => [s]
  | AMap m => concat (map (fun '(_, x) => anyStrings x) m)
  | AList l => concat (map anyStrings l)
  | _ => []
  end.
Definition argStrings (args : list (string * any)) : list string := concat (map (fun '(_, x) => anyStrings x) args).
Definition checkStrings (c : GateCheck) : list string := [gc_Command c; gc_ExpectStdout c; gc_Timeout c] ++ argStrings (gc_Params c).
Definition gateStrings (g : GateSpec) : list string := concat (map checkStrings (gs_Pre g ++ gs_Post g ++ gs_Batch g)).
Definition ofOption {A} (f : A -> list string) (o : option A) : list string := match o with Some x => f x | None => [] end.
Definition undoStrings (s : Step) : list string := argStrings (st_Args s) ++ ofOption gateStrings (st_Gate s).
Definition blockStrings (r : RollbackSpec) : list string := rb_SnapshotPaths r ++ concat (map undoStrings (rb_Steps r)).
Definition stepStrings (s : Step) : list string := undoStrings s ++ ofOption blockStrings (st_Rollback s).
(** Every text that resolution reaches. *)
Definition surface (wf : Workflow) : list string :=
  concat (map stepStrings (wf_Steps wf)) ++ ofOption gateStrings (wf_Gate wf) ++ ofOption (gateStrings ∘ snd) (bc_Gate (wf_Batches wf))
  ++ ofOption rb_SnapshotPaths (wf_Rollback wf).
(** What the validator reads of a step. *)
Definition shape (s : Step) : string * string * string * bool * list string := (st_Name s, st_Module s, st_Action s, st_Irreversible s, st_DependsOn s).

(** ** Lemmas *)

Lemma prefix_app sub s r : String.prefix sub s = true -> String.prefix sub (s +:+ r) = true.
Proof.
  revert s. induction sub as [|a sub IH]; intros [|b s]; simpl; try done; [by destruct r|].
  destruct (ascii_dec a b); [apply IH|done].
Qed.
Lemma Contains_app s r sub : Risk.Contains s sub = true -> Risk.Contains (s +:+ r) sub = true.
Proof.
  induction s as [|c s IH]; simpl.
  - rewrite orb_false_r. intros H. destruct sub; [|done]. by destruct r.
  - intros [H|H]%orb_true_iff; apply orb_true_iff; [left|right; auto]. apply (prefix_app sub (String c s) r H).
Qed.
Lemma Contains_cons c s sub : Risk.Contains s sub = true -> Risk.Contains (String c s) sub = true.
Proof. intros H. cbn [Risk.Contains]. rewrite H. apply orb_true_r. Qed.
Lemma Contains_prepend a s sub : Risk.Contains s sub = true -> Risk.Contains (a +:+ s) sub = true.
Proof. induction a as [|c a IH]; [done|]. rewrite Condition.append_cons. intros H. apply Contains_cons. auto. Qed.
Lemma Contains_middle a b r : Risk.Contains (a +:+ "{{" +:+ b +:+ "input." +:+ r) "input." = true.
Proof. do 3 apply Contains_prepend. apply Contains_app. done. Qed.
Lemma upToBrace_app s run rest : upToBrace s = (run, rest) -> s = run +:+ rest.
Proof.
  revert run. induction s as [|c s IH]; intros run; simpl; [by intros [= <- <-]|].
  destruct (Ascii.eqb c "}"); [by intros [= <- <-]|]. destruct (upToBrace s) as [a b]. intros [= <- <-]. simpl. by rewrite (IH a eq_refl).
Qed.
Lemma leftover_mentions s : leftover s = true -> Risk.Contains s "input." = true.
Proof.
  induction s as [|c s IH]; cbn [leftover]; [done|]. intros [H|H]%orb_true_iff; [|apply Contains_cons; auto].
  unfold braced in H. destruct (Condition.stripPrefix "{{" (String c s)) as [body|] eqn:E; [|done].
  apply Condition.stripPrefix_append in E. rewrite E. destruct (upToBrace body) as [run rest] eqn:Eb.
  apply andb_true_iff in H as [H _]. apply upToBrace_app in Eb as ->. do 2 apply Contains_cons. by apply Contains_app.
Qed.

Definition clean (s : string) : Prop := leftover s = false.
Lemma substituteInputRefs_clean values s s' : substituteInputRefs values s = inr s' -> clean s'.
Proof.
  unfold substituteInputRefs. destruct (_ || _) eqn:H.
  - intros [= <-]. unfold clean. destruct (leftover s) eqn:Hl; [|done]. pose proof (leftover_mentions s Hl) as Hm.
    rewrite Hm in H. rewrite orb_false_r in H. apply String.eqb_eq in H. by subst.
  - destruct (omap _ _); [|done]. destruct (leftover _) eqn:Hl; [done|]. by intros [= <-].
Qed.

(** The loops: what holds of every element written holds of the list. *)
Lemma eachOf_inv {A} (f : A -> goerr + A) l l' : eachOf f l = inr l' -> Forall2 (fun x y => f x = inr y) l l'.
Proof.
  revert l'. induction l as [|x l IH]; intros l'; simpl; [by intros [= <-]|].
  destruct (f x) eqn:Ef; [done|]. destruct (eachOf f l) eqn:El; [done|]. intros [= <-]. constructor; auto.
Qed.
Lemma eachOf_clean {A} (f : A -> goerr + A) (strings : A -> list string) l l' :
  (forall x y, f x = inr y -> Forall clean (strings y)) -> eachOf f l = inr l' -> Forall clean (concat (map strings l')).
Proof.
  intros Hf H%eachOf_inv. induction H as [|x y l l' Hxy _ IH]; simpl; [constructor|]. apply Forall_app. eauto.
Qed.
Lemma optionally_inv {A} (f : A -> goerr + A) o o' :
  optionally f o = inr o' -> match o, o' with Some x, Some y => f x = inr y | None, None => True | _, _ => False end.
Proof. destruct o as [x|]; simpl; [|by intros [= <-]]. unfold seqE. destruct (f x) eqn:E; [done|]. by intros [= <-]. Qed.
Lemma optionally_clean {A} (f : A -> goerr + A) (strings : A -> list string) o o' :
  (forall x y, f x = inr y -> Forall clean (strings y)) -> optionally f o = inr o' -> Forall clean (ofOption strings o').
Proof. intros Hf H%optionally_inv. destruct o, o'; try done; simpl; eauto. Qed.
Lemma seqE_inv {A B} (m : goerr + A) (k : A -> goerr + B) b : seqE m k = inr b -> exists a, m = inr a /\ k a = inr b.
Proof. destruct m; simpl; [done|]. eauto. Qed.
Ltac inv_seq :=
  repeat match goal with
         | H : seqE _ _ = inr _ |- _ => apply seqE_inv in H as (? & ? & H)
         end.

Section surface.
Context (values : gmap string string).

Lemma substituteAny_clean : forall v v', substituteAny values v = inr v' -> Forall clean (anyStrings v').
Proof.
  fix IH 1. intros [|b|z|n d|s|l|m] v'; cbn [substituteAny]; intros H.
  1-4: by injection H as <-.
  - inv_seq. injection H as <-. simpl. repeat constructor. by eapply substituteInputRefs_clean.
  - inv_seq. injection H as <-. simpl. revert H0. generalize x. clear x. induction l as [|y l IHl]; intros l'; cbn [eachOf].
    + intros [= <-]. constructor.
    + destruct (substituteAny values y) as [|y'] eqn:Ey; [done|]. destruct (eachOf _ l) as [|ys] eqn:El; [done|]. intros [= <-]. simpl.
      apply Forall_app. split; [by eapply IH|by apply IHl].
  - inv_seq. injection H as <-. simpl. revert H0. generalize x. clear x. induction m as [|[k y] m IHm]; intros m'; cbn [eachOf].
    + intros [= <-]. constructor.
    + destruct (substituteAny values y) as [|y'] eqn:Ey; [done|]. cbn [seqE]. destruct (eachOf _ m) as [|ys] eqn:Em; [done|]. intros [= <-]. simpl.
      apply Forall_app. split; [by eapply IH|by apply IHm].
Qed.
Lemma substituteArgMap_clean args args' : substituteArgMap values args = inr args' -> Forall clean (argStrings args').
Proof.
  apply eachOf_clean. intros [k x] y H. inv_seq. injection H as <-. by eapply substituteAny_clean.
Qed.
Lemma substituteStrings_clean l l' : substituteStrings values l = inr l' -> Forall clean l'.
Proof.
  intros H%eachOf_inv. induction H; constructor; [by eapply substituteInputRefs_clean|done].
Qed.
Lemma substituteCheck_clean c c' : substituteCheck values c = inr c' -> Forall clean (checkStrings c').
Proof.
  unfold substituteCheck. intros H. inv_seq. injection H as <-. unfold checkStrings. simpl.
  repeat (constructor; [by eapply substituteInputRefs_clean|]). by eapply substituteArgMap_clean.
Qed.
Lemma substituteGateInputs_clean g g' : substituteGateInputs values g = inr g' -> Forall clean (gateStrings g').
Proof.
  unfold substituteGateInputs. intros H. inv_seq. injection H as <-. unfold gateStrings. simpl.
  rewrite !map_app, !concat_app. repeat apply Forall_app_2; eapply eachOf_clean; try eassumption; apply substituteCheck_clean.
Qed.
Lemma substituteUndo_clean s s' : substituteUndo values s = inr s' -> Forall clean (undoStrings s').
Proof.
  unfold substituteUndo. intros H. inv_seq. injection H as <-. unfold undoStrings. simpl.
  apply Forall_app_2; [by eapply substituteArgMap_clean|]. eapply optionally_clean; [|eassumption]. apply substituteGateInputs_clean.
Qed.
Lemma substituteStepInputs_clean s s' : substituteStepInputs values s = inr s' -> Forall clean (stepStrings s') /\ shape s' = shape s.
Proof.
  unfold substituteStepInputs. intros H. inv_seq. injection H as <-. split; [|done]. unfold stepStrings, undoStrings. simpl.
  repeat apply Forall_app_2; [by eapply substituteArgMap_clean| |]; (eapply optionally_clean; [|eassumption]).
  - apply substituteGateInputs_clean.
  - clear. unfold substituteUndoBlock. intros r r' H. inv_seq. injection H as <-. unfold blockStrings. simpl.
    apply Forall_app_2; [by eapply substituteStrings_clean|]. eapply eachOf_clean; [|eassumption]. apply substituteUndo_clean.
Qed.
(** A resolved workflow has a clean surface and keeps its shape. *)
Lemma substituteWorkflowInputs_clean wf wf' :
  substituteWorkflowInputs values wf = inr wf' -> Forall clean (surface wf').
Proof.
  unfold substituteWorkflowInputs. intros H. inv_seq. injection H as <-. unfold surface. simpl.
  repeat apply Forall_app_2.
  - eapply eachOf_clean; [|eassumption]. intros a b Hab. by apply substituteStepInputs_clean in Hab as [? _].
  - eapply optionally_clean; [|eassumption]. apply substituteGateInputs_clean.
  - eapply optionally_clean; [|eassumption]. intros [addr g] y Hy. inv_seq. injection Hy as <-. by eapply substituteGateInputs_clean.
  - eapply optionally_clean; [|eassumption]. intros a b Hab. unfold substituteRunBlock in Hab. inv_seq. injection Hab as <-.
    by eapply substituteStrings_clean.
Qed.
End surface.

(** *** What the validator reads is kept *)

Lemma each_shape {A B} (g : A -> B) (f : nat -> A -> list issue) l l' :
  (forall i x y, g x = g y -> f i x = f i y) -> map g l = map g l' -> each f l = each f l'.
Proof.
  unfold each. revert f l'. induction l as [|x l IH]; intros f [|y l'] Hf H; try done.
  cbn [map] in H. injection H as Hxy Hl. rewrite !imap_cons. cbn [concat]. rewrite (Hf 0%nat x y Hxy). f_equal. apply IH; [|done]. intros i; apply Hf.
Qed.
Lemma validateSteps_shape l l' : map shape l = map shape l' -> validateSteps l = validateSteps l'.
Proof. apply each_shape. intros i x y [= -> -> -> _ _]. done. Qed.
Lemma whitelist_shape policy l l' keys :
  map shape l = map shape l' ->
  each (fun i s => if negb (judgedIrreversible policy s) then []
                   else if inSet keys (stepKey s) then [] else [(codeIrreversibleNotWhitelisted, at_ "steps" i +:+ ".action")]) l
  = each (fun i s => if negb (judgedIrreversible policy s) then []
                   else if inSet keys (stepKey s) then [] else [(codeIrreversibleNotWhitelisted, at_ "steps" i +:+ ".action")]) l'.
Proof. apply each_shape. intros i x y [= _ Hm Ha Hi _]. unfold judgedIrreversible, stepKey. by rewrite Hm, Ha, Hi. Qed.
Lemma stepIndex_shape l l' i m : map shape l = map shape l' -> stepIndex l i m = stepIndex l' i m.
Proof.
  revert l' i m. induction l as [|x l IH]; intros [|y l'] i m; try done. simpl. intros [= Hn _ _ _ _ Hl]. rewrite Hn. by apply IH.
Qed.
Lemma depScans_shape l l' : map shape l = map shape l' -> depScans l = depScans l'.
Proof.
  intros H. unfold depScans. rewrite (stepIndex_shape l l' 0 ∅ H). generalize (stepIndex l' 0 ∅). intros m.
  assert (Hg : forall k, imap (fun i s => scanDeps m (k + i) (st_Name s) (st_DependsOn s) []) l
                         = imap (fun i s => scanDeps m (k + i) (st_Name s) (st_DependsOn s) []) l').
  { revert l' H. induction l as [|x l IH]; intros [|y l'] H k; try done. simpl in H. injection H as Hn _ _ _ Hd Hl. rewrite !imap_cons. f_equal.
    - by rewrite Hn, Hd.
    - rewrite !(imap_ext (_ ∘ S) (fun i s => scanDeps m (S k + i) (st_Name s) (st_DependsOn s) []))
        by (intros i z _; simpl; f_equal; lia). by apply IH. }
  exact (Hg 0%nat).
Qed.
Lemma order_shape l l' : map shape l = map shape l' -> (OrderStepsByDependsOn l).2 = (OrderStepsByDependsOn l').2.
Proof.
  intros H. assert (Hlen : length l = length l') by (by rewrite <- (length_map shape l), H, length_map).
  destruct l as [|x l], l' as [|y l']; try done. unfold OrderStepsByDependsOn. rewrite (depScans_shape _ _ H), Hlen.
  by destruct (Nat.ltb _ _).
Qed.
Lemma substituteWorkflowInputs_valid values LoadLocation policy inputs window wf wf' :
  substituteWorkflowInputs values wf = inr wf' ->
  Validate LoadLocation policy (Some (MkDocument wf' inputs window)) = Validate LoadLocation policy (Some (MkDocument wf inputs window)).
Proof.
  unfold substituteWorkflowInputs. intros H. inv_seq. injection H as <-. unfold Validate. simpl.
  assert (Hsh : map shape x = map shape (wf_Steps wf)).
  { apply eachOf_inv in H0. induction H0 as [|a b l l' Hab _ IH]; [done|]. simpl. apply substituteStepInputs_clean in Hab as [_ ->]. by rewrite IH. }
  assert (Hrb : ValidateRunLevelRollback x2 "rollback" = ValidateRunLevelRollback (wf_Rollback wf) "rollback").
  { apply optionally_inv in H3. destruct (wf_Rollback wf) as [r|], x2 as [r'|]; try done. unfold substituteRunBlock in H3. inv_seq.
    injection H3 as <-. simpl. apply eachOf_inv, Forall2_length in H. destruct (rb_SnapshotPaths r), x2; try done.
    cbn [length] in *. by injection H as ->. }
  rewrite (order_shape _ _ Hsh), (validateSteps_shape _ _ Hsh), Hrb. unfold validateIrreversibleWhitelist, validateBatches. simpl.
  rewrite (whitelist_shape policy _ _ _ Hsh). assert (Hnil : x = [] <-> wf_Steps wf = []) by (by rewrite <- (map_nil shape x), Hsh, map_nil).
  destruct x, (wf_Steps wf); naive_solver.
Qed.

(** ** Reference text *)

(** Plain text without opening braces, and a reference with its blanks. *)
Inductive piece := Lit (s : string) | Ref (a b c name : string).
Fixpoint allChars (f : ascii -> bool) (s : string) : bool := match s with String c r => f c && allChars f r | EmptyString => true end.
Definition identifier (n : string) : bool := match n with String c r => identStart c && allChars identPart r | EmptyString => false end.
Definition plain (p : piece) : Prop :=
  match p with
  | Lit s => allChars (fun c => negb (Ascii.eqb c "{")) s = true
  | Ref a b c n => allChars isSpace a = true /\ allChars isSpace b = true /\ allChars isSpace c = true /\ identifier n = true
  end.
Definition printPiece (p : piece) : string := match p with Lit s => s | Ref a b c n => "{{" +:+ a +:+ "input." +:+ b +:+ n +:+ c +:+ "}}" end.
Definition printPieces (ps : list piece) : string := concatS (map printPiece ps).
Fixpoint chars (s : string) : list (ascii + string) := match s with String c r => inl c :: chars r | EmptyString => [] end.
Definition pieceTokens (p : piece) : list (ascii + string) := match p with Lit s => chars s | Ref _ _ _ n => [inr n] end.
(** The text with every reference replaced. *)
Definition fill (values : gmap string string) (p : piece) : string := match p with Lit s => s | Ref _ _ _ n => default "" (values !! n) end.

Lemma empty_append a : "" +:+ a = a.
Proof. done. Qed.
Lemma concatS_app l l' : concatS (l ++ l') = concatS l +:+ concatS l'.
Proof. induction l as [|x l IH]; [done|]. cbn [app foldr]. unfold concatS in *. cbn [foldr]. by rewrite IH, Condition.append_assoc. Qed.
Lemma skipSpace_app a r : allChars isSpace a = true -> match r with String c _ => isSpace c = false | EmptyString => True end -> skipSpace (a +:+ r) = r.
Proof.
  intros Ha Hr. induction a as [|c a IH]; [rewrite empty_append; destruct r as [|c r]; simpl; [done|by rewrite Hr]|].
  rewrite Condition.append_cons. simpl in Ha |- *. apply andb_true_iff in Ha as [-> Ha]. auto.
Qed.
Lemma takeIdent_app n r : allChars identPart n = true -> match r with String c _ => identPart c = false | EmptyString => True end -> takeIdent (n +:+ r) = (n, r).
Proof.
  intros Hn Hr. induction n as [|c n IH]; [rewrite empty_append; destruct r as [|c r]; simpl; [done|by rewrite Hr]|].
  rewrite Condition.append_cons. simpl in Hn |- *. apply andb_true_iff in Hn as [-> Hn]. by rewrite (IH Hn).
Qed.
Lemma space_not_ident c : isSpace c = true -> identPart c = false.
Proof. unfold isSpace. rewrite inSet_spec, !elem_of_cons, elem_of_nil. intros H. by destruct_or!; try injection H as ->. Qed.
Lemma stripPrefix_own p r : Condition.stripPrefix p (p +:+ r) = Some r.
Proof. by apply Condition.stripPrefix_append. Qed.
Lemma ident_not_space c : identStart c = true -> isSpace c = false.
Proof. intros H. destruct (isSpace c) eqn:E; [|done]. apply space_not_ident in E. unfold identPart in E. by rewrite H in E. Qed.

Lemma matchRef_ref a b c n r : plain (Ref a b c n) -> matchRef (printPiece (Ref a b c n) +:+ r) = Some (n, r).
Proof.
  intros (Ha & Hb & Hc & Hn). cbn [printPiece]. rewrite !Condition.append_assoc. unfold matchRef. rewrite stripPrefix_own.
  rewrite (skipSpace_app a) by done. rewrite stripPrefix_own. destruct n as [|x n]; [done|]. cbn in Hn. apply andb_true_iff in Hn as [Hx Hn].
  rewrite (skipSpace_app b) by (done || exact (ident_not_space x Hx)). rewrite Condition.append_cons, Hx.
  rewrite takeIdent_app; [|done|]. 2:{ destruct c as [|y c]; [done|]. cbn in Hc |- *. apply andb_true_iff in Hc as [Hy _]. by apply space_not_ident. }
  rewrite (skipSpace_app c) by done. by rewrite stripPrefix_own.
Qed.
Lemma matchRef_other c r : Ascii.eqb c "{" = false -> matchRef (String c r) = None.
Proof. intros H. unfold matchRef. cbn [Condition.stripPrefix]. rewrite Ascii.eqb_sym in H. by rewrite H. Qed.

Lemma cut_lit s fuel r : allChars (fun c => negb (Ascii.eqb c "{")) s = true -> cut (String.length s + fuel) (s +:+ r) = chars s ++ cut fuel r.
Proof.
  intros H. induction s as [|c s IH]; [done|]. rewrite Condition.append_cons. cbn [allChars] in H. apply andb_true_iff in H as [Hc%negb_true_iff Hs].
  cbn [String.length Nat.add cut chars]. rewrite (matchRef_other c _ Hc). cbn [app]. f_equal. auto.
Qed.
Lemma cut_pieces ps fuel : Forall plain ps -> (String.length (printPieces ps) <= fuel)%nat -> cut fuel (printPieces ps) = concat (map pieceTokens ps).
Proof.
  intros H. revert fuel. induction H as [|p ps Hp _ IH]; intros fuel Hf; [by destruct fuel|].
  change (printPieces (p :: ps)) with (printPiece p +:+ printPieces ps) in *. rewrite Condition.length_append in Hf.
  cbn [map concat]. destruct p as [s|a b c n].
  - replace fuel with (String.length s + (fuel - String.length s))%nat by (cbn in Hf; lia). cbn [printPiece pieceTokens].
    rewrite cut_lit by done. rewrite IH; [done|]. cbn [printPiece] in Hf. lia.
  - pose proof (matchRef_ref a b c n (printPieces ps) Hp) as Hm. cbn [pieceTokens app].
    assert (Hlen : (2 <= String.length (printPiece (Ref a b c n)))%nat) by (cbn [printPiece]; rewrite Condition.length_append; cbn; lia).
    destruct (printPiece (Ref a b c n)) as [|x s] eqn:Ep; [cbn in Hlen; lia|]. rewrite Condition.append_cons in *.
    destruct fuel as [|fuel]; [cbn in Hf; lia|]. cbn [cut]. rewrite Hm. f_equal. apply IH. cbn in Hf. lia.
Qed.
Lemma spell_chars values s : concatS (map (spell values) (chars s)) = s.
Proof. induction s as [|c s IH]; [done|]. cbn [chars map]. unfold concatS in *. cbn [foldr spell]. rewrite IH. done. Qed.
Lemma spell_pieces values ps : concatS (map (spell values) (concat (map pieceTokens ps))) = concatS (map (fill values) ps).
Proof.
  induction ps as [|p ps IH]; [done|]. cbn [map concat]. rewrite map_app, concatS_app, IH. change (concatS (fill values p :: map (fill values) ps)) with (fill values p +:+ concatS (map (fill values) ps)).
  f_equal. destruct p as [s|a b c n]; [apply spell_chars|]. cbn [pieceTokens map spell fill]. unfold concatS. cbn [foldr]. apply Condition.append_empty.
Qed.
Lemma undeclared_pieces values ps :
  omap (undeclared values) (concat (map pieceTokens ps)) = [] <-> (forall a b c n, Ref a b c n ∈ ps -> is_Some (values !! n)).
Proof.
  split.
  - intros H a b c n Hin. destruct (values !! n) eqn:E; [eauto|]. exfalso. apply (not_elem_of_nil n). rewrite <- H.
    apply list_elem_of_omap. exists (inr n). split; [|simpl; by rewrite E]. apply list_elem_of_In, in_concat. exists [inr n].
    split; [|by left]. apply in_map_iff. exists (Ref a b c n). split; [done|by apply list_elem_of_In].
  - intros H. destruct (omap _ _) as [|n l] eqn:E; [done|]. exfalso.
    assert (Hn : n ∈ omap (undeclared values) (concat (map pieceTokens ps))) by (rewrite E; left).
    apply list_elem_of_omap in Hn as (t & Ht & Hu). apply list_elem_of_In, in_concat in Ht as (ts & Hts & Ht).
    apply in_map_iff in Hts as (q & <- & Hq). destruct q as [s|a b c m].
    + cbn [pieceTokens] in Ht. clear -Ht Hu. induction s as [|x s IH]; [done|]. destruct Ht as [<-|Ht]; [done|auto].
    + destruct Ht as [<-|[]]. simpl in Hu. apply list_elem_of_In in Hq. destruct (H _ _ _ _ Hq) as [v Hv]. by rewrite Hv in Hu.
Qed.

(** A text of plain pieces becomes the text with the values in place, provided
    every name has a value and no value brings a reference of its own. *)
Lemma substitute_exact values ps :
  Forall plain ps -> (forall a b c n, Ref a b c n ∈ ps -> is_Some (values !! n)) -> clean (concatS (map (fill values) ps)) ->
  substituteInputRefs values (printPieces ps) = inr (concatS (map (fill values) ps)).
Proof.
  intros Hp Hd Hc. assert (Htok : tokens (printPieces ps) = concat (map pieceTokens ps)) by by apply cut_pieces.
  assert (Hout : concatS (map (spell values) (tokens (printPieces ps))) = concatS (map (fill values) ps)) by (rewrite Htok; apply spell_pieces).
  unfold substituteInputRefs. destruct (_ || _) eqn:Hq.
  - assert (Hnone : forall a b c n, Ref a b c n ∉ ps).
    { intros a b c n Hin. apply orb_true_iff in Hq as [Hq%String.eqb_eq|Hq%negb_true_iff].
      - rewrite Hq in Htok. change (tokens "") with (@nil (ascii + string)) in Htok. symmetry in Htok.
        apply concat_nil_Forall in Htok. rewrite Forall_map, Forall_forall in Htok. by specialize (Htok _ Hin).
      - apply list_elem_of_split in Hin as (l1 & l2 & ->). revert Hq. unfold printPieces. rewrite map_app, concatS_app. cbn [map].
        change (concatS (printPiece (Ref a b c n) :: map printPiece l2)) with (printPiece (Ref a b c n) +:+ concatS (map printPiece l2)).
        cbn [printPiece]. rewrite !Condition.append_assoc. by rewrite Contains_middle. }
    f_equal. clear -Hnone. induction ps as [|p ps IH]; [done|].
    change (printPiece p +:+ printPieces ps = fill values p +:+ concatS (map (fill values) ps)). rewrite IH by set_solver.
    destruct p as [s|a b c n]; [done|]. exfalso. eapply Hnone. left.
  - rewrite Htok. rewrite (proj2 (undeclared_pieces values ps) Hd). rewrite spell_pieces. unfold clean in Hc. by rewrite Hc.
Qed.

(** ** Resolution *)

Section resolution.
Context (parsesFloat : string -> bool) (sprint : any -> string).

(** The value a declaration gets: the run's, else the default. *)
Definition given (values : gmap string string) (p : InputParam) (raw : string) : Prop :=
  values !! ip_Name p = Some raw \/ (values !! ip_Name p = None /\ ip_Default p <> ANil /\ raw = sprintDefault sprint (ip_Default p)).
Lemma resolveValues_given inputs values resolved0 resolved p :
  resolveValues parsesFloat sprint inputs values resolved0 = inr resolved -> p ∈ inputs -> ip_Name p <> "" ->
  exists raw, given values p raw /\ checkInputType parsesFloat NewTypeRegistry p raw = None.
Proof.
  revert resolved0. induction inputs as [|q rest IH]; intros resolved0; [by intros _ ?%elem_of_nil|]. cbn [resolveValues].
  destruct (String.eqb_spec (ip_Name q) "") as [He|He].
  { intros H [->|Hin]%elem_of_cons Hn; [done|]. by eapply IH. }
  destruct (match values !! ip_Name q with Some _ => _ | None => _ end) as [e|raw] eqn:Hraw; [done|].
  destruct (checkInputType parsesFloat NewTypeRegistry q raw) eqn:Hc; [done|]. intros H [->|Hin]%elem_of_cons Hn; [|by eapply IH].
  exists raw. split; [|done]. unfold given. destruct (values !! ip_Name q) as [r|]; [injection Hraw as ->; auto|].
  right. destruct (ip_Default q); try done; injection Hraw as <-; auto.
Qed.
Lemma ResolveInputs_inv d values d' :
  ResolveInputs parsesFloat sprint (Some d) values = inr d' ->
  (d_Inputs d = [] /\ referencesInputs (d_wf d) = false /\ d' = d) \/
  exists resolved wf, resolveValues parsesFloat sprint (d_Inputs d) values ∅ = inr resolved /\
    substituteWorkflowInputs resolved (d_wf d) = inr wf /\ d' = MkDocument wf (d_Inputs d) (d_Window d).
Proof.
  unfold ResolveInputs. case_bool_decide as Hi; destruct (referencesInputs (d_wf d)); cbn [andb negb].
  2: { intros [= <-]. auto. }
  all: destruct (resolveValues _ _ _ _ _) as [e|resolved]; [done|]; destruct (substituteWorkflowInputs _ _) as [e|wf] eqn:Hs; [done|];
    intros [= <-]; right; eauto.
Qed.

(** C13: resolution, when it runs and succeeds, leaves no input reference in any text it
    covers: the arguments of the steps and of their undo steps, the commands,
    outputs, time limits and parameters of every gate check, and the snapshot
    paths of the rollback blocks. Every named declaration had a value, from the
    run or else from its default, that passes the check of its declared type.
    And the document keeps what the validator judges: it has the same issues
    before and after. *)
Theorem references_resolved LoadLocation policy d values d'
    (H : ResolveInputs parsesFloat sprint (Some d) values = inr d') :
  (d_Inputs d <> [] \/ referencesInputs (d_wf d) = true -> Forall clean (surface (d_wf d'))) /\
  (forall p, p ∈ d_Inputs d -> ip_Name p <> "" ->
     exists raw, given values p raw /\ checkInputType parsesFloat NewTypeRegistry p raw = None) /\
  Validate LoadLocation policy (Some d') = Validate LoadLocation policy (Some d).
Proof.
  apply ResolveInputs_inv in H as [(Hi & Hr & ->)|(resolved & wf & Hres & Hsub & ->)].
  - split_and!; [intros [?|?]; congruence| |done]. rewrite Hi. by intros p ?%elem_of_nil.
  - split_and!; [intros _; by eapply substituteWorkflowInputs_clean|intros p; by eapply resolveValues_given|].
    destruct d. by eapply substituteWorkflowInputs_valid.
Qed.
End resolution.

(** ** Concrete documents *)

Definition noWindow : ChangeWindow.Window := ChangeWindow.MkWindow "" "" "" 0 [].
Definition doc (inputs : list InputParam) (s : Step) (gate : option GateSpec) (snap : option RunSnapshotSpec) : Document :=
  MkDocument (MkWorkflow "deploy" [MkTargetGroup "web" ["web-01"] "" "" 0 0] (MkBatchConfig "" 0 false [] None) [s] None None gate snap []) inputs noWindow.
Definition install (rollback : option RollbackSpec) (version : string) : Step :=
  MkStep "install" "pkg" "install" [("name", AStr "nginx"); ("version", AStr version)] rollback None None false false false [].
Definition versionInput : InputParam := MkInputParam "version" "string" (AStr "1.24") false "".

Lemma references_resolved_witness :
  exists d', ResolveInputs (fun _ => false) (fun _ => "") (Some (doc [versionInput] (install None "v{{ input.version }}") None None)) (<["version" := "1.26"]> ∅) = inr d'
             /\ Forall clean (surface (d_wf d')) /\ "v1.26" ∈ surface (d_wf d').
Proof.
  eexists. split; [vm_compute; reflexivity|]. split; [|apply list_elem_of_In; simpl; tauto].
  eapply (references_resolved (fun _ => false) (fun _ => "") (fun _ => None) (MkPolicy ∅ ∅ ∅)
            (doc [versionInput] (install None "v{{ input.version }}") None None) (<["version" := "1.26"]> ∅)).
  - vm_compute. reflexivity.
  - left. discriminate.
Defined.
Example default_used :
  (fun d => surface (d_wf d)) <$> (match ResolveInputs (fun _ => false) (fun _ => "") (Some (doc [versionInput] (install None "v{{input.version}}") None None)) ∅ with inr d => Some d | inl _ => None end)
  = Some ["nginx"; "v1.24"].
Proof. by vm_compute. Qed.

(** ** Limits *)

(** Without a declaration and without a reference in an argument nothing is
    looked at: a reference in a gate command reaches the host as text. *)
Lemma gate_reference_escapes :
  let gate := MkGateSpec [] [MkGateCheck "cmd" "test -f {{input.file}}" 0 "" "" "" "" []] [] in
  let d := doc [] (install None "1") (Some gate) None in
  ResolveInputs (fun _ => false) (fun _ => "") (Some d) ∅ = inr d /\ "test -f {{input.file}}" ∈ surface (d_wf d)
  /\ leftover "test -f {{input.file}}" = true.
Proof. split_and!; [by vm_compute|apply list_elem_of_In; simpl; tauto|by vm_compute]. Qed.
(** The rollback block of an undo step and the run-level baseline are not part
    of the surface: their references survive a resolution that runs. *)
Lemma nested_undo_escapes :
  let inner := MkRollbackSpec [MkStep "again" "shell" "exec" [("cmd", AStr "rm {{input.version}}")] None None None false false false []] "" "" false [] in
  let outer := MkRollbackSpec [install (Some inner) "0"] "undo-action" "" false [] in
  let d := doc [versionInput] (install (Some outer) "1") None (Some (MkRunSnapshotSpec "run" ["/etc/{{input.version}}"] "")) in
  ResolveInputs (fun _ => false) (fun _ => "") (Some d) ∅ = inr d.
Proof. by vm_compute. Qed.
End Inputs.
