(* ===== verification/Gates.v ===== *)
(** * Gates: what a gate checks before it passes

    The gates of src/internal/verify that judge by themselves: the command gate
    (command_gate.go), the three metric gates (slo_gate.go, pre_apply_gate.go,
    grace_period_gate.go), the human gate (human_gate.go) and the plugin gate
    (plugin_gate.go). A check is a program over the history of its interactions
    (context polls, dials, commands, queries, waits, approvals, plugin runs),
    which an arbitrary environment answers. A result is the verdict and the
    reason its details carry; the messages and latencies are for people.
    Decoding a metric answer is a parameter: URL joining, the JSON decoder and
    [Sscanf].

    The theorem: a gate passes only on evidence in the history of that very
    check, and no command the policy forbids is ever run. *)

From Stdlib Require Import ZArith Lia Ascii String.
From stdpp Require Import base sets list strings.
From S2P Require Import Prelude Condition Risk Dsl Verify PlanHash.
Import Dsl.
Open Scope string_scope.
Open Scope list_scope.
Open Scope Z_scope.
Open Scope levee_scope.

Module Gates.

(** ** Values *)

(** A float64; a finite one is the rational it denotes. *)
Inductive float := NaN | NegInf | PosInf | Fin (n : Z) (d : positive).
Definition flt (a b : float) : bool :=
  match a, b with
  | NaN, _ | _, NaN => false
  | Fin n d, Fin m e => n * Z.pos e <? m * Z.pos d
  | NegInf, NegInf | PosInf, _ | _, NegInf => false
  | _, _ => true
  end.
Definition feq (a b : float) : bool :=
  match a, b with
  | Fin n d, Fin m e => n * Z.pos e =? m * Z.pos d
  | NegInf, NegInf | PosInf, PosInf => true
  | _, _ => false
  end.
Definition fle (a b : float) : bool := flt a b || feq a b.

Record ExecResult := MkExec { x_ExitCode : Z; x_Stdout : string; x_Stderr : string }.
Record HumanRequest := MkRequest {
  hr_RunID : string; hr_Gate : string; hr_Reason : string; hr_MinApprovers : Z; hr_ExcludeInitiator : bool; hr_Initiator : string }.
Record HumanDecision := MkDecision { hd_Approved : bool; hd_Approver : string }.
Record PluginSpec := MkPluginSpec { ps_Name : string; ps_BinaryPath : string; ps_Config : list (string * any) }.
Record PluginResponse := MkResponse { pr_OK : bool; pr_Verdict : option bool }.

Inductive SLOCompare := CompareLT | CompareLE | CompareGT | CompareGE | CompareEQ.
Inductive SLOOnFailure := OnFailureBlock | OnFailureWarn | OnFailureSkip.

(** ** Interaction *)

(** An HTTP answer: a transport error, or a status and the read of the body. *)
Definition answer : Type := goerr + Z * (goerr + string).
Inductive ev :=
| EvCtx (e : option goerr)
| EvDial (host : string) (e : option goerr)
| EvExec (host command : string) (r : goerr + ExecResult)
| EvQuery (url query : string) (r : answer)
| EvSleep (d : Z) (woke : bool)
| EvAsk (r : HumanRequest) (budget : option Z) (d : HumanDecision * option goerr)
| EvResolve (plugin : string) (r : goerr + PluginSpec)
| EvPlugin (binary : string) (config params : list (string * any)) (r : goerr + list PluginResponse).

Record env := MkEnv {
  e_ctx : list ev -> option goerr;
  e_dial : string -> list ev -> option goerr;
  e_exec : string -> string -> list ev -> goerr + ExecResult;
  e_query : string -> string -> list ev -> answer;
  e_sleep : Z -> list ev -> bool;
  e_ask : HumanRequest -> option Z -> list ev -> HumanDecision * option goerr;
  e_resolve : string -> list ev -> goerr + PluginSpec;
  e_plugin : string -> list (string * any) -> list (string * any) -> list ev -> goerr + list PluginResponse }.

Record GateResult := MkResult { gr_Passed : bool; gr_Reason : string }.
Definition checked : Type := GateResult * option goerr.
Definition failing (reason : string) : checked := (MkResult false reason, None).
Definition failingErr (reason : string) (e : goerr) : checked := (MkResult false reason, Some e).
Definition passing (reason : string) : checked := (MkResult true reason, None).

(** The fields of [GateInput] the gates read; [in_Channel] is the host of an
    established channel, [in_ChannelFor] whether a provider is set. *)
Record GateInput := MkInput { in_RunID : string; in_Initiator : string; in_TargetIDs : list string; in_Channel : option string; in_ChannelFor : bool }.

Section gates.
Context (E : env).

Definition ctxErr : IO ev (option goerr) := io_ask (e_ctx E) EvCtx.
Definition dial (host : string) : IO ev (option goerr) := io_ask (e_dial E host) (EvDial host).
Definition exec (host cmd : string) : IO ev (goerr + ExecResult) := io_ask (e_exec E host cmd) (EvExec host cmd).
Definition httpGet (url query : string) : IO ev answer := io_ask (e_query E url query) (EvQuery url query).
Definition askHuman (r : HumanRequest) (budget : option Z) : IO ev (HumanDecision * option goerr) := io_ask (e_ask E r budget) (EvAsk r budget).
Definition resolve (plugin : string) : IO ev (goerr + PluginSpec) := io_ask (e_resolve E plugin) (EvResolve plugin).
Definition probePlugin (binary : string) (config params : list (string * any)) : IO ev (goerr + list PluginResponse) :=
  io_ask (e_plugin E binary config params) (EvPlugin binary config params).
(** A wait of no time asks the context instead. *)
Definition sleepCtx (d : Z) : IO ev bool :=
  if d <=? 0 then do! e <- ctxErr; io_ret (match e with None => true | Some _ => false end) else io_ask (e_sleep E d) (EvSleep d).

(** ** The command gate *)

Definition isDigit (c : ascii) : bool := Condition.between "0" "9" c.
(** The scan of [validateGateCommand], with the character before. *)
Fixpoint scanCommand (prev : option ascii) (s : string) : option goerr :=
  match s with
  | EmptyString => None
  | String c r =>
      if Ascii.eqb c ";" then Some (EText "disallowed character ;")
      else if Ascii.eqb c "&" then
        match prev, r with
        | Some p, String d _ => if Ascii.eqb p ">" && isDigit d then scanCommand (Some c) r else Some (EText "disallowed character &")
        | _, _ => Some (EText "disallowed character &")
        end
      else if Ascii.eqb c "`" then Some (EText "disallowed backtick")
      else if Ascii.eqb c "$" then Some (EText "disallowed character $")
      else if Ascii.eqb c (ascii_of_nat 10) || Ascii.eqb c (ascii_of_nat 13) then Some (EText "disallowed newline")
      else scanCommand (Some c) r
  end.
Definition validateGateCommand (cmd : string) : option goerr :=
  if String.eqb (Condition.TrimSpace cmd) "" then Some (EText "empty command") else scanCommand None cmd.

Record CommandGate := MkCommandGate {
  cg_name : string; cg_phase : string; cg_command : string; cg_expectExit : Z; cg_expectStdout : string; cg_timeout : Z; cg_retries : Z; cg_retryDelay : Z;
  cg_policyErr : option goerr }.
Definition second : Z := 1000000000.
Definition DefaultCommandTimeout : Z := 30 * second.
Definition DefaultCommandRetries : Z := 0.
Definition DefaultCommandRetryDelay : Z := second.
(** The options, in the order given. *)
Inductive CommandGateOption :=
| WithCommandTimeout (d : Z) | WithCommandRetries (n : Z) | WithCommandRetryDelay (d : Z) | WithExpectedExit (code : Z) | WithExpectedStdout (s : string).
Definition applyOption (g : CommandGate) (o : CommandGateOption) : CommandGate :=
  let 'MkCommandGate n p c ex out t r rd pe := g in
  match o with
  | WithCommandTimeout d => MkCommandGate n p c ex out d r rd pe
  | WithCommandRetries k => MkCommandGate n p c ex out t k rd pe
  | WithCommandRetryDelay d => MkCommandGate n p c ex out t r d pe
  | WithExpectedExit code => MkCommandGate n p c code out t r rd pe
  | WithExpectedStdout s => MkCommandGate n p c ex s t r rd pe
  end.
Definition NewCommandGate (name phase cmd : string) (opts : list CommandGateOption) : CommandGate :=
  let g := foldl applyOption (MkCommandGate name phase cmd 0 "" DefaultCommandTimeout DefaultCommandRetries DefaultCommandRetryDelay None) opts in
  let 'MkCommandGate n p c ex out t r rd _ := g in MkCommandGate n p c ex out t r rd (validateGateCommand cmd).

(** One trailing line end. *)
Definition trimEnd (suf s : string) : string :=
  match Condition.stripPrefix (String.rev suf) (String.rev s) with Some r => String.rev r | None => s end.
Definition lf : string := String (ascii_of_nat 10) "".
Definition crlf : string := String (ascii_of_nat 13) lf.
Definition trimTrailingNewline (s : string) : string := trimEnd lf (trimEnd crlf s).

Definition command_runOnce (g : CommandGate) (host : string) : IO ev checked :=
  do! r <- exec host (cg_command g);
  io_ret (match r with
          | inl e => failingErr "exec_error" e
          | inr x =>
              if negb (x_ExitCode x =? cg_expectExit g) then failing "exit_code_mismatch"
              else if negb (String.eqb (cg_expectStdout g) "")
                      && negb (String.eqb (trimTrailingNewline (x_Stdout x)) (trimTrailingNewline (cg_expectStdout g))) then failing "stdout_mismatch"
              else passing "match"
          end).

(** The retry loop, with [left] attempts to go; shared by the gates that retry
    one run. The result of a loop that never ran is the zero value. *)
Fixpoint attempts (runOnce : IO ev checked) (retryDelay : Z) (left : nat) (last : checked) : IO ev checked :=
  match left with
  | O => io_ret (last.1, None)
  | S n =>
      do! e <- ctxErr;
      match e with
      | Some _ => io_ret (failing "context_cancelled")
      | None =>
          do! r <- runOnce;
          do! stop <- match r.2 with Some _ => ctxErr | None => io_ret None end;
          match stop with
          | Some _ => io_ret (r.1, None)
          | None =>
              if match r.2 with None => gr_Passed r.1 | Some _ => false end then io_ret (r.1, None)
              else match n with
                   | O => io_ret (r.1, None)
                   | S _ => do! woke <- sleepCtx retryDelay;
                            if woke : bool then attempts runOnce retryDelay n r else io_ret (failing "context_cancelled")
                   end
          end
      end
  end.
Definition attemptCount (retries : Z) : nat := Z.to_nat (retries + 1).
Definition nothingYet : checked := failing "".

Definition checkOnChannel (g : CommandGate) (host : string) : IO ev checked :=
  attempts (command_runOnce g host) (cg_retryDelay g) (attemptCount (cg_retries g)) nothingYet.

(** The loop over the targets; [ok] is [allPassed] so far. *)
Fixpoint acrossTargets (g : CommandGate) (hosts : list string) (ok : bool) : IO ev checked :=
  match hosts with
  | [] => io_ret (if ok then passing "" else failing "")
  | h :: hs =>
      do! e <- ctxErr;
      match e with
      | Some _ => io_ret (failing "context_cancelled")
      | None =>
          do! d <- dial h;
          match d with
          | Some _ => acrossTargets g hs false
          | None => do! r <- checkOnChannel g h; acrossTargets g hs (ok && gr_Passed r.1)
          end
      end
  end.
Definition checkAcrossTargets (g : CommandGate) (input : GateInput) : IO ev checked :=
  match in_TargetIDs input with [] => io_ret (failing "no_targets") | hosts => acrossTargets g hosts true end.

Definition command_Check (g : CommandGate) (input : GateInput) : IO ev checked :=
  do! e <- ctxErr;
  match e with
  | Some _ => io_ret (failing "context_cancelled")
  | None =>
      match cg_policyErr g with
      | Some e => io_ret (failingErr "unsafe_command" (EWrap "unsafe command" e))
      | None =>
          match in_Channel input with
          | Some host => checkOnChannel g host
          | None => if in_ChannelFor input then checkAcrossTargets g input
                    else io_ret (failingErr "missing_channel" (EText "channel is nil"))
          end
      end
  end.

(** ** Metric gates *)

Definition parseCompare (s : string) : SLOCompare :=
  match Risk.ToLower (Condition.TrimSpace s) with
  | "lt" => CompareLT | "le" => CompareLE | "gt" => CompareGT | "ge" => CompareGE | "eq" => CompareEQ
  | _ => CompareLT
  end.
Definition compareValueGeneric (value threshold : float) (op : SLOCompare) : bool :=
  match op with
  | CompareLT => flt value threshold
  | CompareLE => fle value threshold
  | CompareGT => flt threshold value
  | CompareGE => fle threshold value
  | CompareEQ => feq value threshold
  end.
Definition parseOnFailure (s : string) : SLOOnFailure :=
  match s with "block" => OnFailureBlock | "warn" => OnFailureWarn | "skip" => OnFailureSkip | _ => OnFailureBlock end.

(** [promResponse]: the status, the error and the undecoded data. *)
Record promResponse := MkProm { p_Status : string; p_Error : string; p_ResultType : string; p_Result : string }.

(** The library code of a query: [url.JoinPath] with the API path, the request
    built from the URL, [json.Unmarshal] into the envelope, into a pair and into
    the values of a list of samples, and [Sscanf] of one float. *)
Record Codec := MkCodec {
  k_joinPath : string -> goerr + string;
  k_newRequest : string -> option goerr;
  k_response : string -> goerr + promResponse;
  k_pair : string -> goerr + any * any;
  k_samples : string -> goerr + list (any * any);
  k_scan : string -> goerr + float }.
Context (K : Codec).

Definition parseSampleValue (v : any) : goerr + float :=
  match v with
  | AStr x => match k_scan K x with inl e => inl (EWrap "parse value" e) | inr f => inr f end
  | AFloat n d => inr (Fin n d)
  | AInt z => inr (Fin (PlanHash.float64 z) 1)
  | _ => inl (EText "unexpected value type")
  end.
Definition scalarValue (p : promResponse) : goerr + float :=
  match p_ResultType p with
  | "scalar" =>
      match k_pair K (p_Result p) with inl e => inl (EWrap "decode scalar" e) | inr (_, v) => parseSampleValue v end
  | "vector" =>
      match k_samples K (p_Result p) with
      | inl e => inl (EWrap "decode vector" e)
      | inr [] => inl (EText "empty vector result")
      | inr ((_, v) :: _) => parseSampleValue v
      end
  | _ => inl (EText "unsupported result type")
  end.
(** The value an answer carries, after [queryProm] has checked all of it. *)
Definition readAnswer (r : answer) : goerr + float :=
  match r with
  | inl e => inl (EWrap "http get" e)
  | inr (_, inl e) => inl (EWrap "read body" e)
  | inr (status, inr body) =>
      if negb (status =? 200) then inl (EText "prometheus returned status")
      else match k_response K body with
           | inl e => inl (EWrap "decode response" e)
           | inr pr => if negb (String.eqb (p_Status pr) "success") then inl (EText "prometheus status")
                       else match scalarValue pr with inl e => inl (EWrap "slo gate" e) | inr v => inr v end
           end
  end.
Definition queryProm (source query : string) : IO ev (goerr + float) :=
  match k_joinPath K source with
  | inl e => io_ret (inl (EWrap "invalid source URL" e))
  | inr u => match k_newRequest K u with
             | Some e => io_ret (inl (EWrap "build request" e))
             | None => do! r <- httpGet u query; io_ret (readAnswer r)
             end
  end.

(** [SLOGate]. *)
Record SLOGate := MkSLO {
  sg_name : string; sg_query : string; sg_source : string; sg_threshold : float; sg_compare : SLOCompare; sg_timeout : Z; sg_retries : Z; sg_retryDelay : Z }.
Definition DefaultSLOTimeout : Z := 15 * second.
Definition DefaultSLORetries : Z := 2.
Definition DefaultSLORetryDelay : Z := 2 * second.
Definition DefaultSLOSource : string := "http://localhost:9090".
Inductive SLOGateOption := WithSLOTimeout (d : Z) | WithSLORetries (n : Z) | WithSLORetryDelay (d : Z) | WithSLOSource (u : string).
Definition applySLOOption (g : SLOGate) (o : SLOGateOption) : SLOGate :=
  let 'MkSLO n q src th c t r rd := g in
  match o with
  | WithSLOTimeout d => MkSLO n q src th c d r rd
  | WithSLORetries k => MkSLO n q src th c t k rd
  | WithSLORetryDelay d => MkSLO n q src th c t r d
  | WithSLOSource u => MkSLO n q u th c t r rd
  end.
Definition NewSLOGate (name query : string) (threshold : float) (compare : string) (opts : list SLOGateOption) : SLOGate :=
  foldl applySLOOption
    (MkSLO name query DefaultSLOSource threshold (parseCompare compare) DefaultSLOTimeout DefaultSLORetries DefaultSLORetryDelay) opts.
Definition compareValue (g : SLOGate) (value : float) : bool := compareValueGeneric value (sg_threshold g) (sg_compare g).
Definition slo_runOnce (g : SLOGate) : IO ev checked :=
  do! r <- queryProm (sg_source g) (sg_query g);
  io_ret (match r with
          | inl e => failingErr "query_error" e
          | inr v => if compareValue g v then passing "within_threshold" else failing "threshold_exceeded"
          end).
Definition slo_Check (g : SLOGate) : IO ev checked :=
  do! e <- ctxErr;
  match e with
  | Some _ => io_ret (failing "context_cancelled")
  | None => attempts (slo_runOnce g) (sg_retryDelay g) (attemptCount (sg_retries g)) nothingYet
  end.

(** *** Several queries: the pre-apply and the grace-period gate *)

Record SLOQuerySpec := MkSpec { sp_Query : string; sp_Threshold : float; sp_Compare : string; sp_Label : string }.

(** [runQuery] of both gates: [passed] and the reason. *)
Fixpoint queryAttempts (source : string) (spec : SLOQuerySpec) (retryDelay : Z) (left : nat) (last : GateResult) : IO ev GateResult :=
  match left with
  | O => io_ret last
  | S n =>
      do! e <- ctxErr;
      match e with
      | Some _ => io_ret (MkResult false "context_cancelled")
      | None =>
          do! r <- queryProm source (sp_Query spec);
          let now := match r with
                     | inl _ => MkResult false "query_error"
                     | inr v => if compareValueGeneric v (sp_Threshold spec) (parseCompare (sp_Compare spec))
                                then MkResult true "within_threshold" else MkResult false "threshold_exceeded"
                     end in
          if gr_Passed now then io_ret now
          else match n with
               | O => io_ret now
               | S _ => do! woke <- sleepCtx retryDelay;
                        if woke : bool then queryAttempts source spec retryDelay n now else io_ret (MkResult false "context_cancelled")
               end
      end
  end.
(** Without an attempt the zero values are reported. *)
Definition runQuery (source : string) (retries retryDelay : Z) (spec : SLOQuerySpec) : IO ev GateResult :=
  queryAttempts source spec retryDelay (attemptCount retries) (MkResult false "threshold_exceeded").

Definition applyPolicy (p : SLOOnFailure) : GateResult :=
  match p with
  | OnFailureSkip => MkResult true "skipped_by_policy"
  | OnFailureWarn => MkResult false "warn_by_policy"
  | OnFailureBlock => MkResult false "blocked_by_policy"
  end.

(** The loop over the queries, common to both; [failed] says that
    [firstFailure] is set. *)
Fixpoint allQueries (source : string) (retries retryDelay : Z) (onFailure : SLOOnFailure) (specs : list SLOQuerySpec) (failed : bool) : IO ev checked :=
  match specs with
  | [] => io_ret (if failed then (applyPolicy onFailure, None) else passing "all_queries_within_threshold")
  | spec :: rest =>
      do! e <- ctxErr;
      match e with
      | Some _ => io_ret (failing "context_cancelled")
      | None => do! qr <- runQuery source retries retryDelay spec;
                allQueries source retries retryDelay onFailure rest (failed || negb (gr_Passed qr))
      end
  end.

Record PreApplySLOGate := MkPreApply {
  pa_name : string; pa_queries : list SLOQuerySpec; pa_source : string; pa_onFailure : SLOOnFailure; pa_timeout : Z; pa_retries : Z; pa_retryDelay : Z;
  pa_baselineWindow : Z }.
Inductive PreApplySLOGateOption :=
| WithPreApplyTimeout (d : Z) | WithPreApplyRetries (n : Z) | WithPreApplyRetryDelay (d : Z) | WithPreApplySource (u : string)
| WithPreApplyOnFailure (p : SLOOnFailure) | WithPreApplyBaselineWindow (d : Z).
Definition applyPreApplyOption (g : PreApplySLOGate) (o : PreApplySLOGateOption) : PreApplySLOGate :=
  let 'MkPreApply n qs src f t r rd w := g in
  match o with
  | WithPreApplyTimeout d => MkPreApply n qs src f d r rd w
  | WithPreApplyRetries k => MkPreApply n qs src f t k rd w
  | WithPreApplyRetryDelay d => MkPreApply n qs src f t r d w
  | WithPreApplySource u => MkPreApply n qs u f t r rd w
  | WithPreApplyOnFailure p => MkPreApply n qs src p t r rd w
  | WithPreApplyBaselineWindow d => MkPreApply n qs src f t r rd d
  end.
Definition NewPreApplySLOGate (name : string) (queries : list SLOQuerySpec) (opts : list PreApplySLOGateOption) : PreApplySLOGate :=
  foldl applyPreApplyOption
    (MkPreApply name queries DefaultSLOSource OnFailureBlock DefaultSLOTimeout DefaultSLORetries DefaultSLORetryDelay 0) opts.
Definition pre_apply_Check (g : PreApplySLOGate) : IO ev checked :=
  do! e <- ctxErr;
  match e with
  | Some _ => io_ret (failing "context_cancelled")
  | None =>
      match pa_queries g with
      | [] => io_ret (failingErr "no_queries_configured" (EText "no queries configured"))
      | specs => allQueries (pa_source g) (pa_retries g) (pa_retryDelay g) (pa_onFailure g) specs false
      end
  end.

Record GracePeriodConfig := MkGraceConfig { gc_Duration : Z; gc_SLOQueries : list SLOQuerySpec; gc_OnFailure : string }.
Record GracePeriodGate := MkGrace {
  gp_name : string; gp_config : GracePeriodConfig; gp_source : string; gp_onFailure : SLOOnFailure; gp_timeout : Z; gp_retries : Z; gp_retryDelay : Z }.
Definition minute : Z := 60 * second.
Definition MaxGracePeriodDuration : Z := 30 * minute.
Inductive GracePeriodGateOption :=
| WithGracePeriodTimeout (d : Z) | WithGracePeriodRetries (n : Z) | WithGracePeriodRetryDelay (d : Z) | WithGracePeriodSource (u : string)
| WithGracePeriodOnFailure (p : SLOOnFailure).
Definition applyGraceOption (g : GracePeriodGate) (o : GracePeriodGateOption) : GracePeriodGate :=
  let 'MkGrace n c src f t r rd := g in
  match o with
  | WithGracePeriodTimeout d => MkGrace n c src f d r rd
  | WithGracePeriodRetries k => MkGrace n c src f t k rd
  | WithGracePeriodRetryDelay d => MkGrace n c src f t r d
  | WithGracePeriodSource u => MkGrace n c u f t r rd
  | WithGracePeriodOnFailure p => MkGrace n c src p t r rd
  end.
Definition clampGrace (d : Z) : Z :=
  let d := if d <? 0 then 0 else d in if MaxGracePeriodDuration <? d then MaxGracePeriodDuration else d.
Definition NewGracePeriodGate (name : string) (cfg : GracePeriodConfig) (opts : list GracePeriodGateOption) : GracePeriodGate :=
  foldl applyGraceOption
    (MkGrace name (MkGraceConfig (clampGrace (gc_Duration cfg)) (gc_SLOQueries cfg) (gc_OnFailure cfg)) DefaultSLOSource
       (parseOnFailure (gc_OnFailure cfg)) DefaultSLOTimeout DefaultSLORetries DefaultSLORetryDelay) opts.
Definition grace_Check (g : GracePeriodGate) : IO ev checked :=
  do! e <- ctxErr;
  match e with
  | Some _ => io_ret (failing "context_cancelled")
  | None =>
      if gc_Duration (gp_config g) =? 0 then io_ret (passing "duration_zero_skipped")
      else
        do! woke <- sleepCtx (gc_Duration (gp_config g));
        if negb woke then io_ret (failing "cancelled_during_cooldown")
        else match gc_SLOQueries (gp_config g) with
             | [] => io_ret (failingErr "no_queries_configured" (EText "no queries configured"))
             | specs => allQueries (gp_source g) (gp_retries g) (gp_retryDelay g) (gp_onFailure g) specs false
             end
  end.

(** ** The human gate *)

Definition paramString (v : any) (key : string) : goerr + string :=
  match v with AStr s => inr s | _ => inl (EText ("probe param " +:+ key +:+ " must be a string")) end.
Definition paramBool (v : any) (key : string) : goerr + bool :=
  match v with ABool b => inr b | _ => inl (EText ("probe param " +:+ key +:+ " must be a boolean")) end.
(** A float64 out of range of int converts to the least int on amd64, which
    only itself equals. *)
Definition paramInt (v : any) (key : string) : goerr + Z :=
  match v with
  | AInt z => inr (wrap64 z)
  | AFloat n d =>
      let i := Z.quot n (Z.pos d) in
      if (n =? i * Z.pos d) && (- 2 ^ 63 <=? i) && (i <? 2 ^ 63) then inr i else inl (EText ("probe param " +:+ key +:+ " must be an integer"))
  | _ => inl (EText ("probe param " +:+ key +:+ " must be an integer"))
  end.

Record HumanGate := MkHuman {
  hg_name : string; hg_phase : string; hg_approver : bool; hg_timeout : Z; hg_reason : string; hg_minApprovers : Z; hg_excludeInitiator : bool;
  hg_paramsErr : option goerr }.
Definition DefaultHumanTimeout : Z := 1800 * second.

Definition positiveParam (v : any) (key : string) : goerr + Z :=
  match paramInt v key with
  | inl e => inl e
  | inr n => if n <=? 0 then inl (EText ("human param " +:+ key +:+ " must be > 0")) else inr n
  end.
(** One parameter: the gate after it, or the error. *)
Definition applyParam (g : HumanGate) (k : string) (v : any) : goerr + HumanGate :=
  let 'MkHuman n p a t r m x e := g in
  match k with
  | "timeout_seconds" => match positiveParam v k with inl e => inl e | inr i => inr (MkHuman n p a (wrap64 (i * second)) r m x e) end
  | "min_approvers" => match positiveParam v k with inl e => inl e | inr i => inr (MkHuman n p a t r i x e) end
  | "exclude_initiator" => match paramBool v k with inl e => inl e | inr b => inr (MkHuman n p a t r m b e) end
  | "reason" => match paramString v k with inl e => inl e | inr s => inr (MkHuman n p a t s m x e) end
  | _ => inl (EText ("human param " +:+ k +:+ " is not supported"))
  end.
(** The loop ranges over the map in the order of [params]; the first error
    stops it. *)
Fixpoint applyParams (g : HumanGate) (params : list (string * any)) : HumanGate * option goerr :=
  match params with
  | [] => (g, None)
  | (k, v) :: rest => match applyParam g k v with inl e => (g, Some e) | inr g' => applyParams g' rest end
  end.
Definition NewHumanGate (name phase : string) (approver : bool) (params : list (string * any)) : HumanGate :=
  let '(MkHuman n p a t r m x _, e) := applyParams (MkHuman name phase approver DefaultHumanTimeout "" 1 false None) params in
  MkHuman n p a t r m x e.

(** The request, and the wait budget that bounds it ([None]: only the caller's
    context does). *)
Definition humanRequest (g : HumanGate) (input : GateInput) : HumanRequest :=
  MkRequest (in_RunID input) (hg_name g) (hg_reason g) (hg_minApprovers g) (hg_excludeInitiator g) (in_Initiator input).
Definition waitBudget (g : HumanGate) : option Z := if 0 <? hg_timeout g then Some (hg_timeout g) else None.
Definition human_Check (g : HumanGate) (input : GateInput) : IO ev checked :=
  do! e <- ctxErr;
  match e with
  | Some _ => io_ret (failing "context_cancelled")
  | None =>
      match hg_paramsErr g with
      | Some e => io_ret (failingErr "invalid_params" (EWrap "invalid params" e))
      | None =>
          if negb (hg_approver g) then io_ret (failingErr "missing_approver" (EText "no approver configured"))
          else if hg_excludeInitiator g && String.eqb (Condition.TrimSpace (in_Initiator input)) ""
          then io_ret (failingErr "unverifiable_independence" (EText "cannot enforce exclude_initiator"))
          else
            do! r <- askHuman (humanRequest g input) (waitBudget g);
            io_ret (match r with
                    | (d, None) => if hd_Approved d then passing (hg_reason g) else failing (hg_reason g)
                    | (_, Some e) => if errors_Is e "context deadline exceeded" || errors_Is e "context canceled"
                                     then failing (hg_reason g) else failingErr (hg_reason g) e
                    end)
      end
  end.

(** ** The plugin gate *)

Record PluginGate := MkPlugin {
  pg_gateName : string; pg_phase : string; pg_pluginName : string; pg_params : list (string * any); pg_timeout : option Z; pg_resolver : bool }.
Definition NewPluginGate (name phase pluginName : string) (params : list (string * any)) (timeout : string) (resolver : bool) : PluginGate :=
  MkPlugin name phase pluginName params (Verify.positiveDuration timeout) resolver.
(** A key set in a copied map. The seconds are truncated through a float64,
    which is exact below 2^24 seconds. *)
Definition setParam (k : string) (v : any) (m : list (string * any)) : list (string * any) := (k, v) :: filter (fun kv => kv.1 <> k) m.
Definition checkParams (g : PluginGate) : list (string * any) :=
  match pg_timeout g with
  | Some d => setParam "timeout_seconds" (AInt (Z.quot d second)) (pg_params g)
  | None => pg_params g
  end.
Definition zeroResult : GateResult := MkResult false "".
Definition plugin_Check (g : PluginGate) : IO ev checked :=
  if negb (pg_resolver g) then io_ret (zeroResult, Some (EText "no plugin resolver"))
  else if String.eqb (pg_pluginName g) "" then io_ret (zeroResult, Some (EText "empty plugin name"))
  else
    do! s <- resolve (pg_pluginName g);
    match s with
    | inl e => io_ret (zeroResult, Some (EWrap "resolve plugin" e))
    | inr spec =>
        do! r <- probePlugin (ps_BinaryPath spec) (ps_Config spec) (checkParams g);
        io_ret (match r with
                | inl e => (zeroResult, Some (EWrap "plugin" e))
                | inr [initResp; checkResp] =>
                    if negb (pr_OK initResp) then (zeroResult, Some (EText "refused init"))
                    else if negb (pr_OK checkResp) then (zeroResult, Some (EText "refused check"))
                    else match pr_Verdict checkResp with
                         | None => (zeroResult, Some (EText "returned ok without a verdict"))
                         | Some passed => (MkResult passed "", None)
                         end
                | inr _ => (zeroResult, Some (EText "returned responses, expected 2"))
                end)
    end.

(** ** Every gate *)

(** A gate built from a declaration, or one of the two a caller constructs. *)
Inductive gate := Built (g : Verify.Gate) | PreApply (g : PreApplySLOGate) | Grace (g : GracePeriodGate).

(** The constructor calls of [gateFromCheck], then [Check]. Probes are not
    modelled. *)
Definition commandOptions (ex : Z) (out : option string) (t : option Z) : list CommandGateOption :=
  WithExpectedExit ex :: from_option (fun s => [WithExpectedStdout s]) [] out ++ from_option (fun d => [WithCommandTimeout d]) [] t.
Definition checkBuilt (rt : Verify.GateRuntime) (g : Verify.Gate) (input : GateInput) : option (IO ev checked) :=
  match g with
  | Verify.CommandGate n p cmd ex out t => Some (command_Check (NewCommandGate n p cmd (commandOptions ex out t)) input)
  | Verify.SLOGate n q (num, den) cmp src t => Some (slo_Check (NewSLOGate n q (Fin num den) cmp [WithSLOSource src; WithSLOTimeout t]))
  | Verify.HumanGate n p params => Some (human_Check (NewHumanGate n p (Verify.hasApprover rt) params) input)
  | Verify.PluginGate n p pl params t => Some (plugin_Check (NewPluginGate n p pl params t (Verify.hasPlugins rt)))
  | Verify.NoopGate n p pass =>
      Some (do! e <- ctxErr; io_ret (let r := Verify.noopCheck n pass e in (MkResult (Verify.gr_Passed r.1) "noop", r.2)))
  | Verify.ProbeGate _ _ _ => None
  end.
Definition Check (rt : Verify.GateRuntime) (g : gate) (input : GateInput) : option (IO ev checked) :=
  match g with
  | Built g => checkBuilt rt g input
  | PreApply g => Some (pre_apply_Check g)
  | Grace g => Some (grace_Check g)
  end.
End gates.

(** ** Evidence *)

(** The hosts a command gate has to ask. *)
Definition hostsOf (input : GateInput) : list string :=
  match in_Channel input with Some h => [h] | None => in_TargetIDs input end.
Definition ran (cmd : string) (ex : Z) (out : string) (host : string) (t : list ev) : Prop :=
  exists x, EvExec host cmd (inr x) ∈ t /\ x_ExitCode x = ex
            /\ (out = "" \/ trimTrailingNewline (x_Stdout x) = trimTrailingNewline out).
(** A healthy answer to the query whose value is on the right side. *)
Definition within (K : Codec) (query : string) (op : SLOCompare) (threshold : float) (t : list ev) : Prop :=
  exists url r v, EvQuery url query r ∈ t /\ readAnswer K r = inr v /\ compareValueGeneric v threshold op = true.
Definition allWithin (K : Codec) (specs : list SLOQuerySpec) (t : list ev) : Prop :=
  Forall (fun s => within K (sp_Query s) (parseCompare (sp_Compare s)) (sp_Threshold s) t) specs.
Definition approved (g : HumanGate) (input : GateInput) (t : list ev) : Prop :=
  hg_paramsErr g = None
  /\ (hg_excludeInitiator g = true -> Condition.TrimSpace (in_Initiator input) <> "")
  /\ exists who, EvAsk (humanRequest g input) (waitBudget g) (MkDecision true who, None) ∈ t.
Definition vouched (plugin : string) (t : list ev) : Prop :=
  exists spec params i c, EvResolve plugin (inr spec) ∈ t
    /\ EvPlugin (ps_BinaryPath spec) (ps_Config spec) params (inr [i; c]) ∈ t /\ pr_OK i = true /\ pr_OK c = true /\ pr_Verdict c = Some true.

Definition evidence (K : Codec) (rt : Verify.GateRuntime) (g : gate) (input : GateInput) (t : list ev) : Prop :=
  match g with
  | Built (Verify.CommandGate _ _ cmd ex out _) => hostsOf input <> [] /\ Forall (fun h => ran cmd ex (default "" out) h t) (hostsOf input)
  | Built (Verify.SLOGate _ q (n, d) cmp _ _) => within K q (parseCompare cmp) (Fin n d) t
  | Built (Verify.HumanGate n p params) => approved (NewHumanGate n p (Verify.hasApprover rt) params) input t
  | Built (Verify.PluginGate _ _ plugin _ _) => vouched plugin t
  | Built (Verify.NoopGate _ _ pass) => pass = true
  | Built (Verify.ProbeGate _ _ _) => False
  | PreApply g => pa_queries g <> [] /\ (pa_onFailure g = OnFailureSkip \/ allWithin K (pa_queries g) t)
  | Grace g =>
      let d := gc_Duration (gp_config g) in
      d = 0
      \/ exists pre post, t = pre ++ post /\ (0 < d -> EvSleep d true ∈ pre)
                         /\ gc_SLOQueries (gp_config g) <> [] /\ (gp_onFailure g = OnFailureSkip \/ allWithin K (gc_SLOQueries (gp_config g)) post)
  end.
(** The commands run satisfy the policy. *)
Definition permitted (e : ev) : Prop := match e with EvExec _ cmd _ => validateGateCommand cmd = None | _ => True end.

(** ** Reasoning *)

(** [m] meets [Q], a relation of its answer and of the events it adds. *)
Definition meets {A} (m : IO ev A) (Q : A -> list ev -> Prop) : Prop := forall h, exists t, (m h).2 = h ++ t /\ Q (m h).1 t.

Lemma meets_ret {A} (a : A) (Q : A -> list ev -> Prop) : Q a [] -> meets (io_ret a) Q.
Proof. intros H h. exists []. by rewrite app_nil_r. Qed.
Lemma meets_ask {A} (f : list ev -> A) (e : A -> ev) (Q : A -> list ev -> Prop) : (forall a, Q a [e a]) -> meets (io_ask f e) Q.
Proof. intros H h. by exists [e (f h)]. Qed.
Lemma meets_bind {A B} (m : IO ev A) (k : A -> IO ev B) (Q : B -> list ev -> Prop) :
  meets m (fun a t => meets (k a) (fun b t' => Q b (t ++ t'))) -> meets (io_bind m k) Q.
Proof.
  intros H h. destruct (H h) as (t & Et & Hk). unfold io_bind. destruct (m h) as [a h1]. simpl in *. subst h1.
  destruct (Hk (h ++ t)) as (t' & Et' & HQ). exists (t ++ t'). by rewrite Et', app_assoc.
Qed.
Lemma meets_mono {A} (m : IO ev A) (P Q : A -> list ev -> Prop) : meets m P -> (forall a t, P a t -> Q a t) -> meets m Q.
Proof. intros H HPQ h. destruct (H h) as (t & Et & HP). exists t. eauto. Qed.

(** A result is sound: only permitted commands ran, and a pass has evidence. *)
Definition sound (good : list ev -> Prop) (r : checked) (t : list ev) : Prop :=
  Forall permitted t /\ (gr_Passed r.1 = true -> r.2 = None /\ good t).
Definition upward (good : list ev -> Prop) : Prop := forall t t', t ⊆ t' -> good t -> good t'.

Lemma sound_failing (good : list ev -> Prop) reason e t : Forall permitted t -> sound good (MkResult false reason, e) t.
Proof. split; [done|]. simpl. congruence. Qed.
Lemma sound_app (good good' : list ev -> Prop) r t t' :
  Forall permitted t -> (good t' -> good' (t ++ t')) -> sound good r t' -> sound good' r (t ++ t').
Proof. intros Ht Hg [Hp Hr]. split; [by apply Forall_app|]. intros Hpass. destruct (Hr Hpass). auto. Qed.
Lemma ran_upward cmd ex out host : upward (ran cmd ex out host).
Proof. intros t t' Hs (x & Hin & Hx). exists x. auto. Qed.
Lemma within_upward K q op th : upward (within K q op th).
Proof. intros t t' Hs (u & r & v & Hin & Hv). exists u, r, v. auto. Qed.
Lemma permitted_one e : permitted e -> Forall permitted [e].
Proof. by repeat constructor. Qed.

Ltac perm := repeat first [assumption | apply Forall_app_2 | apply Forall_nil_2 | apply Forall_cons_2 | exact I].
(** A longer history holds what a part of it holds. *)
Ltac grow := intros ? ?; rewrite ?elem_of_app, ?elem_of_cons, ?elem_of_app; tauto.

Section proofs.
Context (E : env) (K : Codec).

(** A poll of the context adds a harmless event. *)
Lemma ctxErr_meets (Q : option goerr -> list ev -> Prop) : (forall e, Q e [EvCtx e]) -> meets (ctxErr E) Q.
Proof. apply meets_ask. Qed.
(** A wait adds one harmless event, and a completed wait is on record. *)
Lemma sleepCtx_meets d (Q : bool -> list ev -> Prop) :
  (forall b t, Forall permitted t -> (0 < d -> b = true -> EvSleep d true ∈ t) -> Q b t) -> meets (sleepCtx E d) Q.
Proof.
  intros H. unfold sleepCtx. destruct (Z.leb_spec d 0).
  - apply meets_bind, ctxErr_meets. intros e. apply meets_ret, H; [by repeat constructor|lia].
  - apply meets_ask. intros b. apply H; [by repeat constructor|]. intros _ ->. left.
Qed.

Lemma attempts_meets (runOnce : IO ev checked) (good : list ev -> Prop) delay left last :
  upward good -> meets runOnce (sound good) -> gr_Passed last.1 = false -> meets (attempts E runOnce delay left last) (sound good).
Proof.
  intros Hup Hrun. revert last. induction left as [|n IH]; intros last Hlast; simpl.
  { apply meets_ret. split; [constructor|]. simpl. by rewrite Hlast. }
  apply meets_bind, ctxErr_meets. intros [e|]; [apply meets_ret, sound_failing; perm|].
  apply meets_bind. eapply meets_mono; [exact Hrun|]. intros [res err] t [Hp Hr]. simpl in *.
  assert (Hdone : forall t', Forall permitted t' -> sound good (res, None) ([EvCtx None] ++ t ++ t')).
  { intros t' Ht'. split; [perm|]. simpl. intros Hpass. split; [done|].
    eapply Hup; [|by apply Hr]. grow. }
  apply meets_bind. apply (meets_mono _ (fun _ t' => Forall permitted t')).
  { destruct err; [apply ctxErr_meets|apply meets_ret]; intros; perm. }
  intros [e|] t' Ht'; [apply meets_ret; rewrite app_nil_r; by apply Hdone|].
  destruct (match err with None => gr_Passed res | Some _ => false end) eqn:Hstop; [apply meets_ret; rewrite app_nil_r; by apply Hdone|].
  destruct n as [|n]; [apply meets_ret; rewrite app_nil_r; by apply Hdone|].
  apply meets_bind, sleepCtx_meets. intros [] t2 Ht2 _; [|apply meets_ret, sound_failing; perm].
  eapply meets_mono; [apply IH|].
  - simpl. destruct err; [|done]. destruct (gr_Passed res); [by destruct (Hr eq_refl)|done].
  - intros r t3 H3. rewrite !app_assoc, app_comm_cons. eapply sound_app; [perm| |exact H3]. apply Hup. grow.
Qed.

Lemma command_runOnce_meets g host :
  validateGateCommand (cg_command g) = None ->
  meets (command_runOnce E g host) (sound (ran (cg_command g) (cg_expectExit g) (cg_expectStdout g) host)).
Proof.
  intros Hv. apply meets_bind, meets_ask. intros [e|x]; apply meets_ret; [apply sound_failing; perm; exact Hv|].
  destruct (Z.eqb_spec (x_ExitCode x) (cg_expectExit g)) as [Hx|]; simpl; [|apply sound_failing; perm; exact Hv].
  split_match; [apply sound_failing; perm; exact Hv|]. split; [perm; exact Hv|]. intros _. split; [done|]. exists x.
  split; [left|]. split; [done|]. apply andb_false_iff in Heqb as [H|H]; apply negb_false_iff, String.eqb_eq in H; auto.
Qed.
Lemma checkOnChannel_meets g host :
  validateGateCommand (cg_command g) = None ->
  meets (checkOnChannel E g host) (sound (ran (cg_command g) (cg_expectExit g) (cg_expectStdout g) host)).
Proof. intros Hv. apply attempts_meets; [apply ran_upward|by apply command_runOnce_meets|done]. Qed.

(** Every target left to visit has run the command if the loop passes. *)
Lemma acrossTargets_meets g hosts ok :
  validateGateCommand (cg_command g) = None ->
  meets (acrossTargets E g hosts ok)
    (sound (fun t => ok = true /\ Forall (fun h => ran (cg_command g) (cg_expectExit g) (cg_expectStdout g) h t) hosts)).
Proof.
  intros Hv. revert ok. induction hosts as [|h hs IH]; intros ok; simpl.
  { apply meets_ret. destruct ok; [|by apply sound_failing]. split; [constructor|]. auto. }
  apply meets_bind, ctxErr_meets. intros [e|]; [apply meets_ret, sound_failing; perm|].
  apply meets_bind, meets_ask. intros [e|].
  - eapply meets_mono; [apply IH|]. intros r t Hr. rewrite app_assoc. eapply sound_app; [perm| |exact Hr]. intros [? _]. done.
  - apply meets_bind. eapply meets_mono; [by apply checkOnChannel_meets|]. intros r t [Hp Hr].
    eapply meets_mono; [apply IH|]. intros r' t' Hr'. rewrite !app_assoc. eapply sound_app; [perm| |exact Hr'].
    intros [[-> Hpass]%andb_true_iff Hhs]. destruct (Hr Hpass) as [_ Hran]. split; [done|]. constructor.
    + eapply ran_upward; [|exact Hran]. grow.
    + eapply Forall_impl; [exact Hhs|]. intros h' H'. simpl in *. eapply ran_upward; [|exact H']. grow.
Qed.
Lemma command_Check_meets g input :
  cg_policyErr g = validateGateCommand (cg_command g) ->
  meets (command_Check E g input)
    (sound (fun t => hostsOf input <> [] /\ Forall (fun h => ran (cg_command g) (cg_expectExit g) (cg_expectStdout g) h t) (hostsOf input))).
Proof.
  intros Hpol. apply meets_bind, ctxErr_meets. intros [e|]; [apply meets_ret, sound_failing; perm|].
  destruct (cg_policyErr g) eqn:Hv; [apply meets_ret, sound_failing; perm|]. symmetry in Hpol. unfold hostsOf.
  destruct (in_Channel input) as [h|].
  - eapply meets_mono; [by apply checkOnChannel_meets|]. intros r t Hr. eapply sound_app; [perm| |exact Hr].
    intros Hran. split; [done|]. constructor; [|constructor]. eapply ran_upward; [|exact Hran]. grow.
  - destruct (in_ChannelFor input); [|apply meets_ret, sound_failing; perm]. unfold checkAcrossTargets.
    destruct (in_TargetIDs input) as [|h hs]; [apply meets_ret, sound_failing; perm|].
    eapply meets_mono; [by apply acrossTargets_meets|]. intros r t Hr. eapply sound_app; [perm| |exact Hr].
    intros [_ Hran]. split; [done|]. eapply Forall_impl; [exact Hran|]. intros x Hx. simpl in Hx. eapply ran_upward; [|exact Hx].
    grow.
Qed.

(** A value returned by a query was read off an answer on record. *)
Lemma queryProm_meets source query (Q : goerr + float -> list ev -> Prop) :
  (forall r t, Forall permitted t -> (forall v, r = inr v -> exists url a, EvQuery url query a ∈ t /\ readAnswer K a = inr v) -> Q r t) ->
  meets (queryProm E K source query) Q.
Proof.
  intros H. unfold queryProm. destruct (k_joinPath K source) as [e|u]; [by apply meets_ret, H|].
  destruct (k_newRequest K u) as [e|]; [by apply meets_ret, H|].
  apply meets_bind, meets_ask. intros a. apply meets_ret, H; [perm|]. intros v Hv. exists u, a. split; [left|done].
Qed.
Lemma slo_Check_meets g : meets (slo_Check E K g) (sound (within K (sg_query g) (sg_compare g) (sg_threshold g))).
Proof.
  apply meets_bind, ctxErr_meets. intros [e|]; [apply meets_ret, sound_failing; perm|].
  eapply meets_mono; [apply (attempts_meets _ (within K (sg_query g) (sg_compare g) (sg_threshold g)))|].
  - apply within_upward.
  - apply meets_bind, queryProm_meets. intros [e|v] t Ht Hv; apply meets_ret; rewrite app_nil_r; [by apply sound_failing|].
    destruct (compareValue g v) eqn:Hc; [|by apply sound_failing]. split; [done|]. intros _. split; [done|].
    destruct (Hv v eq_refl) as (u & a & Hin & Ha). by exists u, a, v.
  - done.
  - intros r t Hr. eapply sound_app; [perm| |exact Hr]. apply within_upward. grow.
Qed.

(** Like [sound], for the result of one query. *)
Definition answered (spec : SLOQuerySpec) (r : GateResult) (t : list ev) : Prop :=
  Forall permitted t /\ (gr_Passed r = true -> within K (sp_Query spec) (parseCompare (sp_Compare spec)) (sp_Threshold spec) t).
Lemma answered_failing spec reason t : Forall permitted t -> answered spec (MkResult false reason) t.
Proof. by split. Qed.
Lemma queryAttempts_meets source spec delay left last :
  gr_Passed last = false -> meets (queryAttempts E K source spec delay left last) (answered spec).
Proof.
  revert last. induction left as [|n IH]; intros last Hlast; simpl.
  { apply meets_ret. split; [constructor|]. by rewrite Hlast. }
  apply meets_bind, ctxErr_meets. intros [e|]; [apply meets_ret, answered_failing; perm|].
  apply meets_bind, queryProm_meets. intros r t Ht Hv.
  set (now := match r with inl _ => _ | inr _ => _ end).
  assert (Hnow : answered spec now ([EvCtx None] ++ t)).
  { split; [perm|]. subst now. destruct r as [e|v]; [done|]. destruct (compareValueGeneric v _ _) eqn:Hc; [|done]. intros _.
    destruct (Hv v eq_refl) as (u & a & Hin & Ha). exists u, a, v. split; [by right|done]. }
  destruct (gr_Passed now) eqn:Hpass; [apply meets_ret; by rewrite app_nil_r|].
  destruct n as [|n]; [apply meets_ret; by rewrite app_nil_r|].
  apply meets_bind, sleepCtx_meets. intros [] t2 Ht2 _; [|apply meets_ret, answered_failing; perm].
  eapply meets_mono; [by apply IH|]. intros r' t3 [Hp Hr']. split; [perm|]. intros H. eapply within_upward; [|by apply Hr']. grow.
Qed.
Lemma allQueries_meets source retries delay onFailure specs failed :
  meets (allQueries E K source retries delay onFailure specs failed)
    (sound (fun t => onFailure = OnFailureSkip \/ failed = false /\ allWithin K specs t)).
Proof.
  revert failed. induction specs as [|spec rest IH]; intros failed; simpl.
  { apply meets_ret. split; [constructor|]. destruct failed; [|intros _; split; [done|right; by repeat constructor]].
    destruct onFailure; simpl; auto; congruence. }
  apply meets_bind, ctxErr_meets. intros [e|]; [apply meets_ret, sound_failing; perm|].
  apply meets_bind. eapply meets_mono; [by apply queryAttempts_meets|]. intros r t [Hp Hr].
  eapply meets_mono; [apply IH|]. intros r' t' Hr'. rewrite app_assoc. eapply sound_app; [perm| |exact Hr'].
  intros [->|[[-> Hpass%negb_false_iff]%orb_false_iff Hall]]; [by left|]. right. split; [done|]. constructor.
  - eapply within_upward; [|by apply Hr]. grow.
  - eapply Forall_impl; [exact Hall|]. intros s Hs. simpl in Hs. eapply within_upward; [|exact Hs]. grow.
Qed.
Lemma pre_apply_Check_meets g :
  meets (pre_apply_Check E K g) (sound (fun t => pa_queries g <> [] /\ (pa_onFailure g = OnFailureSkip \/ allWithin K (pa_queries g) t))).
Proof.
  apply meets_bind, ctxErr_meets. intros [e|]; [apply meets_ret, sound_failing; perm|].
  destruct (pa_queries g) as [|q qs] eqn:Hq; [apply meets_ret, sound_failing; perm|].
  eapply meets_mono; [apply allQueries_meets|]. intros r t Hr. eapply sound_app; [perm| |exact Hr].
  intros H. split; [done|]. destruct H as [->|[_ H]]; [by left|right].
  eapply Forall_impl; [exact H|]. intros s Hs. simpl in Hs. eapply within_upward; [|exact Hs]. grow.
Qed.
Lemma grace_Check_meets rt g input : meets (grace_Check E K g) (sound (evidence K rt (Grace g) input)).
Proof.
  apply meets_bind, ctxErr_meets. intros [e|]; [apply meets_ret, sound_failing; perm|].
  destruct (Z.eqb_spec (gc_Duration (gp_config g)) 0) as [Hd|]; [apply meets_ret; split; [perm|]; simpl; auto|].
  apply meets_bind, sleepCtx_meets. intros [] t Ht Hwoke; cbn [negb]; [|apply meets_ret, sound_failing; perm].
  destruct (gc_SLOQueries (gp_config g)) as [|q qs] eqn:Hq; [apply meets_ret, sound_failing; perm|].
  eapply meets_mono; [apply allQueries_meets|]. intros r t' Hr. rewrite app_assoc. eapply sound_app; [perm| |exact Hr].
  intros H. right. exists ([EvCtx None] ++ t), t'. split; [done|]. split; [intros Hpos; right; auto|]. rewrite Hq. split; [done|].
  destruct H as [->|[_ H]]; auto.
Qed.
Lemma human_Check_meets g input : meets (human_Check E g input) (sound (approved g input)).
Proof.
  apply meets_bind, ctxErr_meets. intros [e|]; [apply meets_ret, sound_failing; perm|].
  destruct (hg_paramsErr g) eqn:Hpe; [apply meets_ret, sound_failing; perm|].
  destruct (hg_approver g); simpl; [|apply meets_ret, sound_failing; perm].
  destruct (hg_excludeInitiator g && _) eqn:Hx; [apply meets_ret, sound_failing; perm|].
  apply meets_bind, meets_ask. intros [[ok who] [e|]]; apply meets_ret; [destruct (_ || _); apply sound_failing; perm|].
  destruct ok; [|apply sound_failing; perm]. split; [perm|]. intros _. split; [done|]. split; [done|]. split.
  - intros Hex Hti. by rewrite Hex, Hti in Hx.
  - exists who. right. left.
Qed.
Lemma plugin_Check_meets g : meets (plugin_Check E g) (sound (vouched (pg_pluginName g))).
Proof.
  unfold plugin_Check. destruct (pg_resolver g); simpl; [|by apply meets_ret, sound_failing].
  destruct (String.eqb _ ""); [by apply meets_ret, sound_failing|].
  apply meets_bind, meets_ask. intros [e|spec]; [apply meets_ret, sound_failing; perm|].
  apply meets_bind, meets_ask. intros [e|[|i [|c [|]]]]; apply meets_ret; try (apply sound_failing; perm).
  destruct (pr_OK i) eqn:Hi; simpl; [|apply sound_failing; perm]. destruct (pr_OK c) eqn:Hc; simpl; [|apply sound_failing; perm].
  destruct (pr_Verdict c) as [b|] eqn:Hv; [|apply sound_failing; perm]. split; [perm|]. simpl. intros ->. split; [done|].
  eexists spec, _, i, c. split; [left|]. split; [right; left|]. auto.
Qed.
Lemma built_command n p cmd ex out t :
  let g := NewCommandGate n p cmd (commandOptions ex out t) in
  cg_command g = cmd /\ cg_expectExit g = ex /\ cg_expectStdout g = default "" out /\ cg_policyErr g = validateGateCommand (cg_command g).
Proof. by destruct out, t. Qed.
Lemma checkBuilt_meets rt g input m : checkBuilt E K rt g input = Some m -> meets m (sound (evidence K rt (Built g) input)).
Proof.
  destruct g as [n p cmd ex out t|n p ps|n q [num den] cmp src t|n p ps|n p pl ps t|n p pass]; intros [= <-].
  - destruct (built_command n p cmd ex out t) as (Hc & He & Ho & Hpol). eapply meets_mono; [by apply command_Check_meets|].
    rewrite Hc, He, Ho. auto.
  - apply slo_Check_meets.
  - apply human_Check_meets.
  - apply plugin_Check_meets.
  - apply meets_bind, ctxErr_meets. intros [e|]; apply meets_ret; (split; [perm|]); simpl; [congruence|auto].
Qed.
Lemma Check_meets rt g input m : Check E K rt g input = Some m -> meets m (sound (evidence K rt g input)).
Proof.
  destruct g; [apply checkBuilt_meets| |]; intros [= <-]; [apply pre_apply_Check_meets|apply grace_Check_meets].
Qed.
End proofs.


(** ** A concrete check *)

(** Two hosts answer; the context stays alive; metrics, people and plugins do
    not. *)
Definition quietEnv (out : string -> string) : env :=
  MkEnv (fun _ => None) (fun _ _ => None) (fun host _ _ => inr (MkExec 0 (out host) "")) (fun _ _ _ => inl (EText "down")) (fun _ _ => true)
        (fun _ _ _ => (MkDecision false "", Some (EText "down"))) (fun _ _ => inl (EText "down")) (fun _ _ _ _ => inl (EText "down")).
Definition noCodec : Codec :=
  MkCodec inr (fun _ => None) (fun _ => inl (EText "json")) (fun _ => inl (EText "json")) (fun _ => inl (EText "json")) (fun _ => inl (EText "scan")).
Definition sampleRt : Verify.GateRuntime := Verify.MkGateRuntime "" false false true.
Definition sampleInput : GateInput := MkInput "run-1" "alice" ["web-01"; "web-02"] None true.
Definition activeGate : gate := Built (Verify.CommandGate "ready" "post_batch" "systemctl is-active nginx 2>&1" 0 (Some "active") None).
Definition verdict (out : string -> string) (g : gate) : option checked :=
  (fun m => (m []).1) <$> Check (quietEnv out) noCodec sampleRt g sampleInput.


(** One host that answers otherwise fails the gate, and a chained command is
    refused before anything runs. *)
Example one_host_fails :
  verdict (fun h => if String.eqb h "web-02" then "failed" +:+ lf else "active" +:+ lf) activeGate = Some (failing "").
Proof. reflexivity. Qed.
Example chained_command_refused :
  (fun m => (m [])) <$> Check (quietEnv (fun _ => "")) noCodec sampleRt
    (Built (Verify.CommandGate "ready" "post_batch" "true && reboot" 0 None None)) sampleInput
  = Some (failingErr "unsafe_command" (EWrap "unsafe command" (EText "disallowed character &")), [EvCtx None]).
Proof. reflexivity. Qed.

(** ** Limits *)

(** No comparison accepts a value that is not a number. *)
Lemma nan_fails threshold op : compareValueGeneric NaN threshold op = false.
Proof. by destruct op, threshold. Qed.
(** The spelling a workflow uses for "at least" is read as "below" by the gates
    that parse the operator themselves: a query that must stay at 99 or more
    passes exactly when it is lower. *)
Lemma gte_means_below v threshold : compareValueGeneric v threshold (parseCompare "gte") = flt v threshold.
Proof. done. Qed.
(** A positive number of seconds can wrap to a negative budget, which removes
    the gate's own time limit. *)
Lemma huge_timeout_unbounded :
  let g := NewHumanGate "sign-off" "pre_apply" true [("timeout_seconds", AInt 9223372037)] in
  hg_paramsErr g = None /\ waitBudget g = None.
Proof. by vm_compute. Qed.
(** The cool-down of a constructed gate is within its bounds. *)
Lemma grace_bounded name cfg opts : 0 <= gc_Duration (gp_config (NewGracePeriodGate name cfg opts)) <= MaxGracePeriodDuration.
Proof.
  unfold NewGracePeriodGate.
  assert (H : forall g, gp_config (foldl applyGraceOption g opts) = gp_config g).
  { induction opts as [|o os IH]; intros g; simpl; [done|]. rewrite IH. by destruct g, o. }
  rewrite H. simpl. unfold clampGrace, MaxGracePeriodDuration, minute, second. repeat split_match; lia.
Qed.
End Gates.
